(* ===== verification/_CoqProject ===== *)
-Q . S2P
Prelude.v
BitField.v
V128.v
Bytes.v
SpuOpcodes.v
SpuThread.v
SpuInterp.v
SpuWf.v
SpuDecode.v
SpuArith.v
SpuElem.v
SpuQuad.v
SpuMask.v
SpuFlow.v
SpuChannel.v
SpuMailbox.v
SpuOutbox.v
SpuChannel4.v
SpuQueue4.v
GuestMem.v
Rtc.v
RtcConv.v
RtcText.v
RtcCalendar.v
RtcMem.v
RtcRound.v
SyncSys.v
SyncMutex.v
SyncBarrier.v
SyncRwm.v
SyncQueue.v
SyncFifo.v
VfsName.v
Vfs.v
VfsPath.v
Lv2Queue.v
Lv2Sys.v
Lv2Sema.v
Lv2SemaSafe.v
Lv2Sched.v
Lv2Run.v
FileStream.v
Psf.v
PsfRound.v
PpuOpcodes.v
PpuThread.v
Neon.v
PpuVec.v
PpuInterp.v
PpuWf.v
PpuArith.v
PpuRotate.v
PpuFlow.v
PpuSpr.v
PpuMem.v
PpuDecode.v
PpuEncode.v
PpuRun.v
PpuVecSat.v
PpuVecSum.v
PpuVecShift.v
PpuVecMem.v
