(* ===== verification/Prelude.v ===== *)
(** * EmuCoreC: verification of the emulator core

    EmuCoreC runs PlayStation 3 programs: the C++ core under src/core/ interprets or
    recompiles the code of the Cell processor's PPU and SPUs, maps guest memory, and
    implements the guest's kernel (lv2) and system libraries (HLE modules) on the host.
    This library models eight of its parts and proves what makes each of them correct.

    ** The parts and where they are modelled

    Shared ground.
    - Prelude: machine integers ([wrap], [sint]: a [w]-bit value is a [Z], conversions
      written out), C++ division, rotation and counting, loops, tactics and hint
      databases.
    - BitField: [bf_t] of Utilities/BitField.h with its get/put laws.
    - V128: [v128] of rpcs3/util/v128.hpp as one 128-bit integer with lanes, and the
      vector intrinsics of Emu/CPU/sse2neon.h and util/simd.hpp.
    - Bytes: byte-addressed memory and big-endian values, for SPU local storage and for
      guest main memory.

    The SPU interpreter (Emu/Cell/SPUOpcodes.h, SPUThread.h, SPUThread.cpp,
    SPUInterpreter.cpp and the loop [old_interpreter] of SPUCommonRecompiler.cpp).
    - SpuOpcodes: instruction word fields, the instruction list, the 2048-entry decoder
      table and the encoders of [namespace spu_instructions].
    - SpuThread: the state the handlers touch as the record [spu_thread].  What the
      handlers call on the thread object (channels, events, MFC, stop, state checks) and
      the floating-point handlers are the operations of the class [SpuHost]; its laws are
      [SpuHostOk] (SpuWf), and [Bare.host] is an instance that satisfies them.
    - SpuInterp: one definition per handler, of the same name, returning whether the
      program counter advances, a halt or an exception; [exec] dispatches, [step] fetches
      and executes, [interpreter_loop] is the loop.
    - SpuWf, SpuDecode, SpuArith, SpuElem, SpuQuad, SpuMask, SpuFlow: the theorems.

    SPU channels ([spu_channel] and [spu_channel_4_t] of Emu/Cell/SPUThread.h and SPUThread.cpp),
    through which an SPU and the threads around it pass words.
    - SpuChannel: the two words of a channel and its member functions; those that wait or take
      several atomic actions are machines of actions, which [ch_step] interleaves.
    - SpuMailbox, SpuOutbox: the theorems on inbound and on outbound channels.
    - SpuChannel4: the inbound mailbox of four words, in the same way; SpuQueue4: its theorem.

    The PPU interpreter (Emu/Cell/PPUOpcodes.h, PPUInterpreter.cpp, and of PPUThread.h and
    PPUThread.cpp the registers, [exec_task] and the two loops the recompilers fall back to).
    - PpuOpcodes: instruction word fields, the nine instruction groups, the table of 131072
      entries as [fill_table] fills it, and the encoders of [namespace ppu_instructions].
    - PpuThread: the record [ppu_thread], with guest memory, a small error monad [PM] (a
      result, a fault, an exception), and the helpers of the handlers.  Reservations, system
      calls, HLE functions, the time base, state checks, float conversions and the
      floating-point handlers are the class [PpuHost]; its laws are [PpuHostOk] (PpuWf), and [BarePpu.ppu_host_ok] shows that they can hold.  Settings are the record
      [ppu_config].
    - Neon: the functions of util/simd.hpp in their ARM64 branches, over the NEON intrinsics.
    - PpuVec: one definition per integer AltiVec handler, with VSCR's SAT and CR6.
    - PpuInterp: one definition per integer, branch, register and memory handler, the
      run-time decoder, the chain of tail calls between handlers, and the loops.
    - PpuWf, PpuArith, PpuRotate, PpuFlow, PpuSpr, PpuMem, PpuDecode, PpuEncode, PpuRun,
      PpuVecSat, PpuVecSum, PpuVecShift, PpuVecMem: the theorems.

    Guest memory as HLE modules and the PPU see it: GuestMem (page flags, [check_addr],
    [sys_memory_get_page_attribute], and a monad whose outcomes are a result, an access
    violation, an exception or no fuel).

    cellRtc, the clock module (Emu/Cell/Modules/cellRtc.cpp, cellRtc.h).
    - Rtc: constants, calendar conversions, tick arithmetic, validation.
    - RtcConv: clocks, local time, DOS, [time_t], system and Win32 file times.  The host
      clock, time zone and console permissions are the class [SysTime].
    - RtcText: RFC 2822, RFC 3339 and asctime formatting and parsing on guest strings.
    - RtcCalendar, RtcMem, RtcRound: the theorems.

    cellSync, the user-level synchronization objects (Emu/Cell/Modules/cellSync.cpp,
    cellSync.h): mutex, barrier, reader/writer buffer and queue.
    - SyncSys: what the four share.  A call is a [prog] of atomic actions on the object,
      [sys_step] interleaves the calls of any number of threads, and [simulation] turns an
      invariant-preserving linearization into trace refinement of a sequential object.
    - SyncMutex, SyncBarrier, SyncRwm: an object's operations, its invariant and its
      theorem.  SyncQueue has the queue's operations, SyncFifo its theorem.

    VFS, the names and paths of guest files on the host (Emu/VFS.cpp; the string helpers of
    Utilities/StrFmt.cpp and StrUtil.h).
    - VfsName: [escape] and [unescape] of file names on byte strings, [utf8_sequence_size],
      and their theorems.
    - Vfs: the tree of mounts with [mount], [unmount], [get] and [retrieve].  The host's path
      resolution, path delimiters and configuration directory are arguments.
    - VfsPath: the theorems, against a map from normalised paths to host paths.

    lv2, the kernel's wait queues, scheduler and semaphores (Emu/Cell/lv2/sys_sync.h, lv2.cpp,
    sys_semaphore.cpp, sys_semaphore.h).
    - Lv2Queue: the queue of a kernel object as a list linked through the waiting threads in a
      heap, with [emplace], [unqueue] and [schedule], and their theorem.
    - Lv2Sched: the run queue, time limits and the operations under [g_mutex]; Lv2Run: its
      invariant and theorem.
    - Lv2Sys: system calls as machines of atomic actions of any number of threads, with events
      from outside (a thread is stopped, its turn comes).
    - Lv2Sema: the semaphore and its six calls on Lv2Queue; Lv2SemaSafe: the theorem.

    PSF, the registry of a title's parameters (Loader/PSF.cpp, PSF.h), on the streams of
    Utilities/File.h.
    - FileStream: [container_stream], a vector of bytes with a position, and the reads of
      [fs::file] over it.
    - Psf: entries, the sorted registry, [load] with its checks and errors, [save_object].
    - PsfRound: the bytes of a file as a list, and the theorems.

    How they interact: the SPU and PPU handlers call V128 and BitField, the PPU's loads and
    stores go to GuestMem; cellRtc and cellSync are
    called by guest programs through pointers into guest memory, which cellRtc checks with
    the page query and cellSync with null and alignment tests.  [get] of Vfs escapes the
    names it passes to the host and [retrieve] reads them back (VfsName); a semaphore wait
    queues its thread (Lv2Queue), puts it to sleep and is woken through the scheduler, of
    which Lv2Sema uses what it does to the flags of one thread.

    ** What is shown

    - SPU state (SpuWf): the interpreter keeps the type invariant of the thread whatever
      code it runs, after any number of passes, and its passes compose.
    - SPU decoding (SpuDecode, SpuFlow): the table decodes a word to the unique entry of the
      instruction list whose prefix it has; encoded instructions execute as asked.
    - SPU computation (SpuArith, SpuElem, SpuQuad, SpuMask): handlers written with host
      vector instructions and byte buffers compute the architected integer functions on
      every element, for all operands and counts; idioms built from several instructions
      (wide addition, 32-bit product, partial store) compose.
    - SPU control (SpuFlow): addresses and effects of loads and stores, branch targets and
      links, interrupts at indirect branches.
    - SPU channels (SpuMailbox, SpuOutbox, SpuQueue4): between the SPU and one thread, under all
      interleavings and stops, a channel is a mailbox and the mailbox of four words a queue:
      values arrive once and in order, no wake-up is lost and no [ensure] fails; with two
      writers an [ensure] can fail, and a push on a full queue can store its value twice.
    - PPU state (PpuWf): all three loops keep the type invariant of the thread, whatever code
      they run and for every host that keeps it.
    - PPU decoding (PpuDecode, PpuEncode): the decoder agrees with the instruction lists on
      every word, no entry shadowing another; encoders give words with the fields asked for.
    - PPU computation (PpuArith, PpuRotate): additions with carry and overflow, products,
      quotients, rotates under masks and shifts are the architected functions for all
      operands; multi-word addition and division by a power of two compose.
    - PPU control (PpuFlow, PpuSpr): branch targets, counter and link; comparison and branch;
      moves between special, condition and general registers read back.
    - PPU memory (PpuMem): every load form after every store form; save and restore of
      several registers; addresses that throw and pages that fault.
    - PPU vectors (PpuVecSat, PpuVecSum, PpuVecShift, PpuVecMem): saturating sums, packings
      and sums of products are the exact results clamped, with SAT set exactly when one did
      not fit; element shifts, and shifts of the register as one number; the instruction
      sequences for vectors at unaligned addresses are one access of sixteen bytes.
    - PPU runs (PpuRun): an encoded counted loop in memory ends after the number of
      instructions that its counter says, with the effect of its body that many times.
    - cellRtc calendar (RtcCalendar): the closed formulas agree with a calendar counted year
      by year and month by month; both round trips; every 64-bit tick converts without
      leaving a table; the day of the week.
    - cellRtc on memory (RtcMem, RtcRound): set/get, local
      time, month arithmetic, DOS and other stamps, and that RFC 3339 text parses back.
    - cellSync: each object refines a sequential one under all interleavings (a lock, a
      barrier of rounds, an atomic register, a bounded first-in first-out queue), although
      its buffer is copied byte by byte outside the atomic operations; mutex tickets are
      served in order.

    - VFS names (VfsName): [unescape] inverts [escape] on every name without NUL; what
      [escape] writes is a name every host accepts.
    - VFS paths (VfsPath): [get] is the longest mounted prefix of the normalised path and
      the escaped rest; [mount] and [unmount] change one entry and one subtree of that map.
    - lv2 (Lv2Queue, Lv2Run, Lv2SemaSafe): the pointer operations are those of a queue by
      arrival or priority; the scheduler runs exactly the first threads by priority, never
      more than there are processors; under all interleavings of semaphore calls, time
      limits and stops units are conserved, the value and the queue agree, no wake-up is
      lost and no [ensure] fails.

    - PSF (PsfRound): [load] reads back what [save_object] writes, over any buffer, values
      over their limits cut; of any bytes it makes an error or a well-formed registry, which
      saves and loads to itself.

    ** Bounds and fuel

    - [interpreter_loop] takes the number of passes and returns [Running] when they are
      used up, so its theorems hold of runs that never end.
    - The loops of the PPU take a number of passes in the same way, and [exec_task] also the
      length of a chain of handlers that call each other; a longer chain is the outcome [Busy].
      [PpuRun.counted_loop_returns] states how many passes its loop needs.
    - [check_addr] gives its page loop a unit per page of the range and two to spare;
      [check_pages_fuel] shows that more changes nothing.
    - The text parsers' scans over blanks and fraction digits have no bound in the code:
      they take fuel, [OutOfFuel] is an outcome of its own, and the round trip of RFC 3339
      states how much is enough.
    - The ten looks at a channel before a wait are counted as in the code; the waits have no bound.
    - The wait loops of cellSync are [Spin] actions without a bound; nothing is assumed
      about the scheduler, so the theorems are about what calls return.  [run_alone] and
      [run_schedule] (SyncSys) execute schedules for examples.
    - The path loops of Vfs get a pass for each character and one more; that they end is part
      of the theorems ([get] and [mount] give a result).
    - Walks of a wait queue get the number of threads; [Lv2Queue.queue_operations] shows that
      the length of the queue is enough, and the invariant of Lv2SemaSafe that it is no longer.
    - The semaphore theorem is about fewer than 2^30 threads, so that the 32-bit value does not
      wrap; the scheduler's about fewer than 2^32.
    - A PSF registry comes back while its keys take at most 65536 bytes and the file is shorter
      than 4 GB, the limits of the format's offsets; loops run over the indices and need no fuel.
    - The mutex theorems need at most 65535 threads, the range of its 16-bit tickets.

    ** What is not modelled

    - Floating-point handlers of the SPU interpreter (behind [SpuHost]), the MFC, the
      dispatch of channel numbers and thread groups (same), the LLVM and AsmJit
      recompilers, which generate host code.
    - Of the PPU: the scalar and vector floating-point handlers (host floating point),
      reservations and system calls, all behind [PpuHost]; the x64 branches of simd.hpp and the
      functions that AsmJit builds for x64 (the repository builds for arm64); breakpoints; the analyser, translator and module loader.  The code cache is taken to hold the decoded
      handler of the word in memory.
    - The stack slots of [vm::var] locals in HLE functions: the locals are values, and what is
      said of guest memory is said outside the frame of the call (GuestMem).
    - Undefined behaviour of C++: the signed products of MULLD and MULLI that overflow are the
      wrapped ones.
    - The lock-free queue of cellSync ([CellSyncLFQueue]).
    - Memory allocation, mapping and reservations of vm.cpp and the other
      loaders: not yet.  Of PSF the text form for logs, and streams other than those in memory.
    - Of lv2: the other kernel objects; semaphores shared by key and saved states; of the
      scheduler SPU threads, notifications of host threads and the host waits themselves;
      preemption in the middle of a semaphore call.
    - Of VFS: the functions on host files ([vfs::host]), which are host I/O; [get] and [retrieve]
      without a manager, where they throw.
    - Graphics, audio, input, networking, the user interfaces and vendored libraries: host
      input and output, or third-party code.
    - Logging: functions log their arguments; no behaviour depends on it.
    - The host's memory model: atomic operations of cellSync and lv2 interleave in one order,
      and the plain copies between them are ordered by them.

    ** Next

    Mutexes, condition variables, reader/writer locks and event queues of lv2 on Lv2Queue and
    Lv2Sys; block allocation in vm.cpp; TAR archives on FileStream; text conversion in cellL10n.cpp; [CellSyncLFQueue]. *)

From Stdlib Require Import ZArith Lia Bool Btauto.
From stdpp Require Import base numbers list option.

#[global] Open Scope Z_scope.
#[global] Open Scope bool_scope.

(** ** Machine integers

    A [w]-bit unsigned integer is a [Z] in [0, 2^w); a signed one is a [Z] in
    [-2^(w-1), 2^(w-1)).  [wrap] is the conversion to the unsigned type of
    width [w], [sint] the conversion to the signed one (two's complement). *)

Definition wrap (w x : Z) : Z := x mod 2 ^ w.

Definition sint (w x : Z) : Z := (x + 2 ^ (w - 1)) mod 2 ^ w - 2 ^ (w - 1).

Declare Scope emu_scope.
Delimit Scope emu_scope with emu.
Abbreviation u8 := (wrap 8).
Abbreviation u16 := (wrap 16).
Abbreviation u32 := (wrap 32).
Abbreviation u64 := (wrap 64).
Abbreviation s8 := (sint 8).
Abbreviation s16 := (sint 16).
Abbreviation s32 := (sint 32).
Abbreviation s64 := (sint 64).

(** C++ integer division and remainder truncate toward zero. *)
Notation "a /c b" := (Z.quot a b) (at level 40, left associativity) : emu_scope.
Notation "a %c b" := (Z.rem a b) (at level 40, left associativity) : emu_scope.

(** [std::rotl<uW>(x, n)]: the count is taken modulo the width. *)
Definition rotl (w x n : Z) : Z :=
  let r := n mod w in
  Z.lor (wrap w (Z.shiftl x r)) (Z.shiftr x (w - r)).

(** [std::countl_zero] on a [w]-bit operand. *)
Definition countl_zero (w x : Z) : Z :=
  if x =? 0 then w else w - 1 - Z.log2 x.

(** A [for (i = 0; i < n; i++)] loop over a state. *)
Fixpoint for_from {S} (n : nat) (i : Z) (body : Z -> S -> S) (s : S) : S :=
  match n with
  | O => s
  | Datatypes.S n' => for_from n' (i + 1) body (body i s)
  end.

Definition for_up {S} (n : nat) (body : Z -> S -> S) (s : S) : S :=
  for_from n 0 body s.

(** ** Range lemmas *)

Definition in_range (w x : Z) : Prop := 0 <= x < 2 ^ w.

Lemma pow2_pos w : 0 <= w -> 0 < 2 ^ w.
Proof. intros; apply Z.pow_pos_nonneg; lia. Qed.

Lemma wrap_range w x : 0 <= w -> in_range w (wrap w x).
Proof. intros; apply Z.mod_pos_bound, pow2_pos; lia. Qed.

Lemma wrap_small w x : in_range w x -> wrap w x = x.
Proof. intros; apply Z.mod_small; auto. Qed.

Lemma wrap_wrap w x : 0 <= w -> wrap w (wrap w x) = wrap w x.
Proof. intros; apply wrap_small, wrap_range; lia. Qed.

Lemma pow2_split w : 0 < w -> 2 ^ w = 2 * 2 ^ (w - 1).
Proof. intros; rewrite <- Z.pow_succ_r by lia; f_equal; lia. Qed.

Lemma sint_range w x :
  0 < w -> - 2 ^ (w - 1) <= sint w x < 2 ^ (w - 1).
Proof.
  intros Hw; unfold sint.
  pose proof (Z.mod_pos_bound (x + 2 ^ (w - 1)) (2 ^ w) (pow2_pos w ltac:(lia))).
  pose proof (pow2_split w Hw). lia.
Qed.

Lemma sint_small w x :
  0 < w -> - 2 ^ (w - 1) <= x < 2 ^ (w - 1) -> sint w x = x.
Proof.
  intros Hw Hx; unfold sint.
  rewrite Z.mod_small; [lia|]. rewrite (pow2_split w Hw). lia.
Qed.

Lemma sint_unsigned w x :
  0 < w -> in_range w x ->
  sint w x = if x <? 2 ^ (w - 1) then x else x - 2 ^ w.
Proof.
  unfold in_range; intros Hw Hx; unfold sint.
  pose proof (pow2_split w Hw). pose proof (pow2_pos (w - 1) ltac:(lia)).
  destruct (Z.ltb_spec x (2 ^ (w - 1))).
  - rewrite Z.mod_small by lia. lia.
  - rewrite <- (Z.mod_add _ (-1)) by lia. rewrite Z.mod_small by lia. lia.
Qed.

Lemma wrap_sint w x : 0 < w -> wrap w (sint w x) = wrap w x.
Proof.
  intros Hw; unfold wrap, sint.
  rewrite Zminus_mod_idemp_l. f_equal; lia.
Qed.

Lemma sint_wrap w x : 0 < w -> sint w (wrap w x) = sint w x.
Proof.
  intros Hw; unfold wrap, sint. rewrite Zplus_mod_idemp_l. reflexivity.
Qed.

Lemma wrap_add_l w x y : wrap w (wrap w x + y) = wrap w (x + y).
Proof. apply Zplus_mod_idemp_l. Qed.
Lemma wrap_add_r w x y : wrap w (x + wrap w y) = wrap w (x + y).
Proof. apply Zplus_mod_idemp_r. Qed.
Lemma wrap_sub_l w x y : wrap w (wrap w x - y) = wrap w (x - y).
Proof. apply Zminus_mod_idemp_l. Qed.
Lemma wrap_sub_r w x y : wrap w (x - wrap w y) = wrap w (x - y).
Proof. apply Zminus_mod_idemp_r. Qed.
Lemma wrap_mul_l w x y : wrap w (wrap w x * y) = wrap w (x * y).
Proof. apply Zmult_mod_idemp_l. Qed.
Lemma wrap_mul_r w x y : wrap w (x * wrap w y) = wrap w (x * y).
Proof. apply Zmult_mod_idemp_r. Qed.

(** ** Bits *)

Lemma testbit_wrap w x k :
  0 <= w -> 0 <= k -> Z.testbit (wrap w x) k = (k <? w) && Z.testbit x k.
Proof.
  intros. unfold wrap. destruct (Z.ltb_spec k w).
  - rewrite Z.mod_pow2_bits_low by lia. reflexivity.
  - rewrite Z.mod_pow2_bits_high by lia. reflexivity.
Qed.

Lemma testbit_shiftl x n k :
  0 <= n -> 0 <= k -> Z.testbit (Z.shiftl x n) k = (n <=? k) && Z.testbit x (k - n).
Proof.
  intros. destruct (Z.leb_spec n k).
  - rewrite Z.shiftl_spec by lia. reflexivity.
  - rewrite Z.shiftl_spec_low by lia. reflexivity.
Qed.

Lemma testbit_ones n k :
  0 <= n -> 0 <= k -> Z.testbit (Z.ones n) k = (k <? n).
Proof.
  intros. destruct (Z.ltb_spec k n).
  - apply Z.ones_spec_low; lia.
  - apply Z.ones_spec_high; lia.
Qed.

Lemma ones_range n : 0 <= n -> in_range n (Z.ones n).
Proof. intros. rewrite Z.ones_equiv. pose proof (pow2_pos n). unfold in_range. lia. Qed.

Lemma testbit_high w x k : in_range w x -> w <= k -> 0 <= w -> Z.testbit x k = false.
Proof.
  intros Hx Hk Hw. rewrite <- (wrap_small w x Hx), testbit_wrap by lia.
  destruct (Z.ltb_spec k w); [lia|reflexivity].
Qed.

Create Rewrite HintDb bits.
#[export] Hint Rewrite Z.land_spec Z.lor_spec Z.lxor_spec Z.ldiff_spec
  Z.bits_0 : bits.
#[export] Hint Rewrite Z.lnot_spec Z.shiftr_spec testbit_wrap testbit_shiftl testbit_ones
  using lia : bits.

(** [bits]: prove an equality of integers bit by bit. *)
Ltac bits_case :=
  match goal with
  | |- context [?a <? ?b] => destruct (Z.ltb_spec a b); try lia
  | |- context [?a <=? ?b] => destruct (Z.leb_spec a b); try lia
  | |- context [?a =? ?b] => destruct (Z.eqb_spec a b); try lia
  end.

Ltac bits_norm :=
  cbn [andb orb negb xorb] in *;
  rewrite ?andb_true_r, ?andb_false_r, ?andb_true_l, ?andb_false_l,
    ?orb_true_r, ?orb_false_r, ?orb_true_l, ?orb_false_l,
    ?xorb_false_r, ?xorb_false_l, ?xorb_true_r, ?xorb_true_l.

Ltac bits_end :=
  first [ reflexivity | solve [f_equal; lia] | solve [repeat (f_equal; try lia)] | btauto ].

Ltac bits :=
  let k := fresh "k" in let Hk := fresh "Hk" in
  apply Z.bits_inj'; intros k Hk;
  autorewrite with bits;
  repeat (bits_case; bits_norm; autorewrite with bits);
  bits_norm; try bits_end.

Lemma in_range_testbit w x :
  0 <= w -> 0 <= x -> (forall k, w <= k -> Z.testbit x k = false) -> in_range w x.
Proof.
  intros Hw Hx Hb. split; [lia|].
  enough (wrap w x = x) as <- by (apply wrap_range; lia).
  apply Z.bits_inj'; intros k Hk. rewrite testbit_wrap by lia.
  destruct (Z.ltb_spec k w); [reflexivity|]. rewrite Hb by lia. reflexivity.
Qed.

Lemma land_range w x y : 0 <= w -> in_range w x -> 0 <= y -> in_range w (Z.land x y).
Proof.
  intros Hw Hx Hy. apply in_range_testbit; [lia| |].
  - apply Z.land_nonneg; unfold in_range in *; lia.
  - intros k Hk. rewrite Z.land_spec, (testbit_high w x) by (auto; lia). reflexivity.
Qed.

Lemma lor_range w x y : 0 <= w -> in_range w x -> in_range w y -> in_range w (Z.lor x y).
Proof.
  intros Hw Hx Hy. apply in_range_testbit; [lia| |].
  - apply Z.lor_nonneg; unfold in_range in *; lia.
  - intros k Hk. rewrite Z.lor_spec, !(testbit_high w) by (auto; lia). reflexivity.
Qed.

Lemma lxor_range w x y : 0 <= w -> in_range w x -> in_range w y -> in_range w (Z.lxor x y).
Proof.
  intros Hw Hx Hy. apply in_range_testbit; [lia| |].
  - apply Z.lxor_nonneg; unfold in_range in *; lia.
  - intros k Hk. rewrite Z.lxor_spec, !(testbit_high w) by (auto; lia). reflexivity.
Qed.

Lemma shiftr_range w x n : 0 <= n -> 0 <= w -> in_range w x -> in_range w (Z.shiftr x n).
Proof.
  intros Hn Hw Hx. apply in_range_testbit; [lia| |].
  - apply Z.shiftr_nonneg; unfold in_range in *; lia.
  - intros k Hk. rewrite Z.shiftr_spec by lia. apply (testbit_high w); auto; lia.
Qed.

Create HintDb range.
#[export] Hint Extern 1 (0 <= _) => lia : range.
#[export] Hint Resolve land_range lor_range lxor_range shiftr_range wrap_range ones_range : range.

(** A disjoint [or] is a sum. *)
Lemma lor_shiftl_small v m i :
  0 <= m -> 0 <= v -> 0 <= i < 2 ^ m -> Z.lor (Z.shiftl v m) i = v * 2 ^ m + i.
Proof.
  intros Hm Hv Hi.
  assert (Z.land (Z.shiftl v m) i = 0) as H0.
  { bits. rewrite (testbit_high m i) by (unfold in_range; lia). apply andb_false_r. }
  rewrite <- Z.lxor_lor, <- Z.add_nocarry_lxor, Z.shiftl_mul_pow2 by (exact H0 || lia).
  reflexivity.
Qed.

(** ** Loops *)

Lemma for_from_ind {S} (P : Z -> S -> Prop) body n :
  forall i s, P i s ->
  (forall j t, i <= j < i + Z.of_nat n -> P j t -> P (j + 1) (body j t)) ->
  P (i + Z.of_nat n) (for_from n i body s).
Proof.
  induction n as [|n IH]; intros i s Hs Hstep.
  - replace (i + Z.of_nat 0) with i by lia. exact Hs.
  - cbn [for_from]. replace (i + Z.of_nat (Datatypes.S n)) with (i + 1 + Z.of_nat n) by lia.
    apply IH.
    + apply Hstep; [lia|exact Hs].
    + intros j t Hj. apply Hstep. lia.
Qed.

(** Invariant rule of a counted loop. *)
Lemma for_up_ind {S} (P : Z -> S -> Prop) body n s :
  P 0 s ->
  (forall j t, 0 <= j < Z.of_nat n -> P j t -> P (j + 1) (body j t)) ->
  P (Z.of_nat n) (for_up n body s).
Proof. intros H0 Hstep. apply (for_from_ind P body n 0 s H0 Hstep). Qed.
