(* ===== verification/BitField.v ===== *)
(** * Bit fields (Utilities/BitField.h)

    [bf_t<T, I, N>]: [N] bits at position [I] of a word of [bitmax] bits.  The
    definitions are the accessor's [extract], [insert], [data_mask] and
    assignment; the laws are the get/put laws its users rely on. *)

From Stdlib Require Import ZArith Lia Bool.
From stdpp Require Import base numbers.
From S2P Require Import Prelude.

Module bf.

(** Unsigned extraction: [(data >> I) & vmask]. *)
Definition extract (I N data : Z) : Z := Z.land (Z.shiftr data I) (Z.ones N).

(** Signed extraction: shift up to the top of the word, arithmetic shift down. *)
Definition extract_s (bitmax I N data : Z) : Z :=
  Z.shiftr (sint bitmax (Z.shiftl data (bitmax - I - N))) (bitmax - N).

Definition data_mask (I N : Z) : Z := Z.shiftl (Z.ones N) I.

Definition insert (I N value : Z) : Z := Z.shiftl (Z.land value (Z.ones N)) I.

(** Assignment to the field: [(data & ~data_mask()) | insert(value)]. *)
Definition store (I N value data : Z) : Z :=
  Z.lor (Z.ldiff data (data_mask I N)) (insert I N value).

(** Conversion to [bool]: the unshifted field is non-zero. *)
Definition test (I N data : Z) : bool := negb (Z.land data (data_mask I N) =? 0).

Lemma extract_wrap I N data :
  0 <= N -> extract I N data = wrap N (Z.shiftr data I).
Proof. intros. unfold extract. rewrite Z.land_ones by lia. reflexivity. Qed.

Lemma extract_range I N data : 0 <= N -> in_range N (extract I N data).
Proof. intros. rewrite extract_wrap by lia. apply wrap_range; lia. Qed.

Lemma testbit_extract I N data k :
  0 <= I -> 0 <= N -> 0 <= k ->
  Z.testbit (extract I N data) k = (k <? N) && Z.testbit data (k + I).
Proof. intros. rewrite extract_wrap, testbit_wrap, Z.shiftr_spec by lia. reflexivity. Qed.

Lemma extract_store I N value data :
  0 <= I -> 0 <= N -> extract I N (store I N value data) = wrap N value.
Proof.
  intros. apply Z.bits_inj'. intros k Hk. rewrite testbit_extract by lia.
  unfold store, data_mask, insert. autorewrite with bits.
  destruct (Z.ltb_spec k N); [|reflexivity]. cbn.
  destruct (Z.leb_spec I (k + I)); [|lia]. cbn.
  replace (k + I - I) with k by lia. autorewrite with bits.
  destruct (Z.ltb_spec k N); [|lia]. cbn. rewrite andb_false_r, andb_true_r. reflexivity.
Qed.

(** Writing a field leaves a disjoint one alone. *)
Lemma extract_store_other I N I' N' value data :
  0 <= I -> 0 <= N -> 0 <= I' -> 0 <= N' -> I + N <= I' \/ I' + N' <= I ->
  extract I' N' (store I N value data) = extract I' N' data.
Proof.
  intros ? ? ? ? Hd. apply Z.bits_inj'. intros k Hk. rewrite !testbit_extract by lia.
  unfold store, data_mask, insert. autorewrite with bits.
  destruct (Z.ltb_spec k N'); [|reflexivity]. cbn.
  destruct (Z.leb_spec I (k + I')); cbn.
  - autorewrite with bits. destruct (Z.ltb_spec (k + I' - I) N); [lia|].
    cbn. rewrite andb_false_r, andb_true_r, orb_false_r. reflexivity.
  - rewrite andb_true_r, orb_false_r. reflexivity.
Qed.

(** The signed reading is the sign extension of the unsigned one. *)
Lemma extract_s_sint bitmax I N data :
  0 <= I -> 0 < N -> I + N <= bitmax ->
  extract_s bitmax I N data = sint N (extract I N data).
Proof.
  intros HI HN Hb. unfold extract_s. rewrite extract_wrap, sint_wrap by lia.
  set (m := bitmax - I - N). set (x := data).
  rewrite !Z.shiftr_div_pow2, Z.shiftl_mul_pow2 by lia.
  unfold sint.
  assert (2 ^ bitmax = 2 ^ (bitmax - N) * 2 ^ N) as E1
    by (rewrite <- Z.pow_add_r by lia; f_equal; lia).
  assert (2 ^ (bitmax - 1) = 2 ^ (bitmax - N) * 2 ^ (N - 1)) as E2
    by (rewrite <- Z.pow_add_r by lia; f_equal; lia).
  assert (2 ^ (bitmax - N) = 2 ^ m * 2 ^ I) as E3
    by (rewrite <- Z.pow_add_r by (unfold m; lia); f_equal; unfold m; lia).
  assert (0 < 2 ^ N) by (apply pow2_pos; lia).
  assert (0 < 2 ^ m) by (apply pow2_pos; unfold m; lia).
  assert (0 < 2 ^ I) by (apply pow2_pos; lia).
  rewrite E1, E2. set (q := 2 ^ (bitmax - N)) in *.
  rewrite (Z.mod_eq (x * 2 ^ m + q * 2 ^ (N - 1)) (q * 2 ^ N)) by nia.
  replace (x * 2 ^ m + q * 2 ^ (N - 1) - q * 2 ^ N * ((x * 2 ^ m + q * 2 ^ (N - 1)) / (q * 2 ^ N)) - q * 2 ^ (N - 1))
    with (x * 2 ^ m + (- (2 ^ N * ((x * 2 ^ m + q * 2 ^ (N - 1)) / (q * 2 ^ N)))) * q) by ring.
  rewrite Z.div_add by nia.
  assert (forall z, (z * 2 ^ m) / q = z / 2 ^ I) as Hdiv.
  { intros z. rewrite E3. rewrite (Z.mul_comm z). apply Z.div_mul_cancel_l; lia. }
  rewrite Hdiv.
  rewrite <- Z.div_div by nia.
  rewrite (Z.mul_comm q (2 ^ (N - 1))), Z.div_add by nia. rewrite Hdiv.
  rewrite (Z.mod_eq (x / 2 ^ I + 2 ^ (N - 1)) (2 ^ N)) by lia. lia.
Qed.

Lemma store_range bitmax I N value data :
  0 <= I -> 0 <= N -> I + N <= bitmax -> in_range bitmax data ->
  in_range bitmax (store I N value data).
Proof.
  intros HI HN Hb Hd. apply in_range_testbit; [lia| |].
  - apply Z.lor_nonneg. split.
    + apply Z.ldiff_nonneg. left. apply Hd.
    + apply Z.shiftl_nonneg, Z.land_nonneg. right. apply ones_range. lia.
  - intros k Hk. unfold store, data_mask, insert. autorewrite with bits.
    rewrite (testbit_high _ _ k Hd) by lia. destruct (Z.leb_spec I k); cbn; [|reflexivity].
    autorewrite with bits. destruct (Z.ltb_spec (k - I) N); [lia|]. rewrite andb_false_r. reflexivity.
Qed.

Lemma test_extract I N data : 0 <= I -> 0 <= N -> test I N data = negb (extract I N data =? 0).
Proof.
  intros HI HN. unfold test. f_equal.
  assert (Z.land data (data_mask I N) = Z.shiftl (extract I N data) I) as ->.
  { unfold data_mask. apply Z.bits_inj'. intros k Hk. autorewrite with bits.
    destruct (Z.leb_spec I k); cbn; [|rewrite andb_false_r; reflexivity].
    rewrite testbit_extract, testbit_ones by lia.
    replace (k - I + I) with k by lia. apply andb_comm. }
  rewrite Z.shiftl_mul_pow2 by lia.
  pose proof (pow2_pos I HI). destruct (Z.eqb_spec (extract I N data) 0) as [->|]; [reflexivity|].
  apply Z.eqb_neq. nia.
Qed.

End bf.

(** ** Words built field by field *)

(** Signed reading of a field after a store of a representable value. *)
Lemma extract_s_store I N v data :
  0 <= I -> 0 < N -> I + N <= 32 -> - 2 ^ (N - 1) <= v < 2 ^ (N - 1) ->
  bf.extract_s 32 I N (bf.store I N v data) = v.
Proof.
  intros. rewrite bf.extract_s_sint, bf.extract_store, sint_wrap, sint_small by lia. reflexivity.
Qed.

Lemma extract_store_small I N v data :
  0 <= I -> 0 <= N -> in_range N v -> bf.extract I N (bf.store I N v data) = v.
Proof. intros. rewrite bf.extract_store, wrap_small by (auto; lia). reflexivity. Qed.

Lemma extract_s_store_other I N I' N' v data :
  0 <= I -> 0 <= N -> 0 <= I' -> 0 < N' -> I' + N' <= 32 -> I + N <= I' \/ I' + N' <= I ->
  bf.extract_s 32 I' N' (bf.store I N v data) = bf.extract_s 32 I' N' data.
Proof. intros. rewrite !bf.extract_s_sint, bf.extract_store_other by lia. reflexivity. Qed.

Lemma b2z_range b : in_range 1 (Z.b2z b).
Proof. destruct b; unfold in_range; cbn; lia. Qed.

(** The range of such a word. *)
Ltac op_range :=
  repeat match goal with
  | |- in_range 32 (bf.store _ _ _ _) => apply bf.store_range; [lia|lia|lia|]
  | |- in_range 32 _ => vm_compute; split; congruence
  end.

(** Reads of operand fields of an encoded word. *)
Ltac op_fields :=
  repeat first
    [ rewrite extract_store_small by (auto; lia)
    | rewrite extract_s_store by (cbn; lia)
    | rewrite bf.extract_store_other by lia
    | rewrite extract_s_store_other by lia ].
