(* ===== verification/V128.v ===== *)
(** * 128-bit vectors and the SIMD operations the SPU interpreter uses

    [v128] (util/v128.hpp) is a union of lane arrays over one 128-bit integer
    stored little-endian: here it is that integer, a [Z] in [0, 2^128), and a
    lane array access is [lane w i].  The [mm_*] operations are the vector
    intrinsics of Emu/CPU/sse2neon.h, the [gv_*] ones those of util/simd.hpp. *)

From Stdlib Require Import ZArith Lia Bool.
From stdpp Require Import base numbers list.
From S2P Require Import Prelude.

(** ** Lanes *)

(** [x._uW[i]]: lane [i] of width [w]. *)
Definition lane (w i x : Z) : Z := wrap w (Z.shiftr x (w * i)).

(** [x._sW[i]]: the same lane read as a signed integer. *)
Definition slane (w i x : Z) : Z := sint w (lane w i x).

(** [x._uW[i] = v]. *)
Definition set_lane (w i v x : Z) : Z :=
  Z.lor (Z.ldiff x (Z.shiftl (Z.ones w) (w * i))) (Z.shiftl (wrap w v) (w * i)).

(** The vector whose lanes [0 .. n-1] of width [w] are [f 0 .. f (n-1)]. *)
Fixpoint build (w : Z) (n : nat) (f : Z -> Z) : Z :=
  match n with
  | O => 0
  | S n' => Z.lor (build w n' f) (Z.shiftl (wrap w (f (Z.of_nat n'))) (w * Z.of_nat n'))
  end.

Definition nlanes (w : Z) : nat := Z.to_nat (128 / w).
Definition map1 (w : Z) (f : Z -> Z) (a : Z) : Z :=
  build w (nlanes w) (fun i => f (lane w i a)).
Definition map2 (w : Z) (f : Z -> Z -> Z) (a b : Z) : Z :=
  build w (nlanes w) (fun i => f (lane w i a) (lane w i b)).
Definition splat (w v : Z) : Z := build w (nlanes w) (fun _ => v).

(** All-ones / all-zeros lane of a SIMD comparison. *)
Definition mask_of (b : bool) : Z := if b then -1 else 0.

(** ** v128 constructors (util/v128.hpp) *)

Definition from64 (_0 _1 : Z) : Z := set_lane 64 1 _1 (set_lane 64 0 _0 0).
Definition from32 (_0 _1 _2 _3 : Z) : Z :=
  set_lane 32 3 _3 (set_lane 32 2 _2 (set_lane 32 1 _1 (set_lane 32 0 _0 0))).
(** [from32r(x)]: the preferred slot [_u32[3]] holds [x], the rest is zero. *)
Definition from32r (_3 : Z) : Z := from32 0 0 0 _3.
Definition from32p (value : Z) : Z := from32 value value value value.

(** Bitwise operators of [v128]; [~] keeps the 128 bits. *)
Definition v_not (a : Z) : Z := Z.lxor a (Z.ones 128).

(** ** Intrinsics (Emu/CPU/sse2neon.h) *)

Definition mm_setzero_si128 : Z := 0.
Definition mm_set1_epi8 (w : Z) : Z := splat 8 w.
Definition mm_set1_epi16 (w : Z) : Z := splat 16 w.
Definition mm_set1_epi32 (_i : Z) : Z := splat 32 _i.
Definition mm_set_epi32 (i3 i2 i1 i0 : Z) : Z := from32 i0 i1 i2 i3.
(** [_mm_set_epi16] and [_mm_set_epi8] list the lanes from the highest down. *)
Definition mm_set_epi16 (l : list Z) : Z :=
  build 16 8 (fun i => nth (Z.to_nat (7 - i)) l 0).
Definition mm_set_epi8 (l : list Z) : Z :=
  build 8 16 (fun i => nth (Z.to_nat (15 - i)) l 0).

Definition mm_or_si128 (a b : Z) : Z := Z.lor a b.
Definition mm_and_si128 (a b : Z) : Z := Z.land a b.
Definition mm_xor_si128 (a b : Z) : Z := Z.lxor a b.
(** [(~a) & b]. *)
Definition mm_andnot_si128 (a b : Z) : Z := Z.ldiff b a.

Definition mm_add_epi8 (a b : Z) : Z := map2 8 Z.add a b.
Definition mm_add_epi16 (a b : Z) : Z := map2 16 Z.add a b.
Definition mm_add_epi32 (a b : Z) : Z := map2 32 Z.add a b.
Definition mm_sub_epi8 (a b : Z) : Z := map2 8 Z.sub a b.
Definition mm_sub_epi16 (a b : Z) : Z := map2 16 Z.sub a b.
Definition mm_sub_epi32 (a b : Z) : Z := map2 32 Z.sub a b.
Definition mm_min_epu8 (a b : Z) : Z := map2 8 Z.min a b.
Definition mm_max_epu8 (a b : Z) : Z := map2 8 Z.max a b.
(** Rounding average. *)
Definition mm_avg_epu8 (a b : Z) : Z := map2 8 (fun x y => Z.shiftr (x + y + 1) 1) a b.

(** Shifts by an immediate: counts above the lane width give zero (or sign bits). *)
Definition mm_slli (w a imm : Z) : Z :=
  if (imm <? 0) || (w <=? imm) then mm_setzero_si128
  else map1 w (fun x => Z.shiftl x imm) a.
Definition mm_srli (w a imm : Z) : Z :=
  if (imm <? 0) || (w <=? imm) then mm_setzero_si128
  else map1 w (fun x => Z.shiftr x imm) a.
Definition mm_slli_epi16 (a imm : Z) : Z := mm_slli 16 a imm.
Definition mm_slli_epi32 (a imm : Z) : Z := mm_slli 32 a imm.
Definition mm_slli_epi64 (a imm : Z) : Z := mm_slli 64 a imm.
Definition mm_srli_epi16 (a imm : Z) : Z := mm_srli 16 a imm.
Definition mm_srli_epi32 (a imm : Z) : Z := mm_srli 32 a imm.
Definition mm_srli_epi64 (a imm : Z) : Z := mm_srli 64 a imm.
Definition mm_srai_epi16 (a imm : Z) : Z :=
  let count := if (imm <? 0) || (16 <=? imm) then 15 else imm in
  map1 16 (fun x => Z.shiftr (s16 x) count) a.
Definition mm_srai_epi32 (a imm : Z) : Z :=
  let count := if (imm <? 0) || (32 <=? imm) then 31 else imm in
  map1 32 (fun x => Z.shiftr (s32 x) count) a.
(** Whole-register byte shifts. *)
Definition mm_slli_si128 (a imm : Z) : Z :=
  if (imm <? 0) || (16 <=? imm) then mm_setzero_si128
  else wrap 128 (Z.shiftl a (8 * imm)).
Definition mm_srli_si128 (a imm : Z) : Z :=
  if (imm <? 0) || (16 <=? imm) then mm_setzero_si128
  else Z.shiftr a (8 * imm).

Definition mm_cmpgt (w a b : Z) : Z :=
  map2 w (fun x y => mask_of (sint w y <? sint w x)) a b.
Definition mm_cmpeq (w a b : Z) : Z := map2 w (fun x y => mask_of (x =? y)) a b.
Definition mm_cmpgt_epi8 (a b : Z) : Z := mm_cmpgt 8 a b.
Definition mm_cmpgt_epi16 (a b : Z) : Z := mm_cmpgt 16 a b.
Definition mm_cmpgt_epi32 (a b : Z) : Z := mm_cmpgt 32 a b.
Definition mm_cmpeq_epi8 (a b : Z) : Z := mm_cmpeq 8 a b.
Definition mm_cmpeq_epi16 (a b : Z) : Z := mm_cmpeq 16 a b.
Definition mm_cmpeq_epi32 (a b : Z) : Z := mm_cmpeq 32 a b.

(** Sign bits of the lanes, gathered into an integer. *)
Fixpoint movemask (w : Z) (n : nat) (a : Z) : Z :=
  match n with
  | O => 0
  | S n' => Z.lor (movemask w n' a)
              (Z.shiftl (Z.shiftr (lane w (Z.of_nat n') a) (w - 1)) (Z.of_nat n'))
  end.
Definition mm_movemask_ps (a : Z) : Z := movemask 32 4 a.
Definition mm_movemask_epi8 (a : Z) : Z := movemask 8 16 a.

(** Signed saturation of a 16-bit lane to 8 bits. *)
Definition sat8 (x : Z) : Z := Z.max (-128) (Z.min 127 x).
Definition mm_packs_epi16 (a b : Z) : Z :=
  build 8 16 (fun i => sat8 (if i <? 8 then slane 16 i a else slane 16 (i - 8) b)).

Definition sel2 (imm i : Z) : Z := Z.land (Z.shiftr imm (2 * i)) 3.
Definition mm_shuffle_epi32 (a imm : Z) : Z :=
  build 32 4 (fun i => lane 32 (sel2 imm i) a).
Definition mm_shufflehi_epi16 (a imm : Z) : Z :=
  build 16 8 (fun i => lane 16 (if i <? 4 then i else sel2 imm (i - 4) + 4) a).
Definition mm_shufflelo_epi16 (a imm : Z) : Z :=
  build 16 8 (fun i => lane 16 (if i <? 4 then sel2 imm i else i) a).
Definition interleave (w : Z) (base a b : Z) : Z :=
  build w (nlanes w) (fun i => lane w (base + i / 2) (if Z.even i then a else b)).
Definition mm_unpackhi_epi16 (a b : Z) : Z := interleave 16 4 a b.
Definition mm_unpackhi_epi8 (a b : Z) : Z := interleave 8 8 a b.
Definition mm_unpacklo_epi8 (a b : Z) : Z := interleave 8 0 a b.

Definition mm_mullo_epi16 (a b : Z) : Z := map2 16 (fun x y => s16 x * s16 y) a b.
Definition mm_mulhi_epu16 (a b : Z) : Z := map2 16 (fun x y => Z.shiftr (x * y) 16) a b.
Definition mm_mulhi_epi16 (a b : Z) : Z :=
  map2 16 (fun x y => Z.shiftr (s16 x * s16 y) 16) a b.
(** Products of the signed halfwords, summed pairwise into words. *)
Definition mm_madd_epi16 (a b : Z) : Z :=
  build 32 4 (fun i => slane 16 (2 * i) a * slane 16 (2 * i) b
                     + slane 16 (2 * i + 1) a * slane 16 (2 * i + 1) b).

(** [_mm_loadu_si128] at byte offset [off] of an array of vectors, the array
    given as one little-endian integer. *)
Definition mm_loadu_si128 (buf off : Z) : Z := wrap 128 (Z.shiftr buf (8 * off)).
(** [__m128i buf[]{a, b, ...}] as that integer. *)
Definition buf2 (a b : Z) : Z := Z.lor a (Z.shiftl b 128).
Definition buf3 (a b c : Z) : Z := Z.lor a (Z.lor (Z.shiftl b 128) (Z.shiftl c 256)).

(** ** util/simd.hpp *)

Definition gv_add16 (a b : Z) : Z := mm_add_epi16 a b.
Definition gv_add32 (a b : Z) : Z := mm_add_epi32 a b.
Definition gv_sub8 (a b : Z) : Z := mm_sub_epi8 a b.
Definition gv_sub16 (a b : Z) : Z := mm_sub_epi16 a b.
Definition gv_sub32 (a b : Z) : Z := mm_sub_epi32 a b.
Definition gv_maxu8 (a b : Z) : Z := mm_max_epu8 a b.
Definition gv_minu8 (a b : Z) : Z := mm_min_epu8 a b.
(** [vcgtq_u8/16/32]: unsigned lane comparison. *)
Definition gv_gtu8 (a b : Z) : Z := map2 8 (fun x y => mask_of (y <? x)) a b.
Definition gv_gtu16 (a b : Z) : Z := map2 16 (fun x y => mask_of (y <? x)) a b.
Definition gv_gtu32 (a b : Z) : Z := map2 32 (fun x y => mask_of (y <? x)) a b.
Definition gv_andn (a b : Z) : Z := mm_andnot_si128 a b.

(** ** Lane laws *)

Lemma testbit_lane w i x k :
  0 <= w -> 0 <= i -> 0 <= k ->
  Z.testbit (lane w i x) k = (k <? w) && Z.testbit x (k + w * i).
Proof. intros. unfold lane. rewrite testbit_wrap, Z.shiftr_spec by lia. reflexivity. Qed.

#[export] Hint Rewrite testbit_lane using lia : bits.

Lemma lane_range w i x : 0 <= w -> in_range w (lane w i x).
Proof. apply wrap_range. Qed.
#[export] Hint Resolve lane_range : range.

Lemma lane_wrap w i x : 0 <= w -> wrap w (lane w i x) = lane w i x.
Proof. intros. apply wrap_wrap; lia. Qed.


Lemma lane_zero w i : 0 <= w -> lane w i 0 = 0.
Proof.
  intros. unfold lane. rewrite Z.shiftr_0_l. apply Z.mod_0_l.
  pose proof (pow2_pos w). lia.
Qed.

Lemma build_nonneg w n f : 0 <= w -> 0 <= build w n f.
Proof.
  intros Hw. induction n as [|n IH]; cbn [build]; [lia|].
  apply Z.lor_nonneg. split; [exact IH|].
  apply Z.shiftl_nonneg. apply wrap_range; lia.
Qed.

Lemma build_range w n f : 0 <= w -> in_range (w * Z.of_nat n) (build w n f).
Proof.
  intros Hw. induction n as [|n IH]; cbn [build].
  - rewrite Z.mul_0_r. unfold in_range. lia.
  - apply in_range_testbit; [lia|apply (build_nonneg w (S n) f Hw)|].
    intros k Hk. rewrite Z.lor_spec, testbit_shiftl, testbit_wrap by lia.
    rewrite (testbit_high _ _ k IH) by lia. repeat bits_case; reflexivity.
Qed.

(** Reading back a lane of a built vector. *)
Lemma lane_build w n f i :
  0 < w -> 0 <= i < Z.of_nat n -> lane w i (build w n f) = wrap w (f i).
Proof.
  intros Hw. induction n as [|n IH]; intros Hi; [lia|]. cbn [build].
  destruct (Z.eq_dec i (Z.of_nat n)) as [->|Hne].
  - apply Z.bits_inj'. intros k Hk. autorewrite with bits.
    destruct (Z.ltb_spec k w); [|reflexivity].
    rewrite (testbit_high (w * Z.of_nat n) (build w n f)) by (apply build_range || lia; lia).
    replace (k + w * Z.of_nat n - w * Z.of_nat n) with k by lia.
    repeat bits_case. autorewrite with bits. repeat bits_case. reflexivity.
  - rewrite <- IH by lia.
    apply Z.bits_inj'. intros k Hk. autorewrite with bits.
    destruct (Z.ltb_spec k w); [|reflexivity].
    destruct (Z.leb_spec (w * Z.of_nat n) (k + w * i)); [nia|].
    cbn. rewrite orb_false_r. reflexivity.
Qed.

(** Vectors with equal lanes are equal. *)
Lemma lane_ext w n x y :
  0 < w -> in_range (w * Z.of_nat n) x -> in_range (w * Z.of_nat n) y ->
  (forall i, 0 <= i < Z.of_nat n -> lane w i x = lane w i y) -> x = y.
Proof.
  intros Hw Hx Hy H. apply Z.bits_inj'. intros k Hk.
  destruct (Z.lt_ge_cases k (w * Z.of_nat n)) as [Hlt|Hge].
  - pose proof (Z.div_mod k w ltac:(lia)). pose proof (Z.mod_pos_bound k w Hw).
    assert (0 <= k / w < Z.of_nat n).
    { split; [apply Z.div_pos; lia|]. apply Z.div_lt_upper_bound; lia. }
    specialize (H (k / w) ltac:(lia)). apply (f_equal (fun z => Z.testbit z (k mod w))) in H.
    rewrite !testbit_lane in H by lia.
    destruct (Z.ltb_spec (k mod w) w); [|lia]. cbn in H.
    replace (k mod w + w * (k / w)) with k in H by lia. exact H.
  - rewrite (testbit_high _ x k Hx), (testbit_high _ y k Hy) by lia. reflexivity.
Qed.

Lemma build_ext w n f g :
  (forall i, 0 <= i < Z.of_nat n -> wrap w (f i) = wrap w (g i)) ->
  build w n f = build w n g.
Proof.
  induction n as [|n IH]; intros H; [reflexivity|]. cbn [build].
  rewrite IH by (intros; apply H; lia). rewrite H by lia. reflexivity.
Qed.

Lemma build_lane w n x :
  0 < w -> in_range (w * Z.of_nat n) x -> build w n (fun i => lane w i x) = x.
Proof.
  intros Hw Hx. apply (lane_ext w n); auto. { apply build_range; lia. }
  intros i Hi. rewrite lane_build, lane_wrap by lia. reflexivity.
Qed.

Lemma lane_land w i a b : 0 <= w -> 0 <= i -> lane w i (Z.land a b) = Z.land (lane w i a) (lane w i b).
Proof. intros. bits. Qed.
Lemma lane_lor w i a b : 0 <= w -> 0 <= i -> lane w i (Z.lor a b) = Z.lor (lane w i a) (lane w i b).
Proof. intros. bits. Qed.
Lemma lane_lxor w i a b : 0 <= w -> 0 <= i -> lane w i (Z.lxor a b) = Z.lxor (lane w i a) (lane w i b).
Proof. intros. bits. Qed.
Lemma lane_ldiff w i a b : 0 <= w -> 0 <= i -> lane w i (Z.ldiff a b) = Z.ldiff (lane w i a) (lane w i b).
Proof. intros. bits. Qed.

Lemma lane_set_lane w i j v x :
  0 < w -> 0 <= i -> 0 <= j ->
  lane w i (set_lane w j v x) = if i =? j then wrap w v else lane w i x.
Proof.
  intros Hw Hi Hj. unfold set_lane.
  destruct (Z.eqb_spec i j) as [->|Hne].
  - apply Z.bits_inj'. intros k Hk. autorewrite with bits.
    destruct (Z.ltb_spec k w); [|reflexivity]. cbn.
    replace (k + w * j - w * j) with k by lia. autorewrite with bits.
    repeat bits_case. cbn. rewrite andb_false_r. reflexivity.
  - apply Z.bits_inj'. intros k Hk. autorewrite with bits.
    destruct (Z.ltb_spec k w); [|reflexivity]. cbn.
    destruct (Z.leb_spec (w * j) (k + w * i)); cbn.
    + autorewrite with bits. repeat bits_case; [nia|].
      cbn. rewrite andb_true_r, orb_false_r. reflexivity.
    + rewrite andb_true_r, orb_false_r. reflexivity.
Qed.

Lemma set_lane_range w i v x n :
  0 < w -> 0 <= i < Z.of_nat n -> in_range (w * Z.of_nat n) x ->
  in_range (w * Z.of_nat n) (set_lane w i v x).
Proof.
  intros Hw Hi Hx. apply in_range_testbit; [lia| |].
  - apply Z.lor_nonneg. split.
    + apply Z.ldiff_nonneg. left. unfold in_range in Hx. lia.
    + apply Z.shiftl_nonneg. apply wrap_range. lia.
  - intros k Hk. unfold set_lane. autorewrite with bits.
    rewrite (testbit_high _ x k Hx) by lia.
    repeat bits_case; cbn; try reflexivity. autorewrite with bits.
    destruct (Z.ltb_spec (k - w * i) w); [nia|reflexivity].
Qed.

(** A narrow lane inside a wide one. *)
Lemma lane_lane w m i j x :
  0 < w -> 0 < m -> 0 <= i -> 0 <= j < m ->
  lane w j (lane (w * m) i x) = lane w (m * i + j) x.
Proof.
  intros Hw Hm Hi Hj. apply Z.bits_inj'. intros k Hk. autorewrite with bits.
  destruct (Z.ltb_spec k w); [|reflexivity]. cbn.
  destruct (Z.ltb_spec (k + w * j) (w * m)); [|nia]. cbn. f_equal. lia.
Qed.

(** A wide lane from its two halves. *)
Lemma lane_double w i x :
  0 < w -> 0 <= i ->
  lane (2 * w) i x = lane w (2 * i) x + 2 ^ w * lane w (2 * i + 1) x.
Proof.
  intros Hw Hi.
  replace (lane w (2 * i) x) with (wrap w (lane (2 * w) i x)).
  2:{ bits. }
  replace (lane w (2 * i + 1) x) with (lane (2 * w) i x / 2 ^ w).
  2:{ rewrite <- Z.shiftr_div_pow2 by lia. bits. }
  unfold wrap. pose proof (Z.div_mod (lane (2 * w) i x) (2 ^ w)).
  pose proof (pow2_pos w). lia.
Qed.

(** *** Lane widths of a register *)

Class LaneWidth (w : Z) : Prop := lane_width : 0 < w /\ w * Z.of_nat (nlanes w) = 128.
#[export] Instance LaneWidth_8 : LaneWidth 8. Proof. split; reflexivity. Qed.
#[export] Instance LaneWidth_16 : LaneWidth 16. Proof. split; reflexivity. Qed.
#[export] Instance LaneWidth_32 : LaneWidth 32. Proof. split; reflexivity. Qed.
#[export] Instance LaneWidth_64 : LaneWidth 64. Proof. split; reflexivity. Qed.

Section Widths.
Context {w : Z} `{HW : LaneWidth w}.

Lemma width_pos : 0 < w. Proof. apply HW. Qed.
Lemma width_nonneg : 0 <= w. Proof. pose proof width_pos. lia. Qed.

Lemma build128_range f : in_range 128 (build w (nlanes w) f).
Proof. destruct HW as [? <-]. apply build_range. lia. Qed.

Lemma map1_range f a : in_range 128 (map1 w f a).
Proof. apply build128_range. Qed.
Lemma map2_range f a b : in_range 128 (map2 w f a b).
Proof. apply build128_range. Qed.
Lemma splat_range v : in_range 128 (splat w v).
Proof. apply build128_range. Qed.

Lemma lane_map1 f a i : 0 <= i < Z.of_nat (nlanes w) -> lane w i (map1 w f a) = wrap w (f (lane w i a)).
Proof. intros. unfold map1. rewrite lane_build; auto using width_pos. Qed.
Lemma lane_map2 f a b i :
  0 <= i < Z.of_nat (nlanes w) ->
  lane w i (map2 w f a b) = wrap w (f (lane w i a) (lane w i b)).
Proof. intros. unfold map2. rewrite lane_build; auto using width_pos. Qed.
Lemma lane_splat v i : 0 <= i < Z.of_nat (nlanes w) -> lane w i (splat w v) = wrap w v.
Proof. intros. unfold splat. rewrite lane_build; auto using width_pos. Qed.

Lemma lane128_ext x y :
  in_range 128 x -> in_range 128 y ->
  (forall i, 0 <= i < Z.of_nat (nlanes w) -> lane w i x = lane w i y) -> x = y.
Proof.
  intros Hx Hy. destruct HW as [Hw Hn]. apply (lane_ext w (nlanes w)); rewrite ?Hn; auto.
Qed.

(** The loop [for (i) r._uW[i] = f(i)] builds the vector of [f]. *)
Lemma for_up_set_lane f x :
  in_range 128 x ->
  for_up (nlanes w) (fun i => set_lane w i (f i)) x = build w (nlanes w) f.
Proof.
  intros Hx. pose proof HW as [Hw Hn].
  assert (forall y, for_up (nlanes w) (fun i => set_lane w i (f i)) x = y ->
            in_range 128 y /\ forall i, 0 <= i < Z.of_nat (nlanes w) -> lane w i y = wrap w (f i)) as H.
  { intros y <-.
    apply (for_up_ind (fun j y => in_range 128 y /\ forall i, 0 <= i < j -> lane w i y = wrap w (f i))).
    - split; [auto|lia].
    - intros j t Hj [Ht IH]. split.
      + rewrite <- Hn. apply set_lane_range; rewrite ?Hn; auto.
      + intros i Hi. rewrite lane_set_lane by lia.
        destruct (Z.eqb_spec i j) as [->|]; auto. apply IH. lia. }
  destruct (H _ eq_refl) as [Hr Hl].
  apply lane128_ext; auto using build128_range.
  intros i Hi. rewrite Hl, lane_build; auto.
Qed.
End Widths.

#[export] Hint Resolve map1_range map2_range splat_range : range.

(** ** Ranges of the operations *)

Lemma v_not_range a : in_range 128 a -> in_range 128 (v_not a).
Proof. intros. apply lxor_range; auto with range. Qed.

Lemma ldiff_range w a b : 0 <= w -> in_range w a -> in_range w (Z.ldiff a b).
Proof.
  intros Hw Ha. apply in_range_testbit; [lia| |].
  - apply Z.ldiff_nonneg. left. apply Ha.
  - intros k Hk. rewrite Z.ldiff_spec, (testbit_high w a) by (auto; lia). reflexivity.
Qed.

Lemma zero_range w : 0 <= w -> in_range w 0.
Proof. intros. pose proof (pow2_pos w). unfold in_range. lia. Qed.

Lemma mm_slli_range w `{LaneWidth w} a n : in_range 128 (mm_slli w a n).
Proof. unfold mm_slli. destruct (_ || _); auto using zero_range with range. Qed.
Lemma mm_srli_range w `{LaneWidth w} a n : in_range 128 (mm_srli w a n).
Proof. unfold mm_srli. destruct (_ || _); auto using zero_range with range. Qed.

Lemma set_lane128_range w `{HW : LaneWidth w} i v x :
  0 <= i < Z.of_nat (nlanes w) -> in_range 128 x -> in_range 128 (set_lane w i v x).
Proof.
  destruct HW as [Hw Hn]. intros Hi Hx. rewrite <- Hn in *. apply set_lane_range; auto.
Qed.

Lemma from32_range a b c d : in_range 128 (from32 a b c d).
Proof.
  unfold from32. do 4 (apply (set_lane128_range 32); [vm_compute; intuition congruence|]).
  apply zero_range. lia.
Qed.
Lemma from64_range a b : in_range 128 (from64 a b).
Proof.
  unfold from64. do 2 (apply (set_lane128_range 64); [vm_compute; intuition congruence|]).
  apply zero_range. lia.
Qed.
Lemma build128_range' w n f : 0 <= w -> w * Z.of_nat n = 128 -> in_range 128 (build w n f).
Proof. intros ? <-. apply build_range. lia. Qed.

Lemma shiftr128_range a n : 0 <= n -> in_range 128 a -> in_range 128 (Z.shiftr a n).
Proof. intros. apply shiftr_range; auto; lia. Qed.
Lemma wrap128_range a : in_range 128 (wrap 128 a).
Proof. apply wrap_range. lia. Qed.


Lemma v_nonneg x : in_range 128 x -> 0 <= x.
Proof. unfold in_range. lia. Qed.

Lemma land128_range a b : in_range 128 a -> in_range 128 b -> in_range 128 (Z.land a b).
Proof. intros Ha Hb. apply land_range; auto using v_nonneg. lia. Qed.
Lemma lor128_range a b : in_range 128 a -> in_range 128 b -> in_range 128 (Z.lor a b).
Proof. apply lor_range. lia. Qed.
Lemma lxor128_range a b : in_range 128 a -> in_range 128 b -> in_range 128 (Z.lxor a b).
Proof. apply lxor_range. lia. Qed.
Lemma ldiff128_range a b : in_range 128 a -> in_range 128 (Z.ldiff a b).
Proof. apply ldiff_range. lia. Qed.

(** [v_range]: the result of a vector expression is a 128-bit value. *)
Ltac v_range_step :=
  match goal with
  | H : in_range 128 ?x |- in_range 128 ?x => exact H
  | |- LaneWidth _ => typeclasses eauto
  | |- in_range 128 (Z.land _ _) => apply land128_range
  | |- in_range 128 (Z.lor _ _) => apply lor128_range
  | |- in_range 128 (Z.lxor _ _) => apply lxor128_range
  | |- in_range 128 (Z.ldiff _ _) => apply ldiff128_range
  | |- in_range 128 (v_not _) => apply v_not_range
  | |- in_range 128 (wrap 128 _) => apply wrap128_range
  | |- in_range 128 (from32 _ _ _ _) => apply from32_range
  | |- in_range 128 (from32r _) => apply from32_range
  | |- in_range 128 (from32p _) => apply from32_range
  | |- in_range 128 (from64 _ _) => apply from64_range
  | |- in_range 128 (mm_slli _ _ _) => apply mm_slli_range
  | |- in_range 128 (mm_srli _ _ _) => apply mm_srli_range
  | |- in_range 128 (map1 _ _ _) => apply map1_range
  | |- in_range 128 (map2 _ _ _ _) => apply map2_range
  | |- in_range 128 (splat _ _) => apply splat_range
  | |- in_range 128 (build _ (nlanes _) _) => apply build128_range
  | |- in_range 128 (build _ _ _) => apply build128_range'; [lia | reflexivity]
  | |- in_range 128 0 => apply zero_range; lia
  | |- in_range 128 (Z.shiftr _ _) => apply shiftr128_range; [lia|]
  | |- in_range 128 (if ?b then _ else _) => destruct b
  end.

Ltac v_unfold :=
  unfold gv_add16, gv_add32, gv_sub8, gv_sub16, gv_sub32, gv_maxu8, gv_minu8, gv_gtu8,
    gv_gtu16, gv_gtu32, gv_andn, mm_setzero_si128, mm_set1_epi8, mm_set1_epi16, mm_set1_epi32,
    mm_set_epi32, mm_set_epi16, mm_set_epi8, mm_or_si128, mm_and_si128, mm_xor_si128,
    mm_andnot_si128, mm_add_epi8, mm_add_epi16, mm_add_epi32, mm_sub_epi8, mm_sub_epi16,
    mm_sub_epi32, mm_min_epu8, mm_max_epu8, mm_avg_epu8, mm_slli_epi16, mm_slli_epi32,
    mm_slli_epi64, mm_srli_epi16, mm_srli_epi32, mm_srli_epi64, mm_srai_epi16, mm_srai_epi32,
    mm_slli_si128, mm_srli_si128, mm_cmpgt_epi8, mm_cmpgt_epi16, mm_cmpgt_epi32, mm_cmpeq_epi8,
    mm_cmpeq_epi16, mm_cmpeq_epi32, mm_cmpgt, mm_cmpeq, mm_packs_epi16, mm_shuffle_epi32,
    mm_shufflehi_epi16, mm_shufflelo_epi16, mm_unpackhi_epi16, mm_unpackhi_epi8,
    mm_unpacklo_epi8, interleave, mm_mullo_epi16, mm_mulhi_epu16, mm_mulhi_epi16,
    mm_madd_epi16, mm_loadu_si128.

Ltac v_range := v_unfold; repeat v_range_step.

(** ** Reading lanes of vector expressions *)

Ltac lane_side :=
  match goal with
  | |- LaneWidth _ => typeclasses eauto
  | _ =>
      change (Z.of_nat (nlanes 8)) with 16 in *; change (Z.of_nat (nlanes 16)) with 8 in *;
      change (Z.of_nat (nlanes 32)) with 4 in *; change (Z.of_nat (nlanes 64)) with 2 in *;
      cbn [Z.of_nat Pos.of_succ_nat Pos.succ] in *; lia
  end.

Create Rewrite HintDb lanes.
#[export] Hint Rewrite @lane_map1 @lane_map2 @lane_splat lane_build lane_land lane_lor lane_lxor
  lane_ldiff lane_set_lane lane_wrap using lane_side : lanes.

Lemma lane_slli w `{HW : LaneWidth w} a n i :
  0 <= i < Z.of_nat (nlanes w) -> 0 <= n ->
  lane w i (mm_slli w a n) = wrap w (Z.shiftl (lane w i a) n).
Proof.
  intros Hi Hn. unfold mm_slli. pose proof (width_pos (w:=w)).
  destruct (Z.ltb_spec n 0); [lia|]. cbn. destruct (Z.leb_spec w n).
  - unfold mm_setzero_si128. rewrite lane_zero by lia.
    apply Z.bits_inj'. intros k Hk. autorewrite with bits. repeat bits_case; reflexivity.
  - rewrite lane_map1; auto.
Qed.

Lemma lane_srli w `{HW : LaneWidth w} a n i :
  0 <= i < Z.of_nat (nlanes w) -> 0 <= n ->
  lane w i (mm_srli w a n) = Z.shiftr (lane w i a) n.
Proof.
  intros Hi Hn. unfold mm_srli. pose proof (width_pos (w:=w)).
  destruct (Z.ltb_spec n 0); [lia|]. cbn. destruct (Z.leb_spec w n).
  - unfold mm_setzero_si128. rewrite lane_zero by lia.
    apply Z.bits_inj'. intros k Hk. autorewrite with bits. repeat bits_case; reflexivity.
  - rewrite lane_map1 by auto. apply wrap_small, shiftr_range; auto with range.
Qed.

#[export] Hint Rewrite @lane_slli @lane_srli using lane_side : lanes.

Lemma lane_from32 a b c d i :
  0 <= i < 4 ->
  lane 32 i (from32 a b c d)
    = wrap 32 (if i =? 0 then a else if i =? 1 then b else if i =? 2 then c else d).
Proof.
  intros Hi. unfold from32. rewrite !lane_set_lane, lane_zero by lia.
  destruct (Z.eqb_spec i 0), (Z.eqb_spec i 1), (Z.eqb_spec i 2), (Z.eqb_spec i 3);
    try lia; reflexivity.
Qed.
Lemma lane_from32p v i : 0 <= i < 4 -> lane 32 i (from32p v) = wrap 32 v.
Proof. intros Hi. unfold from32p. rewrite lane_from32 by lia. repeat case_match; reflexivity. Qed.
#[export] Hint Rewrite lane_from32 lane_from32p using lane_side : lanes.
