(* ===== verification/Bytes.v ===== *)
(** * Byte maps

    Memory as a finite map from addresses to bytes, and big-endian values in it:
    the guest's [be_t] accesses to local storage and to main memory. *)

From Stdlib Require Import ZArith Lia Bool.
From stdpp Require Import base numbers list gmap.
From S2P Require Import Prelude V128.

(** Absent bytes read as zero. *)
Definition byte_at (m : gmap Z Z) (a : Z) : Z := default 0 (m !! a).

(** A big-endian value of [n] bytes at [a]. *)
Fixpoint be_load (m : gmap Z Z) (a : Z) (n : nat) : Z :=
  match n with
  | O => 0
  | S n' => Z.lor (Z.shiftl (byte_at m a) (8 * Z.of_nat n')) (be_load m (a + 1) n')
  end.
Fixpoint be_store (m : gmap Z Z) (a : Z) (n : nat) (v : Z) : gmap Z Z :=
  match n with
  | O => m
  | S n' => be_store (<[a := lane 8 (Z.of_nat n') v]> m) (a + 1) n' v
  end.

Definition bytes_ok (m : gmap Z Z) : Prop := map_Forall (fun _ v => in_range 8 v) m.

Lemma byte_at_range m a : bytes_ok m -> in_range 8 (byte_at m a).
Proof.
  intros Hm. unfold byte_at. destruct (m !! a) eqn:E; cbn.
  - apply (Hm _ _ E).
  - apply zero_range. lia.
Qed.

Lemma be_load_range m a n : bytes_ok m -> in_range (8 * Z.of_nat n) (be_load m a n).
Proof.
  intros Hm. revert a. induction n as [|n IH]; intros a; cbn [be_load].
  - unfold in_range. cbn. lia.
  - pose proof (byte_at_range m a Hm) as Hb. specialize (IH (a + 1)).
    apply in_range_testbit; [lia| |].
    + apply Z.lor_nonneg. split; [apply Z.shiftl_nonneg; apply Hb|apply IH].
    + intros k Hk. rewrite Z.lor_spec, testbit_shiftl by lia.
      rewrite (testbit_high _ _ k IH), (testbit_high 8 _ (k - 8 * Z.of_nat n) Hb) by lia.
      rewrite andb_false_r. reflexivity.
Qed.

Lemma be_store_ok m a n v : bytes_ok m -> bytes_ok (be_store m a n v).
Proof.
  revert m a. induction n as [|n IH]; intros m a Hm; cbn [be_store]; [exact Hm|].
  apply IH, map_Forall_insert_2; [|exact Hm]. apply lane_range. lia.
Qed.

Lemma byte_at_store_other m a n v b :
  b < a \/ a + Z.of_nat n <= b -> byte_at (be_store m a n v) b = byte_at m b.
Proof.
  revert m a. induction n as [|n IH]; intros m a Hb; cbn [be_store]; [reflexivity|].
  rewrite IH by lia. unfold byte_at. rewrite lookup_insert_ne by lia. reflexivity.
Qed.

Lemma byte_at_store m a n v k :
  0 <= k < Z.of_nat n -> byte_at (be_store m a n v) (a + k) = lane 8 (Z.of_nat n - 1 - k) v.
Proof.
  revert m a k. induction n as [|n IH]; intros m a k Hk; [lia|]. cbn [be_store].
  destruct (Z.eq_dec k 0) as [->|].
  - rewrite byte_at_store_other by lia. unfold byte_at.
    rewrite Z.add_0_r, lookup_insert_eq. cbn [from_option id]. f_equal. lia.
  - replace (a + k) with (a + 1 + (k - 1)) by lia. rewrite IH by lia. f_equal; lia.
Qed.

(** Byte [k] (big-endian) of a loaded value. *)
Lemma lane_be_load m a n k :
  bytes_ok m -> 0 <= k < Z.of_nat n ->
  lane 8 (Z.of_nat n - 1 - k) (be_load m a n) = byte_at m (a + k).
Proof.
  intros Hm. revert a k. induction n as [|n IH]; intros a k Hk; [lia|]. cbn [be_load].
  pose proof (byte_at_range m a Hm) as Hb. pose proof (be_load_range m (a + 1) n Hm) as Hl.
  destruct (Z.eq_dec k 0) as [->|].
  - rewrite Z.add_0_r. apply Z.bits_inj'. intros j Hj. autorewrite with bits.
    rewrite (testbit_high _ _ (j + _) Hl) by lia.
    destruct (Z.ltb_spec j 8); cbn.
    + destruct (Z.leb_spec (8 * Z.of_nat n) (j + 8 * (Z.of_nat (S n) - 1 - 0))); [|lia].
      cbn. rewrite orb_false_r. f_equal. lia.
    + symmetry. apply (testbit_high 8); auto; lia.
  - replace (a + k) with (a + 1 + (k - 1)) by lia. rewrite <- (IH (a + 1) (k - 1)) by lia.
    apply Z.bits_inj'. intros j Hj. autorewrite with bits.
    destruct (Z.ltb_spec j 8); [|reflexivity]. cbn.
    destruct (Z.leb_spec (8 * Z.of_nat n) (j + 8 * (Z.of_nat (S n) - 1 - k))); [lia|].
    cbn. f_equal. lia.
Qed.

Lemma be_load_store m a n v :
  bytes_ok (be_store m a n v) -> in_range (8 * Z.of_nat n) v ->
  be_load (be_store m a n v) a n = v.
Proof.
  intros Hm Hv. apply (lane_ext 8 n); [lia|apply be_load_range; auto|exact Hv|].
  intros i Hi. replace i with (Z.of_nat n - 1 - (Z.of_nat n - 1 - i)) by lia.
  rewrite lane_be_load, byte_at_store by (auto; lia). reflexivity.
Qed.

Lemma be_load_store_other m a n v b k :
  b + Z.of_nat k <= a \/ a + Z.of_nat n <= b ->
  be_load (be_store m a n v) b k = be_load m b k.
Proof.
  revert b. induction k as [|k IH]; intros b Hb; cbn [be_load]; [reflexivity|].
  rewrite IH by lia. rewrite byte_at_store_other by lia. reflexivity.
Qed.

