(* ===== verification/SpuOpcodes.v ===== *)
(** * SPU instruction words and the decoder (Emu/Cell/SPUOpcodes.h)

    The fields of [spu_opcode_t], the address helpers, the instruction list and
    the 2048-entry lookup table the decoder fills from it. *)

From Stdlib Require Import ZArith Lia Bool.
From stdpp Require Import base numbers list.
From S2P Require Import Prelude BitField.

(** ** [spu_opcode_t] *)

Module spu_opcode_t.
Definition rt (op : Z) : Z := bf.extract 0 7 op.
Definition rc (op : Z) : Z := bf.extract 0 7 op.
Definition ra (op : Z) : Z := bf.extract 7 7 op.
Definition rb (op : Z) : Z := bf.extract 14 7 op.
Definition rt4 (op : Z) : Z := bf.extract 21 7 op.
Definition e (op : Z) : Z := bf.extract 18 1 op.
Definition d (op : Z) : Z := bf.extract 19 1 op.
Definition r0h (op : Z) : Z := bf.extract_s 32 23 2 op.
Definition i7 (op : Z) : Z := bf.extract 14 7 op.
Definition i8 (op : Z) : Z := bf.extract 14 8 op.
Definition si10 (op : Z) : Z := bf.extract_s 32 14 10 op.
Definition i16 (op : Z) : Z := bf.extract 7 16 op.
Definition si16 (op : Z) : Z := bf.extract_s 32 7 16 op.
Definition i18 (op : Z) : Z := bf.extract 7 18 op.
End spu_opcode_t.

Definition spu_branch_target (pc imm : Z) : Z :=
  Z.land (u32 (pc + u32 (Z.shiftl imm 2))) 0x3fffc.

Definition spu_ls_target (pc imm : Z) : Z :=
  Z.land (u32 (pc + u32 (Z.shiftl imm 2))) 0x3fff0.

Definition spu_decode (inst : Z) : Z := Z.shiftr inst 21.

(** ** Instruction names *)

Module Name.
Inductive t :=
| UNK
| STOP | LNOP | SYNC | DSYNC | MFSPR | RDCH | RCHCNT | SF | OR | BG | SFH | NOR | ABSDB
| ROT | ROTM | ROTMA | SHL | ROTH | ROTHM | ROTMAH | SHLH
| ROTI | ROTMI | ROTMAI | SHLI | ROTHI | ROTHMI | ROTMAHI | SHLHI
| A | AND | CG | AH | NAND | AVGB | MTSPR | WRCH
| BIZ | BINZ | BIHZ | BIHNZ | STOPD | STQX | BI | BISL | IRET | BISLED | HBR
| GB | GBH | GBB | FSM | FSMH | FSMB | FREST | FRSQEST | LQX
| ROTQBYBI | ROTQMBYBI | SHLQBYBI | CBX | CHX | CWX | CDX
| ROTQBI | ROTQMBI | SHLQBI | ROTQBY | ROTQMBY | SHLQBY | ORX
| CBD | CHD | CWD | CDD | ROTQBII | ROTQMBII | SHLQBII | ROTQBYI | ROTQMBYI | SHLQBYI
| NOP | CGT | XOR | CGTH | EQV | CGTB | SUMB | HGT | CLZ | XSWD | XSHW | CNTB | XSBH
| CLGT | ANDC | FCGT | DFCGT | FA | FS | FM | CLGTH | ORC | FCMGT | DFCMGT | DFA | DFS | DFM
| CLGTB | HLGT | DFMA | DFMS | DFNMS | DFNMA | CEQ | MPYHHU | ADDX | SFX | CGX | BGX
| MPYHHA | MPYHHAU | FSCRRD | FESD | FRDS | FSCRWR | DFTSV | FCEQ | DFCEQ
| MPY | MPYH | MPYHH | MPYS | CEQH | FCMEQ | DFCMEQ | MPYU | CEQB | FI | HEQ
| CFLTS | CFLTU | CSFLT | CUFLT
| BRZ | STQA | BRNZ | BRHZ | BRHNZ | STQR | BRA | LQA | BRASL | BR | FSMBI | BRSL | LQR
| IL | ILHU | ILH | IOHL
| ORI | ORHI | ORBI | SFI | SFHI | ANDI | ANDHI | ANDBI | AI | AHI | STQD | LQD
| XORI | XORHI | XORBI | CGTI | CGTHI | CGTBI | HGTI | CLGTI | CLGTHI | CLGTBI | HLGTI
| MPYI | MPYUI | CEQI | CEQHI | CEQBI | HEQI | HBRA | HBRR | ILA
| SELB | SHUFB | MPYA | FNMS | FMA | FMS.

End Name.

(** The initializer list of the decoder: (magnitude, value, name); an entry covers
    the [2^magn] table slots [value << magn | i]. *)
Definition instructions : list (Z * Z * Name.t) := [
  (0, 0x0, Name.STOP); (0, 0x1, Name.LNOP); (0, 0x2, Name.SYNC); (0, 0x3, Name.DSYNC);
  (0, 0xc, Name.MFSPR); (0, 0xd, Name.RDCH); (0, 0xf, Name.RCHCNT); (0, 0x40, Name.SF);
  (0, 0x41, Name.OR); (0, 0x42, Name.BG); (0, 0x48, Name.SFH); (0, 0x49, Name.NOR);
  (0, 0x53, Name.ABSDB); (0, 0x58, Name.ROT); (0, 0x59, Name.ROTM); (0, 0x5a, Name.ROTMA);
  (0, 0x5b, Name.SHL); (0, 0x5c, Name.ROTH); (0, 0x5d, Name.ROTHM); (0, 0x5e, Name.ROTMAH);
  (0, 0x5f, Name.SHLH); (0, 0x78, Name.ROTI); (0, 0x79, Name.ROTMI); (0, 0x7a, Name.ROTMAI);
  (0, 0x7b, Name.SHLI); (0, 0x7c, Name.ROTHI); (0, 0x7d, Name.ROTHMI); (0, 0x7e, Name.ROTMAHI);
  (0, 0x7f, Name.SHLHI); (0, 0xc0, Name.A); (0, 0xc1, Name.AND); (0, 0xc2, Name.CG);
  (0, 0xc8, Name.AH); (0, 0xc9, Name.NAND); (0, 0xd3, Name.AVGB); (0, 0x10c, Name.MTSPR);
  (0, 0x10d, Name.WRCH); (0, 0x128, Name.BIZ); (0, 0x129, Name.BINZ); (0, 0x12a, Name.BIHZ);
  (0, 0x12b, Name.BIHNZ); (0, 0x140, Name.STOPD); (0, 0x144, Name.STQX); (0, 0x1a8, Name.BI);
  (0, 0x1a9, Name.BISL); (0, 0x1aa, Name.IRET); (0, 0x1ab, Name.BISLED); (0, 0x1ac, Name.HBR);
  (0, 0x1b0, Name.GB); (0, 0x1b1, Name.GBH); (0, 0x1b2, Name.GBB); (0, 0x1b4, Name.FSM);
  (0, 0x1b5, Name.FSMH); (0, 0x1b6, Name.FSMB); (0, 0x1b8, Name.FREST);
  (0, 0x1b9, Name.FRSQEST); (0, 0x1c4, Name.LQX); (0, 0x1cc, Name.ROTQBYBI);
  (0, 0x1cd, Name.ROTQMBYBI); (0, 0x1cf, Name.SHLQBYBI); (0, 0x1d4, Name.CBX);
  (0, 0x1d5, Name.CHX); (0, 0x1d6, Name.CWX); (0, 0x1d7, Name.CDX); (0, 0x1d8, Name.ROTQBI);
  (0, 0x1d9, Name.ROTQMBI); (0, 0x1db, Name.SHLQBI); (0, 0x1dc, Name.ROTQBY);
  (0, 0x1dd, Name.ROTQMBY); (0, 0x1df, Name.SHLQBY); (0, 0x1f0, Name.ORX);
  (0, 0x1f4, Name.CBD); (0, 0x1f5, Name.CHD); (0, 0x1f6, Name.CWD); (0, 0x1f7, Name.CDD);
  (0, 0x1f8, Name.ROTQBII); (0, 0x1f9, Name.ROTQMBII); (0, 0x1fb, Name.SHLQBII);
  (0, 0x1fc, Name.ROTQBYI); (0, 0x1fd, Name.ROTQMBYI); (0, 0x1ff, Name.SHLQBYI);
  (0, 0x201, Name.NOP); (0, 0x240, Name.CGT); (0, 0x241, Name.XOR); (0, 0x248, Name.CGTH);
  (0, 0x249, Name.EQV); (0, 0x250, Name.CGTB); (0, 0x253, Name.SUMB); (0, 0x258, Name.HGT);
  (0, 0x2a5, Name.CLZ); (0, 0x2a6, Name.XSWD); (0, 0x2ae, Name.XSHW); (0, 0x2b4, Name.CNTB);
  (0, 0x2b6, Name.XSBH); (0, 0x2c0, Name.CLGT); (0, 0x2c1, Name.ANDC); (0, 0x2c2, Name.FCGT);
  (0, 0x2c3, Name.DFCGT); (0, 0x2c4, Name.FA); (0, 0x2c5, Name.FS); (0, 0x2c6, Name.FM);
  (0, 0x2c8, Name.CLGTH); (0, 0x2c9, Name.ORC); (0, 0x2ca, Name.FCMGT);
  (0, 0x2cb, Name.DFCMGT); (0, 0x2cc, Name.DFA); (0, 0x2cd, Name.DFS); (0, 0x2ce, Name.DFM);
  (0, 0x2d0, Name.CLGTB); (0, 0x2d8, Name.HLGT); (0, 0x35c, Name.DFMA); (0, 0x35d, Name.DFMS);
  (0, 0x35e, Name.DFNMS); (0, 0x35f, Name.DFNMA); (0, 0x3c0, Name.CEQ);
  (0, 0x3ce, Name.MPYHHU); (0, 0x340, Name.ADDX); (0, 0x341, Name.SFX); (0, 0x342, Name.CGX);
  (0, 0x343, Name.BGX); (0, 0x346, Name.MPYHHA); (0, 0x34e, Name.MPYHHAU);
  (0, 0x398, Name.FSCRRD); (0, 0x3b8, Name.FESD); (0, 0x3b9, Name.FRDS);
  (0, 0x3ba, Name.FSCRWR); (0, 0x3bf, Name.DFTSV); (0, 0x3c2, Name.FCEQ);
  (0, 0x3c3, Name.DFCEQ); (0, 0x3c4, Name.MPY); (0, 0x3c5, Name.MPYH); (0, 0x3c6, Name.MPYHH);
  (0, 0x3c7, Name.MPYS); (0, 0x3c8, Name.CEQH); (0, 0x3ca, Name.FCMEQ);
  (0, 0x3cb, Name.DFCMEQ); (0, 0x3cc, Name.MPYU); (0, 0x3d0, Name.CEQB); (0, 0x3d4, Name.FI);
  (0, 0x3d8, Name.HEQ); (1, 0x1d8, Name.CFLTS); (1, 0x1d9, Name.CFLTU); (1, 0x1da, Name.CSFLT);
  (1, 0x1db, Name.CUFLT); (2, 0x40, Name.BRZ); (2, 0x41, Name.STQA); (2, 0x42, Name.BRNZ);
  (2, 0x44, Name.BRHZ); (2, 0x46, Name.BRHNZ); (2, 0x47, Name.STQR); (2, 0x60, Name.BRA);
  (2, 0x61, Name.LQA); (2, 0x62, Name.BRASL); (2, 0x64, Name.BR); (2, 0x65, Name.FSMBI);
  (2, 0x66, Name.BRSL); (2, 0x67, Name.LQR); (2, 0x81, Name.IL); (2, 0x82, Name.ILHU);
  (2, 0x83, Name.ILH); (2, 0xc1, Name.IOHL); (3, 0x4, Name.ORI); (3, 0x5, Name.ORHI);
  (3, 0x6, Name.ORBI); (3, 0xc, Name.SFI); (3, 0xd, Name.SFHI); (3, 0x14, Name.ANDI);
  (3, 0x15, Name.ANDHI); (3, 0x16, Name.ANDBI); (3, 0x1c, Name.AI); (3, 0x1d, Name.AHI);
  (3, 0x24, Name.STQD); (3, 0x34, Name.LQD); (3, 0x44, Name.XORI); (3, 0x45, Name.XORHI);
  (3, 0x46, Name.XORBI); (3, 0x4c, Name.CGTI); (3, 0x4d, Name.CGTHI); (3, 0x4e, Name.CGTBI);
  (3, 0x4f, Name.HGTI); (3, 0x5c, Name.CLGTI); (3, 0x5d, Name.CLGTHI); (3, 0x5e, Name.CLGTBI);
  (3, 0x5f, Name.HLGTI); (3, 0x74, Name.MPYI); (3, 0x75, Name.MPYUI); (3, 0x7c, Name.CEQI);
  (3, 0x7d, Name.CEQHI); (3, 0x7e, Name.CEQBI); (3, 0x7f, Name.HEQI); (4, 0x8, Name.HBRA);
  (4, 0x9, Name.HBRR); (4, 0x21, Name.ILA); (7, 0x8, Name.SELB); (7, 0xb, Name.SHUFB);
  (7, 0xc, Name.MPYA); (7, 0xd, Name.FNMS); (7, 0xe, Name.FMA); (7, 0xf, Name.FMS)
].

(** The table filled by the constructor: every slot [UNK], then each entry in order. *)
Definition m_table : list Name.t :=
  foldl (fun tbl '(magn, value, name) =>
           for_up (Z.to_nat (Z.shiftl 1 magn))
             (fun i t => <[Z.to_nat (Z.lor (Z.shiftl value magn) i) := name]> t) tbl)
        (replicate 2048 Name.UNK) instructions.

(** [decode(inst)]. *)
Definition decode (inst : Z) : Name.t :=
  nth (Z.to_nat (spu_decode inst)) m_table Name.UNK.

(** ** Encoders ([namespace spu_instructions]) *)

Module spu_instructions.
Definition set_rt (v op : Z) : Z := bf.store 0 7 v op.
Definition set_ra (v op : Z) : Z := bf.store 7 7 v op.
Definition set_rb (v op : Z) : Z := bf.store 14 7 v op.
Definition set_i16 (v op : Z) : Z := bf.store 7 16 v op.
Definition set_si10 (v op : Z) : Z := bf.store 14 10 v op.
Definition set_i18 (v op : Z) : Z := bf.store 7 18 v op.
Definition set_r0h (v op : Z) : Z := bf.store 23 2 v op.

Definition STOP (code : Z) : Z := Z.land code 0x3fff.
Definition LNOP : Z := Z.shiftl 0x1 21.
Definition NOP : Z := Z.shiftl 0x201 21.
Definition SF (rt ra rb : Z) : Z := set_rb rb (set_ra ra (set_rt rt (Z.shiftl 0x40 21))).
Definition ORX (rt ra : Z) : Z := set_ra ra (set_rt rt (Z.shiftl 0x1f0 21)).
Definition XOR (rt ra rb : Z) : Z := set_rb rb (set_ra ra (set_rt rt (Z.shiftl 0x241 21))).
Definition WRCH (ch rt : Z) : Z := set_rt rt (set_ra ch (Z.shiftl 0x10d 21)).
Definition BR (offset : Z) : Z := set_i16 (Z.quot offset 4) (Z.shiftl 0x64 23).
Definition BRNZ (rt offset : Z) : Z :=
  set_i16 (Z.quot offset 4) (set_rt rt (Z.shiftl 0x42 23)).
Definition ILA (rt imm : Z) : Z := set_i18 imm (set_rt rt (Z.shiftl 0x21 25)).
Definition HBRA (offset target : Z) : Z :=
  set_i16 (Z.quot target 4)
    (set_rt (Z.land (Z.quot offset 4) 0x7f)
      (set_r0h (Z.shiftr (Z.quot offset 4) 7) (Z.shiftl 0x8 25))).
Definition AI (rt ra si : Z) : Z := set_si10 si (set_ra ra (set_rt rt (Z.shiftl 0x1c 24))).
Definition CGTI (rt ra si : Z) : Z := set_si10 si (set_ra ra (set_rt rt (Z.shiftl 0x4c 24))).
Definition STQD (rt ra offset : Z) : Z :=
  set_si10 (Z.quot offset 16) (set_ra ra (set_rt rt (Z.shiftl 0x24 24))).
Definition LQD (rt ra offset : Z) : Z :=
  set_si10 (Z.quot offset 16) (set_ra ra (set_rt rt (Z.shiftl 0x34 24))).
End spu_instructions.
