(* ===== verification/SpuThread.v ===== *)
(** * The SPU thread as the interpreter sees it (Emu/Cell/SPUThread.h, SPUThread.cpp)

    Registers, program counter, local storage and interrupt state; the
    services the thread object provides to instruction handlers (channels,
    events, MFC) form the interface [SpuHost]. *)

From Stdlib Require Import ZArith Lia Bool.
From stdpp Require Import base numbers list gmap.
From S2P Require Import Prelude V128 Bytes BitField SpuOpcodes.

(** [ch_events_t] is one 64-bit word of fields. *)
Module ch_events_t.
Definition events (all : Z) : Z := bf.extract 0 16 all.
Definition count (all : Z) : bool := bf.test 31 1 all.
Definition mask (all : Z) : Z := bf.extract 32 32 all.
End ch_events_t.

Record spu_thread := mk_spu_thread {
  gpr : list Z;                          (* std::array<v128, 128> *)
  pc : Z;
  ls : gmap Z Z;                         (* local storage bytes; absent = 0 *)
  state : Z;                             (* bs_t<cpu_flag> *)
  ch_events : Z;                         (* ch_events_t::all *)
  interrupts_enabled : bool;
  allow_interrupts_in_cpu_work : bool;
  srr0 : Z;
  interp_fallback : bool;                (* interpret a code window of the recompiler *)
  interp_fallback_begin : Z;
  interp_fallback_end : Z;
}.

Definition with_gpr (v : list Z) (s : spu_thread) : spu_thread :=
  mk_spu_thread v (pc s) (ls s) (state s) (ch_events s)
    (interrupts_enabled s) (allow_interrupts_in_cpu_work s) (srr0 s)
    (interp_fallback s) (interp_fallback_begin s) (interp_fallback_end s).
Definition with_pc (v : Z) (s : spu_thread) : spu_thread :=
  mk_spu_thread (gpr s) v (ls s) (state s) (ch_events s)
    (interrupts_enabled s) (allow_interrupts_in_cpu_work s) (srr0 s)
    (interp_fallback s) (interp_fallback_begin s) (interp_fallback_end s).
Definition with_ls (v : gmap Z Z) (s : spu_thread) : spu_thread :=
  mk_spu_thread (gpr s) (pc s) v (state s) (ch_events s)
    (interrupts_enabled s) (allow_interrupts_in_cpu_work s) (srr0 s)
    (interp_fallback s) (interp_fallback_begin s) (interp_fallback_end s).
Definition with_state (v : Z) (s : spu_thread) : spu_thread :=
  mk_spu_thread (gpr s) (pc s) (ls s) v (ch_events s)
    (interrupts_enabled s) (allow_interrupts_in_cpu_work s) (srr0 s)
    (interp_fallback s) (interp_fallback_begin s) (interp_fallback_end s).
Definition with_interrupts (v : bool) (s : spu_thread) : spu_thread :=
  mk_spu_thread (gpr s) (pc s) (ls s) (state s) (ch_events s)
    v (allow_interrupts_in_cpu_work s) (srr0 s)
    (interp_fallback s) (interp_fallback_begin s) (interp_fallback_end s).
Definition with_allow (v : bool) (s : spu_thread) : spu_thread :=
  mk_spu_thread (gpr s) (pc s) (ls s) (state s) (ch_events s)
    (interrupts_enabled s) v (srr0 s)
    (interp_fallback s) (interp_fallback_begin s) (interp_fallback_end s).
Definition with_srr0 (v : Z) (s : spu_thread) : spu_thread :=
  mk_spu_thread (gpr s) (pc s) (ls s) (state s) (ch_events s)
    (interrupts_enabled s) (allow_interrupts_in_cpu_work s) v
    (interp_fallback s) (interp_fallback_begin s) (interp_fallback_end s).
Definition with_fallback (v : bool) (s : spu_thread) : spu_thread :=
  mk_spu_thread (gpr s) (pc s) (ls s) (state s) (ch_events s)
    (interrupts_enabled s) (allow_interrupts_in_cpu_work s) (srr0 s)
    v (interp_fallback_begin s) (interp_fallback_end s).

(** [spu.gpr[r]] and [spu.gpr[r] = v]; register numbers are 7-bit fields. *)
Definition get (s : spu_thread) (r : Z) : Z := nth (Z.to_nat r) (gpr s) 0.
Definition set (s : spu_thread) (r v : Z) : spu_thread :=
  with_gpr (<[Z.to_nat r := v]> (gpr s)) s.

(** ** Local storage *)

Definition SPU_LS_SIZE : Z := 0x40000.

(** [spu._ref<v128>(lsa)] read and written: a big-endian reference into the LS. *)
Definition ref_v128 (s : spu_thread) (lsa : Z) : Z := be_load (ls s) (lsa mod SPU_LS_SIZE) 16.
Definition set_ref_v128 (s : spu_thread) (lsa v : Z) : spu_thread :=
  with_ls (be_store (ls s) (lsa mod SPU_LS_SIZE) 16 v) s.
(** [_ref<u32>(lsa)]. *)
Definition ref_u32 (s : spu_thread) (lsa : Z) : Z := be_load (ls s) (lsa mod SPU_LS_SIZE) 4.

(** ** Services of the thread object used by handlers

    Channel access, stop-and-signal, the event query and the MFC queue are
    [spu_thread] members that the interpreter calls; [fp_exec] stands for the
    floating-point handlers of SPUInterpreter.cpp. *)

(** How a handler ends: [return b], [spu.halt()] escaping the interpreter, or
    [fmt::throw_exception]. *)
Inductive exec_result :=
| Ret (advance : bool) (s : spu_thread)
| Halted (s : spu_thread)
| Thrown.

(** A service returns a value with the new state, or leaves by an exception. *)
Definition host_result (X : Type) : Type := option (X * spu_thread).

Class SpuHost := {
  stop_and_signal : spu_thread -> Z -> host_result bool;
  get_ch_value : spu_thread -> Z -> host_result Z;
  get_ch_count : spu_thread -> Z -> host_result Z;
  set_ch_value : spu_thread -> Z -> Z -> host_result bool;
  get_events : spu_thread -> host_result Z;
  do_mfc : spu_thread -> spu_thread;
  arm_dec_interrupt : spu_thread -> spu_thread;
  check_state : spu_thread -> bool * spu_thread;
  fp_exec : Name.t -> spu_thread -> Z -> exec_result;
}.

(** ** Interrupts *)

Definition cpu_flag_pending : Z := Z.shiftl 1 10.
Definition SPU_EVENT_LR : Z := 0x400.
Definition SPU_EVENT_S1 : Z := 0x200.
Definition SPU_EVENT_S2 : Z := 0x100.
Definition SPU_EVENT_TM : Z := 0x20.
Definition SPU_EVENT_MB : Z := 0x10.
Definition SPU_EVENT_SN : Z := 0x2.
Definition SPU_EVENT_IMPLEMENTED : Z :=
  Z.lor SPU_EVENT_LR (Z.lor SPU_EVENT_TM (Z.lor SPU_EVENT_SN
    (Z.lor SPU_EVENT_S1 (Z.lor SPU_EVENT_S2 SPU_EVENT_MB)))).
Definition SPU_EVENT_INTR_IMPLEMENTED : Z := SPU_EVENT_SN.
Definition SPU_EVENT_INTR_BUSY_CHECK : Z :=
  Z.ldiff SPU_EVENT_IMPLEMENTED SPU_EVENT_INTR_IMPLEMENTED.

Section Interrupts.
Context `{SpuHost}.

(** [spu_thread::set_interrupt_status(bool)]. *)
Definition thread_set_interrupt_status (enable : bool) (s : spu_thread) : spu_thread :=
  let s1 :=
    if enable then
      let mask := ch_events_t.mask (ch_events s) in
      if negb (Z.land mask SPU_EVENT_INTR_BUSY_CHECK =? 0) then
        let s2 :=
          if negb (Z.ldiff (Z.land mask SPU_EVENT_INTR_BUSY_CHECK) SPU_EVENT_TM =? 0)
          then (if Z.land (state s) cpu_flag_pending =? 0
                then with_state (Z.lor (state s) cpu_flag_pending) s else s)
          else s in
        if negb (Z.land mask SPU_EVENT_TM =? 0) then arm_dec_interrupt s2 else s2
      else s
    else s in
  with_interrupts enable s1.

(** [spu_thread::check_mfc_interrupts]: take a pending interrupt. *)
Definition check_mfc_interrupts (next_pc : Z) (s : spu_thread) : bool * spu_thread :=
  if ch_events_t.count (ch_events s) then
    if interrupts_enabled s then
      let s := with_srr0 next_pc (with_interrupts false s) in
      let br := ref_u32 s 0 in
      (true, with_pc (if Z.land br 0xfd80007f =? 0x30000000
                      then Z.land (Z.shiftr br 5) 0x3fffc else 0) s)
    else (false, with_interrupts false s)
  else (false, s).

(** The end of [set_interrupt_status]: take a pending interrupt at the new address. *)
Definition resume_interrupts (s : spu_thread) : spu_thread :=
  let '(taken, s) := check_mfc_interrupts (pc s) s in
  if taken && negb (Z.land (state s) cpu_flag_pending =? 0) then do_mfc s else s.

(** [spu_interpreter::set_interrupt_status(spu, op)]: the E and D bits of an
    indirect branch; [None] is the "Undefined behaviour" exception. *)
Definition set_interrupt_status (s : spu_thread) (op : Z) : option spu_thread :=
  if negb (spu_opcode_t.e op =? 0) then
    if negb (spu_opcode_t.d op =? 0) then None
    else Some (resume_interrupts (thread_set_interrupt_status true s))
  else if negb (spu_opcode_t.d op =? 0)
  then Some (resume_interrupts (thread_set_interrupt_status false s))
  else Some (resume_interrupts s).
End Interrupts.
