(* ===== verification/SpuInterp.v ===== *)
(** * The SPU interpreter (Emu/Cell/SPUInterpreter.cpp)

    One definition per instruction handler, each from the handler's body, the
    dispatch on the decoded name, and the interpreter loop of
    [spu_recompiler_base::old_interpreter]. *)

From Stdlib Require Import ZArith Lia Bool.
From stdpp Require Import base numbers list gmap.
From S2P Require Import Prelude V128 Bytes BitField SpuOpcodes SpuThread.
Import spu_opcode_t.

Module Interp.

(** [return true] / [return false]. *)
Abbreviation adv s := (Ret true s) (only parsing).
Abbreviation stay s := (Ret false s) (only parsing).

(** [spu.gpr[r]._u32[i]] and its siblings. *)
Definition u32_of (s : spu_thread) (r i : Z) : Z := lane 32 i (get s r).
Definition s32_of (s : spu_thread) (r i : Z) : Z := slane 32 i (get s r).
Definition u16_of (s : spu_thread) (r i : Z) : Z := lane 16 i (get s r).
(** [spu.gpr[r]._uW[i] = v]. *)
Definition set_u (w : Z) (s : spu_thread) (r i v : Z) : spu_thread :=
  set s r (set_lane w i v (get s r)).

Section Handlers.
Context `{SpuHost}.

Definition UNK (s : spu_thread) (op : Z) : exec_result := stay s.

(** ** Control *)

Definition STOP (s : spu_thread) (op : Z) : exec_result :=
  let allow := allow_interrupts_in_cpu_work s in
  match stop_and_signal (with_allow false s) (Z.land op 0x3fff) with
  | None => Thrown
  | Some (advance_pc, s) =>
      let s := with_allow allow s in
      if negb advance_pc then stay s
      else if negb (state s =? 0) then stay (with_pc (u32 (pc s + 4)) s)
      else adv s
  end.
Definition LNOP (s : spu_thread) (op : Z) : exec_result := adv s.
Definition SYNC (s : spu_thread) (op : Z) : exec_result := adv s.
Definition DSYNC (s : spu_thread) (op : Z) : exec_result := adv s.
Definition MFSPR (s : spu_thread) (op : Z) : exec_result := adv (set s (rt op) 0).
Definition RDCH (s : spu_thread) (op : Z) : exec_result :=
  let allow := allow_interrupts_in_cpu_work s in
  match get_ch_value (with_allow false s) (ra op) with
  | None => Thrown
  | Some (result, s) =>
      let s := with_allow allow s in
      if result <? 0 then stay s
      else
        let s := set s (rt op) (from32r (u32 result)) in
        if negb (state s =? 0) then stay (with_pc (u32 (pc s + 4)) s) else adv s
  end.
Definition RCHCNT (s : spu_thread) (op : Z) : exec_result :=
  match get_ch_count s (ra op) with
  | None => Thrown
  | Some (n, s) => adv (set s (rt op) (from32r n))
  end.
Definition MTSPR (s : spu_thread) (op : Z) : exec_result := adv s.
Definition WRCH (s : spu_thread) (op : Z) : exec_result :=
  let allow := allow_interrupts_in_cpu_work s in
  match set_ch_value (with_allow false s) (ra op) (u32_of s (rt op) 3) with
  | None => Thrown
  | Some (advance_pc, s) =>
      let s := with_allow allow s in
      if negb advance_pc then stay s
      else if negb (state s =? 0) then stay (with_pc (u32 (pc s + 4)) s)
      else adv s
  end.
Definition STOPD (s : spu_thread) (op : Z) : exec_result :=
  match stop_and_signal s 0x3fff with
  | None => Thrown
  | Some (b, s) => Ret b s
  end.

(** Indirect branches set the interrupt state from the E and D bits. *)
Definition branch_indirect (s : spu_thread) (op target : Z) : exec_result :=
  match set_interrupt_status (with_pc target s) op with
  | Some s => stay s
  | None => Thrown
  end.
Definition BIZ (s : spu_thread) (op : Z) : exec_result :=
  if u32_of s (rt op) 3 =? 0
  then branch_indirect s op (spu_branch_target (u32_of s (ra op) 3) 0) else adv s.
Definition BINZ (s : spu_thread) (op : Z) : exec_result :=
  if negb (u32_of s (rt op) 3 =? 0)
  then branch_indirect s op (spu_branch_target (u32_of s (ra op) 3) 0) else adv s.
Definition BIHZ (s : spu_thread) (op : Z) : exec_result :=
  if u16_of s (rt op) 6 =? 0
  then branch_indirect s op (spu_branch_target (u32_of s (ra op) 3) 0) else adv s.
Definition BIHNZ (s : spu_thread) (op : Z) : exec_result :=
  if negb (u16_of s (rt op) 6 =? 0)
  then branch_indirect s op (spu_branch_target (u32_of s (ra op) 3) 0) else adv s.
Definition BI (s : spu_thread) (op : Z) : exec_result :=
  branch_indirect s op (spu_branch_target (u32_of s (ra op) 3) 0).
Definition BISL (s : spu_thread) (op : Z) : exec_result :=
  let target := spu_branch_target (u32_of s (ra op) 3) 0 in
  let s := set s (rt op) (from32r (spu_branch_target (u32 (pc s + 4)) 0)) in
  branch_indirect s op target.
Definition IRET (s : spu_thread) (op : Z) : exec_result := branch_indirect s op (srr0 s).
Definition BISLED (s : spu_thread) (op : Z) : exec_result :=
  let target := spu_branch_target (u32_of s (ra op) 3) 0 in
  let s := set s (rt op) (from32r (spu_branch_target (u32 (pc s + 4)) 0)) in
  match get_events s with
  | None => Thrown
  | Some (ev, s) => if ch_events_t.count ev then branch_indirect s op target else adv s
  end.
Definition HBR (s : spu_thread) (op : Z) : exec_result := adv s.
Definition HBRA (s : spu_thread) (op : Z) : exec_result := adv s.
Definition HBRR (s : spu_thread) (op : Z) : exec_result := adv s.
Definition NOP (s : spu_thread) (op : Z) : exec_result := adv s.

Definition BRZ (s : spu_thread) (op : Z) : exec_result :=
  if u32_of s (rt op) 3 =? 0 then stay (with_pc (spu_branch_target (pc s) (i16 op)) s) else adv s.
Definition BRNZ (s : spu_thread) (op : Z) : exec_result :=
  if negb (u32_of s (rt op) 3 =? 0)
  then stay (with_pc (spu_branch_target (pc s) (i16 op)) s) else adv s.
Definition BRHZ (s : spu_thread) (op : Z) : exec_result :=
  if u16_of s (rt op) 6 =? 0 then stay (with_pc (spu_branch_target (pc s) (i16 op)) s) else adv s.
Definition BRHNZ (s : spu_thread) (op : Z) : exec_result :=
  if negb (u16_of s (rt op) 6 =? 0)
  then stay (with_pc (spu_branch_target (pc s) (i16 op)) s) else adv s.
Definition BRA (s : spu_thread) (op : Z) : exec_result :=
  stay (with_pc (spu_branch_target 0 (i16 op)) s).
Definition BRASL (s : spu_thread) (op : Z) : exec_result :=
  let target := spu_branch_target 0 (i16 op) in
  let s := set s (rt op) (from32r (spu_branch_target (u32 (pc s + 4)) 0)) in
  stay (with_pc target s).
Definition BR (s : spu_thread) (op : Z) : exec_result :=
  stay (with_pc (spu_branch_target (pc s) (i16 op)) s).
Definition BRSL (s : spu_thread) (op : Z) : exec_result :=
  let target := spu_branch_target (pc s) (i16 op) in
  let s := set s (rt op) (from32r (spu_branch_target (u32 (pc s + 4)) 0)) in
  stay (with_pc target s).

(** Conditional halts. *)
Definition HGT (s : spu_thread) (op : Z) : exec_result :=
  if s32_of s (rb op) 3 <? s32_of s (ra op) 3 then Halted s else adv s.
Definition HLGT (s : spu_thread) (op : Z) : exec_result :=
  if u32_of s (rb op) 3 <? u32_of s (ra op) 3 then Halted s else adv s.
Definition HEQ (s : spu_thread) (op : Z) : exec_result :=
  if s32_of s (ra op) 3 =? s32_of s (rb op) 3 then Halted s else adv s.
Definition HGTI (s : spu_thread) (op : Z) : exec_result :=
  if si10 op <? s32_of s (ra op) 3 then Halted s else adv s.
Definition HLGTI (s : spu_thread) (op : Z) : exec_result :=
  if u32 (si10 op) <? u32_of s (ra op) 3 then Halted s else adv s.
Definition HEQI (s : spu_thread) (op : Z) : exec_result :=
  if s32_of s (ra op) 3 =? si10 op then Halted s else adv s.

(** ** Loads and stores *)

Definition STQX (s : spu_thread) (op : Z) : exec_result :=
  adv (set_ref_v128 s (Z.land (u32 (u32_of s (ra op) 3 + u32_of s (rb op) 3)) 0x3fff0) (get s (rt op))).
Definition LQX (s : spu_thread) (op : Z) : exec_result :=
  adv (set s (rt op) (ref_v128 s (Z.land (u32 (u32_of s (ra op) 3 + u32_of s (rb op) 3)) 0x3fff0))).
Definition STQA (s : spu_thread) (op : Z) : exec_result :=
  adv (set_ref_v128 s (spu_ls_target 0 (i16 op)) (get s (rt op))).
Definition LQA (s : spu_thread) (op : Z) : exec_result :=
  adv (set s (rt op) (ref_v128 s (spu_ls_target 0 (i16 op)))).
Definition STQR (s : spu_thread) (op : Z) : exec_result :=
  adv (set_ref_v128 s (spu_ls_target (pc s) (i16 op)) (get s (rt op))).
Definition LQR (s : spu_thread) (op : Z) : exec_result :=
  adv (set s (rt op) (ref_v128 s (spu_ls_target (pc s) (i16 op)))).
Definition STQD (s : spu_thread) (op : Z) : exec_result :=
  adv (set_ref_v128 s (Z.land (s32 (s32_of s (ra op) 3 + si10 op * 16)) 0x3fff0) (get s (rt op))).
Definition LQD (s : spu_thread) (op : Z) : exec_result :=
  adv (set s (rt op) (ref_v128 s (Z.land (s32 (s32_of s (ra op) 3 + si10 op * 16)) 0x3fff0))).

(** ** Word and halfword arithmetic, logic *)

Definition SF (s : spu_thread) (op : Z) : exec_result :=
  adv (set s (rt op) (gv_sub32 (get s (rb op)) (get s (ra op)))).
Definition OR (s : spu_thread) (op : Z) : exec_result :=
  adv (set s (rt op) (Z.lor (get s (ra op)) (get s (rb op)))).
Definition BG (s : spu_thread) (op : Z) : exec_result :=
  adv (set s (rt op) (mm_add_epi32 (gv_gtu32 (get s (ra op)) (get s (rb op))) (mm_set1_epi32 1))).
Definition SFH (s : spu_thread) (op : Z) : exec_result :=
  adv (set s (rt op) (gv_sub16 (get s (rb op)) (get s (ra op)))).
Definition NOR (s : spu_thread) (op : Z) : exec_result :=
  adv (set s (rt op) (v_not (Z.lor (get s (ra op)) (get s (rb op))))).
Definition ABSDB (s : spu_thread) (op : Z) : exec_result :=
  let a := get s (ra op) in
  let b := get s (rb op) in
  adv (set s (rt op) (gv_sub8 (gv_maxu8 a b) (gv_minu8 a b))).
Definition A (s : spu_thread) (op : Z) : exec_result :=
  adv (set s (rt op) (gv_add32 (get s (ra op)) (get s (rb op)))).
Definition AND (s : spu_thread) (op : Z) : exec_result :=
  adv (set s (rt op) (Z.land (get s (ra op)) (get s (rb op)))).
Definition CG (s : spu_thread) (op : Z) : exec_result :=
  let a := mm_xor_si128 (get s (ra op)) (mm_set1_epi32 0x7fffffff) in
  let b := mm_xor_si128 (get s (rb op)) (mm_set1_epi32 0x80000000) in
  adv (set s (rt op) (mm_srli_epi32 (mm_cmpgt_epi32 b a) 31)).
Definition AH (s : spu_thread) (op : Z) : exec_result :=
  adv (set s (rt op) (gv_add16 (get s (ra op)) (get s (rb op)))).
Definition NAND (s : spu_thread) (op : Z) : exec_result :=
  adv (set s (rt op) (v_not (Z.land (get s (ra op)) (get s (rb op))))).
Definition AVGB (s : spu_thread) (op : Z) : exec_result :=
  adv (set s (rt op) (mm_avg_epu8 (get s (ra op)) (get s (rb op)))).
Definition XOR (s : spu_thread) (op : Z) : exec_result :=
  adv (set s (rt op) (Z.lxor (get s (ra op)) (get s (rb op)))).
Definition EQV (s : spu_thread) (op : Z) : exec_result :=
  adv (set s (rt op) (v_not (Z.lxor (get s (ra op)) (get s (rb op))))).
Definition ANDC (s : spu_thread) (op : Z) : exec_result :=
  adv (set s (rt op) (gv_andn (get s (rb op)) (get s (ra op)))).
Definition ORC (s : spu_thread) (op : Z) : exec_result :=
  adv (set s (rt op) (Z.lor (get s (ra op)) (v_not (get s (rb op))))).
Definition ADDX (s : spu_thread) (op : Z) : exec_result :=
  adv (set s (rt op) (gv_add32 (gv_add32 (get s (ra op)) (get s (rb op)))
                               (Z.land (get s (rt op)) (from32p 1)))).
Definition SFX (s : spu_thread) (op : Z) : exec_result :=
  adv (set s (rt op) (gv_sub32 (gv_sub32 (get s (rb op)) (get s (ra op)))
                               (gv_andn (get s (rt op)) (from32p 1)))).
(** In-place loops: each iteration reads and writes the registers. *)
Definition CGX (s : spu_thread) (op : Z) : exec_result :=
  adv (for_up 4 (fun i s =>
    let carry := Z.land (u32_of s (rt op) i) 1 in
    set_u 32 s (rt op) i
      (Z.shiftr (u64 (carry + u32_of s (ra op) i + u32_of s (rb op) i)) 32)) s).
Definition BGX (s : spu_thread) (op : Z) : exec_result :=
  adv (for_up 4 (fun i s =>
    let result := s64 (u32_of s (rb op) i - u32_of s (ra op) i
                       - (1 - Z.land (u32_of s (rt op) i) 1)) in
    set_u 32 s (rt op) i (if 0 <=? result then 1 else 0)) s).
Definition SUMB (s : spu_thread) (op : Z) : exec_result :=
  let m1 := mm_set1_epi16 0xff in
  let m2 := mm_set1_epi32 0xffff in
  let a := get s (ra op) in
  let b := get s (rb op) in
  let a1 := mm_srli_epi16 a 8 in
  let a2 := mm_and_si128 a m1 in
  let b1 := mm_srli_epi16 b 8 in
  let b2 := mm_and_si128 b m1 in
  let sa := mm_add_epi16 a1 a2 in
  let sb := mm_add_epi16 b1 b2 in
  let s2 := mm_and_si128 sa m2 in
  let s1 := mm_srli_epi32 sa 16 in
  let s4 := mm_andnot_si128 m2 sb in
  let s3 := mm_slli_epi32 sb 16 in
  adv (set s (rt op) (mm_or_si128 (mm_add_epi16 s1 s2) (mm_add_epi16 s3 s4))).
Definition CLZ (s : spu_thread) (op : Z) : exec_result :=
  adv (for_up 4 (fun i s =>
    set_u 32 s (rt op) i (countl_zero 32 (u32_of s (ra op) i))) s).
Definition XSWD (s : spu_thread) (op : Z) : exec_result :=
  let s := set_u 64 s (rt op) 0 (s32_of s (ra op) 0) in
  adv (set_u 64 s (rt op) 1 (s32_of s (ra op) 2)).
Definition XSHW (s : spu_thread) (op : Z) : exec_result :=
  adv (set s (rt op) (mm_srai_epi32 (mm_slli_epi32 (get s (ra op)) 16) 16)).
Definition XSBH (s : spu_thread) (op : Z) : exec_result :=
  adv (set s (rt op) (mm_srai_epi16 (mm_slli_epi16 (get s (ra op)) 8) 8)).
Definition CNTB (s : spu_thread) (op : Z) : exec_result :=
  let a := get s (ra op) in
  let mask1 := mm_set1_epi8 0x55 in
  let sum1 := mm_add_epi8 (mm_and_si128 (mm_srli_epi64 a 1) mask1) (mm_and_si128 a mask1) in
  let mask2 := mm_set1_epi8 0x33 in
  let sum2 := mm_add_epi8 (mm_and_si128 (mm_srli_epi64 sum1 2) mask2) (mm_and_si128 sum1 mask2) in
  let mask3 := mm_set1_epi8 0x0f in
  let sum3 := mm_add_epi8 (mm_and_si128 (mm_srli_epi64 sum2 4) mask3) (mm_and_si128 sum2 mask3) in
  adv (set s (rt op) sum3).

(** ** Element shifts and rotates *)

Definition ROT (s : spu_thread) (op : Z) : exec_result :=
  let a := get s (ra op) in
  let b := get s (rb op) in
  adv (for_up 4 (fun i s => set_u 32 s (rt op) i (rotl 32 (lane 32 i a) (lane 32 i b))) s).
Definition ROTM (s : spu_thread) (op : Z) : exec_result :=
  let a := get s (ra op) in
  let b := get s (rb op) in
  adv (for_up 4 (fun i s =>
    let value := lane 32 i a in
    set_u 32 s (rt op) i (Z.shiftr value (Z.land (u32 (0 - lane 32 i b)) 0x3f))) s).
Definition ROTMA (s : spu_thread) (op : Z) : exec_result :=
  let a := get s (ra op) in
  let b := get s (rb op) in
  adv (for_up 4 (fun i s =>
    let value := slane 32 i a in
    set_u 32 s (rt op) i (Z.shiftr value (Z.land (u32 (0 - lane 32 i b)) 0x3f))) s).
Definition SHL (s : spu_thread) (op : Z) : exec_result :=
  let a := get s (ra op) in
  let b := get s (rb op) in
  adv (for_up 4 (fun i s =>
    let value := lane 32 i a in
    set_u 32 s (rt op) i (u64 (Z.shiftl value (Z.land (lane 32 i b) 0x3f)))) s).
Definition ROTH (s : spu_thread) (op : Z) : exec_result :=
  let a := get s (ra op) in
  let b := get s (rb op) in
  adv (for_up 8 (fun i s => set_u 16 s (rt op) i (rotl 16 (lane 16 i a) (lane 16 i b))) s).
Definition ROTHM (s : spu_thread) (op : Z) : exec_result :=
  let a := get s (ra op) in
  let b := get s (rb op) in
  adv (for_up 8 (fun i s =>
    let value := lane 16 i a in
    set_u 16 s (rt op) i (Z.shiftr value (Z.land (s32 (0 - lane 16 i b)) 0x1f))) s).
Definition ROTMAH (s : spu_thread) (op : Z) : exec_result :=
  let a := get s (ra op) in
  let b := get s (rb op) in
  adv (for_up 8 (fun i s =>
    let value := slane 16 i a in
    set_u 16 s (rt op) i (Z.shiftr value (Z.land (s32 (0 - lane 16 i b)) 0x1f))) s).
Definition SHLH (s : spu_thread) (op : Z) : exec_result :=
  let a := get s (ra op) in
  let b := get s (rb op) in
  adv (for_up 8 (fun i s =>
    let value := lane 16 i a in
    set_u 16 s (rt op) i (u32 (Z.shiftl value (Z.land (lane 16 i b) 0x1f)))) s).
Definition ROTI (s : spu_thread) (op : Z) : exec_result :=
  let a := get s (ra op) in
  let n := Z.land (i7 op) 0x1f in
  adv (set s (rt op) (mm_or_si128 (mm_slli_epi32 a n) (mm_srli_epi32 a (32 - n)))).
Definition ROTMI (s : spu_thread) (op : Z) : exec_result :=
  adv (set s (rt op) (mm_srli_epi32 (get s (ra op)) (Z.land (u32 (0 - i7 op)) 0x3f))).
Definition ROTMAI (s : spu_thread) (op : Z) : exec_result :=
  adv (set s (rt op) (mm_srai_epi32 (get s (ra op)) (Z.land (u32 (0 - i7 op)) 0x3f))).
Definition SHLI (s : spu_thread) (op : Z) : exec_result :=
  adv (set s (rt op) (mm_slli_epi32 (get s (ra op)) (Z.land (i7 op) 0x3f))).
Definition ROTHI (s : spu_thread) (op : Z) : exec_result :=
  let a := get s (ra op) in
  let n := Z.land (i7 op) 0xf in
  adv (set s (rt op) (mm_or_si128 (mm_slli_epi16 a n) (mm_srli_epi16 a (16 - n)))).
Definition ROTHMI (s : spu_thread) (op : Z) : exec_result :=
  adv (set s (rt op) (mm_srli_epi16 (get s (ra op)) (Z.land (u32 (0 - i7 op)) 0x1f))).
Definition ROTMAHI (s : spu_thread) (op : Z) : exec_result :=
  adv (set s (rt op) (mm_srai_epi16 (get s (ra op)) (Z.land (u32 (0 - i7 op)) 0x1f))).
Definition SHLHI (s : spu_thread) (op : Z) : exec_result :=
  adv (set s (rt op) (mm_slli_epi16 (get s (ra op)) (Z.land (i7 op) 0x1f))).

(** ** Gather and form-select masks *)

Definition GB (s : spu_thread) (op : Z) : exec_result :=
  adv (set s (rt op) (from32r (mm_movemask_ps (mm_slli_epi32 (get s (ra op)) 31)))).
Definition GBH (s : spu_thread) (op : Z) : exec_result :=
  adv (set s (rt op) (from32r (mm_movemask_epi8
    (mm_packs_epi16 (mm_slli_epi16 (get s (ra op)) 15) mm_setzero_si128)))).
Definition GBB (s : spu_thread) (op : Z) : exec_result :=
  adv (set s (rt op) (from32r (mm_movemask_epi8 (mm_slli_epi64 (get s (ra op)) 7)))).
Definition FSM (s : spu_thread) (op : Z) : exec_result :=
  let bits := mm_shuffle_epi32 (get s (ra op)) 0xff in
  let mask := mm_set_epi32 8 4 2 1 in
  adv (set s (rt op) (mm_cmpeq_epi32 (mm_and_si128 bits mask) mask)).
Definition FSMH (s : spu_thread) (op : Z) : exec_result :=
  let vsrc := get s (ra op) in
  let bits := mm_shuffle_epi32 (mm_unpackhi_epi16 vsrc vsrc) 0xaa in
  let mask := mm_set_epi16 [128; 64; 32; 16; 8; 4; 2; 1] in
  adv (set s (rt op) (mm_cmpeq_epi16 (mm_and_si128 bits mask) mask)).
Definition fsmb_mask : Z :=
  mm_set_epi8 [-128; 64; 32; 16; 8; 4; 2; 1; -128; 64; 32; 16; 8; 4; 2; 1].
Definition FSMB (s : spu_thread) (op : Z) : exec_result :=
  let vsrc := get s (ra op) in
  let bits := mm_shuffle_epi32 (mm_shufflehi_epi16 (mm_unpackhi_epi8 vsrc vsrc) 0x50) 0xfa in
  adv (set s (rt op) (mm_cmpeq_epi8 (mm_and_si128 bits fsmb_mask) fsmb_mask)).
Definition FSMBI (s : spu_thread) (op : Z) : exec_result :=
  let vsrc := mm_set_epi32 0 0 0 (i16 op) in
  let bits := mm_shuffle_epi32 (mm_shufflelo_epi16 (mm_unpacklo_epi8 vsrc vsrc) 0x50) 0x50 in
  adv (set s (rt op) (mm_cmpeq_epi8 (mm_and_si128 bits fsmb_mask) fsmb_mask)).
Definition ORX (s : spu_thread) (op : Z) : exec_result :=
  adv (set s (rt op) (from32r (Z.lor (Z.lor (Z.lor (u32_of s (ra op) 0) (u32_of s (ra op) 1))
                                            (u32_of s (ra op) 2)) (u32_of s (ra op) 3)))).

(** ** Quadword shifts and rotates *)

Definition ROTQBYBI (s : spu_thread) (op : Z) : exec_result :=
  let a := get s (ra op) in
  let buf := buf2 a a in
  adv (set s (rt op) (mm_loadu_si128 buf (16 - Z.land (Z.shiftr (u32_of s (rb op) 3) 3) 0xf))).
Definition ROTQMBYBI (s : spu_thread) (op : Z) : exec_result :=
  let a := get s (ra op) in
  let buf := buf3 a mm_setzero_si128 mm_setzero_si128 in
  adv (set s (rt op) (mm_loadu_si128 buf
    (Z.land (u32 (0 - Z.shiftr (u32_of s (rb op) 3) 3)) 0x1f))).
Definition SHLQBYBI (s : spu_thread) (op : Z) : exec_result :=
  let a := get s (ra op) in
  let buf := buf3 mm_setzero_si128 mm_setzero_si128 a in
  adv (set s (rt op) (mm_loadu_si128 buf (32 - Z.land (Z.shiftr (u32_of s (rb op) 3) 3) 0x1f))).
Definition ROTQBI (s : spu_thread) (op : Z) : exec_result :=
  let a := get s (ra op) in
  let n := Z.land (s32_of s (rb op) 3) 0x7 in
  adv (set s (rt op) (mm_or_si128 (mm_slli_epi64 a n)
                        (mm_srli_epi64 (mm_shuffle_epi32 a 0x4E) (64 - n)))).
Definition ROTQMBI (s : spu_thread) (op : Z) : exec_result :=
  let a := get s (ra op) in
  let n := Z.land (s32 (- s32_of s (rb op) 3)) 0x7 in
  adv (set s (rt op) (mm_or_si128 (mm_srli_epi64 a n)
                        (mm_slli_epi64 (mm_srli_si128 a 8) (64 - n)))).
Definition SHLQBI (s : spu_thread) (op : Z) : exec_result :=
  let a := get s (ra op) in
  let n := Z.land (u32_of s (rb op) 3) 0x7 in
  adv (set s (rt op) (mm_or_si128 (mm_slli_epi64 a n)
                        (mm_srli_epi64 (mm_slli_si128 a 8) (64 - n)))).
Definition ROTQBY (s : spu_thread) (op : Z) : exec_result :=
  let a := get s (ra op) in
  let buf := buf2 a a in
  adv (set s (rt op) (mm_loadu_si128 buf (16 - Z.land (u32_of s (rb op) 3) 0xf))).
Definition ROTQMBY (s : spu_thread) (op : Z) : exec_result :=
  let a := get s (ra op) in
  let buf := buf3 a mm_setzero_si128 mm_setzero_si128 in
  adv (set s (rt op) (mm_loadu_si128 buf (Z.land (u32 (0 - u32_of s (rb op) 3)) 0x1f))).
Definition SHLQBY (s : spu_thread) (op : Z) : exec_result :=
  let a := get s (ra op) in
  let buf := buf3 mm_setzero_si128 mm_setzero_si128 a in
  adv (set s (rt op) (mm_loadu_si128 buf (32 - Z.land (u32_of s (rb op) 3) 0x1f))).
Definition ROTQBII (s : spu_thread) (op : Z) : exec_result :=
  let a := get s (ra op) in
  let n := Z.land (i7 op) 0x7 in
  adv (set s (rt op) (mm_or_si128 (mm_slli_epi64 a n)
                        (mm_srli_epi64 (mm_shuffle_epi32 a 0x4E) (64 - n)))).
Definition ROTQMBII (s : spu_thread) (op : Z) : exec_result :=
  let a := get s (ra op) in
  let n := Z.land (u32 (0 - i7 op)) 0x7 in
  adv (set s (rt op) (mm_or_si128 (mm_srli_epi64 a n)
                        (mm_slli_epi64 (mm_srli_si128 a 8) (64 - n)))).
Definition SHLQBII (s : spu_thread) (op : Z) : exec_result :=
  let a := get s (ra op) in
  let n := Z.land (i7 op) 0x7 in
  adv (set s (rt op) (mm_or_si128 (mm_slli_epi64 a n)
                        (mm_srli_epi64 (mm_slli_si128 a 8) (64 - n)))).
Definition ROTQBYI (s : spu_thread) (op : Z) : exec_result :=
  let a := get s (ra op) in
  let buf := buf2 a a in
  adv (set s (rt op) (mm_loadu_si128 buf (16 - Z.land (i7 op) 0xf))).
Definition ROTQMBYI (s : spu_thread) (op : Z) : exec_result :=
  let a := get s (ra op) in
  let buf := buf3 a mm_setzero_si128 mm_setzero_si128 in
  adv (set s (rt op) (mm_loadu_si128 buf (Z.land (u32 (0 - i7 op)) 0x1f))).
Definition SHLQBYI (s : spu_thread) (op : Z) : exec_result :=
  let a := get s (ra op) in
  let buf := buf3 mm_setzero_si128 mm_setzero_si128 a in
  adv (set s (rt op) (mm_loadu_si128 buf (32 - Z.land (i7 op) 0x1f))).

(** ** Insertion controls *)

(** [op.ra == 1 && (spu.gpr[1]._u32[3] & 0xF)]: a misaligned stack pointer throws. *)
Definition bad_sp (s : spu_thread) (op : Z) : bool :=
  (ra op =? 1) && negb (Z.land (u32_of s 1 3) 0xF =? 0).
Definition insert_pattern : Z := from64 0x18191A1B1C1D1E1F 0x1011121314151617.
(** [~x & m] on [u32] operands. *)
Definition notand (x m : Z) : Z := Z.ldiff m x.

Definition CBX (s : spu_thread) (op : Z) : exec_result :=
  if bad_sp s op then Thrown else
  let t := notand (u32 (u32_of s (rb op) 3 + u32_of s (ra op) 3)) 0xf in
  let s := set s (rt op) insert_pattern in
  adv (set_u 8 s (rt op) t 0x03).
Definition CHX (s : spu_thread) (op : Z) : exec_result :=
  if bad_sp s op then Thrown else
  let t := Z.shiftr (notand (u32 (u32_of s (rb op) 3 + u32_of s (ra op) 3)) 0xe) 1 in
  let s := set s (rt op) insert_pattern in
  adv (set_u 16 s (rt op) t 0x0203).
Definition CWX (s : spu_thread) (op : Z) : exec_result :=
  if bad_sp s op then Thrown else
  let t := Z.shiftr (notand (u32 (u32_of s (rb op) 3 + u32_of s (ra op) 3)) 0xc) 2 in
  let s := set s (rt op) insert_pattern in
  adv (set_u 32 s (rt op) t 0x00010203).
Definition CDX (s : spu_thread) (op : Z) : exec_result :=
  if bad_sp s op then Thrown else
  let t := Z.shiftr (notand (u32 (u32_of s (rb op) 3 + u32_of s (ra op) 3)) 0x8) 3 in
  let s := set s (rt op) insert_pattern in
  adv (set_u 64 s (rt op) t 0x0001020304050607).
Definition CBD (s : spu_thread) (op : Z) : exec_result :=
  if bad_sp s op then Thrown else
  let t := notand (u32 (i7 op + u32_of s (ra op) 3)) 0xf in
  let s := set s (rt op) insert_pattern in
  adv (set_u 8 s (rt op) t 0x03).
Definition CHD (s : spu_thread) (op : Z) : exec_result :=
  if bad_sp s op then Thrown else
  let t := Z.shiftr (notand (u32 (i7 op + u32_of s (ra op) 3)) 0xe) 1 in
  let s := set s (rt op) insert_pattern in
  adv (set_u 16 s (rt op) t 0x0203).
Definition CWD (s : spu_thread) (op : Z) : exec_result :=
  if bad_sp s op then Thrown else
  let t := Z.shiftr (notand (u32 (i7 op + u32_of s (ra op) 3)) 0xc) 2 in
  let s := set s (rt op) insert_pattern in
  adv (set_u 32 s (rt op) t 0x00010203).
Definition CDD (s : spu_thread) (op : Z) : exec_result :=
  if bad_sp s op then Thrown else
  let t := Z.shiftr (notand (u32 (i7 op + u32_of s (ra op) 3)) 0x8) 3 in
  let s := set s (rt op) insert_pattern in
  adv (set_u 64 s (rt op) t 0x0001020304050607).

(** ** Comparisons *)

Definition CGT (s : spu_thread) (op : Z) : exec_result :=
  adv (set s (rt op) (mm_cmpgt_epi32 (get s (ra op)) (get s (rb op)))).
Definition CGTH (s : spu_thread) (op : Z) : exec_result :=
  adv (set s (rt op) (mm_cmpgt_epi16 (get s (ra op)) (get s (rb op)))).
Definition CGTB (s : spu_thread) (op : Z) : exec_result :=
  adv (set s (rt op) (mm_cmpgt_epi8 (get s (ra op)) (get s (rb op)))).
Definition CLGT (s : spu_thread) (op : Z) : exec_result :=
  adv (set s (rt op) (gv_gtu32 (get s (ra op)) (get s (rb op)))).
Definition CLGTH (s : spu_thread) (op : Z) : exec_result :=
  adv (set s (rt op) (gv_gtu16 (get s (ra op)) (get s (rb op)))).
Definition CLGTB (s : spu_thread) (op : Z) : exec_result :=
  adv (set s (rt op) (gv_gtu8 (get s (ra op)) (get s (rb op)))).
Definition CEQ (s : spu_thread) (op : Z) : exec_result :=
  adv (set s (rt op) (mm_cmpeq_epi32 (get s (ra op)) (get s (rb op)))).
Definition CEQH (s : spu_thread) (op : Z) : exec_result :=
  adv (set s (rt op) (mm_cmpeq_epi16 (get s (ra op)) (get s (rb op)))).
Definition CEQB (s : spu_thread) (op : Z) : exec_result :=
  adv (set s (rt op) (mm_cmpeq_epi8 (get s (ra op)) (get s (rb op)))).

(** ** Multiplication *)

Definition MPYHHU (s : spu_thread) (op : Z) : exec_result :=
  let a := get s (ra op) in
  let b := get s (rb op) in
  adv (set s (rt op) (mm_or_si128 (mm_srli_epi32 (mm_mullo_epi16 a b) 16)
    (mm_and_si128 (mm_mulhi_epu16 a b) (mm_set1_epi32 0xffff0000)))).
Definition MPYHHA (s : spu_thread) (op : Z) : exec_result :=
  adv (set s (rt op) (mm_add_epi32 (get s (rt op))
    (mm_madd_epi16 (mm_srli_epi32 (get s (ra op)) 16) (mm_srli_epi32 (get s (rb op)) 16)))).
Definition MPYHHAU (s : spu_thread) (op : Z) : exec_result :=
  let a := get s (ra op) in
  let b := get s (rb op) in
  adv (set s (rt op) (mm_add_epi32 (get s (rt op))
    (mm_or_si128 (mm_srli_epi32 (mm_mullo_epi16 a b) 16)
      (mm_and_si128 (mm_mulhi_epu16 a b) (mm_set1_epi32 0xffff0000))))).
Definition MPY (s : spu_thread) (op : Z) : exec_result :=
  let mask := mm_set1_epi32 0xffff in
  adv (set s (rt op) (mm_madd_epi16 (mm_and_si128 (get s (ra op)) mask)
                                    (mm_and_si128 (get s (rb op)) mask))).
Definition MPYH (s : spu_thread) (op : Z) : exec_result :=
  adv (set s (rt op) (mm_slli_epi32
    (mm_mullo_epi16 (mm_srli_epi32 (get s (ra op)) 16) (get s (rb op))) 16)).
Definition MPYHH (s : spu_thread) (op : Z) : exec_result :=
  adv (set s (rt op) (mm_madd_epi16 (mm_srli_epi32 (get s (ra op)) 16)
                                    (mm_srli_epi32 (get s (rb op)) 16))).
Definition MPYS (s : spu_thread) (op : Z) : exec_result :=
  adv (set s (rt op) (mm_srai_epi32 (mm_slli_epi32
    (mm_mulhi_epi16 (get s (ra op)) (get s (rb op))) 16) 16)).
Definition MPYU (s : spu_thread) (op : Z) : exec_result :=
  let a := get s (ra op) in
  let b := get s (rb op) in
  adv (set s (rt op) (mm_or_si128 (mm_slli_epi32 (mm_mulhi_epu16 a b) 16)
    (mm_and_si128 (mm_mullo_epi16 a b) (mm_set1_epi32 0xffff)))).
Definition MPYI (s : spu_thread) (op : Z) : exec_result :=
  adv (set s (rt op) (mm_madd_epi16 (get s (ra op)) (mm_set1_epi32 (Z.land (si10 op) 0xffff)))).
Definition MPYUI (s : spu_thread) (op : Z) : exec_result :=
  let a := get s (ra op) in
  let i := mm_set1_epi32 (Z.land (si10 op) 0xffff) in
  adv (set s (rt op) (mm_or_si128 (mm_slli_epi32 (mm_mulhi_epu16 a i) 16) (mm_mullo_epi16 a i))).
Definition MPYA (s : spu_thread) (op : Z) : exec_result :=
  let mask := mm_set1_epi32 0xffff in
  adv (set s (rt4 op) (mm_add_epi32 (get s (rc op))
    (mm_madd_epi16 (mm_and_si128 (get s (ra op)) mask) (mm_and_si128 (get s (rb op)) mask)))).

(** ** Immediates *)

Definition IL (s : spu_thread) (op : Z) : exec_result :=
  adv (set s (rt op) (mm_set1_epi32 (si16 op))).
Definition ILHU (s : spu_thread) (op : Z) : exec_result :=
  adv (set s (rt op) (mm_set1_epi32 (u32 (Z.shiftl (i16 op) 16)))).
Definition ILH (s : spu_thread) (op : Z) : exec_result :=
  adv (set s (rt op) (mm_set1_epi16 (i16 op))).
Definition IOHL (s : spu_thread) (op : Z) : exec_result :=
  adv (set s (rt op) (mm_or_si128 (get s (rt op)) (mm_set1_epi32 (i16 op)))).
Definition ORI (s : spu_thread) (op : Z) : exec_result :=
  adv (set s (rt op) (mm_or_si128 (get s (ra op)) (mm_set1_epi32 (si10 op)))).
Definition ORHI (s : spu_thread) (op : Z) : exec_result :=
  adv (set s (rt op) (mm_or_si128 (get s (ra op)) (mm_set1_epi16 (si10 op)))).
Definition ORBI (s : spu_thread) (op : Z) : exec_result :=
  adv (set s (rt op) (mm_or_si128 (get s (ra op)) (mm_set1_epi8 (i8 op)))).
Definition SFI (s : spu_thread) (op : Z) : exec_result :=
  adv (set s (rt op) (mm_sub_epi32 (mm_set1_epi32 (si10 op)) (get s (ra op)))).
Definition SFHI (s : spu_thread) (op : Z) : exec_result :=
  adv (set s (rt op) (mm_sub_epi16 (mm_set1_epi16 (si10 op)) (get s (ra op)))).
Definition ANDI (s : spu_thread) (op : Z) : exec_result :=
  adv (set s (rt op) (mm_and_si128 (get s (ra op)) (mm_set1_epi32 (si10 op)))).
Definition ANDHI (s : spu_thread) (op : Z) : exec_result :=
  adv (set s (rt op) (mm_and_si128 (get s (ra op)) (mm_set1_epi16 (si10 op)))).
Definition ANDBI (s : spu_thread) (op : Z) : exec_result :=
  adv (set s (rt op) (mm_and_si128 (get s (ra op)) (mm_set1_epi8 (i8 op)))).
Definition AI (s : spu_thread) (op : Z) : exec_result :=
  adv (set s (rt op) (mm_add_epi32 (mm_set1_epi32 (si10 op)) (get s (ra op)))).
Definition AHI (s : spu_thread) (op : Z) : exec_result :=
  adv (set s (rt op) (mm_add_epi16 (mm_set1_epi16 (si10 op)) (get s (ra op)))).
Definition XORI (s : spu_thread) (op : Z) : exec_result :=
  adv (set s (rt op) (mm_xor_si128 (get s (ra op)) (mm_set1_epi32 (si10 op)))).
Definition XORHI (s : spu_thread) (op : Z) : exec_result :=
  adv (set s (rt op) (mm_xor_si128 (get s (ra op)) (mm_set1_epi16 (si10 op)))).
Definition XORBI (s : spu_thread) (op : Z) : exec_result :=
  adv (set s (rt op) (mm_xor_si128 (get s (ra op)) (mm_set1_epi8 (i8 op)))).
Definition CGTI (s : spu_thread) (op : Z) : exec_result :=
  adv (set s (rt op) (mm_cmpgt_epi32 (get s (ra op)) (mm_set1_epi32 (si10 op)))).
Definition CGTHI (s : spu_thread) (op : Z) : exec_result :=
  adv (set s (rt op) (mm_cmpgt_epi16 (get s (ra op)) (mm_set1_epi16 (si10 op)))).
Definition CGTBI (s : spu_thread) (op : Z) : exec_result :=
  adv (set s (rt op) (mm_cmpgt_epi8 (get s (ra op)) (mm_set1_epi8 (i8 op)))).
Definition CLGTI (s : spu_thread) (op : Z) : exec_result :=
  adv (set s (rt op) (mm_cmpgt_epi32 (mm_xor_si128 (get s (ra op)) (mm_set1_epi32 0x80000000))
                                     (mm_set1_epi32 (Z.lxor (u32 (si10 op)) 0x80000000)))).
Definition CLGTHI (s : spu_thread) (op : Z) : exec_result :=
  adv (set s (rt op) (mm_cmpgt_epi16 (mm_xor_si128 (get s (ra op)) (mm_set1_epi32 0x80008000))
                                     (mm_set1_epi16 (Z.lxor (si10 op) 0x8000)))).
Definition CLGTBI (s : spu_thread) (op : Z) : exec_result :=
  adv (set s (rt op) (mm_cmpgt_epi8 (mm_xor_si128 (get s (ra op)) (mm_set1_epi32 0x80808080))
                                    (mm_set1_epi8 (Z.lxor (i8 op) 0x80)))).
Definition CEQI (s : spu_thread) (op : Z) : exec_result :=
  adv (set s (rt op) (mm_cmpeq_epi32 (get s (ra op)) (mm_set1_epi32 (si10 op)))).
Definition CEQHI (s : spu_thread) (op : Z) : exec_result :=
  adv (set s (rt op) (mm_cmpeq_epi16 (get s (ra op)) (mm_set1_epi16 (si10 op)))).
Definition CEQBI (s : spu_thread) (op : Z) : exec_result :=
  adv (set s (rt op) (mm_cmpeq_epi8 (get s (ra op)) (mm_set1_epi8 (i8 op)))).
Definition ILA (s : spu_thread) (op : Z) : exec_result :=
  adv (set s (rt op) (mm_set1_epi32 (i18 op))).

(** ** Select and shuffle *)

Definition SELB (s : spu_thread) (op : Z) : exec_result :=
  adv (set s (rt4 op) (Z.lor (Z.land (get s (rc op)) (get s (rb op)))
                             (gv_andn (get s (rc op)) (get s (ra op))))).
Definition SHUFB (s : spu_thread) (op : Z) : exec_result :=
  let ab := buf2 (get s (rb op)) (get s (ra op)) in
  let c := get s (rc op) in
  let x := mm_andnot_si128 c (mm_set1_epi8 0x1f) in
  (* Select bytes *)
  let res := for_up 16 (fun i res => set_lane 8 i (lane 8 (lane 8 i x) ab) res) 0 in
  (* Select special values *)
  let xc0 := mm_set1_epi8 (s8 0xc0) in
  let xe0 := mm_set1_epi8 (s8 0xe0) in
  let cmp0 := mm_cmpgt_epi8 mm_setzero_si128 c in
  let cmp1 := mm_cmpeq_epi8 (mm_and_si128 c xc0) xc0 in
  let cmp2 := mm_cmpeq_epi8 (mm_and_si128 c xe0) xc0 in
  adv (set s (rt4 op) (mm_or_si128 (mm_andnot_si128 cmp0 res) (mm_avg_epu8 cmp1 cmp2))).

(** Status registers read as zero, writes are ignored. *)
Definition FSCRRD (s : spu_thread) (op : Z) : exec_result := adv (set s (rt op) 0).
Definition FSCRWR (s : spu_thread) (op : Z) : exec_result := adv s.
(** Unimplemented double-precision comparisons log and stay. *)
Definition DFCGT (s : spu_thread) (op : Z) : exec_result := stay s.
Definition DFCMGT (s : spu_thread) (op : Z) : exec_result := stay s.
Definition DFTSV (s : spu_thread) (op : Z) : exec_result := stay s.
Definition DFCEQ (s : spu_thread) (op : Z) : exec_result := stay s.
Definition DFCMEQ (s : spu_thread) (op : Z) : exec_result := stay s.

(** ** Dispatch and the interpreter loop *)

(** The handler of a decoded name ([spu_interpreter_rt::table]); the
    floating-point handlers go to [fp_exec]. *)
Definition exec (name : Name.t) : spu_thread -> Z -> exec_result :=
  match name with
  | Name.UNK => UNK | Name.STOP => STOP | Name.LNOP => LNOP | Name.SYNC => SYNC
  | Name.DSYNC => DSYNC | Name.MFSPR => MFSPR | Name.RDCH => RDCH | Name.RCHCNT => RCHCNT
  | Name.SF => SF | Name.OR => OR | Name.BG => BG | Name.SFH => SFH | Name.NOR => NOR
  | Name.ABSDB => ABSDB | Name.ROT => ROT | Name.ROTM => ROTM | Name.ROTMA => ROTMA
  | Name.SHL => SHL | Name.ROTH => ROTH | Name.ROTHM => ROTHM | Name.ROTMAH => ROTMAH
  | Name.SHLH => SHLH | Name.ROTI => ROTI | Name.ROTMI => ROTMI | Name.ROTMAI => ROTMAI
  | Name.SHLI => SHLI | Name.ROTHI => ROTHI | Name.ROTHMI => ROTHMI | Name.ROTMAHI => ROTMAHI
  | Name.SHLHI => SHLHI | Name.A => A | Name.AND => AND | Name.CG => CG | Name.AH => AH
  | Name.NAND => NAND | Name.AVGB => AVGB | Name.MTSPR => MTSPR | Name.WRCH => WRCH
  | Name.BIZ => BIZ | Name.BINZ => BINZ | Name.BIHZ => BIHZ | Name.BIHNZ => BIHNZ
  | Name.STOPD => STOPD | Name.STQX => STQX | Name.BI => BI | Name.BISL => BISL
  | Name.IRET => IRET | Name.BISLED => BISLED | Name.HBR => HBR | Name.GB => GB
  | Name.GBH => GBH | Name.GBB => GBB | Name.FSM => FSM | Name.FSMH => FSMH | Name.FSMB => FSMB
  | Name.LQX => LQX | Name.ROTQBYBI => ROTQBYBI | Name.ROTQMBYBI => ROTQMBYBI
  | Name.SHLQBYBI => SHLQBYBI | Name.CBX => CBX | Name.CHX => CHX | Name.CWX => CWX
  | Name.CDX => CDX | Name.ROTQBI => ROTQBI | Name.ROTQMBI => ROTQMBI | Name.SHLQBI => SHLQBI
  | Name.ROTQBY => ROTQBY | Name.ROTQMBY => ROTQMBY | Name.SHLQBY => SHLQBY | Name.ORX => ORX
  | Name.CBD => CBD | Name.CHD => CHD | Name.CWD => CWD | Name.CDD => CDD
  | Name.ROTQBII => ROTQBII | Name.ROTQMBII => ROTQMBII | Name.SHLQBII => SHLQBII
  | Name.ROTQBYI => ROTQBYI | Name.ROTQMBYI => ROTQMBYI | Name.SHLQBYI => SHLQBYI
  | Name.NOP => NOP | Name.CGT => CGT | Name.XOR => XOR | Name.CGTH => CGTH | Name.EQV => EQV
  | Name.CGTB => CGTB | Name.SUMB => SUMB | Name.HGT => HGT | Name.CLZ => CLZ
  | Name.XSWD => XSWD | Name.XSHW => XSHW | Name.CNTB => CNTB | Name.XSBH => XSBH
  | Name.CLGT => CLGT | Name.ANDC => ANDC | Name.DFCGT => DFCGT | Name.CLGTH => CLGTH
  | Name.ORC => ORC | Name.DFCMGT => DFCMGT | Name.CLGTB => CLGTB | Name.HLGT => HLGT
  | Name.CEQ => CEQ | Name.MPYHHU => MPYHHU | Name.ADDX => ADDX | Name.SFX => SFX
  | Name.CGX => CGX | Name.BGX => BGX | Name.MPYHHA => MPYHHA | Name.MPYHHAU => MPYHHAU
  | Name.FSCRRD => FSCRRD | Name.FSCRWR => FSCRWR | Name.DFTSV => DFTSV | Name.DFCEQ => DFCEQ
  | Name.MPY => MPY | Name.MPYH => MPYH | Name.MPYHH => MPYHH | Name.MPYS => MPYS
  | Name.CEQH => CEQH | Name.DFCMEQ => DFCMEQ | Name.MPYU => MPYU | Name.CEQB => CEQB
  | Name.HEQ => HEQ | Name.BRZ => BRZ | Name.STQA => STQA | Name.BRNZ => BRNZ
  | Name.BRHZ => BRHZ | Name.BRHNZ => BRHNZ | Name.STQR => STQR | Name.BRA => BRA
  | Name.LQA => LQA | Name.BRASL => BRASL | Name.BR => BR | Name.FSMBI => FSMBI
  | Name.BRSL => BRSL | Name.LQR => LQR | Name.IL => IL | Name.ILHU => ILHU | Name.ILH => ILH
  | Name.IOHL => IOHL | Name.ORI => ORI | Name.ORHI => ORHI | Name.ORBI => ORBI
  | Name.SFI => SFI | Name.SFHI => SFHI | Name.ANDI => ANDI | Name.ANDHI => ANDHI
  | Name.ANDBI => ANDBI | Name.AI => AI | Name.AHI => AHI | Name.STQD => STQD | Name.LQD => LQD
  | Name.XORI => XORI | Name.XORHI => XORHI | Name.XORBI => XORBI | Name.CGTI => CGTI
  | Name.CGTHI => CGTHI | Name.CGTBI => CGTBI | Name.HGTI => HGTI | Name.CLGTI => CLGTI
  | Name.CLGTHI => CLGTHI | Name.CLGTBI => CLGTBI | Name.HLGTI => HLGTI | Name.MPYI => MPYI
  | Name.MPYUI => MPYUI | Name.CEQI => CEQI | Name.CEQHI => CEQHI | Name.CEQBI => CEQBI
  | Name.HEQI => HEQI | Name.HBRA => HBRA | Name.HBRR => HBRR | Name.ILA => ILA
  | Name.SELB => SELB | Name.SHUFB => SHUFB | Name.MPYA => MPYA
  | other => fp_exec other
  end.

(** One pass of the loop after the checks: fetch, dispatch, advance.  The fetch at [base + pc] is
    not masked.  [map_ls] maps the local storage at [base] and twice behind it, so a fetch below
    [SPU_LS_MAPPED] wraps around; one above is an access violation, counted with the exceptions. *)
Definition SPU_LS_MAPPED : Z := 3 * SPU_LS_SIZE.
Definition fetch (s : spu_thread) : option Z :=
  if pc s <? SPU_LS_MAPPED then Some (be_load (ls s) (pc s mod SPU_LS_SIZE) 4) else None.
Definition step (s : spu_thread) : exec_result :=
  match fetch s with
  | None => Thrown
  | Some op =>
    match exec (decode op) s op with
    | Ret true s => Ret true (with_pc (u32 (pc s + 4)) s)
    | r => r
    end
  end.

(** Where the loop is: still running, returned, halted by a handler, or left by an
    exception. *)
Inductive run_result :=
| Running (s : spu_thread)
| Left (s : spu_thread)
| RHalted (s : spu_thread)
| RThrown.

(** The first [fuel] passes of the [while (true)] loop. *)
Fixpoint interpreter_loop (fuel : nat) (s : spu_thread) : run_result :=
  match fuel with
  | O => Running s
  | S fuel =>
      let '(leave, s) := if negb (state s =? 0) then check_state s else (false, s) in
      if leave then Left s
      else if interp_fallback s
              && ((pc s <? interp_fallback_begin s) || (interp_fallback_end s <=? pc s))
      then Left (with_fallback false s)
      else match step s with
           | Ret _ s => interpreter_loop fuel s
           | Halted s => RHalted s
           | Thrown => RThrown
           end
  end.

(** [old_interpreter]; [decoder_static] is the test of the configured decoder. *)
Definition old_interpreter (decoder_static : bool) (fuel : nat) (s : spu_thread) : run_result :=
  if negb decoder_static && negb (interp_fallback s) then RThrown
  else interpreter_loop fuel s.
End Handlers.
End Interp.
