(* ===== verification/SpuWf.v ===== *)
(** * Well-formed SPU states

    The type invariant of the SPU thread, the laws of register and local
    storage access, and that every instruction handler keeps the invariant. *)

From Stdlib Require Import ZArith Lia Bool.
From stdpp Require Import base numbers list gmap.
From S2P Require Import Prelude V128 Bytes BitField SpuOpcodes SpuThread SpuInterp.
Import spu_opcode_t Interp.

(** ** The invariant *)

(** 128 registers of 128 bits, local storage bytes at LS addresses, instruction
    addresses that are 32-bit multiples of four. *)
Definition ls_ok (m : gmap Z Z) : Prop :=
  map_Forall (fun a v => 0 <= a < SPU_LS_SIZE /\ in_range 8 v) m.

Definition addr_ok (a : Z) : Prop := in_range 32 a /\ a mod 4 = 0.

Record wf (s : spu_thread) : Prop := mk_wf {
  wf_gpr_len : length (gpr s) = 128%nat;
  wf_gpr : Forall (in_range 128) (gpr s);
  wf_pc : addr_ok (pc s);
  wf_srr0 : addr_ok (srr0 s);
  wf_ls : ls_ok (ls s);
}.

(** The invariant on the outcome of a handler. *)
Definition wf_result (r : exec_result) : Prop :=
  match r with
  | Ret _ s | Halted s => wf s
  | Thrown => True
  end.

(** ** Registers *)

Definition reg_ok (r : Z) : Prop := in_range 7 r.

Lemma reg_rt op : reg_ok (rt op). Proof. apply bf.extract_range; lia. Qed.
Lemma reg_ra op : reg_ok (ra op). Proof. apply bf.extract_range; lia. Qed.
Lemma reg_rb op : reg_ok (rb op). Proof. apply bf.extract_range; lia. Qed.
Lemma reg_rc op : reg_ok (rc op). Proof. apply bf.extract_range; lia. Qed.
Lemma reg_rt4 op : reg_ok (rt4 op). Proof. apply bf.extract_range; lia. Qed.

Create HintDb spu.
#[export] Hint Resolve reg_rt reg_ra reg_rb reg_rc reg_rt4 : spu.

Lemma get_set_eq s r v : wf s -> reg_ok r -> get (set s r v) r = v.
Proof.
  intros Hwf Hr. unfold get, set. cbn. rewrite nth_lookup, list_lookup_insert_eq; [reflexivity|].
  rewrite (wf_gpr_len s Hwf). unfold reg_ok, in_range in Hr. lia.
Qed.

Lemma get_set_ne s r r' v : 0 <= r -> 0 <= r' -> r <> r' -> get (set s r v) r' = get s r'.
Proof.
  intros. unfold get, set. cbn. rewrite !nth_lookup, list_lookup_insert_ne; [reflexivity|]. lia.
Qed.

Lemma get_range s r : wf s -> in_range 128 (get s r).
Proof.
  intros Hwf. unfold get. rewrite nth_lookup.
  destruct (gpr s !! Z.to_nat r) as [x|] eqn:E; cbn.
  - apply (Forall_lookup_1 _ _ _ _ (wf_gpr s Hwf) E).
  - apply zero_range. lia.
Qed.
#[export] Hint Resolve get_range : spu.

Lemma wf_set s r v : wf s -> in_range 128 v -> wf (set s r v).
Proof.
  intros [] Hv. constructor; cbn; auto.
  - rewrite length_insert. auto.
  - apply Forall_insert; auto.
Qed.

Lemma set_set s r v v' : set (set s r v) r v' = set s r v'.
Proof. unfold set, with_gpr. cbn. rewrite list_insert_insert_eq. reflexivity. Qed.

(** ** Addresses *)

Lemma land_mask_aligned x m : m mod 4 = 0 -> 0 <= x -> Z.land x m mod 4 = 0.
Proof.
  intros Hm Hx. change 4 with (2 ^ 2) in *. rewrite <- Z.land_ones in * by lia.
  rewrite <- Z.land_assoc, Hm. apply Z.land_0_r.
Qed.

Lemma branch_target_ls p imm : 0 <= spu_branch_target p imm < SPU_LS_SIZE.
Proof.
  unfold spu_branch_target. rewrite Z.land_comm.
  pose proof (land_range 18 0x3fffc (u32 (p + u32 (Z.shiftl imm 2)))) as H.
  unfold in_range in H. change SPU_LS_SIZE with (2 ^ 18). apply H; [lia|lia|].
  apply wrap_range. lia.
Qed.

Lemma branch_target_ok p imm : addr_ok (spu_branch_target p imm).
Proof.
  pose proof (branch_target_ls p imm) as H. unfold SPU_LS_SIZE in H. split.
  - unfold in_range. lia.
  - apply land_mask_aligned; [reflexivity|]. apply wrap_range. lia.
Qed.

Lemma ls_target_ls p imm : 0 <= spu_ls_target p imm < SPU_LS_SIZE /\ spu_ls_target p imm mod 16 = 0.
Proof.
  unfold spu_ls_target. split.
  - rewrite Z.land_comm.
    pose proof (land_range 18 0x3fff0 (u32 (p + u32 (Z.shiftl imm 2)))) as H.
    unfold in_range in H. change SPU_LS_SIZE with (2 ^ 18). apply H; [lia|lia|].
    apply wrap_range. lia.
  - change 16 with (2 ^ 4). rewrite <- Z.land_ones by lia.
    rewrite <- Z.land_assoc. apply Z.land_0_r.
Qed.

Lemma addr_ok_next p : addr_ok p -> addr_ok (u32 (p + 4)).
Proof.
  intros [Hp H4]. split; [apply wrap_range; lia|].
  unfold wrap, in_range in *. Z.div_mod_to_equations. lia.
Qed.
#[export] Hint Resolve branch_target_ok addr_ok_next : spu.

Lemma wf_with_pc s p : wf s -> addr_ok p -> wf (with_pc p s).
Proof. intros [] ?. constructor; auto. Qed.
Lemma wf_with_state s v : wf s -> wf (with_state v s).
Proof. intros []. constructor; auto. Qed.
Lemma wf_with_interrupts s v : wf s -> wf (with_interrupts v s).
Proof. intros []. constructor; auto. Qed.
Lemma wf_with_allow s v : wf s -> wf (with_allow v s).
Proof. intros []. constructor; auto. Qed.
Lemma wf_with_fallback s v : wf s -> wf (with_fallback v s).
Proof. intros []. constructor; auto. Qed.
Lemma wf_with_srr0 s v : wf s -> addr_ok v -> wf (with_srr0 v s).
Proof. intros [] ?. constructor; auto. Qed.
#[export] Hint Resolve wf_set wf_with_pc wf_with_state wf_with_interrupts wf_with_allow
  wf_with_fallback wf_with_srr0 wf_pc wf_srr0 : spu.

(** ** Local storage *)

Lemma ls_bytes_ok m : ls_ok m -> bytes_ok m.
Proof. intros Hm a v E. apply (Hm a v E). Qed.
#[export] Hint Resolve ls_bytes_ok : spu.

Lemma ls_store_ok m a n v :
  ls_ok m -> 0 <= a -> a + Z.of_nat n <= SPU_LS_SIZE -> ls_ok (be_store m a n v).
Proof.
  revert m a. induction n as [|n IH]; intros m a Hm Ha Hn; cbn [be_store]; [exact Hm|].
  apply IH; [|lia|lia]. apply map_Forall_insert_2; [|exact Hm].
  split; [lia|]. apply lane_range. lia.
Qed.

(** The quadword at an LS address that is a multiple of 16. *)
Definition quad_ok (a : Z) : Prop := 0 <= a < SPU_LS_SIZE /\ a mod 16 = 0.

Lemma land_quad x : quad_ok (Z.land x 0x3fff0).
Proof.
  split.
  - rewrite Z.land_comm. split.
    + apply Z.land_nonneg. lia.
    + change SPU_LS_SIZE with (2 ^ 18).
      assert (Z.land 0x3fff0 x = wrap 18 (Z.land 0x3fff0 x)) as ->.
      { apply Z.bits_inj'. intros k Hk. autorewrite with bits.
        destruct (Z.ltb_spec k 18); [reflexivity|].
        rewrite (testbit_high 18 0x3fff0) by (unfold in_range; lia). reflexivity. }
      apply wrap_range. lia.
  - change 16 with (2 ^ 4). rewrite <- Z.land_ones by lia.
    rewrite <- Z.land_assoc. apply Z.land_0_r.
Qed.
Lemma ls_target_quad p imm : quad_ok (spu_ls_target p imm).
Proof. apply ls_target_ls. Qed.
#[export] Hint Resolve land_quad ls_target_quad : spu.

Lemma quad_fits a : quad_ok a -> a mod SPU_LS_SIZE = a /\ a + 16 <= SPU_LS_SIZE.
Proof.
  intros [Ha H16]. split; [apply Z.mod_small; auto|].
  unfold SPU_LS_SIZE in *. Z.div_mod_to_equations. lia.
Qed.

Lemma ref_v128_range s a : wf s -> in_range 128 (ref_v128 s a).
Proof. intros Hwf. apply (be_load_range (ls s) _ 16). apply ls_bytes_ok, wf_ls, Hwf. Qed.

Lemma wf_set_ref s a v : wf s -> quad_ok a -> wf (set_ref_v128 s a v).
Proof.
  intros Hwf Ha. pose proof (quad_fits a Ha) as [E Hf]. destruct Ha as [Ha _].
  destruct Hwf. constructor; auto. unfold set_ref_v128. cbn [ls with_ls].
  rewrite E. apply ls_store_ok; auto; lia.
Qed.
#[export] Hint Resolve ref_v128_range wf_set_ref : spu.

Lemma ref_set_ref_eq s a v :
  wf s -> quad_ok a -> in_range 128 v -> ref_v128 (set_ref_v128 s a v) a = v.
Proof.
  intros Hwf Ha Hv. unfold ref_v128, set_ref_v128. cbn [ls with_ls]. apply be_load_store; auto.
  apply ls_bytes_ok, (wf_ls _ (wf_set_ref s a v Hwf Ha)).
Qed.

Lemma ref_set_ref_ne s a b v :
  quad_ok a -> quad_ok b -> a <> b -> ref_v128 (set_ref_v128 s a v) b = ref_v128 s b.
Proof.
  intros Ha Hb Hne. unfold ref_v128, set_ref_v128. cbn [ls with_ls].
  pose proof (quad_fits a Ha) as [-> _]. pose proof (quad_fits b Hb) as [-> _].
  apply be_load_store_other. destruct Ha as [_ Ha], Hb as [_ Hb].
  Z.div_mod_to_equations. lia.
Qed.

(** ** Every handler keeps the invariant *)

(** What the handlers rely on of the thread object: its services keep the state
    well-formed. *)
Class SpuHostOk (host : SpuHost) : Prop := {
  stop_and_signal_wf s code b s' :
    wf s -> @stop_and_signal host s code = Some (b, s') -> wf s';
  get_ch_value_wf s ch v s' : wf s -> @get_ch_value host s ch = Some (v, s') -> wf s';
  get_ch_count_wf s ch v s' : wf s -> @get_ch_count host s ch = Some (v, s') -> wf s';
  set_ch_value_wf s ch v b s' : wf s -> @set_ch_value host s ch v = Some (b, s') -> wf s';
  get_events_wf s v s' : wf s -> @get_events host s = Some (v, s') -> wf s';
  do_mfc_wf s : wf s -> wf (@do_mfc host s);
  arm_dec_wf s : wf s -> wf (@arm_dec_interrupt host s);
  check_state_wf s : wf s -> wf (snd (@check_state host s));
  fp_exec_wf n s op : wf s -> wf_result (@fp_exec host n s op);
}.
#[export] Hint Resolve do_mfc_wf arm_dec_wf : spu.

Lemma wf_set_u w `{LaneWidth w} s r i v :
  wf s -> 0 <= i < Z.of_nat (nlanes w) -> wf (set_u w s r i v).
Proof.
  intros Hwf Hi. apply wf_set; auto. apply set_lane128_range; auto using get_range.
Qed.

(** A loop over lanes that updates registers. *)
Lemma wf_for_up n body s :
  wf s -> (forall i s, 0 <= i < Z.of_nat n -> wf s -> wf (body i s)) -> wf (for_up n body s).
Proof. intros Hs Hb. apply (for_up_ind (fun _ s => wf s)); auto. Qed.

Lemma notand_range x m : 0 <= m -> 0 <= notand x m <= m.
Proof.
  intros Hm. unfold notand. split.
  - apply Z.ldiff_nonneg. auto.
  - assert (Z.ldiff m x = m - Z.land m x) as ->.
    { rewrite Z.sub_nocarry_ldiff by bits. bits. }
    assert (0 <= Z.land m x) by (apply Z.land_nonneg; auto). lia.
Qed.

Lemma notand_shift_range x m n k :
  0 <= m -> 0 <= n -> m < k * 2 ^ n -> 0 <= Z.shiftr (notand x m) n < k.
Proof.
  intros Hm Hn Hk. pose proof (notand_range x m Hm). pose proof (pow2_pos n Hn).
  rewrite Z.shiftr_div_pow2 by lia. split; [apply Z.div_pos; lia|].
  apply Z.div_lt_upper_bound; lia.
Qed.

(** Lane indices of the handlers are in range. *)
Ltac lane_bound :=
  match goal with
  | |- 0 <= Z.shiftr (notand _ _) _ < _ =>
      apply notand_shift_range; [lia|lia|vm_compute; reflexivity]
  | |- 0 <= notand ?x ?m < _ =>
      pose proof (notand_range x m ltac:(lia)); lane_side
  | _ => lane_side
  end.

Section HandlersWf.
Context {host : SpuHost} {ok : SpuHostOk host}.

Lemma check_mfc_interrupts_wf s p : wf s -> addr_ok p -> wf (snd (check_mfc_interrupts p s)).
Proof.
  intros Hwf Hp. unfold check_mfc_interrupts.
  destruct (ch_events_t.count _); [|exact Hwf].
  destruct (interrupts_enabled s); cbn [snd]; auto with spu.
  apply wf_with_pc; auto with spu.
  set (br := ref_u32 _ 0). clearbody br. destruct (_ =? _); [|split; [unfold in_range; lia|reflexivity]].
  split.
  - assert (Z.land (Z.shiftr br 5) 0x3fffc = wrap 18 (Z.land (Z.shiftr br 5) 0x3fffc)) as ->.
    { apply Z.bits_inj'. intros k Hk. autorewrite with bits.
      destruct (Z.ltb_spec k 18); [reflexivity|].
      rewrite (testbit_high 18 0x3fffc) by (unfold in_range; lia). apply andb_false_r. }
    pose proof (wrap_range 18 (Z.land (Z.shiftr br 5) 0x3fffc)). unfold in_range in *. lia.
  - change 4 with (2 ^ 2). rewrite <- Z.land_ones, <- Z.land_assoc by lia. apply Z.land_0_r.
Qed.

Lemma thread_set_interrupt_status_wf b s : wf s -> wf (thread_set_interrupt_status b s).
Proof.
  intros Hwf. unfold thread_set_interrupt_status.
  apply wf_with_interrupts. repeat case_match; auto with spu.
Qed.

Lemma resume_interrupts_wf s : wf s -> wf (resume_interrupts s).
Proof.
  intros Hwf. unfold resume_interrupts.
  pose proof (check_mfc_interrupts_wf s (pc s) Hwf (wf_pc s Hwf)) as Hc.
  destruct (check_mfc_interrupts _ _) as [b t]. destruct (b && _); auto with spu.
Qed.

Lemma set_interrupt_status_wf s op s' : wf s -> set_interrupt_status s op = Some s' -> wf s'.
Proof.
  intros Hwf. unfold set_interrupt_status.
  destruct (negb (e op =? 0)), (negb (d op =? 0)); intros E; try discriminate E;
    apply (inj Some) in E; subst s';
    auto using resume_interrupts_wf, thread_set_interrupt_status_wf.
Qed.

Lemma branch_indirect_wf s op t : wf s -> addr_ok t -> wf_result (branch_indirect s op t).
Proof.
  intros Hwf Ht. unfold branch_indirect.
  destruct (set_interrupt_status _ _) as [s'|] eqn:E; cbn; [|trivial].
  eapply set_interrupt_status_wf; [|exact E]. auto with spu.
Qed.

(** The invariant of each kind of handler, by the shape of its body. *)
Ltac wf_step :=
  match goal with
  | |- wf_result (Ret _ _) => cbn [wf_result]
  | |- wf_result (Halted _) => cbn [wf_result]
  | |- wf_result Thrown => exact I
  | |- wf_result (if ?b then _ else _) => destruct b
  | |- wf_result (branch_indirect _ _ _) => apply branch_indirect_wf
  | |- wf_result (match ?x with Some _ => _ | None => _ end) => destruct x as [[? ?]|] eqn:?
  | H : ?P |- ?P => exact H
  | |- wf (set_ref_v128 _ _ _) => apply wf_set_ref
  | |- wf (for_up _ _ _) => apply wf_for_up; [|intros ? ? ? ?]
  | |- wf (set_u _ _ _ _ _) => apply wf_set_u; [typeclasses eauto| |lane_bound]
  | |- wf (set _ _ _) => apply wf_set
  | |- wf (with_pc _ _) => apply wf_with_pc
  | |- wf (with_allow _ _) => apply wf_with_allow
  | |- in_range 128 (ref_v128 _ _) => apply ref_v128_range
  | |- in_range 128 (get _ _) => apply get_range
  | |- in_range 128 insert_pattern => apply from64_range
  | |- in_range 128 (for_up _ _ _) =>
      apply (for_up_ind (fun _ x => in_range 128 x));
      [|intros ? ? ? ?; apply (set_lane128_range 8); [lane_side|]]
  | |- in_range 128 _ => progress v_range
  | |- quad_ok _ => first [apply land_quad | apply ls_target_quad]
  | |- addr_ok (spu_branch_target _ _) => apply branch_target_ok
  | |- addr_ok (srr0 _) => apply wf_srr0
  | |- addr_ok (u32 (pc _ + 4)) => apply addr_ok_next, wf_pc
  | E : get_ch_value _ _ = Some (_, ?s) |- wf ?s => eapply get_ch_value_wf; [|exact E]
  | E : get_ch_count _ _ = Some (_, ?s) |- wf ?s => eapply get_ch_count_wf; [|exact E]
  | E : set_ch_value _ _ _ = Some (_, ?s) |- wf ?s => eapply set_ch_value_wf; [|exact E]
  | E : stop_and_signal _ _ = Some (_, ?s) |- wf ?s => eapply stop_and_signal_wf; [|exact E]
  | E : get_events _ = Some (_, ?s) |- wf ?s => eapply get_events_wf; [|exact E]
  end.

Lemma exec_wf n s op : wf s -> wf_result (exec n s op).
Proof.
  intros Hwf. destruct n; cbn [exec]; try (apply fp_exec_wf; exact Hwf);
    match goal with |- wf_result (?h _ _) => first [unfold h | match h with ?h' _ => unfold h' end] end; cbv zeta; repeat wf_step.
Qed.

Lemma step_wf s : wf s -> wf_result (step s).
Proof.
  intros Hwf. unfold step. destruct (fetch s) as [op|]; [|exact I].
  pose proof (exec_wf (decode op) s op Hwf) as H.
  destruct (exec _ _ _) as [[] t|t|]; cbn [wf_result] in *; auto with spu.
Qed.

Definition wf_run (r : run_result) : Prop :=
  match r with
  | Running s | Left s | RHalted s => wf s
  | RThrown => True
  end.

Lemma interpreter_loop_wf fuel s : wf s -> wf_run (interpreter_loop fuel s).
Proof.
  revert s. induction fuel as [|fuel IH]; intros s Hwf; [exact Hwf|]. cbn [interpreter_loop].
  assert (wf (snd (if negb (state s =? 0) then check_state s else (false, s)))) as Hc.
  { destruct (negb _); auto using check_state_wf. }
  destruct (if negb (state s =? 0) then check_state s else (false, s)) as [leave t].
  cbn [snd] in Hc. destruct leave; [exact Hc|].
  destruct (_ && _); [cbn; auto with spu|].
  pose proof (step_wf t Hc) as Ht. destruct (step t) as [b u|u|]; cbn [wf_result] in Ht; auto.
Qed.

(** Where the loop is after more passes depends only on where it was. *)
Definition resume (fuel : nat) (r : run_result) : run_result :=
  match r with Running s => interpreter_loop fuel s | r => r end.

Lemma interpreter_loop_add n m s :
  interpreter_loop (n + m) s = resume m (interpreter_loop n s).
Proof.
  revert s. induction n as [|n IH]; intros s; [reflexivity|]. cbn [interpreter_loop Nat.add].
  destruct (if negb (state s =? 0) then check_state s else (false, s)) as [leave t].
  destruct leave; [reflexivity|]. destruct (_ && _); [reflexivity|].
  destruct (step t); [apply IH|reflexivity..].
Qed.

(** C1: whatever instructions the local storage holds, an SPU interpreter that starts
    in a well-formed state (128 registers of 128 bits, LS bytes at LS addresses,
    aligned instruction addresses) is in one after any number of passes, whether it
    still runs, has returned or was halted, for every thread object whose services keep
    the state well-formed; and the passes compose, so that what the loop did in [n]
    passes is never revised by [m] more. *)
Theorem interpreter_preserves_wf decoder_static n m s :
  wf s ->
  wf_run (old_interpreter decoder_static n s) /\
  old_interpreter decoder_static (n + m) s = resume m (old_interpreter decoder_static n s).
Proof.
  unfold old_interpreter. intros Hwf. destruct (_ && _).
  - split; [exact I|reflexivity].
  - auto using interpreter_loop_wf, interpreter_loop_add.
Qed.
End HandlersWf.

(** ** A concrete thread object

    [stop_and_signal] records the stop by raising a state flag, channels are
    empty, and there are no events: enough to run stand-alone programs. *)
Module Bare.
Definition host : SpuHost := {|
  stop_and_signal s _ := Some (false, with_state 1 s);
  get_ch_value s _ := Some (-1, s);
  get_ch_count s _ := Some (0, s);
  set_ch_value s _ _ := Some (false, s);
  get_events s := Some (ch_events s, s);
  do_mfc s := s;
  arm_dec_interrupt s := s;
  check_state s := (true, s);
  fp_exec _ s _ := Ret true s;
|}.

Lemma host_ok : SpuHostOk host.
Proof.
  split; cbn; try congruence; auto.
  intros s code b s' Hwf [= <- <-]. auto with spu.
Qed.

(** A thread with a program at address 0 and zeroed registers. *)
Fixpoint load_words (a : Z) (ws : list Z) (m : gmap Z Z) : gmap Z Z :=
  match ws with
  | [] => m
  | w :: ws => load_words (a + 4) ws (be_store m a 4 w)
  end.
Definition boot (ws : list Z) : spu_thread :=
  mk_spu_thread (replicate 128 0) 0 (load_words 0 ws ∅) 0 0 false false 0 false 0 0.

Lemma boot_wf ws : (Z.of_nat (length ws) * 4 <= SPU_LS_SIZE) -> wf (boot ws).
Proof.
  intros Hl. constructor; cbn [gpr pc srr0 ls boot].
  - reflexivity.
  - apply Forall_replicate, zero_range. lia.
  - split; [unfold in_range; lia|reflexivity].
  - split; [unfold in_range; lia|reflexivity].
  - assert (forall a m, ls_ok m -> 0 <= a -> a + Z.of_nat (length ws) * 4 <= SPU_LS_SIZE ->
              ls_ok (load_words a ws m)) as H.
    { clear Hl. induction ws as [|w ws IH]; intros a m Hm Ha Hl; cbn [load_words]; [exact Hm|].
      cbn [length] in Hl. apply IH; [apply ls_store_ok; auto; lia|lia|lia]. }
    apply H; [apply map_Forall_empty|lia|lia].
Qed.

(** A thread with operands in registers 3, 4 and 5, and words whose RT, RA and RB
    fields name them. *)
Definition sample : spu_thread :=
  set (set (set (boot []) 3 0xffffffff800000007fffffff00010203)
         4 0x0000000180000000000000010c0d0e0f) 5 0x00000000000000010000000000000011.
Definition op345 : Z := 5 + 3 * 2 ^ 7 + 4 * 2 ^ 14.

Lemma sample_wf : wf sample.
Proof.
  unfold sample. repeat apply wf_set; try (vm_compute; intuition congruence).
  apply boot_wf. vm_compute. congruence.
Qed.
End Bare.

(** [il $3, 5; stop]. *)
Definition prog_il : list Z := [0x40800283; 0].

Lemma interpreter_preserves_wf_witness :
  wf (Bare.boot prog_il) /\
  (exists t, @old_interpreter Bare.host true 2 (Bare.boot prog_il) = Running t /\ wf t) /\
  (exists t, @old_interpreter Bare.host true 10 (Bare.boot prog_il) = Left t /\ wf t).
Proof.
  assert (wf (Bare.boot prog_il)) as Hwf by (apply Bare.boot_wf; vm_compute; congruence).
  split; [exact Hwf|].
  destruct (@interpreter_preserves_wf Bare.host Bare.host_ok true 2 8 _ Hwf) as [H2 H10].
  destruct (@interpreter_preserves_wf Bare.host Bare.host_ok true 10 0 _ Hwf) as [Hr _].
  split.
  - destruct (@old_interpreter Bare.host true 2 (Bare.boot prog_il)) as [t|t|t|] eqn:E.
    + exists t. split; [reflexivity|exact H2].
    + exfalso. vm_compute in E. discriminate E.
    + exfalso. vm_compute in E. discriminate E.
    + exfalso. vm_compute in E. discriminate E.
  - destruct (@old_interpreter Bare.host true 10 (Bare.boot prog_il)) as [t|t|t|] eqn:E.
    + exfalso. vm_compute in E. discriminate E.
    + exists t. split; [reflexivity|exact Hr].
    + exfalso. vm_compute in E. discriminate E.
    + exfalso. vm_compute in E. discriminate E.
Defined.
