(* ===== verification/SpuDecode.v ===== *)
(** * The SPU decoder and the instruction encoders (Emu/Cell/SPUOpcodes.h)

    The lookup table agrees with the instruction list: an entry's opcode prefix
    decodes to the entry's name whatever its operand bits, entries do not shadow
    each other and the rest is [UNK].  The encoders of [namespace
    spu_instructions] decode to the intended name with the intended operands. *)

From Stdlib Require Import ZArith Lia Bool.
From stdpp Require Import base numbers list.
From S2P Require Import Prelude BitField SpuOpcodes.
Import spu_opcode_t.

(** [inst] carries the opcode prefix of an entry; [magn] counts the operand bits
    inside the 11-bit table index. *)
Definition entry_matches (inst : Z) (entry : Z * Z * Name.t) : Prop :=
  let '(magn, value, _) := entry in Z.shiftr (spu_decode inst) magn = value.

(** ** The table fill *)

Definition entry_ok (entry : Z * Z * Name.t) : bool :=
  let '(magn, value, _) := entry in
  (0 <=? magn) && (magn <=? 11) && (0 <=? value) && (Z.shiftl (value + 1) magn <=? 2048).

Definition hits (k : Z) (entry : Z * Z * Name.t) : bool :=
  let '(magn, value, _) := entry in Z.shiftr k magn =? value.

Definition fill (tbl : list Name.t) (entry : Z * Z * Name.t) : list Name.t :=
  let '(magn, value, name) := entry in
  for_up (Z.to_nat (Z.shiftl 1 magn))
    (fun i t => <[Z.to_nat (Z.lor (Z.shiftl value magn) i) := name]> t) tbl.

Lemma hits_spec k m v n :
  0 <= m -> hits k (m, v, n) = true <-> v * 2 ^ m <= k < v * 2 ^ m + 2 ^ m.
Proof.
  intros Hm. cbn. rewrite Z.eqb_eq, Z.shiftr_div_pow2 by lia. pose proof (pow2_pos m Hm).
  split.
  - intros <-. pose proof (Z.div_mod k (2 ^ m)). pose proof (Z.mod_pos_bound k (2 ^ m)). lia.
  - intros Hk. symmetry. apply (Z.div_unique _ _ _ (k - v * 2 ^ m)); lia.
Qed.

Lemma fill_spec tbl entry :
  entry_ok entry = true -> length tbl = 2048%nat ->
  length (fill tbl entry) = 2048%nat /\
  forall k, 0 <= k < 2048 ->
  fill tbl entry !! Z.to_nat k =
    if hits k entry then Some (snd entry) else tbl !! Z.to_nat k.
Proof.
  destruct entry as [[m v] n]. unfold entry_ok. intros Hok Hlen.
  rewrite !andb_true_iff, !Z.leb_le in Hok. destruct Hok as [[[Hm Hm'] Hv] Hb].
  pose proof (pow2_pos m Hm) as Hp. rewrite Z.shiftl_mul_pow2 in Hb by lia.
  unfold fill. rewrite Z.shiftl_mul_pow2, Z.mul_1_l by lia.
  set (P := fun j (t : list Name.t) => length t = 2048%nat /\ forall k, 0 <= k < 2048 ->
     t !! Z.to_nat k = if decide (v * 2 ^ m <= k < v * 2 ^ m + j) then Some n else tbl !! Z.to_nat k).
  assert (P (2 ^ m) (for_up (Z.to_nat (2 ^ m))
     (fun i t => <[Z.to_nat (Z.lor (Z.shiftl v m) i) := n]> t) tbl)) as [Hl Hk].
  { replace (2 ^ m) with (Z.of_nat (Z.to_nat (2 ^ m))) at 1 by lia. apply (for_up_ind P).
    - split; [exact Hlen|]. intros k Hk. case_decide; [lia|reflexivity].
    - intros j t Hj [Hl Ht]. split; [rewrite length_insert; exact Hl|]. intros k Hk.
      rewrite lor_shiftl_small by lia. destruct (Z.eq_dec k (v * 2 ^ m + j)) as [->|Hne].
      + rewrite list_lookup_insert_eq by lia. case_decide; [reflexivity|lia].
      + rewrite list_lookup_insert_ne, Ht by lia. repeat case_decide; auto; lia. }
  split; [exact Hl|]. intros k Hr. rewrite (Hk k Hr). cbn [snd].
  pose proof (hits_spec k m v n Hm) as Hh. destruct (hits k (m, v, n)); case_decide; auto;
    exfalso; intuition congruence.
Qed.

(** A slot of the filled table: the entry that hits it, when entries are disjoint. *)
Lemma fill_all l tbl :
  forallb entry_ok l = true -> length tbl = 2048%nat ->
  length (foldl fill tbl l) = 2048%nat /\
  forall k, 0 <= k < 2048 ->
  (forall e, e ∈ l -> hits k e = false) /\ foldl fill tbl l !! Z.to_nat k = tbl !! Z.to_nat k \/
  (exists e, e ∈ l /\ hits k e = true /\ foldl fill tbl l !! Z.to_nat k = Some (snd e)).
Proof.
  revert tbl. induction l as [|e l IH]; intros tbl Hok Hlen.
  - split; [exact Hlen|]. intros k Hk. left. split; [|reflexivity]. intros e He. inversion He.
  - cbn in Hok. apply andb_true_iff in Hok as [He Hok].
    destruct (fill_spec tbl e He Hlen) as [Hl Hf]. cbn [foldl].
    destruct (IH (fill tbl e) Hok Hl) as [Hl' Hk']. split; [exact Hl'|].
    intros k Hk. destruct (Hk' k Hk) as [[Hno Heq]|[e' [He' [Hh Heq]]]].
    + specialize (Hf k Hk). destruct (hits k e) eqn:Eh.
      * right. exists e. split; [left|]. split; [exact Eh|congruence].
      * left. split; [|congruence]. intros e' He'. apply elem_of_cons in He' as [->|He']; auto.
    + right. exists e'. split; [right; exact He'|]. auto.
Qed.

(** Two entries never claim the same slot. *)
Definition disjoint_entries (e e' : Z * Z * Name.t) : bool :=
  let '(m, v, _) := e in
  let '(m', v', _) := e' in
  (Z.shiftl (v + 1) m <=? Z.shiftl v' m') || (Z.shiftl (v' + 1) m' <=? Z.shiftl v m).

Fixpoint pairwise (l : list (Z * Z * Name.t)) : bool :=
  match l with
  | [] => true
  | e :: l => forallb (disjoint_entries e) l && pairwise l
  end.

Lemma instructions_ok : forallb entry_ok instructions = true.
Proof. vm_compute. reflexivity. Qed.
Lemma instructions_disjoint : pairwise instructions = true.
Proof. vm_compute. reflexivity. Qed.

Lemma disjoint_hits k e e' :
  entry_ok e = true -> entry_ok e' = true -> disjoint_entries e e' = true ->
  hits k e = true -> hits k e' = true -> False.
Proof.
  destruct e as [[m v] n], e' as [[m' v'] n']. unfold entry_ok, disjoint_entries.
  rewrite !andb_true_iff, orb_true_iff, !Z.leb_le. intros [[[Hm _] _] _] [[[Hm' _] _] _].
  rewrite !Z.shiftl_mul_pow2 by lia. rewrite !hits_spec by lia. lia.
Qed.

Lemma pairwise_unique l k e e' :
  forallb entry_ok l = true -> pairwise l = true -> e ∈ l -> e' ∈ l ->
  hits k e = true -> hits k e' = true -> e = e'.
Proof.
  intros Hok Hp He He' Hh Hh'. induction l as [|x l IH]; [inversion He|].
  cbn in Hok, Hp. apply andb_true_iff in Hok as [Hx Hok], Hp as [Hd Hp].
  rewrite forallb_forall in Hd. pose proof (proj1 (forallb_forall _ _) Hok) as Hf.
  apply elem_of_cons in He as [->|He], He' as [->|He']; auto; exfalso.
  - apply (disjoint_hits k x e'); auto; [apply Hf|apply Hd]; apply list_elem_of_In; auto.
  - apply (disjoint_hits k x e); auto; [apply Hf|apply Hd]; apply list_elem_of_In; auto.
Qed.

Lemma m_table_fill : m_table = foldl fill (replicate 2048 Name.UNK) instructions.
Proof. reflexivity. Qed.

Lemma spu_decode_range inst : in_range 32 inst -> 0 <= spu_decode inst < 2048.
Proof.
  unfold in_range, spu_decode. intros Hi. rewrite Z.shiftr_div_pow2 by lia.
  split; [apply Z.div_pos; lia|apply Z.div_lt_upper_bound; lia].
Qed.

Lemma decode_entry inst m v n :
  in_range 32 inst -> (m, v, n) ∈ instructions -> Z.shiftr (spu_decode inst) m = v ->
  decode inst = n.
Proof.
  intros Hi He Hv. unfold decode. rewrite nth_lookup, m_table_fill.
  destruct (fill_all instructions (replicate 2048 Name.UNK) instructions_ok (length_replicate _ _))
    as [_ Hk].
  assert (hits (spu_decode inst) (m, v, n) = true) as Hh by (cbn; rewrite Hv; apply Z.eqb_refl).
  destruct (Hk _ (spu_decode_range inst Hi)) as [[Hno _]|[e [He' [Hh' ->]]]].
  - rewrite (Hno _ He) in Hh. discriminate.
  - cbn. rewrite (pairwise_unique _ (spu_decode inst) e (m, v, n) instructions_ok instructions_disjoint); auto.
Qed.

(** C2: the decoder agrees with the instruction list on every 32-bit word.  A word
    with the opcode prefix of an entry decodes to that entry's name, whatever its
    operand bits (so no entry shadows another), and a word without the prefix of
    any entry decodes to [UNK]. *)
Theorem decode_correct inst :
  in_range 32 inst ->
  (forall entry, entry ∈ instructions -> entry_matches inst entry -> decode inst = snd entry) /\
  ((forall entry, entry ∈ instructions -> ~ entry_matches inst entry) -> decode inst = Name.UNK).
Proof.
  intros Hi. split.
  - intros [[m v] n] He Hv. exact (decode_entry inst m v n Hi He Hv).
  - intros Hno. unfold decode. rewrite nth_lookup, m_table_fill.
    destruct (fill_all instructions (replicate 2048 Name.UNK) instructions_ok (length_replicate _ _))
      as [_ Hk].
    destruct (Hk _ (spu_decode_range inst Hi)) as [[_ ->]|[[[m v] n] [He [Hh _]]]].
    + rewrite lookup_replicate_2; [reflexivity|]. pose proof (spu_decode_range inst Hi). lia.
    + exfalso. apply (Hno _ He). cbn in Hh |- *. apply Z.eqb_eq, Hh.
Qed.

Lemma decode_correct_witness : decode 0x1c000000 = Name.AI.
Proof.
  refine (proj1 (decode_correct 0x1c000000 _) (3, 0x1c, Name.AI) _ _).
  - vm_compute. split; congruence.
  - apply list_elem_of_In. vm_compute. intuition.
  - reflexivity.
Defined.

(** ** Encoders *)

(** The opcode prefix of [magn] is the field above the operand bits. *)
Lemma prefix_extract inst m :
  in_range 32 inst -> 0 <= m <= 11 ->
  Z.shiftr (spu_decode inst) m = bf.extract (21 + m) (11 - m) inst.
Proof.
  intros Hi Hm. unfold spu_decode, bf.extract. rewrite Z.shiftr_shiftr, Z.land_ones by lia.
  rewrite Z.mod_small; [reflexivity|]. rewrite Z.shiftr_div_pow2 by lia.
  pose proof (pow2_pos (21 + m) ltac:(lia)). unfold in_range in Hi.
  split; [apply Z.div_pos; lia|]. apply Z.div_lt_upper_bound; [lia|].
  rewrite <- Z.pow_add_r by lia. replace (21 + m + (11 - m)) with 32 by lia. lia.
Qed.

Ltac op_decodes m v :=
  apply (decode_entry _ m v);
  [ op_range
  | apply list_elem_of_In; vm_compute; intuition
  | rewrite prefix_extract by (op_range; lia); op_fields; reflexivity ].

Definition imm10 (i : Z) : Prop := - 2 ^ 9 <= i < 2 ^ 9.
Definition imm16 (i : Z) : Prop := in_range 16 i.

Section Encoders.
Import spu_instructions.
Context (t a b : Z) (Ht : in_range 7 t) (Ha : in_range 7 a) (Hb : in_range 7 b).

(** Register-register form. *)
Lemma SF_decodes : decode (SF t a b) = Name.SF /\
  rt (SF t a b) = t /\ ra (SF t a b) = a /\ rb (SF t a b) = b.
Proof.
  unfold SF, rt, ra, rb, set_rt, set_ra, set_rb. split; [op_decodes 0 0x40|op_fields; auto].
Qed.
Lemma XOR_decodes : decode (XOR t a b) = Name.XOR /\
  rt (XOR t a b) = t /\ ra (XOR t a b) = a /\ rb (XOR t a b) = b.
Proof.
  unfold XOR, rt, ra, rb, set_rt, set_ra, set_rb. split; [op_decodes 0 0x241|op_fields; auto].
Qed.
Lemma ORX_decodes : decode (ORX t a) = Name.ORX /\ rt (ORX t a) = t /\ ra (ORX t a) = a.
Proof. unfold ORX, rt, ra, set_rt, set_ra. split; [op_decodes 0 0x1f0|op_fields; auto]. Qed.
Lemma WRCH_decodes : decode (WRCH a t) = Name.WRCH /\ rt (WRCH a t) = t /\ ra (WRCH a t) = a.
Proof. unfold WRCH, rt, ra, set_rt, set_ra. split; [op_decodes 0 0x10d|op_fields; auto]. Qed.

(** 10-bit immediate forms; load and store offsets are multiples of 16. *)
Lemma AI_decodes i : imm10 i -> decode (AI t a i) = Name.AI /\
  rt (AI t a i) = t /\ ra (AI t a i) = a /\ si10 (AI t a i) = i.
Proof.
  intros Hi. unfold AI, rt, ra, si10, set_rt, set_ra, set_si10.
  split; [op_decodes 3 0x1c|unfold imm10 in Hi; op_fields; auto].
Qed.
Lemma CGTI_decodes i : imm10 i -> decode (CGTI t a i) = Name.CGTI /\
  rt (CGTI t a i) = t /\ ra (CGTI t a i) = a /\ si10 (CGTI t a i) = i.
Proof.
  intros Hi. unfold CGTI, rt, ra, si10, set_rt, set_ra, set_si10.
  split; [op_decodes 3 0x4c|unfold imm10 in Hi; op_fields; auto].
Qed.
Lemma STQD_decodes i : imm10 i -> decode (STQD t a (16 * i)) = Name.STQD /\
  rt (STQD t a (16 * i)) = t /\ ra (STQD t a (16 * i)) = a /\ si10 (STQD t a (16 * i)) = i.
Proof.
  intros Hi. unfold STQD. rewrite (Z.mul_comm 16 i), Z.quot_mul by lia.
  unfold rt, ra, si10, set_rt, set_ra, set_si10.
  split; [op_decodes 3 0x24|unfold imm10 in Hi; op_fields; auto].
Qed.
Lemma LQD_decodes i : imm10 i -> decode (LQD t a (16 * i)) = Name.LQD /\
  rt (LQD t a (16 * i)) = t /\ ra (LQD t a (16 * i)) = a /\ si10 (LQD t a (16 * i)) = i.
Proof.
  intros Hi. unfold LQD. rewrite (Z.mul_comm 16 i), Z.quot_mul by lia.
  unfold rt, ra, si10, set_rt, set_ra, set_si10.
  split; [op_decodes 3 0x34|unfold imm10 in Hi; op_fields; auto].
Qed.

(** Branches: a byte offset of either sign, stored as 16 bits of its quarter. *)
Lemma BR_decodes i : decode (BR (4 * i)) = Name.BR /\ i16 (BR (4 * i)) = u16 i.
Proof.
  unfold BR. rewrite (Z.mul_comm 4 i), Z.quot_mul by lia. unfold i16, set_i16.
  split; [op_decodes 2 0x64|apply bf.extract_store; lia].
Qed.
Lemma BRNZ_decodes i : decode (BRNZ t (4 * i)) = Name.BRNZ /\
  rt (BRNZ t (4 * i)) = t /\ i16 (BRNZ t (4 * i)) = u16 i.
Proof.
  unfold BRNZ. rewrite (Z.mul_comm 4 i), Z.quot_mul by lia. unfold rt, i16, set_rt, set_i16.
  split; [op_decodes 2 0x42|]. rewrite bf.extract_store by lia. op_fields. auto.
Qed.
Lemma ILA_decodes i : in_range 18 i -> decode (ILA t i) = Name.ILA /\
  rt (ILA t i) = t /\ i18 (ILA t i) = i.
Proof.
  intros Hi. unfold ILA, rt, i18, set_rt, set_i18. split; [op_decodes 4 0x21|op_fields; auto].
Qed.
End Encoders.
