(* ===== verification/SpuArith.v ===== *)
(** * SPU arithmetic and logic: what the handlers compute

    Lane-wise specifications of the integer handlers of
    Emu/Cell/SPUInterpreter.cpp: the vector code of a handler against the
    arithmetic meaning of the instruction. *)

From Stdlib Require Import ZArith Lia Bool.
From stdpp Require Import base numbers list gmap.
From S2P Require Import Prelude V128 Bytes BitField SpuOpcodes SpuThread SpuInterp SpuWf.
Import spu_opcode_t Interp.

(** ** Outcomes *)

Section Outcome.
Context `{SpuHost}.

(** The instruction advances, changes nothing but register [r] and leaves there
    a 128-bit value with property [P]. *)
Definition writes (n : Name.t) (s : spu_thread) (op r : Z) (P : Z -> Prop) : Prop :=
  exists v, exec n s op = Ret true (set s r v) /\ in_range 128 v /\ P v.

(** Lane [i] of width [w] of the written register is [f i]. *)
Definition lanes (w : Z) (f : Z -> Z) (v : Z) : Prop :=
  forall i, 0 <= i < 128 / w -> lane w i v = f i.
End Outcome.

(** ** Loops over the lanes of a register *)

Lemma get_set s r r' v : wf s -> reg_ok r -> 0 <= r' ->
  get (set s r v) r' = if r =? r' then v else get s r'.
Proof.
  intros Hwf Hr Hr'. destruct (Z.eqb_spec r r') as [<-|].
  - apply get_set_eq; auto.
  - apply get_set_ne; unfold reg_ok, in_range in *; lia.
Qed.

Lemma set_get s r : wf s -> reg_ok r -> set s r (get s r) = s.
Proof.
  intros Hwf Hr. unfold set, get, with_gpr. destruct s as [g]; cbn. f_equal.
  apply list_insert_id. rewrite nth_lookup.
  destruct (g !! Z.to_nat r) eqn:E; [reflexivity|].
  apply lookup_ge_None in E. pose proof (wf_gpr_len _ Hwf). cbn in *.
  unfold reg_ok, in_range in Hr. lia.
Qed.

Lemma reg_nonneg r : reg_ok r -> 0 <= r.
Proof. unfold reg_ok, in_range. lia. Qed.

(** States that agree on lane [i] of every register. *)
Definition same_lane (w i : Z) (s s' : spu_thread) : Prop :=
  forall r, 0 <= r -> lane w i (get s r) = lane w i (get s' r).

(** [for (i) gpr[r]._uW[i] = g(i)], where [g] reads lane [i] of registers, also
    of [r] itself, writes the lanes computed from the initial state. *)
Lemma for_up_set_u w `{HW : LaneWidth w} s r g :
  wf s -> reg_ok r ->
  (forall i s', 0 <= i < Z.of_nat (nlanes w) -> same_lane w i s' s -> g i s' = g i s) ->
  for_up (nlanes w) (fun i s => set_u w s r i (g i s)) s
    = set s r (build w (nlanes w) (fun i => g i s)).
Proof.
  intros Hwf Hr Hg. pose proof HW as [Hw Hn].
  assert (exists x, for_up (nlanes w) (fun i s => set_u w s r i (g i s)) s = set s r x /\
            in_range 128 x /\ forall i, 0 <= i < Z.of_nat (nlanes w) ->
            lane w i x = if i <? Z.of_nat (nlanes w) then wrap w (g i s) else lane w i (get s r)) as H.
  { apply (for_up_ind (fun j t => exists x, t = set s r x /\ in_range 128 x /\
             forall i, 0 <= i < Z.of_nat (nlanes w) ->
             lane w i x = if i <? j then wrap w (g i s) else lane w i (get s r))).
    - exists (get s r). rewrite set_get by auto. split; [reflexivity|].
      split; [auto using get_range|]. intros i Hi. destruct (Z.ltb_spec i 0); [lia|reflexivity].
    - intros j t Hj (x & -> & Hx & Hl). exists (set_lane w j (g j s) x).
      assert (same_lane w j (set s r x) s) as Hs.
      { intros r' Hr'. rewrite get_set by auto. destruct (Z.eqb_spec r r') as [<-|]; auto.
        rewrite Hl by lia. destruct (Z.ltb_spec j j); [lia|reflexivity]. }
      unfold set_u. rewrite (Hg j _ Hj Hs), get_set_eq, set_set by auto. split; [reflexivity|].
      split; [apply set_lane128_range; auto|]. intros i Hi. rewrite lane_set_lane by lia.
      destruct (Z.eqb_spec i j) as [->|]; [destruct (Z.ltb_spec j (j + 1)); [reflexivity|lia]|].
      rewrite Hl by lia. destruct (Z.ltb_spec i j), (Z.ltb_spec i (j + 1)); auto; lia. }
  destruct H as (x & -> & Hx & Hl). f_equal. apply lane128_ext; auto using build128_range.
  intros i Hi. rewrite Hl, lane_build by lia. destruct (Z.ltb_spec i (Z.of_nat (nlanes w))); auto; lia.
Qed.

(** ** Lane arithmetic *)

(** Flipping the top bit is adding half the range. *)
Lemma lxor_top n y : 0 <= n -> 0 <= y < 2 ^ n -> Z.lxor y (2 ^ n) = y + 2 ^ n.
Proof.
  intros Hn Hy. symmetry. apply Z.add_nocarry_lxor. apply Z.bits_inj'. intros k Hk.
  rewrite Z.land_spec, Z.bits_0, Z.pow2_bits_eqb by lia.
  destruct (Z.eqb_spec n k) as [<-|]; [|apply andb_false_r].
  rewrite (testbit_high n y) by (unfold in_range; lia). reflexivity.
Qed.

(** A biased signed comparison is an unsigned one. *)
Lemma sint_flip w x :
  0 < w -> in_range w x -> sint w (Z.lxor x (2 ^ (w - 1))) = x - 2 ^ (w - 1).
Proof.
  intros Hw Hx. unfold in_range in *. pose proof (pow2_split w Hw) as Hp.
  assert (0 < 2 ^ (w - 1)) by (apply pow2_pos; lia).
  destruct (Z.lt_ge_cases x (2 ^ (w - 1))) as [Hlt|Hge].
  - rewrite lxor_top by lia. rewrite sint_unsigned by (unfold in_range; lia).
    destruct (Z.ltb_spec (x + 2 ^ (w - 1)) (2 ^ (w - 1))); lia.
  - pose proof (lxor_top (w - 1) (x - 2 ^ (w - 1)) ltac:(lia) ltac:(lia)) as E.
    replace (x - 2 ^ (w - 1) + 2 ^ (w - 1)) with x in E by lia. rewrite <- E at 1.
    rewrite Z.lxor_assoc, Z.lxor_nilpotent, Z.lxor_0_r.
    rewrite sint_small by lia. reflexivity.
Qed.

(** Complement within the width. *)
Lemma lxor_ones w x : 0 <= w -> in_range w x -> Z.lxor x (Z.ones w) = 2 ^ w - 1 - x.
Proof.
  intros Hw Hx. rewrite Z.ones_equiv, <- Z.sub_1_r.
  assert (Z.land x (Z.lxor x (Z.ones w)) = 0) as H0.
  { bits. rewrite (testbit_high w x) by (auto; lia). reflexivity. }
  pose proof (Z.add_nocarry_lxor _ _ H0) as E.
  rewrite <- Z.lxor_assoc, Z.lxor_nilpotent, Z.lxor_0_l, Z.ones_equiv, <- Z.sub_1_r in E. lia.
Qed.

Lemma wrap_mask w b : 0 < w -> wrap w (mask_of b) = if b then Z.ones w else 0.
Proof.
  intros Hw. destruct b; cbn [mask_of].
  - bits. rewrite Z.bits_m1 by lia. reflexivity.
  - apply wrap_small, zero_range. lia.
Qed.

Lemma land_1 x : Z.land x 1 = x mod 2.
Proof. apply (Z.land_ones x 1). lia. Qed.

Section Arith.
Context `{SpuHost}.

(** A handler whose whole body is one register assignment. *)
Lemma writes_intro n s op r v P :
  exec n s op = Ret true (set s r v) -> in_range 128 v -> P v -> writes n s op r P.
Proof. intros. exists v. auto. Qed.

Lemma writes_weaken n s op r (P Q : Z -> Prop) :
  (forall v, in_range 128 v -> P v -> Q v) -> writes n s op r P -> writes n s op r Q.
Proof. intros HPQ (v & E & Hr & HP). exists v. auto. Qed.

End Arith.

(** [handler]: reduce [writes] for a one-assignment handler to its lanes. *)
Ltac handler :=
  eapply writes_intro; [reflexivity | v_range; auto using get_range, ref_v128_range |].

Ltac lanes_intro :=
  let i := fresh "i" in let Hi := fresh "Hi" in
  intros i Hi; change (128 / 8) with 16 in Hi; change (128 / 16) with 8 in Hi;
  change (128 / 32) with 4 in Hi; change (128 / 64) with 2 in Hi.

(** A loop handler as one assignment. *)
Ltac handler_loop w :=
  match goal with
  | |- writes ?n ?s ?op ?r _ =>
      eapply writes_intro;
      [ cbn [exec]; match goal with |- ?h _ _ = _ => unfold h end; cbv zeta; f_equal;
        apply (for_up_set_u w) | apply build128_range |]
  end.

(** The reads of a loop body stay in its lane. *)
Ltac loop_reads :=
  let i := fresh "i" in let t := fresh "t" in let Hi := fresh "Hi" in let Hs := fresh "Hs" in
  intros i t Hi Hs; unfold u32_of, s32_of, slane;
  rewrite !Hs by (apply reg_nonneg; auto with spu); reflexivity.

Section Carry.
Context `{SpuHost}.

Lemma A_lanes s op : wf s ->
  writes Name.A s op (rt op) (lanes 32 (fun i => u32 (u32_of s (ra op) i + u32_of s (rb op) i))).
Proof. intros Hwf. handler. lanes_intro. v_unfold. autorewrite with lanes. reflexivity. Qed.

Lemma SF_lanes s op : wf s ->
  writes Name.SF s op (rt op) (lanes 32 (fun i => u32 (u32_of s (rb op) i - u32_of s (ra op) i))).
Proof. intros Hwf. handler. lanes_intro. v_unfold. autorewrite with lanes. reflexivity. Qed.

Lemma CG_lanes s op : wf s ->
  writes Name.CG s op (rt op)
    (lanes 32 (fun i => if 2 ^ 32 <=? u32_of s (ra op) i + u32_of s (rb op) i then 1 else 0)).
Proof.
  intros Hwf. handler. lanes_intro. v_unfold. autorewrite with lanes. fold (u32_of s (ra op) i).
  fold (u32_of s (rb op) i).
  assert (in_range 32 (u32_of s (ra op) i)) as Ha by (apply lane_range; lia).
  assert (in_range 32 (u32_of s (rb op) i)) as Hb by (apply lane_range; lia).
  rewrite (wrap_small 32 0x7fffffff), (wrap_small 32 0x80000000) by (unfold in_range; lia).
  set (x := u32_of s (ra op) i) in *. set (y := u32_of s (rb op) i) in *.
  change 0x80000000 with (2 ^ (32 - 1)). rewrite (sint_flip 32 y) by (auto; lia).
  replace (Z.lxor x 0x7fffffff) with (Z.lxor (Z.lxor x (Z.ones 32)) (2 ^ (32 - 1))).
  2:{ rewrite Z.lxor_assoc. reflexivity. }
  rewrite lxor_ones by (auto; lia). rewrite sint_flip by (unfold in_range in *; lia).
  rewrite wrap_mask by lia. unfold in_range in *.
  destruct (Z.ltb_spec (2 ^ 32 - 1 - x - 2 ^ (32 - 1)) (y - 2 ^ (32 - 1))),
    (Z.leb_spec (2 ^ 32) (x + y)); try lia; reflexivity.
Qed.

Lemma BG_lanes s op : wf s ->
  writes Name.BG s op (rt op)
    (lanes 32 (fun i => if u32_of s (ra op) i <=? u32_of s (rb op) i then 1 else 0)).
Proof.
  intros Hwf. handler. lanes_intro. v_unfold. autorewrite with lanes. unfold u32_of.
  rewrite wrap_mask by lia. set (x := lane 32 i (get s (ra op))). set (y := lane 32 i (get s (rb op))).
  destruct (Z.ltb_spec y x), (Z.leb_spec x y); try lia; reflexivity.
Qed.

Lemma ADDX_lanes s op : wf s ->
  writes Name.ADDX s op (rt op)
    (lanes 32 (fun i => u32 (u32_of s (ra op) i + u32_of s (rb op) i + u32_of s (rt op) i mod 2))).
Proof.
  intros Hwf. handler. lanes_intro. v_unfold. autorewrite with lanes. unfold u32_of.
  change (u32 1) with 1. rewrite land_1, wrap_add_l. reflexivity.
Qed.

Lemma ldiff_1 x : Z.ldiff 1 x = 1 - x mod 2.
Proof.
  rewrite <- land_1. symmetry. rewrite Z.sub_nocarry_ldiff by bits. bits.
Qed.

Lemma SFX_lanes s op : wf s ->
  writes Name.SFX s op (rt op)
    (lanes 32 (fun i => u32 (u32_of s (rb op) i - u32_of s (ra op) i - (1 - u32_of s (rt op) i mod 2)))).
Proof.
  intros Hwf. handler. lanes_intro. unfold gv_andn. v_unfold. autorewrite with lanes. unfold u32_of.
  change (u32 1) with 1. rewrite ldiff_1, wrap_sub_l. reflexivity.
Qed.

Lemma CGX_lanes s op : wf s ->
  writes Name.CGX s op (rt op)
    (lanes 32 (fun i => if 2 ^ 32 <=? u32_of s (ra op) i + u32_of s (rb op) i + u32_of s (rt op) i mod 2
                        then 1 else 0)).
Proof.
  intros Hwf. handler_loop 32; auto with spu; [loop_reads|].
  lanes_intro. autorewrite with lanes. rewrite land_1.
  pose proof (lane_range 32 i (get s (ra op)) ltac:(lia)) as Ha.
  pose proof (lane_range 32 i (get s (rb op)) ltac:(lia)) as Hb.
  unfold u32_of, in_range in *.
  set (x := lane 32 i (get s (ra op))) in *. set (y := lane 32 i (get s (rb op))) in *.
  pose proof (Z.mod_pos_bound (lane 32 i (get s (rt op))) 2 ltac:(lia)).
  set (c := lane 32 i (get s (rt op)) mod 2) in *.
  rewrite (wrap_small 64) by (unfold in_range; lia). rewrite Z.shiftr_div_pow2 by lia.
  rewrite wrap_small.
  - destruct (Z.leb_spec (2 ^ 32) (x + y + c)); symmetry.
    + apply (Z.div_unique _ _ _ (c + x + y - 2 ^ 32)); lia.
    + apply (Z.div_unique _ _ _ (c + x + y)); lia.
  - split; [apply Z.div_pos; lia|]. apply Z.div_lt_upper_bound; lia.
Qed.

Lemma BGX_lanes s op : wf s ->
  writes Name.BGX s op (rt op)
    (lanes 32 (fun i => if u32_of s (ra op) i + (1 - u32_of s (rt op) i mod 2) <=? u32_of s (rb op) i
                        then 1 else 0)).
Proof.
  intros Hwf. handler_loop 32; auto with spu; [loop_reads|].
  lanes_intro. autorewrite with lanes. rewrite land_1.
  pose proof (lane_range 32 i (get s (ra op)) ltac:(lia)) as Ha.
  pose proof (lane_range 32 i (get s (rb op)) ltac:(lia)) as Hb.
  unfold u32_of, in_range in *.
  set (x := lane 32 i (get s (ra op))) in *. set (y := lane 32 i (get s (rb op))) in *.
  pose proof (Z.mod_pos_bound (lane 32 i (get s (rt op))) 2 ltac:(lia)).
  set (c := lane 32 i (get s (rt op)) mod 2) in *.
  rewrite (sint_small 64) by lia.
  destruct (Z.leb_spec 0 (y - x - (1 - c))), (Z.leb_spec (x + (1 - c)) y); try lia; reflexivity.
Qed.

(** The written values of two instructions over the same operands. *)
Definition both (n n' : Name.t) (s : spu_thread) (op : Z) (P : Z -> Z -> Prop) : Prop :=
  writes n s op (rt op) (fun v => writes n' s op (rt op) (fun v' => P v v')).

Lemma both_intro n n' s op f g (P : Z -> Z -> Prop) :
  writes n s op (rt op) f -> writes n' s op (rt op) g ->
  (forall v v', f v -> g v' -> P v v') -> both n n' s op P.
Proof.
  intros Hf Hg HP. eapply writes_weaken; [|exact Hf]. intros v _ Hv. cbv beta.
  eapply writes_weaken; [|exact Hg]. intros v' _ Hv'. cbv beta. auto.
Qed.

(** C3: the word adder and its carry and borrow generators fit together in every
    lane.  With [a], [b] and [t] the lanes of RA, RB and RT:
    [A] + 2^32 [CG] = a + b, [ADDX] + 2^32 [CGX] = a + b + (t & 1),
    [SF] - 2^32 (1 - [BG]) = b - a, and [SFX] - 2^32 (1 - [BGX]) = b - a - (1 - (t & 1));
    a carry or borrow word is 0 or 1.  Each instruction writes RT only. *)
Theorem carry_chain s op :
  wf s ->
  let a := u32_of s (ra op) in
  let b := u32_of s (rb op) in
  let c i := u32_of s (rt op) i mod 2 in
  both Name.A Name.CG s op (fun v v' => forall i, 0 <= i < 4 ->
    0 <= lane 32 i v' <= 1 /\ lane 32 i v + 2 ^ 32 * lane 32 i v' = a i + b i) /\
  both Name.ADDX Name.CGX s op (fun v v' => forall i, 0 <= i < 4 ->
    0 <= lane 32 i v' <= 1 /\ lane 32 i v + 2 ^ 32 * lane 32 i v' = a i + b i + c i) /\
  both Name.SF Name.BG s op (fun v v' => forall i, 0 <= i < 4 ->
    0 <= lane 32 i v' <= 1 /\ lane 32 i v - 2 ^ 32 * (1 - lane 32 i v') = b i - a i) /\
  both Name.SFX Name.BGX s op (fun v v' => forall i, 0 <= i < 4 ->
    0 <= lane 32 i v' <= 1 /\ lane 32 i v - 2 ^ 32 * (1 - lane 32 i v') = b i - a i - (1 - c i)).
Proof.
  intros Hwf a b c.
  assert (forall i, 0 <= a i < 2 ^ 32 /\ 0 <= b i < 2 ^ 32 /\ 0 <= c i < 2) as Hr.
  { intros i. pose proof (lane_range 32 i (get s (ra op)) ltac:(lia)).
    pose proof (lane_range 32 i (get s (rb op)) ltac:(lia)).
    pose proof (Z.mod_pos_bound (u32_of s (rt op) i) 2 ltac:(lia)). unfold in_range in *. auto. }
  pose proof (A_lanes s op Hwf). pose proof (CG_lanes s op Hwf).
  pose proof (ADDX_lanes s op Hwf). pose proof (CGX_lanes s op Hwf).
  pose proof (SF_lanes s op Hwf). pose proof (BG_lanes s op Hwf).
  pose proof (SFX_lanes s op Hwf). pose proof (BGX_lanes s op Hwf).
  repeat split; (eapply both_intro; [eassumption|eassumption|]); intros v v' Hv Hv' i Hi;
    rewrite (Hv i Hi), (Hv' i Hi); specialize (Hr i); fold (a i) (b i) (c i);
    destruct (_ <=? _) eqn:E; rewrite ?Z.leb_le, ?Z.leb_gt in E; (split; [lia|]);
    unfold wrap; Z.div_mod_to_equations; lia.
Qed.

End Carry.

Lemma carry_chain_witness :
  exists v v', @exec Bare.host Name.A Bare.sample Bare.op345 = Ret true (set Bare.sample 5 v) /\
    @exec Bare.host Name.CG Bare.sample Bare.op345 = Ret true (set Bare.sample 5 v') /\
    lane 32 3 v + 2 ^ 32 * lane 32 3 v' = 0xffffffff + 1.
Proof.
  destruct (@carry_chain Bare.host Bare.sample Bare.op345 Bare.sample_wf)
    as [(v & E & _ & v' & E' & _ & Hl) _].
  exists v, v'. split; [exact E|]. split; [exact E'|]. apply (Hl 3). lia.
Defined.

(** ** Halfwords of a word lane *)

Lemma lo16 i x : 0 <= i -> lane 16 (2 * i) x = u16 (lane 32 i x).
Proof. intros. bits. Qed.
Lemma hi16 i x : 0 <= i -> lane 16 (2 * i + 1) x = Z.shiftr (lane 32 i x) 16.
Proof. intros. bits. Qed.

Lemma word_halves i x : 0 <= i -> lane 32 i x = lane 16 (2 * i) x + 2 ^ 16 * lane 16 (2 * i + 1) x.
Proof. intros. apply (lane_double 16); lia. Qed.

Lemma lo16_masked i a : 0 <= i < 4 -> lane 16 (2 * i) (Z.land a (splat 32 0xffff)) = lane 16 (2 * i) a.
Proof.
  intros Hi. rewrite !lo16 by lia. autorewrite with lanes. change (u32 0xffff) with (Z.ones 16). bits.
Qed.
Lemma hi16_masked i a : 0 <= i < 4 -> lane 16 (2 * i + 1) (Z.land a (splat 32 0xffff)) = 0.
Proof.
  intros Hi. rewrite hi16 by lia. autorewrite with lanes. change (u32 0xffff) with (Z.ones 16). bits.
Qed.
Lemma lo16_srli i a : 0 <= i < 4 -> lane 16 (2 * i) (mm_srli 32 a 16) = lane 16 (2 * i + 1) a.
Proof. intros Hi. rewrite lo16, hi16 by lia. autorewrite with lanes. bits. Qed.
Lemma hi16_srli i a : 0 <= i < 4 -> lane 16 (2 * i + 1) (mm_srli 32 a 16) = 0.
Proof. intros Hi. rewrite hi16 by lia. autorewrite with lanes. bits. Qed.
#[export] Hint Rewrite lo16_masked hi16_masked lo16_srli hi16_srli using lia : lanes.

Lemma wrap_mul_sint w x y : 0 < w -> wrap w (sint w x * sint w y) = wrap w (x * y).
Proof.
  intros. rewrite <- wrap_mul_l, <- wrap_mul_r, !wrap_sint by lia.
  rewrite wrap_mul_l, wrap_mul_r. reflexivity.
Qed.

(** The halves of a product, low and high, make it whole. *)
Lemma mulhl_u16 x y : in_range 16 x -> in_range 16 y ->
  u16 (s16 x * s16 y) + 2 ^ 16 * u16 (Z.shiftr (x * y) 16) = x * y.
Proof.
  intros Hx Hy. rewrite wrap_mul_sint by lia.
  unfold in_range in *. assert (0 <= x * y < 2 ^ 32) by nia.
  rewrite Z.shiftr_div_pow2 by lia. unfold wrap. Z.div_mod_to_equations. lia.
Qed.

Lemma mullo_lane i a b : 0 <= i < 4 -> forall j, 0 <= j <= 1 ->
  lane 16 (2 * i + j) (mm_mullo_epi16 a b) = u16 (s16 (lane 16 (2 * i + j) a) * s16 (lane 16 (2 * i + j) b)).
Proof. intros Hi j Hj. unfold mm_mullo_epi16. autorewrite with lanes. reflexivity. Qed.

Section Multiply.
Context `{SpuHost}.

(** Halfwords of RA and RB in word [i]: low ones and high ones. *)
Definition lo (s : spu_thread) (r i : Z) : Z := u16_of s r (2 * i).
Definition hi (s : spu_thread) (r i : Z) : Z := u16_of s r (2 * i + 1).

Lemma lo_range s r i : in_range 16 (lo s r i). Proof. apply lane_range. lia. Qed.
Lemma hi_range s r i : in_range 16 (hi s r i). Proof. apply lane_range. lia. Qed.

Lemma madd_lane i a b : 0 <= i < 4 ->
  lane 32 i (mm_madd_epi16 a b) =
  u32 (s16 (lane 16 (2 * i) a) * s16 (lane 16 (2 * i) b)
       + s16 (lane 16 (2 * i + 1) a) * s16 (lane 16 (2 * i + 1) b)).
Proof. intros Hi. unfold mm_madd_epi16. rewrite lane_build by lia. reflexivity. Qed.

(** A word joined from two halves. *)
Lemma join_low x y :
  Z.lor (u32 (Z.shiftl x 16)) (Z.land y (u32 0xffff)) = u16 y + 2 ^ 16 * u16 x.
Proof.
  rewrite Z.add_comm, (Z.mul_comm (2 ^ 16)), <- lor_shiftl_small.
  - change (u32 0xffff) with (Z.ones 16). bits.
  - lia.
  - apply wrap_range. lia.
  - apply wrap_range. lia.
Qed.
Lemma join_high x y :
  in_range 32 x -> in_range 32 y ->
  Z.lor (Z.shiftr y 16) (Z.land x (u32 0xffff0000)) = Z.shiftr y 16 + 2 ^ 16 * Z.shiftr x 16.
Proof.
  intros Hx Hy. rewrite Z.add_comm, (Z.mul_comm (2 ^ 16)), <- lor_shiftl_small.
  - change (u32 0xffff0000) with (Z.shiftl (Z.ones 16) 16). rewrite Z.lor_comm. f_equal.
    bits. symmetry. apply (testbit_high 32); auto; lia.
  - lia.
  - apply Z.shiftr_nonneg. apply Hx.
  - rewrite Z.shiftr_div_pow2 by lia. unfold in_range in *.
    split; [apply Z.div_pos; lia|apply Z.div_lt_upper_bound; lia].
Qed.

(** Unsigned word products put together from their halves, as MPYU and MPYHHU do. *)
Lemma mpyu_word i a b : 0 <= i < 4 ->
  lane 32 i (mm_or_si128 (mm_slli_epi32 (mm_mulhi_epu16 a b) 16)
               (mm_and_si128 (mm_mullo_epi16 a b) (mm_set1_epi32 0xffff)))
  = lane 16 (2 * i) a * lane 16 (2 * i) b.
Proof.
  intros Hi. rewrite <- mulhl_u16 by (apply lane_range; lia).
  unfold mm_or_si128, mm_and_si128, mm_slli_epi32, mm_set1_epi32. autorewrite with lanes.
  rewrite join_low, <- !lo16 by lia. unfold mm_mullo_epi16, mm_mulhi_epu16.
  autorewrite with lanes. reflexivity.
Qed.
Lemma mpyhhu_word i a b : 0 <= i < 4 ->
  lane 32 i (mm_or_si128 (mm_srli_epi32 (mm_mullo_epi16 a b) 16)
               (mm_and_si128 (mm_mulhi_epu16 a b) (mm_set1_epi32 0xffff0000)))
  = lane 16 (2 * i + 1) a * lane 16 (2 * i + 1) b.
Proof.
  intros Hi. rewrite <- mulhl_u16 by (apply lane_range; lia).
  unfold mm_or_si128, mm_and_si128, mm_srli_epi32, mm_set1_epi32. autorewrite with lanes.
  rewrite join_high, <- !hi16 by (try apply lane_range; lia).
  unfold mm_mullo_epi16, mm_mulhi_epu16. autorewrite with lanes. reflexivity.
Qed.

Lemma MPY_lanes s op : wf s ->
  writes Name.MPY s op (rt op) (lanes 32 (fun i => u32 (s16 (lo s (ra op) i) * s16 (lo s (rb op) i)))).
Proof.
  intros Hwf. handler. lanes_intro. rewrite madd_lane by lia.
  unfold mm_and_si128, mm_set1_epi32. autorewrite with lanes.
  unfold lo, u16_of. f_equal. change (s16 0) with 0. lia.
Qed.
Lemma MPYU_lanes s op : wf s ->
  writes Name.MPYU s op (rt op) (lanes 32 (fun i => lo s (ra op) i * lo s (rb op) i)).
Proof. intros Hwf. handler. lanes_intro. apply mpyu_word. lia. Qed.
Lemma MPYHHU_lanes s op : wf s ->
  writes Name.MPYHHU s op (rt op) (lanes 32 (fun i => hi s (ra op) i * hi s (rb op) i)).
Proof. intros Hwf. handler. lanes_intro. apply mpyhhu_word. lia. Qed.
Lemma MPYHH_lanes s op : wf s ->
  writes Name.MPYHH s op (rt op) (lanes 32 (fun i => u32 (s16 (hi s (ra op) i) * s16 (hi s (rb op) i)))).
Proof.
  intros Hwf. handler. lanes_intro. rewrite madd_lane by lia. unfold mm_srli_epi32.
  autorewrite with lanes. unfold hi, u16_of. f_equal. change (s16 0) with 0. lia.
Qed.
Lemma MPYHHA_lanes s op : wf s ->
  writes Name.MPYHHA s op (rt op) (lanes 32 (fun i =>
    u32 (u32_of s (rt op) i + s16 (hi s (ra op) i) * s16 (hi s (rb op) i)))).
Proof.
  intros Hwf. handler. lanes_intro. unfold mm_add_epi32. autorewrite with lanes.
  rewrite madd_lane by lia. unfold mm_srli_epi32. autorewrite with lanes.
  rewrite wrap_add_r. unfold hi, u16_of, u32_of. f_equal. change (s16 0) with 0. lia.
Qed.
Lemma MPYHHAU_lanes s op : wf s ->
  writes Name.MPYHHAU s op (rt op) (lanes 32 (fun i =>
    u32 (u32_of s (rt op) i + hi s (ra op) i * hi s (rb op) i))).
Proof.
  intros Hwf. handler. lanes_intro. unfold mm_add_epi32. rewrite lane_map2 by lane_side.
  rewrite mpyhhu_word by lia. reflexivity.
Qed.
Lemma MPYA_lanes s op : wf s ->
  writes Name.MPYA s op (rt4 op) (lanes 32 (fun i =>
    u32 (u32_of s (rc op) i + s16 (lo s (ra op) i) * s16 (lo s (rb op) i)))).
Proof.
  intros Hwf. handler. lanes_intro. unfold mm_add_epi32. autorewrite with lanes.
  rewrite madd_lane by lia. unfold mm_and_si128, mm_set1_epi32. autorewrite with lanes.
  rewrite wrap_add_r. unfold lo, u16_of, u32_of. f_equal. change (s16 0) with 0. lia.
Qed.
Lemma shiftl_word x : u32 (Z.shiftl x 16) = u16 x * 2 ^ 16.
Proof.
  rewrite Z.shiftl_mul_pow2 by lia. unfold wrap. change (2 ^ 32) with (2 ^ 16 * 2 ^ 16).
  apply Z.mul_mod_distr_r; lia.
Qed.

(** Up by a half and arithmetically down: the sign extension of the low half. *)
Lemma sext_word x : Z.shiftr (s32 (u32 (Z.shiftl x 16))) 16 = s16 x.
Proof.
  rewrite sint_wrap, Z.shiftl_mul_pow2, Z.shiftr_div_pow2 by lia. unfold sint.
  replace (x * 2 ^ 16 + 2 ^ (32 - 1)) with ((x + 2 ^ (16 - 1)) * 2 ^ 16) by lia.
  change (2 ^ 32) with (2 ^ 16 * 2 ^ 16). rewrite Z.mul_mod_distr_r by lia.
  change (2 ^ (32 - 1)) with (2 ^ (16 - 1) * 2 ^ 16).
  rewrite <- Z.mul_sub_distr_r, Z.div_mul by lia. reflexivity.
Qed.

Lemma MPYH_lanes s op : wf s ->
  writes Name.MPYH s op (rt op) (lanes 32 (fun i => u32 (hi s (ra op) i * lo s (rb op) i * 2 ^ 16))).
Proof.
  intros Hwf. handler. lanes_intro. unfold mm_slli_epi32, mm_srli_epi32. autorewrite with lanes.
  rewrite shiftl_word, <- lo16 by lia. unfold mm_mullo_epi16. autorewrite with lanes.
  rewrite wrap_mul_sint, <- shiftl_word, Z.shiftl_mul_pow2 by lia. reflexivity.
Qed.

(** Arithmetic shifts by the width or more leave the sign. *)
Lemma shiftr_saturate w x n :
  0 < w -> - 2 ^ (w - 1) <= x < 2 ^ (w - 1) -> w <= n -> Z.shiftr x (w - 1) = Z.shiftr x n.
Proof.
  intros Hw Hx Hn. rewrite !Z.shiftr_div_pow2 by lia.
  assert (2 ^ (w - 1) < 2 ^ n) by (apply Z.pow_lt_mono_r; lia).
  destruct (Z.lt_ge_cases x 0).
  - transitivity (-1).
    + symmetry. apply (Z.div_unique _ _ _ (x + 2 ^ (w - 1))); lia.
    + apply (Z.div_unique _ _ _ (x + 2 ^ n)); lia.
  - rewrite !Z.div_small by lia. reflexivity.
Qed.

Lemma srai32_lane a n i : 0 <= i < 4 -> 0 <= n ->
  lane 32 i (mm_srai_epi32 a n) = u32 (Z.shiftr (s32 (lane 32 i a)) n).
Proof.
  intros Hi Hn. unfold mm_srai_epi32. autorewrite with lanes.
  destruct (Z.ltb_spec n 0); [lia|]. cbn [orb]. destruct (Z.leb_spec 32 n); [|reflexivity].
  f_equal. apply (shiftr_saturate 32); auto; [lia|]. apply (sint_range 32). lia.
Qed.

Lemma MPYS_lanes s op : wf s ->
  writes Name.MPYS s op (rt op) (lanes 32 (fun i =>
    u32 (Z.shiftr (s16 (lo s (ra op) i) * s16 (lo s (rb op) i)) 16))).
Proof.
  intros Hwf. handler. lanes_intro. rewrite srai32_lane by lia. unfold mm_slli_epi32.
  autorewrite with lanes. rewrite sext_word, <- (sint_wrap 16), <- lo16 by lia.
  unfold mm_mulhi_epi16. autorewrite with lanes. rewrite sint_wrap by lia. rewrite sint_small; [reflexivity|lia|].
  pose proof (sint_range 16 (lane 16 (2 * i) (get s (ra op))) ltac:(lia)).
  pose proof (sint_range 16 (lane 16 (2 * i) (get s (rb op))) ltac:(lia)).
  rewrite Z.shiftr_div_pow2 by lia.
  split; [apply Z.div_le_lower_bound; nia|apply Z.div_lt_upper_bound; nia].
Qed.

Lemma si10_range op : - 2 ^ 9 <= si10 op < 2 ^ 9.
Proof. unfold si10. rewrite bf.extract_s_sint by lia. apply (sint_range 10). lia. Qed.

Lemma imm_word op : Z.land (si10 op) 0xffff = u16 (si10 op).
Proof. apply (Z.land_ones _ 16). lia. Qed.

Lemma MPYI_lanes s op : wf s ->
  writes Name.MPYI s op (rt op) (lanes 32 (fun i => u32 (s16 (lo s (ra op) i) * si10 op))).
Proof.
  intros Hwf. handler. lanes_intro. rewrite madd_lane, imm_word by lia.
  rewrite (hi16 i (mm_set1_epi32 _)), (lo16 i (mm_set1_epi32 _)) by lia.
  unfold mm_set1_epi32. autorewrite with lanes. pose proof (si10_range op) as Hr.
  pose proof (wrap_range 16 (si10 op) ltac:(lia)) as Hw. unfold in_range in Hw.
  rewrite (wrap_small 32 (u16 (si10 op))) by (unfold in_range; lia).
  rewrite wrap_wrap, sint_wrap, (sint_small 16 (si10 op)) by lia.
  replace (Z.shiftr (u16 (si10 op)) 16) with 0.
  2:{ rewrite Z.shiftr_div_pow2, Z.div_small by lia. reflexivity. }
  unfold lo, u16_of. f_equal. change (s16 0) with 0. lia.
Qed.

Lemma MPYUI_lanes s op : wf s ->
  writes Name.MPYUI s op (rt op) (lanes 32 (fun i => lo s (ra op) i * u16 (si10 op))).
Proof.
  intros Hwf. handler. intros i Hi. change (128 / 32) with 4 in Hi.
  rewrite imm_word. set (c := u16 (si10 op)).
  assert (in_range 16 c) as Hc by (apply wrap_range; lia).
  assert (lane 16 (2 * i) (mm_set1_epi32 c) = c) as Hlo.
  { rewrite lo16 by lia. unfold mm_set1_epi32. autorewrite with lanes. unfold in_range in Hc.
    rewrite !wrap_small by (unfold in_range; try rewrite wrap_small; unfold in_range; lia). reflexivity. }
  assert (lane 16 (2 * i + 1) (mm_set1_epi32 c) = 0) as Hhi.
  { rewrite hi16 by lia. unfold mm_set1_epi32. autorewrite with lanes. unfold in_range in Hc.
    rewrite wrap_small by (unfold in_range; lia).
    rewrite Z.shiftr_div_pow2, Z.div_small by lia. reflexivity. }
  rewrite <- Hlo at 3. unfold lo, u16_of. rewrite <- mpyu_word by lia.
  unfold mm_or_si128, mm_and_si128, mm_slli_epi32. rewrite !lane_lor, lane_land by lia. f_equal.
  rewrite (word_halves i (mm_mullo_epi16 _ _)) by lia.
  assert (lane 16 (2 * i + 1) (mm_mullo_epi16 (get s (ra op)) (mm_set1_epi32 c)) = 0) as ->.
  { unfold mm_mullo_epi16. rewrite lane_map2, Hhi by lane_side. rewrite Z.mul_0_r. reflexivity. }
  unfold mm_set1_epi32 at 2. autorewrite with lanes. change (u32 0xffff) with (Z.ones 16).
  rewrite Z.land_ones, Z.mul_0_r, !Z.add_0_r by lia. symmetry. apply lane_wrap. lia.
Qed.

(** The halfword multiplications compute the products the architecture asks
    for in every word lane, although they are assembled from 16-bit vector
    multiplies: low signed (MPY, MPYI, and MPYA with its addend), low unsigned
    (MPYU, MPYUI), high signed (MPYHH, MPYHHA) and high unsigned (MPYHHU, MPYHHAU),
    the shifted cross product (MPYH) and the sign-extended high part (MPYS). *)
Theorem multiply_family s op :
  wf s ->
  let al := lo s (ra op) in let ah := hi s (ra op) in
  let bl := lo s (rb op) in let bh := hi s (rb op) in
  let t := u32_of s (rt op) in
  writes Name.MPY s op (rt op) (lanes 32 (fun i => u32 (s16 (al i) * s16 (bl i)))) /\
  writes Name.MPYU s op (rt op) (lanes 32 (fun i => al i * bl i)) /\
  writes Name.MPYI s op (rt op) (lanes 32 (fun i => u32 (s16 (al i) * si10 op))) /\
  writes Name.MPYUI s op (rt op) (lanes 32 (fun i => al i * u16 (si10 op))) /\
  writes Name.MPYH s op (rt op) (lanes 32 (fun i => u32 (ah i * bl i * 2 ^ 16))) /\
  writes Name.MPYS s op (rt op) (lanes 32 (fun i => u32 (Z.shiftr (s16 (al i) * s16 (bl i)) 16))) /\
  writes Name.MPYHH s op (rt op) (lanes 32 (fun i => u32 (s16 (ah i) * s16 (bh i)))) /\
  writes Name.MPYHHU s op (rt op) (lanes 32 (fun i => ah i * bh i)) /\
  writes Name.MPYHHA s op (rt op) (lanes 32 (fun i => u32 (t i + s16 (ah i) * s16 (bh i)))) /\
  writes Name.MPYHHAU s op (rt op) (lanes 32 (fun i => u32 (t i + ah i * bh i))) /\
  writes Name.MPYA s op (rt4 op)
    (lanes 32 (fun i => u32 (u32_of s (rc op) i + s16 (al i) * s16 (bl i)))).
Proof.
  intros Hwf. cbv zeta.
  exact (conj (MPY_lanes s op Hwf) (conj (MPYU_lanes s op Hwf) (conj (MPYI_lanes s op Hwf)
    (conj (MPYUI_lanes s op Hwf) (conj (MPYH_lanes s op Hwf) (conj (MPYS_lanes s op Hwf)
    (conj (MPYHH_lanes s op Hwf) (conj (MPYHHU_lanes s op Hwf) (conj (MPYHHA_lanes s op Hwf)
    (conj (MPYHHAU_lanes s op Hwf) (MPYA_lanes s op Hwf))))))))))).
Qed.

Lemma wrap_add3 w p q r : wrap w (wrap w p + wrap w q + r) = wrap w (p + q + r).
Proof.
  rewrite <- Z.add_assoc, wrap_add_l.
  replace (p + (wrap w q + r)) with (wrap w q + (p + r)) by lia.
  rewrite wrap_add_l. f_equal. lia.
Qed.

(** The product of two words from the three cross products. *)
Lemma mul_halves x y :
  in_range 32 x -> in_range 32 y ->
  u32 (x * y) = u32 (u32 (Z.shiftr x 16 * u16 y * 2 ^ 16) + u32 (Z.shiftr y 16 * u16 x * 2 ^ 16)
                     + u16 x * u16 y).
Proof.
  intros Hx Hy. rewrite wrap_add3.
  rewrite !Z.shiftr_div_pow2 by lia. unfold wrap.
  pose proof (Z.div_mod x (2 ^ 16) ltac:(lia)) as Ex. pose proof (Z.div_mod y (2 ^ 16) ltac:(lia)) as Ey.
  set (a := x / 2 ^ 16) in *. set (b := x mod 2 ^ 16) in *.
  set (c := y / 2 ^ 16) in *. set (d := y mod 2 ^ 16) in *.
  clearbody a b c d. rewrite Ex, Ey.
  replace ((2 ^ 16 * a + b) * (2 ^ 16 * c + d))
    with (a * d * 2 ^ 16 + c * b * 2 ^ 16 + b * d + a * c * 2 ^ 32) by ring.
  rewrite Z.mod_add by lia. reflexivity.
Qed.

(** The 32-bit multiplication idiom of SPU code is right: with X = MPYH(a,b),
    Y = MPYH(b,a) and U = MPYU(a,b), the word sum X + Y + U is a * b modulo 2^32 in
    every lane ([op'] is [op] with RA and RB exchanged). *)
Theorem mul32_idiom s op op' :
  wf s -> ra op' = rb op -> rb op' = ra op ->
  writes Name.MPYH s op (rt op) (fun x => writes Name.MPYH s op' (rt op') (fun y =>
  writes Name.MPYU s op (rt op) (fun u => forall i, 0 <= i < 4 ->
    u32 (lane 32 i x + lane 32 i y + lane 32 i u) = u32 (u32_of s (ra op) i * u32_of s (rb op) i)))).
Proof.
  intros Hwf Ea Eb. eapply writes_weaken; [|exact (MPYH_lanes s op Hwf)]. intros x _ Hx.
  eapply writes_weaken; [|exact (MPYH_lanes s op' Hwf)]. intros y _ Hy.
  eapply writes_weaken; [|exact (MPYU_lanes s op Hwf)]. intros u _ Hu i Hi. cbv beta.
  rewrite (Hx i Hi), (Hy i Hi), (Hu i Hi), Ea, Eb. unfold lo, hi, u16_of, u32_of.
  rewrite !lo16, !hi16 by lia. symmetry. apply mul_halves; apply lane_range; lia.
Qed.
End Multiply.

Lemma multiply_family_witness :
  writes (H:=Bare.host) Name.MPY Bare.sample Bare.op345 5
    (lanes 32 (fun i => u32 (s16 (lo Bare.sample 3 i) * s16 (lo Bare.sample 4 i)))).
Proof. exact (proj1 (@multiply_family Bare.host Bare.sample Bare.op345 Bare.sample_wf)). Defined.

(** [op345] with RA and RB exchanged. *)
Definition op354 : Z := 5 + 4 * 2 ^ 7 + 3 * 2 ^ 14.
Lemma mul32_idiom_witness :
  exists x, @exec Bare.host Name.MPYH Bare.sample Bare.op345 = Ret true (set Bare.sample 5 x).
Proof.
  destruct (@mul32_idiom Bare.host Bare.sample Bare.op345 op354 Bare.sample_wf eq_refl eq_refl)
    as (x & E & _). exists x. exact E.
Defined.
