(* ===== verification/SpuElem.v ===== *)
(** * SPU element operations: shifts, rotates, comparisons, counts

    Specifications of the handlers that work on each element of a register on
    its own, register and immediate forms against one arithmetic meaning. *)

From Stdlib Require Import ZArith Lia Bool.
From stdpp Require Import base numbers list gmap.
From S2P Require Import Prelude V128 Bytes BitField SpuOpcodes SpuThread SpuInterp SpuWf SpuArith.
Import spu_opcode_t Interp.

(** ** Shifts and rotates *)

(** The architecture's meaning, on an element of [w] bits: shift counts are taken
    modulo [2w] (larger counts clear the element), rotate counts modulo [w], and
    the "rotate and mask" counts are negated. *)
Definition rot_spec (w x n : Z) : Z := wrap w (x * 2 ^ (n mod w)) + x / 2 ^ (w - n mod w).
Definition shl_spec (w x n : Z) : Z := wrap w (x * 2 ^ (n mod (2 * w))).
Definition rotm_spec (w x n : Z) : Z := x / 2 ^ ((- n) mod (2 * w)).
Definition rotma_spec (w x n : Z) : Z := wrap w (sint w x / 2 ^ ((- n) mod (2 * w))).

Lemma land_mod x n : 0 <= n -> Z.land x (Z.ones n) = x mod 2 ^ n.
Proof. intros. apply Z.land_ones. lia. Qed.

Lemma wrap_mod w x n : 0 <= n <= w -> wrap w x mod 2 ^ n = x mod 2 ^ n.
Proof.
  intros Hn. unfold wrap. replace w with (n + (w - n)) by lia. rewrite Z.pow_add_r by lia.
  pose proof (pow2_pos n ltac:(lia)). pose proof (pow2_pos (w - n) ltac:(lia)).
  rewrite Z.rem_mul_r by lia. rewrite (Z.mul_comm (2 ^ n)), Z.mod_add by lia. apply Z.mod_mod. lia.
Qed.

(** [(0 - x) & (2^n - 1)] in [w]-bit arithmetic, unsigned and signed. *)
Lemma neg_count w x n : 0 <= n <= w -> Z.land (wrap w (0 - x)) (Z.ones n) = (- x) mod 2 ^ n.
Proof. intros Hn. rewrite land_mod, wrap_mod by lia. reflexivity. Qed.
Lemma neg_count_s w x n : 0 <= n <= w -> 0 < w -> Z.land (sint w (0 - x)) (Z.ones n) = (- x) mod 2 ^ n.
Proof.
  intros Hn Hw. rewrite land_mod, <- (wrap_mod w), wrap_sint, wrap_mod by lia. reflexivity.
Qed.

(** A rotation: the two shifted parts do not overlap. *)
Lemma rot_parts w x r :
  0 <= r < w -> in_range w x ->
  Z.lor (wrap w (Z.shiftl x r)) (Z.shiftr x (w - r)) = wrap w (x * 2 ^ r) + x / 2 ^ (w - r).
Proof.
  intros Hr Hx. rewrite <- Z.shiftl_mul_pow2, <- Z.shiftr_div_pow2 by lia.
  assert (Z.land (wrap w (Z.shiftl x r)) (Z.shiftr x (w - r)) = 0) as H0.
  { apply Z.bits_inj'. intros k Hk. autorewrite with bits.
    destruct (Z.ltb_spec k w); cbn; [|reflexivity]. destruct (Z.leb_spec r k); cbn; [|reflexivity].
    rewrite (testbit_high w x (k + (w - r))) by (auto; lia). apply andb_false_r. }
  rewrite Z.add_nocarry_lxor, Z.lxor_lor by exact H0. reflexivity.
Qed.

Lemma rotl_spec w x n : 0 < w -> in_range w x -> rotl w x n = rot_spec w x n.
Proof.
  intros Hw Hx. unfold rotl, rot_spec. apply rot_parts; auto. apply Z.mod_pos_bound. lia.
Qed.

(** The rotation moves bit [k] to bit [k + n] modulo the width. *)
Lemma rot_spec_testbit w x n k :
  0 < w -> in_range w x -> 0 <= k < w ->
  Z.testbit (rot_spec w x n) ((k + n) mod w) = Z.testbit x k.
Proof.
  intros Hw Hx Hk. rewrite <- rotl_spec by auto. unfold rotl.
  pose proof (Z.mod_pos_bound n w Hw) as Hr. rewrite <- Z.add_mod_idemp_r by lia.
  set (r := n mod w) in *. destruct (Z.lt_ge_cases (k + r) w).
  - rewrite Z.mod_small by lia. autorewrite with bits.
    rewrite (testbit_high w x (k + r + (w - r))) by (auto; lia).
    repeat bits_case. cbn. rewrite orb_false_r. f_equal. lia.
  - replace ((k + r) mod w) with (k + r - w) by (apply (Z.mod_unique _ _ 1); lia).
    autorewrite with bits. repeat bits_case. cbn. f_equal. lia.
Qed.

Lemma rot_spec_range w x n : 0 < w -> in_range w x -> in_range w (rot_spec w x n).
Proof.
  intros Hw Hx. rewrite <- rotl_spec by auto. unfold rotl.
  pose proof (Z.mod_pos_bound n w Hw).
  apply lor_range; [lia|apply wrap_range; lia|]. apply shiftr_range; auto; lia.
Qed.

Lemma rotm_spec_range w x n : 0 < w -> in_range w x -> in_range w (rotm_spec w x n).
Proof.
  intros Hw Hx. unfold rotm_spec. pose proof (Z.mod_pos_bound (- n) (2 * w) ltac:(lia)).
  rewrite <- Z.shiftr_div_pow2 by lia. apply shiftr_range; auto; lia.
Qed.

(** Immediate rotation by two vector shifts. *)
Lemma rot_imm w `{HW : LaneWidth w} a n i :
  0 <= i < Z.of_nat (nlanes w) -> 0 <= n < w ->
  lane w i (Z.lor (mm_slli w a n) (mm_srli w a (w - n))) = rot_spec w (lane w i a) n.
Proof.
  intros Hi Hn. pose proof (width_pos (w:=w)). rewrite lane_lor, lane_slli, lane_srli by (auto; lia).
  unfold rot_spec. rewrite (Z.mod_small n) by lia. apply rot_parts; auto. apply lane_range. lia.
Qed.

Lemma srai16_lane a n i : 0 <= i < 8 -> 0 <= n ->
  lane 16 i (mm_srai_epi16 a n) = u16 (Z.shiftr (s16 (lane 16 i a)) n).
Proof.
  intros Hi Hn. unfold mm_srai_epi16. autorewrite with lanes.
  destruct (Z.ltb_spec n 0); [lia|]. cbn [orb]. destruct (Z.leb_spec 16 n); [|reflexivity].
  f_equal. apply (shiftr_saturate 16); auto; [lia|]. apply (sint_range 16). lia.
Qed.

Section Shifts.
Context `{SpuHost}.
Context (s : spu_thread) (op : Z) (Hwf : wf s).

(** What a shift instruction leaves in RT: [f] of the element of RA and the count,
    the element of RB or the immediate. *)
Definition reg_form (n : Name.t) (w : Z) (f : Z -> Z -> Z) : Prop :=
  writes n s op (rt op)
    (lanes w (fun i => f (lane w i (get s (ra op))) (lane w i (get s (rb op))))).
Definition imm_form (n : Name.t) (w : Z) (f : Z -> Z -> Z) : Prop :=
  writes n s op (rt op) (lanes w (fun i => f (lane w i (get s (ra op))) (i7 op))).

Ltac reg_shift w :=
  unfold reg_form; handler_loop w; auto with spu; lanes_intro; autorewrite with lanes.

Lemma ROT_lanes : reg_form Name.ROT 32 (rot_spec 32).
Proof.
  reg_shift 32. rewrite rotl_spec by (try apply lane_range; lia).
  apply wrap_small, rot_spec_range; [lia|apply lane_range; lia].
Qed.
Lemma ROTH_lanes : reg_form Name.ROTH 16 (rot_spec 16).
Proof.
  reg_shift 16. rewrite rotl_spec by (try apply lane_range; lia).
  apply wrap_small, rot_spec_range; [lia|apply lane_range; lia].
Qed.
Lemma ROTM_lanes : reg_form Name.ROTM 32 (rotm_spec 32).
Proof.
  reg_shift 32. change 0x3f with (Z.ones 6). rewrite neg_count, Z.shiftr_div_pow2 by (try apply Z.mod_pos_bound; lia).
  apply (wrap_small 32), (rotm_spec_range 32); [lia|apply lane_range; lia].
Qed.
Lemma ROTHM_lanes : reg_form Name.ROTHM 16 (rotm_spec 16).
Proof.
  reg_shift 16. change 0x1f with (Z.ones 5). rewrite neg_count_s, Z.shiftr_div_pow2 by (try apply Z.mod_pos_bound; lia).
  apply (wrap_small 16), (rotm_spec_range 16); [lia|apply lane_range; lia].
Qed.
Lemma ROTMA_lanes : reg_form Name.ROTMA 32 (rotma_spec 32).
Proof.
  reg_shift 32. change 0x3f with (Z.ones 6). rewrite neg_count, Z.shiftr_div_pow2 by (try apply Z.mod_pos_bound; lia).
  reflexivity.
Qed.
Lemma ROTMAH_lanes : reg_form Name.ROTMAH 16 (rotma_spec 16).
Proof.
  reg_shift 16. change 0x1f with (Z.ones 5). rewrite neg_count_s, Z.shiftr_div_pow2 by (try apply Z.mod_pos_bound; lia).
  reflexivity.
Qed.
Lemma SHL_lanes : reg_form Name.SHL 32 (shl_spec 32).
Proof.
  reg_shift 32. change 0x3f with (Z.ones 6). rewrite land_mod, Z.shiftl_mul_pow2 by (try apply Z.mod_pos_bound; lia).
  unfold wrap at 1. rewrite wrap_mod by lia. reflexivity.
Qed.
Lemma SHLH_lanes : reg_form Name.SHLH 16 (shl_spec 16).
Proof.
  reg_shift 16. change 0x1f with (Z.ones 5). rewrite land_mod, Z.shiftl_mul_pow2 by (try apply Z.mod_pos_bound; lia).
  unfold wrap at 1. rewrite wrap_mod by lia. reflexivity.
Qed.

Lemma ROTI_lanes : imm_form Name.ROTI 32 (rot_spec 32).
Proof.
  unfold imm_form. handler. lanes_intro. change 0x1f with (Z.ones 5). rewrite land_mod by lia. change (2 ^ 5) with 32.
  pose proof (Z.mod_pos_bound (i7 op) 32 ltac:(lia)).
  etransitivity; [apply (rot_imm 32); lane_side|]. unfold rot_spec. rewrite Z.mod_mod by lia. reflexivity.
Qed.
Lemma ROTHI_lanes : imm_form Name.ROTHI 16 (rot_spec 16).
Proof.
  unfold imm_form. handler. lanes_intro. change 0xf with (Z.ones 4). rewrite land_mod by lia. change (2 ^ 4) with 16.
  pose proof (Z.mod_pos_bound (i7 op) 16 ltac:(lia)).
  etransitivity; [apply (rot_imm 16); lane_side|]. unfold rot_spec. rewrite Z.mod_mod by lia. reflexivity.
Qed.
Lemma ROTMI_lanes : imm_form Name.ROTMI 32 (rotm_spec 32).
Proof.
  unfold imm_form. handler. lanes_intro. change 0x3f with (Z.ones 6). rewrite neg_count by lia. change (2 ^ 6) with 64.
  pose proof (Z.mod_pos_bound (- i7 op) 64 ltac:(lia)). unfold mm_srli_epi32.
  rewrite lane_srli, Z.shiftr_div_pow2 by lane_side. reflexivity.
Qed.
Lemma ROTHMI_lanes : imm_form Name.ROTHMI 16 (rotm_spec 16).
Proof.
  unfold imm_form. handler. lanes_intro. change 0x1f with (Z.ones 5). rewrite neg_count by lia. change (2 ^ 5) with 32.
  pose proof (Z.mod_pos_bound (- i7 op) 32 ltac:(lia)). unfold mm_srli_epi16.
  rewrite lane_srli, Z.shiftr_div_pow2 by lane_side. reflexivity.
Qed.
Lemma ROTMAI_lanes : imm_form Name.ROTMAI 32 (rotma_spec 32).
Proof.
  unfold imm_form. handler. lanes_intro. change 0x3f with (Z.ones 6). rewrite neg_count by lia. change (2 ^ 6) with 64.
  pose proof (Z.mod_pos_bound (- i7 op) 64 ltac:(lia)).
  rewrite srai32_lane, Z.shiftr_div_pow2 by lia. reflexivity.
Qed.
Lemma ROTMAHI_lanes : imm_form Name.ROTMAHI 16 (rotma_spec 16).
Proof.
  unfold imm_form. handler. lanes_intro. change 0x1f with (Z.ones 5). rewrite neg_count by lia. change (2 ^ 5) with 32.
  pose proof (Z.mod_pos_bound (- i7 op) 32 ltac:(lia)).
  rewrite srai16_lane, Z.shiftr_div_pow2 by lia. reflexivity.
Qed.
Lemma SHLI_lanes : imm_form Name.SHLI 32 (shl_spec 32).
Proof.
  unfold imm_form. handler. lanes_intro. change 0x3f with (Z.ones 6). rewrite land_mod by lia. change (2 ^ 6) with 64.
  pose proof (Z.mod_pos_bound (i7 op) 64 ltac:(lia)). unfold mm_slli_epi32.
  rewrite lane_slli, Z.shiftl_mul_pow2 by lane_side. reflexivity.
Qed.
Lemma SHLHI_lanes : imm_form Name.SHLHI 16 (shl_spec 16).
Proof.
  unfold imm_form. handler. lanes_intro. change 0x1f with (Z.ones 5). rewrite land_mod by lia. change (2 ^ 5) with 32.
  pose proof (Z.mod_pos_bound (i7 op) 32 ltac:(lia)). unfold mm_slli_epi16.
  rewrite lane_slli, Z.shiftl_mul_pow2 by lane_side. reflexivity.
Qed.

(** The sixteen element shifts and rotates, register and immediate forms, of
    words and halfwords, compute the architecture's functions: rotation, left shift
    with the count modulo twice the width, logical and arithmetic right shift by the
    negated count, with counts of the width or more clearing the element (or leaving
    its sign).  A rotation moves bit k to bit k + n modulo the width. *)
Theorem element_shifts :
  (reg_form Name.ROT 32 (rot_spec 32) /\ imm_form Name.ROTI 32 (rot_spec 32) /\
   reg_form Name.ROTH 16 (rot_spec 16) /\ imm_form Name.ROTHI 16 (rot_spec 16)) /\
  (reg_form Name.SHL 32 (shl_spec 32) /\ imm_form Name.SHLI 32 (shl_spec 32) /\
   reg_form Name.SHLH 16 (shl_spec 16) /\ imm_form Name.SHLHI 16 (shl_spec 16)) /\
  (reg_form Name.ROTM 32 (rotm_spec 32) /\ imm_form Name.ROTMI 32 (rotm_spec 32) /\
   reg_form Name.ROTHM 16 (rotm_spec 16) /\ imm_form Name.ROTHMI 16 (rotm_spec 16)) /\
  (reg_form Name.ROTMA 32 (rotma_spec 32) /\ imm_form Name.ROTMAI 32 (rotma_spec 32) /\
   reg_form Name.ROTMAH 16 (rotma_spec 16) /\ imm_form Name.ROTMAHI 16 (rotma_spec 16)) /\
  (forall w x n k, 0 < w -> in_range w x -> 0 <= k < w ->
   Z.testbit (rot_spec w x n) ((k + n) mod w) = Z.testbit x k).
Proof.
  exact (conj (conj ROT_lanes (conj ROTI_lanes (conj ROTH_lanes ROTHI_lanes)))
        (conj (conj SHL_lanes (conj SHLI_lanes (conj SHLH_lanes SHLHI_lanes)))
        (conj (conj ROTM_lanes (conj ROTMI_lanes (conj ROTHM_lanes ROTHMI_lanes)))
        (conj (conj ROTMA_lanes (conj ROTMAI_lanes (conj ROTMAH_lanes ROTMAHI_lanes)))
              rot_spec_testbit)))).
Qed.
End Shifts.

Lemma element_shifts_witness :
  @reg_form Bare.host Bare.sample Bare.op345 Name.ROT 32 (rot_spec 32).
Proof.
  exact (proj1 (proj1 (@element_shifts Bare.host Bare.sample Bare.op345 Bare.sample_wf))).
Defined.

(** ** Comparisons *)

Section Compare.
Context `{SpuHost}.
Context (s : spu_thread) (op : Z).

(** All ones where [P] holds of the elements of RA and RB, zero elsewhere. *)
Definition compares (n : Name.t) (w : Z) (P : Z -> Z -> bool) : Prop :=
  writes n s op (rt op) (lanes w (fun i =>
    if P (lane w i (get s (ra op))) (lane w i (get s (rb op))) then Z.ones w else 0)).
(** The same against an immediate. *)
Definition compares_imm (n : Name.t) (w c : Z) (P : Z -> Z -> bool) : Prop :=
  writes n s op (rt op) (lanes w (fun i =>
    if P (lane w i (get s (ra op))) c then Z.ones w else 0)).

(** Signed greater-than on unsigned representations. *)
Definition sgt (w x y : Z) : bool := sint w y <? sint w x.
Definition ugt (x y : Z) : bool := y <? x.

Ltac compare_reg w :=
  unfold compares; handler; lanes_intro; v_unfold; autorewrite with lanes;
  apply wrap_mask; lia.

Lemma CGT_lanes : compares Name.CGT 32 (sgt 32). Proof. compare_reg 32. Qed.
Lemma CGTH_lanes : compares Name.CGTH 16 (sgt 16). Proof. compare_reg 16. Qed.
Lemma CGTB_lanes : compares Name.CGTB 8 (sgt 8). Proof. compare_reg 8. Qed.
Lemma CLGT_lanes : compares Name.CLGT 32 ugt. Proof. compare_reg 32. Qed.
Lemma CLGTH_lanes : compares Name.CLGTH 16 ugt. Proof. compare_reg 16. Qed.
Lemma CLGTB_lanes : compares Name.CLGTB 8 ugt. Proof. compare_reg 8. Qed.
Lemma CEQ_lanes : compares Name.CEQ 32 Z.eqb. Proof. compare_reg 32. Qed.
Lemma CEQH_lanes : compares Name.CEQH 16 Z.eqb. Proof. compare_reg 16. Qed.
Lemma CEQB_lanes : compares Name.CEQB 8 Z.eqb. Proof. compare_reg 8. Qed.

Ltac compare_imm w :=
  unfold compares_imm; handler; lanes_intro; v_unfold; autorewrite with lanes;
  apply wrap_mask; lia.

Lemma CGTI_lanes : compares_imm Name.CGTI 32 (u32 (si10 op)) (sgt 32). Proof. compare_imm 32. Qed.
Lemma CGTHI_lanes : compares_imm Name.CGTHI 16 (u16 (si10 op)) (sgt 16). Proof. compare_imm 16. Qed.
Lemma CGTBI_lanes : compares_imm Name.CGTBI 8 (u8 (i8 op)) (sgt 8). Proof. compare_imm 8. Qed.
Lemma CEQI_lanes : compares_imm Name.CEQI 32 (u32 (si10 op)) Z.eqb. Proof. compare_imm 32. Qed.
Lemma CEQHI_lanes : compares_imm Name.CEQHI 16 (u16 (si10 op)) Z.eqb. Proof. compare_imm 16. Qed.
Lemma CEQBI_lanes : compares_imm Name.CEQBI 8 (u8 (i8 op)) Z.eqb. Proof. compare_imm 8. Qed.

(** Both sides biased by half the range. *)
Lemma biased_gt w x y :
  0 < w -> in_range w x ->
  (sint w (wrap w (Z.lxor y (2 ^ (w - 1)))) <? sint w (Z.lxor x (2 ^ (w - 1)))) = ugt x (wrap w y).
Proof.
  intros Hw Hx.
  assert (wrap w (Z.lxor y (2 ^ (w - 1))) = Z.lxor (wrap w y) (2 ^ (w - 1))) as ->.
  { apply Z.bits_inj'. intros k Hk. rewrite Z.lxor_spec, !testbit_wrap, Z.lxor_spec by lia.
    rewrite Z.pow2_bits_eqb by lia. destruct (Z.ltb_spec k w), (Z.eqb_spec (w - 1) k); auto; lia. }
  rewrite !sint_flip by (auto; apply wrap_range; lia). unfold ugt.
  destruct (Z.ltb_spec (wrap w y - 2 ^ (w - 1)) (x - 2 ^ (w - 1))), (Z.ltb_spec (wrap w y) x); auto; lia.
Qed.

Lemma CLGTI_lanes : compares_imm Name.CLGTI 32 (u32 (si10 op)) ugt.
Proof.
  unfold compares_imm; handler. lanes_intro. v_unfold. autorewrite with lanes.
  change (u32 0x80000000) with (2 ^ (32 - 1)). change 0x80000000 with (2 ^ (32 - 1)).
  rewrite (biased_gt 32), wrap_wrap by (try apply lane_range; lia). apply wrap_mask. lia.
Qed.
Lemma bias16 i : 0 <= i < 8 -> lane 16 i (splat 32 0x80008000) = 2 ^ (16 - 1).
Proof.
  intros Hi. assert (splat 32 0x80008000 = splat 16 0x8000) as -> by (vm_compute; reflexivity).
  autorewrite with lanes. reflexivity.
Qed.
Lemma bias8 i : 0 <= i < 16 -> lane 8 i (splat 32 0x80808080) = 2 ^ (8 - 1).
Proof.
  intros Hi. assert (splat 32 0x80808080 = splat 8 0x80) as -> by (vm_compute; reflexivity).
  autorewrite with lanes. reflexivity.
Qed.
Lemma CLGTHI_lanes : compares_imm Name.CLGTHI 16 (u16 (si10 op)) ugt.
Proof.
  unfold compares_imm; handler. lanes_intro. v_unfold. autorewrite with lanes.
  rewrite bias16 by lia. change 0x8000 with (2 ^ (16 - 1)).
  rewrite (biased_gt 16) by (try apply lane_range; lia). apply wrap_mask. lia.
Qed.
Lemma CLGTBI_lanes : compares_imm Name.CLGTBI 8 (u8 (i8 op)) ugt.
Proof.
  unfold compares_imm; handler. lanes_intro. v_unfold. autorewrite with lanes.
  rewrite bias8 by lia. change 0x80 with (2 ^ (8 - 1)).
  rewrite (biased_gt 8) by (try apply lane_range; lia). apply wrap_mask. lia.
Qed.

(** The eighteen integer comparisons.  Signed, unsigned ("logical") and equality,
    on words, halfwords and bytes, against RB or the sign-extended immediate: every
    element of RT becomes all ones where the comparison holds and zero elsewhere.
    The unsigned immediate forms get there by flipping the sign bits of both sides. *)
Theorem comparisons :
  (compares Name.CGT 32 (sgt 32) /\ compares Name.CGTH 16 (sgt 16) /\ compares Name.CGTB 8 (sgt 8)) /\
  (compares Name.CLGT 32 ugt /\ compares Name.CLGTH 16 ugt /\ compares Name.CLGTB 8 ugt) /\
  (compares Name.CEQ 32 Z.eqb /\ compares Name.CEQH 16 Z.eqb /\ compares Name.CEQB 8 Z.eqb) /\
  (compares_imm Name.CGTI 32 (u32 (si10 op)) (sgt 32) /\
   compares_imm Name.CGTHI 16 (u16 (si10 op)) (sgt 16) /\
   compares_imm Name.CGTBI 8 (u8 (i8 op)) (sgt 8)) /\
  (compares_imm Name.CLGTI 32 (u32 (si10 op)) ugt /\
   compares_imm Name.CLGTHI 16 (u16 (si10 op)) ugt /\
   compares_imm Name.CLGTBI 8 (u8 (i8 op)) ugt) /\
  (compares_imm Name.CEQI 32 (u32 (si10 op)) Z.eqb /\
   compares_imm Name.CEQHI 16 (u16 (si10 op)) Z.eqb /\
   compares_imm Name.CEQBI 8 (u8 (i8 op)) Z.eqb).
Proof.
  exact (conj (conj CGT_lanes (conj CGTH_lanes CGTB_lanes))
        (conj (conj CLGT_lanes (conj CLGTH_lanes CLGTB_lanes))
        (conj (conj CEQ_lanes (conj CEQH_lanes CEQB_lanes))
        (conj (conj CGTI_lanes (conj CGTHI_lanes CGTBI_lanes))
        (conj (conj CLGTI_lanes (conj CLGTHI_lanes CLGTBI_lanes))
              (conj CEQI_lanes (conj CEQHI_lanes CEQBI_lanes))))))).
Qed.
End Compare.

(** ** Bytes, counts and extensions *)

(** Number of one bits among the low [n]. *)
Fixpoint popcount (n : nat) (x : Z) : Z :=
  match n with
  | O => 0
  | S n => popcount n x + Z.b2z (Z.testbit x (Z.of_nat n))
  end.

(** One step of the parallel count on a byte. *)
Definition cnt_step (k m x : Z) : Z := u8 (Z.land (Z.shiftr x k) m + Z.land x m).

(** All bytes satisfy a decidable property if the 256 of them do. *)
Definition all_bytes (f : Z -> bool) : bool := forallb (fun n => f (Z.of_nat n)) (List.seq 0 256).
Lemma all_bytes_spec f x : all_bytes f = true -> in_range 8 x -> f x = true.
Proof.
  intros Hf Hx. unfold all_bytes in Hf. rewrite forallb_forall in Hf.
  replace x with (Z.of_nat (Z.to_nat x)) by (unfold in_range in Hx; lia). apply Hf.
  apply in_seq. unfold in_range in Hx. lia.
Qed.

Lemma cnt_byte x :
  in_range 8 x -> cnt_step 4 0x0f (cnt_step 2 0x33 (cnt_step 1 0x55 x)) = popcount 8 x.
Proof.
  intros Hx. apply Z.eqb_eq.
  apply (all_bytes_spec (fun x => cnt_step 4 0x0f (cnt_step 2 0x33 (cnt_step 1 0x55 x)) =? popcount 8 x));
    [vm_compute; reflexivity|exact Hx].
Qed.

(** The bits a 64-bit shift brings in from the next byte are masked away. *)
Lemma cnt_mask a k m i :
  0 <= i < 16 -> 0 <= k <= 8 -> in_range (8 - k) m ->
  Z.land (lane 8 i (mm_srli 64 a k)) m = Z.land (Z.shiftr (lane 8 i a) k) m.
Proof.
  intros Hi Hk Hm.
  assert (0 <= i / 8 < 2) by (split; [apply Z.div_pos; lia|apply Z.div_lt_upper_bound; lia]).
  pose proof (Z.div_mod i 8 ltac:(lia)). pose proof (Z.mod_pos_bound i 8 ltac:(lia)).
  assert (forall x, lane 8 i x = lane 8 (i mod 8) (lane 64 (i / 8) x)) as Hl.
  { intros x. rewrite (lane_lane 8 8) by lia. f_equal. lia. }
  rewrite !Hl. rewrite lane_srli by lane_side. set (x := lane 64 (i / 8) a). clearbody x.
  apply Z.bits_inj'. intros j Hj. autorewrite with bits.
  destruct (Z.lt_ge_cases j (8 - k)) as [Hlt|Hge].
  - destruct (Z.ltb_spec j 8), (Z.ltb_spec (j + k) 8); try lia. cbn.
    replace (j + 8 * (i mod 8) + k) with (j + k + 8 * (i mod 8)) by lia. reflexivity.
  - rewrite (testbit_high (8 - k) m) by (auto; lia). rewrite !andb_false_r. reflexivity.
Qed.

Lemma cnt_step_lane a k m i :
  0 <= i < 16 -> 0 <= k <= 8 -> in_range (8 - k) m ->
  lane 8 i (mm_add_epi8 (mm_and_si128 (mm_srli_epi64 a k) (mm_set1_epi8 m)) (mm_and_si128 a (mm_set1_epi8 m)))
  = cnt_step k m (lane 8 i a).
Proof.
  intros Hi Hk Hm. unfold mm_add_epi8, mm_and_si128, mm_srli_epi64, mm_set1_epi8, cnt_step.
  rewrite lane_map2, !lane_land, lane_splat by lane_side.
  rewrite (wrap_small 8 m).
  - rewrite cnt_mask by auto with lia. reflexivity.
  - unfold in_range in *. assert (2 ^ (8 - k) <= 2 ^ 8) by (apply Z.pow_le_mono_r; lia). lia.
Qed.

Section Bytes.
Context `{SpuHost}.

Lemma CNTB_lanes s op :
  writes Name.CNTB s op (rt op) (lanes 8 (fun i => popcount 8 (lane 8 i (get s (ra op))))).
Proof.
  handler. lanes_intro. rewrite !cnt_step_lane by (unfold in_range; lia). apply cnt_byte, lane_range. lia.
Qed.

Lemma AVGB_lanes s op :
  writes Name.AVGB s op (rt op)
    (lanes 8 (fun i => (lane 8 i (get s (ra op)) + lane 8 i (get s (rb op)) + 1) / 2)).
Proof.
  handler. lanes_intro. v_unfold. autorewrite with lanes.
  pose proof (lane_range 8 i (get s (ra op)) ltac:(lia)). pose proof (lane_range 8 i (get s (rb op)) ltac:(lia)).
  unfold in_range in *. rewrite Z.shiftr_div_pow2 by lia. change (2 ^ 1) with 2.
  apply wrap_small. unfold in_range. Z.div_mod_to_equations. lia.
Qed.

Lemma ABSDB_lanes s op :
  writes Name.ABSDB s op (rt op)
    (lanes 8 (fun i => Z.abs (lane 8 i (get s (ra op)) - lane 8 i (get s (rb op))))).
Proof.
  handler. lanes_intro. v_unfold. autorewrite with lanes.
  pose proof (lane_range 8 i (get s (ra op)) ltac:(lia)). pose proof (lane_range 8 i (get s (rb op)) ltac:(lia)).
  unfold in_range in *. rewrite !(wrap_small 8) by (unfold in_range; rewrite ?(wrap_small 8) by (unfold in_range; lia); lia).
  lia.
Qed.

(** Leading zeros: [2^(31-c) <= x < 2^(32-c)]. *)
Definition clz_spec (x c : Z) : Prop :=
  (x = 0 /\ c = 32) \/ (0 < x /\ 0 <= c < 32 /\ 2 ^ (31 - c) <= x < 2 ^ (32 - c)).

Lemma countl_zero_spec x : in_range 32 x -> clz_spec x (countl_zero 32 x).
Proof.
  intros Hx. unfold countl_zero, clz_spec, in_range in *.
  destruct (Z.eqb_spec x 0) as [->|]; [left; auto|right].
  assert (0 < x) by lia. pose proof (Z.log2_spec x ltac:(lia)). pose proof (Z.log2_nonneg x).
  assert (Z.log2 x < 32) by (apply Z.log2_lt_pow2; lia).
  split; [lia|]. split; [lia|]. replace (31 - (32 - 1 - Z.log2 x)) with (Z.log2 x) by lia.
  replace (32 - (32 - 1 - Z.log2 x)) with (Z.succ (Z.log2 x)) by lia. lia.
Qed.

Lemma CLZ_lanes s op : wf s ->
  writes Name.CLZ s op (rt op)
    (fun v => forall i, 0 <= i < 4 -> clz_spec (u32_of s (ra op) i) (lane 32 i v)).
Proof.
  intros Hwf. handler_loop 32; auto with spu; [loop_reads|].
  intros i Hi. autorewrite with lanes.
  pose proof (countl_zero_spec (u32_of s (ra op) i) (lane_range 32 i _ ltac:(lia))) as Hc.
  rewrite wrap_small; [exact Hc|]. unfold clz_spec, in_range in *. lia.
Qed.

(** Halfwords of the word-wise masks and shifts of SUMB. *)
Lemma lo16_notmasked i a : 0 <= i < 4 -> lane 16 (2 * i) (Z.ldiff a (splat 32 0xffff)) = 0.
Proof.
  intros Hi. rewrite !lo16 by lia. autorewrite with lanes. change (u32 0xffff) with (Z.ones 16). bits.
Qed.
Lemma hi16_notmasked i a :
  0 <= i < 4 -> lane 16 (2 * i + 1) (Z.ldiff a (splat 32 0xffff)) = lane 16 (2 * i + 1) a.
Proof.
  intros Hi. rewrite !hi16 by lia. autorewrite with lanes. change (u32 0xffff) with (Z.ones 16). bits.
Qed.
Lemma lo16_slli i a : 0 <= i < 4 -> lane 16 (2 * i) (mm_slli 32 a 16) = 0.
Proof. intros Hi. rewrite !lo16 by lia. autorewrite with lanes. bits. Qed.
Lemma hi16_slli i a : 0 <= i < 4 -> lane 16 (2 * i + 1) (mm_slli 32 a 16) = lane 16 (2 * i) a.
Proof. intros Hi. rewrite hi16, lo16 by lia. autorewrite with lanes. bits. Qed.

(** Sum of the two bytes of a halfword, of the four bytes of a word. *)
Definition sum2 (h x : Z) : Z := lane 8 (2 * h) x + lane 8 (2 * h + 1) x.
Definition sum4 (i x : Z) : Z := sum2 (2 * i) x + sum2 (2 * i + 1) x.

Lemma sum2_range h x : 0 <= sum2 h x <= 510.
Proof.
  unfold sum2. pose proof (lane_range 8 (2 * h) x ltac:(lia)).
  pose proof (lane_range 8 (2 * h + 1) x ltac:(lia)). unfold in_range in *. lia.
Qed.

Lemma sum2_lane h a :
  0 <= h < 8 ->
  lane 16 h (mm_add_epi16 (mm_srli_epi16 a 8) (mm_and_si128 a (mm_set1_epi16 0xff))) = sum2 h a.
Proof.
  intros Hh. unfold mm_add_epi16, mm_srli_epi16, mm_and_si128, mm_set1_epi16.
  autorewrite with lanes. change (u16 0xff) with (Z.ones 8). unfold sum2.
  replace (Z.land (lane 16 h a) (Z.ones 8)) with (lane 8 (2 * h) a) by bits.
  replace (Z.shiftr (lane 16 h a) 8) with (lane 8 (2 * h + 1) a) by bits.
  pose proof (sum2_range h a) as Hr. unfold sum2 in Hr.
  rewrite wrap_small by (unfold in_range; lia). lia.
Qed.

Lemma SUMB_lanes s op :
  writes Name.SUMB s op (rt op) (lanes 32 (fun i => sum4 i (get s (ra op)) + 2 ^ 16 * sum4 i (get s (rb op)))).
Proof.
  handler. lanes_intro. rewrite word_halves by lia.
  set (a := get s (ra op)). set (b := get s (rb op)).
  set (sa := mm_add_epi16 (mm_srli_epi16 a 8) _). set (sb := mm_add_epi16 (mm_srli_epi16 b 8) _).
  assert (forall h, 0 <= h < 8 -> lane 16 h sa = sum2 h a) as Ha by (intros; apply sum2_lane; auto).
  assert (forall h, 0 <= h < 8 -> lane 16 h sb = sum2 h b) as Hb by (intros; apply sum2_lane; auto).
  clearbody sa sb.
  unfold mm_or_si128, mm_add_epi16, mm_and_si128, mm_andnot_si128, mm_srli_epi32, mm_slli_epi32, mm_set1_epi32.
  rewrite !lane_lor, !lane_map2 by lane_side.
  rewrite lo16_masked, hi16_masked, lo16_srli, hi16_srli, lo16_notmasked, hi16_notmasked, lo16_slli,
    hi16_slli by lia.
  rewrite !Ha, !Hb by lia. unfold sum4.
  pose proof (sum2_range (2 * i) a). pose proof (sum2_range (2 * i + 1) a).
  pose proof (sum2_range (2 * i) b). pose proof (sum2_range (2 * i + 1) b).
  rewrite !(wrap_small 16) by (unfold in_range; lia). rewrite Z.lor_0_r, Z.lor_0_l. lia.
Qed.

(** Sign extension of the low half of each element. *)
Lemma XSHW_lanes s op :
  writes Name.XSHW s op (rt op) (lanes 32 (fun i => u32 (slane 16 (2 * i) (get s (ra op))))).
Proof.
  handler. lanes_intro. rewrite srai32_lane by lia. unfold mm_slli_epi32. autorewrite with lanes.
  rewrite sext_word. unfold slane. rewrite lo16, sint_wrap by lia. reflexivity.
Qed.

Lemma sext_half x : Z.shiftr (s16 (u16 (Z.shiftl x 8))) 8 = s8 x.
Proof.
  rewrite sint_wrap, Z.shiftl_mul_pow2, Z.shiftr_div_pow2 by lia. unfold sint.
  replace (x * 2 ^ 8 + 2 ^ (16 - 1)) with ((x + 2 ^ (8 - 1)) * 2 ^ 8) by lia.
  change (2 ^ 16) with (2 ^ 8 * 2 ^ 8). rewrite Z.mul_mod_distr_r by lia.
  change (2 ^ (16 - 1)) with (2 ^ (8 - 1) * 2 ^ 8).
  rewrite <- Z.mul_sub_distr_r, Z.div_mul by lia. reflexivity.
Qed.
Lemma XSBH_lanes s op :
  writes Name.XSBH s op (rt op) (lanes 16 (fun i => u16 (slane 8 (2 * i) (get s (ra op))))).
Proof.
  handler. lanes_intro. rewrite srai16_lane by lia. unfold mm_slli_epi16. autorewrite with lanes.
  rewrite sext_half. unfold slane. replace (lane 8 (2 * i) (get s (ra op))) with (u8 (lane 16 i (get s (ra op)))) by bits.
  rewrite sint_wrap by lia. reflexivity.
Qed.

Lemma lane32_set64 v x : lane 32 2 (set_lane 64 0 v x) = lane 32 2 x.
Proof. unfold set_lane. bits. Qed.

Lemma XSWD_lanes s op : wf s ->
  writes Name.XSWD s op (rt op) (lanes 64 (fun i => u64 (slane 32 (2 * i) (get s (ra op))))).
Proof.
  intros Hwf. pose proof (reg_rt op) as Ht. pose proof (reg_nonneg _ (reg_ra op)) as Ha.
  eapply writes_intro.
  - cbn [exec]. unfold XSWD, set_u. cbv zeta. f_equal. rewrite set_set. f_equal.
  - apply (set_lane128_range 64); [lane_side|]. rewrite get_set_eq by auto.
    apply (set_lane128_range 64); [lane_side|]. auto with spu.
  - lanes_intro. rewrite get_set_eq, !lane_set_lane by (auto; lia). unfold s32_of.
    destruct (Z.eqb_spec i 1) as [->|]; [|destruct (Z.eqb_spec i 0) as [->|]; [reflexivity|lia]].
    f_equal. rewrite get_set by auto. destruct (Z.eqb_spec (rt op) (ra op)) as [E|]; [|reflexivity].
    unfold slane. rewrite <- E. f_equal. apply lane32_set64.
Qed.

(** The byte operations and counts.  CNTB counts the one bits of every byte (the
    parallel sum-of-bits is exact), AVGB is the rounded-up average, ABSDB the absolute
    difference, SUMB the sum of the four bytes of each word of RA and RB packed as two
    halfwords, CLZ counts leading zeros, and XSBH, XSHW and XSWD sign-extend the low
    half of every element; RT may be the same register as RA. *)
Theorem byte_and_count_ops s op :
  wf s ->
  let a := get s (ra op) in
  let b := get s (rb op) in
  writes Name.CNTB s op (rt op) (lanes 8 (fun i => popcount 8 (lane 8 i a))) /\
  writes Name.AVGB s op (rt op) (lanes 8 (fun i => (lane 8 i a + lane 8 i b + 1) / 2)) /\
  writes Name.ABSDB s op (rt op) (lanes 8 (fun i => Z.abs (lane 8 i a - lane 8 i b))) /\
  writes Name.SUMB s op (rt op) (lanes 32 (fun i => sum4 i a + 2 ^ 16 * sum4 i b)) /\
  writes Name.CLZ s op (rt op) (fun v => forall i, 0 <= i < 4 -> clz_spec (lane 32 i a) (lane 32 i v)) /\
  writes Name.XSBH s op (rt op) (lanes 16 (fun i => u16 (slane 8 (2 * i) a))) /\
  writes Name.XSHW s op (rt op) (lanes 32 (fun i => u32 (slane 16 (2 * i) a))) /\
  writes Name.XSWD s op (rt op) (lanes 64 (fun i => u64 (slane 32 (2 * i) a))).
Proof.
  intros Hwf. cbv zeta.
  exact (conj (CNTB_lanes s op) (conj (AVGB_lanes s op) (conj (ABSDB_lanes s op)
    (conj (SUMB_lanes s op) (conj (CLZ_lanes s op Hwf) (conj (XSBH_lanes s op)
    (conj (XSHW_lanes s op) (XSWD_lanes s op Hwf)))))))).
Qed.
End Bytes.

Lemma byte_and_count_ops_witness :
  writes (H:=Bare.host) Name.CNTB Bare.sample Bare.op345 5
    (lanes 8 (fun i => popcount 8 (lane 8 i (get Bare.sample 3)))).
Proof. exact (proj1 (@byte_and_count_ops Bare.host Bare.sample Bare.op345 Bare.sample_wf)). Defined.
