(* ===== verification/SpuQuad.v ===== *)
(** * SPU quadword operations: whole-register shifts, shuffles, insertion

    The handlers that treat a register as one 128-bit value or move bytes across
    it, and the load/insert/store sequence that SPU code uses for a partial store. *)

From Stdlib Require Import ZArith Lia Bool.
From stdpp Require Import base numbers list gmap.
From S2P Require Import Prelude V128 Bytes BitField SpuOpcodes SpuThread SpuInterp SpuWf SpuArith SpuElem.
Import spu_opcode_t Interp.

(** ** Shifts and rotates of the whole register *)

(** Rotation, left and right shift of a 128-bit value by [n] bits. *)
Definition rotq (a n : Z) : Z := rot_spec 128 a n.
Definition shlq (a n : Z) : Z := wrap 128 (a * 2 ^ n).
Definition shrq (a n : Z) : Z := a / 2 ^ n.

Lemma load_rot a n :
  in_range 128 a -> 0 <= n < 16 -> mm_loadu_si128 (buf2 a a) (16 - n) = rotq a (8 * n).
Proof.
  intros Ha Hn. unfold rotq, rot_spec. rewrite Z.mod_small by lia.
  rewrite <- rot_parts by (auto; lia). unfold mm_loadu_si128, buf2.
  apply Z.bits_inj'. intros k Hk. autorewrite with bits. destruct (Z.ltb_spec k 128); cbn.
  - rewrite orb_comm. f_equal.
    + destruct (Z.leb_spec 128 (k + 8 * (16 - n))), (Z.leb_spec (8 * n) k); try lia; cbn; auto. f_equal. lia.
    + f_equal. lia.
  - symmetry. apply (testbit_high 128); auto; lia.
Qed.

Lemma load_shl a n :
  in_range 128 a -> 0 <= n <= 32 -> mm_loadu_si128 (buf3 0 0 a) (32 - n) = shlq a (8 * n).
Proof.
  intros Ha Hn. unfold mm_loadu_si128, buf3, shlq. rewrite <- Z.shiftl_mul_pow2 by lia.
  rewrite Z.lor_0_l. change (Z.shiftl 0 128) with 0. rewrite Z.lor_0_l.
  apply Z.bits_inj'. intros k Hk. autorewrite with bits. destruct (Z.ltb_spec k 128); cbn; auto.
  destruct (Z.leb_spec 256 (k + 8 * (32 - n))), (Z.leb_spec (8 * n) k); try lia; cbn; auto. f_equal. lia.
Qed.

Lemma load_shr a n :
  in_range 128 a -> 0 <= n -> mm_loadu_si128 (buf3 a 0 0) n = shrq a (8 * n).
Proof.
  intros Ha Hn. unfold mm_loadu_si128, buf3, shrq. rewrite !Z.shiftl_0_l, !Z.lor_0_r.
  rewrite <- Z.shiftr_div_pow2 by lia. apply wrap_small, shiftr_range; auto; lia.
Qed.

(** The same by fewer than 64 bits through two 64-bit lanes. *)
Lemma lane64_swap a i : 0 <= i < 2 -> lane 64 i (mm_shuffle_epi32 a 0x4E) = lane 64 (1 - i) a.
Proof.
  intros Hi. rewrite !(lane_double 32) by lia. unfold mm_shuffle_epi32. rewrite !lane_build by lia.
  assert (i = 0 \/ i = 1) as [-> | ->] by lia; unfold sel2;
    repeat match goal with |- context [Z.land ?x 3] =>
      let v := eval vm_compute in (Z.land x 3) in change (Z.land x 3) with v end;
    rewrite !lane_wrap by lia; reflexivity.
Qed.

Lemma lane64_eq x y :
  in_range 128 x -> in_range 128 y -> lane 64 0 x = lane 64 0 y -> lane 64 1 x = lane 64 1 y -> x = y.
Proof.
  intros Hx Hy H0 H1. apply (lane128_ext (w:=64)); auto. intros i Hi.
  change (Z.of_nat (nlanes 64)) with 2 in Hi. assert (i = 0 \/ i = 1) as [-> | ->] by lia; auto.
Qed.

(** Bits above the register are clear. *)
Ltac high_bits :=
  repeat match goal with
  | H : in_range ?w ?x |- context [Z.testbit ?x ?k] => rewrite (testbit_high w x k H) by lia
  end.

Ltac quad_bits :=
  apply Z.bits_inj'; intros k Hk; autorewrite with bits;
  repeat (bits_case; bits_norm; autorewrite with bits); bits_norm; high_bits; bits_norm;
  try bits_end.

Lemma bits_rot a n :
  in_range 128 a -> 0 <= n < 64 ->
  mm_or_si128 (mm_slli_epi64 a n) (mm_srli_epi64 (mm_shuffle_epi32 a 0x4E) (64 - n)) = rotq a n.
Proof.
  intros Ha Hn. unfold rotq. apply lane64_eq; [v_range|apply rot_spec_range; auto; lia| |];
    unfold mm_or_si128, mm_slli_epi64, mm_srli_epi64;
    rewrite lane_lor, lane_slli, lane_srli, lane64_swap by lane_side;
    unfold rot_spec; rewrite (Z.mod_small n), <- rot_parts by (auto; lia); cbn [Z.sub Z.add Z.opp];
    quad_bits.
Qed.

Lemma bits_shl a n :
  in_range 128 a -> 0 <= n < 64 ->
  mm_or_si128 (mm_slli_epi64 a n) (mm_srli_epi64 (mm_slli_si128 a 8) (64 - n)) = shlq a n.
Proof.
  intros Ha Hn. unfold shlq. rewrite <- Z.shiftl_mul_pow2 by lia.
  apply lane64_eq; [v_range|apply wrap_range; lia| |];
    unfold mm_or_si128, mm_slli_epi64, mm_srli_epi64, mm_slli_si128; cbn [Z.ltb Z.leb Z.compare orb];
    rewrite lane_lor, lane_slli, lane_srli by lane_side; quad_bits.
Qed.

Lemma bits_shr a n :
  in_range 128 a -> 0 <= n < 64 ->
  mm_or_si128 (mm_srli_epi64 a n) (mm_slli_epi64 (mm_srli_si128 a 8) (64 - n)) = shrq a n.
Proof.
  intros Ha Hn. unfold shrq. rewrite <- Z.shiftr_div_pow2 by lia.
  apply lane64_eq; [v_range; auto|apply shiftr_range; auto; lia| |];
    unfold mm_or_si128, mm_slli_epi64, mm_srli_epi64, mm_srli_si128; cbn [Z.ltb Z.leb Z.compare orb];
    rewrite lane_lor, lane_slli, lane_srli by lane_side; quad_bits.
Qed.

Section Quad.
Context `{SpuHost}.

(** [n] leaves [v] in RT and advances. *)
Definition leaves (n : Name.t) (s : spu_thread) (op v : Z) : Prop :=
  exec n s op = Ret true (set s (rt op) v).

Ltac quad_count m k w :=
  change m with (Z.ones k); rewrite ?neg_count, ?neg_count_s, ?land_mod by lia;
  change (2 ^ k) with w.

Ltac quad_handler h :=
  unfold leaves; cbn [exec]; unfold h, mm_setzero_si128; cbv zeta; do 2 f_equal.

(** A count field in a signed register reads as in the unsigned one. *)
Lemma land_signed x n : 0 <= n <= 32 -> Z.land (s32 x) (Z.ones n) = x mod 2 ^ n.
Proof. intros Hn. rewrite land_mod, <- (wrap_mod 32), wrap_sint, wrap_mod by lia. reflexivity. Qed.

Lemma neg_signed x : Z.land (s32 (- s32 x)) 7 = (- x) mod 8.
Proof.
  change 7 with (Z.ones 3). rewrite land_signed by lia. change (2 ^ 3) with 8.
  replace (- s32 x) with (0 - s32 x) by lia. rewrite Zminus_mod.
  change 8 with (2 ^ 3) at 2. rewrite <- (wrap_mod 32 (s32 x) 3), wrap_sint, wrap_mod by lia.
  change (2 ^ 3) with 8. rewrite <- Zminus_mod. f_equal.
Qed.

Lemma by_rot s op h n :
  wf s -> 0 <= n -> h = mm_loadu_si128 (buf2 (get s (ra op)) (get s (ra op))) (16 - Z.land n 0xf) ->
  h = rotq (get s (ra op)) (8 * (n mod 16)).
Proof.
  intros Hwf Hn ->. quad_count 0xf 4 16. pose proof (Z.mod_pos_bound n 16 ltac:(lia)).
  apply load_rot; auto with spu.
Qed.
Lemma by_shl s op h n :
  wf s -> 0 <= n -> h = mm_loadu_si128 (buf3 0 0 (get s (ra op))) (32 - Z.land n 0x1f) ->
  h = shlq (get s (ra op)) (8 * (n mod 32)).
Proof.
  intros Hwf Hn ->. quad_count 0x1f 5 32. pose proof (Z.mod_pos_bound n 32 ltac:(lia)).
  apply load_shl; auto with spu; lia.
Qed.
Lemma by_shr s op h n :
  wf s -> h = mm_loadu_si128 (buf3 (get s (ra op)) 0 0) (Z.land (u32 (0 - n)) 0x1f) ->
  h = shrq (get s (ra op)) (8 * ((- n) mod 32)).
Proof.
  intros Hwf ->. quad_count 0x1f 5 32. pose proof (Z.mod_pos_bound (- n) 32 ltac:(lia)).
  apply load_shr; auto with spu; lia.
Qed.

Section Each.
Context (s : spu_thread) (op : Z) (Hwf : wf s).
Abbreviation a := (get s (ra op)).
Abbreviation c := (u32_of s (rb op) 3).
Abbreviation i := (i7 op).

Lemma c_nonneg : 0 <= c. Proof. apply lane_range. lia. Qed.
Lemma i_nonneg : 0 <= i. Proof. apply (bf.extract_range 14 7). lia. Qed.
Lemma c8_nonneg : 0 <= Z.shiftr c 3. Proof. apply Z.shiftr_nonneg, c_nonneg. Qed.
Lemma c8_div : Z.shiftr c 3 = c / 8. Proof. apply Z.shiftr_div_pow2. lia. Qed.

Lemma ROTQBY_ok : leaves Name.ROTQBY s op (rotq a (8 * (c mod 16))).
Proof. quad_handler ROTQBY. apply by_rot; auto using c_nonneg. Qed.
Lemma ROTQBYBI_ok : leaves Name.ROTQBYBI s op (rotq a (8 * ((c / 8) mod 16))).
Proof. quad_handler ROTQBYBI. rewrite <- c8_div. apply by_rot; auto using c8_nonneg. Qed.
Lemma ROTQBYI_ok : leaves Name.ROTQBYI s op (rotq a (8 * (i mod 16))).
Proof. quad_handler ROTQBYI. apply by_rot; auto using i_nonneg. Qed.
Lemma SHLQBY_ok : leaves Name.SHLQBY s op (shlq a (8 * (c mod 32))).
Proof. quad_handler SHLQBY. apply by_shl; auto using c_nonneg. Qed.
Lemma SHLQBYBI_ok : leaves Name.SHLQBYBI s op (shlq a (8 * ((c / 8) mod 32))).
Proof. quad_handler SHLQBYBI. rewrite <- c8_div. apply by_shl; auto using c8_nonneg. Qed.
Lemma SHLQBYI_ok : leaves Name.SHLQBYI s op (shlq a (8 * (i mod 32))).
Proof. quad_handler SHLQBYI. apply by_shl; auto using i_nonneg. Qed.
Lemma ROTQMBY_ok : leaves Name.ROTQMBY s op (shrq a (8 * ((- c) mod 32))).
Proof. quad_handler ROTQMBY. apply by_shr; auto. Qed.
Lemma ROTQMBYBI_ok : leaves Name.ROTQMBYBI s op (shrq a (8 * ((- (c / 8)) mod 32))).
Proof. quad_handler ROTQMBYBI. rewrite <- c8_div. apply by_shr; auto. Qed.
Lemma ROTQMBYI_ok : leaves Name.ROTQMBYI s op (shrq a (8 * ((- i) mod 32))).
Proof. quad_handler ROTQMBYI. apply by_shr; auto. Qed.

(** Bit counts. *)
Lemma ROTQBI_ok : leaves Name.ROTQBI s op (rotq a (c mod 8)).
Proof.
  quad_handler ROTQBI. unfold s32_of, slane. change 7 with (Z.ones 3).
  rewrite land_signed by lia. pose proof (Z.mod_pos_bound c 8 ltac:(lia)).
  apply bits_rot; auto with spu. change (2 ^ 3) with 8. unfold u32_of in *. lia.
Qed.
Lemma ROTQBII_ok : leaves Name.ROTQBII s op (rotq a (i mod 8)).
Proof.
  quad_handler ROTQBII. quad_count 7 3 8. pose proof (Z.mod_pos_bound i 8 ltac:(lia)).
  apply bits_rot; auto with spu. lia.
Qed.
Lemma SHLQBI_ok : leaves Name.SHLQBI s op (shlq a (c mod 8)).
Proof.
  quad_handler SHLQBI. quad_count 7 3 8. pose proof (Z.mod_pos_bound c 8 ltac:(lia)).
  apply bits_shl; auto with spu. lia.
Qed.
Lemma SHLQBII_ok : leaves Name.SHLQBII s op (shlq a (i mod 8)).
Proof.
  quad_handler SHLQBII. quad_count 7 3 8. pose proof (Z.mod_pos_bound i 8 ltac:(lia)).
  apply bits_shl; auto with spu. lia.
Qed.
Lemma ROTQMBI_ok : leaves Name.ROTQMBI s op (shrq a ((- c) mod 8)).
Proof.
  quad_handler ROTQMBI. unfold s32_of, slane. rewrite neg_signed.
  pose proof (Z.mod_pos_bound (- c) 8 ltac:(lia)). apply bits_shr; auto with spu.
  unfold u32_of in *. lia.
Qed.
Lemma ROTQMBII_ok : leaves Name.ROTQMBII s op (shrq a ((- i) mod 8)).
Proof.
  quad_handler ROTQMBII. quad_count 7 3 8. pose proof (Z.mod_pos_bound (- i) 8 ltac:(lia)).
  apply bits_shr; auto with spu. lia.
Qed.
End Each.

(** C9: the fifteen quadword shifts and rotates are exact on the register as one
    128-bit integer: rotation, left shift and (negated count) right shift by the byte
    count, by the bit count modulo 8, or by the byte part of a bit count, from the
    preferred word of RB or the immediate. *)
Theorem quad_shifts s op :
  wf s ->
  let a := get s (ra op) in
  let c := u32_of s (rb op) 3 in
  let i := i7 op in
  (leaves Name.ROTQBY s op (rotq a (8 * (c mod 16))) /\
   leaves Name.ROTQBYBI s op (rotq a (8 * ((c / 8) mod 16))) /\
   leaves Name.ROTQBYI s op (rotq a (8 * (i mod 16))) /\
   leaves Name.ROTQBI s op (rotq a (c mod 8)) /\
   leaves Name.ROTQBII s op (rotq a (i mod 8))) /\
  (leaves Name.SHLQBY s op (shlq a (8 * (c mod 32))) /\
   leaves Name.SHLQBYBI s op (shlq a (8 * ((c / 8) mod 32))) /\
   leaves Name.SHLQBYI s op (shlq a (8 * (i mod 32))) /\
   leaves Name.SHLQBI s op (shlq a (c mod 8)) /\
   leaves Name.SHLQBII s op (shlq a (i mod 8))) /\
  (leaves Name.ROTQMBY s op (shrq a (8 * ((- c) mod 32))) /\
   leaves Name.ROTQMBYBI s op (shrq a (8 * ((- (c / 8)) mod 32))) /\
   leaves Name.ROTQMBYI s op (shrq a (8 * ((- i) mod 32))) /\
   leaves Name.ROTQMBI s op (shrq a ((- c) mod 8)) /\
   leaves Name.ROTQMBII s op (shrq a ((- i) mod 8))).
Proof.
  intros Hwf a c i.
  exact (conj (conj (ROTQBY_ok s op Hwf) (conj (ROTQBYBI_ok s op Hwf) (conj (ROTQBYI_ok s op Hwf)
                 (conj (ROTQBI_ok s op Hwf) (ROTQBII_ok s op Hwf)))))
        (conj (conj (SHLQBY_ok s op Hwf) (conj (SHLQBYBI_ok s op Hwf) (conj (SHLQBYI_ok s op Hwf)
                 (conj (SHLQBI_ok s op Hwf) (SHLQBII_ok s op Hwf)))))
              (conj (ROTQMBY_ok s op Hwf) (conj (ROTQMBYBI_ok s op Hwf) (conj (ROTQMBYI_ok s op Hwf)
                 (conj (ROTQMBI_ok s op Hwf) (ROTQMBII_ok s op Hwf))))))).
Qed.
End Quad.

Lemma quad_shifts_witness :
  @leaves Bare.host Name.ROTQBY Bare.sample Bare.op345 (rotq (get Bare.sample 3) 8).
Proof.
  exact (proj1 (proj1 (@quad_shifts Bare.host Bare.sample Bare.op345 Bare.sample_wf))).
Defined.

(** ** Shuffle *)

(** Byte [n] of a register, bytes counted from the most significant as in the
    architecture (and as they lie in local storage). *)
Definition byte_of (n x : Z) : Z := lane 8 (15 - n) x.

(** The result byte selected by the control byte [c]. *)
Definition shuffle_byte (c a b : Z) : Z :=
  if Z.shiftr c 6 =? 2 then 0x00
  else if Z.shiftr c 5 =? 6 then 0xff
  else if Z.shiftr c 5 =? 7 then 0x80
  else byte_of (c mod 16) (if Z.testbit c 4 then b else a).

(** The special values, computed from three comparisons and an average. *)
Definition special_byte (c : Z) : Z :=
  let m0 := if s8 c <? 0 then 0xff else 0 in
  let m1 := if Z.land c 0xc0 =? 0xc0 then 0xff else 0 in
  let m2 := if Z.land c 0xe0 =? 0xc0 then 0xff else 0 in
  Z.lor (m0 * 256) (Z.shiftr (m1 + m2 + 1) 1).

Definition special_ok (c : Z) : bool :=
  special_byte c =?
    (if Z.shiftr c 6 =? 2 then 0xff00
     else if Z.shiftr c 5 =? 6 then 0xffff
     else if Z.shiftr c 5 =? 7 then 0xff80
     else 0).

Lemma special_byte_ok c : in_range 8 c -> special_ok c = true.
Proof. apply all_bytes_spec. vm_compute. reflexivity. Qed.

Lemma lane_buf2_low j a b : 0 <= j < 16 -> lane 8 j (buf2 b a) = lane 8 j b.
Proof. intros Hj. unfold buf2. bits. Qed.
Lemma lane_buf2_high j a b : in_range 128 b -> 16 <= j -> lane 8 j (buf2 b a) = lane 8 (j - 16) a.
Proof. intros Hb Hj. unfold buf2. quad_bits. Qed.

Lemma select_index c : in_range 8 c -> Z.ldiff 0x1f c = 31 - c mod 32.
Proof.
  intros Hc. apply Z.eqb_eq.
  apply (all_bytes_spec (fun c => Z.ldiff 0x1f c =? 31 - c mod 32)); [vm_compute; reflexivity|exact Hc].
Qed.
Lemma select_bit4 c : in_range 8 c -> Z.testbit c 4 = (16 <=? c mod 32).
Proof.
  intros Hc. apply eqb_prop.
  apply (all_bytes_spec (fun c => eqb (Z.testbit c 4) (16 <=? c mod 32))); [vm_compute; reflexivity|exact Hc].
Qed.

(** The byte picked from RA and RB by the low five bits of the control byte. *)
Lemma picked_byte c a b :
  in_range 8 c -> in_range 128 a -> in_range 128 b ->
  lane 8 (Z.ldiff 0x1f c) (buf2 b a) = byte_of (c mod 16) (if Z.testbit c 4 then b else a).
Proof.
  intros Hc Ha Hb. rewrite select_index, select_bit4 by auto. unfold byte_of.
  pose proof (Z.mod_pos_bound c 32 ltac:(lia)). destruct (Z.leb_spec 16 (c mod 32)).
  - rewrite lane_buf2_low by lia. f_equal. unfold in_range in Hc. Z.div_mod_to_equations. lia.
  - rewrite lane_buf2_high by (auto; lia). f_equal. unfold in_range in Hc. Z.div_mod_to_equations. lia.
Qed.

(** The mask and the special value of a control byte. *)
Lemma special_parts c x :
  in_range 8 c -> in_range 8 x ->
  Z.lor (Z.ldiff x (if s8 c <? 0 then 0xff else 0))
    (Z.shiftr ((if Z.land c 0xc0 =? 0xc0 then 0xff else 0) + (if Z.land c 0xe0 =? 0xc0 then 0xff else 0) + 1) 1)
  = if Z.shiftr c 6 =? 2 then 0x00 else if Z.shiftr c 5 =? 6 then 0xff
    else if Z.shiftr c 5 =? 7 then 0x80 else x.
Proof.
  intros Hc Hx. pose proof (special_byte_ok c Hc) as Hs. unfold special_ok in Hs.
  apply Z.eqb_eq in Hs. revert Hs. unfold special_byte.
  destruct (s8 c <? 0), (Z.land c 0xc0 =? 0xc0), (Z.land c 0xe0 =? 0xc0), (Z.shiftr c 6 =? 2),
    (Z.shiftr c 5 =? 6), (Z.shiftr c 5 =? 7); cbn; try discriminate; intros _;
    rewrite ?Z.ldiff_0_r, ?Z.lor_0_r; try reflexivity;
    change 255 with (Z.ones 8); rewrite Z.ldiff_ones_r, Z.shiftr_div_pow2 by lia;
    unfold in_range in Hx; rewrite Z.div_small by lia; reflexivity.
Qed.

Section Shuffle.
Context `{SpuHost}.

(** The selection loop. *)
Lemma shuffle_loop ab x :
  for_up 16 (fun i res => set_lane 8 i (lane 8 (lane 8 i x) ab) res) 0
  = build 8 16 (fun i => lane 8 (lane 8 i x) ab).
Proof. apply (for_up_set_lane (w:=8)). apply zero_range. lia. Qed.

Lemma byte_mask b : u8 (mask_of b) = if b then 0xff else 0.
Proof. apply (wrap_mask 8). lia. Qed.

Lemma SHUFB_lanes s op : wf s ->
  writes Name.SHUFB s op (rt4 op) (fun v => forall n, 0 <= n < 16 ->
    byte_of n v = shuffle_byte (byte_of n (get s (rc op))) (get s (ra op)) (get s (rb op))).
Proof.
  intros Hwf. eapply writes_intro; [reflexivity| |]; rewrite shuffle_loop; [v_range|].
  intros n Hn. unfold byte_of at 1 2.
  pose proof (lane_range 8 (15 - n) (get s (rc op)) ltac:(lia)) as Hc.
  v_unfold. rewrite lane_lor, lane_ldiff, lane_build, !lane_map2 by lane_side.
  rewrite !lane_land, !lane_ldiff, !lane_splat, lane_zero by lane_side.
  change (u8 (s8 0xc0)) with 0xc0. change (u8 (s8 0xe0)) with 0xe0. change (u8 0x1f) with 0x1f.
  change (sint 8 0) with 0. rewrite !byte_mask.
  set (c := lane 8 (15 - n) (get s (rc op))) in *. clearbody c.
  rewrite picked_byte by auto using get_range.
  rewrite (wrap_small 8 (byte_of _ _)) by (apply lane_range; lia).
  rewrite (wrap_small 8 (Z.shiftr _ 1)).
  - rewrite special_parts by (auto; apply lane_range; lia). reflexivity.
  - destruct (Z.land c 0xc0 =? 0xc0), (Z.land c 0xe0 =? 0xc0); vm_compute; split; congruence.
Qed.

(** SHUFB selects, for each of the sixteen bytes, what the control byte asks for:
    byte [c & 15] of RA or RB (bit 4 chooses), or 0x00, 0xFF, 0x80 for the control
    patterns 10xxxxxx, 110xxxxx and 111xxxxx; and SELB takes each bit of RB where the
    mask RC has a one and of RA where it has a zero.  Both write RT only. *)
Theorem shuffle_and_select s op :
  wf s ->
  let a := get s (ra op) in
  let b := get s (rb op) in
  let c := get s (rc op) in
  writes Name.SHUFB s op (rt4 op) (fun v => forall n, 0 <= n < 16 ->
    byte_of n v = shuffle_byte (byte_of n c) a b) /\
  writes Name.SELB s op (rt4 op) (fun v => forall k, 0 <= k < 128 ->
    Z.testbit v k = if Z.testbit c k then Z.testbit b k else Z.testbit a k).
Proof.
  intros Hwf a b c. split; [apply SHUFB_lanes; exact Hwf|].
  eapply writes_intro; [reflexivity|v_range; auto using get_range|].
  intros k Hk. v_unfold. autorewrite with bits. fold a b c.
  destruct (Z.testbit a k), (Z.testbit b k), (Z.testbit c k); reflexivity.
Qed.
End Shuffle.

Lemma shuffle_and_select_witness :
  exists v, @exec Bare.host Name.SHUFB Bare.sample (Bare.op345 + 6 * 2 ^ 21) = Ret true (set Bare.sample 6 v) /\
  byte_of 15 v = byte_of 1 (get Bare.sample 4).
Proof.
  destruct (@shuffle_and_select Bare.host Bare.sample (Bare.op345 + 6 * 2 ^ 21) Bare.sample_wf)
    as [(v & E & _ & Hv) _].
  exists v. split; [exact E|]. rewrite (Hv 15 ltac:(lia)). vm_compute. reflexivity.
Defined.

(** ** Insertion controls *)

(** Element sizes: bytes, and the first byte of the element's preferred slot. *)
Inductive elem := EB | EH | EW | ED.
Definition esize (e : elem) : Z := match e with EB => 1 | EH => 2 | EW => 4 | ED => 8 end.
Definition eslot (e : elem) : Z := match e with EB => 3 | EH => 2 | EW => 0 | ED => 0 end.

(** The control word the C*X and C*D handlers build for address [x]. *)
Definition control (e : elem) (x : Z) : Z :=
  match e with
  | EB => set_lane 8 (notand x 0xf) 0x03 insert_pattern
  | EH => set_lane 16 (Z.shiftr (notand x 0xe) 1) 0x0203 insert_pattern
  | EW => set_lane 32 (Z.shiftr (notand x 0xc) 2) 0x00010203 insert_pattern
  | ED => set_lane 64 (Z.shiftr (notand x 0x8) 3) 0x0001020304050607 insert_pattern
  end.

Lemma notand_mod x m : in_range 4 m -> notand x m = notand (x mod 16) m.
Proof.
  intros Hm. unfold notand. change (x mod 16) with (wrap 4 x).
  apply Z.bits_inj'. intros k Hk. autorewrite with bits.
  destruct (Z.ltb_spec k 4); [reflexivity|]. rewrite (testbit_high 4 m) by (auto; lia). reflexivity.
Qed.
Lemma control_mod e x : control e x = control e (x mod 16).
Proof.
  destruct e; unfold control;
    match goal with |- context [notand x ?m] => rewrite (notand_mod x m) by (unfold in_range; lia) end;
    reflexivity.
Qed.

(** Byte [n] of the control word: the new element's bytes at the address, the old
    quadword's elsewhere. *)
Definition control_byte (e : elem) (x n : Z) : Z :=
  if n / esize e =? (x mod 16) / esize e then eslot e + n mod esize e else 16 + n.

Definition control_ok (e : elem) : bool :=
  forallb (fun m => forallb (fun n =>
    byte_of (Z.of_nat n) (control e (Z.of_nat m)) =? control_byte e (Z.of_nat m) (Z.of_nat n))
    (List.seq 0 16)) (List.seq 0 16).

Lemma control_bytes e x n : 0 <= n < 16 -> byte_of n (control e x) = control_byte e x n.
Proof.
  intros Hn. rewrite control_mod. pose proof (Z.mod_pos_bound x 16 ltac:(lia)) as Hm.
  assert (control_ok e = true) as Hok by (destruct e; vm_compute; reflexivity).
  unfold control_ok in Hok. rewrite forallb_forall in Hok.
  specialize (Hok (Z.to_nat (x mod 16))). rewrite in_seq, forallb_forall in Hok.
  specialize (Hok ltac:(lia) (Z.to_nat n)). rewrite in_seq, Z.eqb_eq in Hok.
  rewrite !Z2Nat.id in Hok by lia. rewrite Hok by lia. unfold control_byte.
  rewrite Z.mod_mod by lia. reflexivity.
Qed.

Lemma control_range e x : in_range 128 (control e x).
Proof.
  rewrite control_mod. unfold control.
  destruct e; (apply set_lane128_range; [typeclasses eauto| |apply from64_range]); lane_bound.
Qed.

Section Insertion.
Context `{SpuHost}.

Lemma set_u_set w s r t v p :
  wf s -> reg_ok r -> set_u w (set s r p) r t v = set s r (set_lane w t v p).
Proof. intros Hwf Hr. unfold set_u. rewrite get_set_eq, set_set by auto. reflexivity. Qed.

(** The instruction forms, by address operand. *)
Definition insert_x (e : elem) : Name.t :=
  match e with EB => Name.CBX | EH => Name.CHX | EW => Name.CWX | ED => Name.CDX end.
Definition insert_d (e : elem) : Name.t :=
  match e with EB => Name.CBD | EH => Name.CHD | EW => Name.CWD | ED => Name.CDD end.

Lemma insert_x_exec e s op : wf s ->
  exec (insert_x e) s op =
    if bad_sp s op then Thrown
    else Ret true (set s (rt op) (control e (u32 (u32_of s (rb op) 3 + u32_of s (ra op) 3)))).
Proof.
  intros Hwf. destruct e; cbn [insert_x exec]; unfold CBX, CHX, CWX, CDX; destruct (bad_sp s op);
    try reflexivity; rewrite set_u_set by auto with spu; reflexivity.
Qed.
Lemma insert_d_exec e s op : wf s ->
  exec (insert_d e) s op =
    if bad_sp s op then Thrown
    else Ret true (set s (rt op) (control e (u32 (i7 op + u32_of s (ra op) 3)))).
Proof.
  intros Hwf. destruct e; cbn [insert_d exec]; unfold CBD, CHD, CWD, CDD; destruct (bad_sp s op);
    try reflexivity; rewrite set_u_set by auto with spu; reflexivity.
Qed.

(** Feeding the control word to SHUFB inserts the element. *)
Lemma control_shuffles e x a b n :
  0 <= n < 16 ->
  shuffle_byte (byte_of n (control e x)) a b =
    if n / esize e =? (x mod 16) / esize e then byte_of (eslot e + n mod esize e) a else byte_of n b.
Proof.
  intros Hn. rewrite control_bytes by auto. unfold control_byte.
  destruct (_ =? _).
  - assert (0 <= eslot e + n mod esize e < 8) as Hb.
    { destruct e; cbn [eslot esize]; Z.div_mod_to_equations; lia. }
    set (c := eslot e + n mod esize e) in *. clearbody c. unfold shuffle_byte.
    rewrite (Z.mod_small c) by lia.
    assert (c = 0 \/ c = 1 \/ c = 2 \/ c = 3 \/ c = 4 \/ c = 5 \/ c = 6 \/ c = 7) as Hcs by lia.
    destruct Hcs as [->|[->|[->|[->|[->|[->|[->| ->]]]]]]]; reflexivity.
  - unfold shuffle_byte. replace (Z.shiftr (16 + n) 6) with 0.
    2:{ rewrite Z.shiftr_div_pow2, Z.div_small by lia. reflexivity. }
    replace (Z.shiftr (16 + n) 5) with 0.
    2:{ rewrite Z.shiftr_div_pow2, Z.div_small by lia. reflexivity. }
    cbn [Z.eqb]. replace ((16 + n) mod 16) with n by (Z.div_mod_to_equations; lia).
    rewrite select_bit4 by (unfold in_range; lia).
    rewrite (Z.mod_small (16 + n) 32) by lia. destruct (Z.leb_spec 16 (16 + n)); [reflexivity|lia].
Qed.

(** The insertion controls.  In all eight forms (byte, halfword, word, doubleword;
    address RA + RB or RA + immediate) a misaligned stack pointer as RA is refused with
    an exception; otherwise RT gets a control word that, given to SHUFB with a new value
    [a] and an old quadword [b], replaces exactly the element of [b] at the address by
    the preferred-slot element of [a]. *)
Theorem insertion_controls e s op :
  wf s ->
  let inserts n addr :=
    exec n s op = (if bad_sp s op then Thrown else Ret true (set s (rt op) (control e addr))) /\
    in_range 128 (control e addr) /\
    forall a b k, 0 <= k < 16 ->
      shuffle_byte (byte_of k (control e addr)) a b =
        if k / esize e =? (addr mod 16) / esize e
        then byte_of (eslot e + k mod esize e) a else byte_of k b in
  inserts (insert_x e) (u32 (u32_of s (rb op) 3 + u32_of s (ra op) 3)) /\
  inserts (insert_d e) (u32 (i7 op + u32_of s (ra op) 3)).
Proof.
  intros Hwf inserts. split; (split; [|split]).
  - apply insert_x_exec, Hwf.
  - apply control_range.
  - intros a b k Hk. apply control_shuffles, Hk.
  - apply insert_d_exec, Hwf.
  - apply control_range.
  - intros a b k Hk. apply control_shuffles, Hk.
Qed.
End Insertion.

Lemma insertion_controls_witness :
  @exec Bare.host Name.CBX Bare.sample Bare.op345 = Ret true (set Bare.sample 5 (control EB 0)).
Proof.
  exact (eq_trans
    (proj1 (proj1 (@insertion_controls Bare.host EB Bare.sample Bare.op345 Bare.sample_wf))) eq_refl).
Defined.

(** ** Local storage: addresses and the partial store sequence *)

Lemma land_quad_div y : Z.land y 0x3fff0 = 16 * ((y mod SPU_LS_SIZE) / 16).
Proof.
  change (y mod SPU_LS_SIZE) with (wrap 18 y). change 16 with (2 ^ 4).
  rewrite Z.mul_comm, <- Z.shiftr_div_pow2, <- Z.shiftl_mul_pow2 by lia.
  change 0x3fff0 with (Z.shiftl (Z.ones 14) 4). bits.
Qed.

(** The quadword of a D-form address with a zero offset. *)
Lemma d_form_addr s r :
  Z.land (s32 (s32_of s r 3 + 0 * 16)) 0x3fff0 = 16 * ((u32_of s r 3 mod SPU_LS_SIZE) / 16).
Proof.
  rewrite land_quad_div, Z.add_0_r. unfold s32_of, slane, u32_of. change SPU_LS_SIZE with (2 ^ 18).
  rewrite <- (wrap_mod 32), !wrap_sint, !wrap_mod by lia. reflexivity.
Qed.

Lemma byte_of_ref s q n : wf s -> quad_ok q -> 0 <= n < 16 -> byte_of n (ref_v128 s q) = byte_at (ls s) (q + n).
Proof.
  intros Hwf Hq Hn. unfold byte_of, ref_v128. rewrite (proj1 (quad_fits q Hq)).
  apply (lane_be_load (ls s) q 16); [apply ls_bytes_ok, wf_ls, Hwf|exact Hn].
Qed.

Lemma ls_byte_set_ref s q v x :
  quad_ok q -> byte_at (ls (set_ref_v128 s q v)) x =
    if x / 16 =? q / 16 then byte_of (x mod 16) v else byte_at (ls s) x.
Proof.
  intros Hq. unfold set_ref_v128. cbn [ls with_ls]. rewrite (proj1 (quad_fits q Hq)).
  destruct Hq as [Hr Hm]. destruct (Z.eqb_spec (x / 16) (q / 16)) as [E|E].
  - replace x with (q + x mod 16) at 1 by (Z.div_mod_to_equations; lia).
    rewrite (byte_at_store _ q 16) by (pose proof (Z.mod_pos_bound x 16 ltac:(lia)); lia). reflexivity.
  - apply byte_at_store_other. Z.div_mod_to_equations. lia.
Qed.

(** Elements do not cross quadwords. *)
Lemma elem_in_quad e x y :
  x / 16 = y / 16 -> (x mod 16 / esize e =? y mod 16 / esize e) = (x / esize e =? y / esize e).
Proof.
  intros E. apply eq_true_iff_eq. rewrite !Z.eqb_eq.
  destruct e; cbn [esize]; split; intros; Z.div_mod_to_equations; lia.
Qed.
Lemma elem_offset e x : x mod 16 mod esize e = x mod esize e.
Proof. destruct e; cbn [esize]; Z.div_mod_to_equations; lia. Qed.
Lemma elem_same_quad e x y : x / esize e = y / esize e -> x / 16 = y / 16.
Proof. destruct e; cbn [esize]; intros; Z.div_mod_to_equations; lia. Qed.

(** The stack pointer check reads RA only. *)
Lemma bad_sp_get t t' op : get t (ra op) = get t' (ra op) -> bad_sp t op = bad_sp t' op.
Proof.
  intros E. unfold bad_sp. destruct (Z.eqb_spec (ra op) 1) as [E1|]; [|reflexivity].
  rewrite E1 in E. unfold u32_of. rewrite E. reflexivity.
Qed.

Section PartialStore.
Context `{SpuHost}.

(** Run the next instruction if the last one advanced. *)
Definition and_then (r : exec_result) (n : Name.t) (op : Z) : exec_result :=
  match r with Ret true s => exec n s op | r => r end.

Context (e : elem) (s : spu_thread) (lq cd sh st : Z).
Context (Hwf : wf s).
(** [lqd O,0(A); c?d C,0(A); shufb N,V,O,C; stqd N,0(A)]. *)
Context (HA1 : ra cd = ra lq) (HA2 : ra st = ra lq) (HO : rb sh = rt lq) (HC : rc sh = rt cd)
        (HN : rt st = rt4 sh) (Hi1 : si10 lq = 0) (Hi2 : i7 cd = 0) (Hi3 : si10 st = 0).
(** The scratch registers are not the address, the value or each other. *)
Context (Hd1 : rt lq <> ra lq) (Hd2 : rt cd <> ra lq) (Hd3 : rt4 sh <> ra lq)
        (Hd4 : rt cd <> rt lq) (Hd5 : rt lq <> ra sh) (Hd6 : rt cd <> ra sh).
Context (Hsp : bad_sp s cd = false).

Definition store_sequence : exec_result :=
  and_then (and_then (and_then (exec Name.LQD s lq) (insert_d e) cd) Name.SHUFB sh) Name.STQD st.

Lemma get_set_other t r r' v : reg_ok r -> reg_ok r' -> r <> r' -> get (set t r v) r' = get t r'.
Proof. intros. apply get_set_ne; auto using reg_nonneg. Qed.

(** The address, in local storage, and the quadword that holds it. *)
Let addr := u32_of s (ra lq) 3 mod SPU_LS_SIZE.
Let quad := 16 * (addr / 16).

Lemma quad_is_ok : quad_ok quad.
Proof.
  pose proof (Z.mod_pos_bound (u32_of s (ra lq) 3) SPU_LS_SIZE eq_refl) as Hr.
  fold addr in Hr. unfold quad, quad_ok, SPU_LS_SIZE in *. Z.div_mod_to_equations. lia.
Qed.

Lemma store_sequence_runs :
  exists v t, store_sequence = Ret true (set_ref_v128 t quad v) /\ ls t = ls s /\
    forall k, 0 <= k < 16 -> byte_of k v =
      if k / esize e =? (addr mod 16) / esize e
      then byte_of (eslot e + k mod esize e) (get s (ra sh)) else byte_at (ls s) (quad + k).
Proof.
  pose proof (reg_rt lq) as Rl. pose proof (reg_ra lq) as Ra. pose proof (reg_rt cd) as Rc.
  pose proof (reg_ra sh) as Rv. pose proof (reg_rt4 sh) as Rn.
  set (s1 := set s (rt lq) (ref_v128 s quad)).
  assert (wf s1) as Hw1 by (apply wf_set; auto using ref_v128_range).
  assert (exec Name.LQD s lq = Ret true s1) as E1.
  { cbn [exec]. unfold LQD. rewrite Hi1, d_form_addr. reflexivity. }
  set (s2 := set s1 (rt cd) (control e (u32_of s (ra lq) 3))).
  assert (wf s2) as Hw2 by (apply wf_set; auto using control_range).
  assert (get s1 (ra lq) = get s (ra lq)) as G1 by (apply get_set_other; auto).
  assert (exec (insert_d e) s1 cd = Ret true s2) as E2.
  { rewrite insert_d_exec by auto. rewrite (bad_sp_get s1 s) by congruence.
    rewrite Hsp, Hi2, HA1. unfold u32_of. rewrite G1, Z.add_0_l.
    rewrite wrap_small by (apply lane_range; lia). reflexivity. }
  destruct (SHUFB_lanes s2 sh Hw2) as (v & E3 & Hv & Hb).
  exists v, (set s2 (rt4 sh) v). split; [|split; [reflexivity|]].
  - unfold store_sequence. rewrite E1. cbn [and_then]. rewrite E2. cbn [and_then]. rewrite E3.
    cbn [and_then exec]. unfold STQD. rewrite Hi3, d_form_addr, HA2, HN. unfold u32_of.
    rewrite get_set_eq by auto. rewrite get_set_other by auto.
    unfold s2. rewrite get_set_other by auto. rewrite G1. reflexivity.
  - intros k Hk. rewrite (Hb k Hk), HC, HO.
    unfold s2. rewrite get_set_eq, !get_set_other by auto.
    unfold s1 at 2. rewrite get_set_eq by auto. unfold s1. rewrite get_set_other by auto.
    rewrite control_shuffles, byte_of_ref by auto using quad_is_ok.
    unfold addr. change SPU_LS_SIZE with (2 ^ 18). rewrite <- (wrap_mod 18 _ 4) by lia. reflexivity.
Qed.

(** C12: the partial store of SPU code.  Load the quadword, make the insertion control,
    shuffle the value in and store: the bytes of the addressed element (1, 2, 4 or 8
    bytes) in local storage become the preferred-slot element of the value register,
    and every other byte of local storage keeps its value.  Addresses wrap at 256 KiB.  The
    scratch registers are distinct, and the stack pointer, when it is the address, is aligned
    as the insertion handlers ask. *)
Theorem partial_store :
  exists t, store_sequence = Ret true t /\
    forall x, 0 <= x < SPU_LS_SIZE ->
      byte_at (ls t) x =
        if x / esize e =? (u32_of s (ra lq) 3 mod SPU_LS_SIZE) / esize e
        then byte_of (eslot e + x mod esize e) (get s (ra sh)) else byte_at (ls s) x.
Proof.
  destruct store_sequence_runs as (v & t & E & El & Hb).
  exists (set_ref_v128 t quad v). split; [exact E|]. intros x Hx. fold addr.
  rewrite ls_byte_set_ref, El by apply quad_is_ok. unfold quad at 1.
  assert (0 <= addr) by (apply Z.mod_pos_bound; reflexivity).
  destruct (Z.eqb_spec (x / 16) (16 * (addr / 16) / 16)) as [E16|E16].
  - rewrite Hb by (apply Z.mod_pos_bound; lia).
    assert ((x mod 16 / esize e =? addr mod 16 / esize e) = (x / esize e =? addr / esize e)) as ->.
    { rewrite (Z.mul_comm 16), Z.div_mul in E16 by lia. apply elem_in_quad. exact E16. }
    destruct (_ =? _).
    + f_equal. f_equal. apply elem_offset.
    + f_equal. unfold quad. rewrite (Z.mul_comm 16), Z.div_mul in E16 by lia. rewrite <- E16.
      symmetry. apply Z.div_mod. lia.
  - destruct (Z.eqb_spec (x / esize e) (addr / esize e)) as [Ee|]; [|reflexivity].
    exfalso. apply E16. rewrite (Z.mul_comm 16), Z.div_mul by lia. apply (elem_same_quad e). exact Ee.
Qed.
End PartialStore.

Lemma partial_store_witness :
  exists t, @store_sequence Bare.host EB Bare.sample (6 + 4 * 2 ^ 7) (7 + 4 * 2 ^ 7)
              (7 + 3 * 2 ^ 7 + 6 * 2 ^ 14 + 8 * 2 ^ 21) (8 + 4 * 2 ^ 7) = Ret true t /\
    byte_at (ls t) 1 = byte_of 3 (get Bare.sample 3).
Proof.
  destruct (@partial_store Bare.host EB Bare.sample (6 + 4 * 2 ^ 7) (7 + 4 * 2 ^ 7)
              (7 + 3 * 2 ^ 7 + 6 * 2 ^ 14 + 8 * 2 ^ 21) (8 + 4 * 2 ^ 7) Bare.sample_wf) as (t & E & Hb);
    try reflexivity; try (vm_compute; discriminate).
  exists t. split; [exact E|]. rewrite (Hb 1 ltac:(unfold SPU_LS_SIZE; lia)). reflexivity.
Defined.
