(* ===== verification/SpuMask.v ===== *)
(** * SPU bit gathering and mask forming

    GB, GBH, GBB collect the low bit of every element into the preferred word;
    FSM, FSMH, FSMB and FSMBI spread bits into element masks.  The two families
    are inverse to each other. *)

From Stdlib Require Import ZArith Lia Bool.
From stdpp Require Import base numbers list gmap.
From S2P Require Import Prelude V128 Bytes BitField SpuOpcodes SpuThread SpuInterp SpuWf SpuArith SpuElem.
Import spu_opcode_t Interp.

(** ** Movemask *)

Lemma movemask_nonneg w n a : 0 < w -> 0 <= movemask w n a.
Proof.
  intros Hw. induction n as [|n IH]; cbn [movemask]; [lia|].
  apply Z.lor_nonneg. split; [exact IH|]. apply Z.shiftl_nonneg, Z.shiftr_nonneg.
  apply lane_range. lia.
Qed.

Lemma testbit_movemask w n a k :
  0 < w -> 0 <= k ->
  Z.testbit (movemask w n a) k = (k <? Z.of_nat n) && Z.testbit (lane w k a) (w - 1).
Proof.
  intros Hw Hk. induction n as [|n IH]; cbn [movemask].
  - rewrite Z.bits_0. destruct (Z.ltb_spec k (Z.of_nat 0)); [lia|reflexivity].
  - rewrite Z.lor_spec, IH, testbit_shiftl by lia.
    destruct (Z.leb_spec (Z.of_nat n) k); cbn [andb].
    2:{ rewrite orb_false_r. destruct (Z.ltb_spec k (Z.of_nat n)), (Z.ltb_spec k (Z.of_nat (S n))); auto; lia. }
    destruct (Z.ltb_spec k (Z.of_nat n)); [lia|]. cbn [andb orb]. rewrite Z.shiftr_spec by lia.
    destruct (Z.ltb_spec k (Z.of_nat (S n))).
    + replace (Z.of_nat n) with k by lia. replace (k - k + (w - 1)) with (w - 1) by lia. reflexivity.
    + apply (testbit_high w); [apply lane_range; lia|lia|lia].
Qed.

Lemma movemask_range w n a : 0 < w -> in_range (Z.of_nat n) (movemask w n a).
Proof.
  intros Hw. apply in_range_testbit; [lia|apply movemask_nonneg; auto|].
  intros k Hk. rewrite testbit_movemask by lia. destruct (Z.ltb_spec k (Z.of_nat n)); [lia|reflexivity].
Qed.

(** ** Lanes of the shuffling intrinsics *)

Lemma lane8_of32 i x : 0 <= i -> lane 8 i x = lane 8 (i mod 4) (lane 32 (i / 4) x).
Proof.
  intros Hi. pose proof (Z.div_mod i 4 ltac:(lia)). pose proof (Z.mod_pos_bound i 4 ltac:(lia)).
  assert (0 <= i / 4) by (apply Z.div_pos; lia).
  change 32 with (8 * 4). rewrite lane_lane by lia. f_equal. lia.
Qed.
Lemma lane8_of16 i x : 0 <= i -> lane 8 i x = lane 8 (i mod 2) (lane 16 (i / 2) x).
Proof.
  intros Hi. pose proof (Z.div_mod i 2 ltac:(lia)). pose proof (Z.mod_pos_bound i 2 ltac:(lia)).
  assert (0 <= i / 2) by (apply Z.div_pos; lia).
  change 16 with (8 * 2). rewrite lane_lane by lia. f_equal. lia.
Qed.
Lemma lane16_of32 i x : 0 <= i -> lane 16 i x = lane 16 (i mod 2) (lane 32 (i / 2) x).
Proof.
  intros Hi. pose proof (Z.div_mod i 2 ltac:(lia)). pose proof (Z.mod_pos_bound i 2 ltac:(lia)).
  assert (0 <= i / 2) by (apply Z.div_pos; lia).
  change 32 with (16 * 2). rewrite lane_lane by lia. f_equal. lia.
Qed.

Lemma sel2_range imm i : 0 <= sel2 imm i < 4.
Proof. unfold sel2. change 3 with (Z.ones 2). rewrite Z.land_ones by lia. apply Z.mod_pos_bound. lia. Qed.

Lemma lane8_shuffle32 a imm i :
  0 <= i < 16 -> lane 8 i (mm_shuffle_epi32 a imm) = lane 8 (4 * sel2 imm (i / 4) + i mod 4) a.
Proof.
  intros Hi. rewrite lane8_of32 by lia. unfold mm_shuffle_epi32.
  pose proof (Z.mod_pos_bound i 4 ltac:(lia)). pose proof (sel2_range imm (i / 4)).
  assert (0 <= i / 4 < 4) by (split; [apply Z.div_pos; lia|apply Z.div_lt_upper_bound; lia]).
  rewrite lane_build, lane_wrap by lia. change 32 with (8 * 4). apply lane_lane; lia.
Qed.
Lemma lane16_shuffle32 a imm i :
  0 <= i < 8 -> lane 16 i (mm_shuffle_epi32 a imm) = lane 16 (2 * sel2 imm (i / 2) + i mod 2) a.
Proof.
  intros Hi. rewrite lane16_of32 by lia. unfold mm_shuffle_epi32.
  pose proof (Z.mod_pos_bound i 2 ltac:(lia)). pose proof (sel2_range imm (i / 2)).
  assert (0 <= i / 2 < 4) by (split; [apply Z.div_pos; lia|apply Z.div_lt_upper_bound; lia]).
  rewrite lane_build, lane_wrap by lia. change 32 with (16 * 2). apply lane_lane; lia.
Qed.
Lemma lane8_shufflehi a imm i :
  0 <= i < 16 ->
  lane 8 i (mm_shufflehi_epi16 a imm)
    = lane 8 (2 * (if i / 2 <? 4 then i / 2 else sel2 imm (i / 2 - 4) + 4) + i mod 2) a.
Proof.
  intros Hi. rewrite lane8_of16 by lia. unfold mm_shufflehi_epi16.
  pose proof (Z.mod_pos_bound i 2 ltac:(lia)). pose proof (sel2_range imm (i / 2 - 4)).
  assert (0 <= i / 2 < 8) by (split; [apply Z.div_pos; lia|apply Z.div_lt_upper_bound; lia]).
  rewrite lane_build, lane_wrap by lia. change 16 with (8 * 2).
  apply lane_lane; [lia|lia| |lia]. destruct (_ <? _); lia.
Qed.
Lemma lane8_shufflelo a imm i :
  0 <= i < 16 ->
  lane 8 i (mm_shufflelo_epi16 a imm)
    = lane 8 (2 * (if i / 2 <? 4 then sel2 imm (i / 2) else i / 2) + i mod 2) a.
Proof.
  intros Hi. rewrite lane8_of16 by lia. unfold mm_shufflelo_epi16.
  pose proof (Z.mod_pos_bound i 2 ltac:(lia)). pose proof (sel2_range imm (i / 2)).
  assert (0 <= i / 2 < 8) by (split; [apply Z.div_pos; lia|apply Z.div_lt_upper_bound; lia]).
  rewrite lane_build, lane_wrap by lia. change 16 with (8 * 2).
  apply lane_lane; [lia|lia| |lia]. destruct (_ <? _); lia.
Qed.
Lemma lane_interleave w `{HW : LaneWidth w} base a i :
  0 <= i < Z.of_nat (nlanes w) -> lane w i (interleave w base a a) = lane w (base + i / 2) a.
Proof.
  intros Hi. pose proof (width_pos (w:=w)). unfold interleave.
  rewrite lane_build by auto. destruct (Z.even i); apply lane_wrap; lia.
Qed.

(** Comparing a masked power of two tests the bit. *)
Lemma bit_test x i : 0 <= i -> (Z.land x (2 ^ i) =? 2 ^ i) = Z.testbit x i.
Proof.
  intros Hi. pose proof (pow2_pos i Hi). destruct (Z.testbit x i) eqn:E.
  - apply Z.eqb_eq. apply Z.bits_inj'. intros k Hk. rewrite Z.land_spec, Z.pow2_bits_eqb by lia.
    destruct (Z.eqb_spec i k) as [<-|]; [rewrite E|rewrite andb_false_r]; reflexivity.
  - apply Z.eqb_neq. intros C. apply (f_equal (fun z => Z.testbit z i)) in C.
    rewrite Z.land_spec, E, Z.pow2_bits_true in C by lia. discriminate.
Qed.

(** Case analysis on a lane index. *)
Lemma index_cases (P : Z -> Prop) n :
  Forall (fun i => P (Z.of_nat i)) (List.seq 0 n) -> forall i, 0 <= i < Z.of_nat n -> P i.
Proof.
  intros HP i Hi. rewrite <- (Z2Nat.id i) by lia. rewrite Forall_forall in HP. apply HP.
  apply elem_of_seq. lia.
Qed.
Ltac enum_lanes n :=
  apply (index_cases _ n); cbn [List.seq];
  repeat (apply Forall_cons_2; [cbv beta; cbn [Z.of_nat Pos.of_succ_nat Pos.succ]|]);
  [..|apply Forall_nil_2].

Section Masks.
Context `{SpuHost}.

(** Bit [i] of the selector spread over lane [i]. *)
Definition forms (n : Name.t) (s : spu_thread) (op w sel : Z) : Prop :=
  writes n s op (rt op) (lanes w (fun i => if Z.testbit sel i then Z.ones w else 0)).

(** RT holds a word of bits in its preferred slot and is zero elsewhere; bit [k] is
    the low bit of element [k] of RA. *)
Definition gathers (n : Name.t) (s : spu_thread) (op w : Z) : Prop :=
  exists m, exec n s op = Ret true (set s (rt op) (from32r m)) /\ in_range (128 / w) m /\
    forall k, 0 <= k < 128 / w -> Z.testbit m k = Z.testbit (lane w k (get s (ra op))) 0.

Lemma GB_ok s op : gathers Name.GB s op 32.
Proof.
  eexists. split; [reflexivity|]. split; [apply (movemask_range 32 4); lia|].
  intros k Hk. change (128 / 32) with 4 in Hk. unfold mm_movemask_ps.
  rewrite testbit_movemask by lia. destruct (Z.ltb_spec k (Z.of_nat 4)); [|lia].
  unfold mm_slli_epi32. rewrite lane_slli by lane_side. cbn [andb]. autorewrite with bits.
  repeat bits_case. bits_end.
Qed.

Lemma GBB_ok s op : gathers Name.GBB s op 8.
Proof.
  eexists. split; [reflexivity|]. split; [apply (movemask_range 8 16); lia|].
  intros k Hk. change (128 / 8) with 16 in Hk. unfold mm_movemask_epi8.
  rewrite testbit_movemask by lia. destruct (Z.ltb_spec k (Z.of_nat 16)); [|lia]. cbn [andb].
  pose proof (Z.div_mod k 8 ltac:(lia)). pose proof (Z.mod_pos_bound k 8 ltac:(lia)).
  assert (0 <= k / 8 < 2) by (split; [apply Z.div_pos; lia|apply Z.div_lt_upper_bound; lia]).
  assert (forall x, lane 8 k x = lane 8 (k mod 8) (lane 64 (k / 8) x)) as Hl.
  { intros x. change 64 with (8 * 8). rewrite lane_lane by lia. f_equal. lia. }
  rewrite !Hl. unfold mm_slli_epi64. rewrite lane_slli by lane_side.
  set (x := lane 64 (k / 8) _). clearbody x. autorewrite with bits. repeat bits_case.
  cbn [andb]. f_equal. lia.
Qed.

Lemma packed_bit x : in_range 16 x -> Z.testbit (u8 (sat8 (s16 (u16 (Z.shiftl x 15))))) 7 = Z.testbit x 0.
Proof.
  intros Hx. assert (u16 (Z.shiftl x 15) = if Z.testbit x 0 then 0x8000 else 0) as ->.
  { apply Z.bits_inj'. intros k Hk. autorewrite with bits.
    destruct (Z.eq_dec k 15) as [->|].
    - change (15 - 15) with 0. destruct (Z.testbit x 0); reflexivity.
    - destruct (Z.ltb_spec k 16), (Z.leb_spec 15 k); cbn [andb]; try lia;
        destruct (Z.testbit x 0); change 0x8000 with (2 ^ 15); rewrite ?Z.bits_0, ?Z.pow2_bits_false by lia; reflexivity. }
  destruct (Z.testbit x 0); reflexivity.
Qed.

Lemma GBH_ok s op : gathers Name.GBH s op 16.
Proof.
  eexists. split; [reflexivity|]. split.
  - apply in_range_testbit; [vm_compute; congruence|apply movemask_nonneg; lia|].
    intros k Hk. change (128 / 16) with 8 in Hk. unfold mm_movemask_epi8.
    rewrite testbit_movemask by lia. destruct (Z.ltb_spec k (Z.of_nat 16)); [|reflexivity].
    unfold mm_packs_epi16. rewrite lane_build by lia. destruct (Z.ltb_spec k 8); [lia|].
    unfold slane, mm_setzero_si128. rewrite lane_zero by lia. reflexivity.
  - intros k Hk. change (128 / 16) with 8 in Hk. unfold mm_movemask_epi8.
    rewrite testbit_movemask by lia. destruct (Z.ltb_spec k (Z.of_nat 16)); [|lia]. cbn [andb].
    unfold mm_packs_epi16. rewrite lane_build by lia. destruct (Z.ltb_spec k 8); [|lia].
    unfold slane, mm_slli_epi16. rewrite lane_slli by lane_side. apply packed_bit, lane_range. lia.
Qed.

(** Masked comparison against one bit per lane. *)
Lemma form_lane w x k : 0 < w -> 0 <= k < w ->
  wrap w (mask_of (Z.land x (2 ^ k) =? 2 ^ k)) = if Z.testbit x k then Z.ones w else 0.
Proof. intros Hw Hk. rewrite bit_test, wrap_mask by lia. reflexivity. Qed.

Ltac form_case w x :=
  match goal with
  | |- context [if Z.testbit x ?k then _ else _] => exact (form_lane w x k ltac:(lia) ltac:(lia))
  end.

Ltac interleave_case :=
  match goal with
  | |- lane 8 ?j (interleave 8 ?b ?v ?v) = _ =>
      let j' := eval vm_compute in j in exact (lane_interleave 8 b v j' ltac:(lane_side))
  end.

Lemma FSM_ok s op : forms Name.FSM s op 32 (u32_of s (ra op) 3).
Proof.
  unfold forms. handler. intros i Hi. change (128 / 32) with (Z.of_nat 4) in Hi.
  unfold mm_cmpeq_epi32, mm_cmpeq, mm_and_si128. rewrite lane_map2, lane_land by lane_side.
  unfold mm_shuffle_epi32. rewrite lane_build, lane_wrap by lia.
  unfold mm_set_epi32. rewrite lane_from32 by lia.
  revert i Hi. enum_lanes 4%nat; form_case 32 (u32_of s (ra op) 3).
Qed.

Lemma FSMH_ok s op : forms Name.FSMH s op 16 (u32_of s (ra op) 3).
Proof.
  unfold forms. handler. intros i Hi. change (128 / 16) with (Z.of_nat 8) in Hi.
  unfold mm_cmpeq_epi16, mm_cmpeq, mm_and_si128. rewrite lane_map2, lane_land by lane_side.
  rewrite lane16_shuffle32 by lia. unfold mm_unpackhi_epi16.
  pose proof (sel2_range 0xaa (i / 2)). pose proof (Z.mod_pos_bound i 2 ltac:(lia)).
  rewrite lane_interleave by lane_side. unfold mm_set_epi16. rewrite lane_build by lia.
  assert (Z.testbit (u32_of s (ra op) 3) i = Z.testbit (lane 16 6 (get s (ra op))) i) as ->.
  { unfold u32_of. rewrite !testbit_lane by lia. repeat bits_case. cbn. f_equal. }
  clear H0 H1. revert i Hi. enum_lanes 8%nat; form_case 16 (lane 16 6 (get s (ra op))).
Qed.

(** The byte mask: [2^(i mod 8)] in byte [i]. *)
Lemma fsmb_mask_lane i : 0 <= i < 16 -> lane 8 i fsmb_mask = 2 ^ (i mod 8).
Proof. unfold fsmb_mask. revert i. enum_lanes 16%nat; vm_compute; reflexivity. Qed.

Lemma FSMB_ok s op : forms Name.FSMB s op 8 (u32_of s (ra op) 3).
Proof.
  unfold forms. handler. intros i Hi. change (128 / 8) with (Z.of_nat 16) in Hi.
  unfold mm_cmpeq_epi8, mm_cmpeq, mm_and_si128. rewrite lane_map2, lane_land by lane_side.
  rewrite fsmb_mask_lane by lia. set (v := get s (ra op)).
  assert (lane 8 i (mm_shuffle_epi32 (mm_shufflehi_epi16 (mm_unpackhi_epi8 v v) 0x50) 0xfa)
          = lane 8 (12 + i / 8) v) as ->.
  { pose proof (sel2_range 0xfa (i / 4)). pose proof (Z.mod_pos_bound i 4 ltac:(lia)).
    rewrite lane8_shuffle32 by lia. rewrite lane8_shufflehi by lia. unfold mm_unpackhi_epi8.
    clear H0 H1. revert i Hi. enum_lanes 16%nat; interleave_case. }
  assert (Z.testbit (u32_of s (ra op) 3) i = Z.testbit (lane 8 (12 + i / 8) v) (i mod 8)) as ->.
  { unfold u32_of. pose proof (Z.mod_pos_bound i 8 ltac:(lia)). pose proof (Z.div_mod i 8 ltac:(lia)).
    assert (0 <= i / 8) by (apply Z.div_pos; lia). rewrite !testbit_lane by lia. repeat bits_case. cbn. f_equal. lia. }
  apply (form_lane 8); [lia|]. apply Z.mod_pos_bound. lia.
Qed.

Lemma FSMBI_ok s op : forms Name.FSMBI s op 8 (i16 op).
Proof.
  unfold forms. handler. intros i Hi. change (128 / 8) with (Z.of_nat 16) in Hi.
  unfold mm_cmpeq_epi8, mm_cmpeq, mm_and_si128. rewrite lane_map2, lane_land by lane_side.
  rewrite fsmb_mask_lane by lia. set (v := mm_set_epi32 0 0 0 (i16 op)).
  assert (lane 8 i (mm_shuffle_epi32 (mm_shufflelo_epi16 (mm_unpacklo_epi8 v v) 0x50) 0x50)
          = lane 8 (i / 8) v) as ->.
  { pose proof (sel2_range 0x50 (i / 4)). pose proof (Z.mod_pos_bound i 4 ltac:(lia)).
    rewrite lane8_shuffle32 by lia. rewrite lane8_shufflelo by lia. unfold mm_unpacklo_epi8.
    clear H0 H1. clearbody v. revert i Hi. enum_lanes 16%nat; interleave_case. }
  assert (Z.testbit (i16 op) i = Z.testbit (lane 8 (i / 8) v) (i mod 8)) as ->.
  { pose proof (Z.mod_pos_bound i 8 ltac:(lia)). pose proof (Z.div_mod i 8 ltac:(lia)).
    assert (0 <= i / 8 < 2) by (split; [apply Z.div_pos; lia|apply Z.div_lt_upper_bound; lia]).
    rewrite lane8_of32, (Z.mod_small (i / 8) 4), (Z.div_small (i / 8) 4), testbit_lane by lia.
    unfold v, mm_set_epi32. rewrite lane_from32 by lia. cbn [Z.eqb].
    rewrite testbit_wrap by lia. repeat bits_case. cbn. f_equal. lia. }
  apply (form_lane 8); [lia|]. apply Z.mod_pos_bound. lia.
Qed.

(** Gathering and forming.  GB, GBH and GBB put the low bits of the 4, 8 or 16
    elements of RA into the preferred word; FSM, FSMH and FSMB turn the low bits of the
    preferred word of RA into element masks, FSMBI those of the immediate. *)
Theorem gather_and_form s op :
  (gathers Name.GB s op 32 /\ gathers Name.GBH s op 16 /\ gathers Name.GBB s op 8) /\
  (forms Name.FSM s op 32 (u32_of s (ra op) 3) /\
   forms Name.FSMH s op 16 (u32_of s (ra op) 3) /\
   forms Name.FSMB s op 8 (u32_of s (ra op) 3) /\
   forms Name.FSMBI s op 8 (i16 op)).
Proof.
  exact (conj (conj (GB_ok s op) (conj (GBH_ok s op) (GBB_ok s op)))
              (conj (FSM_ok s op) (conj (FSMH_ok s op) (conj (FSMB_ok s op) (FSMBI_ok s op))))).
Qed.
End Masks.
