(* ===== verification/SpuFlow.v ===== *)
(** * SPU loads, stores, branches and the encoders' programs

    Effective addresses and local storage effects of the load and store forms,
    branch targets and link registers, interrupts at indirect branches, and that an
    encoded instruction, fetched and decoded, does what its encoder was asked for. *)

From Stdlib Require Import ZArith Lia Bool.
From stdpp Require Import base numbers list gmap.
From S2P Require Import Prelude V128 Bytes BitField SpuOpcodes SpuThread SpuInterp SpuWf SpuDecode SpuArith SpuElem SpuQuad.
Import spu_opcode_t Interp.

(** ** Effective addresses *)

(** Address modes: RA + RB, absolute, PC-relative, RA + displacement. *)
Inductive mode := MX | MA | MR | MD.

Definition load_of (m : mode) : Name.t :=
  match m with MX => Name.LQX | MA => Name.LQA | MR => Name.LQR | MD => Name.LQD end.
Definition store_of (m : mode) : Name.t :=
  match m with MX => Name.STQX | MA => Name.STQA | MR => Name.STQR | MD => Name.STQD end.

(** The byte address in exact arithmetic; 16-bit word offsets are signed. *)
Definition address (m : mode) (s : spu_thread) (op : Z) : Z :=
  match m with
  | MX => u32_of s (ra op) 3 + u32_of s (rb op) 3
  | MA => 4 * s16 (i16 op)
  | MR => pc s + 4 * s16 (i16 op)
  | MD => u32_of s (ra op) 3 + 16 * si10 op
  end.

(** The quadword of an address in the 256 KiB local storage. *)
Definition quad_of (a : Z) : Z := 16 * ((a mod SPU_LS_SIZE) / 16).

Lemma quad_of_ok a : quad_ok (quad_of a).
Proof.
  pose proof (Z.mod_pos_bound a SPU_LS_SIZE eq_refl) as Hr.
  unfold quad_of, quad_ok, SPU_LS_SIZE in *. Z.div_mod_to_equations. lia.
Qed.

Lemma mod_ls_wrap a b : u32 a = u32 b -> a mod SPU_LS_SIZE = b mod SPU_LS_SIZE.
Proof.
  intros E. change SPU_LS_SIZE with (2 ^ 18).
  rewrite <- (wrap_mod 32 a 18), <- (wrap_mod 32 b 18), E by lia. reflexivity.
Qed.

(** A 16-bit word offset, signed or not, is the same local storage offset. *)
Lemma word_offset p i :
  u32 (p + u32 (Z.shiftl i 2)) mod SPU_LS_SIZE = (p + 4 * s16 i) mod SPU_LS_SIZE.
Proof.
  rewrite wrap_add_r. change SPU_LS_SIZE with (2 ^ 18). rewrite wrap_mod by lia.
  rewrite Z.shiftl_mul_pow2 by lia. unfold sint.
  replace (p + i * 2 ^ 2) with (p + 4 * (i + 2 ^ (16 - 1)) - 4 * 2 ^ 15) by lia.
  replace (p + 4 * ((i + 2 ^ (16 - 1)) mod 2 ^ 16 - 2 ^ (16 - 1)))
    with (p + 4 * ((i + 2 ^ (16 - 1)) mod 2 ^ 16) - 4 * 2 ^ 15) by lia.
  set (y := i + 2 ^ (16 - 1)). rewrite (Z.div_mod y (2 ^ 16)) at 1 by lia.
  replace (p + 4 * (2 ^ 16 * (y / 2 ^ 16) + y mod 2 ^ 16) - 4 * 2 ^ 15)
    with (p + 4 * (y mod 2 ^ 16) - 4 * 2 ^ 15 + y / 2 ^ 16 * 2 ^ 18) by lia.
  apply Z.mod_add. lia.
Qed.

Lemma ls_target_quad_of p i : spu_ls_target p i = quad_of (p + 4 * s16 i).
Proof. unfold spu_ls_target, quad_of. rewrite land_quad_div, word_offset. reflexivity. Qed.

Lemma d_addr s r i :
  Z.land (s32 (s32_of s r 3 + i * 16)) 0x3fff0 = quad_of (u32_of s r 3 + 16 * i).
Proof.
  rewrite land_quad_div. unfold quad_of.
  rewrite (mod_ls_wrap (s32 (s32_of s r 3 + i * 16)) (u32_of s r 3 + 16 * i)); [reflexivity|].
  rewrite wrap_sint by lia. unfold s32_of, slane.
  rewrite <- wrap_add_l, wrap_sint, wrap_add_l by lia. f_equal. unfold u32_of. lia.
Qed.

Section LoadStore.
Context `{SpuHost}.

Lemma load_exec m s op :
  exec (load_of m) s op = Ret true (set s (rt op) (ref_v128 s (quad_of (address m s op)))).
Proof.
  destruct m; cbn [load_of exec address].
  - unfold LQX. rewrite land_quad_div. unfold quad_of. change SPU_LS_SIZE with (2 ^ 18).
    rewrite wrap_mod by lia. reflexivity.
  - unfold LQA. rewrite ls_target_quad_of. reflexivity.
  - unfold LQR. rewrite ls_target_quad_of. reflexivity.
  - unfold LQD. rewrite d_addr. reflexivity.
Qed.
Lemma store_exec m s op :
  exec (store_of m) s op = Ret true (set_ref_v128 s (quad_of (address m s op)) (get s (rt op))).
Proof.
  destruct m; cbn [store_of exec address].
  - unfold STQX. rewrite land_quad_div. unfold quad_of. change SPU_LS_SIZE with (2 ^ 18).
    rewrite wrap_mod by lia. reflexivity.
  - unfold STQA. rewrite ls_target_quad_of. reflexivity.
  - unfold STQR. rewrite ls_target_quad_of. reflexivity.
  - unfold STQD. rewrite d_addr. reflexivity.
Qed.

(** Loads and stores.  In all four address modes a load puts into RT the sixteen
    bytes of the addressed quadword (byte 0 at the lowest address), changing nothing
    else; a store changes exactly those sixteen bytes of local storage; the address is
    taken modulo 256 KiB and its low four bits are ignored; and a load through the same
    address after a store returns the stored register. *)
Theorem load_store m s op :
  wf s ->
  let q := quad_of (address m s op) in
  quad_ok q /\
  writes (load_of m) s op (rt op) (fun v => forall k, 0 <= k < 16 -> byte_of k v = byte_at (ls s) (q + k)) /\
  exists t, exec (store_of m) s op = Ret true t /\
    gpr t = gpr s /\ pc t = pc s /\
    (forall x, byte_at (ls t) x =
       if x / 16 =? q / 16 then byte_of (x mod 16) (get s (rt op)) else byte_at (ls s) x) /\
    exec (load_of m) t op = Ret true t.
Proof.
  intros Hwf q. pose proof (quad_of_ok (address m s op)) as Hq. fold q in Hq.
  pose proof (reg_rt op) as Hr. split; [exact Hq|]. split.
  - eexists. split; [apply load_exec|]. split; [apply ref_v128_range, Hwf|].
    intros k Hk. apply byte_of_ref; auto.
  - eexists. split; [apply store_exec|]. fold q. split; [reflexivity|]. split; [reflexivity|].
    split; [intros x; apply ls_byte_set_ref, Hq|].
    rewrite load_exec. replace (quad_of (address m (set_ref_v128 s q (get s (rt op))) op)) with q
      by (destruct m; reflexivity).
    rewrite ref_set_ref_eq by auto using get_range.
    f_equal. change (get s (rt op)) with (get (set_ref_v128 s q (get s (rt op))) (rt op)) at 2.
    apply set_get; auto. apply wf_set_ref; auto.
Qed.
End LoadStore.

Lemma load_store_witness :
  quad_ok (quad_of (address MX Bare.sample Bare.op345)) /\
  quad_of (address MX Bare.sample Bare.op345) = 0.
Proof.
  split; [exact (proj1 (@load_store Bare.host MX Bare.sample Bare.op345 Bare.sample_wf))|].
  vm_compute. reflexivity.
Defined.

(** ** Branches *)

(** An instruction address in local storage. *)
Definition insn_of (a : Z) : Z := 4 * ((a mod SPU_LS_SIZE) / 4).

Lemma branch_target_insn p i : spu_branch_target p i = insn_of (p + 4 * s16 i).
Proof.
  unfold spu_branch_target, insn_of.
  assert (forall y, Z.land y 0x3fffc = 4 * ((y mod SPU_LS_SIZE) / 4)) as Hl.
  { intros y. change (y mod SPU_LS_SIZE) with (wrap 18 y). change 4 with (2 ^ 2).
    rewrite Z.mul_comm, <- Z.shiftr_div_pow2, <- Z.shiftl_mul_pow2 by lia.
    change 0x3fffc with (Z.shiftl (Z.ones 16) 2). bits. }
  rewrite Hl, word_offset. reflexivity.
Qed.

Lemma branch_target_0 p : spu_branch_target p 0 = insn_of p.
Proof. rewrite branch_target_insn. f_equal. change (s16 0) with 0. lia. Qed.

Lemma insn_link p : addr_ok p -> insn_of (u32 (p + 4)) = (p + 4) mod SPU_LS_SIZE.
Proof.
  intros [_ H4]. unfold insn_of. change SPU_LS_SIZE with (2 ^ 18). rewrite wrap_mod by lia.
  Z.div_mod_to_equations. lia.
Qed.

Section Branches.
Context `{SpuHost}.
Context (s : spu_thread) (op : Z).

(** [n] jumps to [target] when [c] holds and falls through otherwise. *)
Definition jumps (n : Name.t) (c : bool) (target : Z) : Prop :=
  exec n s op = if c then Ret false (with_pc target s) else Ret true s.
(** The same after writing the return address to RT. *)
Definition calls (n : Name.t) (target : Z) : Prop :=
  exec n s op = Ret false (with_pc target (set s (rt op) (from32r ((pc s + 4) mod SPU_LS_SIZE)))).

Lemma indirect_quiet t : 
  e op = 0 -> d op = 0 -> ch_events_t.count (ch_events s) = false ->
  forall u, ch_events u = ch_events s -> branch_indirect u op t = Ret false (with_pc t u).
Proof.
  intros He Hd Hc u Hu. unfold branch_indirect, set_interrupt_status, resume_interrupts, check_mfc_interrupts.
  rewrite He, Hd. cbn. rewrite Hu, Hc. reflexivity.
Qed.

(** Branches.  Relative targets are the address of the branch plus the signed word
    offset, absolute ones the offset, indirect ones the preferred word of RA read before
    RT is written; all are reduced to an aligned local storage address.  Conditional forms
    test the preferred word or halfword of RT for zero.  The linking forms leave the
    address of the next instruction in the preferred word of RT and zero in the rest.
    Without E/D bits and pending events the indirect forms only change the PC. *)
Theorem branches :
  wf s ->
  let zw := u32_of s (rt op) 3 =? 0 in
  let zh := u16_of s (rt op) 6 =? 0 in
  let rel := insn_of (pc s + 4 * s16 (i16 op)) in
  let abs := insn_of (4 * s16 (i16 op)) in
  let ind := insn_of (u32_of s (ra op) 3) in
  (jumps Name.BR true rel /\ jumps Name.BRA true abs /\ jumps Name.BRZ zw rel /\
   jumps Name.BRNZ (negb zw) rel /\ jumps Name.BRHZ zh rel /\ jumps Name.BRHNZ (negb zh) rel) /\
  (calls Name.BRSL rel /\ calls Name.BRASL abs) /\
  (e op = 0 -> d op = 0 -> ch_events_t.count (ch_events s) = false ->
   jumps Name.BI true ind /\ jumps Name.BIZ zw ind /\ jumps Name.BINZ (negb zw) ind /\
   jumps Name.BIHZ zh ind /\ jumps Name.BIHNZ (negb zh) ind /\ calls Name.BISL ind /\
   jumps Name.IRET true (srr0 s)).
Proof.
  intros Hwf zw zh rel abs ind. unfold jumps, calls. cbn [exec].
  unfold BR, BRA, BRZ, BRNZ, BRHZ, BRHNZ, BRSL, BRASL, BI, BIZ, BINZ, BIHZ, BIHNZ, BISL, IRET.
  cbv zeta. rewrite !branch_target_0, !branch_target_insn, !insn_link by apply Hwf.
  fold zw zh rel ind. change (insn_of (0 + 4 * s16 (i16 op))) with abs.
  split; [|split].
  - split_and!; reflexivity.
  - split_and!; reflexivity.
  - intros He Hd Hc. pose proof (fun t => indirect_quiet t He Hd Hc) as Hq.
    clearbody zw zh. destruct zw, zh; cbn [negb]; split_and!; try reflexivity; apply Hq; reflexivity.
Qed.
End Branches.

Lemma branches_witness : @jumps Bare.host Bare.sample Bare.op345 Name.BR true (insn_of (4 * s16 (i16 Bare.op345))).
Proof. exact (proj1 (proj1 (@branches Bare.host Bare.sample Bare.op345 Bare.sample_wf))). Defined.

(** ** Interrupts at indirect branches *)

Section Interrupt.
Context `{SpuHost}.

(** Taking an interrupt.  When interrupts are enabled and an event is counted, an
    indirect branch (without E/D bits) to [target] goes to the interrupt handler instead:
    the target is saved in SRR0, interrupts are disabled, and the PC becomes the vector at
    address 0 (the target of an absolute [br] there, or 0); pending MFC work is done after. *)
Theorem interrupt_taken s op target :
  e op = 0 -> d op = 0 -> ch_events_t.count (ch_events s) = true -> interrupts_enabled s = true ->
  let word := ref_u32 s 0 in
  let vector := if Z.land word 0xfd80007f =? 0x30000000 then Z.land (Z.shiftr word 5) 0x3fffc else 0 in
  let t := with_pc vector (with_srr0 target (with_interrupts false (with_pc target s))) in
  branch_indirect s op target =
    Ret false (if Z.land (state s) cpu_flag_pending =? 0 then t else do_mfc t).
Proof.
  intros He Hd Hc Hi word vector t.
  unfold branch_indirect, set_interrupt_status, resume_interrupts, check_mfc_interrupts.
  rewrite He, Hd. cbn [Z.eqb negb]. cbn [ch_events with_pc interrupts_enabled]. rewrite Hc, Hi.
  cbn [andb state with_pc with_srr0 with_interrupts].
  destruct (Z.land (state s) cpu_flag_pending =? 0); reflexivity.
Qed.
End Interrupt.

(** The sample thread with interrupts on and an event counted. *)
Definition eventful : spu_thread :=
  mk_spu_thread (gpr Bare.sample) 0 (ls Bare.sample) 0 (2 ^ 31) true false 0 false 0 0.
Lemma interrupt_taken_witness :
  exists t, @branch_indirect Bare.host eventful Bare.op345 64 = Ret false t /\ pc t = 0 /\ srr0 t = 64.
Proof.
  eexists. split; [exact (@interrupt_taken Bare.host eventful Bare.op345 64 eq_refl eq_refl eq_refl eq_refl)|].
  vm_compute. auto.
Defined.

(** ** Encoded instructions *)

Section Encoded.
Context `{SpuHost}.

(** The outcome of fetching the word [op] at the PC. *)
Definition runs (s : spu_thread) (op : Z) : exec_result :=
  match exec (decode op) s op with
  | Ret true s => Ret true (with_pc (u32 (pc s + 4)) s)
  | r => r
  end.

Lemma step_fetch s op : fetch s = Some op -> step s = runs s op.
Proof. intros E. unfold step. rewrite E. reflexivity. Qed.

(** The state after an advancing instruction that sets one register. *)
Definition next (s : spu_thread) (r v : Z) : spu_thread := with_pc (u32 (pc s + 4)) (set s r v).

Lemma s16_u16 i : s16 (u16 i) = s16 i.
Proof. apply sint_wrap. lia. Qed.

(** Encoders, decoder and handlers agree.  A word made by an encoder of
    [spu_instructions] for registers [t], [a], [b], fetched at the PC, does what was asked:
    SF and XOR combine the registers, AI adds the sign-extended immediate to every word,
    ILA loads the 18-bit immediate into every word, LQD and STQD access the quadword at
    RA plus the byte offset, and BR and BRNZ jump by the byte offset of either sign. *)
Theorem encoded_instructions s t a b i w18 :
  wf s -> in_range 7 t -> in_range 7 a -> in_range 7 b -> - 2 ^ 9 <= i < 2 ^ 9 ->
  in_range 18 w18 ->
  let q := quad_of (u32_of s a 3 + 16 * i) in
  runs s (spu_instructions.SF t a b) = Ret true (next s t (gv_sub32 (get s b) (get s a))) /\
  runs s (spu_instructions.XOR t a b) = Ret true (next s t (Z.lxor (get s a) (get s b))) /\
  runs s (spu_instructions.AI t a i) = Ret true (next s t (map2 32 Z.add (splat 32 i) (get s a))) /\
  runs s (spu_instructions.ILA t w18) = Ret true (next s t (splat 32 w18)) /\
  runs s (spu_instructions.LQD t a (16 * i)) = Ret true (next s t (ref_v128 s q)) /\
  runs s (spu_instructions.STQD t a (16 * i)) =
    Ret true (with_pc (u32 (pc s + 4)) (set_ref_v128 s q (get s t))) /\
  runs s (spu_instructions.BR (4 * i)) = Ret false (with_pc (insn_of (pc s + 4 * i)) s) /\
  runs s (spu_instructions.BRNZ t (4 * i)) =
    (if u32_of s t 3 =? 0 then Ret true (with_pc (u32 (pc s + 4)) s)
     else Ret false (with_pc (insn_of (pc s + 4 * i)) s)).
Proof.
  intros Hwf Ht Ha Hb Hi Hw q.
  destruct (SF_decodes t a b Ht Ha Hb) as (D1 & E1 & E2 & E3).
  destruct (XOR_decodes t a b Ht Ha Hb) as (D2 & F1 & F2 & F3).
  destruct (AI_decodes t a Ht Ha i Hi) as (D3 & G1 & G2 & G3).
  destruct (ILA_decodes t Ht w18 Hw) as (D4 & I1 & I2).
  destruct (LQD_decodes t a Ht Ha i Hi) as (D5 & J1 & J2 & J3).
  destruct (STQD_decodes t a Ht Ha i Hi) as (D6 & K1 & K2 & K3).
  destruct (BR_decodes i) as (D7 & L1). destruct (BRNZ_decodes t Ht i) as (D8 & M1 & M2).
  assert (insn_of (pc s + 4 * s16 (u16 i)) = insn_of (pc s + 4 * i)) as Eb
    by (rewrite s16_u16, sint_small by lia; reflexivity).
  unfold runs, next. rewrite D1, D2, D3, D4, D5, D6, D7, D8. cbn [exec].
  unfold SF, XOR, AI, ILA, LQD, STQD, BR, BRNZ.
  rewrite E1, E2, E3, F1, F2, F3, G1, G2, G3, I1, I2, J1, J2, J3, K1, K2, K3, L1, M1, M2.
  rewrite !d_addr, !branch_target_insn, Eb. fold q.
  split_and!; try reflexivity. destruct (u32_of s t 3 =? 0); reflexivity.
Qed.
End Encoded.

Lemma encoded_instructions_witness :
  @runs Bare.host Bare.sample (spu_instructions.SF 5 3 4)
    = Ret true (next Bare.sample 5 (gv_sub32 (get Bare.sample 4) (get Bare.sample 3))).
Proof.
  exact (proj1 (@encoded_instructions Bare.host Bare.sample 5 3 4 0 0 Bare.sample_wf
    ltac:(vm_compute; intuition congruence) ltac:(vm_compute; intuition congruence)
    ltac:(vm_compute; intuition congruence) ltac:(lia) ltac:(vm_compute; intuition congruence))).
Defined.
