(* ===== verification/SpuChannel.v ===== *)
(** * SPU channels ([spu_channel] of Emu/Cell/SPUThread.h, SPUThread.cpp)

    A channel holds one value, in the low word of [data], with flags in the high word: the
    value is there ([bit_count]), the SPU waits ([bit_wait]), the SPU waits to take or to put a
    value ([bit_occupy]).  A value that meets a waiting SPU goes through [jostling_value].
    The SPU and the threads around it run the member functions at the same time.  Each function
    is a machine of atomic actions; [fetch_op] with a function of [data] alone is one action, and
    where the function also touches [jostling_value] the load, the function and the compare and
    swap are actions of their own.  A wait for a notification may end at any time, as the code
    looks at [data] again after it. *)

From Stdlib Require Import ZArith Lia Bool.
From stdpp Require Import base numbers list option.
From S2P Require Import Prelude.

Record spu_channel := mk_channel { data : Z; jostling_value : Z }.
Definition with_data (d : Z) (c : spu_channel) : spu_channel := mk_channel d (jostling_value c).
Definition with_jostling (j : Z) (c : spu_channel) : spu_channel := mk_channel (data c) j.

Definition off_wait : Z := 32.
Definition off_occupy : Z := 33.
Definition off_count : Z := 63.
Definition bit_wait : Z := 2 ^ off_wait.
Definition bit_occupy : Z := 2 ^ off_occupy.
Definition bit_count : Z := 2 ^ off_count.
Definition occupy_ored_wait : Z := Z.lor bit_wait bit_occupy.

(** [data & bit], as a condition. *)
Definition has (d bit : Z) : bool := negb (Z.land d bit =? 0).

(** ** Functions of one action *)

Definition try_push (value : Z) (c : spu_channel) : bool * spu_channel :=
  if negb (has (data c) bit_count) then (true, with_data (Z.lor bit_count value) c) else (false, c).
Definition try_pop (c : spu_channel) : option Z * spu_channel :=
  if has (data c) bit_count then (Some (u32 (data c)), with_data 0 c) else (None, c).
Definition try_read (c : spu_channel) : bool * Z := (has (data c) bit_count, u32 (data c)).
Definition set_value (value : Z) (count : bool) (c : spu_channel) : spu_channel :=
  with_data (Z.lor (Z.shiftl (Z.b2z count) off_count) value) c.
Definition get_value (c : spu_channel) : Z := u32 (data c).
Definition get_count (c : spu_channel) : Z := if has (data c) bit_count then 1 else 0.

(** ** What happens to the value *)

(** The functions that the SPU calls, and those of the threads around it. *)
Inductive spu_call := PopWait (pop : bool) | PushWait (value : Z) (push : bool).
Inductive ext_call := Push (value : Z) (to_or : bool) | Pop.

(** A value is put (with [or]: into the one that is there), is taken, was not there to be
    taken; a function of the SPU, or of thread [i] around it, is called and returns. *)
Inductive label :=
| Pushed (or : bool) (value : Z) | Popped (value : Z) | Missed (last : Z)
| SpuCalled (k : spu_call) | ExtCalled (i : nat) (k : ext_call)
| SpuReturned (r : Z) | PushReturned (i : nat) (old_count : Z) (notify : bool) | PopReturned (i : nat) (r : Z).

(** ** The SPU's functions *)

(** [Halted]: it has returned on a stopped thread.  [Throwing]: [ensure] failed. *)
Inductive spu_point :=
| Idle | Halted (r : Z) | Throwing
| RLoad (pop : bool) | RBody (pop : bool) (old : Z) | RCas (pop : bool) (old new : Z) | RBusy (pop : bool) (i : nat)
| RWait (pop : bool) | RTake (pop : bool) | RAbort (pop : bool) | RDrain (v : Z) | RClear
| PLoad (value : Z) (push : bool) | PBody (value : Z) (push : bool) (old : Z) | PCas (value : Z) (push : bool) (old new : Z)
| PBusy (i : nat) (state : Z) | PWait (state : Z) | PReload.

Definition spu_entry (k : spu_call) : spu_point :=
  match k with PopWait pop => RLoad pop | PushWait value push => PLoad value push end.

(** [pop_wait]; [stopped] is what [spu.is_stopped()] answers. *)
Definition pop_wait (stopped : bool) (p : spu_point) (c : spu_channel) : option (spu_point * spu_channel * list label) :=
  match p with
  | RLoad pop => Some (RBody pop (data c), c, [])
  | RBody pop old =>
      Some (if has old bit_count
            then (if pop then (RCas pop old 0, c, []) else (Idle, c, [SpuReturned (u32 old)]))
            else (RCas pop old (Z.lor (if pop then bit_occupy else 0) bit_wait), if pop then with_jostling bit_occupy c else c, []))
  | RCas pop old new =>
      Some (if data c =? old
            then (if has old bit_count then (Idle, with_data new c, [Popped (u32 old); SpuReturned (u32 old)])
                  else (RBusy pop 10, with_data new c, []))
            else (RBody pop (data c), c, []))
  | RBusy pop (S i) => Some (if negb (has (data c) bit_wait) then (RTake pop, c, []) else (RBusy pop i, c, []))
  | RBusy pop O => Some (RWait pop, c, [])
  | RTake pop =>
      Some (if pop then (Idle, with_jostling 0 c, [SpuReturned (u32 (jostling_value c))])
            else (Idle, c, [SpuReturned (u32 (data c))]))
  | RWait pop => Some (if negb (has (data c) bit_wait) then (RTake pop, c, []) else if stopped then (RAbort pop, c, []) else (RWait pop, c, []))
  | RAbort pop =>
      Some (if pop
            then let v := jostling_value c in (if negb (has v bit_occupy) then RDrain v else RClear, with_jostling 0 c, [])
            else (Halted (-1), with_data (Z.ldiff (data c) bit_wait) c, [SpuReturned (-1)]))
  | RDrain v => Some (if has (data c) bit_wait then (RDrain v, c, []) else (Halted (u32 v), c, [SpuReturned (u32 v)]))
  | RClear =>
      let old := data c in
      let c := with_data (Z.ldiff old (Z.lor bit_wait bit_occupy)) c in
      Some (if has old bit_wait then (Halted (-1), c, [SpuReturned (-1)]) else (Throwing, c, []))
  | _ => None
  end.

(** [push_wait]; it returns 1 for [true]. *)
Definition push_wait (stopped : bool) (p : spu_point) (c : spu_channel) : option (spu_point * spu_channel * list label) :=
  match p with
  | PLoad value push => Some (PBody value push (data c), c, [])
  | PBody value push old =>
      Some (if has old bit_count
            then (PCas value push old (Z.lor old (Z.lor (if push then bit_occupy else 0) bit_wait)),
                  with_jostling (if push then value else u32 old) c, [])
            else if push then (PCas value push old (Z.lor bit_count value), c, [])
            else (PBusy 10 old, c, []))
  | PCas value push old new =>
      Some (if data c =? old then (PBusy 10 new, with_data new c, if has old bit_count then [] else [Pushed false value])
            else (PBody value push (data c), c, []))
  | PBusy (S i) state => Some (if negb (has state bit_wait) then (Idle, c, [SpuReturned 1]) else (PBusy i (data c), c, []))
  | PBusy O state => Some (PWait state, c, [])
  | PWait state =>
      Some (if negb (has state bit_wait) then (Idle, c, [SpuReturned 1])
            else if stopped
            then let r := Z.b2z (negb (has (data c) bit_wait)) in (Halted r, with_data (Z.ldiff (data c) bit_wait) c, [SpuReturned r])
            else (PReload, c, []))
  | PReload => Some (PWait (data c), c, [])
  | _ => None
  end.

Definition spu_act (stopped : bool) (p : spu_point) (c : spu_channel) : option (spu_point * spu_channel * list label) :=
  match p with
  | RLoad _ | RBody _ _ | RCas _ _ _ | RBusy _ _ | RWait _ | RTake _ | RAbort _ | RDrain _ | RClear => pop_wait stopped p c
  | PLoad _ _ | PBody _ _ _ | PCas _ _ _ _ | PBusy _ _ | PWait _ | PReload => push_wait stopped p c
  | Idle | Halted _ | Throwing => None
  end.

(** ** The functions of the threads around it *)

Inductive ext_point :=
| XIdle | XThrowing
| WFetch (value : Z) (to_or : bool) | WJostle (value : Z) (to_or : bool) (old : Z) | WClear (value : Z) (to_or : bool) (old : Z)
| XLoad | XBody (old : Z) | XCas (old new : Z).

Definition ext_entry (k : ext_call) : ext_point := match k with Push value to_or => WFetch value to_or | Pop => XLoad end.

(** [push] by thread [i], returning the count that it found and whether there is one to notify;
    the new count is 1 and the operation done in all cases. *)
Definition push (i : nat) (p : ext_point) (c : spu_channel) : option (ext_point * spu_channel * list label) :=
  match p with
  | WFetch value to_or =>
      let old := data c in
      Some (if has old bit_occupy then (WJostle value to_or old, c, [])
            else (XIdle, with_data (if to_or then Z.lor bit_count (Z.lor (u32 old) value) else Z.lor bit_count value) c,
                  [Pushed to_or value; PushReturned i (Z.b2z (has old bit_count)) (has old bit_wait)]))
  | WJostle value to_or old =>
      Some (if jostling_value c =? bit_occupy then (WClear value to_or old, with_jostling value c, []) else (WFetch value to_or, c, []))
  | WClear value to_or old =>
      let d := data c in
      let c := with_data (Z.ldiff d occupy_ored_wait) c in
      Some (if negb (has d bit_wait) then (XThrowing, c, [])
            else if negb (has old bit_wait) then (XThrowing, c, [])
            else (XIdle, c, [Pushed to_or value; Popped value; PushReturned i (Z.b2z (has old bit_count)) (has old bit_wait)]))
  | _ => None
  end.

(** [pop], returning the value that it found, be it new or not. *)
Definition pop (i : nat) (p : ext_point) (c : spu_channel) : option (ext_point * spu_channel * list label) :=
  let mask := Z.lor bit_count bit_occupy in
  match p with
  | XLoad => Some (XBody (data c), c, [])
  | XBody old =>
      Some (if Z.land old mask =? mask then (XCas old (Z.lor bit_count (u32 (jostling_value c))), c, [])
            else (XCas old (Z.ldiff old (Z.lor mask bit_wait)), c, []))
  | XCas old new =>
      Some (if data c =? old
            then (XIdle, with_data new c,
                  (if Z.land old mask =? mask then [Popped (u32 old); Pushed false (u32 new)]
                   else if has old bit_count then [Popped (u32 old)] else [Missed (u32 old)]) ++ [PopReturned i (u32 old)])
            else (XBody (data c), c, []))
  | _ => None
  end.

Definition ext_act (i : nat) (p : ext_point) (c : spu_channel) : option (ext_point * spu_channel * list label) :=
  match p with
  | WFetch _ _ | WJostle _ _ _ | WClear _ _ _ => push i p c
  | XLoad | XBody _ | XCas _ _ => pop i p c
  | XIdle | XThrowing => None
  end.

(** ** All interleavings

    [spu_may] and [ext_may]: the functions that are called on this channel. *)
Section System.
Context (spu_may : spu_call -> bool) (ext_may : ext_call -> bool).

Record sys := mk_sys { spu : spu_point; ext : list ext_point; channel : spu_channel }.

Inductive ch_step : sys -> list label -> sys -> Prop :=
| spu_acts stopped p xs c p' c' l :
    spu_act stopped p c = Some (p', c', l) -> ch_step (mk_sys p xs c) l (mk_sys p' xs c')
| ext_acts p xs c i x x' c' l :
    xs !! i = Some x -> ext_act i x c = Some (x', c', l) -> ch_step (mk_sys p xs c) l (mk_sys p (<[i := x']> xs) c')
| spu_calls xs c k : spu_may k = true -> ch_step (mk_sys Idle xs c) [SpuCalled k] (mk_sys (spu_entry k) xs c)
| ext_calls p xs c i k :
    xs !! i = Some XIdle -> ext_may k = true -> ch_step (mk_sys p xs c) [ExtCalled i k] (mk_sys p (<[i := ext_entry k]> xs) c).

Inductive ch_steps (s : sys) : list label -> sys -> Prop :=
| ch_none : ch_steps s [] s
| ch_more tr s' l s'' : ch_steps s tr s' -> ch_step s' l s'' -> ch_steps s (tr ++ l) s''.

Lemma ch_invariant (I : list label -> sys -> Prop) s0 :
  I [] s0 -> (forall tr s l s', I tr s -> ch_step s l s' -> I (tr ++ l) s') -> forall tr s, ch_steps s0 tr s -> I tr s.
Proof. intros H0 H tr s Hs. induction Hs; eauto. Qed.

(** Schedules, to run examples. *)
Inductive move := Spu | SpuStop | Ext (i : nat) | SpuBegin (k : spu_call) | ExtBegin (i : nat) (k : ext_call).
Definition do_move (m : move) (s : sys) : option (list label * sys) :=
  let act stopped :=
    match spu_act stopped (spu s) (channel s) with Some (p', c', l) => Some (l, mk_sys p' (ext s) c') | None => None end in
  match m with
  | Spu => act false
  | SpuStop => act true
  | Ext i => match ext s !! i with
             | Some x => match ext_act i x (channel s) with
                         | Some (x', c', l) => Some (l, mk_sys (spu s) (<[i := x']> (ext s)) c')
                         | None => None
                         end
             | None => None
             end
  | SpuBegin k => match spu s with
                  | Idle => if spu_may k then Some ([SpuCalled k], mk_sys (spu_entry k) (ext s) (channel s)) else None
                  | _ => None
                  end
  | ExtBegin i k => match ext s !! i with
                    | Some XIdle => if ext_may k then Some ([ExtCalled i k], mk_sys (spu s) (<[i := ext_entry k]> (ext s)) (channel s)) else None
                    | _ => None
                    end
  end.
Fixpoint do_moves (ms : list move) (s : sys) : option (list label * sys) :=
  match ms with
  | [] => Some ([], s)
  | m :: ms => match do_move m s with
               | Some (l, s') => match do_moves ms s' with Some (tr, s'') => Some (l ++ tr, s'') | None => None end
               | None => None
               end
  end.

Lemma ch_move m s l s' : do_move m s = Some (l, s') -> ch_step s l s'.
Proof.
  destruct s as [p xs c], m as [| |i|k|i k]; cbn [do_move spu ext channel].
  - destruct (spu_act false p c) as [[[p' c'] l0]|] eqn:E; [|discriminate]. intros [= <- <-]. eapply spu_acts, E.
  - destruct (spu_act true p c) as [[[p' c'] l0]|] eqn:E; [|discriminate]. intros [= <- <-]. eapply spu_acts, E.
  - destruct (xs !! i) as [x|] eqn:Ex; [|discriminate]. destruct (ext_act i x c) as [[[x' c'] l0]|] eqn:E; [|discriminate].
    intros [= <- <-]. eapply ext_acts; eauto.
  - destruct p; try discriminate. destruct (spu_may k) eqn:E; [|discriminate]. intros [= <- <-]. apply spu_calls, E.
  - destruct (xs !! i) as [[]|] eqn:Ex; try discriminate. destruct (ext_may k) eqn:E; [|discriminate].
    intros [= <- <-]. apply ext_calls; assumption.
Qed.
Lemma ch_schedule ms s tr s' : do_moves ms s = Some (tr, s') -> ch_steps s tr s'.
Proof.
  enough (forall tr0 s0, ch_steps s0 tr0 s -> do_moves ms s = Some (tr, s') -> ch_steps s0 (tr0 ++ tr) s') as H
    by (intros E; exact (H [] s (ch_none s) E)).
  revert s tr. induction ms as [|m ms IH]; intros s tr tr0 s0 H0 E; cbn in E.
  - injection E as <- <-. rewrite app_nil_r. exact H0.
  - destruct (do_move m s) as [[l s1]|] eqn:Em; [|discriminate].
    destruct (do_moves ms s1) as [[tr1 s2]|] eqn:Ems; [|discriminate]. injection E as <- <-.
    rewrite app_assoc. eapply IH; [|exact Ems]. eapply ch_more; [exact H0|]. exact (ch_move _ _ _ _ Em).
Qed.
End System.
