(* ===== verification/SpuMailbox.v ===== *)
(** * Inbound SPU channels under all interleavings

    The word [data] as flags and a value, and inbound channels, which the SPU reads with
    [pop_wait] and another thread writes with [push]: a mailbox for one value.  With two threads
    that write it an [ensure] can fail. *)

From Stdlib Require Import ZArith Lia Bool.
From stdpp Require Import base numbers list option.
From S2P Require Import Prelude SpuChannel.

(** ** The word [data] *)

Definition flags (c o w : bool) : Z :=
  Z.lor (Z.lor (if c then bit_count else 0) (if o then bit_occupy else 0)) (if w then bit_wait else 0).
Definition word (c o w : bool) (v : Z) : Z := Z.lor (flags c o w) v.

Lemma land_above v m : in_range 32 v -> Z.shiftl (Z.shiftr m 32) 32 = m -> Z.land v m = 0.
Proof.
  intros Hv <-. apply Z.bits_inj'. intros k Hk. rewrite Z.land_spec, Z.bits_0, testbit_shiftl by lia.
  destruct (Z.leb_spec 32 k); [|apply andb_false_r]. rewrite (testbit_high 32 v) by (auto; lia). reflexivity.
Qed.
Lemma word_land c o w v m : in_range 32 v -> Z.shiftl (Z.shiftr m 32) 32 = m -> Z.land (word c o w v) m = Z.land (flags c o w) m.
Proof. intros Hv Hm. unfold word. rewrite Z.land_lor_distr_l, (land_above v m Hv Hm), Z.lor_0_r. reflexivity. Qed.
Lemma word_ldiff c o w v m :
  in_range 32 v -> Z.shiftl (Z.shiftr m 32) 32 = m -> Z.ldiff (word c o w v) m = Z.lor (Z.ldiff (flags c o w) m) v.
Proof.
  intros Hv Hm. unfold word. apply Z.bits_inj'. intros k Hk. rewrite !Z.ldiff_spec, !Z.lor_spec, Z.ldiff_spec.
  pose proof (f_equal (fun z => Z.testbit z k) (land_above v m Hv Hm)) as E. cbv beta in E. rewrite Z.land_spec, Z.bits_0 in E.
  destruct (Z.testbit (flags c o w) k), (Z.testbit v k), (Z.testbit m k); cbn in *; congruence.
Qed.
Lemma word_value c o w v : in_range 32 v -> u32 (word c o w v) = v.
Proof.
  intros Hv. unfold word. transitivity (Z.lor (u32 (flags c o w)) (u32 v)); [bits|].
  rewrite (wrap_small 32 v Hv). destruct c, o, w; reflexivity.
Qed.
Section Bits.
Context (c o w : bool) (v : Z) (Hv : in_range 32 v).
Lemma word_count : has (word c o w v) bit_count = c.
Proof. unfold has. rewrite word_land by auto. destruct c, o, w; reflexivity. Qed.
Lemma word_occupy : has (word c o w v) bit_occupy = o.
Proof. unfold has. rewrite word_land by auto. destruct c, o, w; reflexivity. Qed.
Lemma word_wait : has (word c o w v) bit_wait = w.
Proof. unfold has. rewrite word_land by auto. destruct c, o, w; reflexivity. Qed.
Lemma word_mask : (Z.land (word c o w v) (Z.lor bit_count bit_occupy) =? Z.lor bit_count bit_occupy) = c && o.
Proof. rewrite word_land by auto. destruct c, o, w; reflexivity. Qed.
Lemma word_release : Z.ldiff (word c o w v) (Z.lor bit_wait bit_occupy) = word c false false v.
Proof. rewrite word_ldiff by auto. destruct c, o, w; reflexivity. Qed.
Lemma word_take : Z.ldiff (word c o w v) (Z.lor (Z.lor bit_count bit_occupy) bit_wait) = word false false false v.
Proof. rewrite word_ldiff by auto. destruct c, o, w; reflexivity. Qed.
Lemma word_unwait : Z.ldiff (word c o w v) bit_wait = word c o false v.
Proof. rewrite word_ldiff by auto. destruct c, o, w; reflexivity. Qed.
Lemma word_claim : Z.lor (word c o w v) (Z.lor bit_occupy bit_wait) = word c true true v.
Proof.
  unfold word. rewrite <- (Z.lor_assoc (flags c o w) v), (Z.lor_comm v), (Z.lor_assoc (flags c o w)). destruct c, o, w; reflexivity.
Qed.
End Bits.
Lemma word_new v : Z.lor bit_count v = word true false false v.
Proof. reflexivity. Qed.
Lemma word_empty : word false false false 0 = 0.
Proof. reflexivity. Qed.
Lemma word_waits : Z.lor bit_occupy bit_wait = word false true true 0.
Proof. reflexivity. Qed.
Lemma word_inj c o w v c' o' w' v' :
  in_range 32 v -> in_range 32 v' -> word c o w v = word c' o' w' v' -> c = c' /\ o = o' /\ w = w' /\ v = v'.
Proof.
  intros Hv Hv' E. pose proof (f_equal (fun d => has d bit_count) E) as E1. pose proof (f_equal (fun d => has d bit_occupy) E) as E2.
  pose proof (f_equal (fun d => has d bit_wait) E) as E3. pose proof (f_equal u32 E) as E4. cbv beta in *.
  rewrite !word_count in E1 by auto. rewrite !word_occupy in E2 by auto. rewrite !word_wait in E3 by auto. rewrite !word_value in E4 by auto. auto.
Qed.
Lemma plain_occupy v : in_range 32 v -> has v bit_occupy = false /\ v <> bit_occupy.
Proof. intros Hv. split; [unfold has; rewrite land_above by auto; reflexivity|]. intros ->. unfold in_range, bit_occupy, off_occupy in Hv. lia. Qed.

(** ** An inbound channel *)

(** The mailbox: the value in it, the count that the last push found, the values taken out for
    the SPU that it has not returned yet, and what the writer has asked to put and is not put. *)
Record inbox := mk_inbox { full : option Z; found : Z; owed : list Z; asked : option (Z * bool) }.
Definition holds (m : option Z) : bool := match m with Some _ => true | None => false end.
Definition inbound (b : inbox) (l : label) : option inbox :=
  match l with
  | SpuCalled (PopWait true) => match owed b with [] => Some b | _ => None end
  | ExtCalled _ (Push v or) => match asked b with None => Some (mk_inbox (full b) (found b) (owed b) (Some (v, or))) | Some _ => None end
  | Pushed or v =>
      match asked b with
      | Some (v', or') =>
          if (v' =? v) && Bool.eqb or' or
          then Some (mk_inbox (Some (if or then Z.lor (default 0 (full b)) v else v)) (Z.b2z (holds (full b))) (owed b) None) else None
      | None => None
      end
  | Popped v =>
      match full b with Some x => if x =? v then Some (mk_inbox None (found b) (owed b ++ [v]) (asked b)) else None | None => None end
  | PushReturned _ r notify =>
      match asked b with None => if (r =? found b) && Bool.eqb notify (negb (holds (full b))) then Some b else None | Some _ => None end
  | SpuReturned r =>
      match owed b with
      | [] => if r =? -1 then Some b else None
      | v :: l => if r =? v then Some (mk_inbox (full b) (found b) l (asked b)) else None
      end
  | _ => None
  end.

Fixpoint replay {A L} (f : A -> L -> option A) (a : A) (tr : list L) : option A :=
  match tr with [] => Some a | l :: tr => match f a l with Some a' => replay f a' tr | None => None end end.
Lemma replay_app {A L} (f : A -> L -> option A) a l1 l2 :
  replay f a (l1 ++ l2) = match replay f a l1 with Some a' => replay f a' l2 | None => None end.
Proof. revert a. induction l1 as [|l l1 IH]; intros a; cbn; [reflexivity|]. destruct (f a l); [apply IH|reflexivity]. Qed.

(** The calls made on it. *)
Definition reads (k : spu_call) : bool := match k with PopWait pop => pop | PushWait _ _ => false end.
Definition writes (k : ext_call) : bool := match k with Push v _ => (0 <=? v) && (v <? 2 ^ 32) | Pop => false end.

(** [data] without flags but the count. *)
Definition plain (d : Z) (m : option Z) : Prop :=
  match m with Some v => in_range 32 v /\ d = word true false false v | None => d = 0 end.
Definition between (x : ext_point) : Prop := match x with XIdle => True | WFetch v _ => in_range 32 v | _ => False end.
Definition trying (x : ext_point) : Prop :=
  match x with XIdle => True | WFetch v _ => in_range 32 v | WJostle v _ old => in_range 32 v /\ old = word false true true 0 | _ => False end.
Definition wants (x : ext_point) : option (Z * bool) :=
  match x with WFetch v or | WJostle v or _ | WClear v or _ => Some (v, or) | _ => None end.
Definition calm (r : spu_point) (j : Z) : Prop :=
  match r with
  | Idle | RLoad true | Halted _ => True
  | RBody true old => exists m, plain old m
  | RCas true old new => exists m, plain old m /\ new = (if holds m then 0 else word false true true 0) /\ (m = None -> j = bit_occupy)
  | _ => False
  end.
Definition waits (r : spu_point) : Prop := match r with RBusy true _ | RWait true | RAbort true => True | _ => False end.

Inductive in_inv (r : spu_point) (x : ext_point) (d j : Z) (b : inbox) : Prop :=
| in_calm : calm r j -> between x -> plain d (full b) -> owed b = [] -> in_inv r x d j b
| in_waits : waits r -> trying x -> d = word false true true 0 -> j = bit_occupy -> full b = None -> owed b = [] -> in_inv r x d j b
| in_given v or : waits r -> x = WClear v or (word false true true 0) -> in_range 32 v -> d = word false true true 0 -> j = v ->
    full b = None -> owed b = [] -> in_inv r x d j b
| in_taken v : waits r \/ r = RTake true -> between x -> in_range 32 v -> plain d (full b) -> j = v -> owed b = [v] -> in_inv r x d j b
| in_draining v or : r = RDrain v -> x = WClear v or (word false true true 0) -> in_range 32 v -> d = word false true true 0 ->
    full b = None -> owed b = [] -> in_inv r x d j b
| in_drained v : r = RDrain v -> between x -> in_range 32 v -> plain d (full b) -> owed b = [v] -> in_inv r x d j b
| in_clearing : r = RClear -> trying x -> d = word false true true 0 -> j = 0 -> full b = None -> owed b = [] -> in_inv r x d j b
| in_late k : r = Halted k -> trying x -> plain d (full b) -> j = 0 -> owed b = [] -> in_inv r x d j b.

Lemma plain_bits d m : plain d m -> has d bit_count = holds m /\ has d bit_occupy = false /\ has d bit_wait = false.
Proof.
  destruct m as [v|]; cbn; [intros [Hv ->]|intros ->; auto].
  rewrite word_count, word_occupy, word_wait by exact Hv. auto.
Qed.
Lemma plain_value d m : plain d m -> u32 d = default 0 m.
Proof. destruct m as [v|]; cbn; [intros [Hv ->]; apply word_value, Hv|intros ->; reflexivity]. Qed.
Lemma plain_inj d m m' : plain d m -> plain d m' -> m = m'.
Proof.
  intros H H'. pose proof (plain_value _ _ H) as E. rewrite (plain_value _ _ H') in E. pose proof (proj1 (plain_bits _ _ H)) as C.
  rewrite (proj1 (plain_bits _ _ H')) in C. destruct m, m'; cbn in *; congruence.
Qed.
Lemma waits_bits : let d := word false true true 0 in has d bit_count = false /\ has d bit_occupy = true /\ has d bit_wait = true.
Proof. auto. Qed.

Lemma in_spu stopped r x c b r' c' l :
  in_inv r x (data c) (jostling_value c) b -> spu_act stopped r c = Some (r', c', l) ->
  exists b', replay inbound b l = Some b' /\ asked b' = asked b /\ in_inv r' x (data c') (jostling_value c') b'.
Proof.
  intros I E. destruct c as [d j]. cbn [data jostling_value] in *.
  destruct I as [Hr Hx Hd Ho|Hr Hx Hd Hj Hf Ho|v or Hr Hx Hv Hd Hj Hf Ho|v Hr Hx Hv Hd Hj Ho|v or -> Hx Hv Hd Hf Ho|v -> Hx Hv Hd Ho| -> Hx Hd Hj Hf Ho|k -> Hx Hd Hj Ho].
  - destruct r as [| | |[]|[] old|[] old new| | | | | | | | | | | |]; cbn [calm] in Hr; try contradiction; try discriminate; cbn [spu_act pop_wait] in E.
    + injection E as <- <- <-. exists b. do 2 (split; [reflexivity|]). apply in_calm; auto. cbn. eauto.
    + destruct Hr as [m Hm]. destruct (plain_bits old m Hm) as (Hc & _ & _). rewrite Hc in E.
      exists b. destruct m as [v|]; cbn [holds] in E; injection E as <- <- <-; do 2 (split; [reflexivity|]); apply in_calm; auto; cbn.
      * exists (Some v). repeat split; auto; try apply Hm. discriminate.
      * exists None. repeat split; auto.
    + destruct Hr as (m & Hm & -> & Hj). destruct (plain_bits old m Hm) as (Hc & _ & _). rewrite Hc in E. cbn [data] in E.
      destruct (Z.eqb_spec d old) as [->|Hne].
      * pose proof (plain_inj _ _ _ Hd Hm) as Em. destruct m as [v|]; cbn [holds] in E; injection E as <- <- <-.
        -- rewrite (plain_value _ _ Hm). cbn [replay inbound default]. rewrite Em, Z.eqb_refl, Ho. cbn [owed app]. rewrite Z.eqb_refl.
           eexists. do 2 (split; [reflexivity|]). apply in_calm; auto; reflexivity.
        -- exists b. do 2 (split; [reflexivity|]). apply in_waits; cbn; auto. destruct x; cbn in *; tauto.
      * injection E as <- <- <-. exists b. do 2 (split; [reflexivity|]). apply in_calm; auto. cbn. eauto.
  - destruct r as [| | | | | |[] [|k]|[]| |[]| | | | | | | |]; try contradiction; cbn [spu_act pop_wait data jostling_value] in E;
      rewrite ?Hd, ?Hj in E; cbn in E.
    + injection E as <- <- <-. exists b. do 2 (split; [reflexivity|]). apply in_waits; auto.
    + injection E as <- <- <-. exists b. do 2 (split; [reflexivity|]). apply in_waits; auto.
    + destruct stopped; injection E as <- <- <-; exists b; do 2 (split; [reflexivity|]); apply in_waits; auto.
    + injection E as <- <- <-. exists b. do 2 (split; [reflexivity|]). apply in_clearing; auto.
  - destruct (plain_occupy v Hv) as [Hpo _].
    destruct r as [| | | | | |[] [|k]|[]| |[]| | | | | | | |]; try contradiction; cbn [spu_act pop_wait data jostling_value] in E;
      rewrite ?Hd, ?Hj, ?Hpo in E; cbn in E.
    + injection E as <- <- <-. exists b. do 2 (split; [reflexivity|]). eapply in_given; eauto.
    + injection E as <- <- <-. exists b. do 2 (split; [reflexivity|]). eapply in_given; eauto.
    + destruct stopped; injection E as <- <- <-; exists b; do 2 (split; [reflexivity|]); eapply in_given; cbn; eauto.
    + injection E as <- <- <-. exists b. do 2 (split; [reflexivity|]). eapply in_draining; cbn; eauto.
  - destruct (plain_occupy v Hv) as [Hpo _]. destruct (plain_bits _ _ Hd) as (_ & _ & Hw).
    destruct Hr as [Hr | ->].
    + destruct r as [| | | | | |[] [|k]|[]| |[]| | | | | | | |]; try contradiction; cbn [spu_act pop_wait data jostling_value] in E;
        rewrite ?Hw, ?Hj, ?Hpo in E; cbn in E; injection E as <- <- <-; exists b; do 2 (split; [reflexivity|]).
      * eapply in_taken; cbn; eauto.
      * eapply in_taken; cbn; eauto.
      * eapply in_taken; cbn; eauto.
      * eapply in_drained; cbn; eauto.
    + cbn in E. injection E as <- <- <-. cbn. rewrite Ho, Hj, (wrap_small 32 v Hv), Z.eqb_refl. eexists. do 2 (split; [reflexivity|]).
      apply in_calm; cbn; auto.
  - cbn [spu_act pop_wait data jostling_value] in E. rewrite Hd in E. cbn in E. injection E as <- <- <-. exists b. do 2 (split; [reflexivity|]).
    eapply in_draining; cbn; eauto.
  - destruct (plain_bits _ _ Hd) as (_ & _ & Hw). cbn [spu_act pop_wait data jostling_value] in E. rewrite Hw in E. injection E as <- <- <-. cbn.
    rewrite Ho, (wrap_small 32 v Hv), Z.eqb_refl. eexists. do 2 (split; [reflexivity|]). apply in_calm; cbn; auto.
  - cbn [spu_act pop_wait data jostling_value] in E. rewrite Hd in E. cbn in E. injection E as <- <- <-. cbn. rewrite Ho. eexists. do 2 (split; [reflexivity|]).
    eapply in_late; cbn; eauto. rewrite Hf. reflexivity.
  - discriminate.
Qed.

(** The writer's actions, one lemma for each form of [data]. *)
Lemma push_plain i x c b x' c' l :
  between x -> plain (data c) (full b) -> asked b = wants x -> ext_act i x c = Some (x', c', l) ->
  exists b', replay inbound b l = Some b' /\ x' = XIdle /\ plain (data c') (full b') /\ owed b' = owed b /\ asked b' = None /\
             jostling_value c' = jostling_value c.
Proof.
  intros Hx Hd Ha E. destruct x; cbn [between] in Hx; try contradiction; [discriminate|].
  destruct (plain_bits _ _ Hd) as (Hc & Ho & Hw). pose proof (plain_value _ _ Hd) as Hu.
  cbn [ext_act push] in E. rewrite Ho, Hc, Hw, Hu in E. injection E as <- <- <-. cbn [replay inbound found]. rewrite Ha. cbn [wants].
  rewrite Z.eqb_refl, Bool.eqb_reflx. cbn [andb asked found]. rewrite Z.eqb_refl.
  eexists. split; [reflexivity|]. cbn. split; [reflexivity|]. split; [|auto]. split; [|destruct to_or; reflexivity].
  destruct to_or; [|exact Hx]. apply lor_range; [lia| |exact Hx]. destruct (full b); cbn in *; [apply Hd|unfold in_range; lia].
Qed.
Lemma push_occupied i x c x' c' l :
  trying x -> data c = word false true true 0 -> ext_act i x c = Some (x', c', l) ->
  l = [] /\ data c' = data c /\ wants x' = wants x /\
  (trying x' /\ jostling_value c' = jostling_value c \/
   jostling_value c = bit_occupy /\ exists v or, in_range 32 v /\ x' = WClear v or (word false true true 0) /\ jostling_value c' = v).
Proof.
  intros Hx Hd E. destruct x; cbn [trying] in Hx; try contradiction; [discriminate| |]; cbn [ext_act push] in E.
  - rewrite Hd in E. cbn in E. injection E as <- <- <-. cbn. rewrite Hd. auto 10.
  - destruct Hx as [Hv ->]. destruct (Z.eqb_spec (jostling_value c) bit_occupy); injection E as <- <- <-; cbn; eauto 12.
Qed.
Lemma push_given i v or c b x' c' l :
  in_range 32 v -> data c = word false true true 0 -> full b = None -> owed b = [] -> asked b = Some (v, or) ->
  ext_act i (WClear v or (word false true true 0)) c = Some (x', c', l) ->
  exists b', replay inbound b l = Some b' /\ x' = XIdle /\ plain (data c') (full b') /\ owed b' = [v] /\ asked b' = None /\
             jostling_value c' = jostling_value c.
Proof.
  intros Hv Hd Hf Ho Ha E. cbn [ext_act push] in E. rewrite Hd in E. cbn in E. injection E as <- <- <-.
  cbn [replay inbound]. rewrite Ha, Z.eqb_refl, Bool.eqb_reflx, Hf, Ho. destruct or; cbn; rewrite Z.eqb_refl; cbn;
    (eexists; split; [reflexivity|]; cbn; auto).
Qed.

Lemma in_ext i r x c b x' c' l :
  in_inv r x (data c) (jostling_value c) b -> asked b = wants x -> ext_act i x c = Some (x', c', l) ->
  exists b', replay inbound b l = Some b' /\ asked b' = wants x' /\ in_inv r x' (data c') (jostling_value c') b'.
Proof.
  intros I Ha E.
  destruct I as [Hr Hx Hd Ho|Hr Hx Hd Hj Hf Ho|v or Hr -> Hv Hd Hj Hf Ho|v Hr Hx Hv Hd Hj Ho|v or -> -> Hv Hd Hf Ho|v -> Hx Hv Hd Ho| -> Hx Hd Hj Hf Ho|k -> Hx Hd Hj Ho].
  - destruct (push_plain i x c b _ _ _ Hx Hd Ha E) as (b' & Hb & -> & Hd' & Ho' & Ha' & ->). exists b'. do 2 (split; [assumption|]).
    apply in_calm; cbn; auto. congruence.
  - destruct (push_occupied i x c _ _ _ Hx Hd E) as (-> & Hd' & Hw & [[Hx' Hj']|(_ & v & or & Hv & -> & Hj')]); exists b;
      (split; [reflexivity|]); (split; [congruence|]).
    + apply in_waits; auto; congruence.
    + eapply in_given; eauto. congruence.
  - destruct (push_given i v or c b _ _ _ Hv Hd Hf Ho Ha E) as (b' & Hb & -> & Hd' & Ho' & Ha' & Hj'). exists b'. do 2 (split; [assumption|]).
    eapply in_taken; cbn; eauto. congruence.
  - destruct (push_plain i x c b _ _ _ Hx Hd Ha E) as (b' & Hb & -> & Hd' & Ho' & Ha' & ->). exists b'. do 2 (split; [assumption|]).
    eapply in_taken; cbn; eauto. congruence.
  - destruct (push_given i v or c b _ _ _ Hv Hd Hf Ho Ha E) as (b' & Hb & -> & Hd' & Ho' & Ha' & Hj'). exists b'. do 2 (split; [assumption|]).
    eapply in_drained; cbn; eauto.
  - destruct (push_plain i x c b _ _ _ Hx Hd Ha E) as (b' & Hb & -> & Hd' & Ho' & Ha' & ->). exists b'. do 2 (split; [assumption|]).
    eapply in_drained; cbn; eauto. congruence.
  - destruct (push_occupied i x c _ _ _ Hx Hd E) as (-> & Hd' & Hw & [[Hx' Hj']|(Hj' & _)]); [|rewrite Hj in Hj'; discriminate].
    exists b. split; [reflexivity|]. split; [congruence|]. apply in_clearing; auto; congruence.
  - destruct x; cbn [trying] in Hx; try contradiction; [discriminate| |].
    + destruct (push_plain i (WFetch value to_or) c b _ _ _ Hx Hd Ha E) as (b' & Hb & -> & Hd' & Ho' & Ha' & Hj'). exists b'.
      do 2 (split; [assumption|]). eapply in_late; cbn; eauto; congruence.
    + cbn [ext_act push] in E. rewrite Hj in E. cbn in E. injection E as <- <- <-. exists b. split; [reflexivity|]. split; [exact Ha|].
      eapply in_late; cbn; eauto. apply Hx.
Qed.

Lemma in_calls i r d j b k :
  writes k = true -> asked b = None -> in_inv r XIdle d j b ->
  exists b', replay inbound b [ExtCalled i k] = Some b' /\ asked b' = wants (ext_entry k) /\ in_inv r (ext_entry k) d j b'.
Proof.
  intros Hk Ha I. destruct k as [v to_or|]; [|discriminate]. assert (in_range 32 v) as Hv by (unfold in_range; cbn in Hk; lia).
  cbn [replay inbound]. rewrite Ha. eexists. do 2 (split; [reflexivity|]).
  destruct I; try discriminate; eauto using in_calm, in_waits, in_taken, in_drained, in_clearing, in_late.
Qed.
Lemma in_entry k x d j b :
  reads k = true -> in_inv Idle x d j b -> replay inbound b [SpuCalled k] = Some b /\ in_inv (spu_entry k) x d j b.
Proof.
  intros Hk I. destruct k as [[]|]; try discriminate.
  destruct I as [? ? ? Ho| | |? [|] | | | |]; try discriminate; try contradiction. cbn [replay inbound]. rewrite Ho.
  split; [reflexivity|]. apply in_calm; cbn; auto.
Qed.

Definition in_reached (tr : list label) (s : sys) : Prop :=
  exists x b, ext s = [x] /\ replay inbound (mk_inbox None 0 [] None) tr = Some b /\ asked b = wants x /\
              in_inv (spu s) x (data (channel s)) (jostling_value (channel s)) b.

Lemma in_always tr s : ch_steps reads writes (mk_sys Idle [XIdle] (mk_channel 0 0)) tr s -> in_reached tr s.
Proof.
  revert tr s. apply ch_invariant.
  - exists XIdle, (mk_inbox None 0 [] None). do 3 (split; [reflexivity|]). apply in_calm; cbn; auto.
  - intros tr s l s' (x & b & Hx & Hb & Ha & I) Hs. destruct Hs as [stopped p xs c p' c' l E|p xs c i y x' c' l Hi E|xs c k Hk|p xs c i k Hi Hk];
      cbn [ext spu channel] in *; subst xs.
    + destruct (in_spu stopped p x c b _ _ _ I E) as (b' & Hb' & Ha' & I'). exists x, b'. rewrite replay_app, Hb, Ha'. auto.
    + destruct i as [|i]; [|discriminate]. injection Hi as <-. destruct (in_ext 0 p x c b _ _ _ I Ha E) as (b' & Hb' & I').
      exists x', b'. rewrite replay_app, Hb. auto.
    + destruct (in_entry k x _ _ b Hk I) as [Hb' I']. exists x, b. rewrite replay_app, Hb. auto.
    + destruct i as [|i]; [|discriminate]. injection Hi as ->. destruct (in_calls 0 p _ _ b k Hk Ha I) as (b' & Hb' & I').
      exists (ext_entry k), b'. rewrite replay_app, Hb. auto.
Qed.

Lemma in_word r x d j b : in_inv r x d j b -> plain d (full b) \/ d = word false true true 0 /\ full b = None.
Proof. intros []; auto. Qed.
Lemma in_safe r x d j b : in_inv r x d j b -> r <> Throwing /\ x <> XThrowing.
Proof.
  intros I. split; intros E; subst; destruct I; subst; cbn in *; try contradiction; try discriminate.
  intuition discriminate.
Qed.
Lemma in_owed r x d j b : in_inv r x d j b -> (length (owed b) <= 1)%nat /\ (r = Idle -> owed b = []).
Proof.
  intros []; repeat match goal with E : owed b = _ |- _ => rewrite E end; cbn; (split; [lia|]); intros ->; try reflexivity; try discriminate.
  destruct H as [[]|]; discriminate.
Qed.
Lemma in_wakes r x d j b : in_inv r x d j b -> waits r -> x = XIdle -> has d bit_wait = true -> full b = None /\ owed b = [].
Proof.
  intros I Hr -> Hw. destruct I as [Hc| |? ? ? [=]|v ? ? ? Hd|v or Hr'|v Hr'| |k Hr']; subst; auto; try contradiction.
  - destruct r; cbn in *; try contradiction.
  - rewrite (proj2 (proj2 (plain_bits _ _ Hd))) in Hw. discriminate.
Qed.

(** C14: an inbound channel, which the SPU reads with [pop_wait] and one thread writes with
    [push], under every interleaving of the two, is a mailbox: each push stores its value, or
    joins it to the one there, and returns whether there was one and whether the SPU that waits
    has got it; each [pop_wait] returns the value that was taken out for it, in order and once, or
    -1 when nothing was taken for it; no [ensure] fails; the count and the value that others read are those of the mailbox;
    and a waiting SPU whose wait bit is on, with no push under way, has missed no value. *)
Theorem inbound_channel tr s :
  ch_steps reads writes (mk_sys Idle [XIdle] (mk_channel 0 0)) tr s ->
  exists x b,
    ext s = [x] /\ replay inbound (mk_inbox None 0 [] None) tr = Some b /\
    spu s <> Throwing /\ x <> XThrowing /\
    get_count (channel s) = Z.b2z (holds (full b)) /\ (holds (full b) = true -> get_value (channel s) = default 0 (full b)) /\
    (length (owed b) <= 1)%nat /\ (spu s = Idle -> owed b = []) /\
    (waits (spu s) -> x = XIdle -> has (data (channel s)) bit_wait = true -> full b = None /\ owed b = []).
Proof.
  intros H. destruct (in_always _ _ H) as (x & b & Hx & Hb & Ha & I). exists x, b. split; [exact Hx|]. split; [exact Hb|].
  destruct (in_safe _ _ _ _ _ I), (in_owed _ _ _ _ _ I). pose proof (in_wakes _ _ _ _ _ I) as Hw.
  unfold get_count, get_value. destruct (in_word _ _ _ _ _ I) as [Hd|[Hd Hf]].
  2: { revert Hw. rewrite Hd, Hf. intros Hw. split_and!; auto; discriminate. }
  rewrite (proj1 (plain_bits _ _ Hd)), (plain_value _ _ Hd). destruct (holds (full b)); auto 10.
Qed.
Lemma inbound_channel_witness :
  let read := [SpuBegin (PopWait true); Spu; Spu; Spu] in
  let run := read ++ [ExtBegin 0 (Push 5 false); Ext 0; Ext 0; Ext 0; Spu; Spu] ++
             [ExtBegin 0 (Push 3 false); Ext 0; ExtBegin 0 (Push 4 true); Ext 0] ++ read ++ read ++ replicate 11 Spu ++ [SpuStop; Spu; Spu] in
  match do_moves reads writes run (mk_sys Idle [XIdle] (mk_channel 0 0)) with
  | Some (tr, s) =>
      tr = [SpuCalled (PopWait true); ExtCalled 0 (Push 5 false); Pushed false 5; Popped 5; PushReturned 0 0 true; SpuReturned 5;
            ExtCalled 0 (Push 3 false); Pushed false 3; PushReturned 0 0 false; ExtCalled 0 (Push 4 true); Pushed true 4; PushReturned 0 1 false;
            SpuCalled (PopWait true); Popped 7; SpuReturned 7; SpuCalled (PopWait true); SpuReturned (-1)] /\
      exists b, replay inbound (mk_inbox None 0 [] None) tr = Some b /\ spu s <> Throwing
  | None => False
  end.
Proof.
  intros read run.
  destruct (do_moves reads writes run (mk_sys Idle [XIdle] (mk_channel 0 0))) as [[tr s]|] eqn:E; [|vm_compute in E; discriminate].
  split; [vm_compute in E; congruence|].
  destruct (inbound_channel tr s (ch_schedule reads writes run _ _ _ E)) as (x & b & _ & Hb & Ht & _). exists b. exact (conj Hb Ht).
Defined.

(** With two threads that push, one that has seen the SPU wait may put its value in
    [jostling_value] when the SPU has been served by the other, is in [pop_wait] again and has
    not set its bits yet: the wait bit is off, and the [ensure] of [push] fails. *)
Theorem two_writers :
  exists tr s, ch_steps reads writes (mk_sys Idle [XIdle; XIdle] (mk_channel 0 0)) tr s /\ ext s !! 1%nat = Some XThrowing.
Proof.
  eexists _, _. split.
  - apply (ch_schedule reads writes
      ([SpuBegin (PopWait true); Spu; Spu; Spu] ++ [ExtBegin 1 (Push 6 false); Ext 1] ++ [ExtBegin 0 (Push 5 false); Ext 0; Ext 0; Ext 0] ++
       [Spu; Spu] ++ [SpuBegin (PopWait true); Spu; Spu] ++ [Ext 1; Ext 1])).
    vm_compute. reflexivity.
  - reflexivity.
Qed.
