(* ===== verification/SpuOutbox.v ===== *)
(** * Outbound SPU channels under all interleavings

    A channel that the SPU writes with [push_wait] and one other thread reads with [pop] is a
    mailbox for one value that is never overwritten.  A value that finds the mailbox full waits
    in [jostling_value]; the [pop] that takes the old value puts the waiting one in its place, in
    one action. *)

From Stdlib Require Import ZArith Lia Bool.
From stdpp Require Import base numbers list option.
From S2P Require Import Prelude SpuChannel SpuMailbox.

(** ** The mailbox *)

(** What the SPU has asked to put and is not put, the value in the mailbox, the value that was
    last in it, and what was read and is not returned. *)
Record outbox := mk_outbox { wanted : option Z; held : option Z; last_value : Z; taken : option Z }.
Definition outbound (b : outbox) (l : label) : option outbox :=
  match l with
  | SpuCalled (PushWait v true) =>
      match wanted b with None => Some (mk_outbox (Some v) (held b) (last_value b) (taken b)) | Some _ => None end
  | Pushed false v =>
      match held b, wanted b with
      | None, Some v' => if v' =? v then Some (mk_outbox None (Some v) (last_value b) (taken b)) else None
      | _, _ => None
      end
  | SpuReturned r =>
      match wanted b with None => if r =? 1 then Some b else None | Some _ => if r =? 0 then Some b else None end
  | ExtCalled _ Pop => match taken b with None => Some b | Some _ => None end
  | Popped v =>
      match held b with Some y => if y =? v then Some (mk_outbox (wanted b) None v (Some v)) else None | None => None end
  | Missed v =>
      match held b with None => if last_value b =? v then Some (mk_outbox (wanted b) None v (Some v)) else None | Some _ => None end
  | PopReturned _ v =>
      match taken b with Some y => if y =? v then Some (mk_outbox (wanted b) (held b) (last_value b) None) else None | None => None end
  | _ => None
  end.

(** The calls made on it. *)
Definition puts (k : spu_call) : bool := match k with PushWait v push => push && ((0 <=? v) && (v <? 2 ^ 32)) | PopWait _ => false end.
Definition gets (k : ext_call) : bool := match k with Pop => true | Push _ _ => false end.

(** ** The invariant *)

(** [data] with no flag but the count: of a mailbox, and of an old one. *)
Definition at_rest (d : Z) (b : outbox) : Prop :=
  exists c y, in_range 32 y /\ d = word c false false y /\ held b = (if c then Some y else None) /\ (c = false -> last_value b = y).
Definition quiet (old : Z) : Prop := exists c y, in_range 32 y /\ old = word c false false y.
Definition took (old new : Z) : Prop := exists c y, in_range 32 y /\ old = word c false false y /\ new = word false false false y.

(** The reader, when [data] has no flag but the count, and when the SPU's [v] waits behind [y]. *)
Definition reader (x : ext_point) : Prop :=
  match x with XIdle | XLoad => True | XBody old => quiet old | XCas old new => took old new | _ => False end.
Definition behind (y v : Z) (x : ext_point) : Prop :=
  match x with
  | XIdle | XLoad => True
  | XBody old => quiet old \/ exists w, old = word true true w y
  | XCas old new => took old new \/ exists w, old = word true true w y /\ new = word true false false v
  | _ => False
  end.

(** The SPU before its value is put or waits, at the end of its call, and waiting. *)
Definition early (v j : Z) (r : spu_point) : Prop :=
  match r with
  | PLoad v' true => v' = v
  | PBody v' true old => v' = v /\ quiet old
  | PCas v' true old new =>
      v' = v /\ exists c y, in_range 32 y /\ old = word c false false y /\
        new = (if c then word true true true y else word true false false v) /\ (c = true -> j = v)
  | _ => False
  end.
Definition late (r : spu_point) : Prop := match r with Idle | Halted _ | PBusy _ _ | PWait _ | PReload => True | _ => False end.
Definition blocked (y : Z) (r : spu_point) : Prop :=
  match r with PBusy _ state | PWait state => state = word true true true y | PReload => True | _ => False end.

Inductive out_inv (r : spu_point) (x : ext_point) (d j : Z) (b : outbox) : Prop :=
| out_late : late r -> reader x -> at_rest d b -> wanted b = None -> out_inv r x d j b
| out_early v : early v j r -> in_range 32 v -> reader x -> at_rest d b -> wanted b = Some v -> out_inv r x d j b
| out_waits v y : blocked y r -> in_range 32 v -> in_range 32 y -> behind y v x -> d = word true true true y -> j = v ->
    held b = Some y -> wanted b = Some v -> out_inv r x d j b
| out_left v y k : r = Halted k -> in_range 32 v -> in_range 32 y -> behind y v x -> d = word true true false y -> j = v ->
    held b = Some y -> wanted b = Some v -> out_inv r x d j b.

Lemma rest_quiet d b : at_rest d b -> quiet d.
Proof. intros (c & y & Hy & -> & _). exists c, y. auto. Qed.
Lemma rest_wait d b : at_rest d b -> has d bit_wait = false /\ Z.ldiff d bit_wait = d.
Proof. intros (c & y & Hy & -> & _). rewrite word_wait, word_unwait by exact Hy. auto. Qed.
Lemma reader_behind x y v : reader x -> behind y v x.
Proof. destruct x; cbn; auto. Qed.
Lemma blocked_late y r : blocked y r -> late r.
Proof. destruct r; cbn; auto. Qed.

(** ** The SPU's actions *)

Lemma out_spu_early stopped r x c b v r' c' l :
  early v (jostling_value c) r -> in_range 32 v -> reader x -> at_rest (data c) b -> wanted b = Some v ->
  spu_act stopped r c = Some (r', c', l) ->
  exists b', replay outbound b l = Some b' /\ taken b' = taken b /\ out_inv r' x (data c') (jostling_value c') b'.
Proof.
  intros Hr Hv Hx Hd Hw E. destruct c as [d j]. cbn [data jostling_value] in *.
  destruct r as [| | | | | | | | | | | |v' []|v' [] old|v' [] old new| | |]; cbn [early] in Hr; try contradiction; cbn [spu_act push_wait data] in E.
  - subst v'. injection E as <- <- <-. exists b. do 2 (split; [reflexivity|]). eapply out_early; eauto. cbn. eauto using rest_quiet.
  - destruct Hr as [-> (c & y & Hy & ->)]. rewrite (word_count c false false y Hy) in E.
    exists b. destruct c; injection E as <- <- <-; do 2 (split; [reflexivity|]); eapply out_early; eauto; cbn; (split; [reflexivity|]).
    + exists true, y. rewrite word_claim. auto.
    + exists false, y. split_and!; auto. discriminate.
  - destruct Hr as [-> (c & y & Hy & -> & -> & Hj)]. rewrite (word_count c false false y Hy) in E.
    destruct (Z.eqb_spec d (word c false false y)) as [->|Hne].
    + destruct Hd as (c1 & y1 & Hy1 & Ey & Hh & Hl). apply word_inj in Ey as (<- & _ & _ & <-); [|assumption..].
      destruct c; injection E as <- <- <-; cbn [replay outbound].
      * exists b. do 2 (split; [reflexivity|]). apply out_waits with v y; cbn; auto using reader_behind.
      * rewrite Hh, Hw, Z.eqb_refl. eexists. do 2 (split; [reflexivity|]). apply out_late; cbn; auto.
        exists true, v. split_and!; auto. discriminate.
    + injection E as <- <- <-. exists b. do 2 (split; [reflexivity|]). eapply out_early; eauto. cbn. eauto using rest_quiet.
Qed.

Lemma out_spu_late stopped r x c b r' c' l :
  late r -> reader x -> at_rest (data c) b -> wanted b = None -> spu_act stopped r c = Some (r', c', l) ->
  exists b', replay outbound b l = Some b' /\ taken b' = taken b /\ out_inv r' x (data c') (jostling_value c') b'.
Proof.
  intros Hr Hx Hd Hw E. destruct c as [d j]. cbn [data jostling_value] in *. destruct (rest_wait _ _ Hd) as [Hbit Hsame].
  exists b. destruct r as [| | | | | | | | | | | | | | |[|i] st|st|]; cbn [late] in Hr; try contradiction; try discriminate;
    cbn [spu_act push_wait data] in E; rewrite ?Hbit in E;
    repeat match type of E with context [if ?q then _ else _] => destruct q end; injection E as <- <- <-;
    cbn [replay outbound negb Z.b2z]; rewrite ?Hw; do 2 (split; [reflexivity|]); apply out_late; cbn [late data with_data]; rewrite ?Hsame; auto.
Qed.

Lemma out_spu_blocked stopped r x c b v y r' c' l :
  blocked y r -> in_range 32 v -> in_range 32 y -> behind y v x -> data c = word true true true y -> jostling_value c = v ->
  held b = Some y -> wanted b = Some v -> spu_act stopped r c = Some (r', c', l) ->
  exists b', replay outbound b l = Some b' /\ taken b' = taken b /\ out_inv r' x (data c') (jostling_value c') b'.
Proof.
  intros Hr Hv Hy Hx Hd Hj Hh Hw E. destruct c as [d j]. cbn [data jostling_value] in *. subst d.
  pose proof (word_wait true true true y Hy) as Hbit. pose proof (word_unwait true true true y Hy) as Hun.
  exists b. destruct r as [| | | | | | | | | | | | | | |[|i] st|st|]; cbn [blocked] in Hr; try contradiction; subst;
    cbn [spu_act push_wait data] in E; rewrite ?Hbit in E; cbn [negb] in E; try (destruct stopped); injection E as <- <- <-;
    cbn [replay outbound Z.b2z]; rewrite ?Hw; do 2 (split; [reflexivity|]); try (apply out_waits with v y; cbn; now auto).
  apply out_left with v y 0; cbn [data with_data jostling_value]; auto.
Qed.

Lemma out_spu stopped r x c b r' c' l :
  out_inv r x (data c) (jostling_value c) b -> spu_act stopped r c = Some (r', c', l) ->
  exists b', replay outbound b l = Some b' /\ taken b' = taken b /\ out_inv r' x (data c') (jostling_value c') b'.
Proof.
  intros [] E; eauto using out_spu_early, out_spu_late, out_spu_blocked. subst. discriminate.
Qed.

(** ** The reader's actions *)

Lemma out_pop_rest i x c b x' c' l :
  reader x -> at_rest (data c) b -> taken b = None -> ext_act i x c = Some (x', c', l) ->
  exists b', replay outbound b l = Some b' /\ taken b' = None /\ wanted b' = wanted b /\ reader x' /\ at_rest (data c') b' /\
             jostling_value c' = jostling_value c.
Proof.
  intros Hx Hd Ht E. destruct x as [| | | | | |old|old new]; cbn [reader] in Hx; try contradiction; try discriminate; cbn [ext_act pop] in E.
  - injection E as <- <- <-. exists b. split_and!; auto. cbn. eauto using rest_quiet.
  - destruct Hx as (c0 & y & Hy & ->). rewrite word_mask, andb_false_r, word_take in E by exact Hy.
    injection E as <- <- <-. exists b. split_and!; auto. exists c0, y. auto.
  - destruct Hx as (c0 & y & Hy & -> & ->). rewrite word_mask, word_count, word_value, andb_false_r in E by exact Hy.
    destruct (Z.eqb_spec (data c) (word c0 false false y)) as [Ed|Hne].
    + destruct Hd as (c1 & y1 & Hy1 & Ey & Hh & Hl). rewrite Ed in Ey. apply word_inj in Ey as (<- & _ & _ & <-); [|assumption..].
      injection E as <- <- <-. destruct c0; cbn [app replay outbound]; rewrite Hh, ?Hl, Z.eqb_refl by reflexivity; cbn [replay outbound taken];
        rewrite Z.eqb_refl; (eexists; split; [reflexivity|]); cbn; split_and!; auto; exists false, y; auto.
    + injection E as <- <- <-. exists b. split_and!; auto. cbn. eauto using rest_quiet.
Qed.

Lemma out_pop_behind i x c b w v y x' c' l :
  behind y v x -> in_range 32 v -> in_range 32 y -> data c = word true true w y -> jostling_value c = v -> held b = Some y -> wanted b = Some v ->
  taken b = None -> ext_act i x c = Some (x', c', l) ->
  (l = [] /\ c' = c /\ behind y v x') \/
  (exists b', replay outbound b l = Some b' /\ taken b' = None /\ wanted b' = None /\ x' = XIdle /\ at_rest (data c') b' /\ jostling_value c' = v).
Proof.
  intros Hx Hv Hy Hd Hj Hh Hw Ht E. destruct x as [| | | | | |old|old new]; cbn [behind] in Hx; try contradiction; try discriminate; cbn [ext_act pop] in E.
  - injection E as <- <- <-. left. cbn. eauto.
  - left. destruct Hx as [(c0 & y0 & Hy0 & ->)|[w0 ->]].
    + rewrite word_mask, andb_false_r, word_take in E by exact Hy0. injection E as <- <- <-. split_and!; auto. left. exists c0, y0. auto.
    + rewrite word_mask, Hj, (wrap_small 32 v Hv) in E by exact Hy. injection E as <- <- <-. split_and!; auto. right. exists w0. auto.
  - destruct (Z.eqb_spec (data c) old) as [Ed|Hne].
    + right. destruct Hx as [(c0 & y0 & Hy0 & Eo & ->)|(w0 & Eo & ->)]; rewrite Hd, Eo in Ed.
      * apply word_inj in Ed as (_ & [=] & _); assumption.
      * subst old. rewrite word_mask, !word_value in E by assumption. injection E as <- <- <-.
        cbn [app replay outbound andb]. rewrite Hh, Z.eqb_refl. cbn [replay outbound held wanted]. rewrite Hw, Z.eqb_refl. cbn [replay outbound taken].
        rewrite Z.eqb_refl. eexists. split; [reflexivity|]. cbn. split_and!; auto. exists true, v. split_and!; auto. discriminate.
    + left. injection E as <- <- <-. split_and!; auto. cbn. eauto.
Qed.

Lemma out_ext i r x c b x' c' l :
  out_inv r x (data c) (jostling_value c) b -> taken b = None -> ext_act i x c = Some (x', c', l) ->
  exists b', replay outbound b l = Some b' /\ taken b' = None /\ out_inv r x' (data c') (jostling_value c') b'.
Proof.
  intros I Ht E. destruct I as [Hr Hx Hd Hw|v Hr Hv Hx Hd Hw|v y Hr Hv Hy Hx Hd Hj Hh Hw|v y k -> Hv Hy Hx Hd Hj Hh Hw].
  - destruct (out_pop_rest i x c b _ _ _ Hx Hd Ht E) as (b' & Hb & Ht' & Hw' & Hx' & Hd' & ->). exists b'. do 2 (split; [assumption|]).
    apply out_late; auto. congruence.
  - destruct (out_pop_rest i x c b _ _ _ Hx Hd Ht E) as (b' & Hb & Ht' & Hw' & Hx' & Hd' & ->). exists b'. do 2 (split; [assumption|]).
    apply out_early with v; auto. congruence.
  - destruct (out_pop_behind i x c b _ v y _ _ _ Hx Hv Hy Hd Hj Hh Hw Ht E) as [(-> & -> & Hx')|(b' & Hb & Ht' & Hw' & -> & Hd' & Hj')].
    + exists b. do 2 (split; [auto|]). apply out_waits with v y; auto.
    + exists b'. do 2 (split; [assumption|]). apply out_late; cbn; eauto using blocked_late.
  - destruct (out_pop_behind i x c b _ v y _ _ _ Hx Hv Hy Hd Hj Hh Hw Ht E) as [(-> & -> & Hx')|(b' & Hb & Ht' & Hw' & -> & Hd' & Hj')].
    + exists b. do 2 (split; [auto|]). apply out_left with v y k; auto.
    + exists b'. do 2 (split; [assumption|]). apply out_late; cbn; auto.
Qed.

(** ** All interleavings *)

Lemma out_entry k x d j b :
  puts k = true -> taken b = None -> out_inv Idle x d j b ->
  exists b', replay outbound b [SpuCalled k] = Some b' /\ taken b' = None /\ out_inv (spu_entry k) x d j b'.
Proof.
  intros Hk Ht I. destruct k as [|v []]; try discriminate. assert (in_range 32 v) as Hv by (unfold in_range; cbn in Hk; lia).
  destruct I as [Hr Hx Hd Hw|? []|? ? []|? ? ? [=]]. cbn [replay outbound]. rewrite Hw. eexists. split; [reflexivity|]. split; [exact Ht|].
  apply out_early with v; cbn; auto.
Qed.
Lemma out_calls i k r d j b :
  gets k = true -> taken b = None -> out_inv r XIdle d j b -> replay outbound b [ExtCalled i k] = Some b /\ out_inv r (ext_entry k) d j b.
Proof.
  intros Hk Ht I. destruct k; [discriminate|]. cbn [replay outbound]. rewrite Ht. split; [reflexivity|].
  destruct I; eauto using out_late, out_early, out_waits, out_left.
Qed.

Definition out_reached (tr : list label) (s : sys) : Prop :=
  exists x b, ext s = [x] /\ replay outbound (mk_outbox None None 0 None) tr = Some b /\ taken b = None /\
              out_inv (spu s) x (data (channel s)) (jostling_value (channel s)) b.

Lemma out_always tr s : ch_steps puts gets (mk_sys Idle [XIdle] (mk_channel 0 0)) tr s -> out_reached tr s.
Proof.
  revert tr s. apply ch_invariant.
  - exists XIdle, (mk_outbox None None 0 None). do 3 (split; [reflexivity|]). apply out_late; cbn; auto.
    exists false, 0. split_and!; auto. unfold in_range. lia.
  - intros tr s l s' (x & b & Hx & Hb & Ht & I) Hs. destruct Hs as [stopped p xs c p' c' l E|p xs c i y x' c' l Hi E|xs c k Hk|p xs c i k Hi Hk];
      cbn [ext spu channel] in *; subst xs.
    + destruct (out_spu stopped p x c b _ _ _ I E) as (b' & Hb' & Ht' & I'). exists x, b'. rewrite replay_app, Hb, Ht'. auto.
    + destruct i as [|i]; [|discriminate]. injection Hi as <-. destruct (out_ext 0 p x c b _ _ _ I Ht E) as (b' & Hb' & I').
      exists x', b'. rewrite replay_app, Hb. auto.
    + destruct (out_entry k x _ _ b Hk Ht I) as (b' & Hb' & I'). exists x, b'. rewrite replay_app, Hb. auto.
    + destruct i as [|i]; [|discriminate]. injection Hi as ->. destruct (out_calls 0 k p _ _ b Hk Ht I) as [Hb' I'].
      exists (ext_entry k), b. rewrite replay_app, Hb. auto.
Qed.

Lemma out_read r x d j b : out_inv r x d j b -> has d bit_count = holds (held b) /\ u32 d = default (last_value b) (held b).
Proof.
  intros [_ _ (c & y & Hy & -> & -> & Hl) _|v _ _ _ (c & y & Hy & -> & -> & Hl) _|v y _ _ Hy _ -> _ -> _|v y k _ _ Hy _ -> _ -> _];
    rewrite word_count, word_value by exact Hy; try destruct c; cbn; auto. all: split; [reflexivity|symmetry; auto].
Qed.

Definition in_wait (r : spu_point) : Prop := match r with PBusy _ _ | PWait _ | PReload => True | _ => False end.
Lemma out_wakes r x d j b : out_inv r x d j b -> in_wait r -> (wanted b = None <-> has d bit_wait = false).
Proof.
  intros [_ _ Hd ->|v Hr _ _ _ _|v y _ _ Hy _ -> _ _ ->|v y k -> _ _ _ _ _ _ _] Hi.
  - split; auto. intros _. apply (rest_wait d b Hd).
  - destruct r; cbn in *; contradiction.
  - rewrite word_wait by exact Hy. split; discriminate.
  - contradiction.
Qed.
Lemma out_safe r x d j b : out_inv r x d j b -> r <> Throwing /\ (r = Idle -> wanted b = None).
Proof. intros []; (split; [intros E|intros E]); subst; cbn in *; try contradiction; try discriminate; auto. Qed.

(** C26: an outbound channel, which the SPU writes with [push_wait] and one thread reads with
    [pop], under every interleaving of the two, is a mailbox: each value that the SPU pushes is put
    once, in order, and never over a value that is there; [push_wait] returns true only when its
    value is put, and false only when it is stopped and its value is not put (a later [pop] may
    still put it); each [pop] returns the value it took out, or, from an empty mailbox, the value
    that was last in it; the count and the value that others read are those of the mailbox, also
    while a value waits; and the wait bit of a waiting SPU is off exactly when its value is put. *)
Theorem outbound_channel tr s :
  ch_steps puts gets (mk_sys Idle [XIdle] (mk_channel 0 0)) tr s ->
  exists x b,
    ext s = [x] /\ replay outbound (mk_outbox None None 0 None) tr = Some b /\ taken b = None /\ spu s <> Throwing /\
    get_count (channel s) = Z.b2z (holds (held b)) /\ get_value (channel s) = default (last_value b) (held b) /\
    (spu s = Idle -> wanted b = None) /\
    (in_wait (spu s) -> (wanted b = None <-> has (data (channel s)) bit_wait = false)).
Proof.
  intros H. destruct (out_always _ _ H) as (x & b & Hx & Hb & Ht & I). exists x, b. do 3 (split; [assumption|]).
  destruct (out_safe _ _ _ _ _ I), (out_read _ _ _ _ _ I) as [Hc Hu]. pose proof (out_wakes _ _ _ _ _ I).
  unfold get_count, get_value. rewrite Hc, Hu. destruct (holds (held b)); auto.
Qed.
Lemma outbound_channel_witness :
  let read := [ExtBegin 0 Pop; Ext 0; Ext 0; Ext 0] in
  let write v := [SpuBegin (PushWait v true); Spu; Spu; Spu; Spu] in
  match do_moves puts gets (write 1 ++ write 2 ++ read ++ [Spu; Spu] ++ read ++ read) (mk_sys Idle [XIdle] (mk_channel 0 0)) with
  | Some (tr, s) =>
      tr = [SpuCalled (PushWait 1 true); Pushed false 1; SpuReturned 1; SpuCalled (PushWait 2 true); ExtCalled 0 Pop; Popped 1; Pushed false 2;
            PopReturned 0 1; SpuReturned 1; ExtCalled 0 Pop; Popped 2; PopReturned 0 2; ExtCalled 0 Pop; Missed 2; PopReturned 0 2] /\
      exists b, replay outbound (mk_outbox None None 0 None) tr = Some b
  | None => False
  end.
Proof.
  intros read write.
  destruct (do_moves puts gets (write 1 ++ write 2 ++ read ++ [Spu; Spu] ++ read ++ read) (mk_sys Idle [XIdle] (mk_channel 0 0))) as [[tr s]|] eqn:E;
    [|vm_compute in E; discriminate].
  split; [vm_compute in E; congruence|].
  destruct (outbound_channel tr s (ch_schedule puts gets _ _ _ _ E)) as (x & b & _ & Hb & _). exists b. exact Hb.
Defined.

(** A push that was stopped and returned false is put by a later [pop]: [push_wait] resets the
    wait bit and leaves [bit_occupy]. *)
Example stopped_push :
  exists s, ch_steps puts gets (mk_sys Idle [XIdle] (mk_channel 0 0))
    [SpuCalled (PushWait 1 true); Pushed false 1; SpuReturned 1; SpuCalled (PushWait 2 true); SpuReturned 0; ExtCalled 0 Pop; Popped 1;
     Pushed false 2; PopReturned 0 1] s.
Proof.
  eexists. apply (ch_schedule puts gets
    ([SpuBegin (PushWait 1 true); Spu; Spu; Spu; Spu] ++ [SpuBegin (PushWait 2 true); Spu; Spu; Spu] ++ replicate 11 Spu ++ [SpuStop] ++
     [ExtBegin 0 Pop; Ext 0; Ext 0; Ext 0])).
  vm_compute. reflexivity.
Qed.
