(* ===== verification/SpuChannel4.v ===== *)
(** * The inbound mailbox of an SPU ([spu_channel_4_t] of Emu/Cell/SPUThread.h, SPUThread.cpp)

    A queue of up to four words.  Three of them, the count and the waiting flags are one atomic
    variable [values]; the fourth is [value3], an atomic variable of its own, and a value that
    meets a waiting SPU goes through [jostling_value].  As in SpuChannel each function is a
    machine of atomic actions: [fetch_op] with a function of [values] alone is one action, and
    where the function touches the other variables the load, the function and the compare and
    swap are actions of their own. *)

From Stdlib Require Import ZArith Lia Bool.
From stdpp Require Import base numbers list option.
From S2P Require Import Prelude.

Record sync_var_t := mk_var { waiting : Z; count : Z; value3_inval : Z; value0 : Z; value1 : Z; value2 : Z }.
Definition var_eqb (a b : sync_var_t) : bool :=
  (waiting a =? waiting b) && (count a =? count b) && (value3_inval a =? value3_inval b) &&
  (value0 a =? value0 b) && (value1 a =? value1 b) && (value2 a =? value2 b).
Record spu_channel_4_t := mk_channel4 { values : sync_var_t; jostling_value : Z; value3 : Z }.
Definition with_values (v : sync_var_t) (c : spu_channel_4_t) : spu_channel_4_t := mk_channel4 v (jostling_value c) (value3 c).
Definition with_jostling (j : Z) (c : spu_channel_4_t) : spu_channel_4_t := mk_channel4 (values c) j (value3 c).
Definition with_value3 (v : Z) (c : spu_channel_4_t) : spu_channel_4_t := mk_channel4 (values c) (jostling_value c) v.
Definition with_waiting (w : Z) (v : sync_var_t) : sync_var_t := mk_var w (count v) (value3_inval v) (value0 v) (value1 v) (value2 v).

Definition off_wait : Z := 0.
Definition off_occupy : Z := 7.
Definition bit_wait : Z := 2 ^ off_wait.
Definition bit_occupy : Z := 2 ^ off_occupy.
Definition jostling_flag : Z := 2 ^ 63.
Definition has (x bit : Z) : bool := negb (Z.land x bit =? 0).

(** ** Functions for a channel that no other thread is at, and reads *)

Definition clear (c : spu_channel_4_t) : spu_channel_4_t := mk_channel4 (mk_var 0 0 0 0 0 0) 0 0.
Definition get_count (c : spu_channel_4_t) : Z := count (values c).
Definition set_values (n v0 v1 v2 v3 : Z) (c : spu_channel_4_t) : spu_channel_4_t :=
  mk_channel4 (mk_var 0 (u8 n) 0 v0 v1 v2) (jostling_value c) v3.
(** What [try_read] finds, and what it leaves in [out]. *)
Definition try_read (out : list Z) (c : spu_channel_4_t) : Z * list Z :=
  let data := values c in
  (count data, if negb (count data =? 0) then [value0 data; value1 data; value2 data; value3 c] else out).

(** ** What happens to the values *)

Inductive spu_call := PopWait (pop_value : bool) | TryPop.
Inductive label :=
| Put (value : Z) | Got (value : Z) | Empty
| SpuCalled (k : spu_call) | SpuReturned (count value : Z)
| PushCalled (value : Z) | PushReturned (old_count count : Z) (notify op_done : bool).

(** ** The SPU's functions *)

(** [Halted]: it has returned on a stopped thread. *)
Inductive spu_point :=
| Idle | Halted
| QLoad (k : spu_call) | QBody (k : spu_call) (old : sync_var_t) | QCas (k : spu_call) (old new : sync_var_t)
| QBusy (pop_value : bool) (i : nat) | QWait (pop_value : bool) | QTake (pop_value stopped : bool) | QStop (pop_value : bool) | QClear (pop_value : bool).

(** The queue without its first value; [v3] is what was read from [value3]. *)
Definition shift (v3 : Z) (d : sync_var_t) : sync_var_t := mk_var 0 (u8 (count d - 1)) (value3_inval d) (value1 d) (value2 d) v3.
Definition wait_flags (pop_value : bool) : Z := Z.lor (if pop_value then bit_occupy else 0) bit_wait.

(** [try_pop], whose [out] is the value returned, 0 when there is none. *)
Definition try_pop (p : spu_point) (c : spu_channel_4_t) : option (spu_point * spu_channel_4_t * list label) :=
  match p with
  | QLoad k => Some (QBody k (values c), c, [])
  | QBody k old => Some (QCas k old (if negb (count old =? 0) then shift (value3 c) old else old), c, [])
  | QCas k old new =>
      Some (if var_eqb (values c) old
            then (Idle, with_values new c,
                  if negb (count old =? 0) then [Got (value0 old); SpuReturned (count old) (value0 old)] else [Empty; SpuReturned 0 0])
            else (QBody k (values c), c, []))
  | _ => None
  end.

(** [pop_wait]; [stopped] is what [spu.is_stopped()] answers. *)
Definition pop_wait (stopped : bool) (p : spu_point) (c : spu_channel_4_t) : option (spu_point * spu_channel_4_t * list label) :=
  match p with
  | QLoad k => Some (QBody k (values c), c, [])
  | QBody (PopWait pop as k) old =>
      Some (if negb (count old =? 0) then (QCas k old (if pop then shift (value3 c) old else old), c, [])
            else (QCas k old (with_waiting (wait_flags pop) old), with_jostling (if pop then jostling_flag else 0) c, []))
  | QCas (PopWait pop as k) old new =>
      Some (if var_eqb (values c) old
            then (if negb (count old =? 0)
                  then (Idle, with_values new c, (if pop then [Got (value0 old)] else []) ++ [SpuReturned (count old) (value0 old)])
                  else (QBusy pop 10, with_values new c, []))
            else (QBody k (values c), c, []))
  | QBusy pop (S i) => Some (if waiting (values c) =? 0 then (QTake pop false, c, []) else (QBusy pop i, c, []))
  | QBusy pop O => Some (QWait pop, c, [])
  | QTake pop halts =>
      let v := if pop then u32 (jostling_value c) else 0 in
      Some (if halts then Halted else Idle, if pop then with_jostling 0 c else c, [SpuReturned 1 v])
  | QWait pop =>
      Some (if negb (has (waiting (values c)) bit_wait) then (QTake pop false, c, [])
            else if stopped then (if pop then QStop pop else QClear pop, c, []) else (QWait pop, c, []))
  | QStop pop =>
      let v := jostling_value c in
      Some (if negb (has v jostling_flag) then (Halted, with_jostling 0 c, [SpuReturned 1 (u32 v)]) else (QClear pop, with_jostling 0 c, []))
  | QClear pop =>
      let old := waiting (values c) in
      let c := with_values (with_waiting 0 (values c)) c in
      Some (if negb (has old bit_wait) then (QTake pop true, c, []) else (Halted, c, [SpuReturned 0 0]))
  | _ => None
  end.

Definition spu_act (stopped : bool) (p : spu_point) (c : spu_channel_4_t) : option (spu_point * spu_channel_4_t * list label) :=
  match p with
  | QLoad TryPop | QBody TryPop _ | QCas TryPop _ _ => try_pop p c
  | _ => pop_wait stopped p c
  end.

(** ** The function of the thread that writes *)

Inductive ext_point :=
| XIdle | WRelease (value : Z) | WFetch (value : Z) | WJostle (value : Z) (old : sync_var_t) | WClear (old : sync_var_t).

Definition push_value (value : Z) (d : sync_var_t) : sync_var_t :=
  let n := u8 (count d + 1) in
  if count d =? 0 then mk_var (waiting d) n (value3_inval d) value (value1 d) (value2 d)
  else if count d =? 1 then mk_var (waiting d) n (value3_inval d) (value0 d) value (value2 d)
  else if count d =? 2 then mk_var (waiting d) n (value3_inval d) (value0 d) (value1 d) value
  else mk_var (waiting d) 4 (u16 (value3_inval d + 1)) (value0 d) (value1 d) (value2 d).
Definition push_end (old : sync_var_t) : label :=
  PushReturned (count old) (Z.min (u8 (count old + 1)) 4) (has (waiting old) bit_wait) true.

Definition push (p : ext_point) (c : spu_channel_4_t) : option (ext_point * spu_channel_4_t * list label) :=
  match p with
  | XIdle => None
  | WRelease value => Some (WFetch value, with_value3 value c, [])
  | WFetch value =>
      let old := values c in
      Some (if has (waiting old) bit_occupy then (WJostle value old, c, [])
            else let c := with_values (push_value value old) c in
                 if has (waiting old) bit_wait then (WClear old, c, [Put value]) else (XIdle, c, [Put value; push_end old]))
  | WJostle value old =>
      Some (if jostling_value c =? jostling_flag
            then let c := with_jostling value c in
                 if has (waiting old) bit_wait then (WClear old, c, [Put value; Got value]) else (XIdle, c, [Put value; Got value; push_end old])
            else (WRelease value, c, []))
  | WClear old =>
      let w := waiting (values c) in
      let c := with_values (with_waiting 0 (values c)) c in
      Some (XIdle, c, [if negb (has w bit_wait) then PushReturned (count old) (count old) false false else push_end old])
  end.

(** ** All interleavings of the SPU and one writer

    [spu_may]: the functions that the SPU calls; [may_push]: when the writer starts a push. *)
Section System.
Context (spu_may : spu_call -> bool) (may_push : Z -> spu_channel_4_t -> bool).

Record sys := mk_sys { spu : spu_point; ext : ext_point; channel : spu_channel_4_t }.

Inductive mb_step : sys -> list label -> sys -> Prop :=
| spu_acts stopped p x c p' c' l : spu_act stopped p c = Some (p', c', l) -> mb_step (mk_sys p x c) l (mk_sys p' x c')
| ext_acts p x c x' c' l : push x c = Some (x', c', l) -> mb_step (mk_sys p x c) l (mk_sys p x' c')
| spu_calls x c k : spu_may k = true -> mb_step (mk_sys Idle x c) [SpuCalled k] (mk_sys (QLoad k) x c)
| ext_calls p c v : may_push v c = true -> mb_step (mk_sys p XIdle c) [PushCalled v] (mk_sys p (WRelease v) c).

Inductive mb_steps (s : sys) : list label -> sys -> Prop :=
| mb_none : mb_steps s [] s
| mb_more tr s' l s'' : mb_steps s tr s' -> mb_step s' l s'' -> mb_steps s (tr ++ l) s''.

Lemma mb_invariant (I : list label -> sys -> Prop) s0 :
  I [] s0 -> (forall tr s l s', I tr s -> mb_step s l s' -> I (tr ++ l) s') -> forall tr s, mb_steps s0 tr s -> I tr s.
Proof. intros H0 H tr s Hs. induction Hs; eauto. Qed.

(** Schedules, to run examples. *)
Inductive move := Spu | SpuStop | Ext | SpuBegin (k : spu_call) | ExtBegin (v : Z).
Definition do_move (m : move) (s : sys) : option (list label * sys) :=
  match m with
  | Spu | SpuStop =>
      match spu_act (match m with SpuStop => true | _ => false end) (spu s) (channel s) with
      | Some (p', c', l) => Some (l, mk_sys p' (ext s) c') | None => None end
  | Ext => match push (ext s) (channel s) with Some (x', c', l) => Some (l, mk_sys (spu s) x' c') | None => None end
  | SpuBegin k => match spu s with
                  | Idle => if spu_may k then Some ([SpuCalled k], mk_sys (QLoad k) (ext s) (channel s)) else None
                  | _ => None
                  end
  | ExtBegin v => match ext s with
                  | XIdle => if may_push v (channel s) then Some ([PushCalled v], mk_sys (spu s) (WRelease v) (channel s)) else None
                  | _ => None
                  end
  end.
Fixpoint do_moves (ms : list move) (s : sys) : option (list label * sys) :=
  match ms with
  | [] => Some ([], s)
  | m :: ms => match do_move m s with
               | Some (l, s') => match do_moves ms s' with Some (tr, s'') => Some (l ++ tr, s'') | None => None end
               | None => None
               end
  end.

Lemma mb_move m s l s' : do_move m s = Some (l, s') -> mb_step s l s'.
Proof.
  destruct s as [p x c], m; cbn [do_move spu ext channel].
  1,2: destruct (spu_act _ p c) as [[[p' c'] l0]|] eqn:E; [|discriminate]; intros [= <- <-]; eapply spu_acts, E.
  - destruct (push x c) as [[[x' c'] l0]|] eqn:E; [|discriminate]. intros [= <- <-]. eapply ext_acts, E.
  - destruct p; try discriminate. destruct (spu_may k) eqn:E; [|discriminate]. intros [= <- <-]. apply spu_calls, E.
  - destruct x; try discriminate. destruct (may_push v c) eqn:E; [|discriminate]. intros [= <- <-]. apply ext_calls, E.
Qed.
Lemma mb_schedule ms s tr s' : do_moves ms s = Some (tr, s') -> mb_steps s tr s'.
Proof.
  enough (forall tr0 s0, mb_steps s0 tr0 s -> do_moves ms s = Some (tr, s') -> mb_steps s0 (tr0 ++ tr) s') as H
    by (intros E; exact (H [] s (mb_none s) E)).
  revert s tr. induction ms as [|m ms IH]; intros s tr tr0 s0 H0 E; cbn in E.
  - injection E as <- <-. rewrite app_nil_r. exact H0.
  - destruct (do_move m s) as [[l s1]|] eqn:Em; [|discriminate].
    destruct (do_moves ms s1) as [[tr1 s2]|] eqn:Ems; [|discriminate]. injection E as <- <-.
    rewrite app_assoc. eapply IH; [|exact Ems]. eapply mb_more; [exact H0|]. exact (mb_move _ _ _ _ Em).
Qed.
End System.
