(* ===== verification/SpuQueue4.v ===== *)
(** * The inbound mailbox of an SPU under all interleavings

    Between the SPU and one writer that pushes when there is room, [spu_channel_4_t] is a queue of
    at most four values.  A push on a full mailbox overwrites the last value when nothing else
    happens, and loses it and stores its own value twice when the SPU takes one meanwhile. *)

From Stdlib Require Import ZArith Lia Bool.
From stdpp Require Import base numbers list option.
From S2P Require Import Prelude SpuMailbox SpuChannel4.

(** ** The queue *)

(** The values in it, the count that the last push found, whether the last value put is taken, the
    values taken out for the SPU with the count before, and what the writer wants to put. *)
Record mailbox := mk_mailbox { queue : list Z; found : Z; handed : bool; owed : list (Z * Z); asked : option Z }.
Definition mailbox_spec (b : mailbox) (l : label) : option mailbox :=
  match l with
  | SpuCalled _ => match owed b with [] => Some b | _ => None end
  | PushCalled v => match asked b with None => Some (mk_mailbox (queue b) (found b) (handed b) (owed b) (Some v)) | Some _ => None end
  | Put v =>
      match asked b with
      | Some v' =>
          if (v' =? v) && (Z.of_nat (length (queue b)) <? 4)
          then Some (mk_mailbox (queue b ++ [v]) (Z.of_nat (length (queue b))) false (owed b) None) else None
      | None => None
      end
  | Got v =>
      match queue b with
      | x :: q => if x =? v then Some (mk_mailbox q (found b) true (owed b ++ [(Z.of_nat (length (queue b)), v)]) (asked b)) else None
      | [] => None
      end
  | Empty => match queue b with [] => Some b | _ => None end
  | SpuReturned n v =>
      match owed b with
      | [] => if (n =? 0) && (v =? 0) then Some b else None
      | (n', v') :: l => if (n =? n') && (v =? v') then Some (mk_mailbox (queue b) (found b) (handed b) l (asked b)) else None
      end
  | PushReturned old new notify done =>
      match asked b with
      | None => if (old =? found b) && (new =? found b + 1) && Bool.eqb notify (handed b) && done then Some b else None
      | Some _ => None
      end
  end.

(** The calls made on it: the SPU takes values, the writer pushes when there is room. *)
Definition takes (k : spu_call) : bool := match k with PopWait pop => pop | TryPop => true end.
Definition room (v : Z) (c : spu_channel_4_t) : bool := (0 <=? v) && (v <? 2 ^ 32) && (get_count c <? 4).

(** ** The invariant *)

(** The queue as the channel stores it. *)
Definition stored (q : list Z) (d : sync_var_t) (v3 : Z) : Prop :=
  match q with
  | [] => count d = 0
  | [a] => count d = 1 /\ value0 d = a
  | [a; b] => count d = 2 /\ value0 d = a /\ value1 d = b
  | [a; b; e] => count d = 3 /\ value0 d = a /\ value1 d = b /\ value2 d = e
  | [a; b; e; f] => count d = 4 /\ value0 d = a /\ value1 d = b /\ value2 d = e /\ v3 = f
  | _ => False
  end.
Definition occupied : Z := wait_flags true.

(** The writer, between its calls or before it has put its value. *)
Definition between (x : ext_point) (c : spu_channel_4_t) : Prop :=
  match x with
  | XIdle => True
  | WRelease v => in_range 32 v /\ count (values c) < 4
  | WFetch v => in_range 32 v /\ count (values c) < 4 /\ value3 c = v
  | _ => False
  end.
Definition trying (x : ext_point) (c : spu_channel_4_t) : Prop :=
  match x with WJostle v old => in_range 32 v /\ count (values c) < 4 /\ waiting old = occupied /\ count old = 0 | _ => between x c end.
Definition clearing (x : ext_point) : Prop := exists old, x = WClear old /\ waiting old = occupied /\ count old = 0.
Definition wants (x : ext_point) : option Z := match x with WRelease v | WFetch v | WJostle v _ => Some v | _ => None end.

(** What the SPU has loaded is what is there, or the writer has put more since. *)
Definition loaded (old d : sync_var_t) : Prop := waiting old = 0 /\ 0 <= count old <= 4 /\ (old = d \/ count old < count d).
Definition calm (r : spu_point) (c : spu_channel_4_t) : Prop :=
  match r with
  | Idle | Halted => True
  | QLoad k => takes k = true
  | QBody k old => takes k = true /\ loaded old (values c)
  | QCas k old new =>
      takes k = true /\ loaded old (values c) /\
      if count old =? 0
      then match k with PopWait _ => new = with_waiting occupied old /\ jostling_value c = jostling_flag | TryPop => new = old end
      else exists x, new = shift x old /\ (count old = 4 -> x = value3 c)
  | _ => False
  end.
Definition waits (r : spu_point) : Prop := match r with QBusy true _ | QWait true | QStop true => True | _ => False end.

(** The value that the SPU is owed is in [jostling_value] from [mb_given] on. *)
Inductive mb_inv (r : spu_point) (x : ext_point) (c : spu_channel_4_t) (b : mailbox) : Prop :=
| mb_calm : calm r c -> between x c -> waiting (values c) = 0 -> stored (queue b) (values c) (value3 c) -> owed b = [] ->
    mb_inv r x c b
| mb_waits : waits r -> trying x c -> waiting (values c) = occupied -> jostling_value c = jostling_flag -> count (values c) = 0 ->
    queue b = [] -> owed b = [] -> mb_inv r x c b
| mb_given v : waits r -> clearing x -> in_range 32 v -> waiting (values c) = occupied -> jostling_value c = v -> count (values c) = 0 ->
    queue b = [] -> owed b = [(1, v)] -> found b = 0 -> handed b = true -> mb_inv r x c b
| mb_taken v : waits r \/ r = QTake true false -> between x c -> in_range 32 v -> waiting (values c) = 0 ->
    stored (queue b) (values c) (value3 c) -> jostling_value c = v -> owed b = [(1, v)] -> mb_inv r x c b
| mb_gone : r = Halted -> clearing x -> waiting (values c) = occupied -> count (values c) = 0 -> queue b = [] -> owed b = [] ->
    found b = 0 -> handed b = true -> mb_inv r x c b
| mb_clearing : r = QClear true -> trying x c -> waiting (values c) = occupied -> jostling_value c = 0 -> count (values c) = 0 ->
    queue b = [] -> owed b = [] -> mb_inv r x c b
| mb_late : r = Halted -> trying x c -> waiting (values c) = 0 -> jostling_value c = 0 ->
    stored (queue b) (values c) (value3 c) -> owed b = [] -> mb_inv r x c b.

(** ** The stored queue *)

Lemma stored_count q d v3 : stored q d v3 -> count d = Z.of_nat (length q) /\ (length q <= 4)%nat.
Proof. destruct q as [|a [|b [|e [|f [|g q]]]]]; cbn; intros H; try contradiction; intuition lia. Qed.
Lemma stored_nil q d v3 : stored q d v3 -> count d = 0 -> q = [].
Proof. intros H Hc. destruct (stored_count _ _ _ H) as [Hn _]. destruct q; [reflexivity|]. cbn in Hn. lia. Qed.
Lemma stored_any q d v3 v3' : stored q d v3 -> count d < 4 -> stored q d v3'.
Proof. destruct q as [|a [|b [|e [|f [|g q]]]]]; cbn; intros H; try contradiction; auto. intuition lia. Qed.
Lemma stored_pop q d v3 x : stored q d v3 -> count d <> 0 -> (count d = 4 -> x = v3) -> exists q', q = value0 d :: q' /\ stored q' (shift x d) v3.
Proof.
  destruct q as [|a [|b [|e [|f [|g q]]]]]; cbn; intros H Hn Hx; try contradiction; try lia; [destruct H as [Hc <-]| | |];
    try (destruct H as (Hc & <- & H)); eexists; (split; [reflexivity|]); cbn; rewrite Hc; cbn; intuition congruence.
Qed.
Lemma stored_push q d v : stored q d v -> count d < 4 -> stored (q ++ [v]) (push_value v d) v.
Proof.
  unfold push_value. destruct q as [|a [|b [|e [|f [|g q]]]]]; cbn; intros H Hn; try contradiction; try (destruct H; lia);
    [rewrite H|destruct H as [Hc H]; rewrite Hc..]; cbn; intuition lia.
Qed.
Lemma push_value_count v d : 0 <= count d < 4 -> count (push_value v d) = count d + 1 /\ waiting (push_value v d) = waiting d.
Proof.
  intros H. unfold push_value. assert (count d = 0 \/ count d = 1 \/ count d = 2 \/ count d = 3) as [E|[E|[E|E]]] by lia; rewrite E; auto.
Qed.
Lemma var_eqb_spec a b : reflect (a = b) (var_eqb a b).
Proof.
  apply iff_reflect. unfold var_eqb. rewrite !andb_true_iff, !Z.eqb_eq. destruct a, b; cbn.
  split; [intros [=]; subst; auto 10|intros (((((->&->)&->)&->)&->)&->); reflexivity].
Qed.
Lemma no_flag v : in_range 32 v -> has v jostling_flag = false /\ (v =? jostling_flag) = false.
Proof.
  intros Hv. unfold has. rewrite land_above by auto. split; [reflexivity|]. unfold in_range, jostling_flag in *. lia.
Qed.

(** ** The SPU's actions *)

Lemma loaded_self c b : waiting (values c) = 0 -> stored (queue b) (values c) (value3 c) -> loaded (values c) (values c).
Proof. intros Hw Hs. destruct (stored_count _ _ _ Hs). unfold loaded. split_and!; auto; lia. Qed.
(** Fewer values leave room for the writer. *)
Lemma between_less x c c' : between x c -> count (values c') <= count (values c) -> value3 c' = value3 c -> between x c'.
Proof. destruct x; cbn; intros H Hn Hv; try rewrite Hv; intuition lia. Qed.

Lemma trying_less x c c' : between x c -> count (values c') <= count (values c) -> value3 c' = value3 c -> trying x c'.
Proof. intros H Hn Hv. pose proof (between_less x c c' H Hn Hv) as H'. destruct x; cbn in *; auto; contradiction. Qed.

Lemma got_spec b v q : queue b = v :: q -> owed b = [] ->
  exists b', replay mailbox_spec b [Got v; SpuReturned (Z.of_nat (length (queue b))) v] = Some b' /\ asked b' = asked b /\ queue b' = q /\ owed b' = [].
Proof.
  intros Hq Ho. cbn [replay mailbox_spec]. rewrite Hq, Z.eqb_refl, Ho. cbn [replay mailbox_spec owed app]. rewrite !Z.eqb_refl. cbn [andb].
  eexists. split; [reflexivity|]. auto.
Qed.

Lemma mb_spu_take x k new c b :
  between x c -> waiting (values c) = 0 -> stored (queue b) (values c) (value3 c) -> owed b = [] -> count (values c) <> 0 ->
  (exists y, new = shift y (values c) /\ (count (values c) = 4 -> y = value3 c)) -> takes k = true ->
  exists b', replay mailbox_spec b [Got (value0 (values c)); SpuReturned (count (values c)) (value0 (values c))] = Some b' /\
             asked b' = asked b /\ mb_inv Idle x (with_values new c) b'.
Proof.
  intros Hx Hw Hs Ho Hn (y & -> & Hy) _. destruct (stored_count _ _ _ Hs) as [Hc Hl]. destruct (stored_pop _ _ _ y Hs Hn Hy) as (q' & Hq & Hs').
  destruct (got_spec b _ _ Hq Ho) as (b' & Hb & Ha & Hq' & Ho'). rewrite <- Hc in Hb. exists b'. split; [exact Hb|]. split; [exact Ha|].
  apply mb_calm; cbn [calm values with_values value3]; auto; [|rewrite Hq'; exact Hs'].
  apply (between_less x c); cbn; auto. rewrite (wrap_small 8) by (unfold in_range; lia). lia.
Qed.

Lemma mb_spu_calm stopped r x c b r' c' l :
  calm r c -> between x c -> waiting (values c) = 0 -> stored (queue b) (values c) (value3 c) -> owed b = [] ->
  spu_act stopped r c = Some (r', c', l) ->
  exists b', replay mailbox_spec b l = Some b' /\ asked b' = asked b /\ mb_inv r' x c' b'.
Proof.
  intros Hr Hx Hw Hs Ho E. pose proof (loaded_self c b Hw Hs) as Hself.
  destruct r as [| |k|k old|k old new| | | | |]; cbn [calm] in Hr; try contradiction; try discriminate.
  - assert ((r', c', l) = (QBody k (values c), c, [])) as [= -> -> ->] by (destruct k; cbn in E; congruence).
    exists b. do 2 (split; [reflexivity|]). apply mb_calm; cbn; auto.
  - destruct Hr as [Hk Hl]. exists b. destruct k as [[]|]; try discriminate; cbn [spu_act pop_wait try_pop] in E;
      (destruct (Z.eqb_spec (count old) 0) as [E0|E0]; cbn [negb] in E; injection E as <- <- <-; do 2 (split; [reflexivity|]);
       apply mb_calm; cbn [calm values with_jostling value3]; auto; (split; [reflexivity|]); (split; [exact Hl|]);
       destruct (Z.eqb_spec (count old) 0); try contradiction; eauto).
  - destruct Hr as (Hk & Hl & Hnew). destruct k as [[]|]; try discriminate; cbn [spu_act pop_wait try_pop] in E;
      destruct (var_eqb_spec (values c) old) as [<-|Hne]; try (injection E as <- <- <-; exists b; do 2 (split; [reflexivity|]); apply mb_calm; cbn; now auto);
      destruct (Z.eqb_spec (count (values c)) 0) as [E0|E0]; cbn [negb app] in E; injection E as <- <- <-.
    + destruct Hnew as [-> Hj]. exists b. do 2 (split; [reflexivity|]). apply mb_waits; cbn [waits]; auto; [|exact (stored_nil _ _ _ Hs E0)].
      apply (trying_less x c); cbn; auto; lia.
    + apply (mb_spu_take x (PopWait true)); auto.
    + subst new. exists b. cbn [replay mailbox_spec]. rewrite (stored_nil _ _ _ Hs E0), Ho.
      do 2 (split; [reflexivity|]). apply mb_calm; cbn; auto.
    + apply (mb_spu_take x TryPop); auto.
Qed.

Lemma mb_spu stopped r x c b r' c' l :
  mb_inv r x c b -> spu_act stopped r c = Some (r', c', l) -> exists b', replay mailbox_spec b l = Some b' /\ asked b' = asked b /\ mb_inv r' x c' b'.
Proof.
  intros I E. destruct I as [Hr Hx Hw Hs Ho|Hr Hx Hw Hj Hc Hq Ho|v Hr Hx Hv Hw Hj Hc Hq Ho Hf Hh|v Hr Hx Hv Hw Hs Hj Ho| -> Hx Hw Hc Hq Ho Hf Hh| -> Hx Hw Hj Hc Hq Ho| -> Hx Hw Hj Hs Ho].
  - exact (mb_spu_calm stopped r x c b _ _ _ Hr Hx Hw Hs Ho E).
  - exists b. destruct r as [| | | | |[] [|i]|[]| |[]|]; cbn [waits] in Hr; try contradiction; cbn [spu_act pop_wait] in E; rewrite ?Hw, ?Hj in E; cbn in E;
      try destruct stopped; injection E as <- <- <-; do 2 (split; [reflexivity|]); try (apply mb_waits; now auto). all: apply mb_clearing; auto.
  - destruct (no_flag v Hv) as [Hn _].
    destruct r as [| | | | |[] [|i]|[]| |[]|]; cbn [waits] in Hr; try contradiction; cbn [spu_act pop_wait] in E; rewrite ?Hw, ?Hj, ?Hn in E; cbn in E;
      try destruct stopped; injection E as <- <- <-; try (exists b; do 2 (split; [reflexivity|]); apply mb_given with v; now auto).
    all: cbn [replay mailbox_spec]; rewrite Ho, (wrap_small 32 v Hv), !Z.eqb_refl; cbn [andb]; eexists; do 2 (split; [reflexivity|]); apply mb_gone; auto.
  - destruct (no_flag v Hv) as [Hn _]. destruct Hr as [Hr| ->].
    + destruct r as [| | | | |[] [|i]|[]| |[]|]; cbn [waits] in Hr; try contradiction; cbn [spu_act pop_wait] in E; rewrite ?Hw, ?Hj, ?Hn in E; cbn in E;
        injection E as <- <- <-; try (exists b; do 2 (split; [reflexivity|]); apply mb_taken with v; cbn; now auto).
      cbn [replay mailbox_spec]. rewrite Ho, (wrap_small 32 v Hv), !Z.eqb_refl. cbn [andb]. eexists. do 2 (split; [reflexivity|]). apply mb_calm; cbn; auto.
    + cbn [spu_act pop_wait] in E. injection E as <- <- <-. cbn [replay mailbox_spec].
      rewrite Ho, Hj, (wrap_small 32 v Hv), !Z.eqb_refl. cbn [andb]. eexists. do 2 (split; [reflexivity|]). apply mb_calm; cbn; auto.
  - discriminate.
  - cbn [spu_act pop_wait] in E. rewrite Hw in E. cbn in E. injection E as <- <- <-. cbn [replay mailbox_spec]. rewrite Ho. cbn [Z.eqb andb].
    exists b. do 2 (split; [reflexivity|]). apply mb_late; auto. rewrite Hq. exact Hc.
  - discriminate.
Qed.

(** ** The writer's actions *)

Lemma mb_push_plain x c b x' c' l :
  between x c -> waiting (values c) = 0 -> stored (queue b) (values c) (value3 c) -> asked b = wants x -> push x c = Some (x', c', l) ->
  exists b', replay mailbox_spec b l = Some b' /\ asked b' = wants x' /\ between x' c' /\ waiting (values c') = 0 /\
    stored (queue b') (values c') (value3 c') /\ owed b' = owed b /\ jostling_value c' = jostling_value c /\
    (values c' = values c /\ count (values c) < 4 \/ count (values c) < count (values c')).
Proof.
  intros Hx Hw Hs Ha E. destruct (stored_count _ _ _ Hs) as [Hc Hl]. destruct x as [|v|v| |]; cbn [between] in Hx; try contradiction; [discriminate| |]; cbn [push] in E.
  - injection E as <- <- <-. exists b. cbn. destruct Hx. split_and!; auto. eapply stored_any; eauto.
  - destruct Hx as (Hv & Hn & H3). destruct (push_value_count v (values c) ltac:(lia)) as [Hc' Hw'].
    rewrite Hw in E. cbn [has Z.land Z.eqb negb] in E. injection E as <- <- <-. cbn [replay mailbox_spec]. rewrite Ha. cbn [wants].
    assert ((Z.of_nat (length (queue b)) <? 4) = true) as Hlt by (apply Z.ltb_lt; lia). rewrite Z.eqb_refl, Hlt. cbn [andb push_end mailbox_spec asked found handed].
    rewrite Hw, (wrap_small 8) by (unfold in_range; lia). rewrite Hc, Z.eqb_refl, Z.min_l by lia. rewrite Z.eqb_refl. cbn [andb Bool.eqb has Z.land Z.eqb negb].
    eexists. split; [reflexivity|]. cbn. split_and!; auto; [congruence| |lia]. rewrite H3 in *. apply stored_push; [exact Hs|lia].
Qed.
Lemma calm_push r c c' :
  calm r c -> count (values c') <= 4 -> jostling_value c' = jostling_value c ->
  (values c' = values c /\ count (values c) < 4 \/ count (values c) < count (values c')) -> calm r c'.
Proof.
  intros Hr H4 Hj Hd.
  assert (forall old, loaded old (values c) -> loaded old (values c') /\ count old <> 4) as Hl.
  { intros old (Hw & Hc & [->|Hlt]); unfold loaded; destruct Hd as [[-> Hn]|Hn]; split_and!; auto; try lia. }
  destruct r as [| |k|k old|k old new| | | | |]; cbn [calm] in *; auto.
  - destruct Hr as [Hk Ho]. split; [exact Hk|]. apply (Hl old Ho).
  - destruct Hr as (Hk & Ho & Hn). destruct (Hl old Ho) as [Ho' H]. split; [exact Hk|]. split; [exact Ho'|]. rewrite Hj.
    destruct (count old =? 0); [exact Hn|]. destruct Hn as (y & -> & _). exists y. split; [reflexivity|]. intros; contradiction.
Qed.
Lemma mb_push_occupied x c x' c' l :
  trying x c -> waiting (values c) = occupied -> count (values c) = 0 -> push x c = Some (x', c', l) ->
  values c' = values c /\
  (l = [] /\ wants x' = wants x /\ trying x' c' /\ jostling_value c' = jostling_value c \/
   exists v, l = [Put v; Got v] /\ wants x = Some v /\ in_range 32 v /\ clearing x' /\ wants x' = None /\
             jostling_value c = jostling_flag /\ jostling_value c' = v).
Proof.
  intros Hx Hw Hc E. destruct x as [|v|v|v old|]; cbn [trying between] in Hx; try contradiction; [discriminate| | |]; cbn [push] in E.
  - injection E as <- <- <-. cbn. destruct Hx. auto 10.
  - rewrite Hw in E. cbn in E. injection E as <- <- <-. cbn. destruct Hx as (? & ? & ?). auto 12.
  - destruct Hx as (Hv & Hn & Ho & Hc'). destruct (Z.eqb_spec (jostling_value c) jostling_flag) as [Hj|Hj].
    + rewrite Ho in E. cbn in E. injection E as <- <- <-. cbn. split; [reflexivity|]. right. exists v. split_and!; auto. exists old. auto.
    + injection E as <- <- <-. cbn. auto 10.
Qed.
Lemma mb_push_clear x c b x' c' l :
  clearing x -> waiting (values c) = occupied -> found b = 0 -> handed b = true -> asked b = None -> push x c = Some (x', c', l) ->
  replay mailbox_spec b l = Some b /\ x' = XIdle /\ values c' = with_waiting 0 (values c) /\ jostling_value c' = jostling_value c /\ value3 c' = value3 c.
Proof.
  intros (old & -> & Ho & Hc) Hw Hf Hh Ha E. cbn [push] in E. rewrite Hw in E. cbn in E. injection E as <- <- <-.
  unfold push_end. rewrite Ho, Hc. cbn [replay mailbox_spec]. rewrite Ha, Hf, Hh. cbn. auto.
Qed.

Lemma mb_ext r x c b x' c' l :
  mb_inv r x c b -> asked b = wants x -> push x c = Some (x', c', l) -> exists b', replay mailbox_spec b l = Some b' /\ asked b' = wants x' /\ mb_inv r x' c' b'.
Proof.
  intros I Ha E. destruct I as [Hr Hx Hw Hs Ho|Hr Hx Hw Hj Hc Hq Ho|v Hr Hx Hv Hw Hj Hc Hq Ho Hf Hh|v Hr Hx Hv Hw Hs Hj Ho| -> Hx Hw Hc Hq Ho Hf Hh| -> Hx Hw Hj Hc Hq Ho| -> Hx Hw Hj Hs Ho].
  - destruct (mb_push_plain x c b _ _ _ Hx Hw Hs Ha E) as (b' & Hb & Ha' & Hx' & Hw' & Hs' & Ho' & Hj' & Hd). exists b'. do 2 (split; [assumption|]).
    apply mb_calm; auto; [|congruence]. eapply calm_push; eauto. destruct (stored_count _ _ _ Hs'). lia.
  - destruct (mb_push_occupied x c _ _ _ Hx Hw Hc E) as [Hv [(-> & Hq' & Hx' & Hj')|(v & -> & Hq' & Hv' & Hx' & Hn & _ & Hj')]].
    + exists b. split; [reflexivity|]. split; [congruence|]. apply mb_waits; auto; congruence.
    + cbn [replay mailbox_spec]. rewrite Ha, Hq', Hq, Ho, Z.eqb_refl. change (Z.of_nat (length (@nil Z)) <? 4) with true. cbn. rewrite Z.eqb_refl. eexists. split; [reflexivity|]. split; [cbn; congruence|].
      apply mb_given with v; cbn; auto; congruence.
  - assert (asked b = None) as Hn by (destruct Hx as (? & -> & _); exact Ha).
    destruct (mb_push_clear x c b _ _ _ Hx Hw Hf Hh Hn E) as (Hb & -> & Hd & Hj' & H3). exists b. do 2 (split; [assumption|]).
    apply mb_taken with v; cbn; rewrite ?Hd, ?H3; auto; [|congruence]. rewrite Hq. exact Hc.
  - destruct (mb_push_plain x c b _ _ _ Hx Hw Hs Ha E) as (b' & Hb & Ha' & Hx' & Hw' & Hs' & Ho' & Hj' & Hd). exists b'. do 2 (split; [assumption|]).
    apply mb_taken with v; auto; congruence.
  - assert (asked b = None) as Hn by (destruct Hx as (? & -> & _); exact Ha).
    destruct (mb_push_clear x c b _ _ _ Hx Hw Hf Hh Hn E) as (Hb & -> & Hd & Hj' & H3). exists b. do 2 (split; [assumption|]).
    apply mb_calm; cbn; rewrite ?Hd, ?H3; auto. rewrite Hq. exact Hc.
  - destruct (mb_push_occupied x c _ _ _ Hx Hw Hc E) as [Hv [(-> & Hq' & Hx' & Hj')|(v & _ & _ & _ & _ & _ & Hf & _)]]; [|rewrite Hj in Hf; discriminate].
    exists b. split; [reflexivity|]. split; [congruence|]. apply mb_clearing; auto; congruence.
  - assert (between x c \/ exists v old, x = WJostle v old) as [Hx'|(v & old & ->)] by (destruct x; cbn in *; eauto).
    + destruct (mb_push_plain x c b _ _ _ Hx' Hw Hs Ha E) as (b' & Hb & Ha' & Hy & Hw' & Hs' & Ho' & Hj' & Hd). exists b'. do 2 (split; [assumption|]).
      apply mb_calm; cbn; auto. congruence.
    + cbn [push] in E. rewrite Hj in E. cbn in E. injection E as <- <- <-. exists b. split; [reflexivity|]. split; [exact Ha|].
      destruct Hx as (? & ? & ?). apply mb_late; cbn; auto.
Qed.

(** ** All interleavings *)

Lemma mb_calls v r c b :
  room v c = true -> asked b = None -> mb_inv r XIdle c b ->
  exists b', replay mailbox_spec b [PushCalled v] = Some b' /\ asked b' = wants (WRelease v) /\ mb_inv r (WRelease v) c b'.
Proof.
  intros Hk Ha I. unfold room, get_count in Hk. assert (in_range 32 v /\ count (values c) < 4) as Hv by (unfold in_range; lia).
  cbn [replay mailbox_spec]. rewrite Ha. eexists. do 2 (split; [reflexivity|]).
  destruct I; eauto using mb_calm, mb_waits, mb_taken, mb_clearing, mb_late;
    match goal with H : clearing XIdle |- _ => destruct H as (? & [=] & _) end.
Qed.
Lemma mb_entry k x c b : takes k = true -> mb_inv Idle x c b -> replay mailbox_spec b [SpuCalled k] = Some b /\ mb_inv (QLoad k) x c b.
Proof.
  intros Hk I. destruct I as [? ? ? ? Ho|[]|? []|? [[]|[=]]|[=]|[=]|[=]]. cbn [replay mailbox_spec]. rewrite Ho. split; [reflexivity|]. apply mb_calm; cbn; auto.
Qed.

Definition mb_empty : sys := mk_sys Idle XIdle (clear (mk_channel4 (mk_var 0 0 0 0 0 0) 0 0)).
Definition mb_reached (tr : list label) (s : sys) : Prop :=
  exists b, replay mailbox_spec (mk_mailbox [] 0 false [] None) tr = Some b /\ asked b = wants (ext s) /\ mb_inv (spu s) (ext s) (channel s) b.
Lemma mb_always tr s : mb_steps takes room mb_empty tr s -> mb_reached tr s.
Proof.
  revert tr s. apply mb_invariant.
  - eexists. do 2 (split; [reflexivity|]). apply mb_calm; cbn; auto.
  - intros tr s l s' (b & Hb & Ha & I) Hs. destruct Hs as [stopped p x c p' c' l E|p x c x' c' l E|x c k Hk|p c v Hk];
      cbn [ext spu channel] in *.
    + destruct (mb_spu stopped p x c b _ _ _ I E) as (b' & Hb' & Ha' & I'). exists b'. rewrite replay_app, Hb, Ha'. auto.
    + destruct (mb_ext p x c b _ _ _ I Ha E) as (b' & Hb' & I'). exists b'. rewrite replay_app, Hb. auto.
    + destruct (mb_entry k x _ b Hk I) as [Hb' I']. exists b. rewrite replay_app, Hb. auto.
    + destruct (mb_calls v p c b Hk Ha I) as (b' & Hb' & I'). exists b'. rewrite replay_app, Hb. auto.
Qed.

Lemma mb_stored r x c b : mb_inv r x c b -> stored (queue b) (values c) (value3 c).
Proof. intros []; auto; match goal with H : queue b = [] |- _ => rewrite H; assumption end. Qed.
Lemma mb_owed r x c b : mb_inv r x c b -> (length (owed b) <= 1)%nat /\ (r = Idle -> owed b = []).
Proof.
  intros []; repeat match goal with E : owed b = _ |- _ => rewrite E end; cbn; (split; [lia|]); intros ->; try reflexivity; try contradiction.
  match goal with H : _ \/ _ |- _ => destruct H as [[]|[=]] end.
Qed.
Lemma mb_wakes r x c b : mb_inv r x c b -> waits r -> x = XIdle -> waiting (values c) <> 0 -> queue b = [] /\ owed b = [].
Proof.
  intros [] Hr -> Hw; subst; auto; try contradiction. all: match goal with H : clearing XIdle |- _ => destruct H as (? & [=] & _) end.
Qed.
Lemma stored_read q d v3 : stored q d v3 -> take (length q) [value0 d; value1 d; value2 d; v3] = q.
Proof. destruct q as [|a [|b [|e [|f [|g q]]]]]; cbn; intros H; try contradiction; intuition congruence. Qed.

(** C24: the inbound mailbox of an SPU, which the SPU reads with [pop_wait] and [try_pop] and one
    thread writes with [push] when fewer than four values are in it, under every interleaving of
    the two, is a queue of at most four values: each push appends its value once and returns the
    counts before and after it, done, and whether the waiting SPU has got it; the SPU gets the
    values in order, each once, with the count before, and (0, 0) only when none was taken for it
    ([try_pop]: from an empty queue); [get_count] and [try_read] show the queue; and a waiting SPU
    whose flags are on, with no push under way, has missed no value. *)
Theorem mailbox_queue tr s :
  mb_steps takes room mb_empty tr s ->
  exists b,
    replay mailbox_spec (mk_mailbox [] 0 false [] None) tr = Some b /\
    (length (queue b) <= 4)%nat /\ get_count (channel s) = Z.of_nat (length (queue b)) /\
    (queue b <> [] -> forall out, take (length (queue b)) (snd (try_read out (channel s))) = queue b) /\
    (length (owed b) <= 1)%nat /\ (spu s = Idle -> owed b = []) /\
    (waits (spu s) -> ext s = XIdle -> waiting (values (channel s)) <> 0 -> queue b = [] /\ owed b = []).
Proof.
  intros H. destruct (mb_always _ _ H) as (b & Hb & Ha & I). exists b. split; [exact Hb|]. pose proof (mb_stored _ _ _ _ I) as Hs.
  destruct (stored_count _ _ _ Hs) as [Hc Hl], (mb_owed _ _ _ _ I). pose proof (mb_wakes _ _ _ _ I). split_and!; auto.
  intros Hq out. unfold try_read. destruct (Z.eqb_spec (count (values (channel s))) 0) as [E|E].
  - destruct (Hq (stored_nil _ _ _ Hs E)).
  - apply stored_read, Hs.
Qed.
Lemma mailbox_queue_witness :
  let write v := [ExtBegin v; Ext; Ext] in
  let read := [SpuBegin (PopWait true); Spu; Spu; Spu] in
  let run := read ++ write 7 ++ [Ext; Ext; Spu; Spu] ++ concat (map write [1; 2; 3; 4]) ++ read ++ [SpuBegin TryPop; Spu; Spu; Spu] in
  match do_moves takes room run mb_empty with
  | Some (tr, s) =>
      tr = [SpuCalled (PopWait true); PushCalled 7; Put 7; Got 7; PushReturned 0 1 true true; SpuReturned 1 7;
            PushCalled 1; Put 1; PushReturned 0 1 false true; PushCalled 2; Put 2; PushReturned 1 2 false true;
            PushCalled 3; Put 3; PushReturned 2 3 false true; PushCalled 4; Put 4; PushReturned 3 4 false true;
            SpuCalled (PopWait true); Got 1; SpuReturned 4 1; SpuCalled TryPop; Got 2; SpuReturned 3 2] /\
      exists b, replay mailbox_spec (mk_mailbox [] 0 false [] None) tr = Some b /\ (length (queue b) <= 4)%nat
  | None => False
  end.
Proof.
  intros write read run.
  destruct (do_moves takes room run mb_empty) as [[tr s]|] eqn:E; [|vm_compute in E; discriminate].
  split; [vm_compute in E; congruence|].
  destruct (mailbox_queue tr s (mb_schedule takes room run _ _ _ E)) as (b & Hb & Hl & _). exists b. exact (conj Hb Hl).
Defined.

(** ** Pushes on a full mailbox *)

Definition pushed (tr : list label) : list Z := omap (fun l => match l with PushCalled v => Some v | _ => None end) tr.
Definition returned (tr : list label) : list Z := omap (fun l => match l with SpuReturned _ v => Some v | _ => None end) tr.
Definition write_all (vs : list Z) : list move := concat (map (fun v => [ExtBegin v; Ext; Ext]) vs).
Definition read_all (n : nat) : list move := concat (replicate n [SpuBegin TryPop; Spu; Spu; Spu]).

(** Alone it overwrites the last value. *)
Example full_push_overwrites :
  exists tr s, mb_steps takes (fun _ _ => true) mb_empty tr s /\ pushed tr = [1; 2; 3; 4; 5] /\ returned tr = [1; 2; 3; 5].
Proof.
  eexists _, _. split; [|split].
  - apply (mb_schedule _ _ (write_all [1; 2; 3; 4; 5] ++ read_all 4)). vm_compute. reflexivity.
  - reflexivity.
  - reflexivity.
Qed.
(** When the SPU takes a value after the new one is in [value3] and before the count is looked at,
    the new value is in the queue twice. *)
Theorem full_push_twice :
  exists tr s, mb_steps takes (fun _ _ => true) mb_empty tr s /\ pushed tr = [1; 2; 3; 4; 5] /\ returned tr = [1; 2; 3; 5; 5].
Proof.
  eexists _, _. split; [|split].
  - apply (mb_schedule _ _ (write_all [1; 2; 3; 4] ++ [ExtBegin 5; Ext] ++ read_all 1 ++ [Ext] ++ read_all 4)). vm_compute. reflexivity.
  - reflexivity.
  - reflexivity.
Qed.
