(* ===== verification/GuestMem.v ===== *)
(** * Guest memory as the HLE modules see it

    The page table and page checks of Emu/Memory/vm.h and vm.cpp, the page query of
    Emu/Cell/lv2/sys_memory.cpp, and a state-and-fault monad for code that reads and
    writes guest memory through [vm::ptr].

    Variables of type [vm::var] live on the PPU thread's own stack, below its stack pointer,
    where [stack_push] makes room for them and clears it; the modules use them as locals, and
    they are local values of the definitions here: the page query returns what it stores to its
    [sys_page_attr_t].  Their bytes are not part of [ram], so what is said of memory is said of
    memory outside the frame of the call.  Of the [sys_page_attr_t] local the address is kept,
    since the page query checks it. *)

From Stdlib Require Import ZArith Lia Bool.
From stdpp Require Import base numbers list gmap.
From S2P Require Import Prelude V128 Bytes.

(** ** Pages (Emu/Memory/vm.h) *)

Definition page_readable : Z := 0x01.
Definition page_writable : Z := 0x02.
Definition page_64k_size : Z := 0x20.
Definition page_1m_size : Z := 0x40.
Definition page_allocated : Z := 0x80.

Record guest := mk_guest {
  ram : gmap Z Z;                (* bytes of guest memory *)
  g_pages : gmap Z Z;            (* flags of each 4096-byte page *)
  stack_addr : Z;                (* stack area of the PPU thread *)
  stack_size : Z;
  var_addr : Z;                  (* where the page_attr local lives *)
}.

Definition page_flags (g : guest) (addr : Z) : Z := default 0 (g_pages g !! (addr / 4096)).

(** [vm::check_addr<1>(addr, flags)]. *)
Definition check_addr1 (g : guest) (addr flags : Z) : bool :=
  Z.ldiff (Z.lor flags page_allocated) (page_flags g addr) =? 0.

(** [utils::align] on page indices. *)
Definition align (x a : Z) : Z := (x + a - 1) / a * a.

(** The page loop of [vm::check_addr(addr, flags, size)]; pages of 1 MiB and 64 KiB
    are skipped over at once. *)
Fixpoint check_pages (fuel : nat) (g : guest) (i max flags : Z) : bool :=
  match fuel with
  | O => false
  | S fuel =>
      if max <? i then true else
      let state := default 0 (g_pages g !! i) in
      if negb (Z.ldiff flags state =? 0) then false
      else if negb (Z.land state page_1m_size =? 0)
      then check_pages fuel g (align (i + 1) (0x100000 / 4096)) max flags
      else if negb (Z.land state page_64k_size =? 0)
      then check_pages fuel g (align (i + 1) (0x10000 / 4096)) max flags
      else check_pages fuel g (i + 1) max flags
  end.
(** [vm::check_addr(addr, flags, size)]; a range of [size] bytes touches at most
    [size / 4096 + 2] pages. *)
Definition check_addr (g : guest) (addr flags size : Z) : bool :=
  if size =? 0 then true
  else if (0xffffffff <? addr) || (0x100000000 - addr <? size) then false
  else check_pages (Z.to_nat (size / 4096) + 3) g (addr / 4096) ((addr + size - 1) / 4096)
         (Z.lor flags page_allocated).

Definition get_addr_flags (g : guest) (addr : Z) : bool * Z :=
  let flags := page_flags g addr in (negb (Z.land flags page_allocated =? 0), flags).

(** ** Error codes (Emu/Cell/ErrorCodes.h): 32-bit values, errors are negative *)

Definition CELL_OK : Z := 0.
Definition CELL_EINVAL : Z := s32 0x80010002.
Definition CELL_ENOSYS : Z := s32 0x80010003.
Definition CELL_EFAULT : Z := s32 0x8001000D.

(** ** The monad *)

(** A computation on guest memory ends with a value, faults on an access through a
    pointer, throws, or is out of fuel. *)
Inductive outcome (X : Type) :=
| Done (x : X) (g : guest)
| Fault (addr : Z)
| Thrown
| OutOfFuel.
Arguments Done {X} _ _.
Arguments Fault {X} _.
Arguments Thrown {X}.
Arguments OutOfFuel {X}.

Definition M (X : Type) : Type := guest -> outcome X.
Definition ret {X} (x : X) : M X := fun g => Done x g.
Definition bind {X Y} (m : M X) (f : X -> M Y) : M Y := fun g =>
  match m g with
  | Done x g => f x g
  | Fault a => Fault a
  | Thrown => Thrown
  | OutOfFuel => OutOfFuel
  end.

Declare Scope guest_scope.
Delimit Scope guest_scope with guest.
Notation "'let*' x := m 'in' k" := (bind m (fun x => k))
  (at level 10, x name, k at level 200) : guest_scope.
Notation "'let*' ' p := m 'in' k" := (bind m (fun x => match x with p => k end))
  (at level 10, p pattern, k at level 200) : guest_scope.
Notation "m ;; k" := (bind m (fun _ => k)) (at level 100, right associativity) : guest_scope.
Open Scope guest_scope.

(** [n] consecutive bytes with the given rights. *)
Fixpoint accessible (g : guest) (addr : Z) (n : nat) (flags : Z) : bool :=
  match n with
  | O => true
  | S n => check_addr1 g addr flags && accessible g (addr + 1) n flags
  end.

Definition with_ram (m : gmap Z Z) (g : guest) : guest :=
  mk_guest m (g_pages g) (stack_addr g) (stack_size g) (var_addr g).

(** A [be_t] of [n] bytes read or written through a pointer. *)
Definition read (n : nat) (addr : Z) : M Z := fun g =>
  if accessible g addr n page_readable then Done (be_load (ram g) addr n) g else Fault addr.
Definition write (n : nat) (addr v : Z) : M unit := fun g =>
  if accessible g addr n page_writable
  then Done tt (with_ram (be_store (ram g) addr n v) g) else Fault addr.

(** Consecutive [char] stores [p[0] = c0; p[1] = c1; ...]. *)
Fixpoint write_chars (addr : Z) (cs : list Z) : M unit :=
  match cs with
  | [] => ret tt
  | c :: cs => write 1 addr c ;; write_chars (addr + 1) cs
  end.

(** ** [sys_memory_get_page_attribute] *)

Definition SPU_FAKE_BASE_ADDR : Z := 0xE8000000.

Record sys_page_attr_t := mk_attr { attribute : Z; access_right : Z; page_size : Z; pad : Z }.
Definition SYS_MEMORY_ACCESS_RIGHT_PPU_THR : Z := 0x8.
Definition SYS_MEMORY_ACCESS_RIGHT_ANY : Z := 0xF.

(** The returned code, and what is stored to the local at [attr]. *)
Definition sys_memory_get_page_attribute (addr attr : Z) : M (Z * option sys_page_attr_t) := fun g =>
  if Z.shiftr addr 28 =? Z.shiftr (stack_addr g) 28 then
    if negb ((stack_addr g <=? addr) && (addr <? stack_addr g + stack_size g))
       && negb (check_addr1 g addr page_readable)
    then Done (CELL_EINVAL, None) g
    else if negb (check_addr g attr page_readable 24) then Done (CELL_EFAULT, None) g
    else Done (CELL_OK, Some (mk_attr 0x40000 SYS_MEMORY_ACCESS_RIGHT_PPU_THR 4096 0)) g
  else
    let '(ok, vm_flags) := get_addr_flags g addr in
    if negb ok || (SPU_FAKE_BASE_ADDR <=? addr) then Done (CELL_EINVAL, None) g
    else if negb (check_addr g attr page_readable 24) then Done (CELL_EFAULT, None) g
    else if negb (Z.land vm_flags page_1m_size =? 0)
    then Done (CELL_OK, Some (mk_attr 0x40000 SYS_MEMORY_ACCESS_RIGHT_ANY 0x100000 0)) g
    else if negb (Z.land vm_flags page_64k_size =? 0)
    then Done (CELL_OK, Some (mk_attr 0x40000 SYS_MEMORY_ACCESS_RIGHT_ANY 0x10000 0)) g
    else Thrown.

(** [sys_memory_get_page_attribute(ppu, addr, page_attr) != CELL_OK]; the callers do not read
    [page_attr]. *)
Definition bad_ptr (addr : Z) : M bool := fun g =>
  (let* r := sys_memory_get_page_attribute addr (var_addr g) in ret (negb (r.1 =? CELL_OK))) g.

(** ** Laws *)

(** The query changes nothing outside the frame of its caller. *)
Lemma page_attribute_pure addr attr g r g' :
  sys_memory_get_page_attribute addr attr g = Done r g' -> g' = g.
Proof.
  unfold sys_memory_get_page_attribute, get_addr_flags.
  repeat case_match; intros [=]; congruence.
Qed.

Lemma bad_ptr_pure addr g b g' : bad_ptr addr g = Done b g' -> g' = g.
Proof.
  unfold bad_ptr, bind, ret. destruct (sys_memory_get_page_attribute _ _ g) eqn:E; try discriminate.
  intros [=]. subst. apply page_attribute_pure in E. congruence.
Qed.

(** The fuel of the page loop covers every page of the range. *)
Lemma align_above x a : 0 < a -> x <= align x a.
Proof. unfold align. intros Ha. pose proof (Z.div_mod (x + a - 1) a). pose proof (Z.mod_pos_bound (x + a - 1) a). nia. Qed.

Lemma check_pages_fuel n m g i max flags :
  Z.max 0 (max - i + 1) < Z.of_nat n -> (n <= m)%nat -> check_pages n g i max flags = check_pages m g i max flags.
Proof.
  revert m i. induction n as [|n IH]; intros [|m] i Hn Hm; cbn [check_pages]; [reflexivity|lia..|].
  pose proof (align_above (i + 1) (0x100000 / 4096) eq_refl).
  pose proof (align_above (i + 1) (0x10000 / 4096) eq_refl).
  repeat (case_match; try reflexivity); apply IH; lia.
Qed.

Lemma check_addr_pages fuel g addr flags size :
  0 < size -> 0 <= addr -> (Z.to_nat (size / 4096) + 3 <= fuel)%nat ->
  check_addr g addr flags size =
  negb ((0xffffffff <? addr) || (0x100000000 - addr <? size)) &&
  check_pages fuel g (addr / 4096) ((addr + size - 1) / 4096) (Z.lor flags page_allocated).
Proof.
  intros Hs Ha Hf. unfold check_addr. replace (size =? 0) with false by lia.
  destruct (_ || _); [reflexivity|]. apply check_pages_fuel; [|exact Hf].
  pose proof (Z.div_mod (addr + size - 1) 4096). pose proof (Z.mod_pos_bound (addr + size - 1) 4096).
  pose proof (Z.div_mod addr 4096). pose proof (Z.mod_pos_bound addr 4096).
  pose proof (Z.div_mod size 4096). pose proof (Z.mod_pos_bound size 4096).
  pose proof (Z.div_pos size 4096). lia.
Qed.

(** The pointer check depends on the pages, not on the contents of memory. *)
Lemma check_pages_ram m g fuel i max flags :
  check_pages fuel (with_ram m g) i max flags = check_pages fuel g i max flags.
Proof.
  revert i. induction fuel as [|fuel IH]; intros i; cbn [check_pages]; [reflexivity|].
  rewrite !IH. reflexivity.
Qed.
Lemma accessible_ram m g a n f : accessible (with_ram m g) a n f = accessible g a n f.
Proof. revert a. induction n as [|n IH]; intros a; cbn [accessible]; [|rewrite IH]; reflexivity. Qed.

(** A pointer the page query accepts. *)
Definition ok_ptr (g : guest) (addr : Z) : Prop := bad_ptr addr g = Done false g.

Lemma ok_ptr_ram m g addr : ok_ptr g addr -> ok_ptr (with_ram m g) addr.
Proof.
  unfold ok_ptr, bad_ptr, bind, ret, sys_memory_get_page_attribute, get_addr_flags, check_addr.
  rewrite !check_pages_ram. unfold page_flags, check_addr1, page_flags. cbn [g_pages stack_addr stack_size var_addr with_ram].
  repeat case_match; try discriminate; intros [=]; congruence.
Qed.

(** An object of [n] bytes a program may read and write. *)
Record object (g : guest) (addr : Z) (n : nat) : Prop := {
  obj_ptr : ok_ptr g addr;
  obj_read : accessible g addr n page_readable = true;
  obj_write : accessible g addr n page_writable = true;
}.

Lemma object_ram m g a n : object g a n -> object (with_ram m g) a n.
Proof.
  intros []. split; [apply ok_ptr_ram; auto| |]; rewrite accessible_ram; auto.
Qed.

Lemma read_object g a n : object g a n -> read n a g = Done (be_load (ram g) a n) g.
Proof. intros []. unfold read. rewrite obj_read0. reflexivity. Qed.
Lemma write_object g a n v :
  object g a n -> write n a v g = Done tt (with_ram (be_store (ram g) a n v) g).
Proof. intros []. unfold write. rewrite obj_write0. reflexivity. Qed.
