(* ===== verification/Rtc.v ===== *)
(** * The real-time clock module (Emu/Cell/Modules/cellRtc.cpp, cellRtc.h)

    Ticks are microseconds since 0001-01-01 in 64 bits; [CellRtcDateTime] is the
    broken-down date.  One definition per function of the module, on guest memory. *)

From Stdlib Require Import ZArith Lia Bool String Ascii.
From stdpp Require Import base numbers list gmap.
From S2P Require Import Prelude V128 Bytes GuestMem.
Open Scope emu_scope.

(** ** Constants and tables (cellRtc.h) *)

Definition CELL_RTC_ERROR_NOT_INITIALIZED : Z := s32 0x80010601.
Definition CELL_RTC_ERROR_INVALID_POINTER : Z := s32 0x80010602.
Definition CELL_RTC_ERROR_INVALID_VALUE : Z := s32 0x80010603.
Definition CELL_RTC_ERROR_INVALID_ARG : Z := s32 0x80010604.
Definition CELL_RTC_ERROR_NO_CLOCK : Z := s32 0x80010606.
Definition CELL_RTC_ERROR_BAD_PARSE : Z := s32 0x80010607.
Definition CELL_RTC_ERROR_INVALID_YEAR : Z := s32 0x80010621.
Definition CELL_RTC_ERROR_INVALID_MONTH : Z := s32 0x80010622.
Definition CELL_RTC_ERROR_INVALID_DAY : Z := s32 0x80010623.
Definition CELL_RTC_ERROR_INVALID_HOUR : Z := s32 0x80010624.
Definition CELL_RTC_ERROR_INVALID_MINUTE : Z := s32 0x80010625.
Definition CELL_RTC_ERROR_INVALID_SECOND : Z := s32 0x80010626.
Definition CELL_RTC_ERROR_INVALID_MICROSECOND : Z := s32 0x80010627.
Definition SYS_SS_RTC_ERROR_UNK : Z := s32 0x8001050f.

Definition RTC_MAGIC_OFFSET : Z := 62135596800000000.
Definition RTC_FILETIME_OFFSET : Z := 50491123200000000.
Definition RTC_SYSTEM_TIME_MIN : Z := 63082281600000000.
Definition RTC_SYSTEM_TIME_MAX : Z := 66238041599999999.

Definition DAYS_IN_400_YEARS : Z := 365 * 400 + 97.
Definition DAYS_IN_100_YEARS : Z := 365 * 100 + 24.
Definition DAYS_IN_4_YEARS : Z := 365 * 4 + 1.

Definition DAYS_IN_MONTH : list Z := [31; 28; 31; 30; 31; 30; 31; 31; 30; 31; 30; 31].
Definition DAYS_IN_MONTH_LEAP : list Z := [31; 29; 31; 30; 31; 30; 31; 31; 30; 31; 30; 31].
(** The last element is [umax]. *)
Definition MONTH_OFFSET : list Z :=
  [0; 31; 59; 90; 120; 151; 181; 212; 243; 273; 304; 334; 0xffff].
Definition MONTH_OFFSET_LEAP : list Z :=
  [0; 31; 60; 91; 121; 152; 182; 213; 244; 274; 305; 335; 0xffff].

(** A string as character codes. *)
Definition codes (s : string) : list Z :=
  List.map (fun a => Z.of_N (N_of_ascii a)) (list_ascii_of_string s).

Definition WEEKDAY_NAMES : list (list Z) := List.map codes
  ["sunday"; "monday"; "tuesday"; "wednesday"; "thursday"; "friday"; "saturday"]%string.
Definition MONTH_NAMES : list (list Z) := List.map codes
  ["january"; "february"; "march"; "april"; "may"; "june"; "july"; "august"; "september";
   "october"; "november"; "december"]%string.
Definition TIME_ZONE_NAMES : list (list Z) := List.map codes
  ["gmt"; "est"; "edt"; "cst"; "cdt"; "mst"; "mdt"; "pst"; "pdt"; "nzdt"; "nzst"; "idle"; "nzt";
   "aesst"; "acsst"; "cadt"; "sadt"; "aest"; "east"; "gst"; "ligt"; "acst"; "sast"; "cast";
   "awsst"; "jst"; "kst"; "wdt"; "mt"; "awst"; "cct"; "wadt"; "wst"; "jt"; "wast"; "it"; "bt";
   "eetdst"; "eet"; "cetdst"; "fwt"; "ist"; "mest"; "metdst"; "sst"; "bst"; "cet"; "dnt"; "fst";
   "met"; "mewt"; "mez"; "nor"; "set"; "swt"; "wetdst"; "wet"; "wat"; "ndt"; "adt"; "nft"; "nst";
   "ast"; "ydt"; "hdt"; "yst"; "ahst"; "cat"; "nt"; "idlw"]%string.
Definition TIME_ZONE_VALUES : list Z :=
  [0; -10; -8; -12; -10; -14; -12; -16; -14; 26; 24; 24; 24; 22; 21; 21; 21; 20; 20; 20; 20; 19;
   19; 19; 18; 18; 18; 18; 17; 16; 16; 16; 16; 15; 14; 7; 6; 6; 4; 4; 4; 4; 4; 4; 4; 2; 2; 2; 2;
   2; 2; 2; 2; 2; 2; 2; 0; -2; -3; -6; -5; -5; -8; -16; -18; -18; -20; -20; -22; -24].

Record CellRtcDateTime := mk_date {
  year : Z; month : Z; day : Z; hour : Z; minute : Z; second : Z; microsecond : Z;
}.

(** [table[i]] of a constant array. *)
Definition at_index (l : list Z) (i : Z) : Z := nth (Z.to_nat i) l 0.

(** ** Helpers *)

Definition ascii_of (num : Z) : Z := u8 (num + 48).
Definition digit (c : Z) : Z := s8 (c - 48).
Definition is_leap_year (y : Z) : bool :=
  (y %c 4 =? 0) && (negb (y %c 100 =? 0) || (y %c 400 =? 0)).
Definition cellRtcGetTickResolution : Z := 1000000.

(** [util/cctype.hpp] in the "C" locale, on unsigned character codes. *)
Definition isdigit (c : Z) : bool := (48 <=? c) && (c <=? 57).
Definition isblank (c : Z) : bool := (c =? 32) || (c =? 9).
Definition tolower (c : Z) : Z := if (65 <=? c) && (c <=? 90) then c + 32 else c.
Definition toupper (c : Z) : Z := if (97 <=? c) && (c <=? 122) then c - 32 else c.

(** ** Ticks and dates *)

(** The month of a day of the year: an estimate that is at most one too high. *)
Definition month_index (month_offset : list Z) (days : Z) : Z :=
  let month_approx := days / 29 in
  if days <? at_index month_offset month_approx then u32 (month_approx - 1) else month_approx.

(** [None]: [narrow<u16>] throws. *)
Definition tick_to_date_time (tick : Z) : option CellRtcDateTime :=
  let microseconds := tick mod 1000000 in
  let seconds := tick / 1000000 mod 60 in
  let minutes := tick / (60 * 1000000) mod 60 in
  let hours := tick / (60 * 60 * 1000000) mod 24 in
  let days_tmp := u32 (tick / (24 * 60 * 60 * 1000000)) in
  let year_400 := days_tmp / DAYS_IN_400_YEARS in
  let days_tmp := u32 (days_tmp - year_400 * DAYS_IN_400_YEARS) in
  let year_within_400_interval :=
    u32 (days_tmp - days_tmp / (DAYS_IN_4_YEARS - 1) + days_tmp / DAYS_IN_100_YEARS
         - days_tmp / (DAYS_IN_400_YEARS - 1)) / 365 in
  let days_tmp := u32 (days_tmp - (year_within_400_interval * 365 + year_within_400_interval / 4
                                   - year_within_400_interval / 100
                                   + year_within_400_interval / 400)) in
  let years := u16 (year_400 * 400 + year_within_400_interval + 1) in
  let month_offset := if is_leap_year years then MONTH_OFFSET_LEAP else MONTH_OFFSET in
  let month_approx := month_index month_offset days_tmp in
  let months := u16 (month_approx + 1) in
  let days_tmp := u32 (days_tmp - at_index month_offset month_approx) in
  if u32 (days_tmp + 1) <? 0x10000
  then Some (mk_date years months (u32 (days_tmp + 1)) hours minutes seconds microseconds)
  else None.

Definition date_time_to_tick (date_time : CellRtcDateTime) : Z :=
  let days_in_previous_years :=
    u32 (year date_time * 365 + (year date_time + 3) / 4 - (year date_time + 99) / 100
         + (year date_time + 399) / 400 - 366) in
  let month := if month date_time =? 0 then 1 else if 12 <? month date_time then 12
               else month date_time in
  let days_in_previous_months :=
    if is_leap_year (year date_time) then at_index MONTH_OFFSET_LEAP (month - 1)
    else at_index MONTH_OFFSET (month - 1) in
  let days := u32 (days_in_previous_years + days_in_previous_months + day date_time - 1) in
  u64 (microsecond date_time + second date_time * 1000000 + minute date_time * 60 * 1000000
       + hour date_time * 60 * 60 * 1000000 + days * 24 * 60 * 60 * 1000000).

(** [cellRtcCheckValid] on the value. *)
Definition check_valid (t : CellRtcDateTime) : Z :=
  if (year t =? 0) || (10000 <=? year t) then CELL_RTC_ERROR_INVALID_YEAR
  else if (month t <? 1) || (12 <? month t) then CELL_RTC_ERROR_INVALID_MONTH
  else
    let days_in_month := if is_leap_year (year t) then DAYS_IN_MONTH_LEAP else DAYS_IN_MONTH in
    if (day t =? 0) || (at_index days_in_month (month t - 1) <? day t)
    then CELL_RTC_ERROR_INVALID_DAY
    else if 24 <=? hour t then CELL_RTC_ERROR_INVALID_HOUR
    else if 60 <=? minute t then CELL_RTC_ERROR_INVALID_MINUTE
    else if 60 <=? second t then CELL_RTC_ERROR_INVALID_SECOND
    else if cellRtcGetTickResolution <=? microsecond t then CELL_RTC_ERROR_INVALID_MICROSECOND
    else CELL_OK.

Definition cellRtcIsLeapYear (y : Z) : Z :=
  if y <? 1 then CELL_RTC_ERROR_INVALID_ARG else Z.b2z (is_leap_year y).

Definition cellRtcGetDaysInMonth (y m : Z) : Z :=
  if (y <=? 0) || (m <=? 0) || (12 <? m) then CELL_RTC_ERROR_INVALID_ARG
  else if is_leap_year y then at_index DAYS_IN_MONTH_LEAP (m - 1) else at_index DAYS_IN_MONTH (m - 1).

Definition cellRtcGetDayOfWeek (y m d : Z) : Z :=
  let '(y, m) := if (m =? 1) || (m =? 2) then (s32 (y - 1), m + 12) else (y, m) in
  s32 (s32 (m * 13 + 8) /c 5 + y + y /c 4 - y /c 100 + y /c 400 + d) %c 7.

(** ** Objects in guest memory *)

Definition read_tick (p : Z) : M Z := read 8 p.
Definition write_tick (p v : Z) : M unit := write 8 p v.

Definition read_date (p : Z) : M CellRtcDateTime :=
  let* y := read 2 p in let* mo := read 2 (p + 2) in let* d := read 2 (p + 4) in
  let* h := read 2 (p + 6) in let* mi := read 2 (p + 8) in let* se := read 2 (p + 10) in
  let* us := read 4 (p + 12) in
  ret (mk_date y mo d h mi se us).
Definition write_date (p : Z) (t : CellRtcDateTime) : M unit :=
  write 2 p (year t) ;; write 2 (p + 2) (month t) ;; write 2 (p + 4) (day t) ;;
  write 2 (p + 6) (hour t) ;; write 2 (p + 8) (minute t) ;; write 2 (p + 10) (second t) ;;
  write 4 (p + 12) (microsecond t).

(** A thrown exception. *)
Definition throw {X} : M X := fun _ => Thrown.
Definition of_option {X} (o : option X) : M X := match o with Some x => ret x | None => throw end.

(** [if (sys_memory_get_page_attribute(p) != CELL_OK) return INVALID_POINTER], then
    the rest. *)
Definition with_ptr (p : Z) (k : M Z) : M Z :=
  let* bad := bad_ptr p in if bad then ret CELL_RTC_ERROR_INVALID_POINTER else k.

(** ** [cellRtcGetTick], [cellRtcSetTick] and tick arithmetic *)

Definition bad_year (y : Z) : bool := (10000 <=? y) || (y =? 0).

Definition cellRtcGetTick (pTime pTick : Z) : M Z :=
  with_ptr pTime (with_ptr pTick (
    let* y := read 2 pTime in
    if bad_year y then ret CELL_RTC_ERROR_INVALID_VALUE
    else let* t := read_date pTime in write_tick pTick (date_time_to_tick t) ;; ret CELL_OK)).

Definition cellRtcSetTick (pTime pTick : Z) : M Z :=
  with_ptr pTime (with_ptr pTick (
    let* tick := read_tick pTick in
    let* t := of_option (tick_to_date_time tick) in
    write_date pTime t ;; ret CELL_OK)).

(** The same calls with a [vm::var] for one of the objects, which passes its check. *)
Definition cellRtcGetTick_local (t : CellRtcDateTime) (pTick : Z) : M Z :=
  with_ptr pTick (
    if bad_year (year t) then ret CELL_RTC_ERROR_INVALID_VALUE
    else write_tick pTick (date_time_to_tick t) ;; ret CELL_OK).
Definition cellRtcSetTick_local (pTime tick : Z) : M Z :=
  with_ptr pTime (let* t := of_option (tick_to_date_time tick) in write_date pTime t ;; ret CELL_OK).

(** [pTick0->tick = pTick1->tick + amount] after both checks. *)
Definition tick_add (pTick0 pTick1 amount : Z) : M Z :=
  with_ptr pTick0 (with_ptr pTick1 (
    let* tick := read_tick pTick1 in write_tick pTick0 (u64 (tick + amount)) ;; ret CELL_OK)).

Definition cellRtcTickAddTicks (pTick0 pTick1 lAdd : Z) : M Z := tick_add pTick0 pTick1 lAdd.
Definition cellRtcTickAddMicroseconds (pTick0 pTick1 lAdd : Z) : M Z := tick_add pTick0 pTick1 lAdd.
Definition cellRtcTickAddSeconds (pTick0 pTick1 lAdd : Z) : M Z :=
  tick_add pTick0 pTick1 (lAdd * cellRtcGetTickResolution).
Definition cellRtcTickAddMinutes (pTick0 pTick1 lAdd : Z) : M Z :=
  tick_add pTick0 pTick1 (lAdd * 60 * cellRtcGetTickResolution).
Definition cellRtcTickAddHours (pTick0 pTick1 iAdd : Z) : M Z :=
  tick_add pTick0 pTick1 (iAdd * 60 * 60 * cellRtcGetTickResolution).
Definition cellRtcTickAddDays (pTick0 pTick1 iAdd : Z) : M Z :=
  tick_add pTick0 pTick1 (iAdd * 60 * 60 * 24 * cellRtcGetTickResolution).
Definition cellRtcTickAddWeeks (pTick0 pTick1 iAdd : Z) : M Z :=
  tick_add pTick0 pTick1 (iAdd * 60 * 60 * 24 * 7 * cellRtcGetTickResolution).
(** On a [vm::var]. *)
Definition add_minutes (tick lAdd : Z) : Z := u64 (tick + lAdd * 60 * cellRtcGetTickResolution).

(** The day clamped to the length of the new month; a year of zero or a month out of
    range leaves the error code, truncated, in the day. *)
Definition clamp_day (new_year new_month d : Z) : Z :=
  let month_days :=
    if (new_year =? 0) || (new_month <? 1) || (12 <? new_month) then CELL_RTC_ERROR_INVALID_ARG
    else if is_leap_year new_year then at_index DAYS_IN_MONTH_LEAP (new_month - 1)
    else at_index DAYS_IN_MONTH (new_month - 1) in
  if month_days <? d then u16 month_days else d.

Definition add_months (t : CellRtcDateTime) (iAdd : Z) : CellRtcDateTime :=
  let total_months := s32 (year t * 12 + month t + iAdd - 1) in
  let new_year := u16 (total_months /c 12) in
  let new_month := u16 (total_months - new_year * 12 + 1) in
  mk_date new_year new_month (clamp_day new_year new_month (day t))
    (hour t) (minute t) (second t) (microsecond t).
Definition cellRtcTickAddMonths (pTick0 pTick1 iAdd : Z) : M Z :=
  with_ptr pTick0 (with_ptr pTick1 (
    let* tick := read_tick pTick1 in
    let* t := of_option (tick_to_date_time tick) in
    cellRtcGetTick_local (add_months t iAdd) pTick0 ;; ret CELL_OK)).

Definition add_years (t : CellRtcDateTime) (iAdd : Z) : CellRtcDateTime :=
  let new_year := u16 (year t + iAdd) in
  mk_date new_year (month t) (clamp_day new_year (month t) (day t))
    (hour t) (minute t) (second t) (microsecond t).
Definition cellRtcTickAddYears (pTick0 pTick1 iAdd : Z) : M Z :=
  with_ptr pTick0 (with_ptr pTick1 (
    let* tick := read_tick pTick1 in
    let* t := of_option (tick_to_date_time tick) in
    cellRtcGetTick_local (add_years t iAdd) pTick0 ;; ret CELL_OK)).

Definition cellRtcCheckValid (pTime : Z) : M Z :=
  if pTime =? 0 then throw else let* t := read_date pTime in ret (check_valid t).

Definition cellRtcCompareTick (pTick0 pTick1 : Z) : M Z :=
  if (pTick0 =? 0) || (pTick1 =? 0) then throw
  else
    let* t1 := read_tick pTick1 in let* t0 := read_tick pTick0 in
    ret (if t1 <=? t0 then Z.b2z (t1 <? t0) else -1).
