(* ===== verification/RtcConv.v ===== *)
(** * Clock sources, local time and other time stamps (cellRtc.cpp)

    The functions of the module that read the host clock and time zone, and the
    conversions to and from DOS, [time_t], system and Win32 file times. *)

From Stdlib Require Import ZArith Lia Bool.
From stdpp Require Import base numbers list gmap.
From S2P Require Import Prelude V128 Bytes GuestMem Rtc.
Open Scope emu_scope.

(** The host's clock, time zone, time base and the process's permissions: the system
    calls of lv2/sys_time.cpp and lv2/sys_ss.cpp read them from the operating system. *)
Class SysTime := {
  host_time : Z * Z;            (* seconds and nanoseconds since 1970 *)
  host_timezone : Z * Z;        (* minutes east of UTC, and of summer time *)
  timebased_time : Z;
  has_root_perm : bool;
}.

Section Clocks.
Context `{SysTime}.

(** ** lv2 calls (with valid local pointers) *)

Definition sys_time_get_current_time : Z * Z * Z :=
  (CELL_OK, fst host_time, snd host_time).
Definition sys_time_get_timezone : Z * Z * Z :=
  (CELL_OK, fst host_timezone, snd host_timezone).
Definition sys_time_set_timezone (timezone summertime : Z) : Z :=
  if negb has_root_perm then CELL_ENOSYS else CELL_OK.
Definition sys_time_set_current_time (sec nsec : Z) : Z :=
  if negb has_root_perm then CELL_ENOSYS else CELL_OK.

(** The returned code, and the words written to the two output pointers if any. *)
Definition sys_ss_secure_rtc (cmd a2 a3 : Z) : Z * option (Z * Z) :=
  if cmd =? 0x3001 then
    if negb (a3 =? 0x20) then (s32 0x80010500, None) else (CELL_OK, None)
  else if cmd =? 0x3002 then
    if 1 <? a2 then (s32 0x80010500, None) else (CELL_OK, Some (timebased_time, 0))
  else if cmd =? 0x3003 then (CELL_OK, None)
  else (s32 0x80010500, None).

(** ** Current time *)

Definition tick_of_time (sec nsec : Z) : Z :=
  u64 (nsec /c 1000 + sec * cellRtcGetTickResolution + RTC_MAGIC_OFFSET).

Definition cellRtcGetCurrentTick (pTick : Z) : M Z :=
  with_ptr pTick (
    let '(r, sec, nsec) := sys_time_get_current_time in
    if r <? CELL_OK then ret r
    else write_tick pTick (tick_of_time sec nsec) ;; ret CELL_OK).

Definition cellRtcGetCurrentClock (pClock iTimeZone : Z) : M Z :=
  with_ptr pClock (
    let '(r, sec, nsec) := sys_time_get_current_time in
    if r <? CELL_OK then ret r
    else cellRtcSetTick_local pClock (add_minutes (tick_of_time sec nsec) iTimeZone) ;; ret CELL_OK).

Definition cellRtcGetCurrentClockLocalTime (pClock : Z) : M Z :=
  with_ptr pClock (
    let '(r, timezone, summertime) := sys_time_get_timezone in
    if r <? CELL_OK then ret r
    else with_ptr pClock (
      let '(r, sec, nsec) := sys_time_get_current_time in
      if r <? CELL_OK then ret r
      else cellRtcSetTick_local pClock
             (add_minutes (tick_of_time sec nsec) (s32 (timezone + summertime))) ;; ret CELL_OK)).

Definition cellRtcConvertUtcToLocalTime (pUtc pLocalTime : Z) : M Z :=
  let '(r, timezone, summertime) := sys_time_get_timezone in
  if -1 <? r then cellRtcTickAddMinutes pLocalTime pUtc (s32 (timezone + summertime)) else ret r.

Definition cellRtcConvertLocalTimeToUtc (pLocalTime pUtc : Z) : M Z :=
  let '(r, timezone, summertime) := sys_time_get_timezone in
  if -1 <? r then cellRtcTickAddMinutes pUtc pLocalTime (s32 (- s32 (timezone + summertime)))
  else ret r.

(** ** The secure clock *)

Definition cellRtcGetCurrentSecureTick (tick : Z) : M Z :=
  with_ptr tick (
    write_tick tick RTC_SYSTEM_TIME_MIN ;;
    let '(r, out) := sys_ss_secure_rtc 0x3002 0 0 in
    let '(time, status) := default (0, 0) out in
    if CELL_OK <=? r then
      let* t := read_tick tick in
      write_tick tick (u64 (t + time * cellRtcGetTickResolution)) ;; ret r
    else if r =? SYS_SS_RTC_ERROR_UNK then
      ret (if status =? 1 then CELL_RTC_ERROR_NO_CLOCK
           else if status =? 2 then CELL_RTC_ERROR_NOT_INITIALIZED
           else if status =? 4 then CELL_RTC_ERROR_INVALID_VALUE
           else if status =? 8 then CELL_RTC_ERROR_NO_CLOCK else r)
    else ret r).

Definition cellRtcSetCurrentSecureTick (pTick : Z) : M Z :=
  if pTick =? 0 then ret CELL_RTC_ERROR_INVALID_POINTER
  else
    let* t := read_tick pTick in
    if RTC_SYSTEM_TIME_MAX <? t then ret CELL_RTC_ERROR_INVALID_VALUE
    else ret (fst (sys_ss_secure_rtc 0x3003
                     (u64 (t - RTC_SYSTEM_TIME_MIN) / cellRtcGetTickResolution) 0)).

Definition cellRtcSetCurrentTick (pTick : Z) : M Z :=
  if pTick =? 0 then ret CELL_RTC_ERROR_INVALID_POINTER
  else
    let* t := read_tick pTick in
    if t <? RTC_MAGIC_OFFSET then ret CELL_RTC_ERROR_INVALID_VALUE
    else
      let unix_time := t - RTC_MAGIC_OFFSET in
      let r := sys_time_set_current_time (unix_time / cellRtcGetTickResolution)
                 (unix_time mod cellRtcGetTickResolution * 1000) in
      ret (if CELL_OK <=? r then CELL_OK else r).

Definition cellRtcSetConf (unk1 unk2 timezone summertime : Z) : M Z :=
  ret (sys_time_set_timezone (s32 timezone) (s32 summertime)).
End Clocks.

(** ** DOS time *)

Definition dos_time (t : CellRtcDateTime) : Z :=
  let year := Z.shiftl (Z.land (year t - 1980) 0x7F) 9 in
  let month := Z.shiftl (Z.land (month t) 0xF) 5 in
  let hour := Z.shiftl (Z.land (hour t) 0x1F) 11 in
  let minute := Z.shiftl (Z.land (minute t) 0x3F) 5 in
  let day := Z.land (day t) 0x1F in
  let second := Z.land (Z.shiftr (second t) 1) 0x1F in
  let ymd := Z.lor (Z.lor year month) day in
  let hms := Z.lor (Z.lor hour minute) second in
  u32 (Z.lor (s32 (Z.shiftl ymd 16)) hms).

Definition cellRtcGetDosTime (pDateTime puiDosTime : Z) : M Z :=
  with_ptr pDateTime (with_ptr puiDosTime (
    let* y := read 2 pDateTime in
    if y <? 1980 then
      (if negb (puiDosTime =? 0) then write 4 puiDosTime 0 else ret tt) ;; ret (-1)
    else if 2108 <=? y then
      (if negb (puiDosTime =? 0) then write 4 puiDosTime 0xff9fbf7d else ret tt) ;; ret (-1)
    else
      (if negb (puiDosTime =? 0)
       then let* t := read_date pDateTime in write 4 puiDosTime (dos_time t) else ret tt) ;;
      ret CELL_OK)).

Definition date_of_dos (uiDosTime : Z) : CellRtcDateTime :=
  let hms := Z.land uiDosTime 0xffff in
  let ymd := Z.shiftr uiDosTime 16 in
  mk_date (Z.shiftr ymd 9 + 1980) (Z.land (Z.shiftr ymd 5) 0xf) (Z.land ymd 0x1f)
    (Z.shiftr hms 11) (Z.land (Z.shiftr hms 5) 0x3f) (Z.land (Z.shiftl hms 1) 0x3e) 0.

Definition cellRtcSetDosTime (pDateTime uiDosTime : Z) : M Z :=
  with_ptr pDateTime (write_date pDateTime (date_of_dos uiDosTime) ;; ret CELL_OK).

(** ** [time_t], system time and Win32 file time *)

(** [cellRtcGetTick(ppu, pDateTime, tick)] into a zero-initialized local: an invalid
    year leaves zero. *)
Definition get_tick_local (pDateTime : Z) : M Z :=
  let* bad := bad_ptr pDateTime in
  if bad then ret 0
  else
    let* y := read 2 pDateTime in
    if bad_year y then ret 0
    else let* t := read_date pDateTime in ret (date_time_to_tick t).

(** [if (p) *p = v]. *)
Definition store_if (n : nat) (p v : Z) : M unit := if negb (p =? 0) then write n p v else ret tt.

Definition cellRtcGetSystemTime (pDateTime pTimeStamp : Z) : M Z :=
  with_ptr pDateTime (with_ptr pTimeStamp (
    let* tick := get_tick_local pDateTime in
    if tick <? RTC_SYSTEM_TIME_MIN then
      store_if 8 pTimeStamp 0 ;; ret CELL_RTC_ERROR_INVALID_VALUE
    else if RTC_SYSTEM_TIME_MAX + cellRtcGetTickResolution <=? tick then
      store_if 8 pTimeStamp ((RTC_SYSTEM_TIME_MAX - RTC_SYSTEM_TIME_MIN) / cellRtcGetTickResolution) ;;
      ret CELL_RTC_ERROR_INVALID_VALUE
    else
      store_if 8 pTimeStamp ((tick - RTC_SYSTEM_TIME_MIN) / cellRtcGetTickResolution) ;; ret CELL_OK)).

Definition cellRtcGetTime_t (pDateTime piTime : Z) : M Z :=
  with_ptr pDateTime (with_ptr piTime (
    let* tick := get_tick_local pDateTime in
    if tick <? RTC_MAGIC_OFFSET then store_if 8 piTime 0 ;; ret CELL_RTC_ERROR_INVALID_VALUE
    else store_if 8 piTime ((tick - RTC_MAGIC_OFFSET) / cellRtcGetTickResolution) ;; ret CELL_OK)).

Definition cellRtcGetWin32FileTime (pDateTime pulWin32FileTime : Z) : M Z :=
  with_ptr pDateTime (with_ptr pulWin32FileTime (
    let* tick := get_tick_local pDateTime in
    if tick <? RTC_FILETIME_OFFSET then
      store_if 8 pulWin32FileTime 0 ;; ret CELL_RTC_ERROR_INVALID_VALUE
    else store_if 8 pulWin32FileTime (u64 ((tick - RTC_FILETIME_OFFSET) * 10)) ;; ret CELL_OK)).

Definition cellRtcSetTime_t (pDateTime iTime : Z) : M Z :=
  with_ptr pDateTime (
    cellRtcSetTick_local pDateTime (u64 (iTime * cellRtcGetTickResolution + RTC_MAGIC_OFFSET)) ;;
    ret CELL_OK).
Definition cellRtcSetSystemTime (pDateTime iTime : Z) : M Z :=
  with_ptr pDateTime (
    cellRtcSetTick_local pDateTime (u64 (iTime * cellRtcGetTickResolution + RTC_SYSTEM_TIME_MIN)) ;;
    ret CELL_OK).
Definition cellRtcSetWin32FileTime (pDateTime ulWin32FileTime : Z) : M Z :=
  with_ptr pDateTime (
    cellRtcSetTick_local pDateTime (u64 (ulWin32FileTime / 10 + RTC_FILETIME_OFFSET))).
