(* ===== verification/RtcText.v ===== *)
(** * RFC 2822 and RFC 3339 text (cellRtc.cpp)

    Formatting ticks as date strings into guest memory and parsing date strings from
    it.  Characters are read one by one as the code reads them, so a string that runs
    into an inaccessible page faults at the same character. *)

From Stdlib Require Import ZArith Lia Bool String Ascii.
From stdpp Require Import base numbers list gmap.
From S2P Require Import Prelude V128 Bytes GuestMem Rtc RtcConv.
Open Scope emu_scope.

(** ** Formatting *)

(** Two and four decimal digits. *)
Definition two (n : Z) : list Z := [ascii_of (n / 10); ascii_of (n mod 10)].
Definition four (n : Z) : list Z :=
  [ascii_of (n / 1000); ascii_of (n / 100 mod 10); ascii_of (n / 10 mod 10); ascii_of (n mod 10)].

Definition name_char (names : list (list Z)) (i k : Z) : Z :=
  nth (Z.to_nat k) (nth (Z.to_nat i) names []) 0.

(** Hours (modulo 100) and minutes of the absolute offset. *)
Definition zone_hours (tz : Z) : Z := u32 (tz /c 60 %c 100).
Definition zone_minutes (tz : Z) : Z := u32 (tz %c 60).

Definition rfc2822_chars (t : CellRtcDateTime) (iTimeZone : Z) : list Z :=
  let w := cellRtcGetDayOfWeek (year t) (month t) (day t) in
  let sign := if iTimeZone <? 0 then 45 else 43 in
  let tz := if iTimeZone <? 0 then s32 (- iTimeZone) else iTimeZone in
  [toupper (name_char WEEKDAY_NAMES w 0); name_char WEEKDAY_NAMES w 1; name_char WEEKDAY_NAMES w 2;
   44; 32] ++ two (day t) ++ [32] ++
  [toupper (name_char MONTH_NAMES (month t - 1) 0); name_char MONTH_NAMES (month t - 1) 1;
   name_char MONTH_NAMES (month t - 1) 2; 32] ++
  four (year t) ++ [32] ++ two (hour t) ++ [58] ++ two (minute t) ++ [58] ++ two (second t) ++ [32] ++
  [sign] ++ two (zone_hours tz) ++ two (zone_minutes tz) ++ [0].

Definition rfc3339_chars (t : CellRtcDateTime) (iTimeZone : Z) : list Z :=
  four (year t) ++ [45] ++ two (month t) ++ [45] ++ two (day t) ++ [84] ++
  two (hour t) ++ [58] ++ two (minute t) ++ [58] ++ two (second t) ++ [46] ++
  [ascii_of (microsecond t / 100000); ascii_of (microsecond t / 10000 mod 10)] ++
  (if iTimeZone =? 0 then [90; 0]
   else
     let sign := if iTimeZone <? 0 then 45 else 43 in
     let tz := if iTimeZone <? 0 then s32 (- iTimeZone) else iTimeZone in
     [sign] ++ two (zone_hours tz) ++ [58] ++ two (zone_minutes tz) ++ [0]).

Section Format.
Context `{SysTime}.

(** The tick in local time as a date, then its characters. *)
Definition format_with (chars : CellRtcDateTime -> Z -> list Z) (pszDateTime pUtc iTimeZone : Z) : M Z :=
  with_ptr pszDateTime (with_ptr pUtc (
    let* rtc_tick := (if pUtc =? 0 then
                        let '(r, sec, nsec) := sys_time_get_current_time in
                        ret (if r <? CELL_OK then 0 else tick_of_time sec nsec)
                      else read_tick pUtc) in
    let* date_time := of_option (tick_to_date_time (add_minutes rtc_tick iTimeZone)) in
    let r := check_valid date_time in
    if negb (r =? CELL_OK) then ret r
    else write_chars pszDateTime (chars date_time iTimeZone) ;; ret CELL_OK)).

Definition cellRtcFormatRfc2822 (pszDateTime pUtc iTimeZone : Z) : M Z :=
  format_with rfc2822_chars pszDateTime pUtc iTimeZone.
Definition cellRtcFormatRfc3339 (pszDateTime pUtc iTimeZone : Z) : M Z :=
  format_with rfc3339_chars pszDateTime pUtc iTimeZone.

Definition cellRtcFormatRfc2822LocalTime (pszDateTime pUtc : Z) : M Z :=
  with_ptr pszDateTime (with_ptr pUtc (
    let '(r, timezone, summertime) := sys_time_get_timezone in
    if r <? CELL_OK then ret r
    else cellRtcFormatRfc2822 pszDateTime pUtc (s32 (timezone + summertime)))).
Definition cellRtcFormatRfc3339LocalTime (pszDateTime pUtc : Z) : M Z :=
  with_ptr pszDateTime (with_ptr pUtc (
    let '(r, timezone, summertime) := sys_time_get_timezone in
    if r <? CELL_OK then ret r
    else cellRtcFormatRfc3339 pszDateTime pUtc (s32 (timezone + summertime)))).
End Format.

(** ** Parsing *)

(** [pszDateTime[pos]] as an unsigned character code. *)
Definition peek (psz pos : Z) : M Z := read 1 (u32 (psz + pos)).

(** [isdigit] of the characters at consecutive positions, left to right, stopping at
    the first that is not. *)
Fixpoint digits_at (psz pos : Z) (n : nat) : M bool :=
  match n with
  | O => ret true
  | S n => let* c := peek psz pos in if isdigit c then digits_at psz (pos + 1) n else ret false
  end.

Definition umax16 : Z := 0xffff.

(** [rtcParseComponent]: the value (or [umax]) and the new position; [delimiter] 0 for
    none.  The failing path reads the next character for its log message. *)
Definition rtcParseComponent (psz pos delimiter : Z) : M (Z * Z) :=
  let* ok := (if delimiter =? 0 then ret true
              else let* c := peek psz pos in ret (c =? delimiter)) in
  if negb ok then ret (umax16, pos)
  else
    let pos := if delimiter =? 0 then pos else u32 (pos + 1) in
    let* c := peek psz pos in
    if negb (isdigit c) then
      let* _ := peek psz (u32 (pos + 1)) in ret (umax16, pos)
    else
      let r := u16 (digit c) in
      let pos := u32 (pos + 1) in
      let* c := peek psz pos in
      if isdigit c then ret (u16 (r * 10 + digit c), u32 (pos + 1)) else ret (r, pos).

(** Number of leading characters of [name] found at [pos], letter case aside. *)
Fixpoint match_name (psz pos : Z) (name : list Z) : M Z :=
  match name with
  | [] => ret 0
  | a :: name =>
      let* c := peek psz pos in
      if tolower c =? a then let* n := match_name psz (u32 (pos + 1)) name in ret (n + 1) else ret 0
  end.

(** [rtcParseName]: index of the name and new position, or the number of names. *)
Fixpoint parse_names (psz pos : Z) (names : list (list Z)) (idx : Z) (allow_short_name : bool) : M (Z * Z) :=
  match names with
  | [] => ret (idx, pos)
  | name :: names =>
      let* ch_idx := match_name psz pos name in
      let len := Z.of_nat (List.length name) in
      if ch_idx =? len then ret (idx, u32 (pos + len))
      else if allow_short_name && (3 <=? ch_idx) then ret (idx, u32 (pos + 3))
      else parse_names psz pos names (idx + 1) allow_short_name
  end.
Definition rtcParseName (psz pos : Z) (names : list (list Z)) (allow_short_name : bool) : M (Z * Z) :=
  parse_names psz pos names 0 allow_short_name.

(** Four digits already known to be digits. *)
Definition number4 (psz pos : Z) : M Z :=
  let* a := peek psz pos in let* b := peek psz (u32 (pos + 1)) in
  let* c := peek psz (u32 (pos + 2)) in let* d := peek psz (u32 (pos + 3)) in
  ret (digit a * 1000 + digit b * 100 + digit c * 10 + digit d).
Definition number2 (psz pos : Z) : M Z :=
  let* a := peek psz pos in let* b := peek psz (u32 (pos + 1)) in ret (digit a * 10 + digit b).

(** [while (isblank(pszDateTime[pos])) pos++]. *)
Fixpoint skip_blanks (fuel : nat) (psz pos : Z) : M Z :=
  match fuel with
  | O => fun _ => OutOfFuel
  | S fuel => let* c := peek psz pos in
              if isblank c then skip_blanks fuel psz (u32 (pos + 1)) else ret pos
  end.

(** The military zones, one letter; [None] is a parse error. *)
Definition letter_zone (letter : Z) : option Z :=
  if (65 <=? letter) && (letter <=? 77) && negb (letter =? 74) then Some ((letter - 65) * 60)
  else if (78 <=? letter) && (letter <=? 89) then Some ((78 - letter) * 60)
  else if negb (letter =? 90) then None
  else Some 0.

(** The time zone after its space: minutes east of UTC, [None] is a parse error. *)
Definition rfc2822_zone (psz pos : Z) : M (option Z) :=
  let* c := peek psz pos in
  if (c =? 43) || (c =? 45) then
    let* all := digits_at psz (u32 (pos + 1)) 4 in
    let* time_zone :=
      (if all then
         let* hhmm := number4 psz (u32 (pos + 1)) in ret (hhmm /c 100 * 60 + hhmm %c 60)
       else ret (-1)) in
    ret (Some (if c =? 45 then - time_zone else time_zone))
  else
    let* other := (if c =? 85 then ret false
                   else let* c1 := peek psz (u32 (pos + 1)) in ret (negb (c1 =? 84))) in
    if other then
      let* '(time_zone_idx, pos) := rtcParseName psz pos TIME_ZONE_NAMES false in
      if time_zone_idx <? 70 then ret (Some (at_index TIME_ZONE_VALUES time_zone_idx * 30))
      else let* c := peek psz pos in ret (letter_zone (toupper c))
    else ret (Some 0).

(** Year in RFC 2822: "XX" or "XXXX"; [None] is a parse error. *)
Definition rfc2822_year (psz pos : Z) : M (option (Z * Z)) :=
  let* first := digits_at psz pos 2 in
  if negb first then
    let* _ := peek psz pos in let* _ := peek psz (u32 (pos + 1)) in ret None
  else
    let* rest := digits_at psz (u32 (pos + 2)) 2 in
    if negb rest then
      let* y := number2 psz pos in
      ret (Some (u16 (y + (if y <? 50 then 2000 else 1900)), u32 (pos + 2)))
    else let* y := number4 psz pos in ret (Some (u16 y, u32 (pos + 4))).

Definition bad_parse : M Z := ret CELL_RTC_ERROR_BAD_PARSE.

(** A component that must be present. *)
Definition component (psz pos delimiter : Z) (k : Z -> Z -> M Z) : M Z :=
  let* '(v, pos) := rtcParseComponent psz pos delimiter in
  if v =? umax16 then bad_parse else k v pos.

Definition rtcParseRfc2822 (pUtc psz pos : Z) : M Z :=
  component psz pos 0 (fun day pos =>
  let* c := peek psz pos in
  if negb (c =? 32) && negb (c =? 45) then bad_parse else
  let pos := u32 (pos + 1) in
  let* '(name_idx, pos) := rtcParseName psz pos MONTH_NAMES true in
  let month := name_idx + 1 in
  if 12 <? month then bad_parse else
  let* c := peek psz pos in
  if negb (c =? 32) && negb (c =? 45) then bad_parse else
  let pos := u32 (pos + 1) in
  let* yr := rfc2822_year psz pos in
  match yr with
  | None => bad_parse
  | Some (year, pos) =>
    component psz pos 32 (fun hour pos =>
    if 25 <? hour then bad_parse else
    component psz pos 58 (fun minute pos =>
    let* c := peek psz pos in
    let finish (second pos : Z) : M Z :=
      let* c := peek psz pos in
      let* zone := (if c =? 32 then rfc2822_zone psz (u32 (pos + 1)) else ret (Some 0)) in
      match zone with
      | None => bad_parse
      | Some time_zone =>
          cellRtcGetTick_local (mk_date year month day hour minute second 0) pUtc ;;
          cellRtcTickAddMinutes pUtc pUtc (- time_zone) ;; ret CELL_OK
      end in
    if negb (c =? 32) then component psz pos 58 finish
    else finish 0 (u32 (pos + 1))))
  end).

(** A two-digit field of RFC 3339, [0xffff] if it is not two digits. *)
Definition field2 (psz pos : Z) : M Z :=
  let* ok := digits_at psz pos 2 in if ok then number2 psz pos else ret umax16.

(** The fraction: each digit weighs a tenth of the one before, in microseconds. *)
Fixpoint fraction (fuel : nat) (psz pos us mul : Z) : M (Z * Z) :=
  match fuel with
  | O => fun _ => OutOfFuel
  | S fuel =>
      let* c := peek psz pos in
      if isdigit c then fraction fuel psz (u32 (pos + 1)) (u32 (us + digit c * mul)) (mul / 10)
      else ret (us, pos)
  end.

(** The offset of RFC 3339 at its sign: minutes to add, [None] is a parse error. *)
Definition rfc3339_offset (psz pos : Z) : M (option Z) :=
  let* sign := peek psz pos in
  if negb (sign =? 90) && negb (sign =? 122) && negb (sign =? 43) && negb (sign =? 45) then ret None
  else if (sign =? 43) || (sign =? 45) then
    let* h := digits_at psz (u32 (pos + 1)) 2 in
    let* ok := (if h then let* c := peek psz (u32 (pos + 3)) in
                          if c =? 58 then digits_at psz (u32 (pos + 4)) 2 else ret false
                else ret false) in
    if negb ok then ret None
    else
      let* hours := number2 psz (u32 (pos + 1)) in
      let* minutes := number2 psz (u32 (pos + 4)) in
      let m := hours * 60 + minutes in
      ret (Some (if sign =? 43 then - m else m))
  else ret (Some 0).

(** A separator that must follow a field. *)
Definition separator (psz pos : Z) (ok : Z -> bool) (err : Z) (k : M Z) : M Z :=
  let* c := peek psz pos in if ok c then k else ret err.

Definition cellRtcParseRfc3339 (fuel : nat) (pUtc psz : Z) : M Z :=
  with_ptr pUtc (with_ptr psz (
    let* y4 := digits_at psz 0 4 in
    let* year := (if y4 then number4 psz 0 else ret umax16) in
    separator psz 4 (Z.eqb 45) CELL_RTC_ERROR_INVALID_YEAR (
    let* month := field2 psz 5 in
    separator psz 7 (Z.eqb 45) CELL_RTC_ERROR_INVALID_MONTH (
    let* day := field2 psz 8 in
    separator psz 10 (fun c => (c =? 84) || (c =? 116)) CELL_RTC_ERROR_INVALID_DAY (
    let* hour := field2 psz 11 in
    separator psz 13 (Z.eqb 58) CELL_RTC_ERROR_INVALID_HOUR (
    let* minute := field2 psz 14 in
    separator psz 16 (Z.eqb 58) CELL_RTC_ERROR_INVALID_MINUTE (
    let* second := field2 psz 17 in
    let* dot := peek psz 19 in
    let* '(us, pos) := (if dot =? 46 then fraction fuel psz 20 0 100000 else ret (0, 19)) in
    let* offset := rfc3339_offset psz pos in
    match offset with
    | None => ret CELL_RTC_ERROR_BAD_PARSE
    | Some minutes_to_add =>
        cellRtcGetTick_local (mk_date year month day hour minute second us) pUtc ;;
        cellRtcTickAddMinutes pUtc pUtc minutes_to_add ;; ret CELL_OK
    end))))))).

(** The day of an asctime string: " X", "XX" or "X"; [None] is a parse error.  After a
    second space the character is not checked against '0'; whether a plain [char] is
    signed depends on the target. *)
Definition asctime_day (char_signed : bool) (psz pos : Z) : M (option (Z * Z)) :=
  let* c := peek psz pos in
  if c =? 32 then
    let pos := u32 (pos + 1) in
    let* c := peek psz pos in
    let c := if char_signed then s8 c else c in
    if 57 <? c then ret None else ret (Some (u16 (u16 c - 48), u32 (pos + 1)))
  else if isdigit c then
    let pos := u32 (pos + 1) in
    let day := digit c in
    let* c := peek psz pos in
    if isdigit c then ret (Some (u16 (day * 10 + digit c), u32 (pos + 1))) else ret (Some (day, pos))
  else ret None.

Definition cellRtcParseDateTime (char_signed : bool) (fuel : nat) (pUtc psz : Z) : M Z :=
  let* bad := bad_ptr pUtc in
  let* bad := (if bad then ret true else bad_ptr psz) in
  if bad then ret CELL_RTC_ERROR_INVALID_POINTER else
  let* pos := skip_blanks fuel psz 0 in
  let* y4 := digits_at psz pos 4 in
  if y4 then cellRtcParseRfc3339 fuel pUtc (u32 (psz + pos)) else
  let* '(weekday, pos) := rtcParseName psz pos WEEKDAY_NAMES true in
  if weekday =? 7 then bad_parse else
  let* c := peek psz pos in
  let pos := if c =? 44 then u32 (pos + 1) else pos in
  let* pos := skip_blanks fuel psz pos in
  let* '(name_idx, pos) := rtcParseName psz pos MONTH_NAMES true in
  let month := name_idx + 1 in
  if 12 <? month then rtcParseRfc2822 pUtc psz pos else
  let* c := peek psz pos in
  if negb (c =? 32) then bad_parse else
  let pos := u32 (pos + 1) in
  let* dp := asctime_day char_signed psz pos in
  match dp with
  | None => bad_parse
  | Some (day, pos) =>
    component psz pos 32 (fun hour pos =>
    component psz pos 58 (fun minute pos =>
    component psz pos 58 (fun second pos =>
    let* c := peek psz pos in
    if negb (c =? 32) then bad_parse else
    let pos := u32 (pos + 1) in
    let* y4 := digits_at psz pos 4 in
    if negb y4 then (let* _ := number4 psz pos in bad_parse) else
    let* year := number4 psz pos in
    cellRtcGetTick_local (mk_date year month day hour minute second 0) pUtc ;; ret CELL_OK)))
  end.
