(* ===== verification/RtcCalendar.v ===== *)
(** * The calendar of cellRtc

    A reference calendar (years of 365 or 366 days added up one by one, months from the
    table of their lengths) and the closed formulas of [tick_to_date_time],
    [date_time_to_tick] and [cellRtcGetDayOfWeek] against it. *)

From Stdlib Require Import ZArith Lia Bool.
From stdpp Require Import base numbers list gmap.
From S2P Require Import Prelude V128 Bytes GuestMem Rtc.
Open Scope emu_scope.

(** ** Reference calendar *)

Definition year_length (y : Z) : Z := if is_leap_year y then 366 else 365.

(** Days of the first [n] years, 1 to [n]. *)
Fixpoint days_of_years (n : nat) : Z :=
  match n with
  | O => 0
  | S n => days_of_years n + year_length (Z.of_nat n + 1)
  end.

Definition days_in_month (y : Z) : list Z :=
  if is_leap_year y then DAYS_IN_MONTH_LEAP else DAYS_IN_MONTH.

Definition sum (l : list Z) : Z := foldr Z.add 0 l.

(** Days between 0001-01-01 and a date. *)
Definition day_number (t : CellRtcDateTime) : Z :=
  days_of_years (Z.to_nat (year t - 1)) + sum (take (Z.to_nat (month t - 1)) (days_in_month (year t)))
  + (day t - 1).

Definition us_per_day : Z := 24 * 60 * 60 * 1000000.

(** Microseconds between 0001-01-01 and a date. *)
Definition reference_tick (t : CellRtcDateTime) : Z :=
  day_number t * us_per_day
  + (((hour t * 60 + minute t) * 60 + second t) * 1000000 + microsecond t).

(** A date the module accepts, in fields of its types. *)
Record valid (t : CellRtcDateTime) : Prop := {
  v_year : 1 <= year t <= 9999;
  v_month : 1 <= month t <= 12;
  v_day : 1 <= day t <= at_index (days_in_month (year t)) (month t - 1);
  v_hour : 0 <= hour t < 24;
  v_minute : 0 <= minute t < 60;
  v_second : 0 <= second t < 60;
  v_us : 0 <= microsecond t < 1000000;
}.

(** Unsigned fields. *)
Definition unsigned (t : CellRtcDateTime) : Prop :=
  0 <= year t /\ 0 <= month t /\ 0 <= day t /\ 0 <= hour t /\ 0 <= minute t /\ 0 <= second t /\
  0 <= microsecond t.

Lemma check_valid_iff t : unsigned t -> check_valid t = CELL_OK <-> valid t.
Proof.
  intros (? & ? & ? & ? & ? & ? & ?). unfold check_valid. fold (days_in_month (year t)).
  split.
  - repeat case_match; intros E; try (exfalso; revert E; vm_compute; discriminate).
    rewrite ?orb_false_iff, ?Z.eqb_neq, ?Z.leb_gt, ?Z.ltb_ge in *.
    unfold cellRtcGetTickResolution in *. constructor; lia.
  - intros []. repeat case_match; auto;
      rewrite ?orb_true_iff, ?Z.eqb_eq, ?Z.leb_le, ?Z.ltb_lt in *; 
      unfold cellRtcGetTickResolution in *; lia.
Qed.

(** ** Leap years *)

Lemma leap_mod y : 0 <= y ->
  is_leap_year y = (y mod 4 =? 0) && (negb (y mod 100 =? 0) || (y mod 400 =? 0)).
Proof. intros. unfold is_leap_year. rewrite !Z.rem_mod_nonneg by lia. reflexivity. Qed.

(** Days of [n] years in closed form. *)
Definition N (n : Z) : Z := 365 * n + n / 4 - n / 100 + n / 400.

Lemma N_step n : 0 <= n -> N (n + 1) = N n + year_length (n + 1).
Proof.
  intros Hn. unfold N, year_length. rewrite leap_mod by lia.
  destruct (Z.eqb_spec ((n + 1) mod 4) 0), (Z.eqb_spec ((n + 1) mod 100) 0),
    (Z.eqb_spec ((n + 1) mod 400) 0); cbn [negb orb andb]; Z.div_mod_to_equations; lia.
Qed.

Lemma days_of_years_N n : days_of_years n = N (Z.of_nat n).
Proof.
  induction n as [|n IH]; [reflexivity|]. cbn [days_of_years].
  rewrite IH, <- N_step by lia. f_equal. lia.
Qed.

Lemma N_400 q r : N (400 * q + r) = DAYS_IN_400_YEARS * q + N r.
Proof. unfold N, DAYS_IN_400_YEARS. Z.div_mod_to_equations. lia. Qed.

Lemma year_length_bounds y : 365 <= year_length y <= 366.
Proof. unfold year_length. destruct (is_leap_year y); lia. Qed.

(** Within a cycle of 400 years: the year of a day by the code's formula. *)
Lemma year_of_day r doy :
  0 <= r < 400 -> 0 <= doy < year_length (r + 1) ->
  let d := N r + doy in
  0 <= d < DAYS_IN_400_YEARS /\
  (d - d / (DAYS_IN_4_YEARS - 1) + d / DAYS_IN_100_YEARS - d / (DAYS_IN_400_YEARS - 1)) / 365 = r.
Proof.
  intros Hr Hd d.
  assert (exists c, 0 <= c < 4 /\ 0 <= r - 100 * c < 100) as (c & Hc & Hrc).
  { exists (r / 100). Z.div_mod_to_equations. lia. }
  assert (r / 100 = c) as E100 by (symmetry; apply (Z.div_unique _ _ _ (r - 100 * c)); lia).
  assert (r / 400 = 0) as E400 by (apply Z.div_small; lia).
  assert (doy <= 364 \/ (doy = 365 /\ (r + 1) mod 4 = 0 /\ (r - 100 * c <> 99 \/ c = 3))) as Hcase.
  { unfold year_length in Hd. rewrite leap_mod in Hd by lia.
    destruct (Z.eqb_spec ((r + 1) mod 4) 0), (Z.eqb_spec ((r + 1) mod 100) 0),
      (Z.eqb_spec ((r + 1) mod 400) 0); cbn [negb orb andb] in Hd; Z.div_mod_to_equations; lia. }
  unfold d, N, DAYS_IN_400_YEARS, DAYS_IN_4_YEARS, DAYS_IN_100_YEARS. rewrite E100, E400.
  assert (c = 0 \/ c = 1 \/ c = 2 \/ c = 3) as Hc4 by lia.
  destruct Hc4 as [-> | [-> | [-> | ->]]]; (split; [Z.div_mod_to_equations; lia|]);
    symmetry; match goal with |- r = ?x / 365 => apply (Z.div_unique x 365 r (x - 365 * r)) end; try lia;
    Z.div_mod_to_equations; lia.
Qed.

(** ** Months *)

Definition month_offset (leap : bool) : list Z := if leap then MONTH_OFFSET_LEAP else MONTH_OFFSET.
Definition month_lengths (leap : bool) : list Z := if leap then DAYS_IN_MONTH_LEAP else DAYS_IN_MONTH.

(** Day of the year to month: the index is a month, the estimate stays within the
    thirteen entries, and the day falls within the month. *)
Definition month_ok (leap : bool) (doy : Z) : bool :=
  let m := month_index (month_offset leap) doy in
  (doy / 29 <=? 12) && (0 <=? m) && (m <=? 11) &&
  (at_index (month_offset leap) m <=? doy) && 
  (doy <? at_index (month_offset leap) m + at_index (month_lengths leap) m).

Lemma month_of_day (leap : bool) doy : 0 <= doy < (if leap then 366 else 365) -> month_ok leap doy = true.
Proof.
  intros Hd. assert (forallb (fun n => month_ok leap (Z.of_nat n)) (List.seq 0 (if leap then 366 else 365)%nat) = true) as H
    by (destruct leap; vm_compute; reflexivity).
  rewrite forallb_forall in H. specialize (H (Z.to_nat doy)). rewrite Z2Nat.id in H by lia.
  apply H. apply in_seq. destruct leap; lia.
Qed.

(** Month and day to day of the year and back. *)
Definition month_back (leap : bool) (m d : Z) : bool :=
  month_index (month_offset leap) (at_index (month_offset leap) m + d) =? m.

Lemma day_of_month leap m d :
  0 <= m < 12 -> 0 <= d < at_index (month_lengths leap) m ->
  month_index (month_offset leap) (at_index (month_offset leap) m + d) = m.
Proof.
  intros Hm Hd. apply Z.eqb_eq. fold (month_back leap m d).
  assert (forallb (fun m => forallb (fun d => month_back leap (Z.of_nat m) (Z.of_nat d))
            (List.seq 0 (Z.to_nat (at_index (month_lengths leap) (Z.of_nat m))))) (List.seq 0 12) = true) as H
    by (destruct leap; vm_compute; reflexivity).
  rewrite forallb_forall in H. specialize (H (Z.to_nat m)). rewrite Z2Nat.id in H by lia.
  rewrite forallb_forall in H. specialize (H ltac:(apply in_seq; lia) (Z.to_nat d)).
  rewrite Z2Nat.id in H by lia. apply H, in_seq. lia.
Qed.

Definition month_fact (leap : bool) (m : Z) : bool :=
  (at_index (month_offset leap) m =? sum (take (Z.to_nat m) (month_lengths leap))) &&
  (0 <=? at_index (month_offset leap) m) && (28 <=? at_index (month_lengths leap) m) &&
  (at_index (month_lengths leap) m <=? 31) &&
  (at_index (month_offset leap) m + at_index (month_lengths leap) m <=? (if leap then 366 else 365)).

Lemma month_facts (leap : bool) m :
  0 <= m < 12 ->
  at_index (month_offset leap) m = sum (take (Z.to_nat m) (month_lengths leap)) /\
  0 <= at_index (month_offset leap) m /\ 28 <= at_index (month_lengths leap) m <= 31 /\
  at_index (month_offset leap) m + at_index (month_lengths leap) m <= (if leap then 366 else 365).
Proof.
  intros Hm. assert (forallb (fun m => month_fact leap (Z.of_nat m)) (List.seq 0 12) = true) as H
    by (destruct leap; vm_compute; reflexivity).
  rewrite forallb_forall in H. specialize (H (Z.to_nat m)). rewrite Z2Nat.id in H by lia.
  specialize (H ltac:(apply in_seq; lia)). unfold month_fact in H.
  rewrite !andb_true_iff, Z.eqb_eq, !Z.leb_le in H. destruct H as [[[[H1 H2] H3] H4] H5]. auto.
Qed.

(** ** Dates to ticks *)

Section ToTick.
Context (t : CellRtcDateTime) (Hv : valid t).

Let leap := is_leap_year (year t).
Let doy := at_index (month_offset leap) (month t - 1) + (day t - 1).

Lemma doy_bounds : 0 <= doy < year_length (year t).
Proof.
  destruct Hv as [Hy Hm Hd _ _ _ _]. pose proof (month_facts leap (month t - 1) ltac:(lia)) as (_ & H1 & H2 & H3).
  change (days_in_month (year t)) with (month_lengths leap) in Hd.
  unfold doy, year_length. fold leap. destruct leap; lia.
Qed.

Lemma day_number_doy : day_number t = N (year t - 1) + doy.
Proof.
  destruct Hv as [Hy Hm Hd _ _ _ _].
  pose proof (month_facts leap (month t - 1) ltac:(lia)) as (E & _).
  unfold day_number, doy. rewrite days_of_years_N, E. rewrite Z2Nat.id by lia.
  change (days_in_month (year t)) with (month_lengths leap). lia.
Qed.

Lemma N_bounds n : 0 <= n <= 9998 -> 0 <= N n <= 3651694.
Proof. intros Hn. unfold N. Z.div_mod_to_equations. lia. Qed.

Lemma day_number_bounds : 0 <= day_number t < 3652059.
Proof.
  rewrite day_number_doy. destruct Hv as [Hy _ _ _ _ _ _].
  pose proof doy_bounds as Hd. pose proof (N_step (year t - 1) ltac:(lia)) as Hn.
  replace (year t - 1 + 1) with (year t) in Hn by lia.
  assert (0 <= N (year t - 1) /\ N (year t) <= 3652059) by (unfold N; Z.div_mod_to_equations; lia).
  lia.
Qed.

(** The formula of the code is the reference count. *)
Lemma to_tick_reference : date_time_to_tick t = reference_tick t.
Proof.
  pose proof day_number_bounds as Hb. pose proof day_number_doy as Hdn.
  destruct Hv as [Hy Hm Hd Hh Hmi Hs Hu].
  pose proof (month_facts leap (month t - 1) ltac:(lia)) as (_ & Ho & Hl & _).
  assert (0 <= N (year t - 1)) by (apply N_bounds; lia).
  unfold date_time_to_tick. fold leap.
  assert ((if month t =? 0 then 1 else if 12 <? month t then 12 else month t) = month t) as ->.
  { destruct (Z.eqb_spec (month t) 0), (Z.ltb_spec 12 (month t)); lia. }
  replace (if leap then at_index MONTH_OFFSET_LEAP (month t - 1) else at_index MONTH_OFFSET (month t - 1))
    with (at_index (month_offset leap) (month t - 1)) by (unfold month_offset; destruct leap; reflexivity).
  assert (year t * 365 + (year t + 3) / 4 - (year t + 99) / 100 + (year t + 399) / 400 - 366 = N (year t - 1)) as ->
    by (unfold N; Z.div_mod_to_equations; lia).
  assert (N (year t - 1) <= 3651694) by (apply N_bounds; lia).
  rewrite (wrap_small 32 (N _)) by (unfold in_range; lia).
  replace (N (year t - 1) + at_index (month_offset leap) (month t - 1) + day t - 1) with (day_number t)
    by (rewrite Hdn; unfold doy; lia).
  rewrite (wrap_small 32) by (unfold in_range; lia). unfold reference_tick, us_per_day.
  rewrite wrap_small by (unfold in_range; lia). lia.
Qed.
End ToTick.

(** ** Ticks to dates *)

(** Day of the cycle split into years and days of the year. *)
Lemma split_cycle d :
  0 <= d < DAYS_IN_400_YEARS ->
  exists r doy, 0 <= r < 400 /\ 0 <= doy < year_length (r + 1) /\ d = N r + doy.
Proof.
  intros Hd.
  assert (forall n : nat, d < N (Z.of_nat n) ->
    exists r doy, 0 <= r < Z.of_nat n /\ 0 <= doy < year_length (r + 1) /\ d = N r + doy) as H.
  { induction n as [|n IH]; intros Hn; [change (N (Z.of_nat 0)) with 0 in Hn; lia|].
    destruct (Z.lt_ge_cases d (N (Z.of_nat n))) as [Hlt|Hge].
    - destruct (IH Hlt) as (r & doy & ? & ? & ?). exists r, doy. lia.
    - exists (Z.of_nat n), (d - N (Z.of_nat n)). pose proof (N_step (Z.of_nat n) ltac:(lia)).
      replace (Z.of_nat (S n)) with (Z.of_nat n + 1) in * by lia. lia. }
  apply (H 400%nat). change (N (Z.of_nat 400)) with DAYS_IN_400_YEARS. lia.
Qed.

(** The date of a day count [q] cycles, [r] years and [doy] days after 0001-01-01, with
    [tod] microseconds into the day. *)
Definition date_at (q r doy tod : Z) : CellRtcDateTime :=
  let years := u16 (400 * q + r + 1) in
  let off := month_offset (is_leap_year years) in
  let m := month_index off doy in
  mk_date years (m + 1) (doy - at_index off m + 1)
    (tod / 3600000000) (tod / 60000000 mod 60) (tod / 1000000 mod 60) (tod mod 1000000).

(** The estimate never leaves the table, whatever year table is used. *)
Lemma month_index_safe leap doy :
  0 <= doy < 366 ->
  0 <= doy / 29 <= 12 /\ 0 <= month_index (month_offset leap) doy <= 11 /\
  0 <= doy - at_index (month_offset leap) (month_index (month_offset leap) doy) <= 31.
Proof.
  intros Hd.
  set (ok := fun doy => (doy / 29 <=? 12) && (0 <=? month_index (month_offset leap) doy)
     && (month_index (month_offset leap) doy <=? 11)
     && (0 <=? doy - at_index (month_offset leap) (month_index (month_offset leap) doy))
     && (doy - at_index (month_offset leap) (month_index (month_offset leap) doy) <=? 31)).
  assert (forallb (fun n => ok (Z.of_nat n)) (List.seq 0 366) = true) as H
    by (destruct leap; vm_compute; reflexivity).
  rewrite forallb_forall in H. specialize (H (Z.to_nat doy)). rewrite Z2Nat.id in H by lia.
  specialize (H ltac:(apply in_seq; lia)). unfold ok in H.
  rewrite !andb_true_iff, !Z.leb_le in H. pose proof (Z.div_pos doy 29 ltac:(lia) ltac:(lia)). lia.
Qed.

(** Fields of the time of day. *)
Lemma tod_field D tod c k m :
  0 < k -> 0 < m -> us_per_day = c * m * k -> (D * us_per_day + tod) / k mod m = tod / k mod m.
Proof.
  intros Hk Hm E. rewrite E. replace (D * (c * m * k) + tod) with (D * c * m * k + tod) by ring.
  rewrite Z.div_add_l by lia. rewrite Z.add_comm. apply Z.mod_add. lia.
Qed.

Lemma to_date_at q r doy tod :
  0 <= q -> q * DAYS_IN_400_YEARS + DAYS_IN_400_YEARS <= 2 ^ 32 ->
  0 <= r < 400 -> 0 <= doy < year_length (r + 1) -> 0 <= tod < us_per_day ->
  tick_to_date_time ((q * DAYS_IN_400_YEARS + N r + doy) * us_per_day + tod) = Some (date_at q r doy tod).
Proof.
  intros Hq Hq' Hr Hd Ht. pose proof (year_of_day r doy Hr Hd) as [Hb Hy]. cbv zeta in Hb, Hy.
  pose proof (year_length_bounds (r + 1)).
  set (D := q * DAYS_IN_400_YEARS + N r + doy). unfold tick_to_date_time.
  rewrite (tod_field D tod 1440 1000000 60) by (reflexivity || lia).
  rewrite (tod_field D tod 24 (60 * 1000000) 60) by (reflexivity || lia).
  rewrite (tod_field D tod 1 (60 * 60 * 1000000) 24) by (reflexivity || lia).
  replace ((D * us_per_day + tod) mod 1000000) with (tod mod 1000000).
  2:{ change us_per_day with (86400 * 1000000). rewrite Z.mul_assoc, Z.add_comm, Z.mod_add by lia. reflexivity. }
  change (24 * 60 * 60 * 1000000) with us_per_day. rewrite Z.div_add_l, (Z.div_small tod), Z.add_0_r by (auto; discriminate).
  rewrite (wrap_small 32 D) by (unfold in_range, D, DAYS_IN_400_YEARS in *; lia).
  replace (D / DAYS_IN_400_YEARS) with q by (apply (Z.div_unique _ _ _ (N r + doy)); unfold D; lia).
  replace (D - q * DAYS_IN_400_YEARS) with (N r + doy) by (unfold D; lia).
  rewrite (wrap_small 32 (N r + doy)) by (unfold in_range, DAYS_IN_400_YEARS in *; lia).
  rewrite (wrap_small 32 (N r + doy - _ + _ - _)).
  2:{ unfold in_range, DAYS_IN_400_YEARS, DAYS_IN_4_YEARS, DAYS_IN_100_YEARS in *.
      Z.div_mod_to_equations. lia. }
  rewrite Hy. replace (N r + doy - (r * 365 + r / 4 - r / 100 + r / 400)) with doy by (unfold N; lia).
  rewrite (wrap_small 32 doy) by (unfold in_range; lia).
  replace (q * 400 + r + 1) with (400 * q + r + 1) by lia.
  fold (month_offset (is_leap_year (u16 (400 * q + r + 1)))). set (years := u16 (400 * q + r + 1)).
  destruct (month_index_safe (is_leap_year years) doy ltac:(lia)) as (_ & Hm & Hday).
  set (m := month_index _ doy) in *.
  rewrite (wrap_small 32 (doy - _)) by (unfold in_range; lia).
  rewrite !(wrap_small 32 (_ + 1)) by (unfold in_range; lia).
  rewrite (wrap_small 16 (m + 1)) by (unfold in_range; lia).
  destruct (Z.ltb_spec (doy - at_index (month_offset (is_leap_year years)) m + 1) 0x10000); [|lia].
  unfold date_at. fold years. fold m. do 2 f_equal.
  change (60 * 60 * 1000000) with 3600000000. apply Z.mod_small.
  unfold us_per_day in Ht. Z.div_mod_to_equations. lia.
Qed.

Lemma leap_400 q y : 0 <= q -> 0 <= y -> is_leap_year (400 * q + y) = is_leap_year y.
Proof.
  intros Hq Hy. rewrite !leap_mod by lia.
  replace (400 * q + y) with (y + (100 * q) * 4) at 1 by lia. rewrite Z.mod_add by lia.
  replace (400 * q + y) with (y + (4 * q) * 100) at 1 by lia. rewrite Z.mod_add by lia.
  replace (400 * q + y) with (y + q * 400) by lia. rewrite Z.mod_add by lia. reflexivity.
Qed.

(** Every tick is some microseconds into some day of some year. *)
Lemma split_tick tick :
  0 <= tick ->
  exists q r doy tod, tick = (q * DAYS_IN_400_YEARS + N r + doy) * us_per_day + tod /\
    0 <= q /\ 0 <= r < 400 /\ 0 <= doy < year_length (r + 1) /\ 0 <= tod < us_per_day /\
    q * DAYS_IN_400_YEARS + N r + doy = tick / us_per_day.
Proof.
  intros Ht. pose proof (Z.div_mod tick us_per_day ltac:(discriminate)) as E.
  pose proof (Z.mod_pos_bound tick us_per_day eq_refl) as Hm.
  pose proof (Z.div_pos tick us_per_day Ht eq_refl) as HD. set (D := tick / us_per_day) in *.
  pose proof (Z.div_mod D DAYS_IN_400_YEARS ltac:(discriminate)) as E'.
  pose proof (Z.mod_pos_bound D DAYS_IN_400_YEARS eq_refl) as Hm'.
  pose proof (Z.div_pos D DAYS_IN_400_YEARS HD eq_refl) as Hq.
  destruct (split_cycle (D mod DAYS_IN_400_YEARS) Hm') as (r & doy & Hr & Hd & Ed).
  exists (D / DAYS_IN_400_YEARS), r, doy, (tick mod us_per_day).
  assert (D / DAYS_IN_400_YEARS * DAYS_IN_400_YEARS + N r + doy = D) as ED by lia.
  rewrite ED. repeat split; try lia.
Qed.

(** The days before year 10000. *)
Definition TICK_END : Z := 3652059 * us_per_day.

(** Below the end the year needs no wrap-around. *)
Lemma year_fits q r doy tick :
  tick / us_per_day = q * DAYS_IN_400_YEARS + N r + doy -> tick < TICK_END -> 0 <= q ->
  0 <= r < 400 -> 0 <= doy -> 1 <= 400 * q + r + 1 <= 9999.
Proof.
  intros E Ht Hq Hr Hd.
  assert (tick / us_per_day < 3652059).
  { apply Z.div_lt_upper_bound; [reflexivity|]. unfold TICK_END in Ht. lia. }
  unfold N, DAYS_IN_400_YEARS in *. Z.div_mod_to_equations. lia.
Qed.

(** A date of the range is valid, and the day of the year comes back from it. *)
Lemma date_at_valid q r doy tod :
  0 <= q -> 0 <= r < 400 -> 0 <= doy < year_length (r + 1) -> 0 <= tod < us_per_day ->
  1 <= 400 * q + r + 1 <= 9999 ->
  valid (date_at q r doy tod) /\
  reference_tick (date_at q r doy tod) = (q * DAYS_IN_400_YEARS + N r + doy) * us_per_day + tod.
Proof.
  intros Hq Hr Hd Ht Hy.
  assert (u16 (400 * q + r + 1) = 400 * q + r + 1) as Ey by (apply wrap_small; unfold in_range; lia).
  assert (is_leap_year (400 * q + r + 1) = is_leap_year (r + 1)) as El
    by (rewrite <- (leap_400 q (r + 1)) by lia; f_equal; lia).
  unfold year_length in Hd. set (leap := is_leap_year (r + 1)) in *.
  pose proof (month_of_day leap doy Hd) as Hm. unfold month_ok in Hm.
  rewrite !andb_true_iff, !Z.leb_le, Z.ltb_lt in Hm. destruct Hm as [[[[_ Hm0] Hm1] Ho0] Ho1].
  set (m := month_index (month_offset leap) doy) in *.
  assert (valid (date_at q r doy tod)) as Hv.
  { unfold date_at. rewrite Ey, El. fold leap. fold m.
    assert (days_in_month (400 * q + r + 1) = month_lengths leap) as Em
      by (unfold days_in_month; rewrite El; reflexivity).
    unfold us_per_day in Ht.
    constructor; cbn [year month day hour minute second microsecond]; rewrite ?Em;
      replace (m + 1 - 1) with m by lia; try lia; Z.div_mod_to_equations; lia. }
  split; [exact Hv|]. unfold reference_tick. rewrite day_number_doy by exact Hv.
  unfold date_at. rewrite Ey, El. fold leap. fold m. cbn [year month day hour minute second microsecond].
  rewrite El. fold leap. replace (m + 1 - 1) with m by lia.
  replace (400 * q + r + 1 - 1) with (400 * q + r) by lia. rewrite N_400.
  replace (DAYS_IN_400_YEARS * q + N r + (at_index (month_offset leap) m + (doy - at_index (month_offset leap) m + 1 - 1)))
    with (q * DAYS_IN_400_YEARS + N r + doy) by lia.
  f_equal. unfold us_per_day in Ht. Z.div_mod_to_equations. lia.
Qed.

Lemma cycles_fit q n tick :
  0 <= n -> q * DAYS_IN_400_YEARS + n = tick / us_per_day -> in_range 64 tick ->
  q * DAYS_IN_400_YEARS + DAYS_IN_400_YEARS <= 2 ^ 32.
Proof.
  intros Hn E Ht. assert (tick / us_per_day < 213503983).
  { apply Z.div_lt_upper_bound; [reflexivity|]. unfold in_range, us_per_day in *. lia. }
  unfold DAYS_IN_400_YEARS in *. lia.
Qed.

Lemma tick_date_tick_core tick :
  0 <= tick < TICK_END ->
  exists t, tick_to_date_time tick = Some t /\ valid t /\ date_time_to_tick t = tick.
Proof.
  intros Ht. destruct (split_tick tick ltac:(lia)) as (q & r & doy & tod & E & Hq & Hr & Hd & Htod & ED).
  pose proof (year_fits q r doy tick (eq_sym ED) ltac:(lia) Hq Hr ltac:(lia)) as Hy.
  destruct (date_at_valid q r doy tod Hq Hr Hd Htod Hy) as [Hv Href].
  assert (0 <= N r) by (unfold N; Z.div_mod_to_equations; lia).
  exists (date_at q r doy tod). split; [|split].
  - rewrite E. apply to_date_at; auto. apply (cycles_fit q (N r + doy) tick); try lia.
    unfold in_range, TICK_END, us_per_day in *. lia.
  - exact Hv.
  - rewrite to_tick_reference by exact Hv. lia.
Qed.

(** The clock's calendar, ticks to dates and back.  A tick before the year 10000
    converts to a date that [cellRtcCheckValid] accepts and that converts back to the
    same tick. *)
Theorem tick_date_tick tick :
  0 <= tick < TICK_END ->
  exists t, tick_to_date_time tick = Some t /\ check_valid t = CELL_OK /\ date_time_to_tick t = tick.
Proof.
  intros Ht. destruct (tick_date_tick_core tick Ht) as (t & E & Hv & B). exists t.
  split; [exact E|]. split; [|exact B]. apply check_valid_iff; [|exact Hv].
  destruct Hv. unfold unsigned. lia.
Qed.

Lemma tick_date_tick_witness :
  exists t, tick_to_date_time RTC_MAGIC_OFFSET = Some t /\ date_time_to_tick t = RTC_MAGIC_OFFSET.
Proof.
  destruct (tick_date_tick RTC_MAGIC_OFFSET ltac:(vm_compute; split; congruence)) as (t & E & _ & B).
  exists t. auto.
Defined.

Lemma date_tick_date_core t :
  valid t ->
  date_time_to_tick t = reference_tick t /\ 0 <= date_time_to_tick t < TICK_END /\
  tick_to_date_time (date_time_to_tick t) = Some t.
Proof.
  intros Hv.
  pose proof (to_tick_reference t Hv) as Eref. pose proof (day_number_bounds t Hv) as Hdb.
  pose proof (day_number_doy t Hv) as Hdn. pose proof (doy_bounds t Hv) as Hdoy.
  destruct Hv as [Hy Hm Hd Hh Hmi Hs Hus] eqn:EHv.
  split; [exact Eref|]. split.
  { rewrite Eref. unfold reference_tick, TICK_END, us_per_day in *. lia. }
  rewrite Eref. unfold reference_tick. rewrite Hdn.
  set (q := (year t - 1) / 400). set (r := (year t - 1) mod 400).
  assert (year t - 1 = 400 * q + r) as Ey by (apply Z.div_mod; lia).
  assert (0 <= r < 400) as Hr by (apply Z.mod_pos_bound; lia).
  assert (0 <= q < 25) as Hq by (unfold q; Z.div_mod_to_equations; lia).
  assert (is_leap_year (year t) = is_leap_year (r + 1)) as El
    by (rewrite <- (leap_400 q (r + 1)) by lia; f_equal; lia).
  rewrite Ey, N_400. set (doy := at_index _ _ + (day t - 1)) in *.
  assert (year_length (r + 1) = year_length (year t)) as Eyl by (unfold year_length; rewrite El; reflexivity).
  replace (DAYS_IN_400_YEARS * q + N r + doy) with (q * DAYS_IN_400_YEARS + N r + doy) by lia.
  rewrite to_date_at; [|lia|unfold DAYS_IN_400_YEARS; lia|lia|lia|unfold us_per_day; lia].
  f_equal. unfold date_at. replace (400 * q + r + 1) with (year t) by lia.
  rewrite (wrap_small 16 (year t)) by (unfold in_range; lia).
  change (days_in_month (year t)) with (month_lengths (is_leap_year (year t))) in Hd.
  assert (month_index (month_offset (is_leap_year (year t))) doy = month t - 1) as ->
    by (apply day_of_month; lia).
  destruct t as [y mo d h mi se us]; cbn [year month day hour minute second microsecond] in *.
  f_equal; try lia; try (unfold doy; lia); Z.div_mod_to_equations; lia.
Qed.

(** C19: dates to ticks and back.  A date that [cellRtcCheckValid] accepts converts to
    the number of microseconds since 0001-01-01, counted year by year and month by month,
    and that tick converts back to the same date. *)
Theorem date_tick_date t :
  unsigned t -> check_valid t = CELL_OK ->
  date_time_to_tick t = reference_tick t /\ 0 <= date_time_to_tick t < TICK_END /\
  tick_to_date_time (date_time_to_tick t) = Some t.
Proof. intros Hu Hc. apply date_tick_date_core, check_valid_iff; auto. Qed.

Definition sample_date : CellRtcDateTime := mk_date 2024 2 29 23 59 59 999999.
Lemma date_tick_date_witness :
  date_time_to_tick sample_date = reference_tick sample_date /\
  tick_to_date_time (date_time_to_tick sample_date) = Some sample_date.
Proof.
  destruct (date_tick_date sample_date ltac:(unfold unsigned; cbn; lia) eq_refl) as (A & _ & B). auto.
Defined.

(** C20: converting a tick is total and stays within its tables.  For every 64-bit tick,
    also past the year 65535 where the 16-bit year wraps, the month estimate indexes one
    of the thirteen offsets, [narrow] does not throw, and the fields are those of a clock
    with a month of 1 to 12 (the day may be 32, see [wrapped_leap_year]). *)
Theorem tick_to_date_total tick :
  in_range 64 tick ->
  exists t doy, tick_to_date_time tick = Some t /\ 0 <= doy < 366 /\ 0 <= doy / 29 <= 12 /\
    day t = doy - at_index (month_offset (is_leap_year (year t))) (month t - 1) + 1 /\
    in_range 16 (year t) /\ 1 <= month t <= 12 /\ 1 <= day t <= 32 /\
    0 <= hour t < 24 /\ 0 <= minute t < 60 /\ 0 <= second t < 60 /\ 0 <= microsecond t < 1000000.
Proof.
  intros Ht. pose proof Ht as [Ht0 _].
  destruct (split_tick tick Ht0) as (q & r & doy & tod & E & Hq & Hr & Hd & Htod & ED).
  pose proof (year_length_bounds (r + 1)).
  assert (0 <= N r) by (unfold N; Z.div_mod_to_equations; lia).
  exists (date_at q r doy tod), doy. split.
  { rewrite E. apply to_date_at; auto. apply (cycles_fit q (N r + doy) tick); auto; lia. }
  unfold date_at. cbn [year month day hour minute second microsecond].
  set (years := u16 (400 * q + r + 1)).
  destruct (month_index_safe (is_leap_year years) doy ltac:(lia)) as (H1 & H2 & H3).
  set (m := month_index _ doy) in *. replace (m + 1 - 1) with m by lia.
  assert (in_range 16 years) as Hyr by (apply wrap_range; lia).
  unfold in_range, us_per_day in Hyr, Htod.
  split_and!; try lia; try exact Hyr; Z.div_mod_to_equations; lia.
Qed.

Lemma tick_to_date_total_witness :
  exists t, tick_to_date_time (2 ^ 64 - 1) = Some t /\ 1 <= month t <= 12.
Proof.
  destruct (tick_to_date_total (2 ^ 64 - 1) ltac:(unfold in_range; lia))
    as (t & doy & E & _ & _ & _ & _ & Hm & _).
  exists t. auto.
Defined.

(** The last day of the year 65636, a leap year whose low 16 bits say 100, a common
    year: the date is the 32nd of December of the year 100. *)
Lemma wrapped_leap_year :
  tick_to_date_time ((days_of_years (Z.to_nat 65636) - 1) * us_per_day)
    = Some (mk_date 100 12 32 0 0 0 0).
Proof. rewrite days_of_years_N, Z2Nat.id by lia. vm_compute. reflexivity. Qed.

(** ** Days of the week *)

Definition zeller_ok (m : Z) : bool :=
  let m' := if m <=? 2 then m + 12 else m in
  let off := at_index MONTH_OFFSET (m - 1) in
  ((m' * 13 + 8) / 5 + (if m <=? 2 then 0 else 1) - off) mod 7 =? 0.

Lemma zeller_month m : 1 <= m <= 12 -> zeller_ok m = true.
Proof.
  intros Hm. assert (forallb (fun n => zeller_ok (Z.of_nat n)) (List.seq 1 12) = true) as H
    by (vm_compute; reflexivity).
  rewrite forallb_forall in H. specialize (H (Z.to_nat m)). rewrite Z2Nat.id in H by lia.
  apply H, in_seq. lia.
Qed.

Lemma leap_offset leap m :
  1 <= m <= 12 ->
  at_index (month_offset leap) (m - 1) = at_index MONTH_OFFSET (m - 1) + (if leap && (3 <=? m) then 1 else 0).
Proof.
  intros Hm. set (f := fun m => at_index (month_offset leap) (m - 1) =?
     at_index MONTH_OFFSET (m - 1) + (if leap && (3 <=? m) then 1 else 0)).
  assert (forallb (fun n => f (Z.of_nat n)) (List.seq 1 12) = true) as H
    by (destruct leap; vm_compute; reflexivity).
  rewrite forallb_forall in H. specialize (H (Z.to_nat m)). rewrite Z2Nat.id in H by lia.
  apply Z.eqb_eq. apply H, in_seq. lia.
Qed.

(** [y/4 - y/100 + y/400] counts the leap years up to [y]. *)
Lemma leap_count y : 1 <= y ->
  y / 4 - y / 100 + y / 400
  = (y - 1) / 4 - (y - 1) / 100 + (y - 1) / 400 + (if is_leap_year y then 1 else 0).
Proof.
  intros Hy. pose proof (N_step (y - 1) ltac:(lia)) as H. replace (y - 1 + 1) with y in H by lia.
  unfold N, year_length in H. destruct (is_leap_year y); lia.
Qed.

(** The day of the week.  For every valid date [cellRtcGetDayOfWeek] is the number of
    days since 0001-01-01, a Monday, modulo 7, with Sunday as 0. *)
Theorem day_of_week t :
  unsigned t -> check_valid t = CELL_OK ->
  cellRtcGetDayOfWeek (year t) (month t) (day t) = (day_number t + 1) mod 7.
Proof.
  intros Hu Hc. apply (check_valid_iff t Hu) in Hc as Hv. rewrite (day_number_doy t Hv).
  destruct Hv as [Hy Hm Hd _ _ _ _].
  pose proof (month_facts (is_leap_year (year t)) (month t - 1) ltac:(lia)) as (_ & _ & Hl & _).
  change (days_in_month (year t)) with (month_lengths (is_leap_year (year t))) in Hd.
  pose proof (zeller_month (month t) Hm) as Hz. unfold zeller_ok in Hz. apply Z.eqb_eq in Hz.
  pose proof (leap_offset (is_leap_year (year t)) (month t) Hm) as Ho.
  pose proof (leap_count (year t) ltac:(lia)) as Hlc.
  set (y := year t) in *. set (m := month t) in *. set (d := day t) in *.
  set (off := at_index MONTH_OFFSET (m - 1)) in *.
  rewrite Ho. unfold cellRtcGetDayOfWeek, N.
  destruct (Z.leb_spec m 2) as [Hm2|Hm2].
  - assert ((m =? 1) || (m =? 2) = true) as ->
      by (rewrite orb_true_iff, !Z.eqb_eq; lia).
    destruct (Z.leb_spec 3 m); [lia|]. rewrite andb_false_r.
    rewrite (sint_small 32 (y - 1)), (sint_small 32 ((m + 12) * 13 + 8)) by lia.
    rewrite !Z.quot_div_nonneg by lia.
    rewrite (sint_small 32) by (Z.div_mod_to_equations; lia).
    rewrite Z.rem_mod_nonneg by (Z.div_mod_to_equations; lia).
    set (z := ((m + 12) * 13 + 8) / 5) in *.
    Z.div_mod_to_equations. lia.
  - assert ((m =? 1) || (m =? 2) = false) as ->
      by (rewrite orb_false_iff, !Z.eqb_neq; lia).
    destruct (Z.leb_spec 3 m); [|lia]. rewrite andb_true_r.
    rewrite (sint_small 32 (m * 13 + 8)) by lia. rewrite !Z.quot_div_nonneg by lia.
    rewrite (sint_small 32) by (Z.div_mod_to_equations; lia).
    rewrite Z.rem_mod_nonneg by (Z.div_mod_to_equations; lia).
    set (z := (m * 13 + 8) / 5) in *.
    replace (z + y + y / 4 - y / 100 + y / 400 + d) with (z + y + (y / 4 - y / 100 + y / 400) + d) by lia.
    rewrite Hlc. destruct (is_leap_year y); Z.div_mod_to_equations; lia.
Qed.

Lemma day_of_week_witness :
  cellRtcGetDayOfWeek 2024 2 29 = (day_number sample_date + 1) mod 7.
Proof. exact (day_of_week sample_date ltac:(unfold unsigned; cbn; lia) eq_refl). Defined.
