(* ===== verification/RtcMem.v ===== *)
(** * cellRtc on guest memory

    Dates and ticks as objects in memory, and the tick arithmetic functions on memory, by the
    calendar's theorems. *)

From Stdlib Require Import ZArith Lia Bool.
From stdpp Require Import base numbers list gmap.
From S2P Require Import Prelude V128 Bytes GuestMem Rtc RtcConv RtcCalendar.
Open Scope emu_scope.

(** ** Objects *)

Lemma accessible_sub g a n f k m :
  accessible g a n f = true -> (k + m <= n)%nat -> accessible g (a + Z.of_nat k) m f = true.
Proof.
  revert a k. induction n as [|n IH]; intros a k Ha Hk.
  - replace k with 0%nat by lia. replace m with 0%nat by lia. reflexivity.
  - cbn [accessible] in Ha. apply andb_true_iff in Ha as [H0 Ha]. destruct k as [|k].
    + rewrite Z.add_0_r. destruct m as [|m]; [reflexivity|]. cbn [accessible]. rewrite H0. cbn [andb].
      specialize (IH (a + 1) 0%nat). rewrite Z.add_0_r in IH.
      assert (forall n a, accessible g a n f = true -> (m <= n)%nat -> accessible g a m f = true) as Hle.
      { clear. revert m. intros m n. revert m. induction n as [|n IH]; intros m a Ha Hm.
        - replace m with 0%nat by lia. reflexivity.
        - destruct m as [|m]; [reflexivity|]. cbn [accessible] in *. apply andb_true_iff in Ha as [-> Ha].
          apply (IH m); auto. lia. }
      apply (Hle n); auto. lia.
    + replace (a + Z.of_nat (S k)) with (a + 1 + Z.of_nat k) by lia. apply IH; auto. lia.
Qed.

Lemma read_sub g a n k m :
  object g a n -> (k + m <= n)%nat ->
  read m (a + Z.of_nat k) g = Done (be_load (ram g) (a + Z.of_nat k) m) g.
Proof. intros [] H. unfold read. rewrite (accessible_sub g a n); auto. Qed.
Lemma write_sub g a n k m v :
  object g a n -> (k + m <= n)%nat ->
  write m (a + Z.of_nat k) v g = Done tt (with_ram (be_store (ram g) (a + Z.of_nat k) m v) g).
Proof. intros [] H. unfold write. rewrite (accessible_sub g a n); auto. Qed.

(** The same on a memory that differs in its contents. *)
Lemma write_sub_ram g a n k m v r :
  object g a n -> (k + m <= n)%nat ->
  write m (a + Z.of_nat k) v (with_ram r g) = Done tt (with_ram (be_store r (a + Z.of_nat k) m v) g).
Proof. intros Ho H. rewrite (write_sub _ a n) by auto using object_ram. reflexivity. Qed.

(** Fields in the ranges of their types. *)
Definition fields_ok (t : CellRtcDateTime) : Prop :=
  in_range 16 (year t) /\ in_range 16 (month t) /\ in_range 16 (day t) /\ in_range 16 (hour t) /\
  in_range 16 (minute t) /\ in_range 16 (second t) /\ in_range 32 (microsecond t).

Lemma fields_unsigned t : fields_ok t -> unsigned t.
Proof. unfold fields_ok, unsigned, in_range. lia. Qed.
Lemma valid_fields t : valid t -> fields_ok t.
Proof.
  intros []. pose proof (month_facts (is_leap_year (year t)) (month t - 1) ltac:(lia)) as (_ & _ & Hl & _).
  change (days_in_month (year t)) with (month_lengths (is_leap_year (year t))) in *.
  unfold fields_ok, in_range. lia.
Qed.

(** Memory after storing a date. *)
Definition date_ram (m : gmap Z Z) (p : Z) (t : CellRtcDateTime) : gmap Z Z :=
  be_store (be_store (be_store (be_store (be_store (be_store (be_store m p 2 (year t))
    (p + 2) 2 (month t)) (p + 4) 2 (day t)) (p + 6) 2 (hour t)) (p + 8) 2 (minute t))
    (p + 10) 2 (second t)) (p + 12) 4 (microsecond t).

(** The date a memory holds at [p]. *)
Definition date_in (m : gmap Z Z) (p : Z) : CellRtcDateTime :=
  mk_date (be_load m p 2) (be_load m (p + 2) 2) (be_load m (p + 4) 2) (be_load m (p + 6) 2)
    (be_load m (p + 8) 2) (be_load m (p + 10) 2) (be_load m (p + 12) 4).

Lemma bind_done {X Y} (m : M X) (f : X -> M Y) g x g' : m g = Done x g' -> bind m f g = f x g'.
Proof. intros E. unfold bind. rewrite E. reflexivity. Qed.

Lemma read_date_done g p : object g p 16 -> read_date p g = Done (date_in (ram g) p) g.
Proof.
  intros Ho. unfold read_date. replace (read 2 p) with (read 2 (p + Z.of_nat 0)) by (f_equal; lia).
  rewrite (bind_done _ _ _ _ _ (read_sub g p 16 0 2 Ho ltac:(lia))).
  rewrite (bind_done _ _ _ _ _ (read_sub g p 16 2 2 Ho ltac:(lia))).
  rewrite (bind_done _ _ _ _ _ (read_sub g p 16 4 2 Ho ltac:(lia))).
  rewrite (bind_done _ _ _ _ _ (read_sub g p 16 6 2 Ho ltac:(lia))).
  rewrite (bind_done _ _ _ _ _ (read_sub g p 16 8 2 Ho ltac:(lia))).
  rewrite (bind_done _ _ _ _ _ (read_sub g p 16 10 2 Ho ltac:(lia))).
  rewrite (bind_done _ _ _ _ _ (read_sub g p 16 12 4 Ho ltac:(lia))).
  unfold ret, date_in. rewrite Z.add_0_r. reflexivity.
Qed.

Lemma write_date_done g p t :
  object g p 16 -> write_date p t g = Done tt (with_ram (date_ram (ram g) p t) g).
Proof.
  intros Ho. unfold write_date. replace (write 2 p) with (write 2 (p + Z.of_nat 0)) by (f_equal; lia).
  rewrite (bind_done _ _ _ _ _ (write_sub g p 16 0 2 _ Ho ltac:(lia))).
  rewrite (bind_done _ _ _ _ _ (write_sub_ram g p 16 2 2 _ _ Ho ltac:(lia))).
  rewrite (bind_done _ _ _ _ _ (write_sub_ram g p 16 4 2 _ _ Ho ltac:(lia))).
  rewrite (bind_done _ _ _ _ _ (write_sub_ram g p 16 6 2 _ _ Ho ltac:(lia))).
  rewrite (bind_done _ _ _ _ _ (write_sub_ram g p 16 8 2 _ _ Ho ltac:(lia))).
  rewrite (bind_done _ _ _ _ _ (write_sub_ram g p 16 10 2 _ _ Ho ltac:(lia))).
  change (p + 12) with (p + Z.of_nat 12).
  rewrite (write_sub_ram g p 16 12 4) by (auto; lia).
  unfold date_ram. rewrite Z.add_0_r. reflexivity.
Qed.

Lemma date_in_ram m p t : bytes_ok m -> fields_ok t -> date_in (date_ram m p t) p = t.
Proof.
  intros Hm (H1 & H2 & H3 & H4 & H5 & H6 & H7). unfold date_in, date_ram.
  rewrite !(be_load_store_other _ (p + 12)) by lia. rewrite be_load_store by (repeat apply be_store_ok; assumption).
  rewrite !(be_load_store_other _ (p + 10)) by lia. rewrite be_load_store by (repeat apply be_store_ok; assumption).
  rewrite !(be_load_store_other _ (p + 8)) by lia. rewrite be_load_store by (repeat apply be_store_ok; assumption).
  rewrite !(be_load_store_other _ (p + 6)) by lia. rewrite be_load_store by (repeat apply be_store_ok; assumption).
  rewrite !(be_load_store_other _ (p + 4)) by lia. rewrite be_load_store by (repeat apply be_store_ok; assumption).
  rewrite !(be_load_store_other _ (p + 2)) by lia. rewrite be_load_store by (repeat apply be_store_ok; assumption).
  rewrite be_load_store by (repeat apply be_store_ok; assumption). destruct t; reflexivity.
Qed.

(** ** Pointer checks *)

Lemma with_ptr_ok p k g : ok_ptr g p -> with_ptr p k g = k g.
Proof. intros Hp. unfold with_ptr. rewrite (bind_done _ _ _ _ _ Hp). reflexivity. Qed.

(** A guest with one 64 KiB page group at 0x10000, and the stack at 0xD0000000. *)
Definition sample_guest : guest :=
  mk_guest ∅
    (list_to_map (List.map (fun i => (Z.of_nat i, 0xa3)) (List.seq 16 16) ++
                  List.map (fun i => (0xD0000 + Z.of_nat i, 0xa3)) (List.seq 0 16)))
    0xD0000000 0x10000 0xD0008000.
Definition sample_host : SysTime := {|
  host_time := (1700000000, 123456789); host_timezone := (60, 60); timebased_time := 5;
  has_root_perm := true |}.

(** ** Dates in memory *)

Lemma get_tick_done g pd pt :
  object g pd 16 -> object g pt 8 -> bad_year (year (date_in (ram g) pd)) = false ->
  cellRtcGetTick pd pt g =
    Done CELL_OK (with_ram (be_store (ram g) pt 8 (date_time_to_tick (date_in (ram g) pd))) g).
Proof.
  intros Hd Ht Hy. unfold cellRtcGetTick. rewrite !with_ptr_ok by (apply Hd || apply Ht).
  replace (read 2 pd) with (read 2 (pd + Z.of_nat 0)) by (f_equal; lia).
  rewrite (bind_done _ _ _ _ _ (read_sub g pd 16 0 2 Hd ltac:(lia))). rewrite Z.add_0_r.
  change (be_load (ram g) pd 2) with (year (date_in (ram g) pd)). rewrite Hy.
  rewrite (bind_done _ _ _ _ _ (read_date_done g pd Hd)). unfold write_tick.
  rewrite (bind_done _ _ _ _ _ (write_object g pt 8 _ Ht)). reflexivity.
Qed.

Lemma set_tick_done g pd pt t :
  object g pd 16 -> object g pt 8 -> tick_to_date_time (be_load (ram g) pt 8) = Some t ->
  cellRtcSetTick pd pt g = Done CELL_OK (with_ram (date_ram (ram g) pd t) g).
Proof.
  intros Hd Ht E. unfold cellRtcSetTick. rewrite !with_ptr_ok by (apply Hd || apply Ht).
  unfold read_tick. rewrite (bind_done _ _ _ _ _ (read_object g pt 8 Ht)). rewrite E.
  rewrite (bind_done _ _ _ t g eq_refl). rewrite (bind_done _ _ _ _ _ (write_date_done g pd t Hd)).
  reflexivity.
Qed.

Lemma valid_year t : valid t -> bad_year (year t) = false.
Proof.
  intros []. unfold bad_year. destruct (Z.leb_spec 10000 (year t)), (Z.eqb_spec (year t) 0); auto; lia.
Qed.

(** [cellRtcSetTick] and [cellRtcGetTick] on guest memory.  A tick before the year
    10000 at [pt] becomes a valid date at [pd], and reading that date back with
    [cellRtcGetTick] stores the same tick at [pt2]. *)
Theorem set_get_tick g pd pt pt2 :
  bytes_ok (ram g) -> object g pd 16 -> object g pt 8 -> object g pt2 8 ->
  be_load (ram g) pt 8 < TICK_END ->
  exists t g1 g2, cellRtcSetTick pd pt g = Done CELL_OK g1 /\ date_in (ram g1) pd = t /\
    check_valid t = CELL_OK /\
    cellRtcGetTick pd pt2 g1 = Done CELL_OK g2 /\ be_load (ram g2) pt2 8 = be_load (ram g) pt 8.
Proof.
  intros Hm Hd Ht Ht2 Hb.
  pose proof (be_load_range (ram g) pt 8 Hm) as Hr. unfold in_range in Hr.
  destruct (tick_date_tick_core (be_load (ram g) pt 8) ltac:(lia)) as (t & E & Hv & Eb).
  pose proof (valid_fields t Hv) as Hf.
  exists t. eexists. eexists. split; [apply set_tick_done; eauto|].
  split; [apply date_in_ram; auto|]. split; [apply check_valid_iff; auto using fields_unsigned|].
  split.
  - rewrite get_tick_done; [reflexivity|apply object_ram; auto..|].
    cbn [ram with_ram]. rewrite date_in_ram by auto. apply valid_year, Hv.
  - cbn [ram with_ram]. rewrite date_in_ram by auto. rewrite Eb. apply be_load_store.
    + unfold date_ram. repeat apply be_store_ok. exact Hm.
    + exact Hr.
Qed.

(** Objects of the sample guest. *)
Lemma sample_object a n :
  bad_ptr a sample_guest = Done false sample_guest ->
  accessible sample_guest a n page_readable = true ->
  accessible sample_guest a n page_writable = true -> object sample_guest a n.
Proof. intros. split; assumption. Qed.
Ltac sample_obj := apply sample_object; vm_compute; reflexivity.

Lemma set_get_tick_witness :
  exists t g1 g2, cellRtcSetTick 0x10000 0x10020 sample_guest = Done CELL_OK g1 /\
    date_in (ram g1) 0x10000 = t /\ cellRtcGetTick 0x10000 0x10030 g1 = Done CELL_OK g2.
Proof.
  destruct (set_get_tick sample_guest 0x10000 0x10020 0x10030) as (t & g1 & g2 & E1 & E2 & _ & E3 & _).
  - apply map_Forall_empty.
  - sample_obj.
  - sample_obj.
  - sample_obj.
  - vm_compute. reflexivity.
  - exists t, g1, g2. auto.
Defined.

(** ** Tick arithmetic *)

Lemma tick_add_done g p0 p1 amount :
  object g p0 8 -> object g p1 8 ->
  tick_add p0 p1 amount g
    = Done CELL_OK (with_ram (be_store (ram g) p0 8 (u64 (be_load (ram g) p1 8 + amount))) g).
Proof.
  intros H0 H1. unfold tick_add. rewrite !with_ptr_ok by (apply H0 || apply H1).
  unfold read_tick, write_tick. rewrite (bind_done _ _ _ _ _ (read_object g p1 8 H1)).
  rewrite (bind_done _ _ _ _ _ (write_object g p0 8 _ H0)). reflexivity.
Qed.

Section LocalTime.
Context `{SysTime}.

(** Local time.  Converting a UTC tick to local time at [pl] and that to UTC again at
    [pu2] gives the tick back, whatever the host's time zone and summer time, also where
    64-bit ticks wrap; the pointers may coincide. *)
Theorem local_time_roundtrip g pu pl pu2 :
  bytes_ok (ram g) -> object g pu 8 -> object g pl 8 -> object g pu2 8 ->
  s32 (fst host_timezone + snd host_timezone) <> - 2 ^ 31 ->
  exists g1 g2, cellRtcConvertUtcToLocalTime pu pl g = Done CELL_OK g1 /\
    cellRtcConvertLocalTimeToUtc pl pu2 g1 = Done CELL_OK g2 /\
    be_load (ram g2) pu2 8 = be_load (ram g) pu 8.
Proof.
  intros Hm Hu Hl Hu2 Hz. pose proof (be_load_range (ram g) pu 8 Hm) as Hr.
  pose proof (sint_range 32 (fst host_timezone + snd host_timezone) ltac:(lia)) as Hzr.
  unfold cellRtcConvertUtcToLocalTime, cellRtcConvertLocalTimeToUtc, sys_time_get_timezone.
  change (-1 <? CELL_OK) with true. cbn match. unfold cellRtcTickAddMinutes.
  eexists. eexists. split; [apply tick_add_done; auto|].
  split; [apply tick_add_done; auto using object_ram|]. cbn [ram with_ram].
  set (z := s32 (fst host_timezone + snd host_timezone)) in *.
  rewrite (sint_small 32 (- z)) by lia.
  set (x := be_load (ram g) pu 8) in *.
  rewrite be_load_store; [|apply be_store_ok, be_store_ok; exact Hm|apply (wrap_range 64); lia].
  rewrite (be_load_store (ram g) pl 8); [|apply be_store_ok; exact Hm|apply (wrap_range 64); lia].
  rewrite wrap_add_l. replace (x + z * 60 * cellRtcGetTickResolution + - z * 60 * cellRtcGetTickResolution) with x by lia.
  apply wrap_small, Hr.
Qed.
End LocalTime.

Lemma local_time_roundtrip_witness :
  exists g1 g2, @cellRtcConvertUtcToLocalTime sample_host 0x10000 0x10010 sample_guest = Done CELL_OK g1 /\
    @cellRtcConvertLocalTimeToUtc sample_host 0x10010 0x10000 g1 = Done CELL_OK g2.
Proof.
  destruct (@local_time_roundtrip sample_host sample_guest 0x10000 0x10010 0x10000) as (g1 & g2 & A & B & _).
  - apply map_Forall_empty.
  - sample_obj.
  - sample_obj.
  - sample_obj.
  - vm_compute. discriminate.
  - exists g1, g2. auto.
Defined.

(** ** Months and years *)

(** The date [k] months later in exact arithmetic: the month counted from year 0, the
    day limited to the length of that month. *)
Definition months_later (t : CellRtcDateTime) (k : Z) : CellRtcDateTime :=
  let n := year t * 12 + (month t - 1) + k in
  let y := n / 12 in
  let m := n mod 12 + 1 in
  mk_date y m (Z.min (day t) (at_index (days_in_month y) (m - 1)))
    (hour t) (minute t) (second t) (microsecond t).

Lemma clamp_day_min y m d :
  1 <= y <= 9999 -> 1 <= m <= 12 -> 1 <= d ->
  clamp_day y m d = Z.min d (at_index (days_in_month y) (m - 1)).
Proof.
  intros Hy Hm Hd. unfold clamp_day.
  pose proof (month_facts (is_leap_year y) (m - 1) ltac:(lia)) as (_ & _ & Hl & _).
  assert (((y =? 0) || (m <? 1) || (12 <? m)) = false) as ->
    by (rewrite !orb_false_iff, Z.eqb_neq, !Z.ltb_ge; lia).
  replace (if is_leap_year y then at_index DAYS_IN_MONTH_LEAP (m - 1) else at_index DAYS_IN_MONTH (m - 1))
    with (at_index (days_in_month y) (m - 1)) by (unfold days_in_month; destruct (is_leap_year y); reflexivity).
  change (days_in_month y) with (month_lengths (is_leap_year y)).
  destruct (Z.ltb_spec (at_index (month_lengths (is_leap_year y)) (m - 1)) d); [|lia].
  rewrite wrap_small by (unfold in_range; lia). lia.
Qed.

Lemma add_months_later t k :
  valid t -> 1 <= (year t * 12 + (month t - 1) + k) / 12 <= 9999 ->
  add_months t k = months_later t k.
Proof.
  intros [Hy Hm Hd _ _ _ _] Hn. unfold add_months, months_later.
  replace (year t * 12 + month t + k - 1) with (year t * 12 + (month t - 1) + k) by lia.
  set (n := year t * 12 + (month t - 1) + k) in *.
  assert (12 <= n < 120000) by (Z.div_mod_to_equations; lia).
  rewrite (sint_small 32 n) by lia. rewrite Z.quot_div_nonneg by lia.
  rewrite (wrap_small 16 (n / 12)) by (unfold in_range; lia).
  pose proof (Z.mod_pos_bound n 12 ltac:(lia)).
  replace (n - n / 12 * 12 + 1) with (n mod 12 + 1) by (Z.div_mod_to_equations; lia).
  rewrite (wrap_small 16 (n mod 12 + 1)) by (unfold in_range; lia).
  rewrite clamp_day_min by lia. reflexivity.
Qed.

Lemma months_later_valid t k :
  valid t -> 1 <= (year t * 12 + (month t - 1) + k) / 12 <= 9999 -> valid (months_later t k).
Proof.
  intros [Hy Hm Hd Hh Hmi Hs Hu] Hn. unfold months_later.
  set (n := year t * 12 + (month t - 1) + k) in *.
  pose proof (Z.mod_pos_bound n 12 ltac:(lia)).
  pose proof (month_facts (is_leap_year (n / 12)) (n mod 12) ltac:(lia)) as (_ & _ & Hl & _).
  constructor; cbn [year month day hour minute second microsecond]; auto; try lia.
  replace (n mod 12 + 1 - 1) with (n mod 12) by lia.
  change (days_in_month (n / 12)) with (month_lengths (is_leap_year (n / 12))). lia.
Qed.

(** The year is the month count shifted by twelve per year. *)
Lemma add_years_later t k :
  valid t -> 1 <= year t + k <= 9999 -> add_years t k = months_later t (12 * k).
Proof.
  intros [Hy Hm Hd _ _ _ _] Hn. unfold add_years, months_later.
  replace (year t * 12 + (month t - 1) + 12 * k) with ((month t - 1) + (year t + k) * 12) by lia.
  rewrite Z.div_add, (Z.div_small (month t - 1)), Z.mod_add, (Z.mod_small (month t - 1)) by lia.
  rewrite Z.add_0_l, (wrap_small 16) by (unfold in_range; lia).
  rewrite clamp_day_min by lia. replace (month t - 1 + 1) with (month t) by lia. reflexivity.
Qed.

Lemma get_tick_local_done g p t :
  object g p 8 -> valid t ->
  cellRtcGetTick_local t p g = Done CELL_OK (with_ram (be_store (ram g) p 8 (date_time_to_tick t)) g).
Proof.
  intros Hp Hv. unfold cellRtcGetTick_local. rewrite with_ptr_ok by apply Hp.
  rewrite valid_year by exact Hv. unfold write_tick.
  rewrite (bind_done _ _ _ _ _ (write_object g p 8 _ Hp)). reflexivity.
Qed.

(** Storing a valid date and reading the tick as a date. *)
Lemma stored_date g p t :
  bytes_ok (ram g) -> valid t ->
  tick_to_date_time (be_load (be_store (ram g) p 8 (date_time_to_tick t)) p 8) = Some t.
Proof.
  intros Hm Hv. destruct (date_tick_date_core t Hv) as (_ & Hr & E).
  rewrite be_load_store; [exact E|apply be_store_ok; exact Hm|].
  unfold in_range, TICK_END, us_per_day in *. cbn. lia.
Qed.

(** Adding months and years.  From the tick of the date [t], [cellRtcTickAddMonths]
    stores the tick of the date whose month is [k] months later and whose day is the same,
    limited to the length of that month, and [cellRtcTickAddYears] of the one [k] years
    later, for all results from year 1 to 9999; both are valid dates. *)
Theorem add_months_years g p0 p1 t k :
  bytes_ok (ram g) -> object g p0 8 -> object g p1 8 ->
  valid t -> tick_to_date_time (be_load (ram g) p1 8) = Some t ->
  (1 <= (year t * 12 + (month t - 1) + k) / 12 <= 9999 ->
   valid (months_later t k) /\
   exists g', cellRtcTickAddMonths p0 p1 k g = Done CELL_OK g' /\
     tick_to_date_time (be_load (ram g') p0 8) = Some (months_later t k)) /\
  (1 <= year t + k <= 9999 ->
   valid (months_later t (12 * k)) /\
   exists g', cellRtcTickAddYears p0 p1 k g = Done CELL_OK g' /\
     tick_to_date_time (be_load (ram g') p0 8) = Some (months_later t (12 * k))).
Proof.
  intros Hm H0 H1 Hv E. split; intros Hk.
  - pose proof (months_later_valid t k Hv Hk) as Hv'. split; [exact Hv'|].
    exists (with_ram (be_store (ram g) p0 8 (date_time_to_tick (months_later t k))) g).
    split; [|cbn [ram with_ram]; apply stored_date; [exact Hm|exact Hv']].
    unfold cellRtcTickAddMonths. rewrite !with_ptr_ok by (apply H0 || apply H1). unfold read_tick.
    rewrite (bind_done _ _ _ _ _ (read_object g p1 8 H1)), E, (bind_done _ _ _ t g eq_refl).
    rewrite add_months_later by auto.
    rewrite (bind_done _ _ _ _ _ (get_tick_local_done g p0 _ H0 Hv')). reflexivity.
  - assert (1 <= (year t * 12 + (month t - 1) + 12 * k) / 12 <= 9999) as Hk'.
    { replace (year t * 12 + (month t - 1) + 12 * k) with ((month t - 1) + (year t + k) * 12) by lia.
      destruct Hv. rewrite Z.div_add, (Z.div_small (month t - 1)) by lia. lia. }
    pose proof (months_later_valid t (12 * k) Hv Hk') as Hv'. split; [exact Hv'|].
    exists (with_ram (be_store (ram g) p0 8 (date_time_to_tick (months_later t (12 * k)))) g).
    split; [|cbn [ram with_ram]; apply stored_date; [exact Hm|exact Hv']].
    unfold cellRtcTickAddYears. rewrite !with_ptr_ok by (apply H0 || apply H1). unfold read_tick.
    rewrite (bind_done _ _ _ _ _ (read_object g p1 8 H1)), E, (bind_done _ _ _ t g eq_refl).
    rewrite add_years_later by auto.
    rewrite (bind_done _ _ _ _ _ (get_tick_local_done g p0 _ H0 Hv')). reflexivity.
Qed.

Lemma add_months_years_witness :
  exists g', cellRtcTickAddMonths 0x10000 0x10010 13 sample_guest = Done CELL_OK g' /\
    tick_to_date_time (be_load (ram g') 0x10000 8) = Some (mk_date 2 2 1 0 0 0 0).
Proof.
  refine (proj2 (proj1 (add_months_years sample_guest 0x10000 0x10010 (mk_date 1 1 1 0 0 0 0) 13 _ _ _ _ _) _)).
  - apply map_Forall_empty.
  - sample_obj.
  - sample_obj.
  - constructor; vm_compute; split; congruence.
  - vm_compute. reflexivity.
  - vm_compute. split; congruence.
Defined.

(** ** DOS time *)

Lemma land_ones_small x n : 0 <= n -> in_range n x -> Z.land x (Z.ones n) = x.
Proof. intros. rewrite Z.land_ones by lia. apply wrap_small. auto. Qed.

(** A bit of the 32-bit signed reading below bit 32. *)
Lemma testbit_s32 x j : 0 <= j < 32 -> Z.testbit (s32 x) j = Z.testbit x j.
Proof.
  intros Hj. rewrite <- (Z.mod_pow2_bits_low (s32 x) 32), <- (Z.mod_pow2_bits_low x 32) by lia.
  fold (u32 (s32 x)) (u32 x). rewrite wrap_sint by lia. reflexivity.
Qed.

(** Two half words side by side: the signed intermediate value does not show. *)
Lemma pack_halves h l :
  in_range 16 h -> in_range 16 l -> u32 (Z.lor (s32 (Z.shiftl h 16)) l) = h * 2 ^ 16 + l.
Proof.
  intros Hh Hl. rewrite <- lor_shiftl_small by (unfold in_range in *; lia).
  apply Z.bits_inj'. intros k Hk. rewrite testbit_wrap, !Z.lor_spec by lia.
  destruct (Z.ltb_spec k 32); cbn [andb]; [rewrite testbit_s32 by lia; reflexivity|].
  rewrite testbit_shiftl, (testbit_high 16 h), (testbit_high 16 l) by (auto; lia).
  rewrite andb_false_r. reflexivity.
Qed.

(** Three fields packed next to one another. *)
Lemma pack_fields a b c i j :
  0 <= j <= i -> 0 <= a -> 0 <= b < 2 ^ (i - j) -> 0 <= c < 2 ^ j ->
  Z.lor (Z.lor (Z.shiftl a i) (Z.shiftl b j)) c = a * 2 ^ i + b * 2 ^ j + c.
Proof.
  intros Hij Ha Hb Hc. rewrite <- Z.lor_assoc, (lor_shiftl_small b j) by lia.
  assert (0 <= b * 2 ^ j + c < 2 ^ i).
  { split; [nia|]. replace (2 ^ i) with (2 ^ (i - j) * 2 ^ j) by (rewrite <- Z.pow_add_r by lia; f_equal; lia). nia. }
  rewrite lor_shiftl_small by lia. lia.
Qed.

(** The packed fields as a sum. *)
Lemma dos_time_sum t :
  valid t -> 1980 <= year t < 2108 ->
  dos_time t = (((year t - 1980) * 2 ^ 9 + month t * 2 ^ 5 + day t) * 2 ^ 16
                + (hour t * 2 ^ 11 + minute t * 2 ^ 5 + second t / 2)).
Proof.
  intros [Hy Hm Hd Hh Hmi Hs _] Hr.
  pose proof (month_facts (is_leap_year (year t)) (month t - 1) ltac:(lia)) as (_ & _ & Hl & _).
  change (days_in_month (year t)) with (month_lengths (is_leap_year (year t))) in Hd.
  assert (0 <= second t / 2 < 30) by (split; [apply Z.div_pos|apply Z.div_lt_upper_bound]; lia).
  assert (forall n x, 0 <= n -> 0 <= x < 2 ^ n -> Z.land x (Z.ones n) = x) as Hland.
  { intros. apply land_ones_small; auto. }
  unfold dos_time. change 0x7F with (Z.ones 7). change 0xF with (Z.ones 4). change 0x1F with (Z.ones 5).
  change 0x3F with (Z.ones 6). rewrite Z.shiftr_div_pow2 by lia. change (2 ^ 1) with 2.
  rewrite (Hland 7 (year t - 1980)), (Hland 4 (month t)), (Hland 5 (day t)), (Hland 5 (hour t)),
    (Hland 6 (minute t)), (Hland 5 (second t / 2)) by lia.
  rewrite !pack_fields by lia. apply pack_halves; unfold in_range; lia.
Qed.

(** DOS time.  A valid date of 1980 to 2107 packs into 32 bits and unpacks to the same
    date with the seconds rounded down to even and no microseconds. *)
Theorem dos_roundtrip t :
  valid t -> 1980 <= year t < 2108 ->
  in_range 32 (dos_time t) /\
  date_of_dos (dos_time t) = mk_date (year t) (month t) (day t) (hour t) (minute t) (second t / 2 * 2) 0.
Proof.
  intros Hv Hr. rewrite (dos_time_sum t Hv Hr). destruct Hv as [Hy Hm Hd Hh Hmi Hs _].
  pose proof (month_facts (is_leap_year (year t)) (month t - 1) ltac:(lia)) as (_ & _ & Hl & _).
  change (days_in_month (year t)) with (month_lengths (is_leap_year (year t))) in Hd.
  assert (0 <= second t / 2 < 30) by (split; [apply Z.div_pos|apply Z.div_lt_upper_bound]; lia). set (s2 := second t / 2) in *.
  set (ymd := (year t - 1980) * 2 ^ 9 + month t * 2 ^ 5 + day t).
  set (hms := hour t * 2 ^ 11 + minute t * 2 ^ 5 + s2).
  assert (0 <= ymd < 2 ^ 16) by (unfold ymd; lia). assert (0 <= hms < 2 ^ 16) by (unfold hms; lia).
  split; [unfold in_range; lia|]. unfold date_of_dos.
  change 0xffff with (Z.ones 16). change 0xf with (Z.ones 4). change 0x1f with (Z.ones 5).
  change 0x3f with (Z.ones 6). rewrite !Z.land_ones, !Z.shiftr_div_pow2 by lia.
  replace ((ymd * 2 ^ 16 + hms) mod 2 ^ 16) with hms by (apply (Z.mod_unique _ _ ymd); lia).
  replace ((ymd * 2 ^ 16 + hms) / 2 ^ 16) with ymd by (apply (Z.div_unique _ _ _ hms); lia).
  change 0x3e with (Z.shiftl (Z.ones 5) 1).
  assert (Z.land (Z.shiftl hms 1) (Z.shiftl (Z.ones 5) 1) = hms mod 2 ^ 5 * 2) as ->.
  { rewrite <- Z.shiftl_land, Z.land_ones, Z.shiftl_mul_pow2 by lia. reflexivity. }
  replace (ymd / 2 ^ 9) with (year t - 1980)
    by (apply (Z.div_unique _ _ _ (month t * 2 ^ 5 + day t)); unfold ymd; lia).
  replace (ymd / 2 ^ 5) with ((year t - 1980) * 2 ^ 4 + month t)
    by (apply (Z.div_unique _ _ _ (day t)); unfold ymd; lia).
  replace (hms / 2 ^ 11) with (hour t)
    by (apply (Z.div_unique _ _ _ (minute t * 2 ^ 5 + s2)); unfold hms; lia).
  replace (hms / 2 ^ 5) with (hour t * 2 ^ 6 + minute t)
    by (apply (Z.div_unique _ _ _ s2); unfold hms; lia).
  replace (((year t - 1980) * 2 ^ 4 + month t) mod 2 ^ 4) with (month t)
    by (apply (Z.mod_unique _ _ (year t - 1980)); lia).
  replace (ymd mod 2 ^ 5) with (day t)
    by (apply (Z.mod_unique _ _ ((year t - 1980) * 2 ^ 4 + month t)); unfold ymd; lia).
  replace ((hour t * 2 ^ 6 + minute t) mod 2 ^ 6) with (minute t) by (apply (Z.mod_unique _ _ (hour t)); lia).
  replace (hms mod 2 ^ 5) with s2 by (apply (Z.mod_unique _ _ (hour t * 2 ^ 6 + minute t)); unfold hms; lia).
  f_equal; lia.
Qed.

Lemma dos_roundtrip_witness :
  date_of_dos (dos_time sample_date) = mk_date 2024 2 29 23 59 58 0.
Proof.
  refine (proj2 (dos_roundtrip sample_date _ _)).
  - constructor; vm_compute; split; congruence.
  - cbn. lia.
Defined.
