(* ===== verification/RtcRound.v ===== *)
(** * Round trips of text and time stamps

    Strings in guest memory, the decimal fields of the formatter as the parser reads them,
    and the round trip of cellRtcFormatRfc3339 and the parsers; then the round trips of
    [time_t], system time and Win32 file time. *)

From Stdlib Require Import ZArith Lia Bool.
From stdpp Require Import base numbers list gmap.
From S2P Require Import Prelude V128 Bytes GuestMem Rtc RtcConv RtcCalendar RtcMem RtcText.
Open Scope emu_scope.

(** ** Strings in memory *)

Fixpoint store_chars (m : gmap Z Z) (p : Z) (cs : list Z) : gmap Z Z :=
  match cs with
  | [] => m
  | c :: cs => store_chars (be_store m p 1 c) (p + 1) cs
  end.

Lemma store_chars_ok m p cs : bytes_ok m -> bytes_ok (store_chars m p cs).
Proof. revert m p. induction cs as [|c cs IH]; intros m p Hm; cbn [store_chars]; [exact Hm|]. apply IH, be_store_ok, Hm. Qed.

Lemma store_chars_before m p cs b : b < p -> be_load (store_chars m p cs) b 1 = be_load m b 1.
Proof.
  revert m p. induction cs as [|c cs IH]; intros m p Hb; cbn [store_chars]; [reflexivity|].
  rewrite IH by lia. apply be_load_store_other. lia.
Qed.

Lemma store_chars_read m p cs k c :
  bytes_ok m -> Forall (in_range 8) cs -> cs !! k = Some c ->
  be_load (store_chars m p cs) (p + Z.of_nat k) 1 = c.
Proof.
  revert m p k. induction cs as [|d cs IH]; intros m p k Hm Hc E; [discriminate|].
  apply Forall_cons in Hc as [Hd Hc]. cbn [store_chars]. destruct k as [|k]; cbn in E.
  - injection E as ->. rewrite Z.add_0_r, store_chars_before by lia. apply be_load_store; [apply be_store_ok; exact Hm|exact Hd].
  - replace (p + Z.of_nat (S k)) with (p + 1 + Z.of_nat k) by lia. apply IH; auto using be_store_ok.
Qed.

Lemma write_chars_done g p n k cs :
  object g p n -> (k + length cs <= n)%nat ->
  forall r, write_chars (p + Z.of_nat k) cs (with_ram r g) = Done tt (with_ram (store_chars r (p + Z.of_nat k) cs) g).
Proof.
  intros Ho. revert k. induction cs as [|c cs IH]; intros k Hk r; cbn [write_chars store_chars length] in *; [reflexivity|].
  rewrite (bind_done _ _ _ _ _ (write_sub_ram g p n k 1 c r Ho ltac:(lia))).
  replace (p + Z.of_nat k + 1) with (p + Z.of_nat (S k)) by lia. apply IH. lia.
Qed.

(** The characters a reader of the string at [psz] finds. *)
Definition text (g : guest) (psz : Z) (cs : list Z) : Prop :=
  forall k c, cs !! k = Some c -> peek psz (Z.of_nat k) g = Done c g.

Lemma text_stored g psz n cs :
  object g psz n -> bytes_ok (ram g) -> Forall (in_range 8) cs -> (length cs <= n)%nat ->
  0 <= psz -> psz + Z.of_nat n <= 2 ^ 32 ->
  text (with_ram (store_chars (ram g) psz cs) g) psz cs.
Proof.
  intros Ho Hm Hc Hn H0 H1 k c E. pose proof (lookup_lt_Some _ _ _ E). unfold peek.
  rewrite wrap_small by (unfold in_range; lia).
  rewrite (read_sub _ psz n) by (try apply object_ram; auto; lia). cbn [ram with_ram].
  rewrite (store_chars_read (ram g) psz cs k c) by auto. reflexivity.
Qed.

(** ** Decimal fields *)

Lemma ascii_digit d : 0 <= d <= 9 -> isdigit (ascii_of d) = true /\ digit (ascii_of d) = d.
Proof.
  intros Hd. unfold ascii_of, isdigit, digit. rewrite wrap_small by (unfold in_range; lia).
  split; [|rewrite sint_small by lia; lia]. rewrite andb_true_iff, !Z.leb_le. lia.
Qed.

Lemma ascii_range n : in_range 8 (ascii_of n).
Proof. apply wrap_range. lia. Qed.

Section Text.
Context (g : guest) (psz : Z) (cs : list Z) (Htext : text g psz cs).

Lemma peek_at k c : 0 <= k -> cs !! Z.to_nat k = Some c -> peek psz k g = Done c g.
Proof using Htext. intros Hk E. rewrite <- (Z2Nat.id k) at 1 by lia. apply Htext. exact E. Qed.

(** [n] decimal digits from position [k]. *)
Lemma digits_text (ds : list Z) k :
  0 <= k -> Forall (fun d => 0 <= d <= 9) ds ->
  (forall j d, ds !! j = Some d -> cs !! (Z.to_nat k + j)%nat = Some (ascii_of d)) ->
  digits_at psz k (length ds) g = Done true g.
Proof using Htext.
  revert k. induction ds as [|d ds IH]; intros k Hk Hd E; [reflexivity|]. cbn [length digits_at].
  apply Forall_cons in Hd as [Hd0 Hd]. pose proof (E 0%nat d eq_refl) as E0. rewrite Nat.add_0_r in E0.
  rewrite (bind_done _ _ _ _ _ (peek_at k _ Hk E0)). rewrite (proj1 (ascii_digit d Hd0)).
  apply IH; [lia|exact Hd|]. intros j d' Hj. replace (Z.to_nat (k + 1) + j)%nat with (Z.to_nat k + S j)%nat by lia.
  apply E. exact Hj.
Qed.

Lemma field2_text n k :
  0 <= n < 100 -> 0 <= k < 100 ->
  cs !! Z.to_nat k = Some (ascii_of (n / 10)) -> cs !! Z.to_nat (k + 1) = Some (ascii_of (n mod 10)) ->
  digits_at psz k 2 g = Done true g /\ number2 psz k g = Done n g /\ field2 psz k g = Done n g.
Proof using Htext.
  intros Hn Hk E1 E2.
  assert (0 <= n / 10 <= 9 /\ 0 <= n mod 10 <= 9) as [H1 H2] by (Z.div_mod_to_equations; lia).
  assert (digits_at psz k 2 g = Done true g) as Hd.
  { apply (digits_text [n / 10; n mod 10]); [lia|repeat constructor; lia|].
    intros [|[|j]] d Hj; cbn in Hj; try discriminate; injection Hj as <-.
    - rewrite Nat.add_0_r. exact E1.
    - replace (Z.to_nat k + 1)%nat with (Z.to_nat (k + 1)) by lia. exact E2. }
  assert (number2 psz k g = Done n g) as Hn2.
  { unfold number2. rewrite (bind_done _ _ _ _ _ (peek_at k _ ltac:(lia) E1)).
    rewrite (wrap_small 32 (k + 1)) by (unfold in_range; lia).
    rewrite (bind_done _ _ _ _ _ (peek_at (k + 1) _ ltac:(lia) E2)). unfold ret. f_equal.
    rewrite (proj2 (ascii_digit _ H1)), (proj2 (ascii_digit _ H2)). pose proof (Z.div_mod n 10). lia. }
  split; [exact Hd|]. split; [exact Hn2|]. unfold field2. rewrite (bind_done _ _ _ _ _ Hd). exact Hn2.
Qed.

Lemma number4_text n :
  0 <= n < 10000 ->
  cs !! 0%nat = Some (ascii_of (n / 1000)) -> cs !! 1%nat = Some (ascii_of (n / 100 mod 10)) ->
  cs !! 2%nat = Some (ascii_of (n / 10 mod 10)) -> cs !! 3%nat = Some (ascii_of (n mod 10)) ->
  digits_at psz 0 4 g = Done true g /\ number4 psz 0 g = Done n g.
Proof using Htext.
  intros Hn E0 E1 E2 E3.
  assert (0 <= n / 1000 <= 9 /\ 0 <= n / 100 mod 10 <= 9 /\ 0 <= n / 10 mod 10 <= 9 /\ 0 <= n mod 10 <= 9)
    as (H0 & H1 & H2 & H3).
  { split; [split; [apply Z.div_pos|apply Z.lt_succ_r, Z.div_lt_upper_bound]; lia|].
    pose proof (Z.mod_pos_bound (n / 100) 10). pose proof (Z.mod_pos_bound (n / 10) 10). pose proof (Z.mod_pos_bound n 10). lia. }
  split.
  - apply (digits_text [n / 1000; n / 100 mod 10; n / 10 mod 10; n mod 10]); [lia|repeat constructor; lia|].
    intros [|[|[|[|j]]]] d Hj; cbn in Hj; try discriminate; injection Hj as <-; assumption.
  - unfold number4. rewrite (bind_done _ _ _ _ _ (peek_at 0 _ ltac:(lia) E0)).
    rewrite (bind_done _ _ _ _ _ (peek_at 1 _ ltac:(lia) E1)), (bind_done _ _ _ _ _ (peek_at 2 _ ltac:(lia) E2)),
      (bind_done _ _ _ _ _ (peek_at 3 _ ltac:(lia) E3)). unfold ret. f_equal.
    rewrite (proj2 (ascii_digit _ H0)), (proj2 (ascii_digit _ H1)), (proj2 (ascii_digit _ H2)), (proj2 (ascii_digit _ H3)).
    replace (n / 1000) with (n / 10 / 10 / 10) by (rewrite !Z.div_div by lia; reflexivity).
    replace (n / 100) with (n / 10 / 10) by (rewrite Z.div_div by lia; reflexivity).
    pose proof (Z.div_mod n 10). pose proof (Z.div_mod (n / 10) 10). pose proof (Z.div_mod (n / 10 / 10) 10). lia.
Qed.
End Text.

(** ** The parser on the formatter's text *)

Lemma zone_fields a : 0 <= a <= 5999 -> zone_hours a = a / 60 /\ zone_minutes a = a mod 60.
Proof.
  intros Ha. assert (0 <= a / 60 <= 99) by (split; [apply Z.div_pos|apply Z.lt_succ_r, Z.div_lt_upper_bound]; lia).
  unfold zone_hours, zone_minutes. rewrite Z.quot_div_nonneg, !Z.rem_mod_nonneg by lia.
  pose proof (Z.mod_pos_bound a 60). rewrite (Z.mod_small (a / 60)) by lia.
  rewrite !wrap_small by (unfold in_range; lia). auto.
Qed.

Section Parse.
Context (g : guest) (psz : Z) (t : CellRtcDateTime) (tz : Z).
Context (Hv : valid t) (Htz : - 5999 <= tz <= 5999) (Htext : text g psz (rfc3339_chars t tz)).

Lemma day_two : 1 <= day t < 100.
Proof using Hv.
  clear Htz Htext. destruct Hv as [_ Hm Hd _ _ _ _].
  pose proof (month_facts (is_leap_year (year t)) (month t - 1) ltac:(lia)) as (_ & _ & Hl & _).
  change (days_in_month (year t)) with (month_lengths (is_leap_year (year t))) in Hd. lia.
Qed.

Lemma fraction_text f :
  fraction (S (S (S f))) psz 20 0 100000 g = Done (microsecond t / 10000 * 10000, 22) g.
Proof using Hv Htext.
  clear Htz. destruct Hv as [_ _ _ _ _ _ Hu]. set (us := microsecond t) in *.
  assert (0 <= us / 100000 <= 9) as H1 by (split; [apply Z.div_pos|apply Z.lt_succ_r, Z.div_lt_upper_bound]; lia).
  assert (0 <= us / 10000 mod 10 <= 9) as H2 by (pose proof (Z.mod_pos_bound (us / 10000) 10); lia).
  assert (exists c, rfc3339_chars t tz !! 22%nat = Some c /\ isdigit c = false) as (c & Ec & Hc).
  { unfold rfc3339_chars. destruct (tz =? 0), (tz <? 0); eexists; split; reflexivity. }
  cbn [fraction]. rewrite (bind_done _ _ _ _ _ (peek_at g psz _ Htext 20 (ascii_of (us / 100000)) ltac:(lia) eq_refl)).
  rewrite (proj1 (ascii_digit _ H1)), (proj2 (ascii_digit _ H1)). change (u32 (20 + 1)) with 21.
  rewrite (bind_done _ _ _ _ _ (peek_at g psz _ Htext 21 (ascii_of (us / 10000 mod 10)) ltac:(lia) eq_refl)).
  rewrite (proj1 (ascii_digit _ H2)), (proj2 (ascii_digit _ H2)). change (u32 (21 + 1)) with 22.
  rewrite (bind_done _ _ _ _ _ (peek_at g psz _ Htext 22 c ltac:(lia) Ec)). rewrite Hc. unfold ret. do 2 f_equal.
  change (100000 / 10) with 10000. replace (us / 100000) with (us / 10000 / 10) by (rewrite Z.div_div by lia; reflexivity).
  pose proof (Z.div_mod (us / 10000) 10). assert (us / 10000 < 100) by (apply Z.div_lt_upper_bound; lia).
  assert (0 <= us / 10000) by (apply Z.div_pos; lia).
  rewrite !wrap_small; try (unfold in_range; lia). unfold in_range. rewrite wrap_small; unfold in_range; lia.
Qed.

Lemma offset_text : rfc3339_offset psz 22 g = Done (Some (- tz)) g.
Proof using Htz Htext.
  unfold rfc3339_offset. destruct (Z.eqb_spec tz 0) as [->|Hne].
  - rewrite (bind_done _ _ _ _ _ (peek_at g psz _ Htext 22 90 ltac:(lia) eq_refl)). reflexivity.
  - set (a := if tz <? 0 then s32 (- tz) else tz).
    assert (0 < a <= 5999 /\ a = Z.abs tz) as [Ha Ea].
    { unfold a. destruct (Z.ltb_spec tz 0); [rewrite sint_small by lia|]; lia. }
    destruct (zone_fields a ltac:(lia)) as [Eh Em]. pose proof (Z.mod_pos_bound a 60).
    assert (0 <= a / 60 <= 99) by (split; [apply Z.div_pos|apply Z.lt_succ_r, Z.div_lt_upper_bound]; lia).
    set (sign := if tz <? 0 then 45 else 43).
    assert (forall k c, (two (a / 60) ++ [58] ++ two (a mod 60)) !! k = Some c -> rfc3339_chars t tz !! (23 + k)%nat = Some c) as Hz.
    { intros k c E. unfold rfc3339_chars. rewrite (proj2 (Z.eqb_neq tz 0) Hne). fold a. rewrite Eh, Em.
      destruct k as [|[|[|[|[|k]]]]]; exact E || discriminate E. }
    assert (rfc3339_chars t tz !! 22%nat = Some sign) as Es
      by (unfold rfc3339_chars; rewrite (proj2 (Z.eqb_neq tz 0) Hne); reflexivity).
    rewrite (bind_done _ _ _ _ _ (peek_at g psz _ Htext 22 sign ltac:(lia) Es)).
    destruct (field2_text g psz _ Htext (a / 60) 23 ltac:(lia) ltac:(lia) (Hz 0%nat _ eq_refl) (Hz 1%nat _ eq_refl)) as (D1 & N1 & _).
    destruct (field2_text g psz _ Htext (a mod 60) 26 ltac:(lia) ltac:(lia) (Hz 3%nat _ eq_refl) (Hz 4%nat _ eq_refl)) as (D2 & N2 & _).
    pose proof (peek_at g psz _ Htext 25 58 ltac:(lia) (Hz 2%nat _ eq_refl)) as Pc.
    assert (negb (sign =? 90) && negb (sign =? 122) && negb (sign =? 43) && negb (sign =? 45) = false /\
            (sign =? 43) || (sign =? 45) = true /\ (if sign =? 43 then - a else a) = - tz) as (-> & -> & Er).
    { unfold sign. destruct (Z.ltb_spec tz 0); repeat split; cbn; lia. }
    change (u32 (22 + 1)) with 23. change (u32 (22 + 3)) with 25. change (u32 (22 + 4)) with 26.
    rewrite (bind_done _ _ _ _ _ D1).
    rewrite (bind_done _ _ _ true g) by (rewrite (bind_done _ _ _ _ _ Pc); exact D2). cbn [negb].
    rewrite (bind_done _ _ _ _ _ N1), (bind_done _ _ _ _ _ N2). unfold ret.
    replace (a / 60 * 60 + a mod 60) with a by (pose proof (Z.div_mod a 60); lia). rewrite Er. reflexivity.
Qed.

(** The date with the microseconds cut to hundredths of a second. *)
Definition hundredths (t : CellRtcDateTime) : CellRtcDateTime :=
  mk_date (year t) (month t) (day t) (hour t) (minute t) (second t) (microsecond t / 10000 * 10000).

Lemma hundredths_valid : valid (hundredths t).
Proof using Hv.
  clear Htz Htext. destruct Hv. constructor; auto. cbn. pose proof (Z.div_mod (microsecond t) 10000).
  pose proof (Z.mod_pos_bound (microsecond t) 10000). assert (0 <= microsecond t / 10000) by (apply Z.div_pos; lia). lia.
Qed.

Lemma parse_text f p :
  bytes_ok (ram g) -> object g p 8 -> ok_ptr g psz ->
  exists g', cellRtcParseRfc3339 (S (S (S f))) p psz g = Done CELL_OK g' /\
    be_load (ram g') p 8 = u64 (date_time_to_tick (hundredths t) + - tz * 60 * cellRtcGetTickResolution).
Proof using Hv Htz Htext.
  intros Hm Hp Hz. pose proof Hv as [Hy Hmo _ Hh Hmi Hs _]. pose proof day_two as Hd.
  pose proof (date_tick_date_core _ hundredths_valid) as (_ & Hr & _). unfold TICK_END, us_per_day in Hr.
  eexists. split.
  - unfold cellRtcParseRfc3339. rewrite !with_ptr_ok by (apply Hp || exact Hz). unfold separator.
    destruct (number4_text g psz _ Htext (year t) ltac:(lia) eq_refl eq_refl eq_refl eq_refl) as [D4 N4].
    rewrite (bind_done _ _ _ _ _ D4), (bind_done _ _ _ _ _ N4).
    rewrite (bind_done _ _ _ _ _ (peek_at g psz _ Htext 4 45 ltac:(lia) eq_refl)). cbn [Z.eqb Pos.eqb].
    destruct (field2_text g psz _ Htext (month t) 5 ltac:(lia) ltac:(lia) eq_refl eq_refl) as (_ & _ & F1). rewrite (bind_done _ _ _ _ _ F1).
    rewrite (bind_done _ _ _ _ _ (peek_at g psz _ Htext 7 45 ltac:(lia) eq_refl)). cbn [Z.eqb Pos.eqb].
    destruct (field2_text g psz _ Htext (day t) 8 ltac:(lia) ltac:(lia) eq_refl eq_refl) as (_ & _ & F2). rewrite (bind_done _ _ _ _ _ F2).
    rewrite (bind_done _ _ _ _ _ (peek_at g psz _ Htext 10 84 ltac:(lia) eq_refl)). cbn [Z.eqb Pos.eqb orb].
    destruct (field2_text g psz _ Htext (hour t) 11 ltac:(lia) ltac:(lia) eq_refl eq_refl) as (_ & _ & F3). rewrite (bind_done _ _ _ _ _ F3).
    rewrite (bind_done _ _ _ _ _ (peek_at g psz _ Htext 13 58 ltac:(lia) eq_refl)). cbn [Z.eqb Pos.eqb].
    destruct (field2_text g psz _ Htext (minute t) 14 ltac:(lia) ltac:(lia) eq_refl eq_refl) as (_ & _ & F4). rewrite (bind_done _ _ _ _ _ F4).
    rewrite (bind_done _ _ _ _ _ (peek_at g psz _ Htext 16 58 ltac:(lia) eq_refl)). cbn [Z.eqb Pos.eqb].
    destruct (field2_text g psz _ Htext (second t) 17 ltac:(lia) ltac:(lia) eq_refl eq_refl) as (_ & _ & F5). rewrite (bind_done _ _ _ _ _ F5).
    rewrite (bind_done _ _ _ _ _ (peek_at g psz _ Htext 19 46 ltac:(lia) eq_refl)). cbn [Z.eqb Pos.eqb].
    rewrite (bind_done _ _ _ _ _ (fraction_text f)), (bind_done _ _ _ _ _ offset_text).
    rewrite (bind_done _ _ _ _ _ (get_tick_local_done g p _ Hp hundredths_valid)). unfold cellRtcTickAddMinutes.
    rewrite (bind_done _ _ _ _ _ (tick_add_done _ p p _ (object_ram _ _ _ _ Hp) (object_ram _ _ _ _ Hp))). reflexivity.
  - cbn [ram with_ram]. rewrite be_load_store; [|apply be_store_ok, be_store_ok; exact Hm|apply (wrap_range 64); lia].
    rewrite be_load_store; [reflexivity|apply be_store_ok; exact Hm|]. unfold in_range. cbn. lia.
Qed.

(** The general parser hands such a string to the RFC 3339 one. *)
Lemma parse_any cs f p :
  0 <= psz < 2 ^ 32 -> ok_ptr g p -> ok_ptr g psz ->
  cellRtcParseDateTime cs (S f) p psz g = cellRtcParseRfc3339 (S f) p psz g.
Proof using Hv Htext.
  clear Htz. intros Hr Hp Hz. destruct Hv as [Hy _ _ _ _ _ _]. unfold cellRtcParseDateTime.
  rewrite (bind_done _ _ _ _ _ Hp), (bind_done _ _ _ _ _ Hz). cbn [skip_blanks].
  assert (0 <= year t / 1000 <= 9) as H1 by (split; [apply Z.div_pos|apply Z.lt_succ_r, Z.div_lt_upper_bound]; lia).
  assert (isblank (ascii_of (year t / 1000)) = false) as Hb.
  { unfold isblank, ascii_of. rewrite wrap_small by (unfold in_range; lia). apply orb_false_iff. rewrite !Z.eqb_neq. lia. }
  rewrite (bind_done _ _ _ 0 g).
  2: { rewrite (bind_done _ _ _ _ _ (peek_at g psz _ Htext 0 _ ltac:(lia) eq_refl)), Hb. reflexivity. }
  destruct (number4_text g psz _ Htext (year t) ltac:(lia) eq_refl eq_refl eq_refl eq_refl) as [D4 _].
  rewrite (bind_done _ _ _ _ _ D4), Z.add_0_r, wrap_small by (unfold in_range; lia). reflexivity.
Qed.
End Parse.

(** ** The round trip *)

Lemma chars_ok t tz : Forall (in_range 8) (rfc3339_chars t tz) /\ (length (rfc3339_chars t tz) <= 29)%nat.
Proof.
  unfold rfc3339_chars, two, four. destruct (tz =? 0), (tz <? 0); (split; [|cbn; lia]);
    repeat constructor; try apply ascii_range; unfold in_range; lia.
Qed.

Section Format.
Context `{SysTime}.

(** The formatter leaves the text of the local date. *)
Lemma format_done g psz pu tz :
  bytes_ok (ram g) -> object g psz 29 -> object g pu 8 -> pu <> 0 ->
  let local := be_load (ram g) pu 8 + tz * 60 * cellRtcGetTickResolution in
  0 <= local < TICK_END ->
  exists t, valid t /\ date_time_to_tick t = local /\
    cellRtcFormatRfc3339 psz pu tz g = Done CELL_OK (with_ram (store_chars (ram g) psz (rfc3339_chars t tz)) g).
Proof.
  intros Hm Hz Hu Hne local Hl. destruct (tick_date_tick_core local Hl) as (t & E & Hv & Eb). exists t.
  split; [exact Hv|]. split; [exact Eb|]. unfold cellRtcFormatRfc3339, format_with.
  rewrite !with_ptr_ok by (apply Hz || apply Hu). rewrite (proj2 (Z.eqb_neq pu 0) Hne). unfold read_tick.
  rewrite (bind_done _ _ _ _ _ (read_object g pu 8 Hu)). unfold add_minutes. fold local.
  rewrite wrap_small by (unfold in_range, TICK_END, us_per_day in *; lia). rewrite E.
  rewrite (bind_done _ _ _ t g eq_refl).
  rewrite (proj2 (check_valid_iff t (fields_unsigned t (valid_fields t Hv))) Hv), Z.eqb_refl. cbn [negb].
  pose proof (write_chars_done g psz 29 0 (rfc3339_chars t tz) Hz (proj2 (chars_ok t tz)) (ram g)) as Hw.
  cbn [Z.of_nat] in Hw. rewrite Z.add_0_r in Hw. replace (with_ram (ram g) g) with g in Hw by (destruct g; reflexivity).
  rewrite (bind_done _ _ _ _ _ Hw). reflexivity.
Qed.

(** C32: RFC 3339 text.  Formatting the tick at [pu] for an offset of at most 99:59 hours either
    way, and parsing the string with cellRtcParseRfc3339 or cellRtcParseDateTime into [p],
    succeeds and gives the tick rounded down to hundredths of a second, for every tick whose
    local date is in the years 1 to 9999; the buffers may overlap.  The fraction loop needs
    three rounds. *)
Theorem rfc3339_roundtrip g psz pu p tz cs f :
  bytes_ok (ram g) -> object g psz 29 -> object g pu 8 -> object g p 8 -> pu <> 0 ->
  0 <= psz -> psz + 29 <= 2 ^ 32 -> - 5999 <= tz <= 5999 ->
  let tick := be_load (ram g) pu 8 in
  0 <= tick + tz * 60 * cellRtcGetTickResolution < TICK_END ->
  exists g1 g2, cellRtcFormatRfc3339 psz pu tz g = Done CELL_OK g1 /\
    cellRtcParseRfc3339 (S (S (S f))) p psz g1 = Done CELL_OK g2 /\
    cellRtcParseDateTime cs (S (S (S f))) p psz g1 = Done CELL_OK g2 /\
    be_load (ram g2) p 8 = tick - tick mod 10000.
Proof.
  intros Hm Hz Hu Hp Hne Hp0 Hp1 Htz tick Hl.
  pose proof (be_load_range (ram g) pu 8 Hm) as Hr. unfold in_range in Hr.
  destruct (format_done g psz pu tz Hm Hz Hu Hne Hl) as (t & Hv & Et & Ef). fold tick in Et, Hr.
  set (g1 := with_ram (store_chars (ram g) psz (rfc3339_chars t tz)) g) in *.
  assert (text g1 psz (rfc3339_chars t tz)) as Htext
    by (destruct (chars_ok t tz); apply (text_stored g psz 29); auto).
  destruct (parse_text g1 psz t tz Hv Htz Htext f p) as (g2 & Ep & E2);
    [apply store_chars_ok; exact Hm|apply object_ram; exact Hp|apply ok_ptr_ram, Hz|].
  exists g1, g2. split; [exact Ef|]. split; [exact Ep|]. split.
  - rewrite (parse_any g1 psz t tz Hv Htext); [exact Ep|lia|apply ok_ptr_ram, Hp|apply ok_ptr_ram, Hz].
  - rewrite E2. pose proof (to_tick_reference t Hv) as E3. pose proof (to_tick_reference _ (hundredths_valid t Hv)) as E4.
    unfold reference_tick, day_number in *. cbn [hundredths year month day hour minute second microsecond] in E4.
    assert (date_time_to_tick (hundredths t) = date_time_to_tick t - microsecond t mod 10000) as ->
      by (pose proof (Z.div_mod (microsecond t) 10000); lia).
    assert (microsecond t mod 10000 = tick mod 10000) as ->.
    { rewrite Et in E3. unfold cellRtcGetTickResolution, us_per_day in E3. Z.div_mod_to_equations. lia. }
    rewrite Et. replace (tick + tz * 60 * cellRtcGetTickResolution - tick mod 10000 + - tz * 60 * cellRtcGetTickResolution)
      with (tick - tick mod 10000) by lia.
    apply wrap_small. pose proof (Z.mod_le tick 10000). pose proof (Z.mod_pos_bound tick 10000). unfold in_range. cbn in *. lia.
Qed.
End Format.

Lemma rfc3339_roundtrip_witness :
  exists g1 g2, @cellRtcFormatRfc3339 sample_host 0x10000 0x10040 330 sample_guest = Done CELL_OK g1 /\
    cellRtcParseDateTime false 3 0x10048 0x10000 g1 = Done CELL_OK g2.
Proof.
  destruct (@rfc3339_roundtrip sample_host sample_guest 0x10000 0x10040 0x10048 330 false 0)
    as (g1 & g2 & A & _ & B & _).
  - apply map_Forall_empty.
  - sample_obj.
  - sample_obj.
  - sample_obj.
  - discriminate.
  - lia.
  - lia.
  - lia.
  - vm_compute. split; congruence.
  - exists g1, g2. auto.
Defined.

(** ** Time stamps *)

(** A date stored from a tick reads back as the tick. *)
Lemma stored_tick g pd tick :
  bytes_ok (ram g) -> object g pd 16 -> 0 <= tick < TICK_END ->
  exists g1, cellRtcSetTick_local pd tick g = Done CELL_OK g1 /\ get_tick_local pd g1 = Done tick g1 /\
    bytes_ok (ram g1) /\ forall a n, object g a n -> object g1 a n.
Proof.
  intros Hm Hd Ht. destruct (tick_date_tick_core tick Ht) as (t & E & Hv & Eb).
  pose proof (valid_fields t Hv) as Hf. exists (with_ram (date_ram (ram g) pd t) g).
  assert (object (with_ram (date_ram (ram g) pd t) g) pd 16) as Hd' by (apply object_ram; exact Hd).
  split; [|split; [|split; [unfold date_ram; cbn [ram with_ram]; repeat apply be_store_ok; exact Hm|intros; apply object_ram; assumption]]].
  - unfold cellRtcSetTick_local. rewrite with_ptr_ok by apply Hd. rewrite E, (bind_done _ _ _ t g eq_refl).
    rewrite (bind_done _ _ _ _ _ (write_date_done g pd t Hd)). reflexivity.
  - unfold get_tick_local. rewrite (bind_done _ _ _ _ _ (obj_ptr _ _ _ Hd')).
    replace (read 2 pd) with (read 2 (pd + Z.of_nat 0)) by (f_equal; lia).
    rewrite (bind_done _ _ _ _ _ (read_sub _ pd 16 0 2 Hd' ltac:(lia))), Z.add_0_r.
    change (be_load (ram (with_ram (date_ram (ram g) pd t) g)) pd 2) with (year (date_in (date_ram (ram g) pd t) pd)).
    rewrite date_in_ram, (valid_year t Hv) by auto.
    rewrite (bind_done _ _ _ _ _ (read_date_done _ pd Hd')). cbn [ram with_ram].
    rewrite date_in_ram, Eb by auto. reflexivity.
Qed.

Lemma store_if_done g p v : object g p 8 -> p <> 0 -> store_if 8 p v g = Done tt (with_ram (be_store (ram g) p 8 v) g).
Proof. intros Ho Hp. unfold store_if. rewrite (proj2 (Z.eqb_neq p 0) Hp). apply write_object. exact Ho. Qed.

(** Setting a stamp into the date and reading it, through the tick. *)
Lemma stamp_roundtrip g pd p tick v (set get : M Z) k :
  bytes_ok (ram g) -> object g pd 16 -> object g p 8 -> p <> 0 -> 0 <= tick < TICK_END -> in_range 64 v ->
  (forall g1, cellRtcSetTick_local pd tick g = Done CELL_OK g1 -> set g = Done CELL_OK g1) ->
  (forall g1, get g1 = with_ptr pd (with_ptr p (let* t := get_tick_local pd in k t)) g1) ->
  k tick = (store_if 8 p v ;; ret CELL_OK) ->
  exists g1 g2, set g = Done CELL_OK g1 /\ get g1 = Done CELL_OK g2 /\ be_load (ram g2) p 8 = v.
Proof.
  intros Hm Hd Hp Hne Ht Hv Es Eg Ek.
  destruct (stored_tick g pd tick Hm Hd Ht) as (g1 & E1 & E2 & Hm1 & Ho). exists g1.
  exists (with_ram (be_store (ram g1) p 8 v) g1). split; [apply Es; exact E1|]. split.
  - rewrite Eg, !with_ptr_ok by (eapply obj_ptr, Ho; eassumption). rewrite (bind_done _ _ _ _ _ E2), Ek.
    rewrite (bind_done _ _ _ _ _ (store_if_done g1 p v (Ho p 8%nat Hp) Hne)). reflexivity.
  - apply be_load_store; [apply be_store_ok; exact Hm1|exact Hv].
Qed.

(** Time stamps.  The offsets are the ticks of the dates their comments give; and a time_t,
    system time or Win32 file time set into a date of the years up to 9999 (2099 for system
    time) reads back as it was, a file time rounded down to whole microseconds. *)
Theorem time_stamps :
  RTC_MAGIC_OFFSET = date_time_to_tick (mk_date 1970 1 1 0 0 0 0) /\
  RTC_FILETIME_OFFSET = date_time_to_tick (mk_date 1601 1 1 0 0 0 0) /\
  RTC_SYSTEM_TIME_MIN = date_time_to_tick (mk_date 2000 1 1 0 0 0 0) /\
  RTC_SYSTEM_TIME_MAX = date_time_to_tick (mk_date 2099 12 31 23 59 59 999999) /\
  forall g pd p x, bytes_ok (ram g) -> object g pd 16 -> object g p 8 -> p <> 0 -> 0 <= x ->
  (x * 1000000 + RTC_MAGIC_OFFSET < TICK_END ->
   exists g1 g2, cellRtcSetTime_t pd x g = Done CELL_OK g1 /\ cellRtcGetTime_t pd p g1 = Done CELL_OK g2 /\
     be_load (ram g2) p 8 = x) /\
  (x * 1000000 + RTC_SYSTEM_TIME_MIN <= RTC_SYSTEM_TIME_MAX ->
   exists g1 g2, cellRtcSetSystemTime pd x g = Done CELL_OK g1 /\ cellRtcGetSystemTime pd p g1 = Done CELL_OK g2 /\
     be_load (ram g2) p 8 = x) /\
  (x / 10 + RTC_FILETIME_OFFSET < TICK_END ->
   exists g1 g2, cellRtcSetWin32FileTime pd x g = Done CELL_OK g1 /\ cellRtcGetWin32FileTime pd p g1 = Done CELL_OK g2 /\
     be_load (ram g2) p 8 = x / 10 * 10).
Proof.
  do 4 (split; [vm_compute; reflexivity|]). intros g pd p x Hm Hd Hp Hne Hx.
  assert (TICK_END < 2 ^ 60) as HE by reflexivity.
  assert (0 <= x / 10) by (apply Z.div_pos; lia).
  assert (forall tick k g1, k CELL_OK = ret CELL_OK -> cellRtcSetTick_local pd tick g = Done CELL_OK g1 ->
            with_ptr pd (let* r := cellRtcSetTick_local pd tick in k r) g = Done CELL_OK g1) as Hset.
  { intros tick k g1 Ek E. rewrite with_ptr_ok by apply Hd. rewrite (bind_done _ _ _ _ _ E), Ek. reflexivity. }
  unfold RTC_MAGIC_OFFSET, RTC_SYSTEM_TIME_MIN, RTC_SYSTEM_TIME_MAX, RTC_FILETIME_OFFSET.
  repeat split; intros Hb.
  - eapply (stamp_roundtrip g pd p (x * 1000000 + RTC_MAGIC_OFFSET) x); unfold in_range, RTC_MAGIC_OFFSET; try assumption; try lia.
    + intros g1 E. unfold cellRtcSetTime_t, cellRtcGetTickResolution.
      rewrite wrap_small by (unfold in_range, RTC_MAGIC_OFFSET; lia). apply (Hset _ (fun _ => ret CELL_OK)); auto.
    + reflexivity.
    + cbn beta. unfold RTC_MAGIC_OFFSET, cellRtcGetTickResolution. rewrite (proj2 (Z.ltb_ge _ _)) by lia.
      replace (x * 1000000 + 62135596800000000 - 62135596800000000) with (x * 1000000) by lia. rewrite Z.div_mul by lia. reflexivity.
  - assert (TICK_END > 66238041599999999 + 1000000) by reflexivity.
    eapply (stamp_roundtrip g pd p (x * 1000000 + RTC_SYSTEM_TIME_MIN) x); unfold in_range, RTC_SYSTEM_TIME_MIN; try assumption; try lia.
    + intros g1 E. unfold cellRtcSetSystemTime, cellRtcGetTickResolution.
      rewrite wrap_small by (unfold in_range, RTC_SYSTEM_TIME_MIN; lia). apply (Hset _ (fun _ => ret CELL_OK)); auto.
    + reflexivity.
    + cbn beta. unfold RTC_SYSTEM_TIME_MIN, RTC_SYSTEM_TIME_MAX, cellRtcGetTickResolution.
      rewrite (proj2 (Z.ltb_ge _ _)), (proj2 (Z.leb_gt _ _)) by lia.
      replace (x * 1000000 + 63082281600000000 - 63082281600000000) with (x * 1000000) by lia. rewrite Z.div_mul by lia. reflexivity.
  - eapply (stamp_roundtrip g pd p (x / 10 + RTC_FILETIME_OFFSET) (x / 10 * 10)); unfold in_range, RTC_FILETIME_OFFSET; try assumption; try lia.
    + intros g1 E. unfold cellRtcSetWin32FileTime. rewrite wrap_small by (unfold in_range, RTC_FILETIME_OFFSET; lia).
      rewrite with_ptr_ok by apply Hd. exact E.
    + reflexivity.
    + cbn beta. unfold RTC_FILETIME_OFFSET. rewrite (proj2 (Z.ltb_ge _ _)) by lia.
      replace ((x / 10 + 50491123200000000 - 50491123200000000) * 10) with (x / 10 * 10) by lia.
      rewrite wrap_small by (unfold in_range; lia). reflexivity.
Qed.

Lemma time_stamps_witness :
  exists g1 g2, cellRtcSetTime_t 0x10000 1700000000 sample_guest = Done CELL_OK g1 /\
    cellRtcGetTime_t 0x10000 0x10010 g1 = Done CELL_OK g2 /\ be_load (ram g2) 0x10010 8 = 1700000000.
Proof.
  refine (proj1 (proj2 (proj2 (proj2 (proj2 time_stamps))) sample_guest 0x10000 0x10010 1700000000 _ _ _ _ _) _).
  - apply map_Forall_empty.
  - sample_obj.
  - sample_obj.
  - discriminate.
  - lia.
  - vm_compute. reflexivity.
Defined.
