(* ===== verification/SyncSys.v ===== *)
(** * Guest threads that share a synchronization object

    The functions of Emu/Cell/Modules/cellSync.cpp run on many guest threads at once and meet
    in one object, through atomic operations on its control word and plain copies of its
    buffer.  A call is a [prog], a sequence of atomic actions on the object; [sys_step]
    interleaves the calls of any number of threads in any order; a trace lists the calls in
    the order in which they return.  [simulation] proves that every trace of the threads is
    one of a sequential object. *)

From Stdlib Require Import ZArith Lia Bool.
From stdpp Require Import base numbers list option.
From S2P Require Import Prelude GuestMem.

(** ** Error codes (cellSync.h) *)

Definition CELL_SYNC_ERROR_INVAL : Z := s32 0x80410102.
Definition CELL_SYNC_ERROR_BUSY : Z := s32 0x8041010A.
Definition CELL_SYNC_ERROR_ABORT : Z := s32 0x8041010C.
Definition CELL_SYNC_ERROR_ALIGN : Z := s32 0x80410110.
Definition CELL_SYNC_ERROR_NULL_POINTER : Z := s32 0x80410111.

(** [vm::ptr::aligned]. *)
Definition aligned (addr al : Z) : bool := Z.land addr (al - 1) =? 0.

(** ** Calls as sequences of atomic actions *)

Section Prog.
Context {Obj : Type}.

(** [Ret code out]: the call has returned, with [out] in the caller's buffer.
    [Halt code]: it has returned [code] on a stopping thread, which runs no more guest code.
    [Throw]: an exception.
    [Atomic f k]: one action on the object; its answer ([None] is [false]) selects the rest.
    [Spin f k]: [while (!f) if (ppu.test_stopped()) return 0;] and then [k]. *)
Inductive prog :=
| Ret (code : Z) (out : list Z)
| Halt (code : Z)
| Throw
| Atomic (f : Obj -> option Z * Obj) (k : option Z -> prog)
| Spin (f : Obj -> option Z * Obj) (k : Z -> prog).

(** One action of a thread; [stopped] is what [test_stopped] answers. *)
Definition pstep (stopped : bool) (p : prog) (o : Obj) : option (prog * Obj) :=
  match p with
  | Ret _ _ | Halt _ | Throw => None
  | Atomic f k => let '(r, o') := f o in Some (k r, o')
  | Spin f k =>
      match f o with
      | (Some v, o') => Some (k v, o')
      | (None, o') => Some (if stopped then Halt 0 else p, o')
      end
  end.

(** The thread alone, [fuel] actions at most. *)
Fixpoint run_alone (fuel : nat) (p : prog) (o : Obj) : prog * Obj :=
  match fuel with
  | O => (p, o)
  | S fuel => match pstep false p o with Some (p', o') => run_alone fuel p' o' | None => (p, o) end
  end.

(** [std::memcpy] from the object: byte [i] of [n] on, into the caller's buffer. *)
Fixpoint copy_out (get : nat -> Obj -> Z) (n i : nat) (acc : list Z) (k : list Z -> prog) : prog :=
  match n with
  | O => k acc
  | S n => Atomic (fun o => (Some (get i o), o))
             (fun r => copy_out get n (S i) (acc ++ [default 0 r]) k)
  end.

(** [std::memcpy] into the object, of the bytes [src] from byte [i] on. *)
Fixpoint copy_in (put : nat -> Z -> Obj -> Obj) (src : list Z) (i : nat) (k : prog) : prog :=
  match src with
  | [] => k
  | b :: src => Atomic (fun o => (Some 0, put i b o)) (fun _ => copy_in put src (S i) k)
  end.
End Prog.
Arguments prog : clear implicits.

(** ** Interleaving *)

Section System.
Context {Obj Call : Type}.
(** The functions that can be called, and which call a thread may make after one that
    returned the given code. *)
Context (body : Call -> prog Obj) (may : Call -> Z -> Call -> bool).

Definition thread : Type := Call * prog Obj.
Definition sys : Type := list thread * Obj.
Record event := mk_event { ev_thread : nat; ev_call : Call; ev_code : Z; ev_out : list Z }.

Definition returned (i : nat) (t : thread) : list event :=
  match t with
  | (c, Ret code out) => [mk_event i c code out]
  | _ => []
  end.

Inductive sys_step : sys -> list event -> sys -> Prop :=
| step_run ts o i c p stopped p' o' :
    ts !! i = Some (c, p) -> pstep stopped p o = Some (p', o') ->
    sys_step (ts, o) (returned i (c, p')) (<[i := (c, p')]> ts, o')
| step_call ts o i c code out c' :
    ts !! i = Some (c, Ret code out) -> may c code c' = true ->
    sys_step (ts, o) (returned i (c', body c')) (<[i := (c', body c')]> ts, o).

Inductive sys_steps (s : sys) : list event -> sys -> Prop :=
| steps_none : sys_steps s [] s
| steps_more tr s' l s'' : sys_steps s tr s' -> sys_step s' l s'' -> sys_steps s (tr ++ l) s''.

(** A sequential object: what one call does to its state, [None] if it may not return so. *)
Fixpoint spec_run {A} (apply : A -> event -> option A) (a : A) (tr : list event) : option A :=
  match tr with
  | [] => Some a
  | e :: tr => match apply a e with Some a' => spec_run apply a' tr | None => None end
  end.

Lemma spec_run_app {A} (apply : A -> event -> option A) a l1 l2 a1 :
  spec_run apply a l1 = Some a1 -> spec_run apply a (l1 ++ l2) = spec_run apply a1 l2.
Proof.
  revert a. induction l1 as [|e l1 IH]; intros a E; cbn in *; [congruence|].
  destruct (apply a e); [auto|discriminate].
Qed.

(** Forward simulation: the object's trace is accepted and the relation holds at the end. *)
Lemma simulation {A} (apply : A -> event -> option A) (R : sys -> A -> Prop) s0 a0 :
  R s0 a0 ->
  (forall s a l s', R s a -> sys_step s l s' -> exists a', spec_run apply a l = Some a' /\ R s' a') ->
  forall tr s, sys_steps s0 tr s -> exists a, spec_run apply a0 tr = Some a /\ R s a.
Proof.
  intros H0 Hstep tr s Hs. induction Hs as [|tr s' l s'' _ (a & E & HR) Hl]; [exists a0; auto|].
  destruct (Hstep s' a l s'' HR Hl) as (a' & E' & HR'). exists a'. split; [|exact HR'].
  rewrite (spec_run_app _ _ _ _ _ E). exact E'.
Qed.

(** An inductive invariant. *)
Lemma invariant (I : sys -> Prop) s0 :
  I s0 -> (forall s l s', I s -> sys_step s l s' -> I s') ->
  forall tr s, sys_steps s0 tr s -> I s.
Proof. intros H0 H tr s Hs. induction Hs; eauto. Qed.

(** A schedule: thread [i] acts, is stopped, or makes a call. *)
Inductive move := Run (i : nat) | Stop (i : nat) | Begin (i : nat) (c : Call).
Definition do_move (m : move) (s : sys) : option (list event * sys) :=
  let act stopped i :=
    match fst s !! i with
    | Some (c, p) => match pstep stopped p (snd s) with
                     | Some (p', o') => Some (returned i (c, p'), (<[i := (c, p')]> (fst s), o'))
                     | None => None
                     end
    | None => None
    end in
  match m with
  | Run i => act false i
  | Stop i => act true i
  | Begin i c' => match fst s !! i with
                  | Some (c, Ret code _) =>
                      if may c code c' then Some (returned i (c', body c'), (<[i := (c', body c')]> (fst s), snd s))
                      else None
                  | _ => None
                  end
  end.
Fixpoint do_moves (ms : list move) (s : sys) : option (list event * sys) :=
  match ms with
  | [] => Some ([], s)
  | m :: ms => match do_move m s with
               | Some (l, s') => match do_moves ms s' with
                                 | Some (tr, s'') => Some (l ++ tr, s'')
                                 | None => None
                                 end
               | None => None
               end
  end.

Lemma do_move_step m s l s' : do_move m s = Some (l, s') -> sys_step s l s'.
Proof.
  destruct s as [ts o], m as [i|i|i c']; cbn; destruct (ts !! i) as [[c p]|] eqn:E; try discriminate.
  - destruct (pstep false p o) as [[p' o']|] eqn:Ep; [|discriminate]. intros [= <- <-]. eapply step_run; eauto.
  - destruct (pstep true p o) as [[p' o']|] eqn:Ep; [|discriminate]. intros [= <- <-]. eapply step_run; eauto.
  - destruct p as [code out| | | |]; try discriminate. destruct (may c code c') eqn:Em; [|discriminate].
    intros [= <- <-]. eapply step_call; eauto.
Qed.

Lemma do_moves_steps ms s0 tr0 s tr s' :
  sys_steps s0 tr0 s -> do_moves ms s = Some (tr, s') -> sys_steps s0 (tr0 ++ tr) s'.
Proof.
  revert s tr tr0. induction ms as [|m ms IH]; intros s tr tr0 H0 E; cbn in E.
  - injection E as <- <-. rewrite app_nil_r. exact H0.
  - destruct (do_move m s) as [[l s1]|] eqn:Em; [|discriminate].
    destruct (do_moves ms s1) as [[tr1 s2]|] eqn:Ems; [|discriminate]. injection E as <- <-.
    rewrite app_assoc. eapply IH; [|exact Ems]. eapply steps_more; [exact H0|]. exact (do_move_step _ _ _ _ Em).
Qed.

Lemma run_schedule ms s tr s' : do_moves ms s = Some (tr, s') -> sys_steps s tr s'.
Proof. exact (do_moves_steps ms s [] s tr s' (steps_none s)). Qed.

(** All threads idle, after a call [c] that returned [code]. *)
Definition idle (n : nat) (c : Call) (code : Z) (o : Obj) : sys := (replicate n (c, Ret code []), o).
End System.
Arguments move : clear implicits.
Arguments thread : clear implicits.
Arguments sys : clear implicits.
Arguments event : clear implicits.
