(* ===== verification/SyncMutex.v ===== *)
(** * CellSyncMutex: a ticket lock

    [CellSyncMutex] of Emu/Cell/Modules/cellSync.h and the four functions of cellSync.cpp that
    use it.  A thread takes the ticket [acq] and waits until [rel] reaches it; both counters
    are 16 bits wide and wrap.  Shown: mutual exclusion as a refinement of a sequential lock,
    and that threads are served in the order of their tickets. *)

From Stdlib Require Import ZArith Lia Bool.
From stdpp Require Import base numbers list option sets.
From S2P Require Import Prelude GuestMem SyncSys.

Module CellSyncMutex.

Record Counter := mk_counter { rel : Z; acq : Z }.

(** ** Operations on the control word *)

Definition lock_begin (c : Counter) : option Z * Counter :=
  (Some (acq c), mk_counter (rel c) (u16 (acq c + 1))).
Definition try_lock (c : Counter) : option Z * Counter :=
  if negb (rel c =? acq c) then (None, c)
  else (Some 0, mk_counter (rel c) (u16 (acq c + 1))).
Definition unlock (c : Counter) : option Z * Counter :=
  (Some 0, mk_counter (u16 (rel c + 1)) (acq c)).
End CellSyncMutex.
Import CellSyncMutex.

(** The argument checks that open every function. *)
Definition checked (mutex : Z) (k : prog Counter) : prog Counter :=
  if mutex =? 0 then Ret CELL_SYNC_ERROR_NULL_POINTER []
  else if negb (aligned mutex 4) then Ret CELL_SYNC_ERROR_ALIGN []
  else k.

Definition cellSyncMutexInitialize (mutex : Z) : prog Counter :=
  checked mutex (Atomic (fun _ => (Some 0, mk_counter 0 0)) (fun _ => Ret CELL_OK [])).

Definition lock_wait (order : Z) : prog Counter :=
  Spin (fun c => (if rel c =? order then Some 0 else None, c)) (fun _ => Ret CELL_OK []).
Definition cellSyncMutexLock (mutex : Z) : prog Counter :=
  checked mutex (Atomic lock_begin (fun order => lock_wait (default 0 order))).

Definition cellSyncMutexTryLock (mutex : Z) : prog Counter :=
  checked mutex (Atomic try_lock (fun ok =>
    match ok with None => Ret CELL_SYNC_ERROR_BUSY [] | Some _ => Ret CELL_OK [] end)).

Definition cellSyncMutexUnlock (mutex : Z) : prog Counter :=
  checked mutex (Atomic unlock (fun _ => Ret CELL_OK [])).

(** ** Threads that use one mutex

    A thread unlocks what it locked, and then may lock again, or try to. *)

Section Mutex.
Context (mutex : Z).

Inductive call := Lock | TryLock | Unlock.
Definition body (c : call) : prog Counter :=
  match c with
  | Lock => cellSyncMutexLock mutex
  | TryLock => cellSyncMutexTryLock mutex
  | Unlock => cellSyncMutexUnlock mutex
  end.
Definition may (c : call) (code : Z) (c' : call) : bool :=
  match c, c' with
  | Unlock, (Lock | TryLock) => code =? CELL_OK
  | TryLock, (Lock | TryLock) => code =? CELL_SYNC_ERROR_BUSY
  | (Lock | TryLock), Unlock => code =? CELL_OK
  | _, _ => false
  end.

(** The sequential lock: its owner.  A failed attempt may return at any time. *)
Definition lock_spec (owner : option nat) (e : event call) : option (option nat) :=
  match ev_call e with
  | Lock => match owner with
            | None => if ev_code e =? CELL_OK then Some (Some (ev_thread e)) else None
            | Some _ => None
            end
  | TryLock => if ev_code e =? CELL_SYNC_ERROR_BUSY then Some owner
               else match owner with
                    | None => if ev_code e =? CELL_OK then Some (Some (ev_thread e)) else None
                    | Some _ => None
                    end
  | Unlock => match owner with
              | Some j => if (j =? ev_thread e)%nat && (ev_code e =? CELL_OK) then Some None else None
              | None => None
              end
  end.

Context (Hnull : mutex <> 0) (Halign : aligned mutex 4 = true).

Lemma mutex_checked_ok k : checked mutex k = k.
Proof using Hnull Halign. unfold checked. rewrite Halign. destruct (Z.eqb_spec mutex 0); [contradiction|reflexivity]. Qed.

(** What a thread is doing, given the queue [q] of ticket holders (the owner first). *)
Inductive thread_ok (q : list nat) (c : Counter) (owner : option nat) (i : nat) : thread Counter call -> Prop :=
| ok_idle k code out : i ∉ q -> (k = Unlock /\ code = CELL_OK \/ k = TryLock /\ code = CELL_SYNC_ERROR_BUSY) ->
    thread_ok q c owner i (k, Ret code out)
| ok_lock : i ∉ q -> thread_ok q c owner i (Lock, body Lock)
| ok_try : i ∉ q -> thread_ok q c owner i (TryLock, body TryLock)
| ok_wait k : q !! k = Some i -> owner <> Some i ->
    thread_ok q c owner i (Lock, lock_wait (u16 (rel c + Z.of_nat k)))
| ok_halt k : q !! k = Some i -> owner <> Some i -> thread_ok q c owner i (Lock, Halt 0)
| ok_held k out : owner = Some i -> k <> Unlock -> thread_ok q c owner i (k, Ret CELL_OK out)
| ok_unlock : owner = Some i -> thread_ok q c owner i (Unlock, body Unlock).

Record related (n : nat) (q : list nat) (s : sys Counter call) (owner : option nat) : Prop := {
  r_len : length (fst s) = n;
  r_rel : in_range 16 (rel (snd s));
  r_acq : acq (snd s) = u16 (rel (snd s) + Z.of_nat (length q));
  r_dup : NoDup q;
  r_ids : Forall (fun i => i < n)%nat q;
  r_head : forall i, owner = Some i -> head q = Some i;
  r_thr : forall i t, fst s !! i = Some t -> thread_ok q (snd s) owner i t;
}.
(** Changing the state of thread [i] and the queue, others kept. *)
Lemma mutex_related_update n q s owner q' c' owner' i t' :
  related n q s owner -> (i < n)%nat ->
  in_range 16 (rel c') -> acq c' = u16 (rel c' + Z.of_nat (length q')) ->
  NoDup q' -> Forall (fun i => i < n)%nat q' -> (forall i, owner' = Some i -> head q' = Some i) ->
  (forall j t, j <> i -> thread_ok q (snd s) owner j t -> thread_ok q' c' owner' j t) ->
  thread_ok q' c' owner' i t' ->
  related n q' (<[i := t']> (fst s), c') owner'.
Proof.
  intros [Hl Hr Ha Hd Hi Hh Ht] Hin Hr' Ha' Hd' Hi' Hh' Hoth Hme. split; cbn [fst snd]; auto.
  - rewrite length_insert. exact Hl.
  - intros j t E. destruct (decide (j = i)) as [->|Hne].
    + rewrite list_lookup_insert_eq in E by lia. injection E as <-. exact Hme.
    + rewrite list_lookup_insert_ne in E by auto. eauto.
Qed.

Lemma queue_short n q : NoDup q -> Forall (fun i => i < n)%nat q -> (length q <= n)%nat.
Proof.
  intros Hd Hi. rewrite <- (length_seq n 0). apply submseteq_length, NoDup_submseteq; [exact Hd|].
  intros i Hq. rewrite List.Forall_forall in Hi. apply elem_of_seq. apply list_elem_of_In in Hq. specialize (Hi i Hq). lia.
Qed.

Lemma wrap16_same r k : in_range 16 r -> 0 <= k < 2 ^ 16 -> u16 (r + k) = r -> k = 0.
Proof.
  unfold in_range, wrap. intros Hr Hk E. pose proof (Z.div_mod (r + k) (2 ^ 16) ltac:(lia)). nia.
Qed.

(** The other threads do not notice a new ticket, a grant or a release. *)
Lemma ok_enqueue q c c' owner i j t :
  j <> i -> rel c' = rel c -> thread_ok q c owner j t -> thread_ok (q ++ [i]) c' owner j t.
Proof.
  intros Hne Er Ht.
  assert (forall i', j ∉ q -> j <> i' -> j ∉ q ++ [i']) as Hout
    by (intros i' H1 H2 [?|?%list_elem_of_singleton]%elem_of_app; auto).
  destruct Ht as [k code out Hq Hc|Hq|Hq|k Hq Ho|k Hq Ho|k out Ho Hk|Ho]; try rewrite <- Er.
  - apply ok_idle; auto.
  - apply ok_lock; auto.
  - apply ok_try; auto.
  - apply ok_wait; [apply lookup_app_l_Some; exact Hq|exact Ho].
  - apply (ok_halt _ _ _ _ k); [apply lookup_app_l_Some; exact Hq|exact Ho].
  - apply ok_held; auto.
  - apply ok_unlock; auto.
Qed.

Lemma ok_grant q c i j t :
  j <> i -> thread_ok q c None j t -> thread_ok q c (Some i) j t.
Proof.
  intros Hne [k code out Hq Hc|Hq|Hq|k Hq Ho|k Hq Ho|k out Ho Hk|Ho]; [..|discriminate|discriminate].
  - apply ok_idle; auto.
  - apply ok_lock; auto.
  - apply ok_try; auto.
  - apply ok_wait; [exact Hq|congruence].
  - apply (ok_halt _ _ _ _ k); [exact Hq|congruence].
Qed.

Lemma ok_release q c c' i j t :
  j <> i -> rel c' = u16 (rel c + 1) ->
  thread_ok (i :: q) c (Some i) j t -> thread_ok q c' None j t.
Proof.
  intros Hne Er Ht. assert (j ∉ i :: q -> j ∉ q) as Hout by (rewrite not_elem_of_cons; tauto).
  destruct Ht as [k code out Hq Hc|Hq|Hq|k Hq Ho|k Hq Ho|k out Ho Hk|Ho]; [..|congruence|congruence].
  - apply ok_idle; auto.
  - apply ok_lock; auto.
  - apply ok_try; auto.
  - destruct k as [|k]; cbn in Hq; [congruence|].
    replace (u16 (rel c + Z.of_nat (S k))) with (u16 (rel c' + Z.of_nat k)).
    + apply ok_wait; [exact Hq|discriminate].
    + rewrite Er, wrap_add_l by lia. f_equal. lia.
  - destruct k as [|k]; cbn in Hq; [congruence|]. apply (ok_halt _ _ _ _ k); [exact Hq|discriminate].
Qed.

Section Steps.
Context (n : nat) (Hn : Z.of_nat n < 2 ^ 16).
Context (q : list nat) (ts : list (thread Counter call)) (o : Counter) (owner : option nat).
Context (HR : related n q (ts, o) owner) (i : nat) (Hi : (i < n)%nat).

Lemma q_bound : Z.of_nat (length q) < 2 ^ 16.
Proof using HR Hn. clear Hi i. destruct HR. pose proof (queue_short n q r_dup0 r_ids0). lia. Qed.

(** Taking a ticket. *)
Lemma take_ticket :
  i ∉ q ->
  related n (q ++ [i])
    (<[i := (Lock, lock_wait (acq o))]> ts, mk_counter (rel o) (u16 (acq o + 1))) owner.
Proof using HR Hi.
  intros Hq. pose proof HR as [Hl Hr Ha Hd Hids Hh Ht]. cbn [fst snd] in *.
  apply (mutex_related_update n q (ts, o) owner); cbn [fst snd rel acq]; auto.
  - rewrite Ha, wrap_add_l, length_app by lia. f_equal. cbn. lia.
  - apply NoDup_app. split; [exact Hd|]. split; [|apply NoDup_singleton].
    intros j Hj ->%list_elem_of_singleton. contradiction.
  - apply Forall_app. split; [exact Hids|auto].
  - intros j E. apply Hh in E. destruct q; [discriminate|exact E].
  - intros j t Hne. apply ok_enqueue; auto.
  - set (c' := mk_counter _ _).
    replace (acq o) with (u16 (rel c' + Z.of_nat (length q))) by (symmetry; exact Ha).
    apply (ok_wait _ _ _ _ (length q)).
    + rewrite lookup_app_r, Nat.sub_diag by lia. reflexivity.
    + intros E. apply Hh in E. destruct q; [discriminate|]. injection E as ->. apply Hq. left.
Qed.

(** The head of the queue is served. *)
Lemma serve k :
  q !! k = Some i -> owner <> Some i -> u16 (rel o + Z.of_nat k) = rel o ->
  owner = None /\ related n q (<[i := (Lock, Ret CELL_OK [])]> ts, o) (Some i).
Proof using HR Hi Hn.
  intros Hk Ho E. pose proof HR as [Hl Hr Ha Hd Hids Hh Ht]. cbn [fst snd] in *.
  pose proof q_bound. pose proof (lookup_lt_Some _ _ _ Hk).
  assert (k = 0%nat) as -> by (pose proof (wrap16_same (rel o) (Z.of_nat k) Hr ltac:(lia) E); lia).
  rewrite <- head_lookup in Hk.
  assert (owner = None) as -> by (destruct owner as [j|]; [|reflexivity]; specialize (Hh j eq_refl); congruence).
  split; [reflexivity|]. apply (mutex_related_update n q (ts, o) None); cbn [fst snd]; auto.
  - intros j [= <-]. exact Hk.
  - intros j t Hne. apply ok_grant. exact Hne.
  - apply ok_held; [reflexivity|discriminate].
Qed.

(** A free lock is taken without waiting. *)
Lemma try_succeeds :
  i ∉ q -> rel o = acq o ->
  owner = None /\
  related n [i] (<[i := (TryLock, Ret CELL_OK [])]> ts, mk_counter (rel o) (u16 (acq o + 1))) (Some i).
Proof using HR Hi Hn.
  intros Hq E. pose proof HR as [Hl Hr Ha Hd Hids Hh Ht]. cbn [fst snd] in *. pose proof q_bound.
  rewrite Ha in E. pose proof (wrap16_same (rel o) (Z.of_nat (length q)) Hr ltac:(lia) (eq_sym E)) as E0.
  assert (q = []) as -> by (destruct q; [reflexivity|discriminate E0]).
  assert (owner = None) as -> by (destruct owner as [j|]; [|reflexivity]; specialize (Hh j eq_refl); discriminate).
  split; [reflexivity|]. apply (mutex_related_update n [] (ts, o) None); cbn [fst snd rel acq length]; auto.
  - rewrite Ha, wrap_add_l by lia. f_equal. cbn. lia.
  - apply NoDup_singleton.
  - intros j t Hne Hj. apply ok_grant; [exact Hne|]. apply (ok_enqueue [] o); auto.
  - apply ok_held; [reflexivity|discriminate].
Qed.

(** The owner leaves; everybody moves up. *)
Lemma release :
  owner = Some i ->
  related n (tail q) (<[i := (Unlock, Ret CELL_OK [])]> ts, mk_counter (u16 (rel o + 1)) (acq o)) None.
Proof using HR Hi.
  intros ->. pose proof HR as [Hl Hr Ha Hd Hids Hh Ht]. cbn [fst snd] in *.
  pose proof (Hh i eq_refl) as Hq. destruct q as [|j q']; [discriminate|]. injection Hq as ->. cbn [tail].
  apply NoDup_cons in Hd as [Hni Hd]. apply Forall_cons in Hids as [_ Hids].
  apply (mutex_related_update n (i :: q') (ts, o) (Some i)); cbn [fst snd rel acq]; auto.
  - apply wrap_range. lia.
  - rewrite Ha, wrap_add_l by lia. f_equal. cbn [length]. lia.
  - discriminate.
  - intros j t Hne. apply ok_release; auto.
  - apply ok_idle; auto.
Qed.

(** A change of the thread's own state only. *)
Lemma mutex_local_step t' :
  thread_ok q o owner i t' -> related n q (<[i := t']> ts, o) owner.
Proof using HR Hi.
  intros Ht'. pose proof HR as [Hl Hr Ha Hd Hids Hh Ht]. cbn [fst snd] in *.
  apply (mutex_related_update n q (ts, o) owner); auto.
Qed.
End Steps.

(** Every action of the threads is one of the lock, or none. *)
Lemma mutex_step n q s owner l s' :
  Z.of_nat n < 2 ^ 16 -> related n q s owner -> sys_step body may s l s' ->
  exists q' owner', spec_run lock_spec owner l = Some owner' /\ related n q' s' owner'.
Proof using Hnull Halign.
  intros Hn HR Hs. revert HR. destruct Hs as [ts o i c p stopped p' o' Hi Hp|ts o i c code out c' Hi Hm]; intros HR.
  - assert (i < n)%nat as Hin by (rewrite <- (r_len _ _ _ _ HR); apply lookup_lt_Some in Hi; exact Hi).
    pose proof (r_thr _ _ _ _ HR i _ Hi) as Ht. cbn [snd] in Ht.
    inversion Ht as [k code out Hq Hc|Hq|Hq|k Hq Ho|k Hq Ho|k out Ho Hk|Ho]; subst; try discriminate.
    + cbn [body] in Hp. unfold cellSyncMutexLock in Hp. rewrite mutex_checked_ok in Hp. injection Hp as <- <-.
      exists (q ++ [i]), owner. split; [reflexivity|]. apply take_ticket; auto.
    + cbn [body] in Hp. unfold cellSyncMutexTryLock in Hp. rewrite mutex_checked_ok in Hp. cbn [pstep] in Hp.
      unfold try_lock in Hp. destruct (Z.eqb_spec (rel o) (acq o)) as [E|E]; cbn [negb] in Hp; injection Hp as <- <-.
      * destruct (try_succeeds n Hn q ts o owner HR i Hin Hq E) as [-> HR']. exists [i], (Some i). auto.
      * exists q, owner. split; [reflexivity|]. apply mutex_local_step; auto. apply ok_idle; auto.
    + unfold lock_wait in Hp. cbn [pstep] in Hp. destruct (Z.eqb_spec (rel o) (u16 (rel o + Z.of_nat k))) as [E|E].
      * injection Hp as <- <-. destruct (serve n Hn q ts o owner HR i Hin k Hq Ho (eq_sym E)) as [-> HR'].
        exists q, (Some i). auto.
      * injection Hp as <- <-. exists q, owner. destruct stopped; (split; [reflexivity|]); apply mutex_local_step; auto.
        apply (ok_halt _ _ _ _ k); auto.
    + cbn [body] in Hp. unfold cellSyncMutexUnlock in Hp. rewrite mutex_checked_ok in Hp. injection Hp as <- <-.
      exists (tail q), None. split; [cbn; rewrite Nat.eqb_refl; reflexivity|].
      apply (release n q ts o (Some i)); auto.
  - assert (i < n)%nat as Hin by (rewrite <- (r_len _ _ _ _ HR); apply lookup_lt_Some in Hi; exact Hi).
    pose proof (r_thr _ _ _ _ HR i _ Hi) as Ht. cbn [snd] in Ht. exists q, owner.
    assert (thread_ok q o owner i (c', body c')) as Ht'.
    { inversion Ht as [k code' out' Hq Hc| | | | |k out' Ho Hk|]; subst;
        try (cbn [body] in *; unfold cellSyncMutexLock, cellSyncMutexTryLock, cellSyncMutexUnlock in *;
             rewrite mutex_checked_ok in *; discriminate).
      - destruct Hc as [[-> ->]|[-> ->]], c'; cbn in Hm; try discriminate;
          [apply ok_lock|apply ok_try|apply ok_lock|apply ok_try]; auto.
      - destruct c, c'; cbn in Hm; try discriminate; try (contradiction Hk; reflexivity); apply ok_unlock; auto. }
    split; [|apply mutex_local_step; auto].
    destruct c'; cbn [body]; unfold cellSyncMutexLock, cellSyncMutexTryLock, cellSyncMutexUnlock;
      rewrite mutex_checked_ok; reflexivity.
Qed.

(** The mutex after its initialization, before any other call. *)
Definition started (n : nat) (o : Counter) : sys Counter call :=
  idle n Unlock CELL_OK (snd (run_alone 1 (cellSyncMutexInitialize mutex) o)).

Lemma mutex_start n o : related n [] (started n o) None.
Proof using Hnull Halign.
  unfold started, cellSyncMutexInitialize. rewrite mutex_checked_ok. split; cbn.
  - apply length_replicate.
  - unfold in_range. lia.
  - reflexivity.
  - constructor.
  - constructor.
  - discriminate.
  - intros i t [-> _]%lookup_replicate. apply ok_idle; [apply not_elem_of_nil|auto].
Qed.

Lemma mutex_related n o tr s :
  Z.of_nat n < 2 ^ 16 -> sys_steps body may (started n o) tr s ->
  exists owner q, spec_run lock_spec None tr = Some owner /\ related n q s owner.
Proof using Hnull Halign.
  intros Hn Hs.
  destruct (simulation body may lock_spec (fun s a => exists q, related n q s a) _ None
              (ex_intro _ [] (mutex_start n o))) with (tr := tr) (s := s) as (owner & E & q & HR); eauto.
  intros s1 a l s2 [q HR] Hl. destruct (mutex_step n q s1 a l s2 Hn HR Hl) as (q' & a' & E & HR'). eauto.
Qed.

(** ** Mutual exclusion and order of service *)

(** The thread is between a successful lock and the release of its unlock. *)
Definition critical (t : thread Counter call) : bool :=
  match t with
  | (Unlock, Ret _ _) => false
  | (Unlock, _) => true
  | (_, Ret code _) => code =? CELL_OK
  | _ => false
  end.

Lemma mutex_body_atomic c : exists f k, body c = Atomic f k.
Proof using Hnull Halign.
  destruct c; cbn [body]; unfold cellSyncMutexLock, cellSyncMutexTryLock, cellSyncMutexUnlock;
    rewrite mutex_checked_ok; eauto.
Qed.

Lemma critical_owner q c owner i t : thread_ok q c owner i t -> critical t = true -> owner = Some i.
Proof using Hnull Halign.
  intros [k code out Hq [[-> ->]|[-> ->]]|Hq|Hq|k Hq Ho|k Hq Ho|k out Ho Hk|Ho] E; try discriminate; auto;
    [destruct (mutex_body_atomic Lock) as (f & g & Eb)|destruct (mutex_body_atomic TryLock) as (f & g & Eb)];
    unfold critical in E; rewrite Eb in E; discriminate.
Qed.

Lemma lock_wait_inj a b : lock_wait a = lock_wait b -> a = b.
Proof.
  intros [= E]. apply (f_equal (fun f => f (mk_counter a 0))) in E. cbn in E. rewrite Z.eqb_refl in E.
  destruct (Z.eqb_spec a b); [assumption|discriminate].
Qed.

Lemma waiting_ticket q c owner i order :
  thread_ok q c owner i (Lock, lock_wait order) ->
  owner <> Some i /\ exists k, q !! k = Some i /\ order = u16 (rel c + Z.of_nat k).
Proof using Hnull Halign.
  destruct (mutex_body_atomic Lock) as (f & g & Eb). cbn [body] in Eb.
  inversion 1 as [k code out Hq Hc E|Hq E|Hq E|k Hq Ho E|k Hq Ho E|k out Ho Hk E|Ho E]; subst; try discriminate.
  - rewrite Eb in E. discriminate.
  - split; [exact Ho|]. exists k. split; [exact Hq|]. symmetry. apply lock_wait_inj. unfold lock_wait. congruence.
Qed.
End Mutex.

(** C27: mutual exclusion.  Up to 65535 threads call the lock, try-lock and unlock functions of
    one mutex, their atomic actions interleaved in any order, threads being stopped while they
    wait included.  The calls return as those of a sequential lock: a lock call returns only
    when nobody owns the lock, an unlock call only to the owner; and at most one thread is
    in the critical section. *)
Theorem mutex_exclusion mutex n o tr s :
  mutex <> 0 -> aligned mutex 4 = true -> Z.of_nat n < 2 ^ 16 ->
  sys_steps (body mutex) may (started mutex n o) tr s ->
  (exists owner, spec_run lock_spec None tr = Some owner) /\
  forall i j t t', fst s !! i = Some t -> fst s !! j = Some t' ->
    critical t = true -> critical t' = true -> i = j.
Proof.
  intros Hm Ha Hn Hs. destruct (mutex_related mutex Hm Ha n o tr s Hn Hs) as (owner & q & E & HR).
  split; [eauto|]. intros i j t t' Hi Hj Ci Cj.
  apply (critical_owner mutex Hm Ha q (snd s) owner i) in Ci; [|apply (r_thr _ _ _ _ _ HR); exact Hi].
  apply (critical_owner mutex Hm Ha q (snd s) owner j) in Cj; [|apply (r_thr _ _ _ _ _ HR); exact Hj].
  congruence.
Qed.

(** Two threads: the first locks, the second waits, the first unlocks, the second locks. *)
Definition mutex_schedule : list (move call) :=
  [Begin 0 Lock; Run 0; Run 0; Begin 1 Lock; Run 1; Run 1; Begin 0 Unlock; Run 0; Run 1].
Definition mutex_run : list (event call) * sys Counter call :=
  default ([], started 16 2 (mk_counter 7 9))
    (do_moves (body 16) may mutex_schedule (started 16 2 (mk_counter 7 9))).

Lemma mutex_exclusion_witness :
  fst mutex_run = [mk_event 0 Lock CELL_OK []; mk_event 0 Unlock CELL_OK []; mk_event 1 Lock CELL_OK []] /\
  exists owner, spec_run lock_spec None (fst mutex_run) = Some owner.
Proof.
  split; [vm_compute; reflexivity|].
  refine (proj1 (mutex_exclusion 16 2 (mk_counter 7 9) (fst mutex_run) (snd mutex_run) _ _ _ _)).
  - discriminate.
  - reflexivity.
  - reflexivity.
  - apply (run_schedule _ _ mutex_schedule). vm_compute. reflexivity.
Defined.

(** The thread at place [k] of the queue when [rel] is the ticket being served: the owner, a
    thread waiting for its ticket, or one that was stopped while it waited. *)
Inductive engaged (rel : Z) (k : nat) : thread Counter call -> Prop :=
| engaged_owner t : k = 0%nat -> critical t = true -> engaged rel k t
| engaged_wait : engaged rel k (Lock, lock_wait (u16 (rel + Z.of_nat k)))
| engaged_stopped : engaged rel k (Lock, Halt 0).

(** The distance of a waiting thread's ticket from the one being served. *)
Definition distance (c : Counter) (order : Z) : Z := u16 (order - rel c).

Lemma distance_ticket c k :
  in_range 16 (rel c) -> 0 <= k < 2 ^ 16 -> distance c (u16 (rel c + k)) = k.
Proof.
  intros Hr Hk. unfold distance. rewrite wrap_sub_l by lia. rewrite wrap_small; [lia|].
  unfold in_range. lia.
Qed.

Lemma in_queue mutex (Hm : mutex <> 0) (Ha : aligned mutex 4 = true) n q s owner k i t :
  related mutex n q s owner -> q !! k = Some i -> fst s !! i = Some t -> engaged (rel (snd s)) k t.
Proof.
  intros HR Hk Hi. pose proof HR as [Hl Hr _ Hd _ Hh Ht].
  assert (forall k', q !! k' = Some i -> k' = k) as Hsame by (intros k' Hk'; exact (NoDup_lookup _ _ _ _ Hd Hk' Hk)).
  assert (i ∈ q) as Hin by (apply list_elem_of_lookup; eauto).
  assert (owner = Some i -> k = 0%nat) as H0.
  { intros Ho. symmetry. apply Hsame. rewrite <- head_lookup. auto. }
  destruct (Ht i t Hi) as [c code out Hq Hc|Hq|Hq|k' Hq Ho|k' Hq Ho|c out Ho Hc|Ho]; try contradiction.
  - rewrite (Hsame k' Hq). apply engaged_wait.
  - apply engaged_stopped.
  - apply engaged_owner; [auto|]. destruct c; [reflexivity|reflexivity|contradiction].
  - apply engaged_owner; [auto|]. destruct (mutex_body_atomic mutex Hm Ha Unlock) as (f & g & ->). reflexivity.
Qed.

(** C28: first come, first served.  Whenever a thread waits with ticket [order] at distance [d]
    from the ticket being served, exactly the [d] threads with the tickets before it are ahead
    of it, the owner first; its next attempt succeeds exactly when [d] is 0; a release brings
    every waiting thread one place forward; and when nobody is in the critical section and
    nobody was stopped, the next attempt of some waiting thread succeeds. *)
Theorem mutex_fifo mutex n o tr s i order :
  mutex <> 0 -> aligned mutex 4 = true -> Z.of_nat n < 2 ^ 16 ->
  sys_steps (body mutex) may (started mutex n o) tr s ->
  fst s !! i = Some (Lock, lock_wait order) ->
  let d := distance (snd s) order in
  (exists q, NoDup q /\ q !! Z.to_nat d = Some i /\
     forall k j, q !! k = Some j -> exists t, fst s !! j = Some t /\ engaged (rel (snd s)) k t) /\
  (pstep false (lock_wait order) (snd s) = Some (Ret CELL_OK [], snd s) <-> d = 0) /\
  (0 < d -> distance (snd (unlock (snd s))) order = d - 1) /\
  ((forall j t, fst s !! j = Some t -> critical t = false /\ t <> (Lock, Halt 0)) ->
   exists j, fst s !! j = Some (Lock, lock_wait (rel (snd s)))).
Proof.
  intros Hm Ha Hn Hs Hi d. destruct (mutex_related mutex Hm Ha n o tr s Hn Hs) as (owner & q & E & HR).
  pose proof HR as [Hl Hr _ Hd Hids Hh Ht].
  destruct (waiting_ticket mutex Hm Ha q (snd s) owner i order (Ht i _ Hi)) as [Ho (k & Hk & ->)].
  pose proof (queue_short n q Hd Hids) as Hq. pose proof (lookup_lt_Some _ _ _ Hk).
  assert (d = Z.of_nat k) as Ed by (apply distance_ticket; [exact Hr|lia]).
  assert (forall k j, q !! k = Some j -> exists t, fst s !! j = Some t /\ engaged (rel (snd s)) k t) as Heng.
  { intros k' j Hk'. pose proof (proj1 (List.Forall_forall _ _) Hids j) as Hj.
    destruct (lookup_lt_is_Some_2 (fst s) j) as [t Ej].
    - rewrite Hl. apply Hj. apply list_elem_of_In, list_elem_of_lookup. eauto.
    - exists t. split; [exact Ej|]. eapply in_queue; eauto. }
  rewrite Ed. split; [exists q; rewrite Nat2Z.id; auto|]. split; [|split].
  - unfold lock_wait. cbn [pstep]. destruct (Z.eqb_spec (rel (snd s)) (u16 (rel (snd s) + Z.of_nat k))) as [E0|E0].
    + pose proof (wrap16_same _ (Z.of_nat k) Hr ltac:(lia) (eq_sym E0)). split; auto.
    + split; [discriminate|]. intros Hk0. contradiction E0. rewrite Hk0, Z.add_0_r, wrap_small; auto.
  - intros Hpos. unfold distance. cbn [unlock snd rel]. rewrite wrap_sub_l, wrap_sub_r by lia.
    rewrite wrap_small; [lia|unfold in_range; lia].
  - intros Hfree. destruct q as [|j q']; [discriminate|].
    destruct (Heng 0%nat j eq_refl) as (t & Ej & Ht'). exists j. destruct (Hfree j t Ej) as [Hc Hh'].
    inversion Ht' as [t' _ Hc'|Et|Et]; subst; [congruence| |congruence].
    cbn [Z.of_nat] in Ej. rewrite Z.add_0_r, wrap_small in Ej by exact Hr. exact Ej.
Qed.

(** The second thread waits behind the owner. *)
Definition mutex_waiting : list (move call) := [Begin 0 Lock; Run 0; Run 0; Begin 1 Lock; Run 1; Run 1].
Definition waiting_run : list (event call) * sys Counter call :=
  default ([], started 16 2 (mk_counter 7 9))
    (do_moves (body 16) may mutex_waiting (started 16 2 (mk_counter 7 9))).

Lemma mutex_fifo_witness : distance (snd (unlock (snd (snd waiting_run)))) 1 = 1 - 1.
Proof.
  refine (proj1 (proj2 (proj2 (mutex_fifo 16 2 (mk_counter 7 9) (fst waiting_run) (snd waiting_run) 1 1 _ _ _ _ _))) _).
  - discriminate.
  - reflexivity.
  - reflexivity.
  - apply (run_schedule _ _ mutex_waiting). vm_compute. reflexivity.
  - vm_compute. reflexivity.
  - vm_compute. reflexivity.
Defined.
