(* ===== verification/SyncBarrier.v ===== *)
(** * CellSyncBarrier

    [CellSyncBarrier] of Emu/Cell/Modules/cellSync.h and its functions in cellSync.cpp.  The
    control word counts notifications up to the number of participants, sets its sign bit, and
    counts waits down.  Shown: with the number of participants it was initialized for, the
    rounds of the barrier do not overlap. *)

From Stdlib Require Import ZArith Lia Bool.
From stdpp Require Import base numbers list option sets.
From S2P Require Import Prelude GuestMem SyncSys.

Module CellSyncBarrier.

Record ctrl_t := mk_ctrl { value : Z; count : Z }.

Definition try_notify (ctrl : ctrl_t) : option Z * ctrl_t :=
  if negb (Z.land (value ctrl) 0x8000 =? 0) then (None, ctrl)
  else
    let v := s16 (value ctrl + 1) in
    let v := if v =? count ctrl then s16 (Z.lor v 0x8000) else v in
    (Some 0, mk_ctrl v (count ctrl)).

Definition try_wait (ctrl : ctrl_t) : option Z * ctrl_t :=
  if Z.land (value ctrl) 0x8000 =? 0 then (None, ctrl)
  else
    let v := s16 (value ctrl - 1) in
    let v := if v =? - 0x8000 then 0 else v in
    (Some 0, mk_ctrl v (count ctrl)).
End CellSyncBarrier.
Import CellSyncBarrier.

Definition checked (barrier : Z) (k : prog ctrl_t) : prog ctrl_t :=
  if barrier =? 0 then Ret CELL_SYNC_ERROR_NULL_POINTER []
  else if negb (aligned barrier 4) then Ret CELL_SYNC_ERROR_ALIGN []
  else k.

Definition cellSyncBarrierInitialize (barrier total_count : Z) : prog ctrl_t :=
  checked barrier
    (if (total_count =? 0) || (32767 <? total_count) then Ret CELL_SYNC_ERROR_INVAL []
     else Atomic (fun _ => (Some 0, mk_ctrl 0 total_count)) (fun _ => Ret CELL_OK [])).

Definition or_busy {O} (ok : option Z) : prog O :=
  match ok with None => Ret CELL_SYNC_ERROR_BUSY [] | Some _ => Ret CELL_OK [] end.
Definition cellSyncBarrierNotify (barrier : Z) : prog ctrl_t :=
  checked barrier (Spin try_notify (fun _ => Ret CELL_OK [])).
Definition cellSyncBarrierTryNotify (barrier : Z) : prog ctrl_t :=
  checked barrier (Atomic try_notify or_busy).
Definition cellSyncBarrierWait (barrier : Z) : prog ctrl_t :=
  checked barrier (Spin try_wait (fun _ => Ret CELL_OK [])).
Definition cellSyncBarrierTryWait (barrier : Z) : prog ctrl_t :=
  checked barrier (Atomic try_wait or_busy).

(** ** The two phases of the control word *)

Lemma sign_clear v : 0 <= v < 2 ^ 15 -> Z.land v 0x8000 = 0.
Proof.
  intros Hv. apply Z.bits_inj'. intros k Hk. rewrite Z.land_spec, Z.bits_0.
  change 0x8000 with (2 ^ 15). rewrite Z.pow2_bits_eqb by lia.
  destruct (Z.eqb_spec 15 k) as [<-|]; [|apply andb_false_r].
  rewrite (testbit_high 15) by (unfold in_range; lia). reflexivity.
Qed.

Lemma sign_set v : - 2 ^ 15 <= v < 0 -> Z.land v 0x8000 <> 0.
Proof.
  intros Hv E. assert (Z.testbit (Z.land v 0x8000) 15 = true) as Ht; [|rewrite E in Ht; discriminate].
  rewrite Z.land_spec. change (Z.testbit 0x8000 15) with true. rewrite andb_true_r.
  apply Z.bits_above_log2_neg; [lia|]. destruct (Z.eq_dec (Z.pred (- v)) 0) as [->|]; [reflexivity|].
  apply Z.log2_lt_pow2; lia.
Qed.

Lemma set_sign v : 0 <= v < 2 ^ 15 -> s16 (Z.lor v 0x8000) = v - 2 ^ 15.
Proof.
  intros Hv. rewrite Z.lor_comm. change 0x8000 with (Z.shiftl 1 15). rewrite lor_shiftl_small by lia.
  rewrite sint_unsigned by (unfold in_range; lia). change (16 - 1) with 15.
  destruct (Z.ltb_spec (1 * 2 ^ 15 + v) (2 ^ 15)); lia.
Qed.

(** Collecting: [v] notifications of [n]. *)
Lemma notify_collecting v n :
  0 <= v < n -> n < 2 ^ 15 ->
  try_notify (mk_ctrl v n) = (Some 0, mk_ctrl (if v + 1 =? n then n - 2 ^ 15 else v + 1) n).
Proof.
  intros Hv Hn. unfold try_notify. cbn [value count]. rewrite sign_clear by lia. cbn [Z.eqb negb].
  rewrite (sint_small 16 (v + 1)) by lia. destruct (Z.eqb_spec (v + 1) n) as [E|]; [|reflexivity].
  rewrite set_sign by lia. rewrite E. reflexivity.
Qed.
Lemma wait_collecting v n : 0 <= v < 2 ^ 15 -> try_wait (mk_ctrl v n) = (None, mk_ctrl v n).
Proof. intros Hv. unfold try_wait. cbn [value]. rewrite sign_clear by lia. reflexivity. Qed.

(** Releasing: [v] waits left. *)
Lemma wait_releasing v n :
  0 < v < 2 ^ 15 ->
  try_wait (mk_ctrl (v - 2 ^ 15) n) = (Some 0, mk_ctrl (if v =? 1 then 0 else v - 1 - 2 ^ 15) n).
Proof.
  intros Hv. unfold try_wait. cbn [value count].
  rewrite (proj2 (Z.eqb_neq _ 0)) by (apply sign_set; lia).
  rewrite (sint_small 16) by lia. change (- 0x8000) with (- 2 ^ 15).
  destruct (Z.eqb_spec (v - 2 ^ 15 - 1) (- 2 ^ 15)), (Z.eqb_spec v 1); try lia; [reflexivity|].
  do 2 f_equal. lia.
Qed.
Lemma notify_releasing v n : 0 < v < 2 ^ 15 -> try_notify (mk_ctrl (v - 2 ^ 15) n) = (None, mk_ctrl (v - 2 ^ 15) n).
Proof.
  intros Hv. unfold try_notify. cbn [value]. rewrite (proj2 (Z.eqb_neq _ 0)) by (apply sign_set; lia). reflexivity.
Qed.

(** ** Participants

    Every participant alternates a notification and a wait, each blocking or tried until it
    succeeds. *)

(** How often each participant has notified and waited. *)
Definition counts : Type := list Z * list Z.
Definition bump (i : nat) (l : list Z) : list Z := alter (fun x => x + 1) i l.
Definition at_nat (l : list Z) (i : nat) : Z := default 0 (l !! i).

Lemma at_nat_Some l i x : l !! i = Some x -> at_nat l i = x.
Proof. unfold at_nat. intros ->. reflexivity. Qed.

Lemma at_nat_bump l i j :
  (i < length l)%nat -> at_nat (bump i l) j = at_nat l j + (if decide (j = i) then 1 else 0).
Proof.
  intros [x Hx]%lookup_lt_is_Some_2. unfold at_nat, bump. destruct (decide (j = i)) as [->|Hne].
  - rewrite list_lookup_alter_eq, Hx. cbn. lia.
  - rewrite list_lookup_alter_ne by auto. lia.
Qed.

Lemma length_bump l i : length (bump i l) = length l.
Proof. apply length_alter. Qed.

Lemma total_bump l i : (i < length l)%nat -> foldr Z.add 0 (bump i l) = foldr Z.add 0 l + 1.
Proof.
  revert i. induction l as [|x l IH]; intros i Hi; cbn in *; [lia|].
  destruct i as [|i]; cbn; [lia|]. rewrite IH by lia. lia.
Qed.

Lemma Forall_bump (P Q : Z -> Prop) l i :
  Forall P l -> (forall x, P x -> Q x) -> (forall x, l !! i = Some x -> Q (x + 1)) -> Forall Q (bump i l).
Proof.
  intros Hl HPQ Hi. apply Forall_lookup. intros j x. unfold bump. destruct (decide (j = i)) as [->|Hne].
  - rewrite list_lookup_alter_eq. destruct (l !! i) as [y|] eqn:E; [|discriminate]. intros [= <-]. auto.
  - rewrite list_lookup_alter_ne by auto. intros E. apply HPQ. eapply Forall_lookup_1; eauto.
Qed.

Lemma total_const l k : Forall (fun x => x = k) l -> foldr Z.add 0 l = Z.of_nat (length l) * k.
Proof. induction 1; cbn [foldr length]; lia. Qed.

Lemma total_le l k : Forall (fun x => x <= k) l -> foldr Z.add 0 l <= Z.of_nat (length l) * k.
Proof. induction 1; cbn [foldr length]; lia. Qed.

(** Numbers of at most [k] that add up to as many times [k]. *)
Lemma all_reached l k :
  Forall (fun x => x <= k) l -> foldr Z.add 0 l = Z.of_nat (length l) * k -> Forall (fun x => x = k) l.
Proof.
  induction 1 as [|x l Hx Hl IH]; intros E; [constructor|]. cbn [foldr length] in E.
  pose proof (total_le l k Hl). constructor; [lia|apply IH; lia].
Qed.

Section Barrier.
Context (barrier : Z).

Inductive call := Notify | TryNotify | Wait | TryWait.
Definition body (c : call) : prog ctrl_t :=
  match c with
  | Notify => cellSyncBarrierNotify barrier
  | TryNotify => cellSyncBarrierTryNotify barrier
  | Wait => cellSyncBarrierWait barrier
  | TryWait => cellSyncBarrierTryWait barrier
  end.
Definition may (c : call) (code : Z) (c' : call) : bool :=
  match c, c' with
  | (Notify | TryNotify), (Wait | TryWait) => code =? CELL_OK
  | (Wait | TryWait), (Notify | TryNotify) => code =? CELL_OK
  | TryNotify, (Notify | TryNotify) => code =? CELL_SYNC_ERROR_BUSY
  | TryWait, (Wait | TryWait) => code =? CELL_SYNC_ERROR_BUSY
  | _, _ => false
  end.

(** The sequential barrier.  A notification returns when every participant has waited as often
    as the caller has notified before; a wait, when every one has notified more often than the
    caller has waited before. *)
Definition barrier_spec (a : counts) (e : event call) : option counts :=
  let '(ns, ws) := a in
  let i := ev_thread e in
  match ev_call e with
  | Notify | TryNotify =>
      if ev_code e =? CELL_OK then
        if forallb (fun w => at_nat ns i <=? w) ws then Some (bump i ns, ws) else None
      else if ev_code e =? CELL_SYNC_ERROR_BUSY then Some a else None
  | Wait | TryWait =>
      if ev_code e =? CELL_OK then
        if forallb (fun n => at_nat ws i <? n) ns then Some (ns, bump i ws) else None
      else if ev_code e =? CELL_SYNC_ERROR_BUSY then Some a else None
  end.

(** The control word in round [k] (from 0). *)
Inductive phase (n k : Z) (ns ws : list Z) : Z -> Prop :=
| collecting v :
    Forall (fun w => w = k) ws -> Forall (fun x => k <= x <= k + 1) ns ->
    foldr Z.add 0 ns = n * k + v -> 0 <= v < n -> phase n k ns ws v
| releasing v :
    Forall (fun x => x = k + 1) ns -> Forall (fun w => k <= w <= k + 1) ws ->
    foldr Z.add 0 ws = n * (k + 1) - v -> 0 < v <= n -> phase n k ns ws (v - 2 ^ 15).

(** The participant's place in its cycle: about to notify, or about to wait. *)
Inductive thread_ok (nb : bool) : thread ctrl_t call -> Prop :=
| ok_ret c code out :
    (nb = true /\ ((c = Wait \/ c = TryWait) /\ code = CELL_OK \/ c = TryNotify /\ code = CELL_SYNC_ERROR_BUSY) \/
     nb = false /\ ((c = Notify \/ c = TryNotify) /\ code = CELL_OK \/ c = TryWait /\ code = CELL_SYNC_ERROR_BUSY)) ->
    thread_ok nb (c, Ret code out)
| ok_notify c : nb = true -> c = Notify \/ c = TryNotify -> thread_ok nb (c, body c)
| ok_wait c : nb = false -> c = Wait \/ c = TryWait -> thread_ok nb (c, body c)
| ok_halt c : thread_ok nb (c, Halt 0).

Record related (n : nat) (s : sys ctrl_t call) (a : counts) : Prop := {
  r_len : length (fst s) = n;
  r_ns : length (fst a) = n;
  r_ws : length (snd a) = n;
  r_count : count (snd s) = Z.of_nat n;
  r_phase : exists k, 0 <= k /\ phase (Z.of_nat n) k (fst a) (snd a) (value (snd s));
  r_thr : forall i t, fst s !! i = Some t ->
    exists nb : bool, thread_ok nb t /\ at_nat (fst a) i = at_nat (snd a) i + (if nb then 0 else 1);
}.

Lemma forallb_Forall (f : Z -> bool) (P : Z -> Prop) l :
  Forall P l -> (forall x, P x -> f x = true) -> forallb f l = true.
Proof. intros Hl H. induction Hl; cbn; [reflexivity|]. rewrite H, IHHl; auto. Qed.

Section Phases.
Context (n k : Z) (ns ws : list Z) (v : Z) (i : nat).
Context (Hp : phase n k ns ws v) (Hn : 0 < n < 2 ^ 15) (Hk : 0 <= k).
Context (Hns : Z.of_nat (length ns) = n) (Hws : Z.of_nat (length ws) = n) (Hi : (i < length ns)%nat).

(** A notification by a participant that has waited as often as it has notified. *)
Lemma notify_step :
  at_nat ns i = at_nat ws i ->
  try_notify (mk_ctrl v n) = (None, mk_ctrl v n) \/
  exists v', try_notify (mk_ctrl v n) = (Some 0, mk_ctrl v' n) /\
    forallb (fun w => at_nat ns i <=? w) ws = true /\ phase n k (bump i ns) ws v'.
Proof using Hp Hn Hns Hws Hi.
  intros E. destruct (lookup_lt_is_Some_2 ns i Hi) as [x Hx].
  destruct (lookup_lt_is_Some_2 ws i ltac:(lia)) as [w Hw].
  rewrite (at_nat_Some _ _ _ Hx), (at_nat_Some _ _ _ Hw) in E. subst w.
  destruct Hp as [u Hw' Hn' Hs Hu|u Hn' Hw' Hs Hu].
  2: { left. apply notify_releasing. lia. }
  right. pose proof (Forall_lookup_1 _ _ _ _ Hw' Hw) as Ex. cbn in Ex. subst x.
  pose proof (total_bump ns i Hi) as Ht.
  assert (Forall (fun x => k <= x <= k + 1) (bump i ns)) as Hb.
  { apply (Forall_bump _ _ _ _ Hn'); [auto|]. intros y Hy. rewrite Hx in Hy. injection Hy as <-. lia. }
  rewrite notify_collecting by lia. eexists. split; [reflexivity|]. split.
  { rewrite (at_nat_Some _ _ _ Hx). apply (forallb_Forall _ _ _ Hw'). intros y ->. apply Z.leb_refl. }
  destruct (Z.eqb_spec (u + 1) n) as [El|El]; [|apply collecting; auto; lia].
  apply releasing; [| |rewrite (total_const _ _ Hw'), Hws; lia|lia].
  - apply all_reached; [eapply Forall_impl; [exact Hb|]; intros y Hy; cbn in *; lia|].
    rewrite length_bump, Hns. lia.
  - eapply Forall_impl; [exact Hw'|]. intros y Hy; cbn in *. lia.
Qed.

(** A wait by a participant that has notified. *)
Lemma wait_step :
  at_nat ns i = at_nat ws i + 1 ->
  (try_wait (mk_ctrl v n) = (None, mk_ctrl v n) /\ exists j, (j < length ns)%nat /\ at_nat ns j <= at_nat ws i) \/
  exists v' k', try_wait (mk_ctrl v n) = (Some 0, mk_ctrl v' n) /\
    forallb (fun x => at_nat ws i <? x) ns = true /\ 0 <= k' /\ phase n k' ns (bump i ws) v'.
Proof using Hp Hn Hk Hns Hws Hi.
  intros E. destruct (lookup_lt_is_Some_2 ns i Hi) as [x Hx].
  destruct (lookup_lt_is_Some_2 ws i ltac:(lia)) as [w Hw].
  rewrite (at_nat_Some _ _ _ Hx), (at_nat_Some _ _ _ Hw) in *.
  destruct Hp as [u Hw' Hn' Hs Hu|u Hn' Hw' Hs Hu].
  { left. split; [apply wait_collecting; lia|].
    pose proof (Forall_lookup_1 _ _ _ _ Hw' Hw) as Ew. cbn in Ew. subst w.
    destruct (decide (Forall (fun y => y = k + 1) ns)) as [Hall|Hno].
    - rewrite (total_const _ _ Hall) in Hs. nia.
    - apply not_Forall_Exists in Hno; [|intros; apply decide_rel; apply _].
      apply Exists_exists in Hno as (y & Hy & Hne). apply list_elem_of_lookup in Hy as [j Hj].
      exists j. split; [eapply lookup_lt_Some; eauto|]. rewrite (at_nat_Some _ _ _ Hj).
      pose proof (Forall_lookup_1 _ _ _ _ Hn' Hj). cbn in *. lia. }
  right. pose proof (Forall_lookup_1 _ _ _ _ Hn' Hx) as Ex. cbn in Ex.
  assert (i < length ws)%nat as Hi' by lia. pose proof (total_bump ws i Hi') as Ht.
  assert (Forall (fun y => k <= y <= k + 1) (bump i ws)) as Hb.
  { apply (Forall_bump _ _ _ _ Hw'); [auto|]. intros y Hy. rewrite Hw in Hy. injection Hy as <-. lia. }
  rewrite wait_releasing by lia.
  assert (forallb (fun y => w <? y) ns = true) as Hf.
  { apply (forallb_Forall _ _ _ Hn'). intros y ->. apply Z.ltb_lt. lia. }
  destruct (Z.eqb_spec u 1) as [El|El].
  - exists 0, (k + 1). split; [reflexivity|]. split; [exact Hf|]. split; [lia|].
    apply collecting; [| |rewrite (total_const _ _ Hn'), Hns; lia|lia].
    + apply all_reached; [eapply Forall_impl; [exact Hb|]; intros y Hy; cbn in *; lia|].
      rewrite length_bump, Hws. lia.
    + eapply Forall_impl; [exact Hn'|]. intros y Hy; cbn in *. lia.
  - exists (u - 1 - 2 ^ 15), k. split; [reflexivity|]. split; [exact Hf|]. split; [lia|].
    apply releasing; [exact Hn'|exact Hb|lia|lia].
Qed.
End Phases.

Context (Hnull : barrier <> 0) (Halign : aligned barrier 4 = true).

Lemma barrier_checked_ok k : checked barrier k = k.
Proof using Hnull Halign. unfold checked. rewrite Halign. destruct (Z.eqb_spec barrier 0); [contradiction|reflexivity]. Qed.

(** Thread [i] changes and at most its own counters do. *)
Lemma barrier_related_update n ts o a i t' c' a' nb :
  related n (ts, o) a -> (i < n)%nat -> count c' = Z.of_nat n ->
  length (fst a') = n -> length (snd a') = n ->
  (exists k, 0 <= k /\ phase (Z.of_nat n) k (fst a') (snd a') (value c')) ->
  (forall j, j <> i -> at_nat (fst a') j = at_nat (fst a) j /\ at_nat (snd a') j = at_nat (snd a) j) ->
  thread_ok nb t' -> at_nat (fst a') i = at_nat (snd a') i + (if nb then 0 else 1) ->
  related n (<[i := t']> ts, c') a'.
Proof.
  intros [Hl _ _ _ _ Ht] Hi Hc Hns Hws Hp Hoth Hme He. split; cbn [fst snd] in *; auto.
  - rewrite length_insert. exact Hl.
  - intros j t E. destruct (decide (j = i)) as [->|Hne].
    + rewrite list_lookup_insert_eq in E by lia. injection E as <-. eauto.
    + rewrite list_lookup_insert_ne in E by auto. destruct (Hoth j Hne) as [-> ->]. eauto.
Qed.

Section Steps.
Context (n : nat) (Hn : 0 < Z.of_nat n < 2 ^ 15) (ts : list (thread ctrl_t call)) (o : ctrl_t) (ns ws : list Z).
Context (HR : related n (ts, o) (ns, ws)) (i : nat) (Hi : (i < n)%nat).

(** Only the program of thread [i] changes. *)
Lemma barrier_local_step t' nb :
  thread_ok nb t' -> at_nat ns i = at_nat ws i + (if nb then 0 else 1) ->
  related n (<[i := t']> ts, o) (ns, ws).
Proof using HR Hi.
  intros Ht E. pose proof HR as [Hl Hns Hws Hc Hp _].
  apply (barrier_related_update n ts o (ns, ws) i t' o (ns, ws) nb); auto.
Qed.

Lemma notify_related c :
  c = Notify \/ c = TryNotify -> at_nat ns i = at_nat ws i ->
  try_notify o = (None, o) \/
  exists o', try_notify o = (Some 0, o') /\
    barrier_spec (ns, ws) (mk_event i c CELL_OK []) = Some (bump i ns, ws) /\
    related n (<[i := (c, Ret CELL_OK [])]> ts, o') (bump i ns, ws).
Proof using HR Hi Hn.
  intros Hc E. pose proof HR as [Hl Hns Hws Hcnt (k & Hk & Hp) _]. cbn [fst snd] in *.
  destruct o as [v cnt]. cbn [count value] in *. subst cnt.
  destruct (notify_step (Z.of_nat n) k ns ws v i Hp Hn ltac:(lia) ltac:(lia) ltac:(lia) E)
    as [Ef|(v' & Es & Hf & Hp')]; [left; exact Ef|right].
  exists (mk_ctrl v' (Z.of_nat n)). split; [exact Es|]. split.
  { destruct Hc as [-> | ->]; cbn; rewrite Hf; reflexivity. }
  eapply (barrier_related_update _ _ _ (ns, ws) _ _ _ (bump i ns, ws) false); cbn [fst snd]; eauto.
  - rewrite length_bump. exact Hns.
  - intros j Hne. rewrite at_nat_bump by lia. destruct (decide (j = i)); [contradiction|]. split; lia.
  - apply ok_ret. right. tauto.
  - rewrite at_nat_bump by lia. destruct (decide (i = i)); [|contradiction]. lia.
Qed.

Lemma wait_related c :
  c = Wait \/ c = TryWait -> at_nat ns i = at_nat ws i + 1 ->
  try_wait o = (None, o) \/
  exists o', try_wait o = (Some 0, o') /\
    barrier_spec (ns, ws) (mk_event i c CELL_OK []) = Some (ns, bump i ws) /\
    related n (<[i := (c, Ret CELL_OK [])]> ts, o') (ns, bump i ws).
Proof using HR Hi Hn.
  intros Hc E. pose proof HR as [Hl Hns Hws Hcnt (k & Hk & Hp) _]. cbn [fst snd] in *.
  destruct o as [v cnt]. cbn [count value] in *. subst cnt.
  destruct (wait_step (Z.of_nat n) k ns ws v i Hp Hn Hk ltac:(lia) ltac:(lia) ltac:(lia) E)
    as [[Ef _]|(v' & k' & Es & Hf & Hk' & Hp')]; [left; exact Ef|right].
  exists (mk_ctrl v' (Z.of_nat n)). split; [exact Es|]. split.
  { destruct Hc as [-> | ->]; cbn; rewrite Hf; reflexivity. }
  eapply (barrier_related_update _ _ _ (ns, ws) _ _ _ (ns, bump i ws) true); cbn [fst snd]; eauto.
  - rewrite length_bump. exact Hws.
  - intros j Hne. rewrite at_nat_bump by lia. destruct (decide (j = i)); [contradiction|]. split; lia.
  - apply ok_ret. left. tauto.
  - rewrite at_nat_bump by lia. destruct (decide (i = i)); [|contradiction]. lia.
Qed.
End Steps.

(** The functions in one form: the operation on the control word, and what follows a failure. *)
Definition notifies (c : call) : bool := match c with Notify | TryNotify => true | _ => false end.
Definition op (c : call) : ctrl_t -> option Z * ctrl_t := if notifies c then try_notify else try_wait.
Definition failed (c : call) (stopped : bool) : prog ctrl_t :=
  match c with
  | TryNotify | TryWait => Ret CELL_SYNC_ERROR_BUSY []
  | _ => if stopped then Halt 0 else body c
  end.

Lemma barrier_body_step c o stopped :
  pstep stopped (body c) o =
    Some (match fst (op c o) with Some _ => Ret CELL_OK [] | None => failed c stopped end, snd (op c o)).
Proof using Hnull Halign.
  destruct c; cbn [body failed]; unfold cellSyncBarrierNotify, cellSyncBarrierTryNotify, cellSyncBarrierWait,
    cellSyncBarrierTryWait, op; rewrite !barrier_checked_ok; cbn [pstep notifies];
    [destruct (try_notify o) as [[v|] o1]|destruct (try_notify o) as [[v|] o1]
    |destruct (try_wait o) as [[v|] o1]|destruct (try_wait o) as [[v|] o1]]; reflexivity.
Qed.

Lemma barrier_body_not_ret c i : returned i (c, body c) = [].
Proof using Hnull Halign.
  destruct c; cbn [body]; unfold cellSyncBarrierNotify, cellSyncBarrierTryNotify, cellSyncBarrierWait,
    cellSyncBarrierTryWait; rewrite barrier_checked_ok; reflexivity.
Qed.

Lemma ok_body c : thread_ok (notifies c) (c, body c).
Proof. destruct c; [apply ok_notify|apply ok_notify|apply ok_wait|apply ok_wait]; auto. Qed.

(** A failed attempt changes nothing. *)
Lemma barrier_ok_failed c stopped : thread_ok (notifies c) (c, failed c stopped).
Proof. destruct c, stopped; try apply ok_halt; try apply ok_body; apply ok_ret; cbn; tauto. Qed.
Lemma barrier_spec_failed c stopped i a : spec_run barrier_spec a (returned i (c, failed c stopped)) = Some a.
Proof using Hnull Halign. destruct a, c, stopped; cbn [failed]; rewrite ?barrier_body_not_ret; reflexivity. Qed.

Lemma barrier_run n ts o i c stopped p' o' a nb :
  0 < Z.of_nat n < 2 ^ 15 -> related n (ts, o) a -> (i < n)%nat ->
  notifies c = nb -> at_nat (fst a) i = at_nat (snd a) i + (if nb then 0 else 1) ->
  pstep stopped (body c) o = Some (p', o') ->
  exists a', spec_run barrier_spec a (returned i (c, p')) = Some a' /\ related n (<[i := (c, p')]> ts, o') a'.
Proof using Hnull Halign.
  intros Hn HR Hin <- E. destruct a as [ns ws]. cbn [fst snd] in E. rewrite barrier_body_step. intros [= <- <-].
  assert (op c o = (None, o) \/ exists o1 a1, op c o = (Some 0, o1) /\
            barrier_spec (ns, ws) (mk_event i c CELL_OK []) = Some a1 /\
            related n (<[i := (c, Ret CELL_OK [])]> ts, o1) a1) as [-> |(o1 & a1 & -> & Hsp & HR')].
  { unfold op. destruct c; cbn [notifies] in *;
      [destruct (notify_related n Hn ts o ns ws HR i Hin Notify) as [?|(?&?&?&?)]
      |destruct (notify_related n Hn ts o ns ws HR i Hin TryNotify) as [?|(?&?&?&?)]
      |destruct (wait_related n Hn ts o ns ws HR i Hin Wait) as [?|(?&?&?&?)]
      |destruct (wait_related n Hn ts o ns ws HR i Hin TryWait) as [?|(?&?&?&?)]];
      auto; try lia; right; eauto. }
  - exists (ns, ws). cbn [fst snd]. split; [apply barrier_spec_failed|].
    eapply barrier_local_step; [exact HR|exact Hin|apply barrier_ok_failed|exact E].
  - exists a1. split; [|exact HR']. cbn [fst returned spec_run]. rewrite Hsp. reflexivity.
Qed.

Lemma may_next nb c code out c' :
  thread_ok nb (c, Ret code out) -> may c code c' = true -> notifies c' = nb.
Proof using Hnull Halign.
  intros Ht Hm. assert (forall c1, body c1 <> Ret code out) as Hb.
  { intros c1 E. pose proof (barrier_body_not_ret c1 0) as H. rewrite E in H. discriminate. }
  inversion Ht as [c1 co ou Hc|c1 Hnb Hc H1|c1 Hnb Hc H1|]; subst; try (exfalso; eapply Hb; eassumption).
  destruct Hc as [[-> [[[-> | ->] ->]|[-> ->]]]|[-> [[[-> | ->] ->]|[-> ->]]]], c'; vm_compute in Hm; vm_compute; congruence.
Qed.

Lemma barrier_step n s a l s' :
  0 < Z.of_nat n < 2 ^ 15 -> related n s a -> sys_step body may s l s' ->
  exists a', spec_run barrier_spec a l = Some a' /\ related n s' a'.
Proof using Hnull Halign.
  intros Hn HR Hs. revert HR. destruct Hs as [ts o i c p stopped p' o' Hi Hp|ts o i c code out c' Hi Hm]; intros HR;
    (assert (i < n)%nat as Hin by (rewrite <- (r_len _ _ _ HR); apply lookup_lt_Some in Hi; exact Hi));
    destruct (r_thr _ _ _ HR i _ Hi) as (nb & Ht & E).
  - inversion Ht as [c1 code out Hc E1|c1 Hb Hc E1|c1 Hb Hc E1|c1 E1]; subst; try discriminate;
      [eapply (barrier_run _ _ _ _ c _ _ _ _ true)|eapply (barrier_run _ _ _ _ c _ _ _ _ false)];
      try exact Hn; try exact HR; try exact Hin; try exact E; try exact Hp;
      destruct Hc as [-> | ->]; reflexivity.
  - exists a. rewrite barrier_body_not_ret. split; [reflexivity|]. destruct a as [ns ws].
    eapply barrier_local_step; [exact HR|exact Hin|apply ok_body|]. rewrite (may_next nb c code out c' Ht Hm). exact E.
Qed.

(** The barrier after its initialization, nobody having notified. *)
Definition started (n : nat) (o : ctrl_t) : sys ctrl_t call :=
  idle n Wait CELL_OK (snd (run_alone 1 (cellSyncBarrierInitialize barrier (Z.of_nat n)) o)).

Lemma barrier_start n o :
  0 < Z.of_nat n < 2 ^ 15 -> related n (started n o) (replicate n 0, replicate n 0).
Proof using Hnull Halign.
  intros Hn. unfold started, cellSyncBarrierInitialize. rewrite barrier_checked_ok.
  destruct (Z.eqb_spec (Z.of_nat n) 0), (Z.ltb_spec 32767 (Z.of_nat n)); try lia. cbn [orb run_alone pstep snd].
  split; cbn [fst snd idle count value]; rewrite ?length_replicate; auto.
  - exists 0. split; [lia|]. apply collecting.
    + apply Forall_replicate. reflexivity.
    + apply Forall_replicate. lia.
    + rewrite (total_const _ 0) by (apply Forall_replicate; reflexivity). lia.
    + lia.
  - intros i t [-> _]%lookup_replicate. exists true. split; [apply ok_ret; tauto|lia].
Qed.

Lemma barrier_related n o tr s :
  0 < Z.of_nat n < 2 ^ 15 -> sys_steps body may (started n o) tr s ->
  exists a, spec_run barrier_spec (replicate n 0, replicate n 0) tr = Some a /\ related n s a.
Proof using Hnull Halign.
  intros Hn. apply simulation; [apply barrier_start; exact Hn|]. intros s1 a l s2. apply barrier_step. exact Hn.
Qed.

(** Rounds do not overlap. *)
Lemma phase_rounds n k ns ws v i j :
  phase n k ns ws v -> (i < length ws)%nat -> (j < length ns)%nat -> at_nat ws i <= at_nat ns j <= at_nat ws i + 1.
Proof.
  intros Hp [w Hw]%lookup_lt_is_Some_2 [x Hx]%lookup_lt_is_Some_2.
  rewrite (at_nat_Some _ _ _ Hw), (at_nat_Some _ _ _ Hx).
  destruct Hp as [u H1 H2 _ _|u H2 H1 _ _]; pose proof (Forall_lookup_1 _ _ _ _ H1 Hw);
    pose proof (Forall_lookup_1 _ _ _ _ H2 Hx); cbn in *; lia.
Qed.

Lemma about_to_wait nb : thread_ok nb (Wait, body Wait) -> nb = false.
Proof using Hnull Halign.
  inversion 1; subst; auto; cbn [body] in *; unfold cellSyncBarrierWait in *;
    repeat match goal with H : context [checked barrier _] |- _ => rewrite barrier_checked_ok in H end;
    first [discriminate|intuition discriminate].
Qed.
End Barrier.

(** C29: the barrier.  A barrier initialized for [n] participants (1 to 32767) is used by [n]
    threads that notify and wait in turn, blocking or trying, in any interleaving.  The calls
    return as those of a sequential barrier: a notification only when all have left the
    previous round, a wait only when all have notified; so no thread is ever a round ahead
    of another; and a wait that fails has a participant that has not notified yet. *)
Theorem barrier_rounds barrier n o tr s :
  barrier <> 0 -> aligned barrier 4 = true -> 0 < Z.of_nat n < 2 ^ 15 ->
  sys_steps (body barrier) may (started barrier n o) tr s ->
  exists ns ws, spec_run barrier_spec (replicate n 0, replicate n 0) tr = Some (ns, ws) /\
    length ns = n /\ length ws = n /\
    (forall i j, (i < n)%nat -> (j < n)%nat -> at_nat ws i <= at_nat ns j <= at_nat ws i + 1) /\
    (forall i, (i < n)%nat -> fst s !! i = Some (Wait, body barrier Wait) -> fst (try_wait (snd s)) = None ->
       exists j, (j < n)%nat /\ at_nat ns j <= at_nat ws i).
Proof.
  intros Hb Ha Hn Hs. destruct (barrier_related barrier Hb Ha n o tr s Hn Hs) as ([ns ws] & E & HR).
  pose proof HR as [Hl Hns Hws Hc (k & Hk & Hp) Ht]. cbn [fst snd] in *.
  exists ns, ws. split; [exact E|]. split; [exact Hns|]. split; [exact Hws|]. split.
  - intros i j Hi Hj. eapply phase_rounds; [exact Hp|lia|lia].
  - intros i Hi Hw Hf. destruct (Ht i _ Hw) as (nb & Hok & En).
    rewrite (about_to_wait barrier Hb Ha nb Hok) in En.
    destruct (snd s) as [v cnt]. cbn [count value] in *. subst cnt.
    destruct (wait_step (Z.of_nat n) k ns ws v i Hp Hn Hk ltac:(lia) ltac:(lia) ltac:(lia) En)
      as [[_ (j & Hj & Hle)]|(v' & k' & Es & _)]; [exists j; split; [lia|exact Hle]|].
    rewrite Es in Hf. discriminate.
Qed.

(** Two participants; the second waits for the first. *)
Definition barrier_schedule : list (move call) :=
  [Begin 1 Notify; Run 1; Begin 1 Wait; Run 1; Begin 0 TryNotify; Run 0; Run 1].
Definition barrier_sample : list (event call) * sys ctrl_t call :=
  default ([], started 16 2 (mk_ctrl 0 0)) (do_moves (body 16) may barrier_schedule (started 16 2 (mk_ctrl 0 0))).

Lemma barrier_rounds_witness :
  fst barrier_sample = [mk_event 1 Notify CELL_OK []; mk_event 0 TryNotify CELL_OK []; mk_event 1 Wait CELL_OK []] /\
  exists ns ws, spec_run barrier_spec ([0; 0], [0; 0]) (fst barrier_sample) = Some (ns, ws).
Proof.
  split; [vm_compute; reflexivity|].
  destruct (barrier_rounds 16 2 (mk_ctrl 0 0) (fst barrier_sample) (snd barrier_sample)) as (ns & ws & E & _).
  - discriminate.
  - reflexivity.
  - lia.
  - apply (run_schedule _ _ barrier_schedule). vm_compute. reflexivity.
  - exists ns, ws. exact E.
Defined.
