(* ===== verification/SyncRwm.v ===== *)
(** * CellSyncRwm: a buffer with readers and one writer

    [CellSyncRwm] of Emu/Cell/Modules/cellSync.h and its functions in cellSync.cpp: readers
    are counted in and out, a writer announces itself, waits for the readers to leave and
    copies.  The copies are byte by byte here, interleaved with the other threads.  Shown:
    the object is an atomic register, so that no read sees part of a write. *)

From Stdlib Require Import ZArith Lia Bool.
From stdpp Require Import base numbers list option sets.
From S2P Require Import Prelude GuestMem SyncSys.

Module CellSyncRwm.

Record ctrl_t := mk_ctrl { readers : Z; writers : Z }.

Definition try_read_begin (c : ctrl_t) : option Z * ctrl_t :=
  if negb (writers c =? 0) then (None, c)
  else (Some 0, mk_ctrl (u16 (readers c + 1)) (writers c)).
Definition try_read_end (c : ctrl_t) : option Z * ctrl_t :=
  if readers c =? 0 then (None, c)
  else (Some 0, mk_ctrl (u16 (readers c - 1)) (writers c)).
Definition try_write_begin (c : ctrl_t) : option Z * ctrl_t :=
  if negb (writers c =? 0) then (None, c) else (Some 0, mk_ctrl (readers c) 1).

(** The object, with the bytes its [buffer] points to. *)
Record t := mk { ctrl : ctrl_t; size : Z; buffer : Z; data : list Z }.
End CellSyncRwm.
Import CellSyncRwm.

Abbreviation rwm_t := CellSyncRwm.t.

(** [rwm->ctrl.atomic_op(f)]. *)
Definition on_ctrl (f : ctrl_t -> option Z * ctrl_t) (o : rwm_t) : option Z * rwm_t :=
  let '(r, c) := f (ctrl o) in (r, mk c (size o) (buffer o) (data o)).
Definition get_byte (i : nat) (o : rwm_t) : Z := default 0 (data o !! i).
Definition put_byte (i : nat) (b : Z) (o : rwm_t) : rwm_t :=
  mk (ctrl o) (size o) (buffer o) (<[i := b]> (data o)).
Definition load_size (o : rwm_t) : option Z * rwm_t := (Some (size o), o).

(** [bytes] is what guest memory holds at [buffer]. *)
Definition cellSyncRwmInitialize (rwm buffer buffer_size : Z) (bytes : list Z) : prog rwm_t :=
  if (rwm =? 0) || (buffer =? 0) then Ret CELL_SYNC_ERROR_NULL_POINTER []
  else if negb (aligned rwm 16) || negb (aligned buffer 128) then Ret CELL_SYNC_ERROR_ALIGN []
  else if negb (buffer_size mod 128 =? 0) || (0x4000 <? buffer_size) then Ret CELL_SYNC_ERROR_INVAL []
  else Atomic (fun _ => (Some 0, mk (mk_ctrl 0 0) buffer_size buffer bytes)) (fun _ => Ret CELL_OK []).

Definition checked (rwm buffer : Z) (k : prog rwm_t) : prog rwm_t :=
  if (rwm =? 0) || (buffer =? 0) then Ret CELL_SYNC_ERROR_NULL_POINTER []
  else if negb (aligned rwm 16) then Ret CELL_SYNC_ERROR_ALIGN []
  else k.

(** The copy to the caller's buffer, and leaving. *)
Definition read_end (out : list Z) : prog rwm_t :=
  Atomic (on_ctrl try_read_end) (fun ok =>
    match ok with None => Ret CELL_SYNC_ERROR_ABORT out | Some _ => Ret CELL_OK out end).
Definition read_copy : prog rwm_t :=
  Atomic load_size (fun n => copy_out get_byte (Z.to_nat (default 0 n)) 0 [] read_end).

Definition cellSyncRwmRead (rwm buffer : Z) : prog rwm_t :=
  checked rwm buffer (Spin (on_ctrl try_read_begin) (fun _ => read_copy)).
Definition cellSyncRwmTryRead (rwm buffer : Z) : prog rwm_t :=
  checked rwm buffer (Atomic (on_ctrl try_read_begin) (fun ok =>
    match ok with None => Ret CELL_SYNC_ERROR_BUSY [] | Some _ => read_copy end)).

(** The copy of the caller's bytes [src], and the release. *)
Definition write_end : prog rwm_t :=
  Atomic (on_ctrl (fun _ => (Some 0, mk_ctrl 0 0))) (fun _ => Ret CELL_OK []).
Definition write_copy (src : list Z) : prog rwm_t :=
  Atomic load_size (fun n => copy_in put_byte (take (Z.to_nat (default 0 n)) src) 0 write_end).
Definition wait_readers (src : list Z) : prog rwm_t :=
  Spin (on_ctrl (fun c => (if negb (readers c =? 0) then None else Some 0, c))) (fun _ => write_copy src).

Definition cellSyncRwmWrite (rwm buffer : Z) (src : list Z) : prog rwm_t :=
  checked rwm buffer (Spin (on_ctrl try_write_begin) (fun _ => wait_readers src)).
Definition cellSyncRwmTryWrite (rwm buffer : Z) (src : list Z) : prog rwm_t :=
  checked rwm buffer (Atomic
    (on_ctrl (fun c => if (readers c =? 0) && (writers c =? 0) then (Some 0, mk_ctrl 0 1) else (None, c)))
    (fun ok => match ok with None => Ret CELL_SYNC_ERROR_BUSY [] | Some _ => write_copy src end)).

(** ** Threads that use one object

    Any thread may make any call at any time; a writer's buffer holds [n] bytes. *)

Section Rwm.
Context (rwm buf : Z) (N : nat).

Inductive call := Read | TryRead | Write (src : list Z) | TryWrite (src : list Z).
Definition body (c : call) : prog rwm_t :=
  match c with
  | Read => cellSyncRwmRead rwm buf
  | TryRead => cellSyncRwmTryRead rwm buf
  | Write src => cellSyncRwmWrite rwm buf src
  | TryWrite src => cellSyncRwmTryWrite rwm buf src
  end.
Definition may (_ : call) (_ : Z) (c' : call) : bool :=
  match c' with Write src | TryWrite src => (length src =? N)%nat | _ => true end.

(** The sequential register.  A tried call may fail at any time. *)
Definition register_spec (v : list Z) (e : event call) : option (list Z) :=
  match ev_call e with
  | Read | TryRead =>
      if ev_code e =? CELL_OK then if decide (ev_out e = v) then Some v else None
      else match ev_call e with
           | TryRead => if ev_code e =? CELL_SYNC_ERROR_BUSY then Some v else None
           | _ => None
           end
  | Write src => if ev_code e =? CELL_OK then Some src else None
  | TryWrite src => if ev_code e =? CELL_OK then Some src
                    else if ev_code e =? CELL_SYNC_ERROR_BUSY then Some v else None
  end.

(** What a thread is doing to the object: nothing, reading (the bytes it has), waiting to
    write, or writing (how many bytes of what). *)
Inductive mode := Out | Rd (acc : list Z) | Claim | Wr (i : nat) (src : list Z).
Definition is_rd (m : mode) : bool := match m with Rd _ => true | _ => false end.
Definition is_writer (m : mode) : bool := match m with Claim | Wr _ _ => true | _ => false end.

Inductive thread_ok (v : list Z) : mode -> thread rwm_t call -> Prop :=
| ok_ret c code out : thread_ok v Out (c, Ret code out)
| ok_halt c : thread_ok v Out (c, Halt 0)
| ok_body c : may c 0 c = true -> thread_ok v Out (c, body c)
| ok_read_copy c : c = Read \/ c = TryRead -> thread_ok v (Rd []) (c, read_copy)
| ok_copying c i : c = Read \/ c = TryRead -> (i <= N)%nat ->
    thread_ok v (Rd (take i v)) (c, copy_out get_byte (N - i) i (take i v) read_end)
| ok_claim src : length src = N -> thread_ok v Claim (Write src, wait_readers src)
| ok_claim_halt c : thread_ok v Claim (c, Halt 0)
| ok_write_copy c src : c = Write src \/ c = TryWrite src -> length src = N ->
    thread_ok v (Wr 0 src) (c, write_copy src)
| ok_writing c src i : c = Write src \/ c = TryWrite src -> length src = N -> (i <= N)%nat ->
    thread_ok v (Wr i src) (c, copy_in put_byte (drop i src) i write_end).

(** The bytes of the buffer while a thread writes. *)
Definition content (v : list Z) (m : mode) : list Z :=
  match m with Wr i src => take i src ++ drop i v | _ => v end.

Record related (n : nat) (ms : list mode) (w : option nat) (s : sys rwm_t call) (v : list Z) : Prop := {
  r_len : length (fst s) = n;
  r_modes : length ms = n;
  r_val : length v = N;
  r_size : size (snd s) = Z.of_nat N;
  r_readers : readers (ctrl (snd s)) = Z.of_nat (length (filter is_rd ms));
  r_writers : writers (ctrl (snd s)) = (match w with Some _ => 1 | None => 0 end);
  r_writer : forall i m, ms !! i = Some m -> is_writer m = true -> w = Some i;
  r_live : forall i, w = Some i -> exists m, ms !! i = Some m /\ is_writer m = true;
  r_writing : forall i k src, ms !! i = Some (Wr k src) -> length (filter is_rd ms) = 0%nat;
  r_data : data (snd s) = match w with
                          | Some i => content v (default Out (ms !! i))
                          | None => v
                          end;
  r_thr : forall i t, fst s !! i = Some t -> exists m, ms !! i = Some m /\ thread_ok v m t;
}.

Lemma count_insert (ms : list mode) i m m' :
  ms !! i = Some m ->
  Z.of_nat (length (filter is_rd (<[i := m']> ms))) =
    Z.of_nat (length (filter is_rd ms)) - Z.b2z (is_rd m) + Z.b2z (is_rd m').
Proof.
  revert i. induction ms as [|x ms IH]; intros i E; [discriminate|].
  destruct i as [|i]; cbn in E.
  - injection E as ->. cbn [insert list_insert]. rewrite !filter_cons.
    destruct m, m'; cbn [is_rd Z.b2z decide]; repeat case_decide; cbn [length]; try lia; cbn in *; tauto.
  - change (<[S i := m']> (x :: ms)) with (x :: <[i := m']> ms). rewrite !filter_cons.
    specialize (IH i E). repeat case_decide; cbn [length]; lia.
Qed.

Lemma reader_counted (ms : list mode) i m : ms !! i = Some m -> is_rd m = true -> (0 < length (filter is_rd ms))%nat.
Proof.
  intros E Hr. assert (m ∈ filter is_rd ms) as Hin.
  { apply list_elem_of_filter. rewrite Hr. split; [exact I|]. eapply list_elem_of_lookup_2; eauto. }
  destruct (filter is_rd ms); [apply not_elem_of_nil in Hin; contradiction|cbn; lia].
Qed.

Lemma rwm_related_update n ms w ts o v i m m' w' o' v' t' :
  related n ms w (ts, o) v -> ms !! i = Some m -> size o' = size o -> length v' = N ->
  readers (ctrl o') = readers (ctrl o) - Z.b2z (is_rd m) + Z.b2z (is_rd m') ->
  writers (ctrl o') = match w' with Some _ => 1 | None => 0 end ->
  w' = (if is_writer m' then Some i else if is_writer m then None else w) ->
  (is_writer m' = true -> is_writer m = true \/ w = None) ->
  (forall k src, m' = Wr k src -> readers (ctrl o') = 0) ->
  (is_rd m' = true -> is_rd m = true \/ w = None) ->
  data o' = match w' with Some j => content v' (default Out (<[i := m']> ms !! j)) | None => v' end ->
  (forall j mj t, j <> i -> ms !! j = Some mj -> thread_ok v mj t -> thread_ok v' mj t) ->
  thread_ok v' m' t' ->
  related n (<[i := m']> ms) w' (<[i := t']> ts, o') v'.
Proof.
  intros [Hl Hms Hv Hs Hr Hw Hwr Hlv Hwg Hd Ht] Hm Es Ev Er Ew Ew' Hnew Hz Hrd Ed Hoth Hme. cbn [fst snd] in *.
  pose proof (lookup_lt_Some _ _ _ Hm) as Hlt. pose proof (count_insert ms i m m' Hm) as Hcnt.
  split; cbn [fst snd]; rewrite ?length_insert; auto; try congruence; try lia.
  - intros j mj Hj Hjw. destruct (decide (j = i)) as [->|Hne].
    + rewrite list_lookup_insert_eq in Hj by exact Hlt. injection Hj as <-. rewrite Ew', Hjw. reflexivity.
    + rewrite list_lookup_insert_ne in Hj by auto. pose proof (Hwr j mj Hj Hjw) as Hwj. rewrite Ew'.
      destruct (is_writer m') eqn:Em'.
      * destruct (Hnew eq_refl) as [Hm2|]; [|congruence]. pose proof (Hwr i m Hm Hm2). congruence.
      * destruct (is_writer m) eqn:Em; [|exact Hwj]. pose proof (Hwr i m Hm Em). congruence.
  - intros j Hj. rewrite Ew' in Hj. destruct (is_writer m') eqn:Em'.
    + injection Hj as <-. exists m'. rewrite list_lookup_insert_eq by exact Hlt. auto.
    + destruct (is_writer m) eqn:Em; [discriminate|]. destruct (Hlv j Hj) as (mj & Hmj & Hjw).
      exists mj. split; [|exact Hjw]. rewrite list_lookup_insert_ne; [exact Hmj|]. intros ->. congruence.
  - intros j k src Hj. destruct (decide (j = i)) as [->|Hne].
    + rewrite list_lookup_insert_eq in Hj by exact Hlt. injection Hj as Hj. specialize (Hz k src Hj). lia.
    + rewrite list_lookup_insert_ne in Hj by auto. pose proof (Hwg j k src Hj) as H0.
      pose proof (Hwr j _ Hj eq_refl) as Hwj.
      destruct (is_rd m') eqn:Em'; [|cbn in Hcnt; destruct (is_rd m); cbn in Hcnt; lia].
      destruct (Hrd eq_refl) as [Hrm|]; [|congruence]. pose proof (reader_counted ms i m Hm Hrm). lia.
  - intros j t Hj. destruct (decide (j = i)) as [->|Hne].
    + rewrite list_lookup_insert_eq in Hj by lia. injection Hj as <-. exists m'.
      rewrite list_lookup_insert_eq by exact Hlt. auto.
    + rewrite list_lookup_insert_ne in Hj by auto. destruct (Ht j t Hj) as (mj & Hmj & Hok).
      exists mj. rewrite list_lookup_insert_ne by auto. eauto.
Qed.

Lemma rd_count_le (ms : list mode) : (length (filter is_rd ms) <= length ms)%nat.
Proof. apply length_filter. Qed.

Section Steps.
Context (n : nat) (Hn : Z.of_nat n < 2 ^ 16) (ms : list mode) (w : option nat).
Context (ts : list (thread rwm_t call)) (o : rwm_t) (v : list Z).
Context (HR : related n ms w (ts, o) v) (i : nat) (m : mode) (Hm : ms !! i = Some m).

Lemma readers_bound : 0 <= readers (ctrl o) < 2 ^ 16.
Proof using HR Hn. clear Hm. destruct HR as [_ Hms _ _ Hr _ _ _ _ _ _]. cbn in Hr. pose proof (rd_count_le ms). lia. Qed.

(** Only the thread's program changes. *)
Lemma rwm_local_step t' : thread_ok v m t' -> related n ms w (<[i := t']> ts, o) v.
Proof using HR Hm.
  intros Ht'. destruct HR as [Hl Hms Hv Hs Hr Hw Hwr Hlv Hwg Hd Ht]. split; cbn [fst snd] in *; auto.
  - rewrite length_insert. exact Hl.
  - intros j t Hj. destruct (decide (j = i)) as [->|Hne].
    + rewrite list_lookup_insert_eq in Hj by (apply lookup_lt_Some in Hm; lia). injection Hj as <-. eauto.
    + rewrite list_lookup_insert_ne in Hj by auto. eauto.
Qed.

(** While somebody reads, the buffer holds the register. *)
Lemma reader_data : is_rd m = true -> data o = v.
Proof using HR Hm.
  intros Hr. pose proof (reader_counted ms i m Hm Hr). destruct HR as [_ _ _ _ _ _ _ _ Hwg Hd _]. cbn [fst snd] in *.
  rewrite Hd. destruct w as [j|]; [|reflexivity]. destruct (ms !! j) as [[| | |k src]|] eqn:Ej; try reflexivity.
  specialize (Hwg j k src Ej). lia.
Qed.

Lemma read_begins c :
  m = Out -> writers (ctrl o) = 0 -> c = Read \/ c = TryRead ->
  related n (<[i := Rd []]> ms) w
    (<[i := (c, read_copy)]> ts, mk (mk_ctrl (u16 (readers (ctrl o) + 1)) 0) (size o) (buffer o) (data o)) v.
Proof using HR Hm Hn.
  intros -> Hw0 Hc. pose proof HR as [Hl Hms Hv Hs Hr Hw Hwr Hlv Hwg Hd Ht]. cbn [fst snd] in *.
  pose proof (lookup_lt_Some _ _ _ Hm). pose proof (count_insert ms i Out (Rd []) Hm) as Hc'.
  pose proof (rd_count_le (<[i := Rd []]> ms)) as Hle. rewrite length_insert in Hle. cbn in Hc'.
  assert (w = None) as -> by (destruct w; [lia|reflexivity]).
  apply (rwm_related_update n ms None ts o v i Out); cbn [size ctrl readers writers data is_rd is_writer Z.b2z]; auto; try discriminate.
  - rewrite wrap_small; [lia|unfold in_range; lia].
  - apply ok_read_copy. exact Hc.
Qed.

Lemma read_ends c :
  m = Rd v -> 0 < readers (ctrl o) ->
  related n (<[i := Out]> ms) w
    (<[i := (c, Ret CELL_OK v)]> ts, mk (mk_ctrl (u16 (readers (ctrl o) - 1)) (writers (ctrl o))) (size o) (buffer o) (data o)) v.
Proof using HR Hm Hn.
  intros -> Hpos. pose proof HR as [Hl Hms Hv Hs Hr Hw Hwr Hlv Hwg Hd Ht]. cbn [fst snd] in *.
  pose proof readers_bound.
  apply (rwm_related_update n ms w ts o v i (Rd v)); cbn [size ctrl readers writers data is_rd is_writer Z.b2z]; auto; try discriminate.
  - rewrite wrap_small; [lia|unfold in_range; lia].
  - rewrite Hd. destruct w as [j|]; [|reflexivity]. destruct (decide (j = i)) as [->|Hne].
    + destruct (Hlv i eq_refl) as (m' & Hm' & Hmw). rewrite Hm in Hm'. injection Hm' as <-. discriminate.
    + rewrite list_lookup_insert_ne by auto. reflexivity.
  - apply ok_ret.
Qed.

(** A writer announces itself, with or without waiting for readers. *)
Lemma claims m' t' r' :
  m = Out -> writers (ctrl o) = 0 -> is_writer m' = true -> is_rd m' = false -> content v m' = v ->
  r' = readers (ctrl o) -> (forall k src, m' = Wr k src -> r' = 0) -> thread_ok v m' t' ->
  related n (<[i := m']> ms) (Some i) (<[i := t']> ts, mk (mk_ctrl r' 1) (size o) (buffer o) (data o)) v.
Proof using HR Hm.
  intros -> Hw0 Hm' Hm'' Hc' -> Hz Ht'. pose proof HR as [Hl Hms Hv Hs Hr Hw Hwr Hlv Hwg Hd Ht]. cbn [fst snd] in *.
  assert (w = None) as -> by (destruct w; [lia|reflexivity]).
  apply (rwm_related_update n ms None ts o v i Out); cbn [size ctrl readers writers data is_rd is_writer Z.b2z]; auto; try congruence.
  - rewrite Hm''. cbn. lia.
  - rewrite Hm'. reflexivity.
  - rewrite list_lookup_insert_eq by (apply lookup_lt_Some in Hm; exact Hm). cbn. congruence.
Qed.

(** A change of mode between two reading or two writing modes of the same thread. *)
Lemma same_side m' t' d :
  is_rd m' = is_rd m -> is_writer m' = is_writer m ->
  (forall k src, m' = Wr k src -> readers (ctrl o) = 0) ->
  d = (if is_writer m then content v m' else data o) -> thread_ok v m' t' ->
  related n (<[i := m']> ms) w (<[i := t']> ts, mk (ctrl o) (size o) (buffer o) d) v.
Proof using HR Hm.
  clear Hn. intros Er Ew Hz Ed Ht'. pose proof HR as [Hl Hms Hv Hs Hr Hw Hwr Hlv Hwg Hd Ht]. cbn [fst snd] in *.
  pose proof (lookup_lt_Some _ _ _ Hm).
  apply (rwm_related_update n ms w ts o v i m); cbn [size ctrl data]; auto; rewrite ?Er, ?Ew; auto; try lia.
  - destruct (is_writer m) eqn:Em; [|reflexivity]. exact (Hwr i m Hm Em).
  - rewrite Ed. destruct (is_writer m) eqn:Em.
    + rewrite (Hwr i m Hm Em), list_lookup_insert_eq by assumption. reflexivity.
    + rewrite Hd. destruct w as [j|]; [|reflexivity]. destruct (decide (j = i)) as [->|Hne].
      * destruct (Hlv i eq_refl) as (m1 & Hm1 & Hw1). congruence.
      * rewrite list_lookup_insert_ne by auto. reflexivity.
Qed.

(** The writer's last byte is in place and it leaves: the register has its value. *)
Lemma write_ends src c :
  m = Wr N src -> length src = N ->
  related n (<[i := Out]> ms) None
    (<[i := (c, Ret CELL_OK [])]> ts, mk (mk_ctrl 0 0) (size o) (buffer o) (data o)) src.
Proof using HR Hm.
  clear Hn. intros -> Hsrc. pose proof HR as [Hl Hms Hv Hs Hr Hw Hwr Hlv Hwg Hd Ht]. cbn [fst snd] in *.
  pose proof (Hwg i N src Hm) as H0. pose proof (Hwr i _ Hm eq_refl) as ->.
  apply (rwm_related_update n ms (Some i) ts o v i (Wr N src)); cbn [size ctrl readers writers data is_rd is_writer Z.b2z];
    auto; try discriminate; try lia.
  - rewrite Hd, Hm. cbn. rewrite (firstn_all2 src), (skipn_all2 v), app_nil_r by lia. reflexivity.
  - intros j mj t Hne Hj Hok. destruct mj as [|acc| |k s'].
    + inversion Hok; subst; constructor; auto.
    + pose proof (reader_counted ms j _ Hj eq_refl). lia.
    + pose proof (Hwr j _ Hj eq_refl). congruence.
    + pose proof (Hwr j _ Hj eq_refl). congruence.
  - apply ok_ret.
Qed.
End Steps.

Context (Hnull : rwm <> 0) (Hbuf : buf <> 0) (Halign : aligned rwm 16 = true).

Lemma rwm_checked_ok k : checked rwm buf k = k.
Proof using Hnull Hbuf Halign.
  unfold checked. rewrite Halign. destruct (Z.eqb_spec rwm 0), (Z.eqb_spec buf 0); try contradiction. reflexivity.
Qed.

Lemma rwm_body_not_ret c i : returned i (c, body c) = [].
Proof using Hnull Hbuf Halign.
  destruct c; cbn [body]; unfold cellSyncRwmRead, cellSyncRwmTryRead, cellSyncRwmWrite, cellSyncRwmTryWrite;
    rewrite rwm_checked_ok; reflexivity.
Qed.

(** The functions in one form: the first operation, and what follows its success or failure. *)
Definition op (c : call) : ctrl_t -> option Z * ctrl_t :=
  match c with
  | Read | TryRead => try_read_begin
  | Write _ => try_write_begin
  | TryWrite _ => fun c => if (readers c =? 0) && (writers c =? 0) then (Some 0, mk_ctrl 0 1) else (None, c)
  end.
Definition begun (c : call) : prog rwm_t :=
  match c with
  | Read | TryRead => read_copy
  | Write src => wait_readers src
  | TryWrite src => write_copy src
  end.
Definition failed (c : call) (stopped : bool) : prog rwm_t :=
  match c with
  | TryRead | TryWrite _ => Ret CELL_SYNC_ERROR_BUSY []
  | _ => if stopped then Halt 0 else body c
  end.

Lemma rwm_body_step c o stopped :
  pstep stopped (body c) o =
    Some (match fst (op c (ctrl o)) with Some _ => begun c | None => failed c stopped end,
          mk (snd (op c (ctrl o))) (size o) (buffer o) (data o)).
Proof using Hnull Hbuf Halign.
  destruct c; cbn [body failed]; unfold cellSyncRwmRead, cellSyncRwmTryRead, cellSyncRwmWrite, cellSyncRwmTryWrite;
    rewrite !rwm_checked_ok; cbn [pstep op begun]; unfold on_ctrl;
    [destruct (try_read_begin (ctrl o)) as [[x|] c1]|destruct (try_read_begin (ctrl o)) as [[x|] c1]
    |destruct (try_write_begin (ctrl o)) as [[x|] c1]|destruct (_ && _)]; reflexivity.
Qed.

Lemma op_fails c k : fst (op c k) = None -> snd (op c k) = k.
Proof.
  destruct c; cbn [op]; unfold try_read_begin, try_write_begin;
    [destruct (negb _)|destruct (negb _)|destruct (negb _)|destruct (_ && _)]; cbn; congruence.
Qed.

Lemma op_writers c k z : fst (op c k) = Some z -> writers k = 0.
Proof.
  destruct c; cbn [op]; unfold try_read_begin, try_write_begin;
    destruct (Z.eqb_spec (writers k) 0); cbn; try discriminate; auto. rewrite andb_false_r. discriminate.
Qed.

Lemma rwm_ok_failed v c stopped : may c 0 c = true -> thread_ok v Out (c, failed c stopped).
Proof. intros Hc. destruct c, stopped; cbn [failed]; auto using ok_ret, ok_halt, ok_body. Qed.
Lemma rwm_spec_failed c stopped i v : spec_run register_spec v (returned i (c, failed c stopped)) = Some v.
Proof using Hnull Hbuf Halign. destruct c, stopped; cbn [failed]; rewrite ?rwm_body_not_ret; reflexivity. Qed.

Lemma rwm_eta o : mk (ctrl o) (size o) (buffer o) (data o) = o.
Proof. destruct o; reflexivity. Qed.

(** An action of thread [i] does what the register does, or nothing. *)
Definition simulates (n : nat) (ts : list (thread rwm_t call)) (v : list Z) (i : nat) (c : call)
  (p' : prog rwm_t) (o' : rwm_t) : Prop :=
  exists v' ms' w', spec_run register_spec v (returned i (c, p')) = Some v' /\
    related n ms' w' (<[i := (c, p')]> ts, o') v'.

Section Run.
Context (n : nat) (Hn : Z.of_nat n < 2 ^ 16) (ms : list mode) (w : option nat).
Context (ts : list (thread rwm_t call)) (o : rwm_t) (v : list Z).
Context (HR : related n ms w (ts, o) v) (i : nat).

Lemma rwm_simulates_quiet c p' o' ms' w' :
  returned i (c, p') = [] -> related n ms' w' (<[i := (c, p')]> ts, o') v -> simulates n ts v i c p' o'.
Proof. intros E H. exists v, ms', w'. rewrite E. auto. Qed.

(** The first operation of a call. *)
Lemma run_begin c stopped p' o' :
  ms !! i = Some Out -> may c 0 c = true -> pstep stopped (body c) o = Some (p', o') -> simulates n ts v i c p' o'.
Proof using Hnull Hbuf Halign HR Hn.
  intros Hm Hc. rewrite rwm_body_step. intros [= <- <-].
  destruct (fst (op c (ctrl o))) as [z|] eqn:Ef.
  2: { rewrite (op_fails _ _ Ef), rwm_eta. exists v, ms, w. split; [apply rwm_spec_failed|].
       apply (rwm_local_step n ms w ts o v HR i Out Hm). apply rwm_ok_failed. exact Hc. }
  pose proof (op_writers _ _ _ Ef) as Hw.
  destruct c as [| |src|src]; cbn [op begun may] in *; unfold try_read_begin, try_write_begin in *;
    try (rewrite Hw in *; cbn [Z.eqb negb fst snd] in * ).
  - eapply rwm_simulates_quiet; [reflexivity|]. apply (read_begins n Hn ms w ts o v HR i Out Hm); auto.
  - eapply rwm_simulates_quiet; [reflexivity|]. apply (read_begins n Hn ms w ts o v HR i Out Hm); auto.
  - eapply rwm_simulates_quiet; [reflexivity|]. apply Nat.eqb_eq in Hc.
    apply (claims n ms w ts o v HR i Out Hm Claim); auto using ok_claim. discriminate.
  - destruct (Z.eqb_spec (readers (ctrl o)) 0) as [E0|E0]; cbn [andb fst snd] in *; [|discriminate].
    eapply rwm_simulates_quiet; [reflexivity|]. apply Nat.eqb_eq in Hc.
    apply (claims n ms w ts o v HR i Out Hm (Wr 0 src)); auto. apply ok_write_copy; auto.
Qed.

Lemma returned_copy_out j k acc (c : call) : returned i (c, copy_out get_byte j k acc read_end) = [].
Proof. destruct j; reflexivity. Qed.
Lemma returned_copy_in src k (c : call) : returned i (c, copy_in put_byte src k write_end) = [].
Proof. destruct src; reflexivity. Qed.

(** The copy of a reader. *)
Lemma run_read_copy c stopped p' o' :
  c = Read \/ c = TryRead -> ms !! i = Some (Rd []) ->
  pstep stopped read_copy o = Some (p', o') -> simulates n ts v i c p' o'.
Proof using HR.
  intros Hc Hm [= <- <-]. cbn [default]. pose proof (r_size _ _ _ _ _ HR) as Hs. cbn [snd] in Hs.
  rewrite Hs, Nat2Z.id. eapply rwm_simulates_quiet; [apply returned_copy_out|].
  apply (rwm_local_step n ms w ts o v HR i (Rd []) Hm).
  rewrite <- (Nat.sub_0_r N) at 1. apply (ok_copying v c 0); [exact Hc|lia].
Qed.

Lemma run_copying c k stopped p' o' :
  c = Read \/ c = TryRead -> (k <= N)%nat -> ms !! i = Some (Rd (take k v)) ->
  pstep stopped (copy_out get_byte (N - k) k (take k v) read_end) o = Some (p', o') -> simulates n ts v i c p' o'.
Proof using HR Hn.
  intros Hc Hk Hm. pose proof (r_val _ _ _ _ _ HR) as Hv.
  destruct (Nat.eq_dec k N) as [->|Hne].
  - rewrite Nat.sub_diag. cbn [copy_out]. rewrite firstn_all2 in * by lia. unfold read_end. cbn [pstep]. unfold on_ctrl, try_read_end.
    pose proof (reader_counted ms i _ Hm eq_refl) as Hpos. pose proof (r_readers _ _ _ _ _ HR) as Hr. cbn [snd] in Hr.
    destruct (Z.eqb_spec (readers (ctrl o)) 0) as [E0|E0]; [lia|]. intros [= <- <-].
    exists v. do 2 eexists. split; [|apply (read_ends n Hn ms w ts o v HR i _ Hm); auto; lia].
    destruct Hc as [-> | ->]; cbn; rewrite decide_True by reflexivity; reflexivity.
  - replace (N - k)%nat with (S (N - S k)) by lia. cbn [copy_out pstep]. intros [= <- <-].
    eapply rwm_simulates_quiet; [apply returned_copy_out|].
    assert (take k v ++ [get_byte k o] = take (S k) v) as E.
    { unfold get_byte. rewrite (reader_data n ms w ts o v HR i _ Hm eq_refl).
      destruct (lookup_lt_is_Some_2 v k ltac:(lia)) as [b Hb]. rewrite Hb. symmetry. apply take_S_r. exact Hb. }
    cbn [default]. rewrite E. rewrite <- (rwm_eta o).
    apply (same_side n ms w ts o v HR i _ Hm (Rd (take (S k) v))); auto; try discriminate.
    apply ok_copying; [exact Hc|lia].
Qed.

(** The announced writer waits for the readers. *)
Lemma run_wait_readers src stopped p' o' :
  length src = N -> ms !! i = Some Claim ->
  pstep stopped (wait_readers src) o = Some (p', o') -> simulates n ts v i (Write src) p' o'.
Proof using HR.
  intros Hsrc Hm. unfold wait_readers, on_ctrl. cbn [pstep].
  destruct (Z.eqb_spec (readers (ctrl o)) 0) as [E0|E0]; cbn [negb]; intros [= <- <-]; rewrite ?rwm_eta.
  - eapply rwm_simulates_quiet; [reflexivity|]. pose proof HR as [_ _ _ _ _ _ Hwr _ _ Hd _]. cbn [snd] in Hd.
    rewrite (Hwr i _ Hm eq_refl), Hm in Hd. cbn in Hd. rewrite <- (rwm_eta o).
    apply (same_side n ms w ts o v HR i _ Hm (Wr 0 src)); auto. apply ok_write_copy; auto.
  - eapply rwm_simulates_quiet; [destruct stopped; reflexivity|]. apply (rwm_local_step n ms w ts o v HR i _ Hm).
    destruct stopped; [apply ok_claim_halt|apply ok_claim; exact Hsrc].
Qed.

Lemma run_write_copy c src stopped p' o' :
  c = Write src \/ c = TryWrite src -> length src = N -> ms !! i = Some (Wr 0 src) ->
  pstep stopped (write_copy src) o = Some (p', o') -> simulates n ts v i c p' o'.
Proof using HR.
  intros Hc Hsrc Hm [= <- <-]. cbn [default]. pose proof (r_size _ _ _ _ _ HR) as Hs. cbn [snd] in Hs.
  rewrite Hs, Nat2Z.id, firstn_all2 by lia. eapply rwm_simulates_quiet; [apply returned_copy_in|].
  apply (rwm_local_step n ms w ts o v HR i _ Hm). apply (ok_writing v c src 0); auto. lia.
Qed.

Lemma run_writing c src k stopped p' o' :
  c = Write src \/ c = TryWrite src -> length src = N -> (k <= N)%nat -> ms !! i = Some (Wr k src) ->
  pstep stopped (copy_in put_byte (drop k src) k write_end) o = Some (p', o') -> simulates n ts v i c p' o'.
Proof using HR.
  intros Hc Hsrc Hk Hm. pose proof HR as [_ _ Hv _ Hr _ Hwr _ Hwg Hd _]. cbn [snd] in Hd, Hr, Hv.
  destruct (Nat.eq_dec k N) as [->|Hne].
  - rewrite skipn_all2 by lia. cbn [copy_in]. intros [= <- <-].
    exists src. do 2 eexists. split; [|apply (write_ends n ms w ts o v HR i _ Hm src); auto].
    destruct Hc as [-> | ->]; reflexivity.
  - destruct (lookup_lt_is_Some_2 src k ltac:(lia)) as [b Hb]. rewrite (drop_S _ _ _ Hb).
    cbn [copy_in pstep]. intros [= <- <-]. eapply rwm_simulates_quiet; [apply returned_copy_in|].
    apply (same_side n ms w ts o v HR i _ Hm (Wr (S k) src)); auto.
    + intros k' src' _. rewrite Hr, (Hwg i k src Hm). reflexivity.
    + cbn [is_writer content]. rewrite Hd, (Hwr i _ Hm eq_refl), Hm.
      change (content v (default Out (Some (Wr k src)))) with (take k src ++ drop k v).
      destruct (lookup_lt_is_Some_2 v k ltac:(lia)) as [b' Hb'].
      rewrite (drop_S _ _ _ Hb'), (take_S_r _ _ _ Hb), insert_app_r_alt by (rewrite length_take; lia).
      rewrite length_take. replace (k - k `min` length src)%nat with 0%nat by lia. rewrite <- app_assoc. reflexivity.
    + apply ok_writing; auto. lia.
Qed.
End Run.

Lemma rwm_step n s l s' v :
  Z.of_nat n < 2 ^ 16 -> (exists ms w, related n ms w s v) -> sys_step body may s l s' ->
  exists v', spec_run register_spec v l = Some v' /\ exists ms w, related n ms w s' v'.
Proof using Hnull Hbuf Halign.
  intros Hn (ms & w & HR) Hs. revert HR.
  destruct Hs as [ts o i c p stopped p' o' Hi Hp|ts o i c code out c' Hi Hm]; intros HR;
    destruct (r_thr _ _ _ _ _ HR i _ Hi) as (m & Hmi & Ht).
  - assert (simulates n ts v i c p' o') as (v' & ms' & w' & E & HR'); [|eauto].
    inversion Ht; subst; try discriminate.
    + eapply run_begin; eauto.
    + eapply run_read_copy; eauto.
    + eapply run_copying; eauto.
    + eapply run_wait_readers; eauto.
    + eapply run_write_copy; eauto.
    + eapply run_writing; eauto.
  - exists v. rewrite rwm_body_not_ret. split; [reflexivity|]. exists ms, w.
    assert (m = Out) as ->.
    { inversion Ht as [| | | |c1 k Hc Hk E1 E2| | | |c1 src k Hc Hl Hk E1 E2]; subst; auto.
      - destruct (N - k)%nat; discriminate.
      - destruct (drop k src); discriminate. }
    apply (rwm_local_step n ms w ts o v HR i Out Hmi). apply ok_body. exact Hm.
Qed.

(** The object after its initialization, all threads idle. *)
Definition started (n : nat) (bytes : list Z) (o : rwm_t) : sys rwm_t call :=
  idle n Read CELL_OK (snd (run_alone 1 (cellSyncRwmInitialize rwm buf (Z.of_nat N) bytes) o)).

Lemma rwm_start n bytes o :
  aligned buf 128 = true -> Z.of_nat N mod 128 = 0 -> Z.of_nat N <= 0x4000 -> length bytes = N ->
  related n (replicate n Out) None (started n bytes o) bytes.
Proof using Hnull Hbuf Halign.
  intros Hb Hmod Hle Hlen. unfold started, cellSyncRwmInitialize. rewrite Halign, Hb, Hmod.
  destruct (Z.eqb_spec rwm 0), (Z.eqb_spec buf 0), (Z.ltb_spec 0x4000 (Z.of_nat N)); try contradiction; try lia.
  assert (length (filter is_rd (replicate n Out)) = 0%nat) as H0 by (clear; induction n; [reflexivity|exact IHn]).
  split; cbn [negb orb run_alone pstep snd fst idle ctrl readers writers size data Z.eqb]; rewrite ?length_replicate, ?H0; auto.
  - intros i m [-> _]%lookup_replicate. discriminate.
  - discriminate.
  - intros i t [-> Hi]%lookup_replicate. exists Out. rewrite lookup_replicate_2 by exact Hi. split; [reflexivity|apply ok_ret].
Qed.
End Rwm.

(** C30: the reader/writer buffer is an atomic register.  An initialized object is used by up to
    65535 threads, each making any of the four calls at any time; the copies are interleaved
    byte by byte.  The calls return as those of a register: every successful read returns the
    whole value of the last write that returned before it (or the initial bytes), and the
    error of an unbalanced read end does not occur. *)
Theorem rwm_atomic rwm buf N n bytes o tr s :
  rwm <> 0 -> buf <> 0 -> aligned rwm 16 = true -> aligned buf 128 = true ->
  Z.of_nat N mod 128 = 0 -> Z.of_nat N <= 0x4000 -> length bytes = N -> Z.of_nat n < 2 ^ 16 ->
  sys_steps (body rwm buf) (may N) (started rwm buf N n bytes o) tr s ->
  exists v, spec_run register_spec bytes tr = Some v /\ length v = N.
Proof.
  intros Hnull Hbuf Ha Hb Hmod Hle Hlen Hn Hs.
  destruct (simulation (body rwm buf) (may N) register_spec
              (fun s v => exists ms w, related rwm buf N n ms w s v) (started rwm buf N n bytes o) bytes)
    with (tr := tr) (s := s) as (v & E & ms & w & HR); auto.
  - exists (replicate n Out), None. apply rwm_start; auto.
  - intros s1 v l s2. apply rwm_step; auto.
  - exists v. split; [exact E|]. exact (r_val _ _ _ _ _ _ _ _ HR).
Qed.

(** A reader is copying while a writer announces itself; the writer waits for it. *)
Definition rwm_schedule (N : nat) : list (move call) :=
  [Begin 0 Read; Run 0; Begin 1 (Write (replicate N 7)); Run 1; Run 1; Run 0] ++
  replicate N (Run 0) ++ [Run 0; Begin 0 TryRead; Run 0; Run 1; Run 1] ++ replicate N (Run 1) ++ [Run 1].
Definition rwm_sample : list (event call) * sys rwm_t call :=
  let s := started 16 128 128 2 (replicate 128 1) (mk (mk_ctrl 0 0) 0 0 []) in
  default ([], s) (do_moves (body 16 128) (may 128) (rwm_schedule 128) s).

Lemma rwm_atomic_witness :
  fst rwm_sample = [mk_event 0 Read CELL_OK (replicate 128 1); mk_event 0 TryRead CELL_SYNC_ERROR_BUSY [];
                    mk_event 1 (Write (replicate 128 7)) CELL_OK []] /\
  exists v, spec_run register_spec (replicate 128 1) (fst rwm_sample) = Some v /\ length v = 128%nat.
Proof.
  split; [vm_compute; reflexivity|].
  apply (rwm_atomic 16 128 128 2 (replicate 128 1) (mk (mk_ctrl 0 0) 0 0 []) (fst rwm_sample) (snd rwm_sample)).
  - discriminate.
  - discriminate.
  - reflexivity.
  - reflexivity.
  - reflexivity.
  - vm_compute. discriminate.
  - reflexivity.
  - reflexivity.
  - apply (run_schedule _ _ (rwm_schedule 128)). vm_compute. reflexivity.
Defined.
