(* ===== verification/SyncQueue.v ===== *)
(** * CellSyncQueue: a bounded queue in a ring of slots

    [CellSyncQueue] of Emu/Cell/Modules/cellSync.h and its functions in cellSync.cpp.  The
    control word packs the next free slot and the number of items, 24 bits each, with a flag
    for the one pusher and one for the one popper, who copy their slots outside the atomic
    operations.  This file has the definitions; SyncFifo.v shows that the queue is first-in
    first-out. *)

From Stdlib Require Import ZArith Lia Bool.
From stdpp Require Import base numbers list option sets.
From S2P Require Import Prelude BitField GuestMem SyncSys.

Module CellSyncQueue.

Record ctrl_t := mk_ctrl { x0 : Z; x4 : Z }.
Definition next (c : ctrl_t) : Z := bf.extract 0 24 (x0 c).
Definition _pop (c : ctrl_t) : Z := bf.extract 24 8 (x0 c).
Definition count (c : ctrl_t) : Z := bf.extract 0 24 (x4 c).
Definition _push (c : ctrl_t) : Z := bf.extract 24 8 (x4 c).
Definition set_next (v : Z) (c : ctrl_t) : ctrl_t := mk_ctrl (bf.store 0 24 v (x0 c)) (x4 c).
Definition set_pop (v : Z) (c : ctrl_t) : ctrl_t := mk_ctrl (bf.store 24 8 v (x0 c)) (x4 c).
Definition set_count (v : Z) (c : ctrl_t) : ctrl_t := mk_ctrl (x0 c) (bf.store 0 24 v (x4 c)).
Definition set_push (v : Z) (c : ctrl_t) : ctrl_t := mk_ctrl (x0 c) (bf.store 24 8 v (x4 c)).

(** A pointer argument [position] is the value of a successful operation. *)
Definition try_push_begin (depth : Z) (ctrl : ctrl_t) : option Z * ctrl_t :=
  let cnt := count ctrl in
  if bf.test 24 8 (x4 ctrl) || (depth <=? u32 (cnt + _pop ctrl)) then (None, ctrl)
  else
    let position := next ctrl in
    let ctrl := set_next (if negb (u32 (position + 1) =? depth) then u32 (position + 1) else 0) ctrl in
    (Some position, set_push 1 (set_count (u32 (cnt + 1)) ctrl)).
Definition push_end (ctrl : ctrl_t) : option Z * ctrl_t := (Some 0, set_push 0 ctrl).
Definition try_pop_begin (depth : Z) (ctrl : ctrl_t) : option Z * ctrl_t :=
  let cnt := count ctrl in
  if bf.test 24 8 (x0 ctrl) || (cnt <=? _push ctrl) then (None, ctrl)
  else
    let ctrl := set_pop 1 ctrl in
    (Some (u32 (next ctrl + depth - cnt)), set_count (u32 (cnt - 1)) ctrl).
Definition try_peek_begin (depth : Z) (ctrl : ctrl_t) : option Z * ctrl_t :=
  let cnt := count ctrl in
  if bf.test 24 8 (x0 ctrl) || (cnt <=? _push ctrl) then (None, ctrl)
  else
    let ctrl := set_pop 1 ctrl in
    (Some (u32 (next ctrl + depth - cnt)), ctrl).
Definition pop_end (ctrl : ctrl_t) : option Z * ctrl_t := (Some 0, set_pop 0 ctrl).
Definition try_clear_begin_1 (ctrl : ctrl_t) : option Z * ctrl_t :=
  if bf.test 24 8 (x0 ctrl) then (None, ctrl) else (Some 0, set_pop 1 ctrl).
Definition try_clear_begin_2 (ctrl : ctrl_t) : option Z * ctrl_t :=
  if bf.test 24 8 (x4 ctrl) then (None, ctrl) else (Some 0, set_push 1 ctrl).

(** The object, with the bytes its [buffer] points to. *)
Record t := mk { ctrl : ctrl_t; size : Z; depth : Z; buffer : Z; data : list Z }.

(** [None]: the exception "Invalid queue pointers". *)
Definition check_depth (q : t) : option Z :=
  if (depth q <? next (ctrl q)) || (depth q <? count (ctrl q)) then None else Some (depth q).
End CellSyncQueue.
Import CellSyncQueue.

Abbreviation queue_t := CellSyncQueue.t.

Definition with_ctrl (c : ctrl_t) (o : queue_t) : queue_t := mk c (size o) (depth o) (buffer o) (data o).
Definition with_data (d : list Z) (o : queue_t) : queue_t := mk (ctrl o) (size o) (depth o) (buffer o) d.
Definition on_ctrl (f : ctrl_t -> option Z * ctrl_t) (o : queue_t) : option Z * queue_t :=
  let '(r, c) := f (ctrl o) in (r, with_ctrl c o).

(** Byte [i] from offset [base] of the buffer. *)
Definition get_at (base i : nat) (o : queue_t) : Z := default 0 (data o !! (base + i)%nat).
Definition put_at (base i : nat) (b : Z) (o : queue_t) : queue_t := with_data (<[(base + i)%nat := b]> (data o)) o.
Definition load_size (o : queue_t) : option Z * queue_t := (Some (size o), o).

(** [bytes] is what guest memory holds at [buffer]. *)
Definition cellSyncQueueInitialize (queue buffer size depth : Z) (bytes : list Z) : prog queue_t :=
  if queue =? 0 then Ret CELL_SYNC_ERROR_NULL_POINTER []
  else if negb (size =? 0) && (buffer =? 0) then Ret CELL_SYNC_ERROR_NULL_POINTER []
  else if negb (aligned queue 32) || negb (aligned buffer 16) then Ret CELL_SYNC_ERROR_ALIGN []
  else if (depth =? 0) || negb (size mod 16 =? 0) then Ret CELL_SYNC_ERROR_INVAL []
  else Atomic (fun _ => (Some 0, mk (mk_ctrl 0 0) size depth buffer bytes)) (fun _ => Ret CELL_OK []).

(** The argument checks, with and without a buffer, and [queue->check_depth()]. *)
Definition checked (queue : Z) (k : prog queue_t) : prog queue_t :=
  if queue =? 0 then Ret CELL_SYNC_ERROR_NULL_POINTER []
  else if negb (aligned queue 32) then Ret CELL_SYNC_ERROR_ALIGN []
  else k.
Definition checked2 (queue buffer : Z) (k : prog queue_t) : prog queue_t :=
  if (queue =? 0) || (buffer =? 0) then Ret CELL_SYNC_ERROR_NULL_POINTER []
  else if negb (aligned queue 32) then Ret CELL_SYNC_ERROR_ALIGN []
  else k.
Definition with_depth (k : Z -> prog queue_t) : prog queue_t :=
  Atomic (fun o => (check_depth o, o)) (fun d => match d with None => Throw | Some d => k d end).

(** [while (!op) return BUSY;] *)
Definition attempt (f : queue_t -> option Z * queue_t) (k : Z -> prog queue_t) : prog queue_t :=
  Atomic f (fun r => match r with None => Ret CELL_SYNC_ERROR_BUSY [] | Some v => k v end).

(** The copy of the caller's bytes [src] into the slot. *)
Definition push_finish : prog queue_t := Atomic (on_ctrl push_end) (fun _ => Ret CELL_OK []).
Definition push_copy (src : list Z) (position : Z) : prog queue_t :=
  Atomic load_size (fun n =>
    let size := default 0 n in
    copy_in (put_at (Z.to_nat (u32 (position * size)))) (take (Z.to_nat size) src) 0 push_finish).
Definition push_main (tr : bool) (src : list Z) (depth : Z) : prog queue_t :=
  (if tr then attempt else Spin) (on_ctrl (try_push_begin depth)) (push_copy src).
Definition cellSyncQueuePush (queue buffer : Z) (src : list Z) : prog queue_t :=
  checked2 queue buffer (with_depth (push_main false src)).
Definition cellSyncQueueTryPush (queue buffer : Z) (src : list Z) : prog queue_t :=
  checked2 queue buffer (with_depth (push_main true src)).

(** The copy of the slot to the caller's buffer. *)
Definition pop_finish (out : list Z) : prog queue_t := Atomic (on_ctrl pop_end) (fun _ => Ret CELL_OK out).
Definition pop_copy (depth position : Z) : prog queue_t :=
  Atomic load_size (fun n =>
    let size := default 0 n in
    copy_out (get_at (Z.to_nat (u32 (position mod depth * size)))) (Z.to_nat size) 0 [] pop_finish).
Definition pop_main (tr peek : bool) (depth : Z) : prog queue_t :=
  (if tr then attempt else Spin)
    (on_ctrl ((if peek then try_peek_begin else try_pop_begin) depth)) (pop_copy depth).
Definition cellSyncQueuePop (queue buffer : Z) : prog queue_t :=
  checked2 queue buffer (with_depth (pop_main false false)).
Definition cellSyncQueueTryPop (queue buffer : Z) : prog queue_t :=
  checked2 queue buffer (with_depth (pop_main true false)).
Definition cellSyncQueuePeek (queue buffer : Z) : prog queue_t :=
  checked2 queue buffer (with_depth (pop_main false true)).
Definition cellSyncQueueTryPeek (queue buffer : Z) : prog queue_t :=
  checked2 queue buffer (with_depth (pop_main true true)).

Definition load_count : prog queue_t :=
  Atomic (fun o => (Some (Z.land (count (ctrl o)) 0xffffff), o)) (fun n => Ret (default 0 n) []).
Definition cellSyncQueueSize (queue : Z) : prog queue_t :=
  checked queue (with_depth (fun _ => load_count)).

Definition clear_store : prog queue_t :=
  Atomic (fun o => (Some 0, with_ctrl (mk_ctrl 0 0) o)) (fun _ => Ret CELL_OK []).
Definition clear_wait : prog queue_t := Spin (on_ctrl try_clear_begin_2) (fun _ => clear_store).
Definition cellSyncQueueClear (queue : Z) : prog queue_t :=
  checked queue (with_depth (fun _ => Spin (on_ctrl try_clear_begin_1) (fun _ => clear_wait))).

(** ** The fields of the control word *)

Create Rewrite HintDb queue_fields.

Lemma next_set_next v c : in_range 24 v -> next (set_next v c) = v.
Proof. intros. unfold next, set_next. cbn [x0]. rewrite bf.extract_store, wrap_small by (auto; lia). reflexivity. Qed.
Lemma pop_set_next v c : _pop (set_next v c) = _pop c.
Proof. apply bf.extract_store_other; lia. Qed.
Lemma next_set_pop v c : next (set_pop v c) = next c.
Proof. apply bf.extract_store_other; lia. Qed.
Lemma pop_set_pop v c : in_range 8 v -> _pop (set_pop v c) = v.
Proof. intros. unfold _pop, set_pop. cbn [x0]. rewrite bf.extract_store, wrap_small by (auto; lia). reflexivity. Qed.
Lemma count_set_count v c : in_range 24 v -> count (set_count v c) = v.
Proof. intros. unfold count, set_count. cbn [x4]. rewrite bf.extract_store, wrap_small by (auto; lia). reflexivity. Qed.
Lemma push_set_count v c : _push (set_count v c) = _push c.
Proof. apply bf.extract_store_other; lia. Qed.
Lemma count_set_push v c : count (set_push v c) = count c.
Proof. apply bf.extract_store_other; lia. Qed.
Lemma push_set_push v c : in_range 8 v -> _push (set_push v c) = v.
Proof. intros. unfold _push, set_push. cbn [x4]. rewrite bf.extract_store, wrap_small by (auto; lia). reflexivity. Qed.
Lemma next_set_x4 v c : next (set_count v c) = next c /\ next (set_push v c) = next c.
Proof. split; reflexivity. Qed.
Lemma pop_set_x4 v c : _pop (set_count v c) = _pop c /\ _pop (set_push v c) = _pop c.
Proof. split; reflexivity. Qed.
Lemma count_set_x0 v c : count (set_next v c) = count c /\ count (set_pop v c) = count c.
Proof. split; reflexivity. Qed.
Lemma push_set_x0 v c : _push (set_next v c) = _push c /\ _push (set_pop v c) = _push c.
Proof. split; reflexivity. Qed.
#[export] Hint Rewrite next_set_next pop_set_pop count_set_count push_set_push
  using (unfold in_range; lia) : queue_fields.
#[export] Hint Rewrite pop_set_next next_set_pop push_set_count count_set_push
  (fun v c => proj1 (next_set_x4 v c)) (fun v c => proj2 (next_set_x4 v c))
  (fun v c => proj1 (pop_set_x4 v c)) (fun v c => proj2 (pop_set_x4 v c))
  (fun v c => proj1 (count_set_x0 v c)) (fun v c => proj2 (count_set_x0 v c))
  (fun v c => proj1 (push_set_x0 v c)) (fun v c => proj2 (push_set_x0 v c)) : queue_fields.

(** The control word with the given fields. *)
Record has (c : ctrl_t) (nx pp cn pu : Z) : Prop := {
  h_next : next c = nx; h_pop : _pop c = pp; h_count : count c = cn; h_push : _push c = pu;
}.

Lemma test_pop c : bf.test 24 8 (x0 c) = negb (_pop c =? 0).
Proof. apply bf.test_extract; lia. Qed.
Lemma test_push c : bf.test 24 8 (x4 c) = negb (_push c =? 0).
Proof. apply bf.test_extract; lia. Qed.

Ltac solve_has := split; autorewrite with queue_fields; try assumption; try reflexivity; try lia.

(** ** The operations in terms of the fields *)

Section Fields.
Context (nx pp cn pu : Z) (c : ctrl_t) (Hc : has c nx pp cn pu).

Lemma push_end_spec : pu = 1 -> exists c', push_end c = (Some 0, c') /\ has c' nx pp cn 0.
Proof using Hc. destruct Hc. intros. eexists. split; [reflexivity|solve_has]. Qed.
Lemma pop_end_spec : pp = 1 -> exists c', pop_end c = (Some 0, c') /\ has c' nx 0 cn pu.
Proof using Hc. destruct Hc. intros. eexists. split; [reflexivity|solve_has]. Qed.

Lemma clear_1_spec :
  (pp = 0 /\ exists c', try_clear_begin_1 c = (Some 0, c') /\ has c' nx 1 cn pu) \/ try_clear_begin_1 c = (None, c).
Proof using Hc.
  destruct Hc as [En Ep Ec Eu]. unfold try_clear_begin_1. rewrite test_pop, Ep.
  destruct (Z.eqb_spec pp 0) as [->|]; cbn [negb]; [left|right; reflexivity].
  split; [reflexivity|]. eexists. split; [reflexivity|solve_has].
Qed.
Lemma clear_2_spec :
  (pu = 0 /\ exists c', try_clear_begin_2 c = (Some 0, c') /\ has c' nx pp cn 1) \/ try_clear_begin_2 c = (None, c).
Proof using Hc.
  destruct Hc as [En Ep Ec Eu]. unfold try_clear_begin_2. rewrite test_push, Eu.
  destruct (Z.eqb_spec pu 0) as [->|]; cbn [negb]; [left|right; reflexivity].
  split; [reflexivity|]. eexists. split; [reflexivity|solve_has].
Qed.

Context (d : Z) (Hd : 0 < d < 2 ^ 24) (Hnx : 0 <= nx < d) (Hcn : 0 <= cn <= d) (Hpp : 0 <= pp <= 1) (Hpu : 0 <= pu <= 1).

Lemma push_begin_spec :
  (pu = 0 /\ cn + pp < d /\
   exists c', try_push_begin d c = (Some nx, c') /\ has c' (if nx + 1 =? d then 0 else nx + 1) pp (cn + 1) 1) \/
  try_push_begin d c = (None, c).
Proof using Hc Hd Hnx Hcn Hpp Hpu.
  destruct Hc as [En Ep Ec Eu]. unfold try_push_begin. rewrite test_push, Eu, Ec, Ep, En.
  rewrite !(wrap_small 32) by (unfold in_range; lia).
  destruct (Z.eqb_spec pu 0) as [->|]; cbn [negb orb]; [|right; reflexivity].
  destruct (Z.leb_spec d (cn + pp)); [right; reflexivity|left].
  split; [reflexivity|]. split; [assumption|]. eexists. split; [reflexivity|].
  destruct (Z.eqb_spec (nx + 1) d); cbn [negb]; solve_has.
Qed.

Lemma pop_begin_spec :
  (pp = 0 /\ pu < cn /\
   exists c1 c2, try_pop_begin d c = (Some (nx + d - cn), c1) /\ has c1 nx 1 (cn - 1) pu /\
                 try_peek_begin d c = (Some (nx + d - cn), c2) /\ has c2 nx 1 cn pu) \/
  (try_pop_begin d c = (None, c) /\ try_peek_begin d c = (None, c)).
Proof using Hc Hd Hnx Hcn Hpp Hpu.
  destruct Hc as [En Ep Ec Eu]. unfold try_pop_begin, try_peek_begin. rewrite test_pop, Eu, Ec, Ep.
  rewrite next_set_pop, En. destruct (Z.eqb_spec pp 0) as [->|]; cbn [negb orb]; [|right; auto].
  destruct (Z.leb_spec cn pu); [right; auto|left].
  split; [reflexivity|]. split; [lia|]. rewrite !(wrap_small 32) by (unfold in_range; lia).
  do 2 eexists. split; [reflexivity|]. split; [solve_has|]. split; [reflexivity|solve_has].
Qed.

End Fields.
