(* ===== verification/SyncFifo.v ===== *)
(** * CellSyncQueue is first-in first-out

    Threads push, pop, peek, ask the size of and clear one [CellSyncQueue] (SyncQueue.v),
    with the slots copied byte by byte between the atomic operations.  Every interleaving
    returns as a sequential bounded queue does. *)

From Stdlib Require Import ZArith Lia Bool.
From stdpp Require Import base numbers list option sets.
From S2P Require Import Prelude BitField GuestMem SyncSys SyncQueue.
Import CellSyncQueue.

(** ** Slots of the buffer *)

Section Slots.
Context (N : nat).

Definition slot (p : nat) (d : list Z) : list Z := take N (drop (p * N) d).

Lemma slot_lookup p d i : (i < N)%nat -> slot p d !! i = d !! (p * N + i)%nat.
Proof. intros. unfold slot. rewrite lookup_take_lt by lia. apply lookup_drop. Qed.

Lemma slot_length p d D : length d = (D * N)%nat -> (p < D)%nat -> length (slot p d) = N.
Proof. intros Hl Hp. unfold slot. rewrite length_take, length_drop, Hl. nia. Qed.

(** A byte written in one slot leaves the others alone. *)
Lemma slot_put_other p p' d i b : p <> p' -> (i < N)%nat -> slot p' (<[(p * N + i)%nat := b]> d) = slot p' d.
Proof.
  intros Hne Hi. apply list_eq. intros j. destruct (decide (j < N)%nat) as [Hj|Hj].
  - rewrite !slot_lookup by exact Hj. apply list_lookup_insert_ne. nia.
  - unfold slot. rewrite !lookup_take_ge by lia. reflexivity.
Qed.

(** Writing byte [k] extends the part of the slot that agrees with [src]. *)
Lemma slot_put p d D src k b :
  length d = (D * N)%nat -> (p < D)%nat -> (k < N)%nat -> src !! k = Some b ->
  take k (slot p d) = take k src -> take (S k) (slot p (<[(p * N + k)%nat := b]> d)) = take (S k) src.
Proof.
  intros Hl Hp Hk Hb E. apply list_eq. intros j. destruct (decide (j < S k)%nat) as [Hj|Hj].
  2: { rewrite !lookup_take_ge by lia. reflexivity. }
  rewrite !lookup_take_lt, slot_lookup by lia. destruct (Nat.eq_dec j k) as [->|Hne].
  - rewrite list_lookup_insert_eq by nia. symmetry. exact Hb.
  - rewrite list_lookup_insert_ne by lia. rewrite <- slot_lookup by lia.
    apply (f_equal (fun l => l !! j)) in E. rewrite !lookup_take_lt in E by lia. exact E.
Qed.
End Slots.

(** Places of a ring. *)
Lemma ring_distinct D h a b : (a < b)%nat -> (b < a + D)%nat -> ((h + a) mod D)%nat <> ((h + b) mod D)%nat.
Proof.
  intros Hab Hb E. pose proof (Nat.div_mod (h + a) D ltac:(lia)) as Ea. pose proof (Nat.div_mod (h + b) D ltac:(lia)) as Eb.
  rewrite E in Ea. destruct (Nat.lt_ge_cases ((h + a) / D) ((h + b) / D)); nia.
Qed.

Lemma ring_next D s :
  (0 < D)%nat ->
  Z.of_nat ((s + 1) mod D) = (if Z.of_nat (s mod D) + 1 =? Z.of_nat D then 0 else Z.of_nat (s mod D) + 1).
Proof.
  intros HD. pose proof (Nat.div_mod s D ltac:(lia)) as E. pose proof (Nat.mod_upper_bound s D ltac:(lia)).
  destruct (Z.eqb_spec (Z.of_nat (s mod D) + 1) (Z.of_nat D)) as [El|El].
  - rewrite <- (Nat.mod_unique (s + 1) D (s / D + 1) 0); [reflexivity|lia|nia].
  - rewrite <- (Nat.mod_unique (s + 1) D (s / D) (s mod D + 1)); [lia|lia|nia].
Qed.

(** Where a pop finds the oldest of [c] items. *)
Lemma ring_back D h c :
  (0 < D)%nat -> (c <= D)%nat ->
  (Z.of_nat ((h + c) mod D) + Z.of_nat D - Z.of_nat c) mod Z.of_nat D = Z.of_nat (h mod D).
Proof.
  intros HD Hc. rewrite !Nat2Z.inj_mod, Nat2Z.inj_add.
  replace ((Z.of_nat h + Z.of_nat c) mod Z.of_nat D + Z.of_nat D - Z.of_nat c)
    with ((Z.of_nat h + Z.of_nat c) mod Z.of_nat D - Z.of_nat c + 1 * Z.of_nat D) by lia.
  rewrite Z.mod_add by lia. rewrite Zminus_mod_idemp_l. f_equal. lia.
Qed.

(** ** Threads that use one queue *)

Section Fifo.
Context (queue buf : Z) (N D : nat).

Inductive call :=
| Push (src : list Z) | TryPush (src : list Z) | Pop | TryPop | Peek | TryPeek | Size | Clear.
Definition body (c : call) : prog queue_t :=
  match c with
  | Push src => cellSyncQueuePush queue buf src
  | TryPush src => cellSyncQueueTryPush queue buf src
  | Pop => cellSyncQueuePop queue buf
  | TryPop => cellSyncQueueTryPop queue buf
  | Peek => cellSyncQueuePeek queue buf
  | TryPeek => cellSyncQueueTryPeek queue buf
  | Size => cellSyncQueueSize queue
  | Clear => cellSyncQueueClear queue
  end.
(** Any call at any time; what is pushed has the size of a slot. *)
Definition may (_ : call) (_ : Z) (c' : call) : bool :=
  match c' with Push src | TryPush src => (length src =? N)%nat | _ => true end.

(** The sequential queue of at most [D] items.  A tried call may fail at any time; the size
    may count an item that is being pushed, or not one that is being popped. *)
Definition fifo_spec (q : list (list Z)) (e : event call) : option (list (list Z)) :=
  let ok := ev_code e =? CELL_OK in
  let busy := ev_code e =? CELL_SYNC_ERROR_BUSY in
  let push src := if (length q <? D)%nat then Some (q ++ [src]) else None in
  let first := if decide (head q = Some (ev_out e)) then true else false in
  match ev_call e with
  | Push src => if ok then push src else None
  | TryPush src => if ok then push src else if busy then Some q else None
  | Pop => if ok && first then Some (tail q) else None
  | TryPop => if ok then if first then Some (tail q) else None else if busy then Some q else None
  | Peek => if ok && first then Some q else None
  | TryPeek => if ok then if first then Some q else None else if busy then Some q else None
  | Size => if Z.abs (ev_code e - Z.of_nat (length q)) <=? 1 then Some q else None
  | Clear => if ok then Some [] else None
  end.

(** Who holds the two flags: a pusher with the bytes it has written; a thread that pops,
    peeks or clears (the latter with or without the pusher's flag). *)
Inductive popkind := KPop | KPeek | KClear (both : bool).
Record ghost := mk_ghost { pu : option (nat * nat * list Z); po : option (nat * popkind) }.
Definition pushing (g : ghost) : nat := match pu g with Some _ => 1 | None => 0 end.
Definition popping (g : ghost) : nat := match po g with Some (_, KPop) => 1 | _ => 0 end.
Definition pflag (g : ghost) : Z :=
  match pu g, po g with Some _, _ => 1 | None, Some (_, KClear true) => 1 | _, _ => 0 end.
Definition qflag (g : ghost) : Z := match po g with Some _ => 1 | None => 0 end.
Definition pusher (g : ghost) (i : nat) : Prop := exists k src, pu g = Some (i, k, src).
Definition popper (g : ghost) (i : nat) : Prop := exists kd, po g = Some (i, kd).

(** The main part of a call, after the checks. *)
Definition main (c : call) : prog queue_t :=
  match c with
  | Push src => push_main false src (Z.of_nat D)
  | TryPush src => push_main true src (Z.of_nat D)
  | Pop => pop_main false false (Z.of_nat D)
  | TryPop => pop_main true false (Z.of_nat D)
  | Peek => pop_main false true (Z.of_nat D)
  | TryPeek => pop_main true true (Z.of_nat D)
  | Size => load_count
  | Clear => Spin (on_ctrl try_clear_begin_1) (fun _ => clear_wait)
  end.
Definition pushes (c : call) (src : list Z) : Prop := c = Push src \/ c = TryPush src.
Definition pops (c : call) (kd : popkind) : Prop :=
  kd = KPop /\ (c = Pop \/ c = TryPop) \/ kd = KPeek /\ (c = Peek \/ c = TryPeek).

(** A thread, given the queue [q] whose first item is in slot [hd mod D]. *)
Inductive thread_ok (g : ghost) (hd : nat) (q : list (list Z)) (i : nat) : thread queue_t call -> Prop :=
| ok_ret c code out : ~ pusher g i -> ~ popper g i -> thread_ok g hd q i (c, Ret code out)
| ok_halt c : ~ pusher g i -> ~ popper g i -> thread_ok g hd q i (c, Halt 0)
| ok_body c : ~ pusher g i -> ~ popper g i -> may c 0 c = true -> thread_ok g hd q i (c, body c)
| ok_main c : ~ pusher g i -> ~ popper g i -> may c 0 c = true -> thread_ok g hd q i (c, main c)
| ok_push_copy c src : pushes c src -> pu g = Some (i, 0%nat, src) -> ~ popper g i -> length src = N ->
    thread_ok g hd q i (c, push_copy src (Z.of_nat ((hd + length q) mod D)))
| ok_pushing c src k : pushes c src -> pu g = Some (i, k, src) -> ~ popper g i -> length src = N -> (k <= N)%nat ->
    thread_ok g hd q i (c, copy_in (put_at (((hd + length q) mod D) * N)) (drop k src) k push_finish)
| ok_pop_copy c kd pos : pops c kd -> po g = Some (i, kd) -> ~ pusher g i ->
    pos mod Z.of_nat D = Z.of_nat (hd mod D) -> thread_ok g hd q i (c, pop_copy (Z.of_nat D) pos)
| ok_popping c kd k x : pops c kd -> po g = Some (i, kd) -> ~ pusher g i -> head q = Some x -> (k <= N)%nat ->
    thread_ok g hd q i (c, copy_out (get_at ((hd mod D) * N)) (N - k) k (take k x) pop_finish)
| ok_clear_wait : po g = Some (i, KClear false) -> ~ pusher g i -> thread_ok g hd q i (Clear, clear_wait)
| ok_clear_halt : po g = Some (i, KClear false) -> ~ pusher g i -> thread_ok g hd q i (Clear, Halt 0)
| ok_clear_store : po g = Some (i, KClear true) -> ~ pusher g i -> thread_ok g hd q i (Clear, clear_store).

Record related (n : nat) (g : ghost) (hd : nat) (s : sys queue_t call) (q : list (list Z)) : Prop := {
  r_len : length (fst s) = n;
  r_size : size (snd s) = Z.of_nat N;
  r_depth : depth (snd s) = Z.of_nat D;
  r_data : length (data (snd s)) = (D * N)%nat;
  r_ctrl : has (ctrl (snd s)) (Z.of_nat ((hd + length q + pushing g) mod D)) (qflag g)
             (Z.of_nat (length q) + Z.of_nat (pushing g) - Z.of_nat (popping g)) (pflag g);
  r_room : (length q + pushing g <= D)%nat;
  r_items : forall k x, q !! k = Some x -> slot N ((hd + k) mod D) (data (snd s)) = x;
  r_pushed : forall i k src, pu g = Some (i, k, src) ->
    take k (slot N ((hd + length q) mod D) (data (snd s))) = take k src;
  r_popped : forall i kd, po g = Some (i, kd) -> kd = KPop \/ kd = KPeek -> q <> [];
  r_clear : forall i, po g = Some (i, KClear true) -> pu g = None;
  r_thr : forall i t, fst s !! i = Some t -> thread_ok g hd q i t;
}.

(** The other threads keep their description when their flags stay. *)
Lemma other_ok g hd q g' hd' q' j t :
  (forall k src, pu g = Some (j, k, src) -> pu g' = pu g /\ (hd' + length q' = hd + length q)%nat) ->
  (forall kd, po g = Some (j, kd) -> po g' = po g /\ (kd = KPop \/ kd = KPeek -> hd' = hd /\ head q' = head q)) ->
  (pusher g' j -> pusher g j) -> (popper g' j -> popper g j) ->
  thread_ok g hd q j t -> thread_ok g' hd' q' j t.
Proof.
  intros Hpu Hpo Hnpu Hnpo Ht.
  assert (forall c kd, pops c kd -> kd = KPop \/ kd = KPeek) as Hk by (unfold pops; intros; tauto).
  destruct Ht as [c code out H1 H2|c H1 H2|c H1 H2 H3|c H1 H2 H3|c src Hc H1 H2 H3|c src k Hc H1 H2 H3 H4
    |c kd pos Hc H1 H2 H3|c kd k x Hc H1 H2 H3 H4|H1 H2|H1 H2|H1 H2].
  - apply ok_ret; auto.
  - apply ok_halt; auto.
  - apply ok_body; auto.
  - apply ok_main; auto.
  - destruct (Hpu _ _ H1) as [E <-]. apply ok_push_copy; auto. congruence.
  - destruct (Hpu _ _ H1) as [E <-]. apply ok_pushing; auto. congruence.
  - destruct (Hpo _ H1) as [E H]. destruct (H (Hk c kd Hc)) as [-> _]. apply (ok_pop_copy _ _ _ _ c kd); auto. congruence.
  - destruct (Hpo _ H1) as [E H]. destruct (H (Hk c kd Hc)) as [-> Eh]. apply (ok_popping _ _ _ _ c kd); auto; congruence.
  - destruct (Hpo _ H1) as [E _]. apply ok_clear_wait; auto. congruence.
  - destruct (Hpo _ H1) as [E _]. apply ok_clear_halt; auto. congruence.
  - destruct (Hpo _ H1) as [E _]. apply ok_clear_store; auto. congruence.
Qed.

(** Thread [i] and the object change. *)
Lemma fifo_related_update n g hd ts o q i g' hd' o' q' t' :
  related n g hd (ts, o) q -> (i < n)%nat ->
  size o' = size o -> depth o' = depth o -> length (data o') = (D * N)%nat ->
  has (ctrl o') (Z.of_nat ((hd' + length q' + pushing g') mod D)) (qflag g')
    (Z.of_nat (length q') + Z.of_nat (pushing g') - Z.of_nat (popping g')) (pflag g') ->
  (length q' + pushing g' <= D)%nat ->
  (forall k x, q' !! k = Some x -> slot N ((hd' + k) mod D) (data o') = x) ->
  (forall i k src, pu g' = Some (i, k, src) -> take k (slot N ((hd' + length q') mod D) (data o')) = take k src) ->
  (forall i kd, po g' = Some (i, kd) -> kd = KPop \/ kd = KPeek -> q' <> []) ->
  (forall i, po g' = Some (i, KClear true) -> pu g' = None) ->
  (forall j t, j <> i -> thread_ok g hd q j t -> thread_ok g' hd' q' j t) ->
  thread_ok g' hd' q' i t' ->
  related n g' hd' (<[i := t']> ts, o') q'.
Proof.
  intros [Hl Hs Hd _ _ _ _ _ _ _ Ht] Hi Es Ed Hlen Hc Hroom Hit Hpu Hpo Hcl Hoth Hme.
  split; cbn [fst snd] in *; auto; try congruence.
  - rewrite length_insert. exact Hl.
  - intros j t Hj. destruct (decide (j = i)) as [->|Hne].
    + rewrite list_lookup_insert_eq in Hj by lia. injection Hj as <-. exact Hme.
    + rewrite list_lookup_insert_ne in Hj by auto. auto.
Qed.

Section Steps.
Context (HD : 0 < Z.of_nat D < 2 ^ 24).
Context (n : nat) (g : ghost) (hd : nat) (ts : list (thread queue_t call)) (o : queue_t) (q : list (list Z)).
Context (HR : related n g hd (ts, o) q).

Lemma ctrl_bounds :
  0 <= Z.of_nat ((hd + length q + pushing g) mod D) < Z.of_nat D /\
  0 <= Z.of_nat (length q) + Z.of_nat (pushing g) - Z.of_nat (popping g) <= Z.of_nat D /\
  0 <= qflag g <= 1 /\ 0 <= pflag g <= 1 /\ (popping g <= length q)%nat.
Proof using HR HD.
  pose proof HR as [_ _ _ _ _ Hr _ _ Hpo _ _]. pose proof (Nat.mod_upper_bound (hd + length q + pushing g) D ltac:(lia)).
  assert (popping g <= length q)%nat as Hp.
  { unfold popping in *. destruct (po g) as [[j [| |b]]|] eqn:E; try lia.
    pose proof (Hpo j KPop eq_refl (or_introl eq_refl)). destruct q; [contradiction|cbn; lia]. }
  split; [lia|]. split; [lia|]. unfold qflag, pflag. destruct (pu g), (po g) as [[j [| |[|]]]|]; lia.
Qed.

Lemma depth_ok : check_depth o = Some (Z.of_nat D).
Proof using HR HD.
  pose proof HR as [_ _ Hd _ [En _ Ec _] _ _ _ _ _ _]. cbn [fst snd] in *. unfold check_depth. rewrite En, Ec, Hd.
  pose proof ctrl_bounds as (H1 & H2 & _).
  destruct (Z.ltb_spec (Z.of_nat D) (Z.of_nat ((hd + length q + pushing g) mod D))); [lia|].
  destruct (Z.ltb_spec (Z.of_nat D) (Z.of_nat (length q) + Z.of_nat (pushing g) - Z.of_nat (popping g))); [lia|].
  reflexivity.
Qed.

Context (i : nat) (Hi : (i < n)%nat).

Lemma fifo_local_step t' : thread_ok g hd q i t' -> related n g hd (<[i := t']> ts, o) q.
Proof using HR Hi.
  intros Ht. pose proof HR as [_ _ _ Hl Hc Hr Hit Hpu Hpo Hcl _]. cbn [fst snd] in *.
  eapply fifo_related_update; eauto.
Qed.


Ltac flags := unfold pushing, popping, pflag, qflag, pusher, popper in *; cbn [pu po] in *.

Lemma data_with_ctrl c : data (with_ctrl c o) = data o.
Proof. reflexivity. Qed.

(** A slot is reserved for the pusher [i]. *)
Lemma push_begins c src c' pos :
  try_push_begin (Z.of_nat D) (ctrl o) = (Some pos, c') -> ~ popper g i -> pushes c src -> length src = N ->
  related n (mk_ghost (Some (i, 0%nat, src)) (po g)) hd (<[i := (c, push_copy src pos)]> ts, with_ctrl c' o) q.
Proof using HR Hi HD.
  intros E Hnp Hc Hsrc. pose proof HR as [_ _ _ Hl Hctrl Hr Hit Hpu Hpo Hcl _]. cbn [fst snd] in *.
  pose proof ctrl_bounds as (B1 & B2 & B3 & B4 & B5).
  destruct (push_begin_spec _ _ _ _ _ Hctrl _ HD B1 B2 B3 B4) as [(E0 & E1 & c1 & E2 & H)|E2]; [|congruence].
  rewrite E in E2. injection E2 as -> <-.
  assert (pu g = None) as Eg by (flags; destruct (pu g); [discriminate|reflexivity]).
  assert (pushing g = 0%nat) as Ep by (flags; rewrite Eg; reflexivity).
  rewrite Ep, Nat.add_0_r in *.
  assert (length q < D)%nat as Hroom by (flags; destruct (po g) as [[j [| |[|]]]|]; rewrite ?Eg in *; lia).
  eapply fifo_related_update; [exact HR|exact Hi|reflexivity|reflexivity|exact Hl| | |exact Hit| |exact Hpo| | |].
  - rewrite <- ring_next in H by lia. cbn [with_ctrl ctrl]. destruct H as [H1 H2 H3 H4].
    split; [exact H1|exact H2|rewrite H3; flags; lia|exact H4].
  - flags. lia.
  - cbn [pu]. intros j k src' [= <- <- <-]. reflexivity.
  - intros j Hj. flags. rewrite Eg, Hj in E0. discriminate.
  - intros j t Hne. apply other_ok; cbn [pu po].
    + intros k s' Hk. congruence.
    + auto.
    + intros (k & s' & Hk). cbn in Hk. congruence.
    + auto.
  - apply ok_push_copy; auto.
Qed.

(** A byte of the reserved slot is written. *)
Lemma push_byte c src k b :
  pu g = Some (i, k, src) -> ~ popper g i -> pushes c src -> length src = N -> src !! k = Some b ->
  related n (mk_ghost (Some (i, S k, src)) (po g)) hd
    (<[i := (c, copy_in (put_at (((hd + length q) mod D) * N)) (drop (S k) src) (S k) push_finish)]> ts,
     put_at (((hd + length q) mod D) * N) k b o) q.
Proof using HR Hi HD.
  intros Eg Hnp Hc Hsrc Hb. pose proof HR as [_ _ _ Hl Hctrl Hr Hit Hpu Hpo Hcl _]. cbn [fst snd] in *.
  assert (k < N)%nat as Hk by (apply lookup_lt_Some in Hb; lia).
  assert (pushing g = 1%nat) as Ep by (flags; rewrite Eg; reflexivity). rewrite Ep in *.
  set (p := ((hd + length q) mod D)%nat) in *.
  assert (p < D)%nat as Hp by (apply Nat.mod_upper_bound; lia).
  eapply fifo_related_update; [exact HR|exact Hi|reflexivity|reflexivity| | | | | |exact Hpo| | |]; unfold put_at; cbn [with_data data ctrl].
  - rewrite length_insert. exact Hl.
  - destruct Hctrl as [H1 H2 H3 H4]. split; [exact H1|exact H2|rewrite H3; flags; lia|].
    rewrite H4. flags. rewrite Eg. reflexivity.
  - flags. lia.
  - intros j x Hj. rewrite slot_put_other; [auto| |exact Hk]. intros Hsame. pose proof (lookup_lt_Some _ _ _ Hj).
    apply (ring_distinct D hd j (length q)); [lia|lia|]. unfold p in Hsame. congruence.
  - cbn [pu]. intros j k' src' [= <- <- <-]. apply (slot_put N p (data o) D); auto. apply (Hpu _ _ _ Eg).
  - intros j Hj. cbn in Hj. rewrite (Hcl j Hj) in Eg. discriminate.
  - intros j t Hne. apply other_ok; cbn [pu po].
    + intros k' s' Hk'. congruence.
    + auto.
    + intros (k' & s' & Hk'). cbn in Hk'. congruence.
    + auto.
  - apply ok_pushing; auto.
Qed.

(** The pushed item becomes part of the queue. *)
Lemma push_ends c src :
  pu g = Some (i, N, src) -> ~ popper g i -> length src = N ->
  (length q < D)%nat /\
  related n (mk_ghost None (po g)) hd
    (<[i := (c, Ret CELL_OK [])]> ts, with_ctrl (snd (push_end (ctrl o))) o) (q ++ [src]).
Proof using HR Hi HD.
  intros Eg Hnp Hsrc. pose proof HR as [_ _ _ Hl Hctrl Hr Hit Hpu Hpo Hcl _]. cbn [fst snd] in *.
  assert (pushing g = 1%nat) as Ep by (flags; rewrite Eg; reflexivity). rewrite Ep in *. split; [lia|].
  destruct (push_end_spec _ _ _ _ _ Hctrl) as (c' & Ec & H); [flags; rewrite Eg; reflexivity|]. rewrite Ec.
  assert (p := Nat.mod_upper_bound (hd + length q) D ltac:(lia)).
  eapply fifo_related_update; [exact HR|exact Hi|reflexivity|reflexivity|exact Hl| | | | | | | |]; cbn [with_ctrl ctrl data snd].
  - rewrite length_app. cbn [length]. rewrite Nat.add_assoc, <- Nat.add_assoc. destruct H as [H1 H2 H3 H4].
    split; [rewrite H1; flags; do 2 f_equal; lia|exact H2|rewrite H3; flags; lia|].
    rewrite H4. flags. destruct (po g) as [[j [| |[|]]]|] eqn:E; try reflexivity. rewrite (Hcl j eq_refl) in Eg. discriminate.
  - rewrite length_app. flags. cbn. lia.
  - intros k x [Hk|[Hk Hx]]%lookup_app_Some; [auto|]. apply list_lookup_singleton_Some in Hx as [Hk' <-].
    replace k with (length q) by lia. specialize (Hpu _ _ _ Eg).
    rewrite !firstn_all2 in Hpu; [exact Hpu|lia|]. rewrite (slot_length N _ _ D) by auto. lia.
  - discriminate.
  - intros j kd _ _. destruct q; discriminate.
  - reflexivity.
  - intros j t Hne. apply other_ok; cbn [pu po].
    + intros k' s' Hk'. congruence.
    + intros kd Hkd. split; [reflexivity|]. intros Hk. split; [reflexivity|].
      pose proof (Hpo j kd Hkd Hk). destruct q; [contradiction|reflexivity].
    + intros (k' & s' & Hk'). discriminate.
    + auto.
  - apply ok_ret; [|exact Hnp]. intros (k' & s' & Hk'). discriminate.
Qed.

(** The popper's flag is taken: [g'] and the control word after a pop or peek begins. *)
Lemma pop_begins c kd pos c' :
  (if match kd with KPop => true | _ => false end then try_pop_begin else try_peek_begin) (Z.of_nat D) (ctrl o)
    = (Some pos, c') ->
  ~ pusher g i -> pops c kd ->
  related n (mk_ghost (pu g) (Some (i, kd))) hd (<[i := (c, pop_copy (Z.of_nat D) pos)]> ts, with_ctrl c' o) q.
Proof using HR Hi HD.
  intros E Hnp Hc. pose proof HR as [_ _ _ Hl Hctrl Hr Hit Hpu Hpo Hcl _]. cbn [fst snd] in *.
  pose proof ctrl_bounds as (B1 & B2 & B3 & B4 & B5).
  destruct (pop_begin_spec _ _ _ _ _ Hctrl _ HD B1 B2 B3 B4) as [(E0 & E1 & c1 & c2 & E2 & H2 & E3 & H3)|[E2 E3]];
    [|destruct kd; congruence].
  assert (po g = None) as Eg by (flags; destruct (po g); [discriminate|reflexivity]).
  assert (popping g = 0%nat) as Ep by (flags; rewrite Eg; reflexivity).
  assert (pflag g = Z.of_nat (pushing g)) as Ef by (flags; rewrite Eg; destruct (pu g); reflexivity).
  rewrite Ep, Ef in *.
  assert (has c' (Z.of_nat ((hd + length q + pushing g) mod D)) 1
            (Z.of_nat (length q) + Z.of_nat (pushing g) - Z.of_nat (popping (mk_ghost (pu g) (Some (i, kd)))))
            (Z.of_nat (pushing g)) /\
          pos mod Z.of_nat D = Z.of_nat (hd mod D)) as [H Hpos].
  { assert (pos = Z.of_nat ((hd + (length q + pushing g)) mod D) + Z.of_nat D - Z.of_nat (length q + pushing g)) as Epos
      by (rewrite Nat.add_assoc; destruct kd; cbn in E; rewrite ?E2, ?E3 in E; injection E as <- <-; lia).
    split; [|rewrite Epos; apply ring_back; lia].
    destruct Hc as [[-> _]|[-> _]]; cbn in E; rewrite ?E2, ?E3 in E; injection E as _ <-;
      [destruct H2 as [A1 A2 A3 A4]|destruct H3 as [A1 A2 A3 A4]]; (split; [exact A1|exact A2|rewrite A3; flags; lia|exact A4]). }
  eapply fifo_related_update; [exact HR|exact Hi|reflexivity|reflexivity|exact Hl| |exact Hr|exact Hit|exact Hpu| | | |]; cbn [with_ctrl ctrl].
  - replace (qflag _) with 1 by reflexivity. replace (pflag _) with (Z.of_nat (pushing g)); [exact H|].
    destruct Hc as [[-> _]|[-> _]]; flags; destruct (pu g); reflexivity.
  - intros j kd' _ _ ->. cbn in E1. lia.
  - intros j [= _ ->]. destruct Hc as [[? _]|[? _]]; discriminate.
  - intros j t Hne. apply other_ok; cbn [pu po]; auto.
    + intros kd' Hkd. congruence.
    + intros (kd' & Hkd). cbn in Hkd. congruence.
  - apply (ok_pop_copy _ _ _ _ c kd); auto.
Qed.

(** The item is taken from the queue, or stays if it was peeked at. *)
Lemma pop_ends c kd x :
  po g = Some (i, kd) -> pops c kd -> ~ pusher g i -> head q = Some x ->
  let pop := match kd with KPop => true | _ => false end in
  related n (mk_ghost (pu g) None) (if pop then S hd else hd)
    (<[i := (c, Ret CELL_OK x)]> ts, with_ctrl (snd (pop_end (ctrl o))) o) (if pop then tail q else q).
Proof using HR Hi HD.
  intros Eg Hc Hnp Hx pop. pose proof HR as [_ _ _ Hl Hctrl Hr Hit Hpu Hpo Hcl _]. cbn [fst snd] in *.
  destruct (pop_end_spec _ _ _ _ _ Hctrl) as (c' & Ec & H); [flags; rewrite Eg; reflexivity|]. rewrite Ec.
  destruct q as [|y q']; [discriminate|]. injection Hx as ->.
  assert (length (if pop then q' else x :: q') + (if pop then S hd else hd) = hd + length (x :: q'))%nat as Hsum
    by (destruct pop; cbn; lia).
  assert ((if pop then 1 else 0) = popping g)%nat as Hpop
    by (unfold pop; flags; rewrite Eg; destruct Hc as [[-> _]|[-> _]]; reflexivity).
  cbn [tail]. set (q1 := if pop then q' else x :: q') in *. set (h1 := if pop then S hd else hd) in *.
  eapply fifo_related_update; [exact HR|exact Hi|reflexivity|reflexivity|exact Hl| | | | | | | |]; cbn [with_ctrl ctrl data snd].
  - destruct H as [H1 H2 H3 H4]. split; [rewrite H1|exact H2|rewrite H3|rewrite H4].
    + do 2 f_equal. flags. lia.
    + assert (Z.of_nat (length q1) = Z.of_nat (length (x :: q')) - Z.of_nat (popping g))
        by (rewrite <- Hpop; unfold q1; destruct pop; cbn; lia). flags. lia.
    + flags. rewrite Eg. destruct Hc as [[-> _]|[-> _]]; reflexivity.
  - flags. unfold q1. destruct pop; cbn in *; lia.
  - intros k z Hk. unfold q1, h1 in *. destruct pop; [|auto]. replace (S hd + k)%nat with (hd + S k)%nat by lia.
    apply Hit. exact Hk.
  - intros j k src Hk. rewrite (Nat.add_comm h1), Hsum. eauto.
  - discriminate.
  - discriminate.
  - intros j t Hne. apply other_ok; cbn [pu po].
    + intros k' s' Hk'. split; [reflexivity|]. lia.
    + intros kd' Hkd. congruence.
    + auto.
    + intros (kd' & Hkd). discriminate.
  - apply ok_ret; [exact Hnp|]. intros (kd' & Hkd). discriminate.
Qed.

(** Clearing takes the popper's flag, then the pusher's, then empties the queue. *)
Lemma clear_begins c' z :
  try_clear_begin_1 (ctrl o) = (Some z, c') -> ~ pusher g i ->
  related n (mk_ghost (pu g) (Some (i, KClear false))) hd (<[i := (Clear, clear_wait)]> ts, with_ctrl c' o) q.
Proof using HR Hi.
  intros E Hnp. pose proof HR as [_ _ _ Hl Hctrl Hr Hit Hpu Hpo Hcl _]. cbn [fst snd] in *.
  destruct (clear_1_spec _ _ _ _ _ Hctrl) as [(E0 & c1 & E1 & H)|E1]; [|congruence].
  rewrite E in E1. injection E1 as _ <-.
  assert (po g = None) as Eg by (flags; destruct (po g); [discriminate|reflexivity]).
  eapply fifo_related_update; [exact HR|exact Hi|reflexivity|reflexivity|exact Hl| |exact Hr|exact Hit|exact Hpu| | | |]; cbn [with_ctrl ctrl].
  - destruct H as [H1 H2 H3 H4]. split; [exact H1|exact H2|rewrite H3; flags; rewrite Eg; reflexivity|].
    rewrite H4. flags. rewrite Eg. destruct (pu g); reflexivity.
  - intros j kd [= _ <-] [?|?]; discriminate.
  - intros j [=].
  - intros j t Hne. apply other_ok; cbn [pu po]; auto.
    + intros kd' Hkd. congruence.
    + intros (kd' & Hkd). cbn in Hkd. congruence.
  - apply ok_clear_wait; auto.
Qed.

Lemma clear_locks c' z :
  try_clear_begin_2 (ctrl o) = (Some z, c') -> po g = Some (i, KClear false) ->
  related n (mk_ghost None (Some (i, KClear true))) hd (<[i := (Clear, clear_store)]> ts, with_ctrl c' o) q.
Proof using HR Hi.
  intros E Hk. pose proof HR as [_ _ _ Hl Hctrl Hr Hit Hpu Hpo Hcl _]. cbn [fst snd] in *.
  destruct (clear_2_spec _ _ _ _ _ Hctrl) as [(E0 & c1 & E1 & H)|E1]; [|congruence].
  rewrite E in E1. injection E1 as _ <-.
  assert (pu g = None) as Eg by (flags; destruct (pu g); [discriminate|reflexivity]).
  assert (pushing g = 0%nat) as Ep by (flags; rewrite Eg; reflexivity).
  eapply fifo_related_update; [exact HR|exact Hi|reflexivity|reflexivity|exact Hl| | |exact Hit| | | | |]; cbn [with_ctrl ctrl].
  - destruct H as [H1 H2 H3 H4]. rewrite Ep in *. split; [exact H1|rewrite H2; flags; rewrite Hk; reflexivity| |exact H4].
    rewrite H3. flags. rewrite Hk. reflexivity.
  - rewrite Ep in Hr. exact Hr.
  - discriminate.
  - intros j kd [= _ <-] [?|?]; discriminate.
  - reflexivity.
  - intros j t Hne. apply other_ok; cbn [pu po].
    + congruence.
    + intros kd' Hkd. congruence.
    + intros (k & src & Hs). discriminate.
    + intros (kd' & Hkd). cbn in Hkd. congruence.
  - apply ok_clear_store; [reflexivity|]. intros (k & src & Hs). discriminate.
Qed.

Lemma clear_ends :
  po g = Some (i, KClear true) ->
  related n (mk_ghost None None) 0 (<[i := (Clear, Ret CELL_OK [])]> ts, with_ctrl (mk_ctrl 0 0) o) [].
Proof using HR Hi HD.
  intros Hk. pose proof HR as [_ _ _ Hl _ _ _ _ _ Hcl _]. cbn [fst snd] in *.
  eapply fifo_related_update; [exact HR|exact Hi|reflexivity|reflexivity|exact Hl| | | | | | | |]; cbn [with_ctrl ctrl data];
    try discriminate.
  - split; try reflexivity. cbn. rewrite Nat.Div0.mod_0_l. reflexivity.
  - cbn. lia.
  - intros j t Hne. apply other_ok; cbn [pu po].
    + intros k src Hs. rewrite (Hcl i Hk) in Hs. discriminate.
    + intros kd' Hkd. congruence.
    + intros (k & src & Hs). discriminate.
    + intros (kd' & Hkd). discriminate.
  - apply ok_ret; intros H; [destruct H as (? & ? & ?)|destruct H as (? & ?)]; discriminate.
Qed.
End Steps.

Context (Hnull : queue <> 0) (Hbuf : buf <> 0) (Halign : aligned queue 32 = true).
Context (HD : 0 < Z.of_nat D < 2 ^ 24) (HDN : Z.of_nat D * Z.of_nat N < 2 ^ 32).

Lemma fifo_body_atomic c : exists k, body c = with_depth k /\ k (Z.of_nat D) = main c.
Proof using Hnull Hbuf Halign.
  destruct c; cbn [body main]; unfold cellSyncQueuePush, cellSyncQueueTryPush, cellSyncQueuePop, cellSyncQueueTryPop,
    cellSyncQueuePeek, cellSyncQueueTryPeek, cellSyncQueueSize, cellSyncQueueClear, checked, checked2;
    rewrite Halign; destruct (Z.eqb_spec queue 0), (Z.eqb_spec buf 0); try contradiction; eexists; split; reflexivity.
Qed.

Lemma fifo_body_not_ret c i : returned i (c, body c) = [].
Proof using Hnull Hbuf Halign D. destruct (fifo_body_atomic c) as (k & -> & _). reflexivity. Qed.

(** An action of thread [i] does what the queue does, or nothing. *)
Definition simulates (n : nat) (ts : list (thread queue_t call)) (q : list (list Z)) (i : nat) (c : call)
  (p' : prog queue_t) (o' : queue_t) : Prop :=
  exists q' g' hd', spec_run fifo_spec q (returned i (c, p')) = Some q' /\
    related n g' hd' (<[i := (c, p')]> ts, o') q'.

(** A slot's offset does not wrap. *)
Lemma offset_ok p : (p < D)%nat -> Z.to_nat (u32 (Z.of_nat p * Z.of_nat N)) = (p * N)%nat.
Proof using HDN. clear HD. intros Hp. rewrite wrap_small; [lia|]. unfold in_range. nia. Qed.

Section Run.
Context (n : nat) (g : ghost) (hd : nat) (ts : list (thread queue_t call)) (o : queue_t) (q : list (list Z)).
Context (HR : related n g hd (ts, o) q) (i : nat) (Hi : (i < n)%nat).

Lemma fifo_simulates_quiet c p' o' g' hd' :
  returned i (c, p') = [] -> related n g' hd' (<[i := (c, p')]> ts, o') q -> simulates n ts q i c p' o'.
Proof. intros E H. exists q, g', hd'. rewrite E. auto. Qed.

Lemma run_body c stopped p' o' :
  ~ pusher g i -> ~ popper g i -> may c 0 c = true ->
  pstep stopped (body c) o = Some (p', o') -> simulates n ts q i c p' o'.
Proof using Hnull Hbuf Halign HD HR Hi.
  intros H1 H2 H3. destruct (fifo_body_atomic c) as (k & -> & Ek). unfold with_depth. cbn [pstep].
  rewrite (depth_ok HD n g hd ts o q HR). intros [= <- <-]. rewrite Ek.
  eapply fifo_simulates_quiet; [destruct c; reflexivity|]. apply (fifo_local_step n g hd ts o q HR i Hi). apply ok_main; auto.
Qed.

Lemma queue_eta : with_ctrl (ctrl o) o = o.
Proof. destruct o; reflexivity. Qed.

(** The flag operation of a call: it succeeds, or the call returns, stops or tries again. *)
Lemma run_flag c (tr : bool) f k stopped p' o' :
  main c = (if tr then attempt else Spin) (on_ctrl f) k ->
  (forall q0, spec_run fifo_spec q0
     (returned i (c, if tr then Ret CELL_SYNC_ERROR_BUSY [] else Halt (Obj := queue_t) 0)) = Some q0) ->
  ~ pusher g i -> ~ popper g i -> may c 0 c = true ->
  (f (ctrl o) = (None, ctrl o) \/ exists v c', f (ctrl o) = (Some v, c') /\ simulates n ts q i c (k v) (with_ctrl c' o)) ->
  pstep stopped (main c) o = Some (p', o') -> simulates n ts q i c p' o'.
Proof using HR Hi.
  intros Em Hspec H1 H2 H3 Hf.
  assert (forall t', thread_ok g hd q i t' -> related n g hd (<[i := t']> ts, o) q) as Hloc
    by (intros t'; apply (fifo_local_step n g hd ts o q HR i Hi)).
  assert (simulates n ts q i c (main c) o) as Hsame.
  { exists q, g, hd. split; [|apply Hloc, ok_main; auto]. rewrite Em. destruct tr; reflexivity. }
  assert (simulates n ts q i c (if tr then Ret CELL_SYNC_ERROR_BUSY [] else Halt 0) o) as Hfail.
  { exists q, g, hd. split; [apply Hspec|]. destruct tr; apply Hloc; [apply ok_ret|apply ok_halt]; auto. }
  rewrite Em in *. destruct Hf as [Ef|(v & c' & Ef & Hs)]; destruct tr; cbn [pstep attempt]; unfold on_ctrl; rewrite Ef;
    rewrite ?queue_eta; intros [= <- <-]; auto; destruct stopped; auto.
Qed.

Lemma run_push c (tr : bool) src stopped p' o' :
  c = (if tr then TryPush src else Push src) -> length src = N -> ~ pusher g i -> ~ popper g i ->
  pstep stopped (main c) o = Some (p', o') -> simulates n ts q i c p' o'.
Proof using HR Hi HD.
  intros Ec Hsrc H1 H2. pose proof (ctrl_bounds HD n g hd ts o q HR) as (B1 & B2 & B3 & B4 & _).
  apply (run_flag c tr (try_push_begin (Z.of_nat D)) (push_copy src)); auto; try (rewrite Ec; destruct tr; reflexivity).
  - rewrite Ec. destruct tr; cbn; apply Nat.eqb_eq; exact Hsrc.
  - pose proof (r_ctrl _ _ _ _ _ HR) as Hc. cbn [snd] in Hc.
    destruct (push_begin_spec _ _ _ _ _ Hc _ HD B1 B2 B3 B4) as [(_ & _ & c' & Ef & _)|Ef]; [right|left; exact Ef].
    do 2 eexists. split; [exact Ef|]. eapply fifo_simulates_quiet; [reflexivity|].
    eapply push_begins; eauto. rewrite Ec. unfold pushes. destruct tr; auto.
Qed.

Lemma run_pop c (tr : bool) (peek : bool) stopped p' o' :
  c = (if tr then if peek then TryPeek else TryPop else if peek then Peek else Pop) -> ~ pusher g i -> ~ popper g i ->
  pstep stopped (main c) o = Some (p', o') -> simulates n ts q i c p' o'.
Proof using HR Hi HD.
  intros Ec H1 H2. pose proof (ctrl_bounds HD n g hd ts o q HR) as (B1 & B2 & B3 & B4 & _).
  apply (run_flag c tr ((if peek then try_peek_begin else try_pop_begin) (Z.of_nat D)) (pop_copy (Z.of_nat D)));
    auto; try (rewrite Ec; destruct tr, peek; reflexivity).
  - pose proof (r_ctrl _ _ _ _ _ HR) as Hc. cbn [snd] in Hc.
    destruct (pop_begin_spec _ _ _ _ _ Hc _ HD B1 B2 B3 B4) as [(_ & _ & c1 & c2 & E1 & _ & E2 & _)|[E1 E2]];
      [right|left; destruct peek; assumption].
    assert (exists v c', (if peek then try_peek_begin else try_pop_begin) (Z.of_nat D) (ctrl o) = (Some v, c'))
      as (v & c' & Ef) by (destruct peek; eauto).
    exists v, c'. split; [exact Ef|]. eapply fifo_simulates_quiet; [reflexivity|].
    apply (pop_begins HD n g hd ts o q HR i Hi c (if peek then KPeek else KPop)); auto.
    + destruct peek; auto.
    + rewrite Ec. unfold pops. destruct tr, peek; auto.
Qed.

Lemma run_size stopped p' o' :
  ~ pusher g i -> ~ popper g i -> pstep stopped (main Size) o = Some (p', o') -> simulates n ts q i Size p' o'.
Proof using HR Hi HD.
  intros H1 H2 [= <- <-]. pose proof (ctrl_bounds HD n g hd ts o q HR) as (_ & B2 & _).
  pose proof (r_ctrl _ _ _ _ _ HR) as [_ _ Ec _]. cbn [snd] in Ec.
  exists q, g, hd. split; [|apply (fifo_local_step n g hd ts o q HR i Hi); apply ok_ret; auto].
  cbn [main load_count default returned spec_run fifo_spec ev_call ev_code].
  change 0xffffff with (Z.ones 24). rewrite Z.land_ones, Ec, Z.mod_small by lia.
  rewrite (proj2 (Z.leb_le _ _)); [reflexivity|]. unfold pushing, popping in *.
  destruct (pu g), (po g) as [[j [| |b]]|]; lia.
Qed.

Lemma run_clear stopped p' o' :
  ~ pusher g i -> ~ popper g i -> pstep stopped (main Clear) o = Some (p', o') -> simulates n ts q i Clear p' o'.
Proof using HR Hi.
  intros H1 H2. apply (run_flag Clear false try_clear_begin_1 (fun _ => clear_wait)); auto.
  pose proof (r_ctrl _ _ _ _ _ HR) as Hc. cbn [snd] in Hc.
  destruct (clear_1_spec _ _ _ _ _ Hc) as [(_ & c' & Ef & _)|Ef]; [right|left; exact Ef].
  do 2 eexists. split; [exact Ef|]. eapply fifo_simulates_quiet; [reflexivity|]. eapply clear_begins; eauto.
Qed.

Lemma run_main c stopped p' o' :
  ~ pusher g i -> ~ popper g i -> may c 0 c = true ->
  pstep stopped (main c) o = Some (p', o') -> simulates n ts q i c p' o'.
Proof using HR Hi HD.
  intros H1 H2 H3. destruct c as [src|src| | | | | |]; cbn [may] in H3; try apply Nat.eqb_eq in H3.
  - apply (run_push _ false src); auto.
  - apply (run_push _ true src); auto.
  - apply (run_pop _ false false); auto.
  - apply (run_pop _ true false); auto.
  - apply (run_pop _ false true); auto.
  - apply (run_pop _ true true); auto.
  - apply run_size; auto.
  - apply run_clear; auto.
Qed.

Lemma run_push_copy c src stopped p' o' :
  pushes c src -> pu g = Some (i, 0%nat, src) -> ~ popper g i -> length src = N ->
  pstep stopped (push_copy src (Z.of_nat ((hd + length q) mod D))) o = Some (p', o') -> simulates n ts q i c p' o'.
Proof using HR Hi HDN HD.
  intros Hc Hp Hnp Hsrc [= <- <-]. pose proof (r_size _ _ _ _ _ HR) as Hs. cbn [snd] in Hs. cbn [default].
  assert (p := Nat.mod_upper_bound (hd + length q) D ltac:(lia)).
  rewrite Hs, Nat2Z.id, firstn_all2, offset_ok by lia.
  eapply fifo_simulates_quiet; [destruct src; reflexivity|]. apply (fifo_local_step n g hd ts o q HR i Hi).
  apply (ok_pushing _ _ _ _ c src 0); auto. lia.
Qed.

Lemma run_pushing c src k stopped p' o' :
  pushes c src -> pu g = Some (i, k, src) -> ~ popper g i -> length src = N -> (k <= N)%nat ->
  pstep stopped (copy_in (put_at (((hd + length q) mod D) * N)) (drop k src) k push_finish) o = Some (p', o') ->
  simulates n ts q i c p' o'.
Proof using HR Hi HD.
  intros Hc Hp Hnp Hsrc Hk. destruct (Nat.eq_dec k N) as [->|Hne].
  - rewrite skipn_all2 by lia. intros [= <- <-].
    destruct (push_ends HD n g hd ts o q HR i Hi c src Hp Hnp Hsrc) as [Hroom HR'].
    exists (q ++ [src]). do 2 eexists. split; [|exact HR'].
    destruct Hc as [-> | ->]; cbn -[Nat.ltb]; rewrite (proj2 (Nat.ltb_lt _ _) Hroom); reflexivity.
  - destruct (lookup_lt_is_Some_2 src k ltac:(lia)) as [b Hb]. rewrite (drop_S _ _ _ Hb). intros [= <- <-].
    eapply fifo_simulates_quiet; [destruct (drop (S k) src); reflexivity|]. eapply push_byte; eauto.
Qed.

Lemma run_pop_copy c kd pos stopped p' o' :
  pops c kd -> po g = Some (i, kd) -> ~ pusher g i -> pos mod Z.of_nat D = Z.of_nat (hd mod D) ->
  pstep stopped (pop_copy (Z.of_nat D) pos) o = Some (p', o') -> simulates n ts q i c p' o'.
Proof using HR Hi HDN HD.
  intros Hc Hp Hnp Hpos [= <- <-]. pose proof (r_size _ _ _ _ _ HR) as Hs. cbn [snd] in Hs. cbn [default].
  assert (p := Nat.mod_upper_bound hd D ltac:(lia)). rewrite Hpos, Hs, Nat2Z.id, offset_ok by lia.
  assert (q <> []) as Hq by (apply (r_popped _ _ _ _ _ HR i kd Hp); unfold pops in Hc; tauto).
  assert (exists x, head q = Some x) as [x Hx] by (destruct q; [contradiction|eexists; reflexivity]).
  eapply fifo_simulates_quiet; [destruct N; reflexivity|]. apply (fifo_local_step n g hd ts o q HR i Hi).
  rewrite <- (Nat.sub_0_r N) at 2. apply (ok_popping _ _ _ _ c kd 0 x); auto. lia.
Qed.

Lemma run_popping c kd k x stopped p' o' :
  pops c kd -> po g = Some (i, kd) -> ~ pusher g i -> head q = Some x -> (k <= N)%nat ->
  pstep stopped (copy_out (get_at ((hd mod D) * N)) (N - k) k (take k x) pop_finish) o = Some (p', o') ->
  simulates n ts q i c p' o'.
Proof using HR Hi HD.
  intros Hc Hp Hnp Hx Hk. pose proof HR as [_ _ _ Hl _ _ Hit _ _ _ _]. cbn [snd] in Hl, Hit.
  pose proof Hx as Hx0. rewrite head_lookup in Hx0. specialize (Hit 0%nat x Hx0). rewrite Nat.add_0_r in Hit.
  assert (length x = N) as Hxl by (rewrite <- Hit; apply (slot_length N _ _ D); [exact Hl|apply Nat.mod_upper_bound; lia]).
  destruct (Nat.eq_dec k N) as [->|Hne].
  - rewrite Nat.sub_diag, firstn_all2 by lia. intros [= <- <-].
    pose proof (pop_ends HD n g hd ts o q HR i Hi c kd x Hp Hc Hnp Hx) as HR'. cbn zeta in HR'.
    exists (if match kd with KPop => true | _ => false end then tail q else q). do 2 eexists. split; [|exact HR'].
    destruct Hc as [[-> [-> | ->]]|[-> [-> | ->]]]; cbn; rewrite Hx, decide_True by reflexivity; reflexivity.
  - replace (N - k)%nat with (S (N - S k)) by lia. intros [= <- <-].
    destruct (lookup_lt_is_Some_2 x k ltac:(lia)) as [b Hb].
    assert (get_at ((hd mod D) * N) k o = b) as ->
      by (unfold get_at; rewrite <- (slot_lookup N) by lia; rewrite Hit, Hb; reflexivity).
    rewrite <- (take_S_r _ _ _ Hb).
    eapply fifo_simulates_quiet; [destruct (N - S k)%nat; reflexivity|]. apply (fifo_local_step n g hd ts o q HR i Hi).
    apply (ok_popping _ _ _ _ c kd); auto. lia.
Qed.

Lemma run_clear_wait stopped p' o' :
  po g = Some (i, KClear false) -> ~ pusher g i ->
  pstep stopped clear_wait o = Some (p', o') -> simulates n ts q i Clear p' o'.
Proof using HR Hi.
  intros Hp Hnp. pose proof (r_ctrl _ _ _ _ _ HR) as Hc. cbn [snd] in Hc. unfold clear_wait, on_ctrl. cbn [pstep].
  destruct (clear_2_spec _ _ _ _ _ Hc) as [(_ & c' & Ef & _)|Ef]; rewrite Ef; intros [= <- <-]; rewrite ?queue_eta.
  - eapply fifo_simulates_quiet; [reflexivity|]. eapply clear_locks; eauto.
  - eapply fifo_simulates_quiet; [destruct stopped; reflexivity|]. apply (fifo_local_step n g hd ts o q HR i Hi).
    destruct stopped; [apply ok_clear_halt|apply ok_clear_wait]; auto.
Qed.
End Run.

(** A copy is under way or about to end, never at its end. *)
Ltac no_copy :=
  match goal with
  | H : copy_in _ ?l _ _ = _ |- _ => destruct l; discriminate
  | H : copy_out _ ?m _ _ _ = _ |- _ => destruct m; discriminate
  end.

Lemma idle_flags g hd q i c code out :
  thread_ok g hd q i (c, Ret code out) -> ~ pusher g i /\ ~ popper g i.
Proof using Hnull Hbuf Halign D.
  intros Ht. inversion Ht; subst; auto; no_copy.
Qed.

Lemma fifo_step n s l s' q :
  (exists g hd, related n g hd s q) -> sys_step body may s l s' ->
  exists q', spec_run fifo_spec q l = Some q' /\ exists g hd, related n g hd s' q'.
Proof using Hnull Hbuf Halign HD HDN.
  intros (g & hd & HR) Hs. revert HR.
  destruct Hs as [ts o i c p stopped p' o' Hi Hp|ts o i c code out c' Hi Hm]; intros HR;
    (assert (i < n)%nat as Hin by (rewrite <- (r_len _ _ _ _ _ HR); apply lookup_lt_Some in Hi; exact Hi));
    pose proof (r_thr _ _ _ _ _ HR i _ Hi) as Ht.
  - assert (simulates n ts q i c p' o') as (q' & g' & hd' & E & HR'); [|eauto].
    inversion Ht; subst; try discriminate.
    + eapply run_body; eauto.
    + eapply run_main; eauto.
    + eapply run_push_copy; eauto.
    + eapply run_pushing; eauto.
    + eapply run_pop_copy; eauto.
    + eapply run_popping; eauto.
    + eapply run_clear_wait; eauto.
    + injection Hp as <- <-. exists []. do 2 eexists. split; [reflexivity|]. eapply clear_ends; eauto.
  - exists q. rewrite fifo_body_not_ret. split; [reflexivity|]. exists g, hd.
    destruct (idle_flags _ _ _ _ _ _ _ Ht). apply (fifo_local_step n g hd ts o q HR i Hin). apply ok_body; auto.
Qed.

(** The queue after its initialization, all threads idle. *)
Definition started (n : nat) (bytes : list Z) (o : queue_t) : sys queue_t call :=
  idle n Clear CELL_OK
    (snd (run_alone 1 (cellSyncQueueInitialize queue buf (Z.of_nat N) (Z.of_nat D) bytes) o)).

Lemma fifo_start n bytes o :
  aligned buf 16 = true -> Z.of_nat N mod 16 = 0 -> length bytes = (D * N)%nat ->
  related n (mk_ghost None None) 0 (started n bytes o) [].
Proof using Hnull Hbuf Halign HD.
  intros Hb Hmod Hlen. unfold started, cellSyncQueueInitialize. rewrite Halign, Hb, Hmod.
  destruct (Z.eqb_spec queue 0), (Z.eqb_spec buf 0), (Z.eqb_spec (Z.of_nat D) 0); try contradiction; try lia.
  rewrite andb_false_r. split; cbn [negb orb run_alone pstep snd fst idle ctrl size depth data Z.eqb]; try discriminate; auto.
  - apply length_replicate.
  - split; try reflexivity. cbn. rewrite Nat.Div0.mod_0_l. reflexivity.
  - cbn. lia.
  - intros i t [-> _]%lookup_replicate.
    apply ok_ret; intros H; [destruct H as (? & ? & ?)|destruct H as (? & ?)]; discriminate.
Qed.

Lemma no_throw g hd q i c : ~ thread_ok g hd q i (c, Throw).
Proof using Hnull Hbuf Halign.
  intros Ht. destruct (fifo_body_atomic c) as (k & Eb & _). unfold with_depth in Eb.
  inversion Ht; subst; try no_copy; [congruence|destruct c; discriminate].
Qed.
End Fifo.

(** C31: the queue is first-in first-out.  A queue of [D] slots (below 2^24) of [N] bytes is used
    by any number of threads, each pushing, popping, peeking, asking the size or clearing at
    any time, the copies of the slots interleaved byte by byte with the other calls.  The calls
    return as those of a sequential queue of at most [D] items: a pop returns exactly the
    bytes of the oldest item pushed and not yet popped or cleared, a push returns only with
    room for its item, the size is off by at most one for a push or pop under way; the
    "Invalid queue pointers" exception does not occur. *)
Theorem queue_fifo queue buf N D n bytes o tr s :
  queue <> 0 -> buf <> 0 -> aligned queue 32 = true -> aligned buf 16 = true ->
  0 < Z.of_nat D < 2 ^ 24 -> Z.of_nat D * Z.of_nat N < 2 ^ 32 -> Z.of_nat N mod 16 = 0 ->
  length bytes = (D * N)%nat ->
  sys_steps (body queue buf) (may N) (started queue buf N D n bytes o) tr s ->
  (exists q, spec_run (fifo_spec D) [] tr = Some q /\ (length q <= D)%nat) /\
  forall i c, fst s !! i <> Some (c, Throw).
Proof.
  intros Hnull Hbuf Ha Hb HD HDN Hmod Hlen Hs.
  destruct (simulation (body queue buf) (may N) (fifo_spec D)
              (fun s q => exists g hd, related queue buf N D n g hd s q) (started queue buf N D n bytes o) [])
    with (tr := tr) (s := s) as (q & E & g & hd & HR); auto.
  - exists (mk_ghost None None), 0%nat. apply fifo_start; auto.
  - intros s1 q l s2. apply fifo_step; auto.
  - split; [exists q; split; [exact E|]; pose proof (r_room _ _ _ _ _ _ _ _ _ HR); lia|].
    intros i c Hi. eapply no_throw; [exact Hnull|exact Hbuf|exact Ha|]. exact (r_thr _ _ _ _ _ _ _ _ _ HR i _ Hi).
Qed.

(** Two slots; a push is under way while another thread pops. *)
Definition fifo_schedule (N : nat) : list (move call) :=
  let copy i := replicate N (Run i) in
  [Begin 0 (Push (replicate N 3)); Run 0; Run 0; Run 0] ++ copy 0%nat ++
  [Begin 1 TryPop; Run 1; Run 1; Run 0; Begin 1 TryPop; Run 1; Run 1;
   Begin 0 (Push (replicate N 4)); Run 0; Run 0; Run 1; Run 0] ++
  copy 1%nat ++ [Run 1] ++ copy 0%nat ++ [Run 0; Begin 1 Size; Run 1; Run 1].
Definition fifo_sample : list (event call) * sys queue_t call :=
  let s := started 32 16 16 2 2 (replicate 32 0) (mk (mk_ctrl 0 0) 0 0 0 []) in
  default ([], s) (do_moves (body 32 16) (may 16) (fifo_schedule 16) s).

Lemma queue_fifo_witness :
  fst fifo_sample = [mk_event 1 TryPop CELL_SYNC_ERROR_BUSY []; mk_event 0 (Push (replicate 16 3)) CELL_OK [];
                     mk_event 1 TryPop CELL_OK (replicate 16 3); mk_event 0 (Push (replicate 16 4)) CELL_OK [];
                     mk_event 1 Size 1 []] /\
  exists q, spec_run (fifo_spec 2) [] (fst fifo_sample) = Some q /\ (length q <= 2)%nat.
Proof.
  split; [vm_compute; reflexivity|].
  refine (proj1 (queue_fifo 32 16 16 2 2 (replicate 32 0) (mk (mk_ctrl 0 0) 0 0 0 []) (fst fifo_sample) (snd fifo_sample)
    _ _ _ _ _ _ _ _ _)).
  - discriminate.
  - discriminate.
  - reflexivity.
  - reflexivity.
  - lia.
  - reflexivity.
  - reflexivity.
  - reflexivity.
  - apply (run_schedule _ _ (fifo_schedule 16)). vm_compute. reflexivity.
Defined.
