(* ===== verification/VfsName.v ===== *)
(** * File names on the host (Emu/VFS.cpp: escape, unescape)

    Guest file names are arbitrary bytes; hosts refuse some of them.  [escape] writes a
    name with full-width characters in place of what a host may refuse and [unescape]
    inverts it.  A name is a list of bytes; a position of the source is the rest of the
    name from there on. *)

From Stdlib Require Import ZArith Lia Bool.
From stdpp Require Import base numbers list option.
From S2P Require Import Prelude.

(** [name[pos + i]], zero past the end ([get_char] and [byte] of the source). *)
Definition get_char (name : list Z) (i : nat) : Z := default 0 (name !! i).

Definition between (lo hi b : Z) : bool := (lo <=? b) && (b <=? hi).

(** The bytes from [i] up to [size] are continuation bytes. *)
Fixpoint continuations (name : list Z) (n i : nat) : bool :=
  match n with
  | O => true
  | S n => between 0x80 0xbf (get_char name i) && continuations name n (S i)
  end.

Definition utf8_sequence_size (name : list Z) : nat :=
  let b0 := get_char name 0 in
  if b0 <? 0x80 then 1%nat else
  let b1 := get_char name 1 in
  let size :=
    (if between 0xc2 0xdf b0 && between 0x80 0xbf b1 then 2%nat
    else if (b0 =? 0xe0) && between 0xa0 0xbf b1 then 3%nat
    else if (b0 =? 0xed) && between 0x80 0x9f b1 then 3%nat
    else if between 0xe1 0xef b0 && between 0x80 0xbf b1 then 3%nat
    else if (b0 =? 0xf0) && between 0x90 0xbf b1 then 4%nat
    else if (b0 =? 0xf4) && between 0x80 0x8f b1 then 4%nat
    else if between 0xf1 0xf3 b0 && between 0x80 0xbf b1 then 4%nat
    else 0%nat) in
  if continuations name (size - 2) 2 then size else 0%nat.

(** The full-width characters the source writes as literals. *)
Definition fw_excl : list Z := [0xef; 0xbc; 0x81].      (* U+FF01, exclamation mark *)
Definition fw_percent : list Z := [0xef; 0xbc; 0x85].   (* U+FF05, per cent sign *)

Definition hex (d : Z) : Z := if d <? 10 then 48 + d else 65 + (d - 10).

(** The switch over a byte that is not trash; [rest] follows it in the name. *)
Definition escape_char (escape_slash : bool) (c : Z) (rest : list Z) : list Z :=
  if between 0 9 c then [0xef; 0xbc; u8 (0x90 + c)]
  else if between 10 31 c then [0xef; 0xbc; u8 (u8 (0xa1 + c) - 10)]
  else if c =? 60 then [0xef; 0xbc; 0x9c]
  else if c =? 62 then [0xef; 0xbc; 0x9e]
  else if c =? 58 then [0xef; 0xbc; 0x9a]
  else if c =? 34 then [0xef; 0xbc; 0x82]
  else if c =? 92 then [0xef; 0xbc; 0xbc]
  else if c =? 124 then [0xef; 0xbd; 0x9c]
  else if c =? 63 then [0xef; 0xbc; 0x9f]
  else if c =? 42 then [0xef; 0xbc; 0x8a]
  else if c =? 47 then (if escape_slash then [0xef; 0xbc; 0x8f] else [c])
  else if (c =? 46) || (c =? 32) then
    (if get_char rest 0 =? 0
     then (if c =? 46 then [0xef; 0xbc; 0x8e] else [0xef; 0xbc; 0xbf])
     else [c])
  else if c =? 0xef then
    (if get_char rest 0 =? 0xbc then
       (if between 0x81 0xbf (get_char rest 1) then fw_excl else [])
     else if get_char rest 0 =? 0xbd then
       (if between 0x80 0x9e (get_char rest 1) then fw_excl else [])
     else []) ++ [c]
  else [c].

(** The loop; [utf8_left] bytes of the sequence being copied are left. *)
Fixpoint escape_loop (escape_slash : bool) (utf8_left : nat) (name : list Z) : list Z :=
  match name with
  | [] => []
  | b :: rest =>
      if 0x80 <=? b then
        match utf8_left with
        | S n => escape_char escape_slash b rest ++ escape_loop escape_slash n rest
        | O =>
            match utf8_sequence_size name with
            | O => fw_percent ++ [hex (Z.shiftr b 4); hex (Z.land b 0xf)]
                   ++ escape_loop escape_slash 0 rest
            | S n => escape_char escape_slash b rest ++ escape_loop escape_slash n rest
            end
        end
      else escape_char escape_slash b rest ++ escape_loop escape_slash utf8_left rest
  end.

(** [utils::toupper]; a name's characters in the C locale. *)
Definition toupper (c : Z) : Z := if between 97 122 c then c - 32 else c.

(** The first three characters packed. *)
Definition triple (name : list Z) : Z :=
  Z.lor (Z.lor (toupper (get_char name 0)) (Z.shiftl (toupper (get_char name 1)) 8))
    (Z.shiftl (toupper (get_char name 2)) 16).

(** The prefix of a device name. *)
Definition device_prefix (name : list Z) : list Z :=
  if (length name <=? 2)%nat then [] else
  let triple := triple name in
  if (triple =? 0x4d4f43) || (triple =? 0x54504c) then
    (if (4 <=? length name)%nat && (49 <=? get_char name 3) && (get_char name 3 <=? 57) then
       (if (length name =? 4)%nat || (get_char name 4 =? 46) then fw_excl else [])
     else [])
  else if (triple =? 0x4c554e) || (triple =? 0x4e4f43) || (triple =? 0x585541) || (triple =? 0x4e5250) then
    (if (length name =? 3)%nat || (get_char name 3 =? 46) then fw_excl else [])
  else [].

Definition only_dots (name : list Z) : bool :=
  (length name <=? 2)%nat && forallb (fun c => c =? 46) name.

Definition escape (name : list Z) (escape_slash : bool) : list Z :=
  if only_dots name then name
  else device_prefix name ++ escape_loop escape_slash 0 name.

Definition hex_digit (h : Z) : Z :=
  if between 48 57 h then h - 48 else if between 65 70 h then h - 65 + 10 else -1.

(** What the character [EF BC c3] stands for, where it is one character. *)
Definition unescape_bc (c3 : Z) : list Z :=
  if between 0x90 0x99 c3 then [u8 (c3 - 0x90)]
  else if between 0xa1 0xb6 c3 then [u8 (u8 (c3 - 0xa1) + 10)]
  else if c3 =? 0xbf then [32]
  else if c3 =? 0x8e then [46]
  else if c3 =? 0x9c then [60]
  else if c3 =? 0x9e then [62]
  else if c3 =? 0x9a then [58]
  else if c3 =? 0x82 then [34]
  else if c3 =? 0xbc then [92]
  else if c3 =? 0x9f then [63]
  else if c3 =? 0x8a then [42]
  else [].

(** The loop; [skip] characters are still to be passed over ([i += skip]), [first] is [i == 0]. *)
Fixpoint unescape_loop (skip : nat) (first : bool) (name : list Z) : list Z :=
  match name with
  | [] => []
  | c :: rest =>
      match skip with
      | S skip => unescape_loop skip false rest
      | O =>
          if c =? 0xef then
            (if get_char rest 0 =? 0xbc then
               let c3 := get_char rest 1 in
               if between 0x81 0xbf c3 then
                 (if c3 =? 0x81 then
                    let c4 := get_char rest 2 in
                    if c4 =? 0 then [] else c4 :: unescape_loop 3 false rest
                  else if c3 =? 0x85 then
                    let hi := hex_digit (get_char rest 2) in
                    let lo := hex_digit (get_char rest 3) in
                    if (0 <=? hi) && (0 <=? lo) then u8 (hi * 16 + lo) :: unescape_loop 4 false rest
                    else unescape_loop 2 false rest
                  else if (c3 =? 0x84) && first then [46]
                  else unescape_bc c3 ++ unescape_loop 2 false rest)
               else c :: unescape_loop 0 false rest
             else if get_char rest 0 =? 0xbd then
               let c3 := get_char rest 1 in
               if between 0x80 0x9e c3 then
                 (if c3 =? 0x9c then [124] else []) ++ unescape_loop 2 false rest
               else c :: unescape_loop 0 false rest
             else c :: unescape_loop 0 false rest)
          else if c =? 0 then []
          else c :: unescape_loop 0 false rest
      end
  end.

Definition unescape (name : list Z) : list Z := unescape_loop 0 true name.

(** ** Reference: UTF-8

    Well-formed UTF-8 encodes code points other than the surrogates, the scalar values. *)

Definition code_point (cp : Z) : Prop := 0 <= cp < 0x110000.
Definition surrogate (cp : Z) : Prop := 0xd800 <= cp < 0xe000.
Definition scalar (cp : Z) : Prop := code_point cp /\ ~ surrogate cp.

Definition utf8_encode (cp : Z) : list Z :=
  if cp <? 0x80 then [cp]
  else if cp <? 0x800 then [0xc0 + cp / 64; 0x80 + cp mod 64]
  else if cp <? 0x10000 then [0xe0 + cp / 4096; 0x80 + cp / 64 mod 64; 0x80 + cp mod 64]
  else [0xf0 + cp / 262144; 0x80 + cp / 4096 mod 64; 0x80 + cp / 64 mod 64; 0x80 + cp mod 64].

(** [s] encodes code points of [P]. *)
Definition encodes (P : Z -> Prop) (s : list Z) : Prop :=
  exists cps, Forall P cps /\ s = concat (utf8_encode <$> cps).
Abbreviation valid_utf8 := (encodes scalar).

Definition bytes (s : list Z) : Prop := Forall (fun b => 0 <= b < 256) s.

Lemma encodes_nil P : encodes P [].
Proof. exists []. auto. Qed.
Lemma encodes_cons (P : Z -> Prop) cp s : P cp -> encodes P s -> encodes P (utf8_encode cp ++ s).
Proof. intros H (cps & Hc & ->). exists (cp :: cps). auto. Qed.

Ltac div_lia := Z.div_mod_to_equations; lia.
(** Decide the tests of a goal from the bounds in the context. *)
Ltac tests := repeat (case_match; try (exfalso; div_lia)).

Lemma conts_forall name n i :
  continuations name n i = true -> forall j, (i <= j < i + n)%nat -> 0x80 <= get_char name j <= 0xbf.
Proof.
  revert i. induction n as [|n IH]; intros i E j Hj; [lia|]. cbn [continuations] in E.
  apply andb_true_iff in E as [E1 E2]. destruct (decide (j = i)) as [->|]; [unfold between in E1; lia|].
  apply (IH (S i) E2). lia.
Qed.

Lemma get_char_take name n i : (i < n)%nat -> get_char (take n name) i = get_char name i.
Proof. intros H. unfold get_char. rewrite lookup_take_lt by exact H. reflexivity. Qed.

Lemma take_get_chars name n :
  (forall i, (i < n)%nat -> get_char name i <> 0) -> take n name = get_char name <$> seq 0 n.
Proof.
  intros H. assert (n <= length name)%nat as Hl.
  { destruct (decide (length name < n)%nat) as [Hlt|]; [|lia]. exfalso.
    apply (H (length name)); [lia|]. unfold get_char. rewrite lookup_ge_None_2 by lia. reflexivity. }
  apply list_eq_same_length with n; [rewrite length_fmap, length_seq; reflexivity|apply length_take_le; lia|].
  intros i x y Hi Hx Hy. rewrite list_lookup_fmap, lookup_seq_lt in Hy by exact Hi.
  rewrite lookup_take_lt in Hx by exact Hi. injection Hy as <-. unfold get_char. cbn. rewrite Hx. reflexivity.
Qed.

(** A size found is that of an encoded code point. *)
Lemma size_encode name k :
  0x80 <= get_char name 0 -> utf8_sequence_size name = S k ->
  exists cp, code_point cp /\ 0x80 <= cp /\ length (utf8_encode cp) = S k /\ take (S k) name = utf8_encode cp.
Proof.
  unfold utf8_sequence_size, code_point. intros H0. cbv zeta.
  replace (get_char name 0 <? 128) with false by lia.
  set (b0 := get_char name 0) in *. set (b1 := get_char name 1).
  match goal with |- context [continuations name (?e - 2) 2] => remember e as size eqn:Es end.
  destruct (continuations name (size - 2) 2) eqn:Ec; [|discriminate]. intros ->.
  pose proof (conts_forall _ _ _ Ec) as Hc. unfold between in Es.
  assert (forall i, (i < S k)%nat -> get_char name i <> 0) as Hnz.
  { intros [|[|i]] Hi; fold b0 b1; [lia| |]; [tests; lia|]. specialize (Hc (S (S i))). lia. }
  rewrite (take_get_chars _ _ Hnz). pose proof (Hc 2%nat) as H2. pose proof (Hc 3%nat) as H3.
  set (b2 := get_char name 2) in *. set (b3 := get_char name 3) in *.
  assert (S k = 2 \/ S k = 3 \/ S k = 4)%nat as [Ek|[Ek|Ek]] by (tests; lia); rewrite Ek in *; cbn [seq fmap list_fmap];
    fold b0 b1 b2 b3.
  - exists ((b0 - 0xc0) * 64 + (b1 - 0x80)).
    assert (0xc2 <= b0 <= 0xdf /\ 0x80 <= b1 <= 0xbf) by (tests; lia).
    clear Es Ec. unfold utf8_encode. tests. split; [lia|]. split; [lia|]. split; [reflexivity|]. repeat f_equal; div_lia.
  - exists ((b0 - 0xe0) * 4096 + (b1 - 0x80) * 64 + (b2 - 0x80)). specialize (H2 ltac:(lia)).
    assert (0xe0 <= b0 <= 0xef /\ 0x80 <= b1 <= 0xbf /\ (b0 = 0xe0 -> 0xa0 <= b1)) by (tests; lia).
    clear Es Ec. unfold utf8_encode. tests. split; [lia|]. split; [lia|]. split; [reflexivity|]. repeat f_equal; div_lia.
  - exists ((b0 - 0xf0) * 262144 + (b1 - 0x80) * 4096 + (b2 - 0x80) * 64 + (b3 - 0x80)).
    specialize (H2 ltac:(lia)). specialize (H3 ltac:(lia)).
    assert (0xf0 <= b0 <= 0xf4 /\ 0x80 <= b1 <= 0xbf /\ (b0 = 0xf0 -> 0x90 <= b1) /\ (b0 = 0xf4 -> b1 <= 0x8f)) by (tests; lia).
    clear Es Ec. unfold utf8_encode. tests. split; [lia|]. split; [lia|]. split; [reflexivity|]. repeat f_equal; div_lia.
Qed.

(** And an encoded code point is found. *)
Lemma encode_size cp rest :
  code_point cp -> utf8_sequence_size (utf8_encode cp ++ rest) = length (utf8_encode cp).
Proof.
  unfold code_point. intros H. unfold utf8_encode.
  destruct (Z.ltb_spec cp 0x80) as [H1|H1]; [|destruct (Z.ltb_spec cp 0x800) as [H2|H2];
    [|destruct (Z.ltb_spec cp 0x10000) as [H3|H3]]];
    unfold utf8_sequence_size, between, get_char; cbn -[Z.div Z.modulo Z.add Z.leb Z.ltb Z.eqb];
    tests; cbn -[Z.div Z.modulo Z.add Z.leb Z.ltb Z.eqb] in *; unfold between, get_char in *;
    cbn -[Z.div Z.modulo Z.add Z.leb Z.ltb Z.eqb] in *; try reflexivity; exfalso; div_lia.
Qed.

(** ** What the loop writes

    The characters the names of the source stand for in pieces: an ASCII character, an
    encoded code point (full-width ones from U+FF01 to U+FF5E behind an exclamation mark),
    or a byte that belongs to no sequence. *)
Inductive escaped (slash : bool) : list Z -> list Z -> Prop :=
| escaped_nil : escaped slash [] []
| escaped_ascii c rest out :
    0 <= c < 0x80 -> escaped slash rest out ->
    escaped slash (c :: rest) (escape_char slash c rest ++ out)
| escaped_sequence cp rest out :
    code_point cp -> 0x80 <= cp -> escaped slash rest out ->
    escaped slash (utf8_encode cp ++ rest)
      ((if between 0xff01 0xff5e cp then fw_excl else []) ++ utf8_encode cp ++ out)
| escaped_trash b rest out :
    0x80 <= b < 256 -> utf8_sequence_size (b :: rest) = 0%nat -> escaped slash rest out ->
    escaped slash (b :: rest) (fw_percent ++ [hex (Z.shiftr b 4); hex (Z.land b 0xf)] ++ out).

Lemma escape_high slash b rest : 0x80 <= b -> b <> 0xef -> escape_char slash b rest = [b].
Proof. intros H E. unfold escape_char, between. tests; reflexivity || lia. Qed.

Lemma escape_loop_conts slash conts rest :
  Forall (fun b => 0x80 <= b <= 0xbf) conts ->
  escape_loop slash (length conts) (conts ++ rest) = conts ++ escape_loop slash 0 rest.
Proof.
  induction 1 as [|b conts Hb _ IH]; [reflexivity|]. cbn [length app escape_loop].
  replace (128 <=? b) with true by lia. rewrite escape_high by lia. rewrite IH. reflexivity.
Qed.

(** The tail of an encoded code point is continuation bytes. *)
Lemma encode_parts cp :
  code_point cp -> 0x80 <= cp -> exists b conts, utf8_encode cp = b :: conts /\
    0xc2 <= b < 0xf5 /\ Forall (fun b => 0x80 <= b <= 0xbf) conts.
Proof.
  unfold code_point, utf8_encode. intros H1 H2. tests; eexists _, _; (split; [reflexivity|]);
    (split; [div_lia|]); repeat constructor; div_lia.
Qed.

Lemma encode_ef slash cp rest b conts :
  code_point cp -> 0x80 <= cp -> utf8_encode cp = b :: conts ->
  escape_char slash b (conts ++ rest) = (if between 0xff01 0xff5e cp then fw_excl else []) ++ [b].
Proof.
  intros H1 H2 E. destruct (encode_parts cp H1 H2) as (b' & conts' & E' & Hb & _).
  rewrite E in E'. injection E' as <- <-. unfold code_point in H1.
  destruct (Z.eq_dec b 0xef) as [->|Hne].
  - unfold utf8_encode in E. unfold between. revert E. tests; intros [= E0 <-]; try (exfalso; div_lia);
    unfold escape_char, between, get_char; cbn -[Z.div Z.modulo Z.add Z.leb Z.ltb Z.eqb]; tests; reflexivity.
  - rewrite escape_high by lia. unfold between, utf8_encode in *. revert E. tests; intros [= E0 <-]; reflexivity || (exfalso; div_lia).
Qed.

Lemma bytes_cons b s : bytes (b :: s) <-> 0 <= b < 256 /\ bytes s.
Proof. apply Forall_cons_iff. Qed.

Lemma loop_escaped slash name : bytes name -> escaped slash name (escape_loop slash 0 name).
Proof.
  remember (length name) as n eqn:Hn. revert name Hn.
  induction n as [n IH] using lt_wf_ind; intros [|b rest] -> Hb; [constructor|].
  apply bytes_cons in Hb as [Hb Hr]. cbn [escape_loop]. destruct (Z.leb_spec 0x80 b) as [Hh|Hl].
  2:{ apply escaped_ascii; [lia|]. apply (IH (length rest)); auto. }
  destruct (utf8_sequence_size (b :: rest)) as [|k] eqn:Es.
  { apply escaped_trash; [lia|exact Es|]. apply (IH (length rest)); auto. }
  destruct (size_encode (b :: rest) k Hh Es) as (cp & Hc & Hge & Hl & Ht).
  destruct (encode_parts cp Hc Hge) as (b' & conts & Ee & _ & Hcs). rewrite Ee in Hl, Ht.
  cbn [take length] in Hl, Ht. injection Ht as <- Ht. injection Hl as Hl.
  rewrite <- (take_drop k rest), Ht, <- Hl, (encode_ef slash cp _ _ _ Hc Hge Ee), escape_loop_conts by exact Hcs.
  change (b :: conts ++ drop (length conts) rest) with ((b :: conts) ++ drop (length conts) rest).
  rewrite <- Ee, <- app_assoc. cbn [app]. rewrite (app_comm_cons conts), <- Ee.
  apply escaped_sequence; auto. apply (IH (length (drop (length conts) rest))).
  - rewrite length_drop. cbn. lia.
  - reflexivity.
  - apply Forall_drop, Hr.
Qed.

(** ** Unescaping *)

Lemma unescape_plain f c rest :
  c <> 0xef -> c <> 0 -> unescape_loop 0 f (c :: rest) = c :: unescape_loop 0 false rest.
Proof. intros H1 H2. cbn [unescape_loop]. tests; [lia..|reflexivity]. Qed.

Lemma unescape_conts conts rest :
  Forall (fun b => 0x80 <= b <= 0xbf) conts -> unescape_loop 0 false (conts ++ rest) = conts ++ unescape_loop 0 false rest.
Proof. induction 1; cbn [app]; [reflexivity|]. rewrite unescape_plain by lia. congruence. Qed.

(** Full-width characters read back as what they were written for. *)
Lemma unescape_excl f c rest :
  c <> 0 -> unescape_loop 0 f (fw_excl ++ c :: rest) = c :: unescape_loop 0 false rest.
Proof. intros H. cbn. replace (c =? 0) with false by lia. reflexivity. Qed.

Lemma unescape_bc_plain f c3 rest :
  between 0x81 0xbf c3 = true -> c3 <> 0x81 -> c3 <> 0x85 -> c3 <> 0x84 ->
  unescape_loop 0 f ([0xef; 0xbc; c3] ++ rest) = unescape_bc c3 ++ unescape_loop 0 false rest.
Proof.
  intros H H1 H2 H3. cbn -[unescape_bc between].
  rewrite H. unfold between in H. tests; cbn in *; try lia; reflexivity.
Qed.

Lemma hex_trip d : 0 <= d < 16 -> hex_digit (hex d) = d.
Proof. intros H. unfold hex_digit, hex, between. tests; lia. Qed.

Lemma unescape_percent f b rest :
  0 <= b < 256 -> unescape_loop 0 f (fw_percent ++ [hex (Z.shiftr b 4); hex (Z.land b 0xf)] ++ rest)
                  = b :: unescape_loop 0 false rest.
Proof.
  intros H. assert (Z.shiftr b 4 = b / 16) as -> by apply (Z.shiftr_div_pow2 b 4 ltac:(lia)).
  assert (Z.land b 0xf = b mod 16) as -> by apply (Z.land_ones b 4 ltac:(lia)).
  cbn -[hex hex_digit Z.div Z.modulo wrap Z.leb Z.mul Z.add]. unfold get_char. cbn -[hex hex_digit Z.div Z.modulo wrap Z.leb Z.mul Z.add].
  rewrite !hex_trip by div_lia. replace (_ && _) with true by div_lia.
  f_equal. rewrite wrap_small by (unfold in_range; div_lia). div_lia.
Qed.

(** Every ASCII character but the slash written for a slash reads back. *)
Lemma unescape_ascii f c rest out :
  0 <= c < 0x80 -> unescape_loop 0 f (escape_char false c rest ++ out) = c :: unescape_loop 0 false out.
Proof.
  intros H. unfold escape_char, between.
  repeat case_match; try (exfalso; lia);
    first [ rewrite unescape_bc_plain by (unfold between, wrap; try lia; Z.div_mod_to_equations; lia);
            unfold unescape_bc, between, wrap; tests; cbn [app]; f_equal; div_lia
          | cbn [app]; apply unescape_plain; lia
          | assert (c = 124) as -> by lia; reflexivity ].
Qed.

Lemma unescape_sequence f cp out :
  code_point cp -> 0x80 <= cp ->
  unescape_loop 0 f ((if between 0xff01 0xff5e cp then fw_excl else []) ++ utf8_encode cp ++ out)
  = utf8_encode cp ++ unescape_loop 0 false out.
Proof.
  intros H1 H2. destruct (encode_parts cp H1 H2) as (b & conts & E & Hb & Hc).
  destruct (between 0xff01 0xff5e cp) eqn:Eb.
  - rewrite E. cbn [app]. change (0xef :: 0xbc :: 0x81 :: ?l) with (fw_excl ++ l).
    rewrite unescape_excl, unescape_conts by (auto; lia). reflexivity.
  - cbn [app]. destruct (Z.eq_dec b 0xef) as [->|Hne].
    2:{ rewrite E. cbn [app]. rewrite unescape_plain, unescape_conts by (auto; lia). reflexivity. }
    assert (unescape_loop 0 f (utf8_encode cp ++ out) = 0xef :: unescape_loop 0 false (conts ++ out)) as ->.
    { rewrite E. unfold code_point, utf8_encode, between in *. revert E. tests; intros [= E0 <-]; try (exfalso; div_lia).
      cbn -[Z.div Z.modulo Z.add Z.leb Z.ltb Z.eqb unescape_loop]. cbn -[Z.div Z.modulo Z.add Z.leb Z.ltb].
      unfold between. tests; reflexivity. }
    rewrite unescape_conts by exact Hc. rewrite E. reflexivity.
Qed.

Lemma escaped_unescape name out f : escaped false name out -> unescape_loop 0 f out = name.
Proof.
  intros H. revert f. induction H as [|c rest out Hc _ IH|cp rest out H1 H2 _ IH|b rest out Hb Hs _ IH]; intros f.
  - reflexivity.
  - rewrite unescape_ascii, IH by exact Hc. reflexivity.
  - rewrite unescape_sequence, IH by assumption. reflexivity.
  - rewrite unescape_percent, IH by lia. reflexivity.
Qed.

Lemma only_dots_unescape name : only_dots name = true -> unescape name = name.
Proof.
  unfold only_dots. destruct name as [|a [|b [|? ?]]]; cbn; try discriminate; intros H;
    repeat match goal with |- context [Z.eqb ?x ?y] => destruct (Z.eqb_spec x y) end; try lia; reflexivity.
Qed.


(** ** Device names *)

Lemma toupper_byte c : 0 <= c < 256 -> 0 <= toupper c < 256.
Proof. unfold toupper, between. tests; lia. Qed.

Lemma pack3 a b c :
  0 <= a < 256 -> 0 <= b < 256 -> 0 <= c ->
  Z.lor (Z.lor a (Z.shiftl b 8)) (Z.shiftl c 16) = a + 2 ^ 8 * b + 2 ^ 16 * c.
Proof.
  intros Ha Hb Hc. rewrite (Z.lor_comm a), (lor_shiftl_small b 8 a), Z.lor_comm, lor_shiftl_small by lia. lia.
Qed.

(** The device names, upper case. *)
Definition devices : list (list Z) :=
  [[67; 79; 78]; [80; 82; 78]; [65; 85; 88]; [78; 85; 76]]
  ++ flat_map (fun d => [[67; 79; 77; d]; [76; 80; 84; d]]) [49; 50; 51; 52; 53; 54; 55; 56; 57].

(** The name without its extensions. *)
Fixpoint stem (name : list Z) : list Z :=
  match name with
  | [] => []
  | c :: rest => if c =? 46 then [] else c :: stem rest
  end.
Definition reserved (name : list Z) : Prop := map toupper (stem name) ∈ devices.

Lemma stem_split name :
  exists tail, name = stem name ++ tail /\ Forall (fun c => c <> 46) (stem name) /\ (tail = [] \/ exists t, tail = 46 :: t).
Proof.
  induction name as [|c rest (tail & E & Hs & Ht)]; [exists []; cbn; auto|]. cbn [stem].
  destruct (Z.eqb_spec c 46) as [->|]; [exists (46 :: rest); cbn; eauto|].
  exists tail. cbn [app]. rewrite <- E. auto.
Qed.

Lemma stem_app s tail :
  Forall (fun c => c <> 46) s -> tail = [] \/ (exists t, tail = 46 :: t) -> stem (s ++ tail) = s.
Proof.
  intros H Ht. induction H as [|c s Hc _ IH]; cbn [app stem].
  - destruct Ht as [->|(t & ->)]; reflexivity.
  - replace (c =? 46) with false by lia. rewrite IH. reflexivity.
Qed.

Lemma toupper_small c : toupper c < 65 -> toupper c = c.
Proof. unfold toupper, between. tests; lia. Qed.

Lemma triple_sum c0 c1 c2 rest :
  bytes (c0 :: c1 :: c2 :: rest) ->
  triple (c0 :: c1 :: c2 :: rest) = toupper c0 + 2 ^ 8 * toupper c1 + 2 ^ 16 * toupper c2.
Proof.
  intros [H0 [H1 [H2 _]%bytes_cons]%bytes_cons]%bytes_cons.
  apply pack3; apply toupper_byte; assumption.
Qed.

(** Try each of the names [H] says a list is one of. *)
Ltac each H := unfold devices in H; cbn in H; repeat (apply elem_of_cons in H as [H|H]); [..|apply elem_of_nil in H as []]; try discriminate H.

(** The reserved names get the exclamation mark. *)
Lemma device_reserved name : bytes name -> reserved name -> device_prefix name = fw_excl.
Proof.
  intros Hb Hr. destruct (stem_split name) as (tail & E & _ & Ht). unfold reserved in Hr.
  destruct (stem name) as [|c0 [|c1 [|c2 [|d [|? ?]]]]]; cbn [map] in Hr; each Hr;
    first [injection Hr as E0 E1 E2 E3; rewrite (toupper_small d) in E3 by lia; subst d|injection Hr as E0 E1 E2];
    subst name; cbn [app] in *; unfold device_prefix; rewrite (triple_sum _ _ _ _ Hb), E0, E1, E2;
    destruct Ht as [->|(t & ->)]; reflexivity.
Qed.

Lemma device_cases name :
  bytes name ->
  device_prefix name = [] \/
  device_prefix name = fw_excl /\ exists c rest, name = c :: rest /\ (65 <= c <= 90 \/ 97 <= c <= 122).
Proof.
  intros Hb. unfold device_prefix. destruct name as [|c0 [|c1 [|c2 rest]]]; [auto..|].
  cbn [length Nat.leb]. rewrite (triple_sum _ _ _ _ Hb). cbv zeta.
  destruct (proj1 (bytes_cons _ _) Hb) as [H0 [H1 [H2 _]%bytes_cons]%bytes_cons].
  pose proof (toupper_byte c0 H0). pose proof (toupper_byte c1 H1). pose proof (toupper_byte c2 H2).
  assert (toupper c0 = 67 \/ toupper c0 = 76 \/ toupper c0 = 78 \/ toupper c0 = 65 \/ toupper c0 = 80 ->
          65 <= c0 <= 90 \/ 97 <= c0 <= 122) as Hl by (unfold toupper, between; tests; lia).
  repeat (case_match; auto); right; (split; [reflexivity|]); eexists _, _; (split; [reflexivity|]); apply Hl; lia.
Qed.

Lemma escaped_letter slash c rest out :
  65 <= c <= 90 \/ 97 <= c <= 122 -> escaped slash (c :: rest) out -> exists out', out = c :: out'.
Proof.
  intros Hc H. remember (c :: rest) as name eqn:E. destruct H as [|c' rest' out H|cp rest' out H1 H2 H|b rest' out Hb].
  - discriminate.
  - injection E as -> ->. exists out. unfold escape_char, between. tests; lia || reflexivity.
  - destruct (encode_parts cp H1 H2) as (b & conts & Ee & Hb & _). rewrite Ee in E. injection E as -> _. lia.
  - injection E as -> _. lia.
Qed.

(** ** Round trip *)

Lemma escape_roundtrip_core name name' :
  bytes name -> bytes name' ->
  unescape (escape name false) = name /\ (escape name false = escape name' false -> name = name').
Proof.
  assert (forall name, bytes name -> unescape (escape name false) = name) as H.
  { clear. intros name Hb. unfold escape. destruct (only_dots name) eqn:Ed; [apply only_dots_unescape, Ed|].
    pose proof (loop_escaped false name Hb) as He.
    destruct (device_cases name Hb) as [->|(-> & c & rest & -> & Hc)]; [apply (escaped_unescape name), He|].
    destruct (escaped_letter _ _ _ _ Hc He) as (out & Eo). rewrite Eo in *. unfold unescape.
    rewrite unescape_excl by lia. rewrite <- (unescape_plain false c out) by lia. apply (escaped_unescape _ _ _ He). }
  intros H1 H2. split; [apply H, H1|]. intros E. rewrite <- (H name H1), <- (H name' H2), E. reflexivity.
Qed.

(** C34: names survive the host.  For every byte string, what [escape] writes is read back by
    [unescape] as the same bytes, whether they are UTF-8 or not, control characters, device
    names and names that look escaped already included; so different guest names never meet
    in one host name. *)
Theorem escape_roundtrip name name' :
  bytes name -> bytes name' ->
  unescape (escape name false) = name /\ (escape name false = escape name' false -> name = name').
Proof. apply escape_roundtrip_core. Qed.

Lemma escape_roundtrip_witness :
  let name := [0x43; 0x4f; 0x4d; 0x31; 0x2e; 0xff; 0xef; 0xbc; 0x84; 0x00] in
  bytes name /\ unescape (escape name false) = name.
Proof.
  assert (bytes [0x43; 0x4f; 0x4d; 0x31; 0x2e; 0xff; 0xef; 0xbc; 0x84; 0x00]) as H by (repeat constructor; lia).
  split; [exact H|]. exact (proj1 (escape_roundtrip _ _ H H)).
Defined.

(** ** What the host sees *)

(** Bytes that host file systems take in a name. *)
Definition allowed (slash : bool) (c : Z) : Prop :=
  32 <= c < 256 /\ c <> 60 /\ c <> 62 /\ c <> 58 /\ c <> 34 /\ c <> 92 /\ c <> 124 /\ c <> 63 /\ c <> 42 /\
  (slash = true -> c <> 47).

Lemma encode_allowed slash cp : code_point cp -> 0x80 <= cp -> Forall (allowed slash) (utf8_encode cp).
Proof.
  intros H1 H2. destruct (encode_parts cp H1 H2) as (b & conts & -> & Hb & Hc).
  constructor; [unfold allowed; lia|]. revert Hc. apply Forall_impl. unfold allowed. lia.
Qed.

Lemma ascii_allowed slash c rest : 0 <= c < 0x80 -> Forall (allowed slash) (escape_char slash c rest).
Proof.
  intros H. unfold escape_char, fw_excl, between, wrap, allowed.
  repeat (case_match; try (exfalso; lia)); cbn [app]; repeat constructor; try discriminate; div_lia.
Qed.

Lemma hex_allowed slash d : 0 <= d < 16 -> allowed slash (hex d).
Proof. unfold hex, allowed. tests; lia. Qed.

Lemma escaped_allowed slash name out : escaped slash name out -> Forall (allowed slash) out.
Proof.
  induction 1 as [|c rest out Hc _ IH|cp rest out H1 H2 _ IH|b rest out Hb _ _ IH]; [constructor|..].
  - apply Forall_app_2; [apply ascii_allowed, Hc|exact IH].
  - apply Forall_app_2; [destruct (between _ _ _); repeat constructor; unfold allowed; try discriminate; lia|].
    apply Forall_app_2; [apply encode_allowed; assumption|exact IH].
  - cbn [app fw_percent]. repeat (constructor; [unfold allowed; (lia || (repeat split; lia || discriminate))|]).
    rewrite Z.shiftr_div_pow2 by lia. assert (Z.land b 0xf = b mod 16) as -> by apply (Z.land_ones b 4 ltac:(lia)).
    constructor; [apply hex_allowed; div_lia|]. constructor; [apply hex_allowed; div_lia|exact IH].
Qed.

(** A surrogate as its three bytes would be. *)
Definition surrogate_at (name : list Z) (i : nat) : Prop :=
  get_char name i = 0xed /\ 0xa0 <= get_char name (S i) <= 0xbf.

Lemma get_char_app p rest i : get_char (p ++ rest) (length p + i) = get_char rest i.
Proof. unfold get_char. rewrite lookup_app_r by lia. f_equal. f_equal. lia. Qed.

Lemma surrogate_app p rest i : surrogate_at rest i -> surrogate_at (p ++ rest) (length p + i).
Proof. unfold surrogate_at. rewrite plus_n_Sm, !get_char_app. auto. Qed.

Lemma encode_surrogate cp rest : surrogate cp -> surrogate_at (utf8_encode cp ++ rest) 0.
Proof.
  unfold surrogate, utf8_encode. intros H. tests. unfold surrogate_at, get_char.
  cbn -[Z.div Z.modulo Z.add]. split; div_lia.
Qed.

Lemma encode_ascii c : 0 <= c < 0x80 -> utf8_encode c = [c].
Proof. unfold utf8_encode. intros H. tests. reflexivity. Qed.

Lemma scalar_low c : 0 <= c < 0x80 -> scalar c.
Proof. unfold scalar, code_point, surrogate. lia. Qed.

Lemma encodes_app P s t : encodes P s -> encodes P t -> encodes P (s ++ t).
Proof.
  intros (c1 & H1 & ->) (c2 & H2 & ->). exists (c1 ++ c2). split; [apply Forall_app_2; assumption|].
  rewrite fmap_app, concat_app. reflexivity.
Qed.

Lemma encodes_one (P : Z -> Prop) cp s : P cp -> s = utf8_encode cp -> encodes P s.
Proof. intros H ->. rewrite <- (app_nil_r (utf8_encode cp)). apply encodes_cons; [exact H|apply encodes_nil]. Qed.

(** The full-width characters are scalar values. *)
Lemma encodes_wide x : 0x80 <= x <= 0xbf -> encodes scalar [0xef; 0xbc; x].
Proof.
  intros H. apply (encodes_one _ (0xff00 + (x - 0x80))).
  - unfold scalar, code_point, surrogate. lia.
  - unfold utf8_encode. tests. repeat f_equal; div_lia.
Qed.

Lemma encodes_ascii c : 0 <= c < 0x80 -> encodes scalar [c].
Proof. intros H. apply (encodes_one _ c); [apply scalar_low, H|]. rewrite encode_ascii by exact H. reflexivity. Qed.

Lemma ascii_encodes slash c rest : 0 <= c < 0x80 -> encodes scalar (escape_char slash c rest).
Proof.
  intros H. unfold escape_char, between, wrap.
  repeat (case_match; try (exfalso; lia)); try (apply encodes_wide; div_lia); try (apply encodes_ascii; lia).
  apply (encodes_one _ 0xff5c); [unfold scalar, code_point, surrogate; lia|reflexivity].
Qed.

Lemma encodes_impl (P Q : Z -> Prop) s : (forall cp, P cp -> Q cp) -> encodes P s -> encodes Q s.
Proof. intros H (cps & Hc & ->). exists cps. split; [revert Hc; apply Forall_impl, H|reflexivity]. Qed.

(** The output is UTF-8 but for surrogates the name itself has. *)
Lemma escaped_encodes slash name out :
  escaped slash name out ->
  encodes code_point out /\ ((forall i, ~ surrogate_at name i) -> valid_utf8 out).
Proof.
  induction 1 as [|c rest out Hc _ [IH1 IH2]|cp rest out H1 H2 _ [IH1 IH2]|b rest out Hb _ _ [IH1 IH2]].
  - split; intros; apply encodes_nil.
  - pose proof (ascii_encodes slash c rest Hc) as E. split.
    + apply encodes_app; [revert E; apply encodes_impl; unfold scalar; tauto|exact IH1].
    + intros Hn. apply encodes_app; [exact E|]. apply IH2. intros i Hi. apply (Hn (S i)). exact (surrogate_app [c] rest i Hi).
  - assert (encodes scalar (if between 0xff01 0xff5e cp then fw_excl else [])) as E
      by (destruct (between _ _ _); [apply (encodes_wide 0x81); lia|apply encodes_nil]).
    split.
    + apply encodes_app; [revert E; apply encodes_impl; unfold scalar; tauto|]. apply encodes_cons; assumption.
    + intros Hn. apply encodes_app; [exact E|]. apply encodes_cons.
      * split; [exact H1|]. intros Hs. apply (Hn 0%nat), encode_surrogate, Hs.
      * apply IH2. intros i Hi. apply (Hn (length (utf8_encode cp) + i)%nat). apply surrogate_app, Hi.
  - assert (encodes scalar (fw_percent ++ [hex (Z.shiftr b 4); hex (Z.land b 15)])) as E.
    { rewrite Z.shiftr_div_pow2 by lia. assert (Z.land b 0xf = b mod 16) as -> by apply (Z.land_ones b 4 ltac:(lia)).
      apply encodes_app; [apply (encodes_wide 0x85); lia|].
      apply (encodes_app _ [hex (b / 2 ^ 4)] [hex (b mod 16)]); apply encodes_ascii; unfold hex; tests; div_lia. }
    rewrite app_assoc. split.
    + apply encodes_app; [revert E; apply encodes_impl; unfold scalar; tauto|exact IH1].
    + intros Hn. apply encodes_app; [exact E|]. apply IH2. intros i Hi. apply (Hn (S i)). exact (surrogate_app [b] rest i Hi).
Qed.

Lemma escaped_nil_inv slash out : escaped slash [] out -> out = [].
Proof.
  intros H. remember [] as name eqn:E. destruct H as [| |cp rest out H1 H2|]; try reflexivity; try discriminate.
  destruct (encode_parts cp H1 H2) as (b & conts & Ee & _). rewrite Ee in E. discriminate.
Qed.

Lemma ascii_head slash c rest :
  0 <= c < 0x80 -> escape_char slash c rest = [c] \/ exists x y, escape_char slash c rest = [0xef; x; y].
Proof. intros H. unfold escape_char, between. repeat (case_match; try (exfalso; lia)); eauto. Qed.

(** A letter, a digit or nothing at the start of the output is one of the name. *)
Definition alnum (c : Z) : Prop := 48 <= c <= 57 \/ 65 <= c <= 90 \/ 97 <= c <= 122.

Lemma escaped_head slash name out :
  escaped slash name out -> match out with
  | [] => name = []
  | c :: out' => c < 0x80 -> exists rest, name = c :: rest /\ escaped slash rest out'
  end.
Proof.
  intros H. destruct H as [|c rest out Hc H|cp rest out H1 H2 H|b rest out Hb _ H].
  - reflexivity.
  - destruct (ascii_head slash c rest Hc) as [->|(x & y & ->)]; cbn [app]; [eauto|lia].
  - destruct (encode_parts cp H1 H2) as (b & conts & -> & Hb & _). destruct (between _ _ _); cbn; lia.
  - cbn. lia.
Qed.

Lemma escaped_stem slash w tail name :
  escaped slash name (w ++ tail) -> Forall alnum w -> tail = [] \/ (exists t, tail = 46 :: t) ->
  exists tail', name = w ++ tail' /\ (tail' = [] \/ exists t, tail' = 46 :: t).
Proof.
  intros H Hw Ht. revert name H. induction Hw as [|c w Hc _ IH]; intros name H; apply escaped_head in H.
  - destruct Ht as [->|(t & ->)]; cbn [app] in *; [subst; exists []; auto|].
    destruct (H ltac:(lia)) as (rest & -> & _). eauto.
  - cbn [app] in *. destruct (H ltac:(unfold alnum in Hc; lia)) as (rest & -> & Hr).
    destruct (IH rest Hr) as (tail' & -> & Ht'). eauto.
Qed.

Lemma devices_upper : forallb (forallb (fun c => between 48 57 c || between 65 90 c)) devices = true.
Proof. reflexivity. Qed.

Lemma reserved_alnum name : reserved name -> Forall alnum (stem name).
Proof.
  unfold reserved. intros H. apply list_elem_of_In in H.
  pose proof (proj1 (forallb_forall _ _) devices_upper _ H) as Hf. rewrite forallb_forall in Hf.
  apply List.Forall_forall. intros c Hc. specialize (Hf (toupper c) (in_map _ _ _ Hc)).
  unfold toupper, between, alnum in *. destruct ((97 <=? c) && (c <=? 122)) eqn:E; lia.
Qed.

(** What is written is a reserved name only if the name is one. *)
Lemma escaped_reserved slash name out : escaped slash name out -> reserved out -> reserved name.
Proof.
  intros H Hr. pose proof (reserved_alnum out Hr) as Ha. unfold reserved in *.
  destruct (stem_split out) as (tail & E & Hs & Ht). rewrite E in H.
  destruct (escaped_stem slash _ _ _ H Ha Ht) as (tail' & -> & Ht').
  rewrite stem_app by assumption. exact Hr.
Qed.

Lemma last_app_ne {A} (p out : list A) : out <> [] -> list.last (p ++ out) = list.last out.
Proof. intros H. destruct (exists_last H) as (l & x & ->). rewrite app_assoc, !last_snoc. reflexivity. Qed.

Lemma escaped_last slash name out :
  escaped slash name out -> forall x, list.last out = Some x -> x <> 46 /\ x <> 32.
Proof.
  induction 1 as [|c rest out Hc H IH|cp rest out H1 H2 _ IH|b rest out Hb _ _ IH]; intros x; [discriminate|..].
  - destruct out as [|y out].
    + apply escaped_head in H as ->. rewrite app_nil_r. unfold escape_char, between. change (get_char [] 0 =? 0) with true.
      repeat (case_match; try (exfalso; lia)); cbn; intros [= <-]; unfold wrap; div_lia.
    + rewrite last_app_ne by discriminate. apply IH.
  - destruct out as [|y out]; [|rewrite !last_app_ne by (try discriminate; destruct (utf8_encode cp); discriminate); apply IH].
    rewrite app_nil_r. pose proof (encode_allowed true cp H1 H2) as Ha. destruct (encode_parts cp H1 H2) as (b & conts & E & Hb & Hcs).
    rewrite E. rewrite last_app_ne by discriminate. intros Hl. apply last_Some in Hl as (l & El).
    assert (x ∈ b :: conts) as Hx by (rewrite El; apply elem_of_app; right; left).
    apply elem_of_cons in Hx as [->|Hx]; [lia|]. apply list_elem_of_In in Hx. rewrite Forall_forall in Hcs. apply Hcs in Hx. lia.
  - rewrite !app_assoc. destruct out as [|y out]; [|rewrite last_app_ne by discriminate; apply IH].
    rewrite app_nil_r. cbn. intros [= <-]. assert (Z.land b 0xf = b mod 16) as -> by apply (Z.land_ones b 4 ltac:(lia)).
    unfold hex. tests; div_lia.
Qed.

(** ** Portable names *)

(** The host name is one file systems take: it is UTF-8 (scalar values only, unless the guest
    name has a surrogate encoded in three bytes), has no control or reserved characters, no
    slash if asked for, does not end in a dot or a space, and is no device name. *)
Definition portable (slash : bool) (name host : list Z) : Prop :=
  encodes code_point host /\ ((forall i, ~ surrogate_at name i) -> valid_utf8 host) /\
  Forall (allowed slash) host /\
  (forall c, list.last host = Some c -> c <> 46 /\ c <> 32) /\ ~ reserved host.

Lemma escape_portable_core name slash :
  bytes name ->
  (only_dots name = true -> escape name slash = name) /\
  (only_dots name = false -> portable slash name (escape name slash)).
Proof.
  intros Hb. unfold escape. split; intros ->; [reflexivity|].
  pose proof (loop_escaped slash name Hb) as He. destruct (escaped_encodes _ _ _ He) as [E1 E2].
  pose proof (escaped_allowed _ _ _ He) as Ha. pose proof (escaped_last _ _ _ He) as Hl.
  destruct (device_cases name Hb) as [Ep|(Ep & c & rest & Ec & Hc)]; rewrite Ep.
  - cbn [app]. repeat split; auto; try (apply (Hl _ H)). intros Hr.
    apply (escaped_reserved _ _ _ He), (device_reserved name Hb) in Hr. rewrite Hr in Ep. discriminate.
  - assert (encodes scalar fw_excl) as Ex by (apply (encodes_wide 0x81); lia).
    split; [apply encodes_app; [revert Ex; apply encodes_impl; unfold scalar; tauto|exact E1]|].
    split; [intros Hn; apply encodes_app; auto|].
    split; [apply Forall_app_2; [repeat constructor; unfold allowed; try discriminate; lia|exact Ha]|].
    split; [|intros Hr%reserved_alnum; apply Forall_inv in Hr; unfold alnum in Hr; lia].
    subst name. destruct (escaped_letter _ _ _ _ Hc He) as (out & Eo). rewrite Eo in *.
    intros x. rewrite last_app_ne by discriminate. apply Hl.
Qed.

(** C35: [escape] gives a portable name for every byte string but the two directory entries
    of one and two dots, which it keeps. *)
Theorem escape_portable name slash :
  bytes name ->
  (only_dots name = true -> escape name slash = name) /\
  (only_dots name = false -> portable slash name (escape name slash)).
Proof. apply escape_portable_core. Qed.

Lemma escape_portable_witness :
  let name := [0x4e; 0x55; 0x4c; 0x2e; 0xed; 0x80; 0x20] in
  only_dots name = false /\ portable true name (escape name true).
Proof.
  split; [reflexivity|].
  refine (proj2 (escape_portable [0x4e; 0x55; 0x4c; 0x2e; 0xed; 0x80; 0x20] true _) eq_refl).
  repeat constructor; lia.
Defined.

(** An encoded surrogate is taken for a sequence and kept, and is not UTF-8. *)
Lemma surrogate_kept :
  utf8_sequence_size [0xed; 0xa0; 0x80] = 3%nat /\ escape [0xed; 0xa0; 0x80] false = [0xed; 0xa0; 0x80] /\
  ~ valid_utf8 [0xed; 0xa0; 0x80].
Proof.
  split; [reflexivity|]. split; [reflexivity|]. intros ([|cp cps] & Hc & E); [discriminate|].
  apply Forall_cons_iff in Hc as [[H1 H2] _]. cbn [fmap list_fmap concat] in E. unfold code_point, surrogate in *.
  assert (utf8_sequence_size [0xed; 0xa0; 0x80] = length (utf8_encode cp)) as Hl by (rewrite E; apply encode_size, H1).
  change (utf8_sequence_size _) with 3%nat in Hl. unfold utf8_encode in *. revert Hl E. tests; try discriminate.
  intros _ [= E0 E1 E2]. div_lia.
Qed.

(** Nothing reads the slash written for a slash back. *)
Lemma slash_lost : unescape (escape [0x61; 0x2f; 0x62] true) = [0x61; 0x62].
Proof. reflexivity. Qed.
