(* ===== verification/Vfs.v ===== *)
(** * The virtual file system (Emu/VFS.cpp: mount, unmount, get, retrieve)

    Guest paths are resolved through a tree of mount points to host paths.  A directory is a
    node of the tree, a pointer to one is the list of names that leads to it; [list] of the
    source, a stack of pointers, has its back first here.  The callbacks that resolve host
    paths and the configuration directory are arguments.  The mutex of the table serializes
    the functions.  [root] is the tree of the manager, which [mount] creates when there is none;
    [unmount] takes whether there is one, and [get] and [retrieve], which throw without it, are
    modelled for a manager that has been created, as [Emu.Init] does before anything else. *)

From Stdlib Require Import ZArith Lia Bool.
From stdpp Require Import base numbers list option.
From S2P Require Import Prelude VfsName.

(** [std::map<std::string, ...>]: pairs in the order of their keys. *)
#[warnings="-register-all"]
Inductive vfs_directory := Dir (path : list Z) (dirs : list (list Z * vfs_directory)).

Definition path (d : vfs_directory) : list Z := match d with Dir p _ => p end.
Definition dirs (d : vfs_directory) : list (list Z * vfs_directory) := match d with Dir _ l => l end.

Definition str_eqb (s t : list Z) : bool := bool_decide (s = t).
Lemma str_eqb_spec s t : reflect (s = t) (str_eqb s t).
Proof. unfold str_eqb. destruct (bool_decide_reflect (s = t)); constructor; assumption. Qed.
Definition is_empty (s : list Z) : bool := match s with [] => true | _ => false end.

(** [std::string] comparison. *)
Fixpoint str_ltb (s t : list Z) : bool :=
  match s, t with
  | _, [] => false
  | [], _ :: _ => true
  | a :: s, b :: t => (a <? b) || ((a =? b) && str_ltb s t)
  end.

Fixpoint find_dir (name : list Z) (l : list (list Z * vfs_directory)) : option vfs_directory :=
  match l with
  | [] => None
  | (k, d) :: l => if str_eqb k name then Some d else find_dir name l
  end.
Definition child (d : vfs_directory) (name : list Z) : option vfs_directory := find_dir name (dirs d).

(** [dirs.emplace(name, ...)] of a name that is not there. *)
Fixpoint emplace (name : list Z) (d : vfs_directory) (l : list (list Z * vfs_directory)) :=
  match l with
  | [] => [(name, d)]
  | (k, e) :: l => if str_ltb name k then (name, d) :: (k, e) :: l else (k, e) :: emplace name d l
  end.

(** What is done to the directory a pointer points to. *)
Fixpoint update_at (names : list (list Z)) (f : vfs_directory -> vfs_directory) (d : vfs_directory) : vfs_directory :=
  match names with
  | [] => f d
  | n :: ns => Dir (path d) (map (fun '(k, e) => (k, if str_eqb k n then update_at ns f e else e)) (dirs d))
  end.
Fixpoint dir_at (d : vfs_directory) (names : list (list Z)) : option vfs_directory :=
  match names with
  | [] => Some d
  | n :: ns => match child d n with Some e => dir_at e ns | None => None end
  end.

(** ** Fragments of a path *)

Definition slash : Z := 47.
Fixpoint drop_slashes (s : list Z) : list Z :=
  match s with [] => [] | c :: t => if c =? slash then drop_slashes t else s end.
Fixpoint take_name (s : list Z) : list Z :=
  match s with [] => [] | c :: t => if c =? slash then [] else c :: take_name t end.
Fixpoint drop_name (s : list Z) : list Z :=
  match s with [] => [] | c :: t => if c =? slash then s else drop_name t end.

(** The next pass of the loops: [pos == 0], [pos == umax], or a name and what follows it. *)
Inductive fragment := Relative | Finished | Name (name rest : list Z).
Definition next_fragment (vpath : list Z) : fragment :=
  match vpath with
  | [] => Finished
  | c :: _ => if negb (c =? slash) then Relative
              else match drop_slashes vpath with
                   | [] => Finished
                   | s => Name (take_name s) (drop_name s)
                   end
  end.

Definition dot : list Z := [46].
Definition dotdot : list Z := [46; 46].

(** [fmt::merge(source, "/")]. *)
Fixpoint merge (l : list (list Z)) : list Z :=
  match l with
  | [] => []
  | [s] => s
  | s :: l => s ++ slash :: merge l
  end.

(** [fmt::split_sv(source, separators)] for separators of one character; empty pieces are
    skipped. *)
Fixpoint split_from (seps : list Z) (piece : list Z) (s : list Z) : list (list Z) :=
  match s with
  | [] => if is_empty piece then [] else [piece]
  | c :: s => if existsb (fun x => x =? c) seps
              then (if is_empty piece then [] else [piece]) ++ split_from seps [] s
              else split_from seps (piece ++ [c]) s
  end.
Definition split_sv (seps : list Z) (s : list Z) : list (list Z) := split_from seps [] s.

Definition ends_with_slash (s : list Z) : bool :=
  match list.last s with Some c => c =? slash | None => false end.

Definition with_path (p : list Z) (d : vfs_directory) : vfs_directory := Dir p (dirs d).
Definition add_dir (name : list Z) (d : vfs_directory) : vfs_directory :=
  Dir (path d) (emplace name (Dir [] []) (dirs d)).

(** ** mount, unmount *)

(** The path a directory is mounted to. *)
Definition mount_path (resolve_path : list Z -> list Z) (p : list Z) (is_dir : bool) : list Z :=
  let q := resolve_path p in
  let q := if is_empty q then p else q in
  let q := if is_dir && negb (ends_with_slash q) then q ++ [slash] else q in
  if str_eqb p [slash] then [slash] else q.

(** The loop; [names] leads to [list.back()], [fuel] is the passes allowed. *)
Fixpoint mount_loop (fuel : nat) (target : list Z) (vpath : list Z) (names : list (list Z)) (root : vfs_directory)
  : option (bool * vfs_directory) :=
  match fuel with
  | O => None
  | S fuel =>
      match next_fragment vpath with
      | Relative => Some (false, root)
      | Finished => Some (true, update_at names (with_path target) root)
      | Name name rest =>
          if str_eqb name dot then mount_loop fuel target rest names root
          else if str_eqb name dotdot then mount_loop fuel target rest (removelast names) root
          else
            let root := match dir_at root (names ++ [name]) with
                        | Some _ => root
                        | None => update_at names (add_dir name) root
                        end in
            mount_loop fuel target rest (names ++ [name]) root
      end
  end.
Definition mount (resolve_path : list Z -> list Z) (vpath p : list Z) (is_dir : bool) (root : vfs_directory)
  : option (bool * vfs_directory) :=
  if is_empty vpath then Some (false, root)
  else mount_loop (S (length vpath)) (mount_path resolve_path p is_dir) vpath [] root.

(** Remove the entry that [entries] leads to, with what is mounted below it. *)
Fixpoint unmount_children (entries : list (list Z)) (d : vfs_directory) : vfs_directory :=
  match entries with
  | [] => d
  | [n] => Dir (path d) (List.filter (fun '(k, _) => negb (str_eqb k n)) (dirs d))
  | n :: ns => Dir (path d) (map (fun '(k, e) => (k, if str_eqb k n then unmount_children ns e else e)) (dirs d))
  end.
(** [is_init]: [g_fxo->is_init<vfs_manager>()]. *)
Definition unmount (is_init : bool) (vpath : list Z) (root : vfs_directory) : bool * vfs_directory :=
  if is_empty vpath then (false, root)
  else match split_sv [slash] vpath with
       | [] => (false, root)
       | entries => if negb is_init then (false, root) else (true, unmount_children entries root)
       end.

(** ** get *)

(** A call's results: the host path, the names appended to [out_dir], and what is stored in
    [out_path], if anything. *)
Record found := mk_found { host : list Z; out_dir : list (list Z); out_path : option (list Z) }.

(** "delete_this_dir.../delete_this..." *)
Definition delete_this : list Z :=
  [100; 101; 108; 101; 116; 101; 95; 116; 104; 105; 115; 95; 100; 105; 114; 46; 46; 46; 47;
   100; 101; 108; 101; 116; 101; 95; 116; 104; 105; 115; 46; 46; 46].

(** The pointers from the back on: the latest with a mount path, with the number of names that
    lead to it; the root counts alone. *)
Fixpoint latest_mount (alone : bool) (stack : list (option vfs_directory)) : option (vfs_directory * nat) :=
  match stack with
  | [] => None
  | Some d :: l => if negb (is_empty (path d)) || alone then Some (d, length l) else latest_mount alone l
  | None :: l => latest_mount alone l
  end.

Definition mounted_names (d : vfs_directory) : list (list Z) :=
  map fst (List.filter (fun '(_, e) => negb (is_empty (path e))) (dirs d)).

(** After the loop: [names] are the fragments, [rest] what is left of the path. *)
Definition finalize (stack : list (option vfs_directory)) (names : list (list Z)) (rest : list Z) : found :=
  let '(base, result, dirs) :=
    match latest_mount (length stack =? 1)%nat stack with
    | Some (d, n) => (path d, drop n names, mounted_names d)
    | None => ([], names, [])
    end in
  let result := if is_empty rest then result else result ++ [[]] in
  if is_empty base then mk_found [] dirs None
  else mk_found (base ++ merge (map (fun s => escape s false) result)) dirs (Some (slash :: merge names)).

Section Get.
Context (config_dir : list Z) (root : vfs_directory).

(** [stack] is [list] of the source, its back first; [names] is [name_list], and [result] of
    the source, which has the same fragments until the end. *)
Fixpoint get_loop (fuel : nat) (vpath : list Z) (stack : list (option vfs_directory)) (names : list (list Z))
  : option found :=
  match fuel with
  | O => None
  | S fuel =>
      match next_fragment vpath with
      | Relative => Some (mk_found (config_dir ++ delete_this) [] None)
      | Finished => Some (finalize stack names vpath)
      | Name name rest =>
          if str_eqb name dot then get_loop fuel rest stack names
          else if str_eqb name dotdot then
            (if (length stack =? 1)%nat then get_loop fuel rest stack names
             else get_loop fuel rest (tail stack) (removelast names))
          else
            let next := match stack with Some d :: _ => child d name | _ => None end in
            let names := names ++ [name] in
            match next with
            | Some d =>
                if str_eqb (path d) [slash] then
                  (if (length rest <=? 1)%nat then Some (mk_found (config_dir ++ delete_this) [] None)
                   else Some (mk_found (tail rest) [] (Some (slash :: merge names ++ rest))))
                else get_loop fuel rest (next :: stack) names
            | None => get_loop fuel rest (next :: stack) names
            end
      end
  end.
Definition get (vpath : list Z) : option found :=
  let vpath := if is_empty vpath then dot else vpath in
  get_loop (S (length vpath)) vpath [Some root] [].
End Get.

(** ** retrieve *)

Definition starts_with (s p : list Z) : bool := str_eqb (take (length p) s) p.

Section Retrieve.
(** [fs::delim] of the host. *)
Context (delim : list Z).

Definition unescape_path (p : list Z) : list Z := merge (map unescape (split_sv delim p)).

(** "/" and the names, each with a "/" behind it. *)
Definition names_path (mount_path : list (list Z)) : list Z := slash :: concat (map (fun n => n ++ [slash]) mount_path).

Definition app_home : list Z := [97; 112; 112; 95; 104; 111; 109; 101].
Definition dev_bdvd : list Z := [100; 101; 118; 95; 98; 100; 118; 100].
Definition bool_ltb (a b : bool) : bool := negb a && b.

(** [mount_path->back() = name]. *)
Definition set_back (mount_path : list (list Z)) (name : list Z) : list (list Z) := removelast mount_path ++ [name].

(** The recursive part, on a node; the vector [mount_path] is passed through it. *)
Fixpoint retrieve_node (p : list Z) (node : vfs_directory) (mount_path : list (list Z)) : list Z * list (list Z) :=
  match node with
  | Dir node_path node_dirs =>
      let '(result, result_dir, host_root_name, mount_path) :=
        (fix loop (l : list (list Z * vfs_directory)) (result result_dir host_root_name : list Z) (mount_path : list (list Z)) :=
           match l with
           | [] => (result, result_dir, host_root_name, mount_path)
           | (name, d) :: l =>
               let '(res, mount_path) := retrieve_node p d (set_back mount_path name) in
               let better := negb (is_empty res) &&
                 (is_empty result || bool_ltb (str_eqb name app_home) (str_eqb result_dir app_home)
                  || bool_ltb (str_eqb result_dir dev_bdvd) (str_eqb name dev_bdvd)) in
               loop l (if better then res else result) (if better then name else result_dir)
                 (if str_eqb (path d) [slash] then name else host_root_name) mount_path
           end) node_dirs [] [] [] (mount_path ++ [[]]) in
      if negb (is_empty result) then (result, mount_path)
      else
        let mount_path := removelast mount_path in
        if (1 <? length node_path)%nat && starts_with p node_path then
          (names_path mount_path ++ unescape_path (drop (length node_path) p), mount_path)
        else if negb (is_empty host_root_name) then
          (names_path mount_path ++ host_root_name ++ slash :: p, mount_path)
        else ([], mount_path)
  end.

Definition retrieve (resolve_path : list Z -> list Z) (root : vfs_directory) (p : list Z) : list Z :=
  if starts_with p dot || is_empty p then []
  else
    let rpath := resolve_path p in
    let res := if is_empty rpath then [] else fst (retrieve_node rpath root []) in
    if negb (is_empty res) then res else fst (retrieve_node p root []).
End Retrieve.
