(* ===== verification/VfsPath.v ===== *)
(** * Path resolution is longest-prefix lookup

    The tree of mount points as a table from lists of names to host paths: [mount] updates it,
    [unmount] clears a subtree of it, and [get] takes the longest prefix of the normalized
    path that is mounted. *)

From Stdlib Require Import ZArith Lia Bool.
From stdpp Require Import base numbers list option.
From S2P Require Import Prelude VfsName Vfs.

(** ** The table *)

Definition mounted (root : vfs_directory) (ns : list (list Z)) : list Z := default [] (path <$> dir_at root ns).

(** The longest prefix of at most [k] names that is mounted, and its length. *)
Fixpoint longest (m : list (list Z) -> list Z) (ns : list (list Z)) (k : nat) : option (list Z * nat) :=
  if negb (is_empty (m (take k ns))) then Some (m (take k ns), k)
  else match k with O => None | S k => longest m ns k end.

(** Normalizing: a name is entered, left out or left. *)
Definition enter (ns : list (list Z)) (name : list Z) : list (list Z) :=
  if str_eqb name dot then ns else if str_eqb name dotdot then removelast ns else ns ++ [name].
Definition components (vpath : list Z) : list (list Z) := split_sv [slash] vpath.
Definition normalize (vpath : list Z) : list (list Z) := foldl enter [] (components vpath).

(** The host path of the names [ns]. *)
Definition resolve (m : list (list Z) -> list Z) (ns : list (list Z)) (trailing : bool) : list Z :=
  match longest m ns (length ns) with
  | Some (base, k) => base ++ merge (map (fun s => escape s false) (drop k ns ++ (if trailing then [[]] else [])))
  | None => []
  end.

Lemma str_eqb_refl s : str_eqb s s = true.
Proof. destruct (str_eqb_spec s s); congruence. Qed.

(** ** Fragments *)

Lemma split_slash s : split_sv [slash] (slash :: s) = split_sv [slash] s.
Proof. reflexivity. Qed.

Lemma split_drop s : split_sv [slash] (drop_slashes s) = split_sv [slash] s.
Proof.
  induction s as [|c s IH]; [reflexivity|]. cbn [drop_slashes]. destruct (Z.eqb_spec c slash) as [->|]; [|reflexivity].
  rewrite split_slash. exact IH.
Qed.

Lemma split_from_name piece s :
  piece <> [] -> split_from [slash] piece s = (piece ++ take_name s) :: split_sv [slash] (drop_name s).
Proof.
  revert piece. induction s as [|c s IH]; intros piece Hp; cbn [split_from take_name drop_name existsb].
  - rewrite app_nil_r. destruct piece; [contradiction|reflexivity].
  - rewrite Z.eqb_sym. destruct (Z.eqb_spec c slash) as [->|]; cbn [orb].
    + rewrite app_nil_r. destruct piece; [contradiction|reflexivity].
    + rewrite IH by (destruct piece; discriminate). rewrite <- app_assoc. reflexivity.
Qed.

Lemma drop_slashes_head s : match drop_slashes s with [] => True | c :: _ => c <> slash end.
Proof. induction s as [|c s IH]; cbn; [exact I|]. destruct (Z.eqb_spec c slash); assumption. Qed.

Lemma drop_slashes_length s : (length (drop_slashes s) <= length s)%nat.
Proof. induction s as [|c s IH]; cbn; [lia|]. destruct (c =? slash); cbn; lia. Qed.
Lemma drop_name_length s : (length (drop_name s) <= length s)%nat.
Proof. induction s as [|c s IH]; cbn; [lia|]. destruct (c =? slash); cbn; lia. Qed.

Lemma drop_name_head s : match drop_name s with [] => True | c :: _ => c = slash end.
Proof. induction s as [|c s IH]; cbn; [exact I|]. destruct (Z.eqb_spec c slash); assumption. Qed.

Lemma drop_slashes_nil s : drop_slashes s = [] -> split_sv [slash] s = [].
Proof. intros E. rewrite <- split_drop, E. reflexivity. Qed.

Lemma take_drop_name s : take_name s ++ drop_name s = s.
Proof. induction s as [|c s IH]; cbn; [reflexivity|]. destruct (c =? slash); cbn; congruence. Qed.

(** Absolute: what the loops see after the first name too. *)
Definition absolute (s : list Z) : Prop := match s with [] => True | c :: _ => c = slash end.

Lemma ends_app p s : s <> [] -> ends_with_slash (p ++ s) = ends_with_slash s.
Proof. intros H. unfold ends_with_slash. rewrite last_app_ne by exact H. reflexivity. Qed.

Lemma name_no_slash s : Forall (fun c => c <> slash) (take_name s).
Proof. induction s as [|c s IH]; cbn; [constructor|]. destruct (Z.eqb_spec c slash); constructor; assumption. Qed.

Lemma no_slash_end s : Forall (fun c => c <> slash) s -> ends_with_slash s = false.
Proof.
  intros H. unfold ends_with_slash. destruct (list.last s) as [c|] eqn:E; [|reflexivity].
  apply last_Some in E as (l & ->). apply Forall_app in H as [_ H]. apply Forall_inv in H. lia.
Qed.

(** Whether the path ends in a slash, seen from what is left of it. *)
Definition trailing_at (trailing : bool) (v : list Z) : Prop :=
  match v with [] => trailing = false | _ => trailing = ends_with_slash v end.

Lemma all_slashes v : drop_slashes v = [] -> ends_with_slash v = negb (is_empty v).
Proof.
  induction v as [|c v IH]; [reflexivity|]. cbn [drop_slashes]. destruct (Z.eqb_spec c slash) as [->|]; [|discriminate].
  intros E. destruct v as [|d v]; [reflexivity|]. change (slash :: d :: v) with ([slash] ++ d :: v). rewrite ends_app by discriminate. rewrite IH by exact E. reflexivity.
Qed.

(** One pass: the components of the path are its next fragment and those of the rest. *)
Lemma next_fragment_spec v :
  absolute v -> match next_fragment v with
  | Relative => False
  | Finished => components v = [] /\ drop_slashes v = []
  | Name name rest =>
      components v = name :: components rest /\ absolute rest /\ (length rest < length v)%nat /\
      name <> [] /\ Forall (fun c => c <> slash) name /\ exists pre, v = (pre ++ name) ++ rest
  end.
Proof.
  destruct v as [|c v]; cbn [absolute next_fragment]; [auto|]. intros ->. rewrite Z.eqb_refl. cbn [negb].
  pose proof (drop_slashes_head (slash :: v)) as Hh. pose proof (drop_slashes_length v) as Hl.
  assert (exists pre, slash :: v = pre ++ drop_slashes (slash :: v)) as (pre & Ep).
  { generalize (slash :: v). intros l. induction l as [|x l (pre & IH)]; [exists []; reflexivity|]. cbn [drop_slashes].
    destruct (x =? slash); [exists (x :: pre); cbn; congruence|exists []; reflexivity]. }
  destruct (drop_slashes (slash :: v)) as [|c t] eqn:E; [split; [apply drop_slashes_nil, E|reflexivity]|].
  unfold components. rewrite <- split_drop, E. unfold split_sv at 1. cbn [split_from existsb].
  rewrite Z.eqb_sym. destruct (Z.eqb_spec c slash); [contradiction|]. cbn [orb app].
  rewrite split_from_name by discriminate. cbn [take_name drop_name].
  destruct (Z.eqb_spec c slash); [contradiction|]. cbn [app]. repeat split.
  - apply drop_name_head.
  - pose proof (drop_name_length t). cbn [drop_slashes] in E. rewrite Z.eqb_refl in E.
    apply (f_equal length) in E. cbn in *. lia.
  - discriminate.
  - constructor; [assumption|apply name_no_slash].
  - exists pre. rewrite <- app_assoc. cbn [app]. rewrite take_drop_name. exact Ep.
Qed.

Lemma trailing_rest trailing v name rest pre :
  v = (pre ++ name) ++ rest -> name <> [] -> Forall (fun c => c <> slash) name ->
  trailing_at trailing v -> trailing_at trailing rest.
Proof.
  intros -> Hn Hs. destruct ((pre ++ name) ++ rest) as [|x l] eqn:E.
  { apply app_nil in E as [[_ ->]%app_nil _]. contradiction. }
  cbn [trailing_at]. rewrite <- E. intros ->. destruct rest as [|y rest]; cbn [trailing_at].
  - rewrite app_nil_r, ends_app by exact Hn. apply no_slash_end, Hs.
  - apply ends_app. discriminate.
Qed.

(** ** The stack of pointers *)

(** A pointer for every prefix of the names, the longest first. *)
Definition stack_of (root : vfs_directory) (ns : list (list Z)) : list (option vfs_directory) :=
  map (fun k => dir_at root (take k ns)) (rev (seq 0 (S (length ns)))).

Lemma stack_length root ns : length (stack_of root ns) = S (length ns).
Proof. unfold stack_of. rewrite length_map, length_rev, length_seq. reflexivity. Qed.

Lemma stack_snoc root ns n : stack_of root (ns ++ [n]) = dir_at root (ns ++ [n]) :: stack_of root ns.
Proof.
  unfold stack_of. rewrite length_app. cbn [length]. rewrite Nat.add_1_r, (seq_S (S (length ns))), rev_app_distr.
  cbn [rev app map Nat.add]. rewrite take_ge by (rewrite length_app; cbn; lia). f_equal.
  apply map_ext_in. intros k Hk%in_rev%in_seq. rewrite take_app_le by lia. reflexivity.
Qed.

Lemma stack_head root ns : exists l, stack_of root ns = dir_at root ns :: l.
Proof.
  destruct ns as [|n ns] using rev_ind; [exists []; reflexivity|]. rewrite stack_snoc. eauto.
Qed.

Lemma dir_at_app d ns ns' :
  dir_at d (ns ++ ns') = match dir_at d ns with Some e => dir_at e ns' | None => None end.
Proof. revert d. induction ns as [|n ns IH]; intros d; cbn; [reflexivity|]. destruct (child d n); [apply IH|reflexivity]. Qed.

Lemma stack_tail root ns : ns <> [] -> tail (stack_of root ns) = stack_of root (removelast ns).
Proof.
  intros H. destruct (exists_last H) as (ns' & n & ->). rewrite stack_snoc, removelast_last. reflexivity.
Qed.

(** The latest mount of the stack is the longest prefix mounted. *)
Lemma latest_longest root ns :
  latest_mount false (stack_of root ns) =
  match longest (mounted root) ns (length ns) with
  | Some (_, k) => match dir_at root (take k ns) with Some d => Some (d, k) | None => None end
  | None => None
  end.
Proof.
  unfold stack_of. generalize (length ns) as k. intros k. induction k as [|k IH].
  - cbn -[take]. unfold mounted. destruct (dir_at root (take 0 ns)) as [d|] eqn:E; cbn; [|reflexivity].
    rewrite orb_false_r. destruct (negb _); [rewrite E; reflexivity|reflexivity].
  - rewrite seq_S, rev_app_distr. cbn [rev app map Nat.add latest_mount longest]. rewrite length_map, length_rev, length_seq.
    unfold mounted at 1 2. destruct (dir_at root (take (S k) ns)) as [d|] eqn:E; cbn [fmap option_fmap option_map default from_option id].
    + rewrite orb_false_r. destruct (negb (is_empty (path d))); [rewrite E; reflexivity|exact IH].
    + exact IH.
Qed.

Lemma longest_mounted m ns k base j : longest m ns k = Some (base, j) -> base = m (take j ns) /\ base <> [] /\ (j <= k)%nat.
Proof.
  induction k as [|k IH]; cbn [longest].
  - destruct (m (take 0 ns)) eqn:E; cbn; [discriminate|]. intros [= <- <-]. rewrite E. repeat split; [discriminate|lia].
  - destruct (m (take (S k) ns)) eqn:E; cbn.
    + intros H. destruct (IH H) as (H1 & H2 & H3). auto.
    + intros [= <- <-]. rewrite E. repeat split; [discriminate|lia].
Qed.

(** ** get *)

(** No directory is mounted to the host's root. *)
Definition no_host_root (root : vfs_directory) : Prop := forall ns d, dir_at root ns = Some d -> path d <> [slash].

Lemma finalize_resolve root ns rest trailing :
  trailing = negb (is_empty rest) ->
  host (finalize (stack_of root ns) ns rest) = resolve (mounted root) ns trailing /\
  out_path (finalize (stack_of root ns) ns rest) =
    (if is_empty (host (finalize (stack_of root ns) ns rest)) then None else Some (slash :: merge ns)).
Proof.
  intros ->. unfold finalize, resolve. rewrite stack_length.
  destruct (S (length ns) =? 1)%nat eqn:E1.
  - destruct ns; [|discriminate]. destruct root as [[|c p] l], rest; split; reflexivity.
  - rewrite latest_longest. destruct (longest (mounted root) ns (length ns)) as [[base k]|] eqn:El; [|cbn; auto].
    apply longest_mounted in El as (E & Hne & _). unfold mounted in E.
    destruct (dir_at root (take k ns)) as [d|]; cbn in E; [|congruence]. subst base.
    destruct (path d) as [|c p]; [contradiction|]. cbn -[merge]. destruct rest; cbn -[merge]; rewrite ?app_nil_r; auto.
Qed.

Lemma get_loop_spec cfg root fuel v ns trailing :
  no_host_root root -> absolute v -> (length v < fuel)%nat -> trailing_at trailing v ->
  exists rest, trailing = negb (is_empty rest) /\
    get_loop cfg fuel v (stack_of root ns) ns =
      Some (finalize (stack_of root (foldl enter ns (components v))) (foldl enter ns (components v)) rest).
Proof.
  intros Hroot. revert v ns. induction fuel as [|fuel IH]; intros v ns Ha Hf Ht; [lia|]. cbn [get_loop].
  pose proof (next_fragment_spec v Ha) as Hn. destruct (next_fragment v) as [| |name rest]; [contradiction| |].
  { destruct Hn as [-> Hd]. exists v. split; [|reflexivity]. destruct v; [exact Ht|]. cbn in Ht. rewrite Ht. apply all_slashes, Hd. }
  destruct Hn as (Ec & Ha' & Hl & Hne & Hs & pre & Ev). rewrite Ec. cbn [foldl].
  pose proof (trailing_rest _ _ _ _ _ Ev Hne Hs Ht) as Ht'.
  assert (length rest < fuel)%nat as Hf' by lia. unfold enter at 2 4.
  destruct (str_eqb name dot); [apply IH; assumption|]. destruct (str_eqb name dotdot).
  - rewrite stack_length. destruct ns as [|n ns]; [apply IH; assumption|]. cbn [length Nat.eqb].
    rewrite stack_tail by discriminate. apply IH; assumption.
  - assert (match stack_of root ns with Some d :: _ => child d name | _ => None end = dir_at root (ns ++ [name])) as ->.
    { destruct (stack_head root ns) as (l & ->). rewrite dir_at_app. destruct (dir_at root ns); [cbn|reflexivity].
      destruct (child _ _); reflexivity. }
    rewrite <- stack_snoc. destruct (dir_at root (ns ++ [name])) as [d|] eqn:Ed; [|apply IH; assumption].
    destruct (str_eqb_spec (path d) [slash]) as [E|]; [contradiction (Hroot _ _ Ed E)|]. apply IH; assumption.
Qed.

(** ** Host paths stay below the mount *)

(** A fragment names an entry of a directory: it is not empty, has no slash and is not one of
    the directory entries of dots. *)
Definition entry (s : list Z) : Prop := s <> [] /\ Forall (fun c => c <> slash) s /\ s <> dot /\ s <> dotdot.

Lemma split_names piece s :
  bytes (piece ++ s) -> Forall (fun c => c <> slash) piece ->
  Forall (fun n => n <> [] /\ Forall (fun c => c <> slash) n /\ bytes n) (split_from [slash] piece s).
Proof.
  revert piece. induction s as [|c s IH]; intros piece Hb Hp; cbn [split_from existsb].
  - rewrite app_nil_r in Hb. destruct piece; constructor; [repeat split; auto; discriminate|constructor].
  - rewrite Z.eqb_sym. unfold bytes in *. destruct (Z.eqb_spec c slash) as [->|Hc]; cbn [orb].
    + apply Forall_app in Hb as [Hb1 Hb2]. apply Forall_inv_tail in Hb2.
      apply Forall_app_2; [destruct piece; constructor; [repeat split; auto; discriminate|constructor]|].
      apply IH; [exact Hb2|constructor].
    + apply IH; [rewrite <- app_assoc; exact Hb|]. apply Forall_app_2; auto.
Qed.

Lemma normalize_entries vpath : bytes vpath -> Forall (fun n => entry n /\ bytes n) (normalize vpath).
Proof.
  intros Hb. pose proof (split_names [] vpath Hb ltac:(constructor)) as Hc. unfold normalize, components, split_sv.
  assert (Forall (fun n => entry n /\ bytes n) []) as H0 by constructor. revert H0. generalize (@nil (list Z)) as ns.
  induction Hc as [|n l (H1 & H2 & H3) _ IH]; intros ns Hns; cbn [foldl]; [exact Hns|]. apply IH. unfold enter.
  destruct (str_eqb_spec n dot); [exact Hns|]. destruct (str_eqb_spec n dotdot).
  - destruct ns as [|x ns _] using rev_ind; [exact Hns|]. rewrite removelast_last. apply Forall_app in Hns as [Hns _]. exact Hns.
  - apply Forall_app_2; [exact Hns|]. repeat constructor; auto.
Qed.

Lemma escape_no_slash b n : Forall (fun c => c <> slash) n -> escape n b = escape n true.
Proof.
  intros H. assert (forall k, escape_loop b k n = escape_loop true k n) as E.
  { induction H as [|c n Hc _ IH]; intros k; [reflexivity|]. cbn [escape_loop].
    assert (escape_char b c n = escape_char true c n) as ->; [|repeat case_match; rewrite !IH; reflexivity].
    unfold escape_char. replace (c =? 47) with false by (unfold slash in Hc; lia). reflexivity. }
  unfold escape. rewrite E. reflexivity.
Qed.

Lemma escape_entry n : entry n -> bytes n -> entry (escape n false).
Proof.
  intros (H1 & H2 & H3 & H4) Hb. pose proof (proj1 (escape_roundtrip_core n n Hb Hb)) as Er.
  split; [intros E; rewrite E in Er; exact (H1 (eq_sym Er))|].
  split; [|split; intros E; rewrite E in Er; [exact (H3 (eq_sym Er))|exact (H4 (eq_sym Er))]].
  rewrite escape_no_slash by exact H2. destruct (escape_portable_core n true Hb) as [Hd Hp].
  destruct (only_dots n); [rewrite Hd by reflexivity; exact H2|].
  destruct (Hp eq_refl) as (_ & _ & Ha & _). revert Ha. apply Forall_impl. unfold allowed, slash. intros c Hc. apply Hc. reflexivity.
Qed.

(** C36: path resolution.  For an absolute guest path, over a tree with nothing mounted to the
    host's root, [get] returns (its passes suffice) the host path of the longest mounted prefix
    of the normalized path followed by the escaped names that are left, or the empty path if no
    prefix is mounted; and every one of those names is an entry of its directory, so that no
    dots and no slashes of the guest lead out of the mounted directory. *)
Theorem get_longest_prefix cfg root vpath :
  no_host_root root -> bytes vpath -> absolute vpath -> vpath <> [] ->
  exists out, get cfg root vpath = Some out /\
    host out = resolve (mounted root) (normalize vpath) (ends_with_slash vpath) /\
    out_path out = (if is_empty (host out) then None else Some (slash :: merge (normalize vpath))) /\
    (host out <> [] -> exists k frags,
       mounted root (take k (normalize vpath)) <> [] /\ Forall entry frags /\
       host out = mounted root (take k (normalize vpath))
                  ++ merge (frags ++ (if ends_with_slash vpath then [[]] else []))).
Proof.
  intros Hroot Hb Ha Hne. unfold get. destruct vpath as [|c v]; [contradiction|]. cbn [is_empty].
  set (vp := c :: v) in *. change [Some root] with (stack_of root []).
  destruct (get_loop_spec cfg root (S (length vp)) vp [] (ends_with_slash vp) Hroot Ha ltac:(lia) eq_refl) as (rest & Et & ->).
  fold (normalize vp). destruct (finalize_resolve root (normalize vp) rest _ Et) as [Eh Eo].
  eexists. split; [reflexivity|]. split; [exact Eh|]. split; [exact Eo|]. rewrite Eh. unfold resolve.
  destruct (longest (mounted root) (normalize vp) (length (normalize vp))) as [[base k]|] eqn:El; [|contradiction].
  intros _. apply longest_mounted in El as (-> & Hm & _). exists k, (map (fun s => escape s false) (drop k (normalize vp))).
  split; [exact Hm|]. rewrite map_app. destruct (ends_with_slash vp); (split; [|reflexivity]);
    pose proof (Forall_drop _ k _ (normalize_entries vp Hb)) as He;
    apply List.Forall_map; revert He; apply Forall_impl; intros n [H1 H2]; apply escape_entry; assumption.
Qed.

(** The configuration of the example: /dev_hdd0 is mounted to "/h/", the path goes through dots. *)
Definition sample_root : vfs_directory := Dir [] [([100], Dir [slash; 104; slash] [])].
Definition sample_path : list Z := [47; 100; 47; 46; 46; 47; 46; 47; 100; 47; 120; 46; 47; 46; 46; 47; 46; 46; 47; 100; 47; 97; 58].

Lemma sample_no_host_root : no_host_root sample_root.
Proof.
  assert (forall d ns e, dir_at d ns = Some e -> (path d <> [slash] /\ dirs d = []) -> path e <> [slash]) as Hleaf.
  { intros d [|n ns] e; cbn; [intros [= ->]; tauto|]. unfold child. intros H [_ E]. rewrite E in H. discriminate. }
  intros [|n ns] d; cbn [dir_at sample_root]; [intros [= <-]; discriminate|].
  unfold child. cbn [dirs find_dir sample_root]. destruct (str_eqb [100] n); [|discriminate]. intros H. apply (Hleaf _ _ _ H). split; [discriminate|reflexivity].
Qed.

Lemma get_longest_prefix_witness :
  no_host_root sample_root /\ exists out, get [] sample_root sample_path = Some out /\ host out = [47; 104; 47; 97; 0xef; 0xbc; 0x9a].
Proof.
  split; [exact sample_no_host_root|].
  destruct (get_longest_prefix [] sample_root sample_path sample_no_host_root) as (out & E & H & _).
  - repeat constructor; lia.
  - reflexivity.
  - discriminate.
  - exists out. split; [exact E|]. rewrite H. vm_compute. reflexivity.
Defined.

(** ** mount and unmount *)

Lemma find_map n n0 g l :
  find_dir n (map (fun '(k, e) => (k, if str_eqb k n0 then g e else e)) l)
  = (fun e => if str_eqb n n0 then g e else e) <$> find_dir n l.
Proof.
  induction l as [|[k e] l IH]; [reflexivity|]. cbn [map find_dir]. destruct (str_eqb_spec k n) as [->|]; [reflexivity|exact IH].
Qed.

Lemma find_filter n n0 l :
  find_dir n (List.filter (fun '(k, _) => negb (str_eqb k n0)) l) = if str_eqb n n0 then None else find_dir n l.
Proof.
  induction l as [|[k e] l IH]; [cbn; destruct (str_eqb n n0); reflexivity|]. cbn [List.filter find_dir].
  destruct (str_eqb_spec k n0) as [->|Hk]; cbn [negb find_dir].
  - rewrite IH. destruct (str_eqb_spec n n0) as [->|Hn]; [reflexivity|]. destruct (str_eqb_spec n0 n); [congruence|reflexivity].
  - destruct (str_eqb_spec k n) as [->|]; [|exact IH]. destruct (str_eqb_spec n n0); [congruence|reflexivity].
Qed.

Lemma find_emplace n name d l :
  find_dir name l = None -> find_dir n (emplace name d l) = if str_eqb name n then Some d else find_dir n l.
Proof.
  induction l as [|[k e] l IH]; cbn [find_dir emplace]; [reflexivity|]. destruct (str_eqb_spec k name) as [|Hk]; [discriminate|].
  intros H. destruct (str_ltb name k); cbn [find_dir]; [reflexivity|]. rewrite IH by exact H.
  destruct (str_eqb_spec k n) as [->|], (str_eqb_spec name n); congruence.
Qed.

Lemma mounted_nil d : mounted d [] = path d.
Proof. reflexivity. Qed.
Lemma mounted_cons d n ns : mounted d (n :: ns) = match child d n with Some e => mounted e ns | None => [] end.
Proof. unfold mounted. cbn [dir_at]. destruct (child d n); reflexivity. Qed.

(** The change of the table that a change of one directory makes. *)
Lemma mounted_update ns f d root ms :
  dir_at root ns = Some d ->
  mounted (update_at ns f root) ms =
    if decide (ns `prefix_of` ms) then mounted (f d) (drop (length ns) ms) else mounted root ms.
Proof.
  revert root ms. induction ns as [|n ns IH]; intros root ms Hd; cbn [update_at dir_at length] in *.
  - injection Hd as ->. rewrite decide_True by apply prefix_nil. rewrite drop_0. reflexivity.
  - destruct (child root n) as [e|] eqn:Ec; [|discriminate]. destruct ms as [|m ms].
    + rewrite decide_False by (intros H; apply prefix_nil_inv in H; discriminate). reflexivity.
    + rewrite !mounted_cons. unfold child at 1. cbn [dirs drop]. rewrite find_map. fold (child root m).
      destruct (str_eqb_spec m n) as [->|Hmn].
      * rewrite Ec. cbn [fmap option_fmap option_map]. rewrite (IH e ms Hd).
        destruct (decide (ns `prefix_of` ms)); [rewrite decide_True by (apply prefix_cons; assumption)|
          rewrite decide_False by (intros H; apply prefix_cons_inv_2 in H; contradiction)]; reflexivity.
      * rewrite decide_False by (intros H; apply prefix_cons_inv_1 in H; congruence).
        destruct (child root m); reflexivity.
Qed.

Lemma mounted_with_path p d ms : mounted (with_path p d) ms = if decide (ms = []) then p else mounted d ms.
Proof. destruct ms; [reflexivity|]. rewrite decide_False by discriminate. reflexivity. Qed.

Lemma mounted_add name d ms : child d name = None -> mounted (add_dir name d) ms = mounted d ms.
Proof.
  intros H. destruct ms as [|m ms]; [reflexivity|]. rewrite !mounted_cons. unfold child, add_dir. cbn [dirs].
  rewrite find_emplace by exact H. destruct (str_eqb_spec name m) as [->|]; [|reflexivity].
  unfold child in H. rewrite H. destruct ms; reflexivity.
Qed.

Lemma mounted_app root ns d r : dir_at root ns = Some d -> mounted root (ns ++ r) = mounted d r.
Proof. intros H. unfold mounted. rewrite dir_at_app, H. reflexivity. Qed.

Lemma dir_at_update ns f root d r :
  dir_at root ns = Some d -> dir_at (update_at ns f root) (ns ++ r) = dir_at (f d) r.
Proof.
  revert root. induction ns as [|n ns IH]; intros root Hd; cbn [update_at dir_at app] in *; [congruence|].
  destruct (child root n) as [e|] eqn:Ec; [|discriminate]. unfold child at 1. cbn [dirs]. rewrite find_map.
  fold (child root n). rewrite Ec. cbn [fmap option_fmap option_map]. rewrite str_eqb_refl. apply IH, Hd.
Qed.

(** Making a missing directory mounts nothing. *)
Lemma mounted_update_add root ns d name ms :
  dir_at root ns = Some d -> child d name = None -> mounted (update_at ns (add_dir name) root) ms = mounted root ms.
Proof.
  intros Hd Hc. rewrite (mounted_update ns _ d) by exact Hd. destruct (decide (ns `prefix_of` ms)) as [(r & ->)|]; [|reflexivity].
  rewrite drop_app_length, mounted_add by exact Hc. symmetry. apply mounted_app, Hd.
Qed.

Lemma mounted_update_path root ns d p ms :
  dir_at root ns = Some d -> mounted (update_at ns (with_path p) root) ms = if decide (ms = ns) then p else mounted root ms.
Proof.
  intros Hd. rewrite (mounted_update ns _ d) by exact Hd. destruct (decide (ns `prefix_of` ms)) as [(r & ->)|Hn].
  - rewrite drop_app_length, mounted_with_path. destruct (decide (r = [])) as [->|Hr].
    + rewrite decide_True by apply app_nil_r. reflexivity.
    + rewrite decide_False; [symmetry; apply mounted_app, Hd|]. intros E. apply Hr. rewrite <- (app_nil_r ns) in E at 2.
      apply app_inv_head in E. exact E.
  - rewrite decide_False; [reflexivity|]. intros ->. apply Hn. reflexivity.
Qed.

Lemma mount_loop_spec fuel target v names root :
  absolute v -> (length v < fuel)%nat -> is_Some (dir_at root names) ->
  exists root', mount_loop fuel target v names root = Some (true, root') /\
    forall ms, mounted root' ms = if decide (ms = foldl enter names (components v)) then target else mounted root ms.
Proof.
  revert v names root. induction fuel as [|fuel IH]; intros v names root Ha Hf [d Hd]; [lia|]. cbn [mount_loop].
  pose proof (next_fragment_spec v Ha) as Hn. destruct (next_fragment v) as [| |name rest]; [contradiction| |].
  { destruct Hn as [-> _]. eexists. split; [reflexivity|]. intros ms. apply (mounted_update_path root names d), Hd. }
  destruct Hn as (Ec & Ha' & Hl & _). rewrite Ec. cbn [foldl]. assert (length rest < fuel)%nat as Hf' by lia.
  remember (enter names name) as names' eqn:En. unfold enter in En.
  destruct (str_eqb name dot); [subst names'; apply IH; eauto|]. destruct (str_eqb name dotdot); subst names'.
  - apply IH; auto. destruct names as [|n names _] using rev_ind; [eauto|]. rewrite removelast_last.
    rewrite dir_at_app in Hd. destruct (dir_at root names); [eauto|discriminate].
  - destruct (dir_at root (names ++ [name])) as [e|] eqn:Ee; [apply IH; eauto|].
    assert (child d name = None) as Hc.
    { rewrite dir_at_app, Hd in Ee. cbn in Ee. destruct (child d name); [discriminate|reflexivity]. }
    destruct (IH rest (names ++ [name]) (update_at names (add_dir name) root)) as (root' & E & Hm); auto.
    { rewrite (dir_at_update names _ root d) by exact Hd. cbn [dir_at]. unfold child, add_dir. cbn [dirs].
      rewrite find_emplace, str_eqb_refl by exact Hc. eauto. }
    exists root'. split; [exact E|]. intros ms. rewrite Hm. destruct (decide _); [reflexivity|].
    apply (mounted_update_add root names d); assumption.
Qed.

Lemma unmount_children_spec entries root ms :
  entries <> [] ->
  mounted (unmount_children entries root) ms = if decide (entries `prefix_of` ms) then [] else mounted root ms.
Proof.
  revert root ms. induction entries as [|n entries IH]; intros root ms Hne; [contradiction|].
  destruct ms as [|m ms].
  { rewrite decide_False by (intros H; apply prefix_nil_inv in H; discriminate). destruct entries; reflexivity. }
  destruct entries as [|n' entries].
  - cbn [unmount_children]. rewrite !mounted_cons. unfold child at 1. cbn [dirs]. rewrite find_filter.
    destruct (str_eqb_spec m n) as [->|Hmn].
    + rewrite decide_True by (apply prefix_cons, prefix_nil). reflexivity.
    + rewrite decide_False by (intros H; apply prefix_cons_inv_1 in H; congruence). reflexivity.
  - set (ns := n' :: entries) in *. change (unmount_children (n :: ns) root) with
      (Dir (path root) (map (fun '(k, e) => (k, if str_eqb k n then unmount_children ns e else e)) (dirs root))).
    rewrite !mounted_cons. unfold child at 1. cbn [dirs]. rewrite find_map. fold (child root m).
    destruct (str_eqb_spec m n) as [->|Hmn].
    + destruct (child root n) as [e|]; cbn [fmap option_fmap option_map].
      * rewrite IH by discriminate. destruct (decide (ns `prefix_of` ms)); [rewrite decide_True by (apply prefix_cons; assumption)|
          rewrite decide_False by (intros H; apply prefix_cons_inv_2 in H; contradiction)]; reflexivity.
      * destruct (decide _); reflexivity.
    + rewrite decide_False by (intros H; apply prefix_cons_inv_1 in H; congruence). destruct (child root m); reflexivity.
Qed.

(** C37: mounting and unmounting.  [mount] of an absolute path succeeds (its passes suffice) and
    changes the table of mount points at the normalized path alone, whatever directories it has
    to make on the way; a relative or empty path fails and changes nothing; [unmount] clears the
    entries at and below the path it names and no others, and fails and changes nothing when the
    path names none or there is no manager. *)
Theorem mount_table resolve_path vpath p is_dir is_init root :
  (absolute vpath -> vpath <> [] -> exists root',
     mount resolve_path vpath p is_dir root = Some (true, root') /\
     forall ns, mounted root' ns = if decide (ns = normalize vpath) then mount_path resolve_path p is_dir else mounted root ns) /\
  (~ absolute vpath \/ vpath = [] -> mount resolve_path vpath p is_dir root = Some (false, root)) /\
  (exists ok root', unmount is_init vpath root = (ok, root') /\ (ok = true <-> is_init = true /\ components vpath <> []) /\
     forall ns, mounted root' ns = if decide (ok = true /\ components vpath `prefix_of` ns) then [] else mounted root ns).
Proof.
  split; [|split].
  - intros Ha Hne. unfold mount. destruct vpath as [|c v] eqn:E; [contradiction|]. cbn [is_empty]. rewrite <- E in *.
    apply mount_loop_spec; [exact Ha|lia|eauto].
  - intros [H| ->]; [|reflexivity]. unfold mount. destruct vpath as [|c v]; [reflexivity|]. cbn [is_empty mount_loop length next_fragment].
    cbn in H. destruct (Z.eqb_spec c slash); [contradiction|]. reflexivity.
  - assert (is_init = false \/ components vpath = [] ->
      exists ok root', (false, root) = (ok, root') /\ (ok = true <-> is_init = true /\ components vpath <> []) /\
        forall ns, mounted root' ns = if decide (ok = true /\ components vpath `prefix_of` ns) then [] else mounted root ns) as Hnone.
    { intros E. exists false, root. split; [reflexivity|]. split; [split; [discriminate|intros []; destruct E; congruence]|].
      intros ns. rewrite decide_False by (intros [[=] _]). reflexivity. }
    unfold unmount. destruct vpath as [|c v] eqn:Ev; [apply Hnone; right; reflexivity|]. cbn [is_empty]. rewrite <- Ev in *.
    fold (components vpath). destruct (components vpath) as [|n entries] eqn:Es; [apply Hnone; right; reflexivity|].
    destruct is_init; [|apply Hnone; left; reflexivity]. cbn [negb].
    exists true, (unmount_children (n :: entries) root). split; [reflexivity|]. split; [split; [split; [reflexivity|discriminate]|reflexivity]|]. intros ns.
    rewrite unmount_children_spec by discriminate. destruct (decide (n :: entries `prefix_of` ns)) as [H|H].
    + rewrite decide_True; [reflexivity|]. split; [reflexivity|exact H].
    + rewrite decide_False by tauto. reflexivity.
Qed.

Lemma mount_table_witness :
  exists root', mount id [47; 97; 47; 98] [104] true sample_root = Some (true, root') /\ mounted root' [[97]; [98]] = [104; 47].
Proof.
  destruct (mount_table id [47; 97; 47; 98] [104] true true sample_root) as [H _].
  destruct (H eq_refl ltac:(discriminate)) as (root' & E & Hm). exists root'. split; [exact E|].
  rewrite Hm. vm_compute. reflexivity.
Defined.

(** A directory found below the first mount point leaves its name in the path of the next:
    /app_home/s and /dev_bdvd are both mounted to "/h/", and the path found exists in neither. *)
Lemma retrieve_stale_name :
  let root := Dir [] [(app_home, Dir [] [([115], Dir [47; 104; 47] [])]); (dev_bdvd, Dir [47; 104; 47] [])] in
  retrieve [47; 0] id root [47; 104; 47; 120] = slash :: merge [app_home; dev_bdvd; [120]] /\
  mounted root [app_home; dev_bdvd] = [].
Proof. split; vm_compute; reflexivity. Qed.
