(* ===== verification/Lv2Queue.v ===== *)
(** * Wait queues of kernel objects (Emu/Cell/lv2/sys_sync.h: unqueue, schedule, emplace)

    The queue of an object is a list linked through [next_cpu] of the waiting threads, latest
    first.  The heap maps thread numbers to what the queues and the waiting loops use of a
    [ppu_thread]; a pointer is an optional number.  The walks take fuel, the number of
    threads being enough. *)

From Stdlib Require Import ZArith Lia Bool.
From stdpp Require Import base numbers list option gmap sets.
From S2P Require Import Prelude.
#[local] Set Warnings "-clear-no-such-hyp".

(** A thread: its link, [prio] (with [order] and [preserve_bit]), the flags of [state] the
    kernel objects use, and whether the scheduler has it asleep (not in its run queue). *)
Record cpu := mk_cpu {
  next_cpu : option nat;
  prio : Z;
  order : Z;
  preserve_bit : bool;
  again : bool;
  signal : bool;
  suspend : bool;
  stopped : bool;
  asleep : bool
}.
Abbreviation heap := (gmap nat cpu).

Definition with_next (p : option nat) (c : cpu) : cpu :=
  mk_cpu p (prio c) (order c) (preserve_bit c) (again c) (signal c) (suspend c) (stopped c) (asleep c).
Definition with_order (o : Z) (b : bool) (c : cpu) : cpu :=
  mk_cpu (next_cpu c) (prio c) o b (again c) (signal c) (suspend c) (stopped c) (asleep c).

Definition next_of (h : heap) (i : nat) : option nat := match h !! i with Some c => next_cpu c | None => None end.
Definition set_next (h : heap) (i : nat) (p : option nat) : heap := alter (with_next p) i h.

(** A place that holds a pointer: the head, or the link of a thread. *)
Inductive place := Head | Link (i : nat).
Definition store (pl : place) (p : option nat) (first : option nat) (h : heap) : option nat * heap :=
  match pl with
  | Head => (p, h)
  | Link i => (first, set_next h i p)
  end.

(** The loop of [unqueue] from the thread [it] on. *)
Fixpoint unqueue_loop (fuel : nat) (modify : bool) (it : option nat) (object : nat) (h : heap) : option nat * heap :=
  match fuel with
  | O => (None, h)
  | S fuel =>
      match it with
      | None => (None, h)
      | Some i =>
          let next := next_of h i in
          if decide (next = Some object) then
            let h := set_next h i (next_of h object) in
            (Some object, if modify then set_next h object None else h)
          else unqueue_loop fuel modify next object h
      end
  end.

(** [unqueue<modify>(first, object)]: what it returns, the head and the heap after it. *)
Definition unqueue (fuel : nat) (modify : bool) (first : option nat) (object : nat) (h : heap)
  : option nat * option nat * heap :=
  if decide (first = Some object) then
    (Some object, next_of h object, if modify then set_next h object None else h)
  else
    let '(r, h) := unqueue_loop fuel modify first object h in (r, first, h).

Definition SYS_SYNC_FIFO : Z := 1.
Definition SYS_SYNC_PRIORITY : Z := 2.

Definition flag (f : cpu -> bool) (h : heap) (i : nat) : bool := match h !! i with Some c => f c | None => false end.
Definition prio_of (h : heap) (i : nat) : Z * Z := match h !! i with Some c => (prio c, order c) | None => (0, 0) end.

(** The first thread in is the last of the list. *)
Fixpoint fifo_loop (fuel : nat) (parent : place) (i : nat) (h : heap) : place * nat :=
  match fuel with
  | O => (parent, i)
  | S fuel => match next_of h i with
              | Some n => fifo_loop fuel (Link i) n h
              | None => (parent, i)
              end
  end.

(** [_prio < prio], the order of entering deciding between equals. *)
Definition before (p q : Z * Z) : bool := (fst p <? fst q) || ((fst p =? fst q) && (snd p <? snd q)).

Fixpoint prio_loop (fuel : nat) (it : nat) (parent : place) (found : nat) (p : Z * Z) (h : heap) : place * nat :=
  match fuel with
  | O => (parent, found)
  | S fuel =>
      match next_of h it with
      | None => (parent, found)
      | Some n =>
          let q := prio_of h n in
          if before q p then prio_loop fuel n (Link it) n q h else prio_loop fuel n parent found p h
      end
  end.

(** [schedule(first, protocol, modify_node)]. *)
Definition schedule (fuel : nat) (modify : bool) (protocol : Z) (first : option nat) (h : heap)
  : option nat * option nat * heap :=
  match first with
  | None => (None, None, h)
  | Some i =>
      if protocol =? SYS_SYNC_FIFO then
        let '(parent, it) := fifo_loop fuel Head i h in
        let '(first, h) := if negb (flag again h it) then store parent None first h else (first, h) in
        (Some it, first, h)
      else
        let '(parent, it) := prio_loop fuel i Head i (prio_of h i) h in
        let '(first, h) :=
          if negb (flag again h it) then
            let '(first, h) := store parent (next_of h it) first h in
            (first, if modify then set_next h it None else h)
          else (first, h) in
        (Some it, first, h)
  end.

(** [emplace(first, object)] with the next value of [g_priority_order_tag], of which [order] has
    50 bits. *)
Definition emplace (tag : Z) (first : option nat) (object : nat) (h : heap) : option nat * heap :=
  let h := set_next h object first in
  let h := alter (fun c => if preserve_bit c then with_order (order c) false c else with_order (sint 50 tag) (preserve_bit c) c) object h in
  (Some object, h).

(** Is the thread in the list? *)
Fixpoint in_queue (fuel : nat) (it : option nat) (P : nat -> bool) (h : heap) : bool :=
  match fuel with
  | O => false
  | S fuel => match it with
              | None => false
              | Some i => P i || in_queue fuel (next_of h i) P h
              end
  end.

(** ** Lists in the heap *)

Fixpoint linked (h : heap) (p : option nat) (l : list nat) : Prop :=
  match l with
  | [] => p = None
  | i :: l => p = Some i /\ is_Some (h !! i) /\ linked h (next_of h i) l
  end.

(** The same threads but for their links. *)
Definition relinked (h h' : heap) : Prop := forall i, exists p, h' !! i = with_next p <$> h !! i.

Lemma with_next_eta c : with_next (next_cpu c) c = c.
Proof. destruct c. reflexivity. Qed.
Lemma with_next_twice p q c : with_next p (with_next q c) = with_next p c.
Proof. reflexivity. Qed.

Lemma relinked_refl h : relinked h h.
Proof.
  intros i. exists (next_of h i). unfold next_of. destruct (h !! i) as [c|]; [|reflexivity].
  cbn. rewrite with_next_eta. reflexivity.
Qed.
Lemma relinked_trans h1 h2 h3 : relinked h1 h2 -> relinked h2 h3 -> relinked h1 h3.
Proof.
  intros H1 H2 i. destruct (H1 i) as [p Hp], (H2 i) as [q Hq]. exists q. rewrite Hq, Hp. destruct (h1 !! i); reflexivity.
Qed.
Lemma relinked_set h i p : relinked h (set_next h i p).
Proof.
  intros j. unfold set_next. destruct (decide (i = j)) as [->|Hne].
  - exists p. rewrite lookup_alter_eq. reflexivity.
  - destruct (relinked_refl h j) as [q Hq]. exists q. rewrite lookup_alter_ne by exact Hne. exact Hq.
Qed.
Lemma relinked_some h h' i : relinked h h' -> is_Some (h' !! i) <-> is_Some (h !! i).
Proof. intros H. destruct (H i) as [p ->]. apply fmap_is_Some. Qed.
Lemma relinked_flag (f : cpu -> bool) h h' i :
  (forall p c, f (with_next p c) = f c) -> relinked h h' -> flag f h' i = flag f h i.
Proof. intros Hf H. unfold flag. destruct (H i) as [p ->]. destruct (h !! i); cbn; auto. Qed.
Lemma relinked_prio h h' i : relinked h h' -> prio_of h' i = prio_of h i.
Proof. intros H. unfold prio_of. destruct (H i) as [p ->]. destruct (h !! i); reflexivity. Qed.

Lemma next_set h i p j :
  next_of (set_next h i p) j = if decide (i = j) then (match h !! i with Some _ => p | None => None end) else next_of h j.
Proof.
  unfold next_of, set_next. destruct (decide (i = j)) as [->|Hne].
  - rewrite lookup_alter_eq. destruct (h !! j); reflexivity.
  - rewrite lookup_alter_ne by exact Hne. reflexivity.
Qed.
Lemma next_set_eq h i p : is_Some (h !! i) -> next_of (set_next h i p) i = p.
Proof. intros [c E]. rewrite next_set, decide_True, E by reflexivity. reflexivity. Qed.
Lemma next_set_ne h i p j : i <> j -> next_of (set_next h i p) j = next_of h j.
Proof. intros H. rewrite next_set, decide_False by exact H. reflexivity. Qed.

(** A list depends on its own threads alone. *)
Lemma linked_frame h h' p l :
  (forall i, i ∈ l -> next_of h' i = next_of h i /\ (is_Some (h !! i) -> is_Some (h' !! i))) -> linked h p l -> linked h' p l.
Proof.
  revert p. induction l as [|i l IH]; intros p Hf; cbn; [auto|]. intros (-> & Hs & Hl).
  destruct (Hf i ltac:(left)) as [En Hi]. repeat split; auto. rewrite En. apply IH; [|exact Hl].
  intros j Hj. apply Hf. right. exact Hj.
Qed.

Lemma linked_set h i q p l : i ∉ l -> linked h p l -> linked (set_next h i q) p l.
Proof.
  intros Hi. apply linked_frame. intros j Hj. split; [apply next_set_ne; intros ->; contradiction|].
  apply relinked_some, relinked_set.
Qed.

Lemma linked_some h p l i : linked h p l -> i ∈ l -> is_Some (h !! i).
Proof.
  revert p. induction l as [|j l IH]; intros p; [intros _ H; apply elem_of_nil in H as []|].
  intros (_ & Hs & Hl) [->|Hi]%elem_of_cons; [exact Hs|eapply IH; eauto].
Qed.

Lemma linked_next h p l1 i l2 : linked h p (l1 ++ i :: l2) -> linked h (next_of h i) l2.
Proof. revert p. induction l1 as [|j l1 IH]; intros p; cbn; [tauto|]. intros (_ & _ & Hl). eapply IH, Hl. Qed.

(** Unlinking [object] behind [i]: [i] is given what follows [object]. *)
Lemma linked_unlink h p l1 i object l2 :
  NoDup (l1 ++ i :: object :: l2) -> linked h p (l1 ++ i :: object :: l2) ->
  linked (set_next h i (next_of h object)) p (l1 ++ i :: l2).
Proof.
  revert p. induction l1 as [|j l1 IH]; intros p Hnd; cbn [app linked].
  - intros (-> & Hs & _ & Ho & Hl). split; [reflexivity|]. split; [apply relinked_some with h; [apply relinked_set|exact Hs]|].
    rewrite next_set_eq by exact Hs. apply linked_set; [|exact Hl]. cbn in Hnd. apply NoDup_cons in Hnd as [Hnd _].
    intros Hi. apply Hnd. right. exact Hi.
  - intros (-> & Hs & Hl). cbn in Hnd. apply NoDup_cons in Hnd as [Hj Hnd]. split; [reflexivity|].
    split; [apply relinked_some with h; [apply relinked_set|exact Hs]|].
    rewrite next_set_ne by (intros ->; apply Hj, elem_of_app; right; left). apply IH; assumption.
Qed.

(** ** unqueue *)

Lemma unqueue_loop_none fuel modify p l object h :
  linked h p l -> object ∉ tail l -> unqueue_loop fuel modify p object h = (None, h).
Proof.
  revert p l. induction fuel as [|fuel IH]; intros p l Hl Ho; [reflexivity|]. cbn [unqueue_loop].
  destruct l as [|i l]; [cbn in Hl; subst; reflexivity|]. destruct Hl as (-> & Hs & Hl). cbn [tail] in Ho.
  rewrite decide_False.
  - apply (IH _ l); [exact Hl|]. destruct l; [exact Ho|]. intros H. apply Ho. right. exact H.
  - intros E. destruct l as [|j l]; cbn in Hl; [congruence|]. destruct Hl as (E' & _). apply Ho. rewrite E in E'. injection E' as ->. left.
Qed.

Lemma unqueue_loop_some fuel modify p l1 i object l2 h :
  linked h p (l1 ++ i :: object :: l2) -> NoDup (l1 ++ i :: object :: l2) -> (length l1 < fuel)%nat ->
  unqueue_loop fuel modify p object h =
    (Some object, let h := set_next h i (next_of h object) in if modify then set_next h object None else h).
Proof.
  revert p l1. induction fuel as [|fuel IH]; intros p l1 Hl Hnd Hf; [lia|]. cbn [unqueue_loop].
  destruct l1 as [|j l1]; cbn [app] in *.
  - destruct Hl as (-> & _ & E & _). rewrite decide_True by exact E. reflexivity.
  - destruct Hl as (-> & _ & Hl). apply NoDup_cons in Hnd as [Hj Hnd]. rewrite decide_False.
    + apply (IH _ l1); [exact Hl|exact Hnd|cbn in Hf; lia].
    + intros E. destruct l1 as [|k l1]; cbn in Hl; destruct Hl as (E' & _); rewrite E in E'; injection E' as ->.
      * apply NoDup_cons in Hnd as [Hk _]. apply Hk. left.
      * apply NoDup_cons in Hnd as [Hk _]. apply Hk, elem_of_app. right. right. left.
Qed.

(** What [unqueue] promises: a thread of the list leaves it, another changes nothing. *)
Lemma unqueue_spec fuel first l object h :
  linked h first l -> NoDup l -> (length l <= fuel)%nat ->
  (object ∉ l -> unqueue fuel true first object h = (None, first, h)) /\
  (forall l1 l2, l = l1 ++ object :: l2 -> exists first' h',
     unqueue fuel true first object h = (Some object, first', h') /\
     linked h' first' (l1 ++ l2) /\ next_of h' object = None /\ relinked h h').
Proof.
  intros Hl Hnd Hf. unfold unqueue. split.
  - intros Ho. rewrite decide_False by (intros ->; destruct l as [|i l]; cbn in Hl; [discriminate|];
      destruct Hl as ([= ->] & _); apply Ho; left).
    rewrite (unqueue_loop_none _ _ _ l); [reflexivity|exact Hl|].
    intros H. apply Ho. destruct l; [exact H|right; exact H].
  - intros l1 l2 ->. destruct l1 as [|i l1 _] using rev_ind.
    + destruct Hl as (-> & Hs & Hl). rewrite decide_True by reflexivity. eexists _, _. split; [reflexivity|].
      cbn [app] in *. apply NoDup_cons in Hnd as [Ho _].
      split; [apply linked_set; assumption|]. split; [apply next_set_eq, Hs|apply relinked_set].
    + rewrite <- app_assoc in *. cbn [app] in *. rewrite decide_False.
      2:{ intros ->. destruct l1 as [|j l1]; cbn in Hl; destruct Hl as ([= ->] & _);
            apply NoDup_cons in Hnd as [Hj _]; apply Hj; [left|apply elem_of_app; right; right; left]. }
      rewrite length_app in Hf. cbn in Hf.
      rewrite (unqueue_loop_some _ _ _ l1 i _ l2) by (assumption || lia). eexists _, _. split; [reflexivity|].
      assert (object ∉ l1 ++ i :: l2) as Ho.
      { clear Hf Hl. rewrite (Permutation_app_comm l1) in Hnd. cbn in Hnd. rewrite !NoDup_cons in Hnd.
        destruct Hnd as (Hi & Ho & _). set_solver. }
      split; [apply linked_set; [exact Ho|]; apply linked_unlink; assumption|].
      split; [|eapply relinked_trans; apply relinked_set].
      apply next_set_eq. apply relinked_some with h; [apply relinked_set|]. eapply linked_some; [exact Hl|].
      apply elem_of_app. right. right. left.
Qed.

(** ** schedule *)

Lemma fifo_loop_spec fuel parent i l h :
  linked h (Some i) (i :: l) -> (length l <= fuel)%nat ->
  fifo_loop fuel parent i h = match rev (i :: l) with
                              | x :: y :: _ => (Link y, x)
                              | _ => (parent, i)
                              end.
Proof.
  revert parent i l. induction fuel as [|fuel IH]; intros parent i l (_ & _ & Hl) Hf; cbn [fifo_loop].
  - destruct l; [reflexivity|cbn in Hf; lia].
  - destruct l as [|j l]; cbn in Hl; [rewrite Hl; reflexivity|]. destruct Hl as (E & Hs & Hl). rewrite E.
    rewrite (IH (Link i) j l); [|cbn; auto|cbn in Hf; lia]. cbn [rev]. destruct (rev l) as [|x [|y r]]; reflexivity.
Qed.

(** The place that points behind the threads [l]. *)
Definition place_of (l : list nat) : place := match list.last l with Some y => Link y | None => Head end.

(** [x] is before all of [l1] and none of [l2] is before it. *)
Definition best (h : heap) (l1 : list nat) (x : nat) (l2 : list nat) : Prop :=
  (forall y, y ∈ l1 -> before (prio_of h x) (prio_of h y) = true) /\
  (forall y, y ∈ l2 -> before (prio_of h y) (prio_of h x) = false).

Lemma before_true p q : before p q = true <-> fst p < fst q \/ (fst p = fst q /\ snd p < snd q).
Proof. unfold before. lia. Qed.
Lemma before_false p q : before p q = false <-> fst q < fst p \/ (fst p = fst q /\ snd q <= snd p).
Proof. unfold before. lia. Qed.

Lemma best_better h l1 x l2 y :
  best h l1 x l2 -> before (prio_of h y) (prio_of h x) = true -> best h (l1 ++ x :: l2) y [].
Proof.
  intros [H1 H2] Hb. split; [|intros z Hz; apply elem_of_nil in Hz as []].
  intros z [Hz|[->|Hz]%elem_of_cons]%elem_of_app; [|exact Hb|].
  - specialize (H1 z Hz). rewrite before_true in *. lia.
  - specialize (H2 z Hz). rewrite before_true in *. rewrite before_false in H2. lia.
Qed.
Lemma best_worse h l1 x l2 y :
  best h l1 x l2 -> before (prio_of h y) (prio_of h x) = false -> best h l1 x (l2 ++ [y]).
Proof. intros [H1 H2] Hb. split; [exact H1|]. intros z [Hz|Hz]%elem_of_app; [auto|]. apply list_elem_of_singleton in Hz as ->. exact Hb. Qed.

Lemma prio_loop_spec fuel it l h f1 found f2 :
  linked h (Some it) (it :: l) -> (length l <= fuel)%nat -> list.last (f1 ++ found :: f2) = Some it -> best h f1 found f2 ->
  exists l1 x l2, prio_loop fuel it (place_of f1) found (prio_of h found) h = (place_of l1, x) /\
    (f1 ++ found :: f2) ++ l = l1 ++ x :: l2 /\ best h l1 x l2.
Proof.
  revert it l f1 found f2. induction fuel as [|fuel IH]; intros it l f1 found f2 (_ & _ & Hl) Hf Hlast Hb; cbn [prio_loop].
  - destruct l; [|cbn in Hf; lia]. rewrite app_nil_r. eauto 10.
  - destruct l as [|n l]; [cbn in Hl; rewrite Hl, app_nil_r; eauto 10|]. destruct Hl as (-> & Hs & Hl).
    assert (linked h (Some n) (n :: l)) as Hn by (cbn; auto). cbn in Hf.
    destruct (before (prio_of h n) (prio_of h found)) eqn:Eb.
    + replace (Link it) with (place_of (f1 ++ found :: f2)) by (unfold place_of; rewrite Hlast; reflexivity).
      destruct (IH n l (f1 ++ found :: f2) n [] Hn ltac:(lia)) as (l1 & x & l2 & E & El & Hx).
      * rewrite last_snoc. reflexivity.
      * apply best_better; assumption.
      * exists l1, x, l2. split; [exact E|]. split; [|exact Hx]. rewrite <- El, <- !app_assoc. reflexivity.
    + destruct (IH n l f1 found (f2 ++ [n]) Hn ltac:(lia)) as (l1 & x & l2 & E & El & Hx).
      * rewrite app_comm_cons, app_assoc, last_snoc. reflexivity.
      * apply best_worse; assumption.
      * exists l1, x, l2. split; [exact E|]. split; [|exact Hx]. rewrite <- El, <- !app_assoc. cbn. rewrite <- app_assoc. reflexivity.
Qed.

(** Storing what follows [x] at the place that points to it takes it out of the list. *)
Lemma store_unlink h first l1 x l2 :
  linked h first (l1 ++ x :: l2) -> NoDup (l1 ++ x :: l2) ->
  exists first' h', store (place_of l1) (next_of h x) first h = (first', h') /\
    linked h' first' (l1 ++ l2) /\ relinked h h' /\ next_of h' x = next_of h x.
Proof.
  intros Hl Hnd. destruct l1 as [|y l1 _] using rev_ind.
  - destruct Hl as (_ & _ & Hl). eexists _, _. split; [reflexivity|]. auto using relinked_refl.
  - unfold place_of. rewrite last_snoc. cbn [store]. eexists _, _. split; [reflexivity|]. rewrite <- app_assoc in *. cbn [app] in *.
    split; [apply linked_unlink; assumption|]. split; [apply relinked_set|]. apply next_set_ne. intros ->.
    rewrite (Permutation_app_comm l1) in Hnd. cbn in Hnd. apply NoDup_cons in Hnd as [Hnd _]. apply Hnd. left.
Qed.

(** The thread [schedule] takes out of [l1 ++ x :: l2]. *)
Definition chosen (protocol : Z) (h : heap) (l1 : list nat) (x : nat) (l2 : list nat) : Prop :=
  if protocol =? SYS_SYNC_FIFO then l2 = [] else best h l1 x l2.

Lemma rev_parent (l : list nat) i : exists l1 x, i :: l = l1 ++ [x] /\
  match rev (i :: l) with x :: y :: _ => (Link y, x) | _ => (Head, i) end = (place_of l1, x).
Proof.
  destruct (exists_last (l := i :: l) ltac:(discriminate)) as (l1 & x & E). exists l1, x. split; [exact E|]. rewrite E, rev_app_distr. cbn [rev app].
  destruct l1 as [|y l1 _] using rev_ind; [cbn in *; congruence|]. rewrite rev_app_distr. cbn [rev app].
  unfold place_of. rewrite last_snoc. reflexivity.
Qed.

Lemma schedule_spec fuel protocol first l h :
  linked h first l -> NoDup l -> (length l <= fuel)%nat -> l <> [] -> (forall i, i ∈ l -> flag again h i = false) ->
  exists x l1 l2 first' h', schedule fuel true protocol first h = (Some x, first', h') /\
    l = l1 ++ x :: l2 /\ chosen protocol h l1 x l2 /\
    linked h' first' (l1 ++ l2) /\ next_of h' x = None /\ relinked h h'.
Proof.
  intros Hl Hnd Hf Hne Ha. destruct l as [|i l]; [contradiction|]. pose proof Hl as (-> & _). cbn in Hf.
  unfold schedule, chosen. destruct (protocol =? SYS_SYNC_FIFO).
  - rewrite (fifo_loop_spec fuel Head i l h Hl) by lia. destruct (rev_parent l i) as (l1 & x & E & ->).
    rewrite E in *. rewrite Ha by (apply elem_of_app; right; left). cbn [negb].
    destruct (store_unlink h (Some i) l1 x [] Hl Hnd) as (first' & h' & Es & Hl' & Hr & Hn).
    assert (next_of h x = None) as Ex by (apply linked_next in Hl; exact Hl). rewrite Ex in Es. rewrite Es.
    exists x, l1, [], first', h'. repeat split; auto. congruence.
  - destruct (prio_loop_spec fuel i l h [] i [] Hl ltac:(lia) eq_refl) as (l1 & x & l2 & E & El & Hb).
    { split; intros y Hy; apply elem_of_nil in Hy as []. }
    cbn [app] in El. change (place_of []) with Head in E. rewrite E. rewrite El in *.
    rewrite Ha by (apply elem_of_app; right; left). cbn [negb].
    destruct (store_unlink h (Some i) l1 x l2 Hl Hnd) as (first' & h' & Es & Hl' & Hr & Hn). rewrite Es.
    assert (x ∉ l1 ++ l2) as Hx by (clear -Hnd; rewrite (Permutation_app_comm l1) in Hnd; cbn in Hnd; apply NoDup_cons in Hnd as [Hx _]; set_solver).
    exists x, l1, l2, first', (set_next h' x None). split; [reflexivity|]. split; [reflexivity|]. split; [exact Hb|].
    split; [apply linked_set; assumption|]. split.
    + apply next_set_eq, (relinked_some h); [exact Hr|]. eapply linked_some; [exact Hl|]. apply elem_of_app. right. left.
    + eapply relinked_trans; [exact Hr|apply relinked_set].
Qed.

(** ** emplace and walks *)

Lemma emplace_spec tag first l object h :
  linked h first l -> object ∉ l -> is_Some (h !! object) ->
  exists h', emplace tag first object h = (Some object, h') /\ linked h' (Some object) (object :: l) /\
    (forall i, i <> object -> h' !! i = h !! i) /\
    h' !! object = (fun c => with_next first (if preserve_bit c then with_order (order c) false c else with_order (sint 50 tag) false c)) <$> h !! object.
Proof.
  intros Hl Ho [c Hc]. unfold emplace, set_next. eexists. split; [reflexivity|].
  set (h' := alter _ object (alter _ object h)).
  assert (forall i, i <> object -> h' !! i = h !! i) as Hne by (intros i Hi; unfold h'; rewrite !lookup_alter_ne by congruence; reflexivity).
  assert (h' !! object = (fun c => with_next first (if preserve_bit c then with_order (order c) false c else with_order (sint 50 tag) false c)) <$> h !! object) as Eo.
  { unfold h'. rewrite !lookup_alter_eq, Hc. cbn. destruct c as [n p o [] a s su st sl]; reflexivity. }
  split; [|auto]. cbn [linked]. split; [reflexivity|]. rewrite Eo, Hc. split; [eauto|].
  assert (next_of h' object = first) as -> by (unfold next_of; rewrite Eo, Hc; destruct c as [n p o [] a s su st sl]; reflexivity).
  revert Hl. apply linked_frame. intros i Hi. assert (i <> object) as Hio by (intros ->; contradiction).
  unfold next_of. rewrite (Hne i Hio). auto.
Qed.

Lemma in_queue_spec fuel first l P h :
  linked h first l -> (length l <= fuel)%nat -> in_queue fuel first P h = existsb P l.
Proof.
  revert first l. induction fuel as [|fuel IH]; intros first l Hl Hf; [destruct l; [reflexivity|cbn in Hf; lia]|].
  cbn [in_queue]. destruct l as [|i l]; [cbn in Hl; subst; reflexivity|]. destruct Hl as (-> & _ & Hl). cbn.
  rewrite (IH _ l Hl) by (cbn in Hf; lia). reflexivity.
Qed.

(** Later threads have the larger tags: the tags fall along the list. *)
Definition entered (h : heap) (l : list nat) : Prop :=
  forall l1 x l2 y, l = l1 ++ x :: l2 -> y ∈ l2 -> snd (prio_of h y) < snd (prio_of h x).

(** C38: the wait queue.  On a list of threads in the heap, with fuel for its length, the pointer
    operations do what a queue does: [emplace] puts a thread in front and gives it the new tag,
    [unqueue] takes a thread of the list out and leaves the others, and of no other list;
    [schedule] of a list of running threads always finds one, which is the first that entered
    under SYS_SYNC_FIFO, and otherwise one of the highest priority (the least number), such that
    none of the same priority entered before it. *)
Theorem queue_operations fuel tag protocol first l h object :
  linked h first l -> NoDup l -> (length l <= fuel)%nat ->
  (object ∉ l -> is_Some (h !! object) -> exists h', emplace tag first object h = (Some object, h') /\
     linked h' (Some object) (object :: l) /\ (forall i, i <> object -> h' !! i = h !! i) /\
     (flag preserve_bit h object = false -> snd (prio_of h' object) = sint 50 tag)) /\
  (object ∉ l -> unqueue fuel true first object h = (None, first, h)) /\
  (forall l1 l2, l = l1 ++ object :: l2 -> exists first' h', unqueue fuel true first object h = (Some object, first', h') /\
     linked h' first' (l1 ++ l2) /\ next_of h' object = None /\ relinked h h') /\
  (l <> [] -> (forall i, i ∈ l -> flag again h i = false) ->
   exists x l1 l2 first' h', schedule fuel true protocol first h = (Some x, first', h') /\
     l = l1 ++ x :: l2 /\ linked h' first' (l1 ++ l2) /\ next_of h' x = None /\ relinked h h' /\
     (protocol = SYS_SYNC_FIFO -> l2 = []) /\
     (protocol <> SYS_SYNC_FIFO -> entered h l ->
      (forall y, y ∈ l1 -> fst (prio_of h x) <= fst (prio_of h y)) /\
      (forall y, y ∈ l2 -> fst (prio_of h x) < fst (prio_of h y)))).
Proof.
  intros Hl Hnd Hf. destruct (unqueue_spec fuel first l object h Hl Hnd Hf) as [Hu1 Hu2].
  split; [|split; [exact Hu1|split; [exact Hu2|]]].
  - intros Ho Hs. destruct (emplace_spec tag first l object h Hl Ho Hs) as (h' & E & Hl' & Hne & Eo).
    exists h'. repeat (split; [assumption|]). destruct Hs as [c Hc]. unfold flag, prio_of. rewrite Eo, Hc. cbn. intros ->. reflexivity.
  - intros Hne Ha. destruct (schedule_spec fuel protocol first l h Hl Hnd Hf Hne Ha) as (x & l1 & l2 & first' & h' & E & El & Hc & Hl' & Hn & Hr).
    exists x, l1, l2, first', h'. repeat (split; [assumption|]). unfold chosen in Hc. destruct (Z.eqb_spec protocol SYS_SYNC_FIFO) as [->|Hp].
    + split; [auto|contradiction].
    + split; [contradiction|]. intros _ He. destruct Hc as [H1 H2]. split; intros y Hy.
      * specialize (H1 y Hy). rewrite before_true in H1. lia.
      * specialize (H2 y Hy). rewrite before_false in H2. specialize (He l1 x l2 y El Hy). lia.
Qed.

(** Three threads: 1 and 2 of one priority, 0 of a lower one; 1 entered first. *)
Definition sample_cpu (n : option nat) (p o : Z) : cpu := mk_cpu n p o false false false true false true.
Definition sample_heap : heap := {[0%nat := sample_cpu (Some 2%nat) 900 7; 2%nat := sample_cpu (Some 1%nat) 500 6; 1%nat := sample_cpu None 500 5]}.

Lemma queue_operations_witness :
  linked sample_heap (Some 0%nat) [0; 2; 1]%nat /\
  exists x l1 l2 first' h', schedule 3 true SYS_SYNC_PRIORITY (Some 0%nat) sample_heap = (Some x, first', h') /\
    [0; 2; 1]%nat = l1 ++ x :: l2 /\ x = 1%nat.
Proof.
  assert (linked sample_heap (Some 0%nat) [0; 2; 1]%nat) as Hl by (vm_compute; repeat split; eauto).
  split; [exact Hl|].
  destruct (queue_operations 3 0 SYS_SYNC_PRIORITY (Some 0%nat) [0; 2; 1]%nat sample_heap 0 Hl) as (_ & _ & _ & H).
  - repeat constructor; set_solver.
  - cbn. lia.
  - destruct H as (x & l1 & l2 & first' & h' & E & El & _); [discriminate| |].
    + intros i Hi. repeat (apply elem_of_cons in Hi as [->|Hi]; [vm_compute; reflexivity|]). apply elem_of_nil in Hi as [].
    + exists x, l1, l2, first', h'. split; [exact E|]. split; [exact El|]. vm_compute in E. congruence.
Defined.
