(* ===== verification/Lv2Sys.v ===== *)
(** * System calls of many threads on one kernel object

    A system call is a machine that goes from point to point, one atomic action on the object
    each; [lv2_step] interleaves the calls of any number of threads.  What a step does for the
    contract of the object (a unit taken, units added) and a call's return are its labels. *)

From Stdlib Require Import ZArith Lia Bool.
From stdpp Require Import base numbers list option.
From S2P Require Import Prelude.

Section Machine.
Context {Call Point Obj Effect Event : Type}.

(** [entry]: where a call begins.  [result]: the code a call has returned with, if it has.
    [act i expired p o]: thread [i] at [p]; [expired] is whether its time limit has passed;
    [None] if it has to wait for a lock.  [happen e i o]: what happens to thread [i] from
    outside, if it can.  [running]: the thread may begin a call. *)
Context (entry : Call -> Point) (result : Point -> option Z)
  (act : nat -> bool -> Point -> Obj -> option (Point * Obj * list Effect))
  (happen : Event -> nat -> Obj -> option Obj) (running : nat -> Obj -> bool).

Inductive label := Did (e : Effect) | Returned (i : nat) (c : Call) (code : Z).

Definition thread : Type := Call * Point.
Definition sys : Type := list thread * Obj.

Definition returned (i : nat) (t : thread) : list label :=
  match result (snd t) with Some code => [Returned i (fst t) code] | None => [] end.

Inductive lv2_step : sys -> list label -> sys -> Prop :=
| act_step ts o i c p expired p' o' es :
    ts !! i = Some (c, p) -> result p = None -> act i expired p o = Some (p', o', es) ->
    lv2_step (ts, o) (map Did es ++ returned i (c, p')) (<[i := (c, p')]> ts, o')
| call_step ts o i c p code c' :
    ts !! i = Some (c, p) -> result p = Some code -> running i o = true ->
    lv2_step (ts, o) [] (<[i := (c', entry c')]> ts, o)
| event_step ts o i t e o' :
    ts !! i = Some t -> happen e i o = Some o' -> lv2_step (ts, o) [] (ts, o').

Inductive lv2_steps (s : sys) : list label -> sys -> Prop :=
| lv2_none : lv2_steps s [] s
| lv2_more tr s' l s'' : lv2_steps s tr s' -> lv2_step s' l s'' -> lv2_steps s (tr ++ l) s''.

(** An invariant of the trace and the state. *)
Lemma lv2_invariant (I : list label -> sys -> Prop) s0 :
  I [] s0 -> (forall tr s l s', I tr s -> lv2_step s l s' -> I (tr ++ l) s') ->
  forall tr s, lv2_steps s0 tr s -> I tr s.
Proof. intros H0 H tr s Hs. induction Hs; eauto. Qed.

(** Schedules, to run examples. *)
Inductive move := Act (i : nat) | Expire (i : nat) | Happen (e : Event) (i : nat) | Begin (i : nat) (c : Call).
Definition do_move (m : move) (s : sys) : option (list label * sys) :=
  let run i expired :=
    match fst s !! i with
    | Some (c, p) =>
        match result p, act i expired p (snd s) with
        | None, Some (p', o', es) => Some (map Did es ++ returned i (c, p'), (<[i := (c, p')]> (fst s), o'))
        | _, _ => None
        end
    | None => None
    end in
  match m with
  | Act i => run i false
  | Expire i => run i true
  | Happen e i => match fst s !! i, happen e i (snd s) with Some _, Some o' => Some ([], (fst s, o')) | _, _ => None end
  | Begin i c' => match fst s !! i with
                  | Some (c, p) => match result p with
                                   | Some _ => if running i (snd s) then Some ([], (<[i := (c', entry c')]> (fst s), snd s)) else None
                                   | None => None
                                   end
                  | None => None
                  end
  end.
Fixpoint do_moves (ms : list move) (s : sys) : option (list label * sys) :=
  match ms with
  | [] => Some ([], s)
  | m :: ms => match do_move m s with
               | Some (l, s') => match do_moves ms s' with Some (tr, s'') => Some (l ++ tr, s'') | None => None end
               | None => None
               end
  end.

Lemma lv2_move m s l s' : do_move m s = Some (l, s') -> lv2_step s l s'.
Proof.
  destruct s as [ts o], m as [i|i|e i|i c']; cbn; destruct (ts !! i) as [[c p]|] eqn:E; try discriminate.
  1,2: destruct (result p) as [code|] eqn:Er; try discriminate;
       match goal with |- context [act ?i ?b ?p ?o] => destruct (act i b p o) as [[[p' o'] es]|] eqn:Ea end; try discriminate;
       intros [= <- <-]; eapply act_step; eauto.
  - destruct (happen e i o) eqn:Eh; [|discriminate]. intros [= <- <-]. eapply event_step; eauto.
  - destruct (result p) as [code|] eqn:Er; [|discriminate]. destruct (running i o) eqn:Ers; [|discriminate].
    intros [= <- <-]. eapply call_step; eauto.
Qed.

Lemma lv2_moves ms s0 tr0 s tr s' : lv2_steps s0 tr0 s -> do_moves ms s = Some (tr, s') -> lv2_steps s0 (tr0 ++ tr) s'.
Proof.
  revert s tr tr0. induction ms as [|m ms IH]; intros s tr tr0 H0 E; cbn in E.
  - injection E as <- <-. rewrite app_nil_r. exact H0.
  - destruct (do_move m s) as [[l s1]|] eqn:Em; [|discriminate].
    destruct (do_moves ms s1) as [[tr1 s2]|] eqn:Ems; [|discriminate]. injection E as <- <-.
    rewrite app_assoc. eapply IH; [|exact Ems]. eapply lv2_more; [exact H0|]. exact (lv2_move _ _ _ _ Em).
Qed.

Lemma lv2_schedule ms s tr s' : do_moves ms s = Some (tr, s') -> lv2_steps s tr s'.
Proof. exact (lv2_moves ms s [] s tr s' (lv2_none s)). Qed.
End Machine.
Arguments label : clear implicits.
Arguments thread : clear implicits.
Arguments sys : clear implicits.
Arguments move : clear implicits.

(** ** Counting along a list of threads *)

Fixpoint tally {A} (f : A -> bool) (l : list A) : nat :=
  match l with [] => 0%nat | x :: l => ((if f x then 1 else 0) + tally f l)%nat end.

Lemma tally_app {A} (f : A -> bool) l l' : tally f (l ++ l') = (tally f l + tally f l')%nat.
Proof. induction l; cbn; lia. Qed.

Lemma tally_insert {A} (f : A -> bool) l i x y :
  l !! i = Some x -> (tally f (<[i := y]> l) + (if f x then 1 else 0) = tally f l + (if f y then 1 else 0))%nat.
Proof.
  revert i. induction l as [|z l IH]; intros [|i] E; try discriminate.
  - injection E as ->. cbn. destruct (f x), (f y); lia.
  - change (<[S i := y]> (z :: l)) with (z :: <[i := y]> l). cbn [tally]. specialize (IH i E). destruct (f x), (f y), (f z); lia.
Qed.

Lemma tally_none {A} (f : A -> bool) l : tally f l = 0%nat <-> forall x, x ∈ l -> f x = false.
Proof.
  induction l as [|x l IH]; cbn; [split; [intros _ y Hy; apply elem_of_nil in Hy as []|reflexivity]|].
  split.
  - intros E y [->|Hy]%elem_of_cons; [destruct (f x); [lia|reflexivity]|]. apply IH; [lia|exact Hy].
  - intros H. rewrite (H x) by left. apply IH. intros y Hy. apply H. right. exact Hy.
Qed.

(** Counting by a number below [n] that each counted element carries. *)
Fixpoint total (f : nat -> nat) (n : nat) : nat := match n with O => 0%nat | S n => (f n + total f n)%nat end.

Lemma total_add f g n : total (fun i => f i + g i)%nat n = (total f n + total g n)%nat.
Proof. induction n; cbn; lia. Qed.
Lemma total_ext f g n : (forall i, (i < n)%nat -> f i = g i) -> total f n = total g n.
Proof. induction n as [|n IH]; intros H; cbn; [reflexivity|]. rewrite (H n) by lia. rewrite IH; [reflexivity|]. intros i Hi. apply H. lia. Qed.
Lemma total_mono f g n : (forall i, (i < n)%nat -> (f i <= g i)%nat) -> (total f n <= total g n)%nat.
Proof. induction n as [|n IH]; intros H; cbn; [lia|]. pose proof (H n ltac:(lia)). enough (total f n <= total g n)%nat by lia. apply IH. intros i Hi. apply H. lia. Qed.
Lemma total_one k b n : total (fun i => if b && bool_decide (k = i) then 1 else 0)%nat n = (if b && bool_decide (k < n)%nat then 1 else 0)%nat.
Proof.
  induction n as [|n IH]; cbn [total]; [rewrite bool_decide_eq_false_2 by lia; destruct b; reflexivity|]. rewrite IH.
  destruct b; [cbn|reflexivity]. repeat case_bool_decide; lia.
Qed.

Lemma tally_total {A} (f : A -> bool) (key : A -> nat) (g : nat -> A -> bool) l n :
  (forall x, x ∈ l -> f x = true -> (key x < n)%nat) -> (forall i x, g i x = f x && bool_decide (key x = i)) ->
  tally f l = total (fun i => tally (g i) l) n.
Proof.
  intros Hk Hg. induction l as [|x l IH]; cbn [tally].
  - clear. induction n; cbn; auto.
  - rewrite total_add, <- IH by (intros y Hy; apply Hk; right; exact Hy). f_equal.
    erewrite total_ext by (intros i _; rewrite Hg; reflexivity). rewrite total_one.
    specialize (Hk x ltac:(left)). destruct (f x); [|reflexivity]. rewrite bool_decide_eq_true_2 by auto. reflexivity.
Qed.
