(* ===== verification/Lv2Sema.v ===== *)
(** * Semaphores (Emu/Cell/lv2/sys_semaphore.cpp, sys_semaphore.h)

    [lv2_sema] counts units in [val]; below zero it counts the threads that wait in its queue
    [sq], which its [mutex] protects.  Waiting and posting have fast paths that change [val]
    without the mutex.  Each system call is a machine of atomic actions (Lv2Sys): reads and
    compare-and-swaps of [val], taking a lock, and what is done under the mutex, an action for
    each access to what others see without it; releasing a lock is part of the action before.

    Around the object: whether its id is in the id manager and how many calls hold the
    manager's lock shared ([idm::get] and [idm::check] run their function under it,
    [idm::withdraw] under the exclusive one); the threads, with the flags of their state; and
    the counter of queue tags.  Of the scheduler (Lv2Sched) there is what it does to one thread:
    [sleep], [awake], and [scheduled] when the thread's turn has come (Lv2Run shows that
    only suspended threads of the run queue are signalled).  Preemption of the caller in the
    middle of a call is left out: a preempted thread is not signalled before it acknowledges. *)

From Stdlib Require Import ZArith Lia Bool.
From stdpp Require Import base numbers list option gmap sets.
From S2P Require Import Prelude GuestMem Lv2Queue Lv2Sys.
#[local] Set Warnings "-clear-no-such-hyp".

Definition CELL_EAGAIN : Z := s32 0x80010001.
Definition CELL_ESRCH : Z := s32 0x80010005.
Definition CELL_EBUSY : Z := s32 0x8001000A.
Definition CELL_ETIMEDOUT : Z := s32 0x8001000B.

Record lv2_sema := mk_sema {
  protocol : Z; max : Z; val : Z; mutex : option nat; sq : option nat;
  exists_id : bool; idm_readers : nat; cpus : heap; g_priority_order_tag : Z
}.

Definition with_val (v : Z) (o : lv2_sema) : lv2_sema :=
  mk_sema (protocol o) (max o) v (mutex o) (sq o) (exists_id o) (idm_readers o) (cpus o) (g_priority_order_tag o).
Definition with_mutex (m : option nat) (o : lv2_sema) : lv2_sema :=
  mk_sema (protocol o) (max o) (val o) m (sq o) (exists_id o) (idm_readers o) (cpus o) (g_priority_order_tag o).
Definition with_queue (p : option nat) (h : heap) (o : lv2_sema) : lv2_sema :=
  mk_sema (protocol o) (max o) (val o) (mutex o) p (exists_id o) (idm_readers o) h (g_priority_order_tag o).
Definition with_idm (n : nat) (o : lv2_sema) : lv2_sema :=
  mk_sema (protocol o) (max o) (val o) (mutex o) (sq o) (exists_id o) n (cpus o) (g_priority_order_tag o).
Definition next_tag (o : lv2_sema) : lv2_sema :=
  mk_sema (protocol o) (max o) (val o) (mutex o) (sq o) (exists_id o) (idm_readers o) (cpus o) (g_priority_order_tag o + 1).
Definition withdrawn (o : lv2_sema) : lv2_sema :=
  mk_sema (protocol o) (max o) (val o) (mutex o) (sq o) false (idm_readers o) (cpus o) (g_priority_order_tag o).
Definition with_cpu (i : nat) (f : cpu -> cpu) (o : lv2_sema) : lv2_sema := with_queue (sq o) (alter f i (cpus o)) o.

(** The flags of a thread's state, and whether it is in the run queue. *)
Definition with_signal (b : bool) (c : cpu) : cpu :=
  mk_cpu (next_cpu c) (prio c) (order c) (preserve_bit c) (again c) b (suspend c) (stopped c) (asleep c).
Definition with_again (c : cpu) : cpu :=
  mk_cpu (next_cpu c) (prio c) (order c) (preserve_bit c) true (signal c) (suspend c) (stopped c) (asleep c).
Definition with_stopped (c : cpu) : cpu :=
  mk_cpu (next_cpu c) (prio c) (order c) (preserve_bit c) (again c) (signal c) (suspend c) true (asleep c).
Definition with_asleep (b : bool) (c : cpu) : cpu :=
  mk_cpu (next_cpu c) (prio c) (order c) (preserve_bit c) (again c) (signal c) (suspend c) (stopped c) b.

Definition with_suspend (b : bool) (c : cpu) : cpu :=
  mk_cpu (next_cpu c) (prio c) (order c) (preserve_bit c) (again c) (signal c) b (stopped c) (asleep c).

(** What the scheduler does to a thread: [sleep] suspends it and takes it out of the run queue,
    unless it is signalled; [awake] puts it back; when its turn has come it is signalled. *)
Definition sleep (c : cpu) : cpu := if signal c then c else with_asleep true (with_suspend true c).
Definition awake (c : cpu) : cpu := with_asleep false c.
Definition scheduled (c : cpu) : option cpu :=
  if suspend c && negb (asleep c) then Some (with_signal true (with_suspend false c)) else None.

Definition fuel (o : lv2_sema) : nat := size (cpus o).
Definition queued (i : nat) (o : lv2_sema) : bool := in_queue (fuel o) (sq o) (fun j => bool_decide (j = i)) (cpus o).
Definition any_again (o : lv2_sema) : bool := in_queue (fuel o) (sq o) (flag again (cpus o)) (cpus o).

(** ** The calls *)

Inductive call := Wait (timeout : Z) | TryWait | Post (n : Z) | GetValue (addr : Z) | Destroy.

(** [Idle code out]: the call has returned, with [out] stored for it.  [Again]: it has been
    given up for a saved state, the thread will run no more.  [Throwing]: [ensure] failed. *)
Inductive point :=
| Idle (code : Z) (out : option Z) | Again | Throwing
| WGet (t : Z) | WLoad (t : Z) | WCas (t v : Z) | WLock (t : Z) | WDec (t : Z) | WEnqueue (t : Z)
| WLoop (t : Z) | WStop (t : Z) | WCheck (t : Z) | WTime (t : Z) | WTimeVal (t : Z)
| TGet | GGet (addr : Z) | DGet
| PGet (n : Z) | PLoad (n : Z) | PCas (n v : Z) | PLock (n : Z) | PFetch (n : Z)
| PWake (k : nat) (woken : list nat) | PAwake (woken : list nat).

(** A unit given to a thread; units added. *)
Inductive effect := Token (i : nat) | Posted (n : Z).

Definition entry (c : call) : point :=
  match c with
  | Wait t => WGet t
  | TryWait => TGet
  | Post n => PGet (s32 n)
  | GetValue addr => GGet addr
  | Destroy => DGet
  end.
Definition result (p : point) : option Z := match p with Idle code _ => Some code | _ => None end.

(** Leave the function given to the id manager; take and release the object's mutex. *)
Definition leave (o : lv2_sema) : lv2_sema := with_idm (idm_readers o - 1) o.
Definition locked (i : nat) (o : lv2_sema) (k : lv2_sema -> point * lv2_sema * list effect)
  : option (point * lv2_sema * list effect) :=
  match mutex o with Some _ => None | None => Some (k (with_mutex (Some i) o)) end.
Definition unlock (o : lv2_sema) : lv2_sema := with_mutex None o.

(** [sys_semaphore_wait]. *)
Definition sys_semaphore_wait (i : nat) (expired : bool) (p : point) (o : lv2_sema)
  : option (point * lv2_sema * list effect) :=
  match p with
  | WGet t => Some (if exists_id o then (WLoad t, with_idm (idm_readers o + 1) o, []) else (Idle CELL_ESRCH None, o, []))
  | WLoad t => let v := val o in Some (if 0 <? v then WCas t v else WLock t, o, [])
  | WCas t v => Some (if val o =? v then (Idle CELL_OK None, leave (with_val (s32 (v - 1)) o), [Token i]) else (WLock t, o, []))
  | WLock t => locked i o (fun o => (WDec t, o, []))
  | WDec t =>
      let old := val o in
      let o := with_val (s32 (old - 1)) o in
      Some (if old <=? 0 then (WEnqueue t, o, []) else (Idle CELL_OK None, leave (unlock o), [Token i]))
  | WEnqueue t =>
      let o := next_tag (with_cpu i sleep o) in
      let '(first, h) := emplace (g_priority_order_tag o) (sq o) i (cpus o) in
      Some (WLoop t, leave (unlock (with_queue first h o)), [])
  | WLoop t =>
      Some (if flag signal (cpus o) i then (Idle CELL_OK None, with_cpu i (with_signal false) o, [])
            else if flag stopped (cpus o) i then (WStop t, o, [])
            else if negb (t =? 0) && expired then (WCheck t, o, [])
            else (WLoop t, o, []))
  | WStop t =>
      locked i o (fun o => if queued i o then (Again, unlock (with_cpu i with_again o), []) else (Idle CELL_OK None, unlock o, []))
  | WCheck t =>
      let o := with_cpu i (with_signal false) o in
      Some (if flag stopped (cpus o) i then (WLoop t, o, [])
            else if flag suspend (cpus o) i then (WCheck t, with_cpu i awake o, [])
            else (WTime t, o, []))
  | WTime t =>
      locked i o (fun o =>
        let '(r, first, h) := unqueue (fuel o) true (sq o) i (cpus o) in
        match r with
        | None => (Idle CELL_OK None, unlock o, [])
        | Some _ => (WTimeVal t, with_queue first h o, [])
        end)
  | WTimeVal t =>
      let old := val o in
      let o := if old <? 0 then with_val (s32 (old + 1)) o else o in
      Some (if old <? 0 then (Idle CELL_ETIMEDOUT None, unlock o, []) else (Throwing, o, []))
  | _ => None
  end.

(** [sys_semaphore_post]. *)
Definition sys_semaphore_post (i : nat) (p : point) (o : lv2_sema) : option (point * lv2_sema * list effect) :=
  match p with
  | PGet n => Some (if exists_id o then (PLoad n, with_idm (idm_readers o + 1) o, []) else (Idle CELL_ESRCH None, o, []))
  | PLoad n =>
      let v := val o in
      Some (if (0 <=? v) && (0 <? n) && (n <=? max o - v) then (PCas n v, o, [])
            else (if n <=? 0 then Idle CELL_EINVAL None else PLock n, leave o, []))
  | PCas n v =>
      Some (if val o =? v then (Idle CELL_OK None, leave (with_val (s32 (v + n)) o), [Posted n]) else (PLock n, leave o, []))
  | PLock n =>
      locked i o (fun o => if any_again o then (Again, unlock (with_cpu i with_again o), []) else (PFetch n, o, []))
  | PFetch n =>
      let v := val o in
      Some (if u32 n <=? u32 (u32 (max o) - v)
            then (PWake (Z.to_nat (Z.min (- Z.min v 0) n)) [], with_val (s32 (v + n)) o, [Posted n])
            else (Idle CELL_EBUSY None, unlock o, []))
  | PWake O woken => Some (PAwake woken, o, [])
  | PWake (S k) woken =>
      let '(r, first, h) := schedule (fuel o) true (protocol o) (sq o) (cpus o) in
      Some (match r with
            | None => (Throwing, o, [])
            | Some x => (PWake k (woken ++ [x]), with_queue first h o, [Token x])
            end)
  | PAwake [] => Some (Idle CELL_OK None, unlock o, [])
  | PAwake (x :: woken) => Some (PAwake woken, with_cpu x awake o, [])
  | _ => None
  end.

Definition sys_semaphore_trywait (i : nat) (o : lv2_sema) : point * lv2_sema * list effect :=
  if exists_id o then
    (if 0 <? val o then (Idle CELL_OK None, with_val (s32 (val o - 1)) o, [Token i]) else (Idle CELL_EBUSY None, o, []))
  else (Idle CELL_ESRCH None, o, []).

Definition sys_semaphore_get_value (count : Z) (o : lv2_sema) : point * lv2_sema * list effect :=
  (if exists_id o then (if count =? 0 then Idle CELL_EFAULT None else Idle CELL_OK (Some (Z.max 0 (val o)))) else Idle CELL_ESRCH None, o, []).

(** Under the exclusive lock of the id manager: when no call holds it shared. *)
Definition sys_semaphore_destroy (o : lv2_sema) : option (point * lv2_sema * list effect) :=
  if (0 <? idm_readers o)%nat then None
  else Some (if exists_id o then (if val o <? 0 then (Idle CELL_EBUSY None, o, []) else (Idle CELL_OK None, withdrawn o, []))
             else (Idle CELL_ESRCH None, o, [])).

Definition act (i : nat) (expired : bool) (p : point) (o : lv2_sema) : option (point * lv2_sema * list effect) :=
  match p with
  | WGet _ | WLoad _ | WCas _ _ | WLock _ | WDec _ | WEnqueue _ | WLoop _ | WStop _ | WCheck _ | WTime _ | WTimeVal _ =>
      sys_semaphore_wait i expired p o
  | PGet _ | PLoad _ | PCas _ _ | PLock _ | PFetch _ | PWake _ _ | PAwake _ => sys_semaphore_post i p o
  | TGet => Some (sys_semaphore_trywait i o)
  | GGet addr => Some (sys_semaphore_get_value addr o)
  | DGet => sys_semaphore_destroy o
  | Idle _ _ | Again | Throwing => None
  end.

(** From outside: the thread is told to stop; the scheduler gives it its turn. *)
Inductive event := Stopped | Scheduled.
Definition happen (e : event) (i : nat) (o : lv2_sema) : option lv2_sema :=
  match e with
  | Stopped => Some (with_cpu i with_stopped o)
  | Scheduled => match cpus o !! i with
                 | Some c => match scheduled c with Some c => Some (with_queue (sq o) (<[i := c]> (cpus o)) o) | None => None end
                 | None => None
                 end
  end.
Definition running (i : nat) (o : lv2_sema) : bool := negb (flag stopped (cpus o) i).

(** [sys_semaphore_create] of an unshared semaphore: the checks of its arguments, and the
    object the id manager is given; [threads] are the threads of the system. *)
Definition sys_semaphore_create (sem_id attr attr_protocol initial_val max_val : Z) (threads : heap) (tag : Z) : Z + lv2_sema :=
  if (sem_id =? 0) || (attr =? 0) then inl CELL_EFAULT
  else if (max_val <=? 0) || (max_val <? initial_val) || (initial_val <? 0) then inl CELL_EINVAL
  else if negb (attr_protocol =? SYS_SYNC_FIFO) && negb (attr_protocol =? SYS_SYNC_PRIORITY) then inl CELL_EINVAL
  else inr (mk_sema attr_protocol max_val initial_val None None true 0 threads tag).
