(* ===== verification/Lv2SemaSafe.v ===== *)
(** * Semaphores under all interleavings

    The invariant [inv] of the semaphore of Lv2Sema and of the threads that use it: [q] is the
    list of the queue in the heap; the value, the queue and the holder of the mutex agree; what
    the flags of a thread are at each point of its call; the units posted are those given, those
    left and those the holder still has to give.  Every action keeps it: those that touch the
    counters ([kept_counters]), those under the mutex that keep the queue ([kept_same]), and
    those that change the queue ([inv_critical]). *)

From Stdlib Require Import ZArith Lia Bool.
From stdpp Require Import base numbers list option gmap sets.
From S2P Require Import Prelude GuestMem Lv2Queue Lv2Sys Lv2Sema.
#[local] Set Warnings "-clear-no-such-hyp".

(** ** Invariant *)

Definition holds (p : point) : bool :=
  match p with WDec _ | WEnqueue _ | WTimeVal _ | PFetch _ | PWake _ _ | PAwake _ => true | _ => false end.
Definition in_idm (p : point) : bool :=
  match p with WLoad _ | WCas _ _ | WLock _ | WDec _ | WEnqueue _ | PLoad _ | PCas _ _ => true | _ => false end.
Definition waiting (p : point) : bool := match p with WLoop _ | WStop _ | WCheck _ | WTime _ => true | _ => false end.

(** How far the value is ahead of the queue; the threads to wake; the threads taken from the
    queue that the scheduler has not been told of. *)
Definition ahead (p : point) : Z := match p with WEnqueue _ | WTimeVal _ => 1 | PWake k _ => - Z.of_nat k | _ => 0 end.
Definition to_wake (p : point) : Z := match p with PWake k _ => Z.of_nat k | _ => 0 end.
Definition pending (p : point) : list nat := match p with PWake _ w | PAwake w => w | _ => [] end.
Definition scanned (p : point) : bool := match p with PFetch _ | PWake _ _ => true | _ => false end.

Definition at_call (c : call) (p : point) : bool :=
  match c, p with
  | _, (Idle _ _ | Again) => true
  | Wait _, (WGet _ | WLoad _ | WCas _ _ | WLock _ | WDec _ | WEnqueue _ | WLoop _ | WStop _ | WCheck _ | WTime _ | WTimeVal _) => true
  | TryWait, TGet | GetValue _, GGet _ | Destroy, DGet => true
  | Post _, (PGet _ | PLoad _ | PCas _ _ | PLock _ | PFetch _ | PWake _ _ | PAwake _) => true
  | _, _ => false
  end.

(** What the arguments of a point are known to be. *)
Definition args_ok (o : lv2_sema) (p : point) : Prop :=
  match p with
  | WCas _ v => 0 < v <= max o
  | PCas n v => 0 <= v /\ 0 < n /\ n <= max o - v
  | PGet n | PLoad n => -2147483648 <= n < 2147483648
  | PLock n | PFetch n => 0 < n < 2 ^ 31
  | Throwing => False
  | _ => True
  end.

(** A thread that runs, one that sleeps, and one that the scheduler has to give its turn or has
    given it. *)
Definition runs (h : heap) (i : nat) : Prop := flag asleep h i = false /\ flag suspend h i = false /\ flag signal h i = false.
Definition sleeps (h : heap) (i : nat) : Prop := flag asleep h i = true /\ flag suspend h i = true /\ flag signal h i = false.
Definition woken (h : heap) (i : nat) : Prop := flag asleep h i = false /\ flag suspend h i = negb (flag signal h i).

(** The flags of thread [i] at point [p], when [q] is the queue and [w] are pending. *)
Definition flags_ok (q w : list nat) (h : heap) (i : nat) (p : point) : Prop :=
  match p with
  | Again => flag again h i = true
  | WLoop _ => flag stopped h i = true \/ (if decide (i ∈ w ++ q) then sleeps h i else woken h i)
  | WStop _ => flag stopped h i = true
  | WCheck _ => flag stopped h i = true \/ (if flag suspend h i then flag signal h i = false else flag asleep h i = false)
  | WTime _ => runs h i
  | Idle _ _ => flag stopped h i = true \/ ((i ∉ q) /\ runs h i)
  | _ => (i ∉ q) /\ runs h i
  end.

(** The threads pending with the holder of the mutex. *)
Definition pending_of (ts : list (thread call point)) (o : lv2_sema) : list nat :=
  match mutex o with
  | Some k => match ts !! k with Some (_, p) => pending p | None => [] end
  | None => []
  end.
Definition ahead_of (ts : list (thread call point)) (o : lv2_sema) : Z :=
  match mutex o with
  | Some k => match ts !! k with Some (_, p) => ahead p | None => 0 end
  | None => 0
  end.
Definition to_wake_of (ts : list (thread call point)) (o : lv2_sema) : Z :=
  match mutex o with
  | Some k => match ts !! k with Some (_, p) => to_wake p | None => 0 end
  | None => 0
  end.

(** Units added and given along a trace, and the successful waits of a thread. *)
Fixpoint posted (tr : list (label call effect)) : Z :=
  match tr with [] => 0 | Did (Posted n) :: tr => n + posted tr | _ :: tr => posted tr end.
Definition is_token (l : label call effect) : bool := match l with Did (Token _) => true | _ => false end.
Definition is_token_of (i : nat) (l : label call effect) : bool :=
  match l with Did (Token j) => bool_decide (j = i) | _ => false end.
Definition is_wait (c : call) : bool := match c with Wait _ | TryWait => true | _ => false end.
Definition is_success (i : nat) (l : label call effect) : bool :=
  match l with Returned j c code => bool_decide (j = i) && is_wait c && (code =? CELL_OK) | _ => false end.

Definition owed (q : list nat) (i : nat) (p : point) : nat := if waiting p && negb (bool_decide (i ∈ q)) then 1 else 0.

Record inv (n : nat) (init : Z) (tr : list (label call effect)) (s : sys call point lv2_sema) (q : list nat) : Prop := mk_inv {
  i_len : length (fst s) = n;
  i_dom : dom (cpus (snd s)) = set_seq 0 n;
  i_linked : linked (cpus (snd s)) (sq (snd s)) q;
  i_nodup : NoDup (pending_of (fst s) (snd s) ++ q);
  i_mutex : forall i c p, fst s !! i = Some (c, p) -> holds p = true <-> mutex (snd s) = Some i;
  i_owner : forall i, mutex (snd s) = Some i -> is_Some (fst s !! i);
  i_balance : Z.max 0 (- val (snd s)) = Z.of_nat (length q) + ahead_of (fst s) (snd s);
  i_max : 0 < max (snd s) < 2 ^ 31 /\ val (snd s) <= max (snd s);
  i_scan : forall i c p j, fst s !! i = Some (c, p) -> scanned p = true -> j ∈ q -> flag again (cpus (snd s)) j = false;
  i_idm : idm_readers (snd s) = tally (fun t => in_idm (snd t)) (fst s);
  i_dead : exists_id (snd s) = false -> 0 <= val (snd s) /\ idm_readers (snd s) = 0%nat;
  i_thread : forall i c p, fst s !! i = Some (c, p) ->
    at_call c p = true /\ args_ok (snd s) p /\ flags_ok q (pending_of (fst s) (snd s)) (cpus (snd s)) i p;
  i_units : init + posted tr = Z.of_nat (tally is_token tr) + Z.max 0 (val (snd s)) + to_wake_of (fst s) (snd s);
  i_owed : forall i c p, fst s !! i = Some (c, p) -> flag stopped (cpus (snd s)) i = false ->
    tally (is_token_of i) tr = (tally (is_success i) tr + owed q i p)%nat
}.

(** ** Steps that keep the queue *)

Lemma posted_app l l' : posted (l ++ l') = posted l + posted l'.
Proof. induction l as [|[[i|n]|i c code] l IH]; cbn [posted app]; lia. Qed.

(** A fact about every thread after one has moved. *)
Lemma threads_update (R : nat -> call -> point -> Prop) (ts : list (thread call point)) i c p :
  is_Some (ts !! i) -> R i c p -> (forall j c' p', j <> i -> ts !! j = Some (c', p') -> R j c' p') ->
  forall j c' p', <[i := (c, p)]> ts !! j = Some (c', p') -> R j c' p'.
Proof.
  intros [t Ht] Hi Hj j c' p'. destruct (decide (j = i)) as [->|Hne].
  - rewrite list_lookup_insert_eq by (eapply lookup_lt_Some, Ht). intros [= <- <-]. exact Hi.
  - rewrite list_lookup_insert_ne by congruence. auto.
Qed.

(** What the holder of the mutex says is not changed by another thread. *)
Lemma holder_update {A} (f : point -> A) (d : A) (ts : list (thread call point)) (m : option nat) i t :
  m <> Some i ->
  match m with Some k => match <[i := t]> ts !! k with Some (_, p) => f p | None => d end | None => d end =
  match m with Some k => match ts !! k with Some (_, p) => f p | None => d end | None => d end.
Proof. intros Hm. destruct m as [k|]; [|reflexivity]. rewrite list_lookup_insert_ne by congruence. reflexivity. Qed.

(** The flags of a thread do not depend on the others. *)
Lemma flags_frame q w h h' i p : h' !! i = h !! i -> flags_ok q w h i p -> flags_ok q w h' i p.
Proof. intros E. unfold flags_ok, runs, sleeps, woken, flag. rewrite E. auto. Qed.

Lemma args_frame o o' p : max o' = max o -> args_ok o p -> args_ok o' p.
Proof. intros E. unfold args_ok. rewrite E. auto. Qed.

(** All cases of an action. *)
Ltac act_cases Ha :=
  repeat match type of Ha with
  | context [emplace ?a ?b ?c ?d] => destruct (emplace a b c d) as [? ?]
  | context [unqueue ?a ?b ?c ?d ?e] => destruct (unqueue a b c d e) as [[? ?] ?]
  | context [match ?x with _ => _ end] => destruct x
  end; try discriminate.

Section Steps.
Context (n : nat) (init : Z) (Hn : Z.of_nat n < 2 ^ 30).

Lemma inv_private tr ts o q i c p c' p' o' l :
  inv n init tr (ts, o) q -> ts !! i = Some (c, p) -> holds p = false -> holds p' = false ->
  mutex o' = mutex o -> max o' = max o -> sq o' = sq o -> dom (cpus o') = dom (cpus o) ->
  (forall j, next_of (cpus o') j = next_of (cpus o) j) -> (forall j, j <> i -> cpus o' !! j = cpus o !! j) ->
  flag again (cpus o') i = flag again (cpus o) i ->
  (val o' = val o \/ (0 <= val o /\ 0 <= val o' <= max o)) ->
  (idm_readers o' + (if in_idm p then 1 else 0) = idm_readers o + (if in_idm p' then 1 else 0))%nat ->
  (exists_id o' = false -> 0 <= val o' /\ idm_readers o' = 0%nat) ->
  at_call c' p' = true -> args_ok o' p' -> flags_ok q (pending_of ts o) (cpus o') i p' ->
  posted l = Z.of_nat (tally is_token l) + Z.max 0 (val o') - Z.max 0 (val o) ->
  (flag stopped (cpus o') i = false -> flag stopped (cpus o) i = false /\
     (tally (is_token_of i) l + owed q i p = tally (is_success i) l + owed q i p')%nat) ->
  (forall j, j <> i -> tally (is_token_of j) l = 0%nat /\ tally (is_success j) l = 0%nat) ->
  inv n init (tr ++ l) (<[i := (c', p')]> ts, o') q.
Proof.
  intros [I1 I2 I3 I4 I5 I6 I7 I8 I9 I10 I11 I12 I13 I14] Hi Hp Hp' Em Ex Es Ed Enx Ec Eag Hv Hidm Hdead Hcall Hargs Hfl Hpost Hown Hoth.
  cbn [fst snd] in *.
  assert (mutex o <> Some i) as Hmi by (intros E; apply (I5 i c p Hi) in E; congruence).
  assert (mutex o' <> Some i) as Hmi' by congruence.
  assert (forall A (f : point -> A) d, match mutex o' with Some k => match <[i := (c', p')]> ts !! k with Some (_, p) => f p | None => d end | None => d end =
            match mutex o with Some k => match ts !! k with Some (_, p) => f p | None => d end | None => d end) as Hh
    by (intros A f d; rewrite <- Em; apply holder_update, Hmi').
  assert (is_Some (ts !! i)) as Hsi by eauto.
  constructor; cbn [fst snd].
  - rewrite length_insert. exact I1.
  - congruence.
  - rewrite Es. revert I3. apply linked_frame. intros j _. split; [apply Enx|]. rewrite <- !elem_of_dom, Ed. auto.
  - unfold pending_of in *. rewrite Hh. exact I4.
  - rewrite Em. apply threads_update; [exact Hsi| |intros j cj pj Hne; apply I5]. split; [congruence|]. intros E. contradiction.
  - rewrite Em. intros k Hk. destruct (decide (k = i)) as [->|]; [contradiction|]. rewrite list_lookup_insert_ne by congruence. auto.
  - unfold ahead_of in *. rewrite Hh. destruct Hv as [->|[H1 H2]]; [exact I7|]. rewrite <- I7. lia.
  - rewrite Ex. destruct I8 as [H1 H2]. split; [exact H1|]. destruct Hv as [->|[_ H]]; [exact H2|lia].
  - intros k ck pk j Hk Hsc Hj. destruct (decide (k = i)) as [->|Hne].
    + rewrite list_lookup_insert_eq in Hk by (eapply lookup_lt_Some, Hi). injection Hk as <- <-. destruct p'; discriminate.
    + rewrite list_lookup_insert_ne in Hk by congruence. destruct (decide (j = i)) as [->|Hji].
      * rewrite Eag. eapply I9; eauto.
      * unfold flag. rewrite (Ec j Hji). eapply I9; eauto.
  - pose proof (tally_insert (fun t => in_idm (snd t)) ts i (c, p) (c', p') Hi) as Ht. cbn [snd] in Ht. rewrite I10 in Hidm.
    unfold thread in *. destruct (in_idm p), (in_idm p'); lia.
  - exact Hdead.
  - unfold pending_of in *. rewrite Hh. apply threads_update; [exact Hsi|auto|]. intros j cj pj Hne Hj.
    destruct (I12 j cj pj Hj) as (H1 & H2 & H3). split; [exact H1|]. split; [eapply args_frame; eauto|].
    eapply flags_frame; [apply Ec, Hne|exact H3].
  - unfold to_wake_of in *. rewrite Hh, posted_app, tally_app. lia.
  - apply (threads_update (fun j _ pj => flag stopped (cpus o') j = false ->
      tally (is_token_of j) (tr ++ l) = (tally (is_success j) (tr ++ l) + owed q j pj)%nat)); [exact Hsi| |].
    + intros Hs. destruct (Hown Hs) as [Hs' Hown']. rewrite !tally_app. specialize (I14 i c p Hi Hs'). lia.
    + intros j cj pj Hne Hj. unfold flag. rewrite (Ec j Hne). fold (flag stopped (cpus o) j). intros Hs.
      rewrite !tally_app. specialize (I14 j cj pj Hj Hs). specialize (Hoth j Hne). lia.
Qed.

(** ** Steps under the mutex *)

Lemma quiet_point p : holds p = false -> pending p = [] /\ ahead p = 0 /\ to_wake p = 0 /\ scanned p = false.
Proof. destruct p; cbn; auto; discriminate. Qed.

(** With the mutex free or in the hands of thread [i], no other thread has anything pending. *)
Lemma only_holder tr ts o q i c p :
  inv n init tr (ts, o) q -> ts !! i = Some (c, p) -> holds p = true \/ mutex o = None ->
  mutex o = (if holds p then Some i else None) /\ pending_of ts o = pending p /\ ahead_of ts o = ahead p /\
  to_wake_of ts o = to_wake p /\ (forall j cj pj, j <> i -> ts !! j = Some (cj, pj) -> holds pj = false).
Proof.
  intros I Hi Hc. pose proof (i_mutex _ _ _ _ _ I) as Hm. cbn [fst snd] in Hm.
  assert (mutex o = (if holds p then Some i else None)) as Em.
  { destruct (holds p) eqn:E; [apply (Hm i c p Hi), E|]. destruct Hc; congruence. }
  unfold pending_of, ahead_of, to_wake_of. rewrite Em. split; [reflexivity|].
  destruct (holds p) eqn:E; cbn [fst snd].
  - rewrite Hi. repeat split; auto. intros j cj pj Hne Hj. destruct (holds pj) eqn:Ej; [|reflexivity].
    apply (Hm j cj pj Hj) in Ej. congruence.
  - destruct (quiet_point p E) as (-> & -> & -> & _). repeat split; auto. intros j cj pj Hne Hj.
    destruct (holds pj) eqn:Ej; [|reflexivity]. apply (Hm j cj pj Hj) in Ej. congruence.
Qed.

Lemma inv_critical tr ts o q i c p p' o' q' l :
  inv n init tr (ts, o) q -> ts !! i = Some (c, p) -> holds p = true \/ mutex o = None ->
  mutex o' = (if holds p' then Some i else None) -> max o' = max o -> dom (cpus o') = dom (cpus o) ->
  linked (cpus o') (sq o') q' -> NoDup (pending p' ++ q') ->
  Z.max 0 (- val o') = Z.of_nat (length q') + ahead p' -> val o' <= max o ->
  (scanned p' = true -> forall j, j ∈ q' -> flag again (cpus o') j = false) ->
  (idm_readers o' + (if in_idm p then 1 else 0) = idm_readers o + (if in_idm p' then 1 else 0))%nat ->
  (exists_id o' = false -> 0 <= val o' /\ idm_readers o' = 0%nat) ->
  at_call c p' = true -> args_ok o' p' -> flags_ok q' (pending p') (cpus o') i p' ->
  (forall j cj pj, j <> i -> ts !! j = Some (cj, pj) -> holds pj = false ->
     flags_ok q (pending p) (cpus o) j pj -> flags_ok q' (pending p') (cpus o') j pj) ->
  posted l = Z.of_nat (tally is_token l) + Z.max 0 (val o') - Z.max 0 (val o) + to_wake p' - to_wake p ->
  (flag stopped (cpus o') i = false -> flag stopped (cpus o) i = false /\
     (tally (is_token_of i) l + owed q i p = tally (is_success i) l + owed q' i p')%nat) ->
  (forall j cj pj, j <> i -> ts !! j = Some (cj, pj) -> flag stopped (cpus o') j = false -> flag stopped (cpus o) j = false /\
     (tally (is_token_of j) l + owed q j pj = tally (is_success j) l + owed q' j pj)%nat) ->
  inv n init (tr ++ l) (<[i := (c, p')]> ts, o') q'.
Proof.
  intros I Hi Hc Em Ex Ed Hl Hnd Hbal Hmax Hscan Hidm Hdead Hcall Hargs Hfl Hoth Hpost Hown Howned.
  destruct (only_holder tr ts o q i c p I Hi Hc) as (Em0 & Ep & Ea & Ew & Hnone).
  destruct I as [I1 I2 I3 I4 I5 I6 I7 I8 I9 I10 I11 I12 I13 I14]. cbn [fst snd] in *.
  assert (is_Some (ts !! i)) as Hsi by eauto. assert (i < length ts)%nat as Hlt by (eapply lookup_lt_Some, Hi).
  assert (forall A (f : point -> A) d, (holds p' = false -> f p' = d) ->
            match mutex o' with Some k => match <[i := (c, p')]> ts !! k with Some (_, p) => f p | None => d end | None => d end = f p') as Hh.
  { intros A f d Hd. rewrite Em. destruct (holds p'); [rewrite list_lookup_insert_eq by exact Hlt; reflexivity|symmetry; auto]. }
  assert (pending_of (<[i := (c, p')]> ts) o' = pending p') as Ep' by (apply (Hh _ pending); intros E; apply (quiet_point p' E)).
  constructor; cbn [fst snd].
  - rewrite length_insert. exact I1.
  - congruence.
  - exact Hl.
  - rewrite Ep'. exact Hnd.
  - rewrite Em. apply threads_update; [exact Hsi| |].
    + destruct (holds p'); split; congruence.
    + intros j cj pj Hne Hj. rewrite (Hnone j cj pj Hne Hj). destruct (holds p'); split; congruence.
  - rewrite Em. intros k Hk. destruct (holds p'); [|discriminate]. injection Hk as <-. rewrite list_lookup_insert_eq by exact Hlt. eauto.
  - unfold ahead_of. rewrite (Hh _ ahead 0) by (intros E; apply (quiet_point p' E)). exact Hbal.
  - rewrite Ex. destruct I8 as [H1 H2]. split; [exact H1|exact Hmax].
  - intros k ck pk j Hk Hsc Hj. revert k ck pk Hk Hsc. apply (threads_update (fun k ck pk => scanned pk = true -> _)); [exact Hsi|auto|].
    intros k ck pk Hne Hk Hsc. destruct (quiet_point pk (Hnone k ck pk Hne Hk)) as (_ & _ & _ & E). congruence.
  - pose proof (tally_insert (fun t => in_idm (snd t)) ts i (c, p) (c, p') Hi) as Ht. cbn [snd] in Ht. rewrite I10 in Hidm.
    unfold thread in *. destruct (in_idm p), (in_idm p'); lia.
  - exact Hdead.
  - rewrite Ep'. apply threads_update; [exact Hsi|auto|]. intros j cj pj Hne Hj.
    destruct (I12 j cj pj Hj) as (H1 & H2 & H3). split; [exact H1|]. split; [eapply args_frame; eauto|].
    rewrite Ep in H3. eapply Hoth; eauto.
  - unfold to_wake_of. rewrite (Hh _ to_wake 0) by (intros E; apply (quiet_point p' E)). rewrite Ew in I13.
    rewrite posted_app, tally_app. lia.
  - apply (threads_update (fun j _ pj => flag stopped (cpus o') j = false ->
      tally (is_token_of j) (tr ++ l) = (tally (is_success j) (tr ++ l) + owed q' j pj)%nat)); [exact Hsi| |].
    + intros Hs. destruct (Hown Hs) as [Hs' Hown']. rewrite !tally_app. specialize (I14 i c p Hi Hs'). lia.
    + intros j cj pj Hne Hj Hs. destruct (Howned j cj pj Hne Hj Hs) as [Hs' Ho]. rewrite !tally_app. specialize (I14 j cj pj Hj Hs'). lia.
Qed.

Lemma inv_same tr ts o q i c p p' o' l :
  inv n init tr (ts, o) q -> ts !! i = Some (c, p) -> holds p = true \/ mutex o = None ->
  mutex o' = (if holds p' then Some i else None) -> max o' = max o -> sq o' = sq o -> dom (cpus o') = dom (cpus o) ->
  (forall j, next_of (cpus o') j = next_of (cpus o) j) -> (forall j, j <> i -> cpus o' !! j = cpus o !! j) ->
  pending p = [] -> pending p' = [] ->
  Z.max 0 (- val o') = Z.of_nat (length q) + ahead p' -> val o' <= max o ->
  (scanned p' = true -> forall j, j ∈ q -> flag again (cpus o') j = false) ->
  (idm_readers o' + (if in_idm p then 1 else 0) = idm_readers o + (if in_idm p' then 1 else 0))%nat ->
  (exists_id o' = false -> 0 <= val o' /\ idm_readers o' = 0%nat) ->
  at_call c p' = true -> args_ok o' p' -> flags_ok q [] (cpus o') i p' ->
  posted l = Z.of_nat (tally is_token l) + Z.max 0 (val o') - Z.max 0 (val o) + to_wake p' - to_wake p ->
  (flag stopped (cpus o') i = false -> flag stopped (cpus o) i = false /\
     (tally (is_token_of i) l + owed q i p = tally (is_success i) l + owed q i p')%nat) ->
  (forall j, j <> i -> tally (is_token_of j) l = 0%nat /\ tally (is_success j) l = 0%nat) ->
  inv n init (tr ++ l) (<[i := (c, p')]> ts, o') q.
Proof.
  intros I Hi Hc Em Ex Es Ed Enx Ec Ep Ep' Hbal Hmax Hscan Hidm Hdead Hcall Hargs Hfl Hpost Hown Hoth.
  destruct (only_holder tr ts o q i c p I Hi Hc) as (_ & Epo & _).
  eapply inv_critical; try eassumption.
  - rewrite Es. generalize (i_linked _ _ _ _ _ I). apply linked_frame. intros j _. split; [apply Enx|]. rewrite <- !elem_of_dom, Ed. auto.
  - rewrite Ep'. generalize (i_nodup _ _ _ _ _ I). cbn [fst snd]. rewrite Epo, Ep. auto.
  - rewrite Ep'. exact Hfl.
  - intros j cj pj Hne Hj _. rewrite Ep, Ep'. apply flags_frame, Ec, Hne.
  - intros j cj pj Hne Hj. unfold flag. rewrite (Ec j Hne). destruct (Hoth j Hne) as [-> ->]. auto.
Qed.

(** ** Sizes *)

Lemma queue_fits tr ts o q : inv n init tr (ts, o) q -> (length q <= fuel o)%nat /\ (length q <= n)%nat.
Proof.
  intros I. pose proof (i_dom _ _ _ _ _ I) as Hd. pose proof (i_nodup _ _ _ _ _ I) as Hnd. pose proof (i_linked _ _ _ _ _ I) as Hl.
  cbn [fst snd] in *. apply NoDup_app in Hnd as (_ & _ & Hnd).
  assert (fuel o = n) as E. { unfold fuel. rewrite <- size_dom, Hd, size_set_seq. reflexivity. }
  assert (length q <= n)%nat; [|lia].
  rewrite <- E. unfold fuel. rewrite <- size_dom, <- (size_list_to_set (C := gset nat) q Hnd). apply subseteq_size.
  intros j Hj. apply elem_of_list_to_set in Hj. apply elem_of_dom. eapply linked_some; eauto.
Qed.

Lemma val_bounds tr ts o q : inv n init tr (ts, o) q -> - 2 ^ 30 - 1 <= val o <= max o /\ 0 < max o < 2 ^ 31.
Proof.
  intros I. pose proof (queue_fits _ _ _ _ I) as [_ Hq]. pose proof (i_balance _ _ _ _ _ I) as Hb. pose proof (i_max _ _ _ _ _ I) as Hm.
  cbn [fst snd] in *. assert (ahead_of ts o <= 1); [|lia].
  unfold ahead_of. destruct (mutex o) as [k|]; [|lia]. destruct (ts !! k) as [[ck pk]|]; [|lia]. destruct pk; cbn; lia.
Qed.

(** ** The steps *)

Lemma others_quiet i c p' es :
  (forall j, Token j ∈ es -> j = i) ->
  forall j, j <> i -> tally (is_token_of j) (map Did es ++ returned result i (c, p')) = 0%nat /\
                      tally (is_success j) (map Did es ++ returned result i (c, p')) = 0%nat.
Proof.
  intros Hes j Hne. split; apply tally_none; intros x [(e & -> & He)%list_elem_of_fmap|Hx]%elem_of_app.
  - destruct e as [k|k]; cbn; [|reflexivity]. apply Hes in He as ->. apply bool_decide_eq_false. congruence.
  - unfold returned in Hx. destruct (result _); [|apply elem_of_nil in Hx as []]. apply list_elem_of_singleton in Hx as ->. reflexivity.
  - reflexivity.
  - unfold returned in Hx. destruct (result _); [|apply elem_of_nil in Hx as []]. apply list_elem_of_singleton in Hx as ->.
    cbn. rewrite bool_decide_eq_false_2 by congruence. reflexivity.
Qed.

Lemma next_with_cpu f i (h : heap) j : (forall c, next_cpu (f c) = next_cpu c) -> next_of (alter f i h) j = next_of h j.
Proof.
  intros Hf. unfold next_of. destruct (decide (i = j)) as [->|Hne]; [rewrite lookup_alter_eq|rewrite lookup_alter_ne by exact Hne; reflexivity].
  destruct (h !! j); cbn; auto.
Qed.
Lemma flag_with_cpu (g : cpu -> bool) f i (h : heap) : is_Some (h !! i) ->
  exists c, h !! i = Some c /\ flag g (alter f i h) i = g (f c).
Proof. intros [c E]. exists c. split; [exact E|]. unfold flag. rewrite lookup_alter_eq, E. reflexivity. Qed.
Lemma cpu_there tr ts o q i t : inv n init tr (ts, o) q -> ts !! i = Some t -> is_Some (cpus o !! i).
Proof.
  intros I Hi. apply elem_of_dom. rewrite (i_dom _ _ _ _ _ I : dom (cpus o) = _). apply elem_of_set_seq.
  apply lookup_lt_Some in Hi. pose proof (i_len _ _ _ _ _ I) as E. cbn [fst] in E. lia.
Qed.

(** After thread [i], in call [c], has done an action. *)
Definition kept (tr : list (label call effect)) (ts : list (thread call point)) (i : nat) (c : call)
  (r : point * lv2_sema * list effect) (q : list nat) : Prop :=
  let '(p', o', es) := r in inv n init (tr ++ map Did es ++ returned result i (c, p')) (<[i := (c, p')]> ts, o') q.

Lemma readers_pos tr ts o q i c p : inv n init tr (ts, o) q -> ts !! i = Some (c, p) -> in_idm p = true -> (0 < idm_readers o)%nat.
Proof.
  intros I Hi Hp. rewrite (i_idm _ _ _ _ _ I : idm_readers o = _).
  cbn [fst snd]. destruct (tally (fun t => in_idm (snd t)) ts) eqn:E; [|unfold thread in *; lia]. rewrite tally_none in E.
  specialize (E (c, p) ltac:(eapply list_elem_of_lookup_2, Hi)). cbn in E. congruence.
Qed.

(** What is known of the thread that moves. *)
Lemma known tr ts o q i c p : inv n init tr (ts, o) q -> ts !! i = Some (c, p) ->
  at_call c p = true /\ args_ok o p /\ flags_ok q (pending_of ts o) (cpus o) i p /\
  (in_idm p = true -> (0 < idm_readers o)%nat /\ exists_id o = true) /\
  (exists_id o = false -> 0 <= val o /\ idm_readers o = 0%nat) /\
  - 2 ^ 30 - 1 <= val o <= max o /\ 0 < max o < 2 ^ 31 /\ (mutex o = None \/ holds p = true -> Z.max 0 (- val o) = Z.of_nat (length q) + ahead p).
Proof.
  intros I Hi. destruct (i_thread _ _ _ _ _ I i c p Hi) as (H1 & H2 & H3). repeat (split; [assumption|]).
  pose proof (i_dead _ _ _ _ _ I) as Hd. cbn [snd] in Hd. destruct (val_bounds _ _ _ _ I) as [Hv Hm]. split.
  - intros Hp. pose proof (readers_pos _ _ _ _ _ _ _ I Hi Hp). split; [assumption|].
    destruct (exists_id o); [reflexivity|]. destruct (Hd eq_refl). lia.
  - repeat (split; [assumption|]). intros Hc.
    assert (holds p = true \/ mutex o = None) as Hc' by tauto.
    destruct (only_holder _ _ _ _ _ _ _ I Hi Hc') as (_ & _ & <- & _). exact (i_balance _ _ _ _ _ I).
Qed.

Ltac one_token := intros j Hj; first [apply elem_of_nil in Hj as [] | apply list_elem_of_singleton in Hj; congruence].
Ltac counts := cbn; try intros ?Hrun; try congruence; rewrite ?bool_decide_eq_true_2 by reflexivity; cbn; try reflexivity; try lia.

(** A step that touches the counters only. *)
Lemma kept_counters tr ts o q i c p p' o' es :
  inv n init tr (ts, o) q -> ts !! i = Some (c, p) -> holds p = false -> holds p' = false ->
  mutex o' = mutex o -> max o' = max o -> sq o' = sq o -> cpus o' = cpus o ->
  (val o' = val o \/ (0 <= val o /\ 0 <= val o' <= max o)) ->
  (idm_readers o' + (if in_idm p then 1 else 0) = idm_readers o + (if in_idm p' then 1 else 0))%nat ->
  (exists_id o' = false -> 0 <= val o' /\ idm_readers o' = 0%nat) ->
  at_call c p' = true -> args_ok o' p' -> flags_ok q (pending_of ts o) (cpus o) i p' ->
  (forall j, Token j ∈ es -> j = i) ->
  (let l := map Did es ++ returned result i (c, p') in
   posted l = Z.of_nat (tally is_token l) + Z.max 0 (val o') - Z.max 0 (val o) /\
   (flag stopped (cpus o) i = false -> (tally (is_token_of i) l + owed q i p = tally (is_success i) l + owed q i p')%nat)) ->
  kept tr ts i c (p', o', es) q.
Proof.
  intros I Hi Hp Hp' Em Ex Es Ec Hv Hidm Hdead Hcall Hargs Hfl Hes [Hpost Hown].
  unfold kept. eapply inv_private; try eassumption; try (rewrite Ec; auto; fail).
  apply others_quiet, Hes.
Qed.

Ltac counters_flags I Hi :=
  eapply kept_counters; [exact I|exact Hi|..]; try (cbn; intuition congruence); try one_token; try (intros ?l; subst l; split; counts).
Ltac counters I Hi := counters_flags I Hi; rewrite ?sint_small by (cbn; lia); cbn; lia.

Lemma kept_trywait tr ts o q i c : inv n init tr (ts, o) q -> ts !! i = Some (c, TGet) -> kept tr ts i c (sys_semaphore_trywait i o) q.
Proof.
  intros I Hi. destruct (known _ _ _ _ _ _ _ I Hi) as (Hc & Ha & Hf & _ & Hd & Hv & Hm & _).
  destruct c; try discriminate. cbn in Hf. unfold sys_semaphore_trywait.
  destruct (exists_id o) eqn:Ee; [destruct (0 <? val o) eqn:Ev|]; counters I Hi.
Qed.

Lemma kept_get_value tr ts o q i c addr :
  inv n init tr (ts, o) q -> ts !! i = Some (c, GGet addr) -> kept tr ts i c (sys_semaphore_get_value addr o) q.
Proof.
  intros I Hi. destruct (known _ _ _ _ _ _ _ I Hi) as (Hc & Ha & Hf & _ & Hd & Hv & Hm & _).
  destruct c; try discriminate. cbn in Hf. unfold sys_semaphore_get_value.
  destruct (exists_id o) eqn:Ee; [destruct (addr =? 0)|]; counters I Hi.
Qed.

Lemma kept_destroy tr ts o q i c r :
  inv n init tr (ts, o) q -> ts !! i = Some (c, DGet) -> sys_semaphore_destroy o = Some r -> kept tr ts i c r q.
Proof.
  intros I Hi. destruct (known _ _ _ _ _ _ _ I Hi) as (Hc & Ha & Hf & _ & Hd & Hv & Hm & _).
  destruct c; try discriminate. cbn in Hf. unfold sys_semaphore_destroy.
  destruct (Nat.ltb_spec 0 (idm_readers o)); [discriminate|]. intros [= <-].
  destruct (exists_id o) eqn:Ee; [destruct (Z.ltb_spec (val o) 0)|]; counters I Hi.
Qed.

(** The fast path of waiting. *)
Lemma kept_wait_fast tr ts o q i c p expired r :
  inv n init tr (ts, o) q -> ts !! i = Some (c, p) ->
  match p with WGet _ | WLoad _ | WCas _ _ => True | _ => False end ->
  sys_semaphore_wait i expired p o = Some r -> kept tr ts i c r q.
Proof.
  intros I Hi Hp. destruct (known _ _ _ _ _ _ _ I Hi) as (Hc & Ha & Hf & Hr & Hd & Hv & Hm & _).
  destruct p as [| | |t|t|t v| | | | | | | | | | | | | | | | | |]; try contradiction; destruct c; try discriminate; cbn in Hf, Hr, Ha; intros [= <-].
  - destruct (exists_id o) eqn:Ee; counters I Hi.
  - destruct (Z.ltb_spec 0 (val o)); counters I Hi.
  - destruct (Hr eq_refl). destruct (Z.eqb_spec (val o) v); counters I Hi.
Qed.

(** The fast path of posting. *)
Lemma kept_post_fast tr ts o q i c p r :
  inv n init tr (ts, o) q -> ts !! i = Some (c, p) ->
  match p with PGet _ | PLoad _ | PCas _ _ => True | _ => False end ->
  sys_semaphore_post i p o = Some r -> kept tr ts i c r q.
Proof.
  intros I Hi Hp. destruct (known _ _ _ _ _ _ _ I Hi) as (Hc & Ha & Hf & Hr & Hd & Hv & Hm & _).
  destruct p as [| | | | | | | | | | | | | | | | |k|k|k v| | | |]; try contradiction; destruct c; try discriminate; cbn in Hf, Hr, Ha; intros [= <-].
  - destruct (exists_id o) eqn:Ee; counters I Hi.
  - destruct (Hr eq_refl). destruct ((0 <=? val o) && (0 <? k) && (k <=? max o - val o)) eqn:E; [counters I Hi|].
    destruct (Z.leb_spec k 0); counters I Hi.
  - destruct (Hr eq_refl). destruct (Z.eqb_spec (val o) v); counters I Hi.
Qed.

(** A step that changes the flags of the thread itself. *)
Lemma kept_cpu tr ts o q i c p p' f cpu es :
  inv n init tr (ts, o) q -> ts !! i = Some (c, p) -> holds p = false -> holds p' = false -> in_idm p = in_idm p' ->
  cpus o !! i = Some cpu -> (forall c, next_cpu (f c) = next_cpu c /\ again (f c) = again c /\ stopped (f c) = stopped c) ->
  at_call c p' = true -> args_ok o p' -> flags_ok q (pending_of ts o) (<[i := f cpu]> (cpus o)) i p' ->
  es = [] -> (stopped cpu = false -> (owed q i p = tally (is_success i) (returned result i (c, p')) + owed q i p')%nat) ->
  kept tr ts i c (p', with_cpu i f o, es) q.
Proof.
  intros I Hi Hp Hp' Hidm Ec Hf Hcall Hargs Hfl -> Hown. pose proof (i_dead _ _ _ _ _ I) as Hd. cbn [snd] in Hd.
  assert (alter f i (cpus o) = <[i := f cpu]> (cpus o)) as Ea.
  { apply map_eq. intros j. destruct (decide (i = j)) as [<-|Hne]; [rewrite lookup_alter_eq, lookup_insert_eq, Ec; reflexivity|].
    rewrite lookup_alter_ne, lookup_insert_ne by exact Hne. reflexivity. }
  unfold kept. eapply inv_private; [exact I|exact Hi|..]; try (cbn; auto; fail); cbn [cpus with_cpu with_queue].
  - apply dom_alter_L.
  - intros j. apply next_with_cpu. intros c0. apply Hf.
  - intros j Hj. apply lookup_alter_ne. congruence.
  - unfold flag. rewrite lookup_alter_eq, Ec. apply Hf.
  - cbn. rewrite Hidm. reflexivity.
  - rewrite Ea. exact Hfl.
  - cbn. unfold returned. destruct (result _); cbn; lia.
  - unfold flag. rewrite lookup_alter_eq, Ec. cbn [fmap option_fmap option_map]. destruct (Hf cpu) as (_ & _ & ->). intros Hs.
    split; [exact Hs|]. rewrite <- (Hown Hs) at 1. cbn. unfold returned. destruct (result _); cbn; lia.
  - apply (others_quiet i c p' []). intros j Hj. apply elem_of_nil in Hj as [].
Qed.

(** The flags after a write of the thread's own. *)
Lemma flag_insert (g : cpu -> bool) (h : heap) i c : flag g (<[i := c]> h) i = g c.
Proof. unfold flag. rewrite lookup_insert_eq. reflexivity. Qed.
Lemma flag_at (g : cpu -> bool) (h : heap) i c : h !! i = Some c -> flag g h i = g c.
Proof. intros E. unfold flag. rewrite E. reflexivity. Qed.

(** A round of the waiting loop. *)
Lemma kept_loop tr ts o q i c t expired r :
  inv n init tr (ts, o) q -> ts !! i = Some (c, WLoop t) -> sys_semaphore_wait i expired (WLoop t) o = Some r -> kept tr ts i c r q.
Proof.
  intros I Hi. destruct (known _ _ _ _ _ _ _ I Hi) as (Hc & _ & Hs & _ & Hd & Hv & Hm & _).
  destruct c; try discriminate. intros [= <-]. pose proof (cpu_there _ _ _ _ _ _ I Hi) as [cpu Ecpu].
  cbn in Hs. unfold sleeps, woken in Hs. rewrite !(flag_at _ _ _ _ Ecpu) in *.
  assert (stopped cpu = false -> signal cpu = true -> (i ∉ q) /\ asleep cpu = false /\ suspend cpu = false) as Hsig.
  { intros H1 H2. destruct Hs as [Hs|Hs]; [congruence|]. rewrite H2 in Hs. case_decide as Hq; [destruct Hs as (_ & _ & ?); discriminate|].
    split; [set_solver|]. exact Hs. }
  destruct (signal cpu) eqn:Es; [|destruct (stopped cpu) eqn:Est; [|destruct (negb (t =? 0) && expired)]].
  - eapply kept_cpu; [exact I|exact Hi|reflexivity..|exact Ecpu|auto|reflexivity|exact Logic.I| |reflexivity|].
    + cbn. unfold runs. rewrite !flag_insert. cbn. destruct (stopped cpu); [auto|]. right. destruct (Hsig eq_refl eq_refl) as (H1 & H2 & H3). auto.
    + intros H. destruct (Hsig H eq_refl) as [Hq _]. unfold owed. cbn. rewrite (bool_decide_eq_true_2 (i = i)), (bool_decide_eq_false_2 (i ∈ q)) by auto. reflexivity.
  - counters_flags I Hi. cbn. rewrite (flag_at _ _ _ _ Ecpu). auto.
  - counters_flags I Hi. cbn. rewrite !(flag_at _ _ _ _ Ecpu), Es. right. destruct Hs as [Hs|Hs]; [congruence|].
    case_decide; [destruct Hs as (_ & -> & _)|destruct Hs as [_ ->]]; reflexivity.
  - counters_flags I Hi. cbn. unfold sleeps, woken. rewrite !(flag_at _ _ _ _ Ecpu), Est, Es. exact Hs.
Qed.

(** Waiting to be rescheduled after the time limit. *)
Lemma kept_check tr ts o q i c t expired r :
  inv n init tr (ts, o) q -> ts !! i = Some (c, WCheck t) -> sys_semaphore_wait i expired (WCheck t) o = Some r -> kept tr ts i c r q.
Proof.
  intros I Hi. destruct (known _ _ _ _ _ _ _ I Hi) as (Hc & _ & Hs & _ & Hd & Hv & Hm & _).
  destruct c; try discriminate. intros [= <-]. pose proof (cpu_there _ _ _ _ _ _ I Hi) as [cpu Ecpu].
  cbn in Hs. rewrite !(flag_at _ _ _ _ Ecpu) in Hs.
  assert (alter (with_signal false) i (cpus o) !! i = Some (with_signal false cpu)) as Ea by (rewrite lookup_alter_eq, Ecpu; reflexivity).
  cbn [cpus with_cpu with_queue]. rewrite !(flag_at _ _ _ _ Ea). cbn [stopped suspend with_signal].
  destruct (stopped cpu) eqn:Est; [|destruct (suspend cpu) eqn:Esu].
  - eapply kept_cpu; [exact I|exact Hi|reflexivity..|exact Ecpu|auto|reflexivity|exact Logic.I| |reflexivity|congruence].
    cbn. rewrite !flag_insert. auto.
  - replace (with_cpu i awake (with_cpu i (with_signal false) o)) with (with_cpu i (fun c => awake (with_signal false c)) o)
      by (unfold with_cpu, with_queue; cbn; rewrite alter_alter_eq; reflexivity).
    eapply kept_cpu; [exact I|exact Hi|reflexivity..|exact Ecpu|auto|reflexivity|exact Logic.I| |reflexivity|reflexivity].
    cbn. rewrite !flag_insert. cbn. rewrite Esu. auto.
  - eapply kept_cpu; [exact I|exact Hi|reflexivity..|exact Ecpu|auto|reflexivity|exact Logic.I| |reflexivity|reflexivity].
    cbn. unfold runs. rewrite !flag_insert. cbn. destruct Hs as [Hs|Hs]; [congruence|]. auto.
Qed.

(** A step under the mutex that keeps the queue. *)
Lemma kept_same tr ts o q i c p p' o' es :
  inv n init tr (ts, o) q -> ts !! i = Some (c, p) -> holds p = true \/ mutex o = None ->
  mutex o' = (if holds p' then Some i else None) -> max o' = max o -> sq o' = sq o ->
  (cpus o' = cpus o \/ cpus o' = alter with_again i (cpus o)) ->
  pending p = [] -> pending p' = [] ->
  Z.max 0 (- val o') = Z.of_nat (length q) + ahead p' -> val o' <= max o ->
  (scanned p' = true -> forall j, j ∈ q -> flag again (cpus o') j = false) ->
  (idm_readers o' + (if in_idm p then 1 else 0) = idm_readers o + (if in_idm p' then 1 else 0))%nat ->
  (exists_id o' = false -> 0 <= val o' /\ idm_readers o' = 0%nat) ->
  at_call c p' = true -> args_ok o' p' -> flags_ok q [] (cpus o') i p' ->
  (forall j, Token j ∈ es -> j = i) ->
  (let l := map Did es ++ returned result i (c, p') in
   posted l = Z.of_nat (tally is_token l) + Z.max 0 (val o') - Z.max 0 (val o) + to_wake p' - to_wake p /\
   (flag stopped (cpus o) i = false -> (tally (is_token_of i) l + owed q i p = tally (is_success i) l + owed q i p')%nat)) ->
  kept tr ts i c (p', o', es) q.
Proof.
  intros I Hi Hc Em Ex Es Hcp Ep Ep' Hb Hmax Hscan Hidm Hdead Hcall Hargs Hfl Hes [Hpost Hown].
  unfold kept. eapply inv_same; try eassumption.
  - destruct Hcp as [->| ->]; [reflexivity|apply dom_alter_L].
  - intros j. destruct Hcp as [->| ->]; [reflexivity|apply next_with_cpu; reflexivity].
  - intros j Hj. destruct Hcp as [->| ->]; [reflexivity|apply lookup_alter_ne; congruence].
  - intros Hs. enough (flag stopped (cpus o) i = false) as H by auto. revert Hs. destruct Hcp as [->| ->]; [auto|].
    unfold flag. rewrite lookup_alter_eq. destruct (cpus o !! i); auto.
  - apply others_quiet, Hes.
Qed.

Ltac same_flags I Hi :=
  eapply kept_same; [exact I|exact Hi|..]; try (cbn; intuition congruence); try one_token; try (intros ?l; subst l; split; counts).
Ltac same I Hi := same_flags I Hi; rewrite ?sint_small by (cbn; lia); cbn; lia.

(** [sema.val--] and the lock before it. *)
Lemma kept_wait_lock tr ts o q i c t expired r :
  inv n init tr (ts, o) q -> ts !! i = Some (c, WLock t) -> sys_semaphore_wait i expired (WLock t) o = Some r -> kept tr ts i c r q.
Proof.
  intros I Hi. destruct (known _ _ _ _ _ _ _ I Hi) as (Hc & _ & Hf & Hr & Hd & Hv & Hm & Hb).
  destruct c; try discriminate. cbn in Hf, Hr, Hb. cbn. unfold locked. destruct (mutex o) eqn:Em; [discriminate|]. intros [= <-].
  specialize (Hb (or_introl eq_refl)). same I Hi.
Qed.

Lemma kept_wait_dec tr ts o q i c t expired r :
  inv n init tr (ts, o) q -> ts !! i = Some (c, WDec t) -> sys_semaphore_wait i expired (WDec t) o = Some r -> kept tr ts i c r q.
Proof.
  intros I Hi. destruct (known _ _ _ _ _ _ _ I Hi) as (Hc & _ & Hf & Hr & Hd & Hv & Hm & Hb).
  destruct (only_holder _ _ _ _ _ _ _ I Hi (or_introl eq_refl)) as (Em & _).
  destruct c; try discriminate. cbn in Hf, Hr, Hb, Em. cbn. intros [= <-].
  specialize (Hb (or_intror eq_refl)). destruct (Hr eq_refl). destruct (Z.leb_spec (val o) 0); same I Hi.
Qed.

Lemma walk_queue tr ts o q P : inv n init tr (ts, o) q -> in_queue (fuel o) (sq o) P (cpus o) = existsb P q.
Proof. intros I. apply in_queue_spec; [exact (i_linked _ _ _ _ _ I)|apply (queue_fits _ _ _ _ I)]. Qed.

Lemma queued_spec tr ts o q i : inv n init tr (ts, o) q -> queued i o = bool_decide (i ∈ q).
Proof.
  intros I. unfold queued. rewrite (walk_queue _ _ _ _ _ I). apply eq_iff_eq_true. rewrite existsb_exists, bool_decide_eq_true.
  split; [intros (j & Hj & ->%bool_decide_eq_true); apply list_elem_of_In, Hj|].
  intros Hj. exists i. rewrite bool_decide_eq_true, <- list_elem_of_In. auto.
Qed.

(** Told to stop: the wait is given up for a saved state if it is still queued. *)
Lemma kept_wait_stop tr ts o q i c t expired r :
  inv n init tr (ts, o) q -> ts !! i = Some (c, WStop t) -> sys_semaphore_wait i expired (WStop t) o = Some r -> kept tr ts i c r q.
Proof.
  intros I Hi. destruct (known _ _ _ _ _ _ _ I Hi) as (Hc & _ & Hst & Hr & Hd & Hv & Hm & Hb).
  pose proof (flag_with_cpu again with_again i (cpus o) (cpu_there _ _ _ _ _ _ I Hi)) as (cpu & _ & Ea).
  destruct c; try discriminate. cbn in Hb, Hst. cbn. unfold locked. destruct (mutex o) eqn:Em; [discriminate|]. intros [= <-].
  specialize (Hb (or_introl eq_refl)). change (queued i (with_mutex (Some i) o)) with (queued i o).
  rewrite (queued_spec _ _ _ _ _ I). destruct (bool_decide (i ∈ q)) eqn:Eq; same_flags I Hi.
Qed.

(** Timed out and out of the queue: the value is given back. *)
Lemma kept_wait_back tr ts o q i c t expired r :
  inv n init tr (ts, o) q -> ts !! i = Some (c, WTimeVal t) -> sys_semaphore_wait i expired (WTimeVal t) o = Some r -> kept tr ts i c r q.
Proof.
  intros I Hi. destruct (known _ _ _ _ _ _ _ I Hi) as (Hc & _ & Hf & Hr & Hd & Hv & Hm & Hb).
  destruct (only_holder _ _ _ _ _ _ _ I Hi (or_introl eq_refl)) as (Em & _).
  destruct c; try discriminate. cbn in Hf, Hr, Hb, Em. cbn. intros [= <-].
  specialize (Hb (or_intror eq_refl)). destruct (Z.ltb_spec (val o) 0); [|lia].
  destruct (exists_id o) eqn:Ee; [|destruct (Hd eq_refl); lia]. same I Hi.
Qed.

Lemma kept_post_lock tr ts o q i c k r :
  inv n init tr (ts, o) q -> ts !! i = Some (c, PLock k) -> sys_semaphore_post i (PLock k) o = Some r -> kept tr ts i c r q.
Proof.
  intros I Hi. destruct (known _ _ _ _ _ _ _ I Hi) as (Hc & Ha & Hf & Hr & Hd & Hv & Hm & Hb).
  pose proof (flag_with_cpu again with_again i (cpus o) (cpu_there _ _ _ _ _ _ I Hi)) as (cpu & _ & Ea).
  destruct c; try discriminate. cbn in Ha, Hb, Hf. cbn. unfold locked. destruct (mutex o) eqn:Em; [discriminate|]. intros [= <-].
  specialize (Hb (or_introl eq_refl)). change (any_again (with_mutex (Some i) o)) with (any_again o).
  unfold any_again. rewrite (walk_queue _ _ _ _ _ I). destruct (existsb _ q) eqn:Eq; same_flags I Hi.
  intros _ j Hj. cbn. apply not_true_is_false. intros E. apply not_true_iff_false in Eq. apply Eq, existsb_exists. exists j.
  rewrite <- list_elem_of_In. auto.
Qed.

(** The value is raised, for every thread to wake and what is left over. *)
Lemma kept_post_fetch tr ts o q i c k r :
  inv n init tr (ts, o) q -> ts !! i = Some (c, PFetch k) -> sys_semaphore_post i (PFetch k) o = Some r -> kept tr ts i c r q.
Proof.
  intros I Hi. destruct (known _ _ _ _ _ _ _ I Hi) as (Hc & Ha & Hf & Hr & Hd & Hv & Hm & Hb).
  destruct (only_holder _ _ _ _ _ _ _ I Hi (or_introl eq_refl)) as (Em & _).
  pose proof (i_scan _ _ _ _ _ I i c (PFetch k)) as Hs. cbn [fst snd] in Hs.
  destruct c; try discriminate. cbn in Ha, Hf, Hr, Hb, Em. cbn. intros [= <-].
  specialize (Hb (or_intror eq_refl)).
  rewrite (wrap_small 32 k), (wrap_sub_l 32 (max o)), (wrap_small 32 (max o - val o)) by (unfold in_range; lia).
  destruct (Z.leb_spec k (max o - val o)); [|same I Hi].
  same_flags I Hi; rewrite ?sint_small by (cbn; lia); try (cbn; lia).
  - intros _ j Hj. eapply Hs; eauto.
  - cbn. intros E. destruct (Hd E). lia.
Qed.

(** ** Steps that change the queue *)

Definition same_state (h h' : heap) (j : nat) : Prop :=
  flag again h' j = flag again h j /\ flag signal h' j = flag signal h j /\ flag suspend h' j = flag suspend h j /\
  flag stopped h' j = flag stopped h j /\ flag asleep h' j = flag asleep h j.

Lemma relinked_state h h' j : relinked h h' -> same_state h h' j.
Proof. intros H. unfold same_state. rewrite !(relinked_flag _ h h') by (assumption || reflexivity). auto. Qed.

Lemma flags_ext q w h q' w' h' j p :
  same_state h h' j -> (j ∈ q' -> j ∈ q) -> (j ∈ w' ++ q' <-> j ∈ w ++ q) -> flags_ok q w h j p -> flags_ok q' w' h' j p.
Proof.
  intros (E1 & E2 & E3 & E4 & E5) Hq Hw. unfold flags_ok, runs, sleeps, woken. rewrite E1, E2, E3, E4, E5.
  destruct p; try (intuition congruence). intros [H|H]; [auto|right].
  destruct (decide (j ∈ w ++ q)), (decide (j ∈ w' ++ q')); tauto.
Qed.

Lemma owed_eq q q' j p : (j ∈ q <-> j ∈ q') -> owed q j p = owed q' j p.
Proof. intros H. unfold owed. rewrite (bool_decide_ext _ _ H). reflexivity. Qed.

Lemma dom_relinked h h' : relinked h h' -> dom h' = dom h.
Proof. intros H. apply set_eq. intros j. rewrite !elem_of_dom. apply relinked_some, H. Qed.

Lemma NoDup_middle (l1 l2 : list nat) x : NoDup (l1 ++ x :: l2) -> (x ∉ l1 ++ l2) /\ NoDup (l1 ++ l2).
Proof. rewrite <- Permutation_middle. rewrite NoDup_cons. auto. Qed.

Ltac easy_goals := try (cbn; auto; fail); try (cbn; lia); try (cbn; intros; congruence).

(** Going to sleep in the queue. *)
Lemma kept_wait_enqueue tr ts o q i c t expired r :
  inv n init tr (ts, o) q -> ts !! i = Some (c, WEnqueue t) -> sys_semaphore_wait i expired (WEnqueue t) o = Some r ->
  kept tr ts i c r (i :: q).
Proof.
  intros I Hi. destruct (known _ _ _ _ _ _ _ I Hi) as (Hc & _ & Hf & Hr & Hd & Hv & Hm & Hb).
  pose proof (cpu_there _ _ _ _ _ _ I Hi) as [cpu Ecpu]. destruct c; try discriminate. cbn in Hf, Hr, Hb.
  specialize (Hb (or_intror eq_refl)). destruct (Hr eq_refl). destruct Hf as (Hiq & Has & Hsu & Hsi).
  destruct (emplace_spec (g_priority_order_tag o + 1) (sq o) q i (alter sleep i (cpus o))) as (h' & E & Hl & Hne & Heq).
  { generalize (i_linked _ _ _ _ _ I). apply linked_frame. intros j _. cbn [snd]. split; [|rewrite lookup_alter_is_Some; auto].
    apply next_with_cpu. intros c0. unfold sleep. destruct (signal c0); reflexivity. }
  { exact Hiq. }
  { rewrite lookup_alter_is_Some. eauto. }
  cbn -[emplace]. rewrite E. intros [= <-]. rewrite lookup_alter_eq, Ecpu in Heq. cbn in Heq. unfold flag in Hsi. rewrite Ecpu in Hsi. unfold sleep in Heq. rewrite Hsi in Heq.
  assert (forall j, j <> i -> h' !! j = cpus o !! j) as Hoth by (intros j Hj; rewrite Hne, lookup_alter_ne by congruence; reflexivity).
  unfold kept. eapply inv_critical; [exact I|exact Hi|..]; easy_goals.
  - cbn. apply set_eq. intros j. rewrite !elem_of_dom. destruct (decide (j = i)) as [->|Hj]; [rewrite Heq, Ecpu; split; eauto|rewrite Hoth by exact Hj; reflexivity].
  - cbn [pending app]. constructor; [exact Hiq|]. generalize (i_nodup _ _ _ _ _ I). rewrite NoDup_app. tauto.
  - cbn. rewrite decide_True by left. right. unfold sleeps, flag. rewrite Heq. destruct cpu as [n0 p0 o0 [] a0 s0 su0 st0 sl0]; cbn in *; auto.
  - intros j cj pj Hj _ _. cbn [pending cpus leave unlock with_queue with_mutex with_idm]. apply flags_ext; [|set_solver|set_solver].
    unfold same_state, flag. rewrite Hoth by exact Hj. auto.
  - unfold flag. cbn [cpus leave unlock with_queue with_mutex with_idm]. rewrite Heq, Ecpu. intros Hs.
    split; [destruct cpu as [n0 p0 o0 [] a0 s0 su0 st0 sl0]; exact Hs|]. cbn. unfold owed. cbn. rewrite bool_decide_eq_true_2 by left. reflexivity.
  - intros j cj pj Hj _. unfold flag. cbn [cpus leave unlock with_queue with_mutex with_idm]. rewrite Hoth by exact Hj. intros Hs.
    split; [exact Hs|]. cbn. apply owed_eq. set_solver.
Qed.

(** The time limit: out of the queue, unless a post was faster. *)
Lemma kept_wait_time tr ts o q i c t expired r :
  inv n init tr (ts, o) q -> ts !! i = Some (c, WTime t) -> sys_semaphore_wait i expired (WTime t) o = Some r ->
  exists q', kept tr ts i c r q'.
Proof.
  intros I Hi. destruct (known _ _ _ _ _ _ _ I Hi) as (Hc & _ & Hf & Hr & Hd & Hv & Hm & Hb).
  destruct c; try discriminate. cbn in Hb, Hf. cbn -[unqueue].
  unfold locked. destruct (mutex o) eqn:Em; [discriminate|]. specialize (Hb (or_introl eq_refl)).
  pose proof (i_nodup _ _ _ _ _ I) as Hnd. cbn [fst snd] in Hnd. apply NoDup_app in Hnd as (_ & _ & Hnd).
  destruct (unqueue_spec (fuel o) (sq o) q i (cpus o) (i_linked _ _ _ _ _ I) Hnd) as [Hno Hyes]; [apply (queue_fits _ _ _ _ I)|].
  change (fuel (with_mutex (Some i) o)) with (fuel o). cbn -[unqueue].
  destruct (decide (i ∈ q)) as [Hin|Hout].
  - apply list_elem_of_split in Hin as (l1 & l2 & ->). destruct (Hyes l1 l2 eq_refl) as (first' & h' & -> & Hl & _ & Hrel).
    intros [= <-]. exists (l1 ++ l2). destruct (NoDup_middle _ _ _ Hnd) as [Hi' Hnd'].
    destruct (relinked_state _ _ i Hrel) as (E1 & E2 & E3 & E4 & E5).
    unfold kept. eapply inv_critical; [exact I|exact Hi|..]; easy_goals.
    + apply dom_relinked, Hrel.
    + cbn. rewrite length_app in *. cbn in *. lia.
    + cbn. unfold runs in *. rewrite E2, E3, E5. auto.
    + intros j cj pj Hj _ _. apply flags_ext; [apply relinked_state, Hrel|set_solver|set_solver].
    + cbn [cpus with_queue]. rewrite E4. intros Hs. split; [exact Hs|]. cbn. unfold owed. cbn. rewrite bool_decide_eq_true_2 by set_solver. reflexivity.
    + intros j cj pj Hj _. cbn [cpus with_queue]. destruct (relinked_state _ _ j Hrel) as (_ & _ & _ & -> & _). intros Hs.
      split; [exact Hs|]. cbn. apply owed_eq. set_solver.
  - rewrite Hno by exact Hout. intros [= <-]. exists q. same_flags I Hi. unfold owed. cbn. rewrite bool_decide_eq_false_2 by exact Hout. reflexivity.
Qed.

Lemma wake_spec tr ts o q i c k w :
  inv n init tr (ts, o) q -> ts !! i = Some (c, PWake (S k) w) ->
  exists x l1 l2 first' h', schedule (fuel o) true (protocol o) (sq o) (cpus o) = (Some x, first', h') /\
    q = l1 ++ x :: l2 /\ NoDup (w ++ q) /\ NoDup q /\ (forall j, j ∈ q -> flag again (cpus o) j = false) /\
    linked h' first' (l1 ++ l2) /\ relinked (cpus o) h'.
Proof.
  intros I Hi. destruct (known _ _ _ _ _ _ _ I Hi) as (_ & _ & _ & _ & _ & _ & _ & Hb).
  destruct (only_holder _ _ _ _ _ _ _ I Hi (or_introl eq_refl)) as (_ & Ep & _).
  pose proof (i_nodup _ _ _ _ _ I) as Hnd. cbn [fst snd] in Hnd. rewrite Ep in Hnd. pose proof Hnd as (_ & _ & Hndq)%NoDup_app.
  pose proof (fun j => i_scan _ _ _ _ _ I i _ _ j Hi eq_refl) as Hs. cbn [snd] in Hs.
  destruct (schedule_spec (fuel o) (protocol o) (sq o) q (cpus o) (i_linked _ _ _ _ _ I) Hndq) as (x & l1 & l2 & first' & h' & E & El & _ & Hl & _ & Hrel);
    [apply (queue_fits _ _ _ _ I)|intros ->; specialize (Hb (or_intror eq_refl)); cbn in Hb; lia|exact Hs|].
  exists x, l1, l2, first', h'. repeat split; assumption.
Qed.

(** A waiting thread is taken from the queue and given a unit. *)
Lemma kept_post_wake tr ts o q i c k w r :
  inv n init tr (ts, o) q -> ts !! i = Some (c, PWake (S k) w) -> sys_semaphore_post i (PWake (S k) w) o = Some r ->
  exists q', kept tr ts i c r q'.
Proof.
  intros I Hi. destruct (known _ _ _ _ _ _ _ I Hi) as (Hc & _ & Hf & Hr & Hd & Hv & Hm & Hb).
  destruct (only_holder _ _ _ _ _ _ _ I Hi (or_introl eq_refl)) as (Em & Ep & _ & _ & Hoth).
  destruct c; try discriminate. cbn in Hb, Em, Ep. cbn -[schedule]. specialize (Hb (or_intror eq_refl)).
  destruct (wake_spec _ _ _ _ _ _ _ _ I Hi) as (x & l1 & l2 & first' & h' & -> & -> & Hnd & Hndq & Hs & Hl & Hrel).
  intros [= <-]. exists (l1 ++ l2). destruct (NoDup_middle _ _ _ Hndq) as [Hx Hnd']. destruct Hf as (Hiq & Hf).
  assert (x <> i) as Hxi by (intros ->; apply Hiq; set_solver).
  destruct (relinked_state _ _ i Hrel) as (E1 & E2 & E3 & E4 & E5).
  unfold kept. eapply inv_critical; [exact I|exact Hi|..]; easy_goals.
  - apply dom_relinked, Hrel.
  - cbn [pending]. rewrite <- app_assoc. cbn [app]. rewrite <- Permutation_middle in Hnd. rewrite <- Permutation_middle.
    rewrite <- Permutation_middle in Hnd. exact Hnd.
  - cbn [val with_queue ahead]. rewrite length_app in *. cbn in *. lia.
  - intros _ j Hj. cbn [cpus with_queue]. destruct (relinked_state _ _ j Hrel) as (-> & _). apply Hs. set_solver.
  - cbn. unfold runs in *. rewrite E2, E3, E5. set_solver.
  - intros j cj pj Hj _ _. apply flags_ext; [apply relinked_state, Hrel|set_solver|set_solver].
  - cbn [cpus with_queue]. rewrite E4. intros Hst. split; [exact Hst|]. cbn. rewrite bool_decide_eq_false_2 by exact Hxi. reflexivity.
  - intros j cj pj Hj Hpj. cbn [cpus with_queue]. destruct (relinked_state _ _ j Hrel) as (_ & _ & _ & -> & _). intros Hst.
    split; [exact Hst|]. cbn. destruct (decide (x = j)) as [->|Hxj].
    + rewrite bool_decide_eq_true_2 by reflexivity. unfold owed.
      rewrite (bool_decide_eq_true_2 (j ∈ l1 ++ j :: l2)), bool_decide_eq_false_2 by set_solver.
      destruct (known _ _ _ _ _ _ _ I Hpj) as (_ & _ & Hfj & _). specialize (Hs j ltac:(set_solver)).
      assert (forall A, (j ∉ l1 ++ j :: l2) /\ A -> False) as Hno by (intros A [H _]; apply H; set_solver).
      destruct pj; cbn in Hfj |- *; try reflexivity; exfalso; try congruence; try (exact (Hno _ Hfj)).
      destruct Hfj as [Hfj|Hfj]; [congruence|exact (Hno _ Hfj)].
    + rewrite bool_decide_eq_false_2 by exact Hxj. cbn. apply owed_eq. set_solver.
Qed.

Lemma kept_post_woken tr ts o q i c w r :
  inv n init tr (ts, o) q -> ts !! i = Some (c, PWake 0 w) -> sys_semaphore_post i (PWake 0 w) o = Some r -> kept tr ts i c r q.
Proof.
  intros I Hi. destruct (known _ _ _ _ _ _ _ I Hi) as (Hc & _ & Hf & Hr & Hd & Hv & Hm & Hb).
  destruct (only_holder _ _ _ _ _ _ _ I Hi (or_introl eq_refl)) as (Em & Ep & _).
  destruct c; try discriminate. cbn in Hb, Em, Ep, Hf. intros [= <-]. specialize (Hb (or_intror eq_refl)).
  pose proof (i_nodup _ _ _ _ _ I) as Hnd. cbn [fst snd] in Hnd. rewrite Ep in Hnd.
  unfold kept. eapply inv_critical; [exact I|exact Hi|..]; easy_goals. exact (i_linked _ _ _ _ _ I).
Qed.

(** The scheduler is told of a thread taken from the queue. *)
Lemma awake_flags x w q h j p :
  is_Some (h !! j) -> NoDup (x :: w ++ q) -> flags_ok q (x :: w) h j p -> flags_ok q w (alter awake x h) j p.
Proof.
  intros [c Hc] [Hx _]%NoDup_cons Hf. destruct (decide (x = j)) as [<-|Hne].
  2:{ revert Hf. apply flags_ext; [|auto|set_solver]. unfold same_state, flag. rewrite lookup_alter_ne by exact Hne. auto. }
  assert (forall f, flag f (alter awake x h) x = f (awake c)) as E by (intros f; unfold flag; rewrite lookup_alter_eq, Hc; reflexivity).
  unfold flags_ok, runs, sleeps, woken in *. rewrite !E. rewrite !(flag_at _ _ _ _ Hc) in Hf. cbn [again signal suspend stopped asleep awake with_asleep].
  destruct p; try (intuition auto; fail).
  - destruct Hf as [Hf|Hf]; [auto|right]. rewrite decide_False by exact Hx. rewrite decide_True in Hf by left.
    destruct Hf as (_ & -> & ->). auto.
  - destruct (suspend c); intuition auto.
Qed.

Lemma awake_stopped x h j : flag stopped (alter awake x h) j = flag stopped h j.
Proof.
  unfold flag. destruct (decide (x = j)) as [<-|Hne]; [rewrite lookup_alter_eq; destruct (h !! x); reflexivity|].
  rewrite lookup_alter_ne by exact Hne. reflexivity.
Qed.

Lemma kept_post_awake tr ts o q i c w r :
  inv n init tr (ts, o) q -> ts !! i = Some (c, PAwake w) -> sys_semaphore_post i (PAwake w) o = Some r -> kept tr ts i c r q.
Proof.
  intros I Hi. destruct (known _ _ _ _ _ _ _ I Hi) as (Hc & _ & Hf & Hr & Hd & Hv & Hm & Hb).
  destruct (only_holder _ _ _ _ _ _ _ I Hi (or_introl eq_refl)) as (Em & Ep & _).
  destruct c; try discriminate. cbn [pending] in Ep. rewrite Ep in Hf. cbn in Hb, Em. specialize (Hb (or_intror eq_refl)).
  destruct w as [|x w]; intros [= <-].
  - cbn in Hf. same_flags I Hi.
  - pose proof (i_nodup _ _ _ _ _ I) as Hnd. cbn [fst snd] in Hnd. rewrite Ep in Hnd.
    unfold kept. eapply inv_critical; [exact I|exact Hi|..]; easy_goals.
    + cbn. apply dom_alter_L.
    + generalize (i_linked _ _ _ _ _ I). apply linked_frame. intros j _. cbn [snd cpus with_cpu with_queue sq].
      split; [apply next_with_cpu; reflexivity|]. rewrite lookup_alter_is_Some. auto.
    + apply NoDup_cons in Hnd as [_ Hnd]. exact Hnd.
    + apply awake_flags; [exact (cpu_there _ _ _ _ _ _ I Hi)|exact Hnd|exact Hf].
    + intros j cj pj Hj Hpj _. apply awake_flags; [exact (cpu_there _ _ _ _ _ _ I Hpj)|exact Hnd].
    + cbn [cpus with_cpu with_queue]. rewrite awake_stopped. auto.
    + intros j cj pj _ _. cbn [cpus with_cpu with_queue]. rewrite awake_stopped. auto.
Qed.

(** From outside the flags of a thread change, not the object. *)
Lemma inv_cpu tr ts o q i t c c' :
  inv n init tr (ts, o) q -> ts !! i = Some t -> cpus o !! i = Some c ->
  next_cpu c' = next_cpu c -> again c' = again c -> (stopped c' = false -> stopped c = false) ->
  flags_ok q (pending_of ts o) (<[i := c']> (cpus o)) i (snd t) ->
  inv n init (tr ++ []) (ts, with_queue (sq o) (<[i := c']> (cpus o)) o) q.
Proof.
  intros [I1 I2 I3 I4 I5 I6 I7 I8 I9 I10 I11 I12 I13 I14] Hi Hc En Ea Est Hfl. rewrite app_nil_r.
  assert (forall j, j <> i -> <[i := c']> (cpus o) !! j = cpus o !! j) as Hne by (intros j Hj; apply lookup_insert_ne; congruence).
  constructor; cbn [fst snd with_queue cpus sq mutex max val idm_readers exists_id]; auto.
  - rewrite dom_insert_lookup_L by eauto. exact I2.
  - revert I3. apply linked_frame. intros j _. cbn [snd]. split; [|rewrite lookup_insert_is_Some'; auto].
    unfold next_of. destruct (decide (j = i)) as [->|Hj]; [rewrite lookup_insert_eq, Hc; exact En|rewrite Hne by exact Hj; reflexivity].
  - intros k ck pk j Hk Hs Hj. unfold flag. destruct (decide (j = i)) as [->|Hji]; [rewrite lookup_insert_eq, Ea|rewrite Hne by exact Hji].
    + rewrite <- (flag_at again _ _ _ Hc). eapply I9; eauto.
    + eapply I9; eauto.
  - intros j cj pj Hj. destruct (I12 j cj pj Hj) as (H1 & H2 & H3). split; [exact H1|]. split; [exact H2|].
    destruct (decide (j = i)) as [->|Hji]; [|revert H3; apply flags_frame, Hne, Hji].
    cbn [fst] in Hj. rewrite Hi in Hj. injection Hj as ->. exact Hfl.
  - intros j cj pj Hj Hs. apply (I14 j cj pj Hj). cbn [snd]. unfold flag in *.
    destruct (decide (j = i)) as [->|Hji]; [rewrite lookup_insert_eq in Hs; rewrite Hc; auto|rewrite Hne in Hs by exact Hji; exact Hs].
Qed.

Lemma inv_event tr ts o q i t e o' :
  inv n init tr (ts, o) q -> ts !! i = Some t -> happen e i o = Some o' -> inv n init (tr ++ []) (ts, o') q.
Proof.
  intros I Hi He. pose proof (cpu_there _ _ _ _ _ _ I Hi) as [c Hc]. destruct t as [cl p].
  destruct (i_thread _ _ _ _ _ I i cl p Hi) as (_ & Ha & Hf). cbn [snd fst] in Hf, Ha.
  unfold flags_ok, runs, sleeps, woken in Hf. rewrite !(flag_at _ _ _ _ Hc) in Hf. destruct e; cbn in He.
  - injection He as <-. replace (with_cpu i with_stopped o) with (with_queue (sq o) (<[i := with_stopped c]> (cpus o)) o).
    + eapply inv_cpu; [exact I|exact Hi|exact Hc|reflexivity|reflexivity|discriminate|]. cbn [snd].
      unfold flags_ok, runs, sleeps, woken. rewrite !flag_insert. cbn. destruct p; intuition auto.
    + unfold with_cpu. f_equal. apply map_eq. intros j.
      destruct (decide (i = j)) as [<-|Hne]; [rewrite lookup_alter_eq, lookup_insert_eq, Hc; reflexivity|].
      rewrite lookup_alter_ne, lookup_insert_ne by exact Hne. reflexivity.
  - rewrite Hc in He. unfold scheduled in He. destruct (suspend c) eqn:Esu; [|discriminate]. destruct (asleep c) eqn:Eas; [discriminate|].
    injection He as <-. eapply inv_cpu; [exact I|exact Hi|exact Hc|reflexivity|reflexivity|auto|]. cbn [snd].
    unfold flags_ok, runs, sleeps, woken. rewrite !flag_insert. cbn. rewrite Eas.
    destruct p; try (intuition (auto || discriminate); fail).
    destruct Hf as [Hf|Hf]; [auto|right]. case_decide; [destruct Hf; discriminate|auto].
Qed.

Lemma inv_call tr ts o q i c p code c' :
  inv n init tr (ts, o) q -> ts !! i = Some (c, p) -> result p = Some code -> running i o = true ->
  inv n init (tr ++ []) (<[i := (c', entry c')]> ts, o) q.
Proof.
  intros I Hi Hp Hrun. destruct (known _ _ _ _ _ _ _ I Hi) as (_ & _ & Hf & Hr & Hd & Hv & Hm & Hb).
  destruct p; try discriminate. unfold running in Hrun. apply negb_true_iff in Hrun. cbn in Hf. destruct Hf as [Hf|Hf]; [congruence|].
  eapply inv_private; [exact I|exact Hi|..]; easy_goals.
  all: destruct c'; cbn; try (exact Logic.I); try reflexivity; try (intuition congruence).
  apply (sint_range 32). lia.
Qed.

(** Every step keeps the invariant. *)
Lemma act_inv tr ts o q i c p expired r :
  inv n init tr (ts, o) q -> ts !! i = Some (c, p) -> act i expired p o = Some r -> exists q', kept tr ts i c r q'.
Proof.
  intros I Hi. destruct p; cbn [act]; intros Ha; try discriminate.
  - exists q. eapply kept_wait_fast; eauto. exact Logic.I.
  - exists q. eapply kept_wait_fast; eauto. exact Logic.I.
  - exists q. eapply kept_wait_fast; eauto. exact Logic.I.
  - exists q. eapply kept_wait_lock; eauto.
  - exists q. eapply kept_wait_dec; eauto.
  - exists (i :: q). eapply kept_wait_enqueue; eauto.
  - exists q. eapply kept_loop; eauto.
  - exists q. eapply kept_wait_stop; eauto.
  - exists q. eapply kept_check; eauto.
  - eapply kept_wait_time; eauto.
  - exists q. eapply kept_wait_back; eauto.
  - injection Ha as <-. exists q. apply kept_trywait; auto.
  - injection Ha as <-. exists q. apply kept_get_value; auto.
  - exists q. eapply kept_destroy; eauto.
  - exists q. eapply kept_post_fast; eauto. exact Logic.I.
  - exists q. eapply kept_post_fast; eauto. exact Logic.I.
  - exists q. eapply kept_post_fast; eauto. exact Logic.I.
  - exists q. eapply kept_post_lock; eauto.
  - exists q. eapply kept_post_fetch; eauto.
  - destruct k as [|k]; [exists q; eapply kept_post_woken; eauto|eapply kept_post_wake; eauto].
  - exists q. eapply kept_post_awake; eauto.
Qed.

(** The threads a trace names. *)
Definition label_thread (l : label call effect) : nat :=
  match l with Did (Token i) => i | Did (Posted _) => 0%nat | Returned i _ _ => i end.
Definition named (l : label call effect) : bool := match l with Did (Posted _) => false | _ => true end.

Lemma act_tokens tr ts o q i c p expired p' o' es j :
  inv n init tr (ts, o) q -> ts !! i = Some (c, p) -> act i expired p o = Some (p', o', es) -> Token j ∈ es -> (j < n)%nat.
Proof.
  intros I Hi Ha Hj. assert (forall k, is_Some (cpus o !! k) -> (k < n)%nat) as Hk.
  { intros k Hk%elem_of_dom. pose proof (i_dom _ _ _ _ _ I) as E. cbn [snd] in E. rewrite E in Hk. apply elem_of_set_seq in Hk. lia. }
  assert (i < n)%nat as Hin by (apply Hk; eapply cpu_there; eauto).
  destruct p as [| | | | | | | | | | | | | | | | | | | | | |[|k] w|[|x w]]; cbn -[schedule emplace unqueue] in Ha; try discriminate.
  all: try (destruct (wake_spec _ _ _ _ _ _ _ _ I Hi) as (x & l1 & l2 & first' & h' & E & -> & _); rewrite E in Ha).
  all: unfold locked, sys_semaphore_destroy, sys_semaphore_trywait, sys_semaphore_get_value in Ha.
  all: act_cases Ha; injection Ha as <- <- <-; try (apply elem_of_nil in Hj as []; fail);
    apply list_elem_of_singleton in Hj; try discriminate; injection Hj as ->; auto.
  apply Hk. eapply linked_some; [exact (i_linked _ _ _ _ _ I)|]. set_solver.
Qed.

Definition is_wait_success (l : label call effect) : bool :=
  match l with Returned _ c code => is_wait c && (code =? CELL_OK) | _ => false end.

Definition good (tr : list (label call effect)) (s : sys call point lv2_sema) : Prop :=
  (exists q, inv n init tr s q) /\ (forall l, l ∈ tr -> named l = true -> (label_thread l < n)%nat).

Lemma good_step tr s l s' : good tr s -> lv2_step entry result act happen running s l s' -> good (tr ++ l) s'.
Proof.
  intros [[q I] Hl] Hs. destruct Hs as [ts o i c p expired p' o' es Hi Hp Ha|ts o i c p code c' Hi Hp Hr|ts o i t e o' Hi He].
  - destruct (act_inv _ _ _ _ _ _ _ _ _ I Hi Ha) as [q' I']. split; [exists q'; exact I'|].
    intros x [Hx|[(e & -> & He)%list_elem_of_fmap|Hx]%elem_of_app]%elem_of_app; [auto|..].
    + destruct e as [j|j]; [|discriminate]. intros _. exact (act_tokens _ _ _ _ _ _ _ _ _ _ _ _ I Hi Ha He).
    + intros _. unfold returned in Hx. destruct (result (c, p').2); [|apply elem_of_nil in Hx as []]. apply list_elem_of_singleton in Hx as ->.
      cbn. rewrite <- (i_len _ _ _ _ _ I). eapply lookup_lt_Some, Hi.
  - split; [exists q; eapply inv_call; eauto|]. rewrite app_nil_r. exact Hl.
  - split; [exists q; eapply inv_event; eauto|]. rewrite app_nil_r. exact Hl.
Qed.

(** The successful waits of the threads that have not been told to stop. *)
Definition counted (h : heap) (l : label call effect) : bool := is_wait_success l && negb (flag stopped h (label_thread l)).

Lemma counted_success h i l : counted h l && bool_decide (label_thread l = i) = is_success i l && negb (flag stopped h i).
Proof.
  destruct l as [e|j c code]; [reflexivity|]. cbn. destruct (decide (j = i)) as [->|Hne].
  - rewrite bool_decide_eq_true_2 by reflexivity. rewrite andb_true_r. reflexivity.
  - rewrite bool_decide_eq_false_2 by exact Hne. rewrite andb_false_r. reflexivity.
Qed.
Lemma tally_andb {A} (f : A -> bool) b l : tally (fun x => f x && b) l = if b then tally f l else 0%nat.
Proof. induction l as [|x l IH]; cbn; [destruct b; reflexivity|]. rewrite IH. destruct (f x), b; reflexivity. Qed.

(** As many as the units given to them, less those the waiting threads are owed. *)
Lemma good_successes tr ts o q : inv n init tr (ts, o) q -> good tr (ts, o) ->
  (tally (counted (cpus o)) tr <= tally is_token tr)%nat /\
  ((forall i, flag stopped (cpus o) i = false) -> (forall i, match ts !! i with Some (_, p) => owed q i p | None => 0%nat end = 0%nat) ->
   tally is_token tr = tally is_wait_success tr).
Proof.
  intros I [_ Hl]. pose proof (i_len _ _ _ _ _ I) as El. cbn [fst] in El.
  assert (tally (counted (cpus o)) tr = total (fun i => if negb (flag stopped (cpus o) i) then tally (is_success i) tr else 0%nat) n) as Ec.
  { rewrite (tally_total _ label_thread (fun i l => is_success i l && negb (flag stopped (cpus o) i)) tr n).
    - apply total_ext. intros i _. apply tally_andb.
    - intros [e|j c code] Hx H; [discriminate|]. apply (Hl _ Hx). reflexivity.
    - intros i x. symmetry. apply counted_success. }
  assert (tally is_token tr = total (fun i => tally (is_token_of i) tr) n) as Et.
  { apply (tally_total is_token label_thread is_token_of).
    - intros [[j|j]|j c code] Hx H; try discriminate. apply (Hl _ Hx). reflexivity.
    - intros i [[j|j]|j c code]; reflexivity. }
  assert (forall i, (i < n)%nat -> exists c p, ts !! i = Some (c, p)) as Hts.
  { intros i Hi. destruct (lookup_lt_is_Some_2 ts i) as [[c p] E]; [unfold thread in *; lia|]. eauto. }
  rewrite Ec, Et. split.
  - apply total_mono. intros i Hi. destruct (flag stopped (cpus o) i) eqn:Es; cbn; [lia|].
    destruct (Hts i Hi) as (c & p & E). pose proof (i_owed _ _ _ _ _ I i c p E Es). lia.
  - intros Hns Hno. transitivity (tally (counted (cpus o)) tr).
    + rewrite Ec. apply total_ext. intros i Hi. rewrite Hns. cbn [negb].
      destruct (Hts i Hi) as (c & p & E). rewrite (i_owed _ _ _ _ _ I i c p E (Hns i)).
      specialize (Hno i). unfold thread in *. rewrite E in Hno. lia.
    + clear -Hns. induction tr as [|x tr IH]; cbn; [reflexivity|]. unfold counted at 1. rewrite Hns, andb_true_r, IH. reflexivity.
Qed.
End Steps.

(** ** The semaphore *)

(** Before the first call: [n] threads, none of them asleep or signalled. *)
Definition fresh (n : nat) (h : heap) : Prop :=
  dom h = set_seq 0 n /\ forall i, runs h i.
Definition idle_threads (n : nat) : list (thread call point) := replicate n (Destroy, Idle CELL_OK None).

Lemma good_created n sem_id attr prot initial_val max_val threads tag o :
  fresh n threads -> max_val < 2 ^ 31 -> sys_semaphore_create sem_id attr prot initial_val max_val threads tag = inr o ->
  good n initial_val [] (idle_threads n, o) /\ max o = max_val.
Proof.
  intros [Hd Hf] Hm. unfold sys_semaphore_create.
  destruct ((sem_id =? 0) || (attr =? 0)); [discriminate|].
  destruct ((max_val <=? 0) || (max_val <? initial_val) || (initial_val <? 0)) eqn:Ev; [discriminate|].
  destruct (negb _ && negb _); [discriminate|]. intros [= <-]. split; [|reflexivity]. split; [|intros l Hl; apply elem_of_nil in Hl as []].
  exists []. assert (forall i c p, idle_threads n !! i = Some (c, p) -> c = Destroy /\ p = Idle CELL_OK None) as Hts.
  { intros i c p Hi. apply lookup_replicate in Hi as [[= -> ->] _]. auto. }
  constructor; cbn [fst snd cpus sq mutex max val idm_readers exists_id]; try (intros; discriminate); try (cbn; lia).
  - apply length_replicate.
  - exact Hd.
  - reflexivity.
  - constructor.
  - intros i c p Hi. destruct (Hts i c p Hi) as [_ ->]. cbn. split; discriminate.
  - intros i c p j Hi. destruct (Hts i c p Hi) as [_ ->]. discriminate.
  - symmetry. apply tally_none. intros t Ht. apply elem_of_replicate in Ht as [-> _]. reflexivity.
  - intros i c p Hi. destruct (Hts i c p Hi) as [-> ->]. pose proof (Hf i). cbn. set_solver.
  - intros i c p Hi. destruct (Hts i c p Hi) as [-> ->]. reflexivity.
Qed.

Abbreviation sema_steps := (lv2_steps entry result act happen running).

Lemma act_max i expired p o p' o' es : act i expired p o = Some (p', o', es) -> max o' = max o.
Proof.
  intros Ha. destruct p as [| | | | | | | | | | | | | | | | | | | | | |[|k] w|[|x w]]; cbn -[schedule emplace unqueue] in Ha; try discriminate.
  all: unfold locked, sys_semaphore_destroy, sys_semaphore_trywait, sys_semaphore_get_value in Ha.
  all: act_cases Ha; injection Ha as <- <- <-; reflexivity.
Qed.

Lemma steps_max s tr s' : sema_steps s tr s' -> max (snd s') = max (snd s).
Proof.
  apply (lv2_invariant _ _ _ _ _ (fun _ s' => max (snd s') = max (snd s))); [reflexivity|].
  intros tr0 s1 l s2 <- Hs. destruct Hs as [ts o i c p expired p' o' es Hi Hp Ha| |ts o i t e o' Hi He]; [|reflexivity|].
  - exact (act_max _ _ _ _ _ _ _ Ha).
  - destruct e; cbn in He; [injection He as <-; reflexivity|]. destruct (cpus o !! i) as [c|]; [|discriminate].
    destruct (scheduled c); [injection He as <-; reflexivity|discriminate].
Qed.

(** With no call running, no thread is queued and no lock is held. *)
Lemma idle_quiet n init tr ts o q :
  inv n init tr (ts, o) q -> (forall i c p, ts !! i = Some (c, p) -> exists code out, p = Idle code out) -> (forall i, flag stopped (cpus o) i = false) ->
  mutex o = None /\ q = [] /\ (forall i, match ts !! i with Some (_, p) => owed q i p | None => 0%nat end = 0%nat).
Proof.
  intros I Hidle Hns. split; [|split].
  - destruct (mutex o) as [k|] eqn:Em; [|reflexivity]. destruct (i_owner _ _ _ _ _ I k Em) as [[c p] Hk]. cbn [fst] in Hk.
    destruct (Hidle k c p Hk) as (code & out & ->). pose proof (i_mutex _ _ _ _ _ I k c _ Hk) as [_ H]. specialize (H Em). discriminate.
  - destruct q as [|j q]; [reflexivity|]. exfalso.
    assert (is_Some (cpus o !! j)) as Hj by (eapply linked_some; [exact (i_linked _ _ _ _ _ I)|left]).
    apply elem_of_dom in Hj. rewrite (i_dom _ _ _ _ _ I : dom (cpus o) = _) in Hj. apply elem_of_set_seq in Hj.
    destruct (lookup_lt_is_Some_2 ts j) as [[c p] E]; [rewrite (i_len _ _ _ _ _ I : length ts = n); lia|].
    destruct (Hidle j c p E) as (code & out & ->). destruct (i_thread _ _ _ _ _ I j c _ E) as (_ & _ & Hf). cbn in Hf.
    rewrite Hns in Hf. destruct Hf as [Hf|[Hf _]]; [discriminate|]. apply Hf. left.
  - intros i. destruct (ts !! i) as [[c p]|] eqn:E; [|reflexivity]. destruct (Hidle i c p E) as (code & out & ->). reflexivity.
Qed.

(** C39: semaphores.  In every interleaving of waits (with and without a time limit), trywaits,
    posts, reads and destruction by any number of threads below 2^30, with threads told to stop
    at any time, on a semaphore created with [initial_val]: no [ensure] fails; the value stays
    within [max_val]; of the threads that are not told to stop no more waits succeed than there
    were units to begin with and posted since; when the mutex is free the queue is a list of as
    many threads as the value says are waiting, a thread in the waiting loop that has not been
    told to stop is in it or has been given back to the scheduler (no wake-up is lost), and it
    is empty once the semaphore has been destroyed; and when no call runs and no thread was told
    to stop the value is [initial_val], plus what was posted, less the successful waits. *)
Theorem semaphore_safe n sem_id attr prot initial_val max_val threads tag o0 tr ts o :
  Z.of_nat n < 2 ^ 30 -> fresh n threads -> max_val < 2 ^ 31 ->
  sys_semaphore_create sem_id attr prot initial_val max_val threads tag = inr o0 ->
  sema_steps (idle_threads n, o0) tr (ts, o) ->
  (forall i c, ts !! i <> Some (c, Throwing)) /\ val o <= max_val /\
  Z.of_nat (tally (counted (cpus o)) tr) <= initial_val + posted tr /\
  (mutex o = None -> exists q, linked (cpus o) (sq o) q /\ NoDup q /\ Z.of_nat (length q) = Z.max 0 (- val o) /\
     (forall i c t, ts !! i = Some (c, WLoop t) -> flag stopped (cpus o) i = false -> i ∈ q \/ woken (cpus o) i) /\
     (exists_id o = false -> q = [])) /\
  ((forall i c p, ts !! i = Some (c, p) -> exists code out, p = Idle code out) -> (forall i, flag stopped (cpus o) i = false) ->
   val o = initial_val + posted tr - Z.of_nat (tally is_wait_success tr) /\ sq o = None).
Proof.
  intros Hn Hfresh Hm Hc Hs. destruct (good_created _ _ _ _ _ _ _ _ _ Hfresh Hm Hc) as [H0 Emax].
  pose proof (steps_max _ _ _ Hs) as Ems. cbn [snd] in Ems. rewrite Emax in Ems.
  pose proof (lv2_invariant _ _ _ _ _ (good n initial_val) _ H0 (good_step n initial_val Hn) tr (ts, o) Hs) as G.
  pose proof G as [[q I] _]. destruct (good_successes n initial_val tr ts o q I G) as [Hsucc Hall].
  pose proof (i_units _ _ _ _ _ I) as Hu. cbn [fst snd] in Hu.
  assert (0 <= to_wake_of ts o) as Hw.
  { unfold to_wake_of. destruct (mutex o) as [k|]; [|lia]. destruct (ts !! k) as [[ck []]|]; cbn; lia. }
  split; [|split; [|split; [|split]]].
  - intros i c Hi. destruct (i_thread _ _ _ _ _ I i c _ Hi) as (_ & Ha & _). exact Ha.
  - rewrite <- Ems. apply (val_bounds n initial_val Hn tr ts o q I).
  - lia.
  - intros Em. exists q. pose proof (i_balance _ _ _ _ _ I) as Hb. pose proof (i_nodup _ _ _ _ _ I) as Hnd. cbn [fst snd] in Hb, Hnd.
    unfold ahead_of in Hb. unfold pending_of in Hnd. rewrite Em in Hb, Hnd.
    split; [exact (i_linked _ _ _ _ _ I)|]. split; [exact Hnd|]. split; [lia|]. split.
    + intros i c t Hi Hst. destruct (i_thread _ _ _ _ _ I i c _ Hi) as (_ & _ & [H|H]); cbn [fst snd] in H; [congruence|].
      unfold pending_of in H. rewrite Em in H. destruct (decide (i ∈ [] ++ q)) as [Hq|Hq]; [left; exact Hq|right; exact H].
    + intros Ex. destruct (i_dead _ _ _ _ _ I Ex) as [Hv _]. cbn [snd] in Hv. destruct q; [reflexivity|cbn in Hb; lia].
  - intros Hidle Hns. destruct (idle_quiet _ _ _ _ _ _ I Hidle Hns) as (Em & -> & Hz). specialize (Hall Hns Hz).
    pose proof (i_balance _ _ _ _ _ I) as Hb. cbn [fst snd length] in Hb. unfold ahead_of in Hb. unfold to_wake_of in Hu. rewrite Em in Hb, Hu.
    split; [lia|]. exact (i_linked _ _ _ _ _ I).
Qed.

(** Two threads: one waits on an empty semaphore and is woken by a post of two. *)
Definition two_threads : heap :=
  list_to_map [(0%nat, mk_cpu None 1000 0 false false false false false false); (1%nat, mk_cpu None 900 0 false false false false false false)].
Definition wait_and_post : list (move call event) :=
  [Begin 0%nat (Wait 0); Act 0%nat; Act 0%nat; Act 0%nat; Act 0%nat; Act 0%nat;
   Begin 1%nat (Post 2); Act 1%nat; Act 1%nat; Act 1%nat; Act 1%nat; Act 1%nat; Act 1%nat; Act 1%nat; Act 1%nat;
   Happen Scheduled 0%nat; Act 0%nat].

Lemma two_threads_run i : runs two_threads i.
Proof.
  unfold runs, flag. destruct (two_threads !! i) as [c|] eqn:E; [|auto].
  apply elem_of_list_to_map_2 in E. repeat (apply elem_of_cons in E as [[= -> ->]|E]; [auto|]). apply elem_of_nil in E as [].
Qed.

Lemma semaphore_safe_witness :
  exists o0 tr ts o, sys_semaphore_create 16 32 SYS_SYNC_PRIORITY 0 5 two_threads 0 = inr o0 /\
    sema_steps (idle_threads 2, o0) tr (ts, o) /\ tally is_wait_success tr = 1%nat /\ val o = 0 + posted tr - 1 /\ sq o = None.
Proof.
  destruct (sys_semaphore_create 16 32 SYS_SYNC_PRIORITY 0 5 two_threads 0) as [e|o0] eqn:Ec; [vm_compute in Ec; discriminate|].
  destruct (do_moves entry result act happen running wait_and_post (idle_threads 2, o0)) as [[tr [ts o]]|] eqn:Em;
    [|injection Ec as <-; vm_compute in Em; discriminate].
  pose proof (lv2_schedule _ _ _ _ _ _ _ _ _ Em) as Hs. exists o0, tr, ts, o. split; [reflexivity|]. split; [exact Hs|].
  assert (fresh 2 two_threads) as Hf.
  { split; [vm_compute; reflexivity|]. exact two_threads_run. }
  destruct (semaphore_safe 2 16 32 SYS_SYNC_PRIORITY 0 5 two_threads 0 o0 tr ts o ltac:(lia) Hf ltac:(lia) Ec Hs) as (_ & _ & _ & _ & H).
  injection Ec as <-. vm_compute in Em. injection Em as <- <- <-.
  destruct H as [Hv Hq].
  - intros [|[|i]] c p Hi; try discriminate; injection Hi as <- <-; eauto.
  - intros i. cbn [cpus]. unfold flag. destruct (_ !! i) as [c|] eqn:E; [|reflexivity].
    apply elem_of_map_to_list in E. vm_compute in E.
    repeat (apply elem_of_cons in E as [[= -> ->]|E]; [reflexivity|]). apply elem_of_nil in E as [].
  - split; [vm_compute; reflexivity|]. split; [exact Hv|exact Hq].
Defined.

(** A thread told to stop may return CELL_OK without a unit, and stay queued: it waits to be
    rescheduled after its time limit, is told to stop, leaves [check_state] for the loop, and is
    signalled by the scheduler before it reads its state again. *)
Definition stop_and_signal : list (move call event) :=
  [Begin 0%nat (Wait 1); Act 0%nat; Act 0%nat; Act 0%nat; Act 0%nat; Act 0%nat; Expire 0%nat; Act 0%nat;
   Happen Stopped 0%nat; Act 0%nat; Happen Scheduled 0%nat; Act 0%nat].

Lemma stopped_wait_spurious :
  exists o0 tr ts o, sys_semaphore_create 16 32 SYS_SYNC_PRIORITY 0 5 two_threads 0 = inr o0 /\
    sema_steps (idle_threads 2, o0) tr (ts, o) /\
    tally is_wait_success tr = 1%nat /\ posted tr = 0 /\ sq o = Some 0%nat.
Proof.
  destruct (sys_semaphore_create 16 32 SYS_SYNC_PRIORITY 0 5 two_threads 0) as [e|o0] eqn:Ec; [vm_compute in Ec; discriminate|].
  destruct (do_moves entry result act happen running stop_and_signal (idle_threads 2, o0)) as [[tr [ts o]]|] eqn:Em;
    [|injection Ec as <-; vm_compute in Em; discriminate].
  exists o0, tr, ts, o. split; [reflexivity|]. split; [exact (lv2_schedule _ _ _ _ _ _ _ _ _ Em)|].
  injection Ec as <-. vm_compute in Em. injection Em as <- <- <-. vm_compute. auto.
Qed.
