(* ===== verification/Lv2Sched.v ===== *)
(** * The scheduler of PPU threads (Emu/Cell/lv2/lv2.cpp, sys_sync.h)

    The kernel keeps the runnable threads in a list [g_ppu] linked by [next_ppu], by priority;
    the first [ppu_threads] of them run.  A thread that has to give way is flagged [suspend] and
    counted in [g_pending] until it acknowledges; while any is counted nobody is started.
    [g_waiting] holds the time limits of sleeping threads.  All of it is changed under the lock
    [g_mutex], so each operation is one action on the record [sched].

    The list is the list of its threads from [g_ppu] on; threads are numbers.  The calling
    thread is [current], if it is a PPU thread; [to_awake] is its thread-local [g_to_awake];
    [now] and [tsc] are the host's clocks.  An [ensure] that fails gives [None].  Not modelled:
    SPU threads in [g_to_sleep], the notifications of host threads and of reservations, logging. *)

From Stdlib Require Import ZArith Lia Bool.
From stdpp Require Import base numbers list option gmap sets.
From S2P Require Import Prelude.

(** What the scheduler uses of a thread: [prio] and [order] of its priority, flags of its state,
    and whether it is in the call that starts a thread ([gpr[11] == 0x35]). *)
Record ppu := mk_ppu {
  prio : Z; order : Z;
  suspend : bool; signal : bool; notify : bool; wait : bool; yield_flag : bool; preempt : bool;
  ack_suspend : bool; cancel_sleep : Z; start_time : Z; end_time : Z; raddr : Z; hw_sleep_time : Z;
  is_create_thread : bool
}.

Definition with_prio (p o : Z) (c : ppu) : ppu :=
  mk_ppu p o (suspend c) (signal c) (notify c) (wait c) (yield_flag c) (preempt c) (ack_suspend c) (cancel_sleep c)
    (start_time c) (end_time c) (raddr c) (hw_sleep_time c) (is_create_thread c).
Definition with_suspend (b : bool) (c : ppu) : ppu :=
  mk_ppu (prio c) (order c) b (signal c) (notify c) (wait c) (yield_flag c) (preempt c) (ack_suspend c) (cancel_sleep c)
    (start_time c) (end_time c) (raddr c) (hw_sleep_time c) (is_create_thread c).
Definition with_notify (b : bool) (c : ppu) : ppu :=
  mk_ppu (prio c) (order c) (suspend c) (signal c) b (wait c) (yield_flag c) (preempt c) (ack_suspend c) (cancel_sleep c)
    (start_time c) (end_time c) (raddr c) (hw_sleep_time c) (is_create_thread c).
Definition with_preempt (b : bool) (c : ppu) : ppu :=
  mk_ppu (prio c) (order c) (suspend c) (signal c) (notify c) (wait c) (yield_flag c) b (ack_suspend c) (cancel_sleep c)
    (start_time c) (end_time c) (raddr c) (hw_sleep_time c) (is_create_thread c).
Definition with_ack (b : bool) (c : ppu) : ppu :=
  mk_ppu (prio c) (order c) (suspend c) (signal c) (notify c) (wait c) (yield_flag c) (preempt c) b (cancel_sleep c)
    (start_time c) (end_time c) (raddr c) (hw_sleep_time c) (is_create_thread c).
Definition with_cancel (z : Z) (c : ppu) : ppu :=
  mk_ppu (prio c) (order c) (suspend c) (signal c) (notify c) (wait c) (yield_flag c) (preempt c) (ack_suspend c) z
    (start_time c) (end_time c) (raddr c) (hw_sleep_time c) (is_create_thread c).
Definition with_times (r t e : Z) (c : ppu) : ppu :=
  mk_ppu (prio c) (order c) (suspend c) (signal c) (notify c) (wait c) (yield_flag c) (preempt c) (ack_suspend c) (cancel_sleep c)
    t e r (hw_sleep_time c) (is_create_thread c).
Definition with_delay (b : bool) (z : Z) (c : ppu) : ppu :=
  mk_ppu (prio c) (order c) (suspend c) (signal c) (notify c) (wait c) b (preempt c) (ack_suspend c) (cancel_sleep c)
    (start_time c) (end_time c) (raddr c) z (is_create_thread c).

(** Flags of a thread whose turn has come; [yield] and [preempt] go if it was sleeping. *)
Definition signalled (c : ppu) : ppu :=
  let slept := negb (start_time c =? 0) in
  mk_ppu (prio c) (order c) false true (notify c) (wait c) (yield_flag c && negb slept) (preempt c && negb slept) (ack_suspend c)
    (cancel_sleep c) 0 (end_time c) (raddr c) (hw_sleep_time c) (is_create_thread c).

Record sched := mk_sched {
  threads : gmap nat ppu; g_ppu : list nat; g_pending : Z; g_waiting : list (Z * nat); g_to_sleep : list nat;
  g_scheduler_ready : bool; g_priority_order_tag : Z;
  s_yield_frequency : Z; s_max_allowed_yield_tsc : Z; s_last_yield_tsc : Z
}.

Definition with_threads (m : gmap nat ppu) (s : sched) : sched :=
  mk_sched m (g_ppu s) (g_pending s) (g_waiting s) (g_to_sleep s) (g_scheduler_ready s) (g_priority_order_tag s)
    (s_yield_frequency s) (s_max_allowed_yield_tsc s) (s_last_yield_tsc s).
Definition with_list (l : list nat) (s : sched) : sched :=
  mk_sched (threads s) l (g_pending s) (g_waiting s) (g_to_sleep s) (g_scheduler_ready s) (g_priority_order_tag s)
    (s_yield_frequency s) (s_max_allowed_yield_tsc s) (s_last_yield_tsc s).
Definition with_pending (z : Z) (s : sched) : sched :=
  mk_sched (threads s) (g_ppu s) z (g_waiting s) (g_to_sleep s) (g_scheduler_ready s) (g_priority_order_tag s)
    (s_yield_frequency s) (s_max_allowed_yield_tsc s) (s_last_yield_tsc s).
Definition with_waiting (l : list (Z * nat)) (s : sched) : sched :=
  mk_sched (threads s) (g_ppu s) (g_pending s) l (g_to_sleep s) (g_scheduler_ready s) (g_priority_order_tag s)
    (s_yield_frequency s) (s_max_allowed_yield_tsc s) (s_last_yield_tsc s).
Definition with_to_sleep (l : list nat) (s : sched) : sched :=
  mk_sched (threads s) (g_ppu s) (g_pending s) (g_waiting s) l (g_scheduler_ready s) (g_priority_order_tag s)
    (s_yield_frequency s) (s_max_allowed_yield_tsc s) (s_last_yield_tsc s).
Definition with_ready (b : bool) (s : sched) : sched :=
  mk_sched (threads s) (g_ppu s) (g_pending s) (g_waiting s) (g_to_sleep s) b (g_priority_order_tag s)
    (s_yield_frequency s) (s_max_allowed_yield_tsc s) (s_last_yield_tsc s).
Definition with_tag (z : Z) (s : sched) : sched :=
  mk_sched (threads s) (g_ppu s) (g_pending s) (g_waiting s) (g_to_sleep s) (g_scheduler_ready s) z
    (s_yield_frequency s) (s_max_allowed_yield_tsc s) (s_last_yield_tsc s).
Definition with_tsc (f m l : Z) (s : sched) : sched :=
  mk_sched (threads s) (g_ppu s) (g_pending s) (g_waiting s) (g_to_sleep s) (g_scheduler_ready s) (g_priority_order_tag s) f m l.

Definition on (i : nat) (f : ppu -> ppu) (s : sched) : sched := with_threads (alter f i (threads s)) s.
Definition no_thread : ppu := mk_ppu 0 0 true false false false false false false 0 0 0 0 0 false.
Definition thread (s : sched) (i : nat) : ppu := default no_thread (threads s !! i).

(** ** The lists *)

Definition is_nil {A} (l : list A) : bool := match l with [] => true | _ => false end.

Definition remove_one (i : nat) (l : list nat) : option (list nat) :=
  match list_find (fun j => j = i) l with Some (k, _) => Some (delete k l) | None => None end.

(** Register a time limit: before the first later one. *)
Fixpoint register (t : Z) (i : nat) (l : list (Z * nat)) : list (Z * nat) :=
  match l with
  | [] => [(t, i)]
  | (t', j) :: l' => if t <? t' then (t, i) :: l else (t', j) :: register t i l'
  end.
Fixpoint unregister (i : nat) (l : list (Z * nat)) : list (Z * nat) :=
  match l with
  | [] => []
  | (t, j) :: l' => if decide (j = i) then l' else (t, j) :: unregister i l'
  end.

(** The walk of [emplace_thread]: behind the threads of the same or a higher priority (a lower
    number); [None] if the thread is met. *)
Fixpoint insert_prio (p : nat -> Z) (i : nat) (l : list nat) : option (list nat) :=
  match l with
  | [] => Some [i]
  | j :: l' => if decide (j = i) then None
               else if p i <? p j then Some (i :: l)
               else match insert_prio p i l' with Some r => Some (j :: r) | None => None end
  end.

(** The threads of the same priority that follow. *)
Fixpoint same_prio (p : nat -> Z) (x : Z) (l : list nat) : list nat * list nat :=
  match l with
  | [] => ([], [])
  | j :: l' => if p j =? x then let '(a, b) := same_prio p x l' in (j :: a, b) else ([], l)
  end.

Definition u64_max : Z := 2 ^ 64 - 1.
Definition wait_until (start_time timeout : Z) : Z := start_time + Z.min timeout (u64_max - start_time).

Definition sleep_unlocked (i : nat) (timeout current_time : Z) (s : sched) : option (bool * sched) :=
  let c := thread s i in
  let s := if ack_suspend c then with_pending (u32 (g_pending s - 1)) (on i (with_ack false) s) else s in
  let return_val := negb (cancel_sleep c =? 2) in
  let s := on i (with_cancel 0) s in
  if signal c then Some (false, s)
  else if negb (timeout =? 0) && notify c then None
  else
    let s := on i (with_suspend true) s in
    match remove_one i (g_ppu s) with
    | None =>
        match remove_one i (g_to_sleep s) with
        | Some l => Some (true, on i (with_times (raddr c) current_time (end_time c)) (with_to_sleep l s))
        | None => Some (false, s)
        end
    | Some l =>
        let until := wait_until current_time timeout in
        let s := on i (with_times 0 current_time (if timeout =? 0 then u64_max else until)) (with_list l s) in
        Some (return_val, if timeout =? 0 then s else with_waiting (register until i (g_waiting s)) s)
    end.

(** ** awake *)

Inductive command := Set_priority (prio : Z) | Yield | Enqueue.

(** The settings used: [ppu_threads], and whether [sleep_timers_accuracy] is [_all_timers]. *)
Record config := mk_config { ppu_threads : nat; all_timers : bool }.

Definition set_prio (i : nat) (value : Z) (increment_order_last increment_order_first : bool) (s : sched) : sched :=
  let s := if increment_order_first || increment_order_last then with_tag (g_priority_order_tag s + 1) s else s in
  let tag := g_priority_order_tag s in
  on i (fun c => with_prio (sint 13 value) (if increment_order_first then sint 50 (Z.lnot tag) else if increment_order_last then sint 50 tag else order c) c) s.

(** The command: [inl] to return, [inr] to go on. *)
Definition command_of (cfg : config) (cmd : command) (cpu current : option nat) (now : Z) (s : sched) : (bool * sched) + sched :=
  match cmd, cpu with
  | Set_priority p, Some i =>
      let old_prio := prio (thread s i) in
      if (old_prio =? p) && bool_decide (current = Some i) then inl (true, set_prio i p false false s)
      else match remove_one i (g_ppu s) with
           | None => inl (true, set_prio i p (p <? old_prio) (old_prio <? p) s)
           | Some l => inr (set_prio i p false false (with_list l s))
           end
  | Yield, Some i =>
      match list_find (fun j => j = i) (g_ppu s) with
      | None => inl (false, s)
      | Some (k, _) =>
          let '(same, rest) := same_prio (fun j => prio (thread s j)) (prio (thread s i)) (drop (S k) (g_ppu s)) in
          match same with
          | [] => inl (false, s)
          | _ => let s := with_list (take k (g_ppu s) ++ same ++ i :: rest) s in
                 if (k + length same <? ppu_threads cfg)%nat then inl (false, s)
                 else inr (on i (fun c => with_times (raddr c) now (end_time c) c) s)
          end
      end
  | _, _ => inr s
  end.

Definition emplace_thread (i : nat) (s : sched) : bool * sched :=
  match insert_prio (fun j => prio (thread s j)) i (g_ppu s) with
  | None => (false, if cancel_sleep (thread s i) =? 1 then on i (with_cancel 2) s else s)
  | Some l => (true, with_waiting (unregister i (g_waiting s)) (with_list l s))
  end.

(** The threads to put back; whether the list changed, and the lowest number of a new one. *)
Fixpoint emplace_threads (l : list nat) (changed : bool) (lowest : Z) (s : sched) : bool * Z * sched :=
  match l with
  | [] => (changed, lowest, s)
  | i :: l => let '(b, s) := emplace_thread i s in
              if b then emplace_threads l true (Z.min (s32 (prio (thread s i))) lowest) s else emplace_threads l changed lowest s
  end.

(** Suspend the threads behind the first [ppu_threads]. *)
Fixpoint suspend_threads (l : list nat) (s : sched) : sched :=
  match l with
  | [] => s
  | i :: l => suspend_threads l
      (if suspend (thread s i) then s
       else with_pending (u32 (g_pending s + 1)) (on i (fun c => with_ack true (with_suspend true c)) s))
  end.

Definition acknowledge (current : option nat) (s : sched) : option sched :=
  match current with
  | Some k => if ack_suspend (thread s k)
              then (if g_pending s =? 0 then None else Some (with_pending (u32 (g_pending s - 1)) (on k (with_ack false) s)))
              else Some s
  | None => Some s
  end.

(** The delay of a caller that starts a thread of higher priority. *)
Definition delay_caller (cfg : config) (cpu current : option nat) (changed free : bool) (lowest : Z) (s : sched) : sched :=
  match current with
  | Some k =>
      let c := thread s k in
      if negb (bool_decide (cpu = Some k)) && changed && free && (lowest <? prio c) && (is_create_thread c || all_timers cfg)
      then on k (with_delay true (if negb (yield_flag c) || negb (hw_sleep_time c =? 0) then u32 (hw_sleep_time c + 100) else 30000)) s
      else s
  | None => s
  end.

Record ppu_non_sleeping_count_t := mk_count { has_running : bool; onproc_count : nat }.
Definition count_non_sleeping_threads (cfg : config) (s : sched) : ppu_non_sleeping_count_t :=
  mk_count (ppu_threads cfg <? length (g_ppu s))%nat (Nat.min (length (g_ppu s)) (ppu_threads cfg)).

Definition awake_unlocked (cfg : config) (cpu : option nat) (cmd : command) (current : option nat) (to_awake : list nat) (now : Z)
  (s : sched) : option (bool * sched) :=
  match command_of cfg cmd cpu current now s with
  | inl r => Some r
  | inr s =>
      let is_yield := match cmd with Yield => true | _ => false end in
      let free := (onproc_count (count_non_sleeping_threads cfg s) <? ppu_threads cfg)%nat in
      let put_back := match cpu with Some i => if is_yield then to_awake else [i] | None => to_awake end in
      let '(changed, lowest, s) := emplace_threads put_back is_yield (2 ^ 31 - 1) s in
      let s := suspend_threads (drop (ppu_threads cfg) (g_ppu s)) s in
      match acknowledge current s with
      | None => None
      | Some s => Some (changed, delay_caller cfg cpu current changed free lowest s)
      end
  end.

(** ** schedule_all *)

(** Start the threads in front. *)
Fixpoint start_threads (l : list nat) (s : sched) : sched :=
  match l with
  | [] => s
  | i :: l => start_threads l (if suspend (thread s i) then on i signalled s else s)
  end.

(** The time limits that have passed: their threads are told to wake themselves. *)
Fixpoint expire (current_time : Z) (current : option nat) (l : list (Z * nat)) (s : sched) : option sched :=
  match l with
  | [] => Some (with_waiting [] s)
  | (t, i) :: l' =>
      if t <=? current_time then
        (if bool_decide (current = Some i) then expire current_time current l' s
         else if notify (thread s i) then None
         else expire current_time current l' (on i (with_notify true) s))
      else Some (with_waiting l s)
  end.

(** A thread to preempt: in front, neither preempted nor waiting; or else the first; or else the
    caller. *)
Definition to_preempt (cfg : config) (current : option nat) (s : sched) : option nat :=
  match list_find (fun i => negb (preempt (thread s i)) && negb (wait (thread s i)) = true) (take (ppu_threads cfg) (g_ppu s)) with
  | Some (_, i) => Some i
  | None =>
      match g_ppu s with
      | i :: _ => if negb (preempt (thread s i)) then Some i
                  else match current with Some k => if negb (suspend (thread s k)) then Some k else None | None => None end
      | [] => match current with Some k => if negb (suspend (thread s k)) then Some k else None | None => None end
      end
  end.
Definition preempt_thread (cfg : config) (current : option nat) (tsc : Z) (s : sched) : sched :=
  if (s_yield_frequency s =? 0) then s
  else if (s_last_yield_tsc s <=? tsc) && (tsc <=? s_max_allowed_yield_tsc s) && (s_yield_frequency s <=? tsc - s_last_yield_tsc s) then
    match to_preempt cfg current s with
    | Some i => if preempt (thread s i) then s
                else with_tsc (s_yield_frequency s) (s_max_allowed_yield_tsc s) tsc (on i (with_preempt true) s)
    | None => s
    end
  else s.

Definition schedule_all (cfg : config) (current : option nat) (current_time tsc : Z) (s : sched) : option sched :=
  let s := if (g_pending s =? 0) && g_scheduler_ready s then start_threads (take (ppu_threads cfg) (g_ppu s)) s else s in
  match expire current_time current (g_waiting s) s with
  | None => None
  | Some s => Some (preempt_thread cfg current tsc s)
  end.

(** ** The operations *)

Definition sleep (cfg : config) (i : nat) (timeout : Z) (current : option nat) (to_awake : list nat) (now tsc : Z) (s : sched)
  : option (bool * sched) :=
  match sleep_unlocked i timeout now s with
  | None => None
  | Some (result, s) =>
      match (if is_nil to_awake then Some (false, s) else awake_unlocked cfg None Enqueue current to_awake now s) with
      | None => None
      | Some (_, s) => match schedule_all cfg current now tsc s with None => None | Some s => Some (result, s) end
      end
  end.

Definition awake (cfg : config) (cpu : option nat) (cmd : command) (current : option nat) (to_awake : list nat) (now tsc : Z) (s : sched)
  : option (bool * sched) :=
  match awake_unlocked cfg cpu cmd current to_awake now s with
  | None => None
  | Some (result, s) => match schedule_all cfg current now tsc s with None => None | Some s => Some (result, s) end
  end.

(** The successor of a thread in the list. *)
Definition next_ppu (i : nat) (s : sched) : option nat :=
  match list_find (fun j => j = i) (g_ppu s) with Some (k, _) => g_ppu s !! S k | None => None end.

Definition yield (cfg : config) (i : nat) (current : option nat) (to_awake : list nat) (now tsc : Z) (s : sched) : option (bool * sched) :=
  let s := on i (fun c => with_times 0 (start_time c) (end_time c) c) s in
  match next_ppu i s with
  | None => Some (false, s)
  | Some _ => awake cfg (Some i) Yield current to_awake now tsc s
  end.

Definition set_priority (cfg : config) (i : nat) (p : Z) (current : option nat) (to_awake : list nat) (now tsc : Z) (s : sched)
  : option (bool * sched) :=
  if u32 (p + 512) <? 3712 then awake cfg (Some i) (Set_priority p) current to_awake now tsc s else None.

Definition awake_all (cfg : config) (current : option nat) (to_awake : list nat) (now tsc : Z) (s : sched) : option (bool * sched) :=
  awake cfg None Enqueue current to_awake now tsc s.

Definition make_scheduler_ready (cfg : config) (current : option nat) (to_awake : list nat) (now tsc : Z) (s : sched) : option (bool * sched) :=
  awake_all cfg current to_awake now tsc (with_ready true s).

Definition cleanup (s : sched) : sched :=
  with_tsc 0 (s_max_allowed_yield_tsc s) (s_last_yield_tsc s)
    (with_pending 0 (with_waiting [] (with_to_sleep [] (with_ready false (with_list [] s))))).

Definition set_future_sleep (i : nat) (s : sched) : sched := with_to_sleep (g_to_sleep s ++ [i]) s.
Definition is_scheduler_ready (s : sched) : bool := is_nil (g_to_sleep s).
Definition set_yield_frequency (freq max_allowed_tsc : Z) (s : sched) : sched := with_tsc freq max_allowed_tsc (s_last_yield_tsc s) s.
Definition get_running_ppu (cfg : config) (index : nat) (s : sched) : option nat :=
  if (ppu_threads cfg <=? index)%nat then None else g_ppu s !! index.

Inductive ppu_thread_status := PPU_THREAD_STATUS_STOP | PPU_THREAD_STATUS_SLEEP | PPU_THREAD_STATUS_RUNNABLE | PPU_THREAD_STATUS_ONPROC.
(** [ppu_state] of a thread that is neither idle nor has exited. *)
Definition ppu_state (cfg : config) (i : nat) (interrupt_thread_executing : bool) (s : sched) : ppu_thread_status * nat :=
  match list_find (fun j => j = i) (g_ppu s) with
  | None => (if interrupt_thread_executing then PPU_THREAD_STATUS_SLEEP else PPU_THREAD_STATUS_STOP, 0%nat)
  | Some (pos, _) => (if (ppu_threads cfg <=? pos)%nat then PPU_THREAD_STATUS_RUNNABLE else PPU_THREAD_STATUS_ONPROC, pos)
  end.
