(* ===== verification/Lv2Run.v ===== *)
(** * The scheduler keeps the highest priorities running

    The invariant of Lv2Sched is about what is left of a thread in [core]: its priority and
    whether it is suspended and has still to acknowledge it.  [base] holds at every point of an
    operation (but for a thread whose priority is being changed, [ex]); [ok] between
    operations. *)

From Stdlib Require Import ZArith Lia Bool.
From stdpp Require Import base numbers list option gmap sets sorting.
From S2P Require Import Prelude Lv2Sched.
#[local] Set Warnings "-clear-no-such-hyp".

Record core := mk_core { k_prio : Z; k_suspend : bool; k_ack : bool }.
Definition core_of (c : ppu) : core := mk_core (prio c) (suspend c) (ack_suspend c).
Definition view (s : sched) : gmap nat core := core_of <$> threads s.
Definition at_ (v : gmap nat core) (i : nat) : core := default (mk_core 0 true false) (v !! i).

Definition acks (v : gmap nat core) : nat := size (filter (fun kv => k_ack (snd kv) = true) v).
Definition runs (v : gmap nat core) (i : nat) : Prop := k_suspend (at_ v i) = false \/ k_ack (at_ v i) = true.
Definition by_prio (v : gmap nat core) (i j : nat) : Prop := k_prio (at_ v i) <= k_prio (at_ v j).

Record base_ok (N : nat) (ex : option nat) (v : gmap nat core) (l : list nat) (p : Z) (w : list (Z * nat)) : Prop := mk_base {
  b_nodup : NoDup l;
  b_dom : forall i, i ∈ l -> is_Some (v !! i);
  b_sorted : StronglySorted (by_prio v) l;
  b_out : forall i c, v !! i = Some c -> i ∉ l -> ex <> Some i -> k_suspend c = true /\ k_ack c = false;
  b_ack : forall i c, v !! i = Some c -> k_ack c = true -> k_suspend c = true;
  b_pending : p = Z.of_nat (acks v);
  b_small : Z.of_nat (size v) < 2 ^ 32;
  b_times : StronglySorted (fun a b : Z * nat => fst a <= fst b) w;
  b_waiting : NoDup (map snd w);
  b_asleep : forall i, i ∈ map snd w -> i ∉ l;
  b_run : exists r, NoDup r /\ (length r <= N)%nat /\ forall i, runs v i -> i ∈ r
}.

(** ** Counting acknowledgements *)

Lemma acks_insert_new v i c : v !! i = None -> acks (<[i := c]> v) = (acks v + (if k_ack c then 1 else 0))%nat.
Proof.
  intros E. unfold acks. destruct (k_ack c) eqn:Ec.
  - rewrite map_filter_insert_True by exact Ec. rewrite map_size_insert_None; [lia|]. apply map_lookup_filter_None. auto.
  - rewrite map_filter_insert_False by (cbn; congruence). rewrite delete_id by exact E. lia.
Qed.

Lemma acks_insert v i c c' : v !! i = Some c ->
  (acks (<[i := c']> v) + (if k_ack c then 1 else 0) = acks v + (if k_ack c' then 1 else 0))%nat.
Proof.
  intros E. rewrite <- (insert_delete_id v i c E) at 2. rewrite <- (insert_delete_eq v i c').
  rewrite !acks_insert_new by apply lookup_delete_eq. destruct (k_ack c), (k_ack c'); lia.
Qed.

Lemma acks_le v : (acks v <= size v)%nat.
Proof. unfold acks. rewrite <- !size_dom. apply subseteq_size, dom_filter_subseteq. Qed.

Lemma acks_pos v i c : v !! i = Some c -> k_ack c = true -> (0 < acks v)%nat.
Proof.
  intros E Hc. pose proof (acks_insert v i c (mk_core (k_prio c) (k_suspend c) false) E) as H. rewrite Hc in H. cbn in H. lia.
Qed.

Lemma acks_none v : acks v = 0%nat -> forall i, k_ack (at_ v i) = false.
Proof.
  intros H i. unfold at_. destruct (v !! i) as [c|] eqn:E; [|reflexivity]. cbn. destruct (k_ack c) eqn:Ec; [|reflexivity].
  pose proof (acks_pos v i c E Ec). lia.
Qed.

Lemma at_insert v i c j : at_ (<[i := c]> v) j = if decide (i = j) then c else at_ v j.
Proof. unfold at_. destruct (decide (i = j)) as [->|Hne]; [rewrite lookup_insert_eq|rewrite lookup_insert_ne by exact Hne]; reflexivity. Qed.
Lemma at_some v i c : v !! i = Some c -> at_ v i = c.
Proof. intros E. unfold at_. rewrite E. reflexivity. Qed.

Lemma sorted_ext v v' l : (forall i, i ∈ l -> k_prio (at_ v' i) = k_prio (at_ v i)) -> StronglySorted (by_prio v) l -> StronglySorted (by_prio v') l.
Proof.
  intros Hp. induction 1 as [|i l Hs IH Hf]; [constructor|]. constructor; [apply IH; intros j Hj; apply Hp; right; exact Hj|].
  rewrite Forall_forall in Hf |- *. intros j Hj. unfold by_prio. rewrite !Hp by (left || right; exact Hj). apply Hf, Hj.
Qed.

(** ** Changes of one thread, of the list, of the time limits *)

Section Base.
Context (N : nat).
Implicit Types (v : gmap nat core) (l : list nat) (w : list (Z * nat)).

(** A thread changes and no thread starts to run. *)
Lemma base_thread ex v l p w i c c' p' :
  base_ok N ex v l p w -> v !! i = Some c -> k_prio c' = k_prio c -> (k_ack c' = true -> k_suspend c' = true) ->
  (i ∉ l -> ex <> Some i -> k_suspend c' = true /\ k_ack c' = false) ->
  p' + (if k_ack c then 1 else 0) = p + (if k_ack c' then 1 else 0) ->
  (k_suspend c' = false \/ k_ack c' = true -> k_suspend c = false \/ k_ack c = true) ->
  base_ok N ex (<[i := c']> v) l p' w.
Proof.
  intros [B1 B2 B3 B4 B5 B6 B7 B8 B9 B10 (r & R1 & R2 & R3)] Hi Hp Ha Hout Hpend Hrun. constructor; auto.
  - intros j Hj. rewrite lookup_insert_is_Some'. auto.
  - revert B3. apply sorted_ext. intros j _. rewrite at_insert. destruct (decide (i = j)) as [<-|]; [|reflexivity].
    rewrite Hp, (at_some v i c Hi). reflexivity.
  - intros j cj. destruct (decide (i = j)) as [<-|Hne]; [rewrite lookup_insert_eq; intros [= <-]; auto|rewrite lookup_insert_ne by exact Hne; apply B4].
  - intros j cj. destruct (decide (i = j)) as [<-|Hne]; [rewrite lookup_insert_eq; intros [= <-]; auto|rewrite lookup_insert_ne by exact Hne; apply B5].
  - pose proof (acks_insert v i c c' Hi) as H. destruct (k_ack c), (k_ack c'); lia.
  - rewrite map_size_insert_Some by eauto. exact B7.
  - exists r. repeat split; auto. intros j Hj. apply R3. revert Hj. unfold runs. rewrite at_insert.
    destruct (decide (i = j)) as [<-|]; [rewrite (at_some v i c Hi)|]; auto.
Qed.

(** The priority of a thread outside the list. *)
Lemma base_prio ex v l p w i c x :
  base_ok N ex v l p w -> v !! i = Some c -> i ∉ l -> base_ok N ex (<[i := mk_core x (k_suspend c) (k_ack c)]> v) l p w.
Proof.
  intros [B1 B2 B3 B4 B5 B6 B7 B8 B9 B10 (r & R1 & R2 & R3)] Hi Hil. constructor; auto.
  - intros j Hj. rewrite lookup_insert_is_Some'. auto.
  - revert B3. apply sorted_ext. intros j Hj. rewrite at_insert. rewrite decide_False by congruence. reflexivity.
  - intros j cj. destruct (decide (i = j)) as [<-|Hne]; [rewrite lookup_insert_eq; intros [= <-]; cbn; eauto|rewrite lookup_insert_ne by exact Hne; apply B4].
  - intros j cj. destruct (decide (i = j)) as [<-|Hne]; [rewrite lookup_insert_eq; intros [= <-]; cbn; eauto|rewrite lookup_insert_ne by exact Hne; apply B5].
  - pose proof (acks_insert v i c (mk_core x (k_suspend c) (k_ack c)) Hi) as H. cbn in H. destruct (k_ack c); lia.
  - rewrite map_size_insert_Some by eauto. exact B7.
  - exists r. repeat split; auto. intros j Hj. apply R3. revert Hj. unfold runs. rewrite at_insert.
    destruct (decide (i = j)) as [<-|]; [rewrite (at_some v i c Hi)|]; auto.
Qed.

Lemma sorted_delete (R : nat -> nat -> Prop) l1 x l2 : StronglySorted R (l1 ++ x :: l2) -> StronglySorted R (l1 ++ l2).
Proof.
  induction l1 as [|y l1 IH]; cbn; intros H; apply StronglySorted_inv in H as [Hs Hf]; [exact Hs|].
  constructor; [auto|]. rewrite Forall_app, Forall_cons in Hf. rewrite Forall_app. tauto.
Qed.

(** A thread leaves the list. *)
Lemma base_leave v l1 i l2 p w : base_ok N None v (l1 ++ i :: l2) p w -> base_ok N (Some i) v (l1 ++ l2) p w.
Proof.
  intros [B1 B2 B3 B4 B5 B6 B7 B8 B9 B10 B11]. constructor; auto.
  - rewrite <- Permutation_middle in B1. apply NoDup_cons in B1. tauto.
  - intros j Hj. apply B2. set_solver.
  - eapply sorted_delete, B3.
  - intros j c Hj Hn Hne. apply (B4 j c Hj); [|discriminate]. intros H. apply Hn.
    apply elem_of_app in H as [H|[->|H]%elem_of_cons]; [set_solver|congruence|set_solver].
  - intros j Hj H. apply (B10 j Hj). set_solver.
Qed.

(** It may be left out of the exception when it does not run. *)
Lemma base_asleep v l p w i c :
  base_ok N (Some i) v l p w -> v !! i = Some c -> k_suspend c = true -> k_ack c = false -> base_ok N None v l p w.
Proof.
  intros [B1 B2 B3 B4 B5 B6 B7 B8 B9 B10 B11] Hi Hs Ha. constructor; auto.
  intros j cj Hj Hn _. destruct (decide (i = j)) as [<-|Hne]; [|apply (B4 j cj Hj Hn); congruence].
  rewrite Hi in Hj. injection Hj as <-. auto.
Qed.

Lemma NoDup_unregister i w : NoDup (map snd w) -> NoDup (map snd (unregister i w)) /\ (i ∉ map snd (unregister i w)) /\
  (forall j, j ∈ map snd (unregister i w) -> j ∈ map snd w).
Proof.
  induction w as [|[t j] w IH]; cbn; [set_solver|]. intros [Hj Hw]%NoDup_cons. case_decide as Hji; [subst; set_solver|].
  destruct (IH Hw) as (H1 & H2 & H3). cbn. rewrite NoDup_cons. set_solver.
Qed.
Lemma sorted_unregister i w : StronglySorted (fun a b : Z * nat => fst a <= fst b) w -> StronglySorted (fun a b : Z * nat => fst a <= fst b) (unregister i w).
Proof.
  induction w as [|[t j] w IH]; cbn; [auto|]. intros [Hs Hf]%StronglySorted_inv. case_decide; [exact Hs|]. constructor; [auto|].
  clear -Hf. induction w as [|[t' j'] w IH]; cbn in *; [constructor|]. apply Forall_cons in Hf as [H1 H2]. case_decide; [exact H2|]. constructor; auto.
Qed.

(** The walk of [insert_prio] on a sorted list. *)
Lemma insert_prio_spec v i l :
  StronglySorted (by_prio v) l ->
  match insert_prio (fun j => k_prio (at_ v j)) i l with
  | None => i ∈ l
  | Some l' => (i ∉ l) /\ exists l1 l2, l = l1 ++ l2 /\ l' = l1 ++ i :: l2 /\
      (forall j, j ∈ l1 -> k_prio (at_ v j) <= k_prio (at_ v i)) /\ (forall j, j ∈ l2 -> k_prio (at_ v i) < k_prio (at_ v j))
  end.
Proof.
  induction l as [|j l IH]; cbn; intros Hs.
  - split; [set_solver|]. exists [], []. set_solver.
  - apply StronglySorted_inv in Hs as [Hs Hf]. rewrite Forall_forall in Hf. case_decide as Hji; [subst; set_solver|].
    destruct (Z.ltb_spec (k_prio (at_ v i)) (k_prio (at_ v j))).
    + split; [|exists [], (j :: l)].
      * intros [->|Hi]%elem_of_cons; [lia|]. specialize (Hf i Hi). unfold by_prio in Hf. lia.
      * split; [reflexivity|]. split; [reflexivity|]. split; [set_solver|]. intros k [->|Hk]%elem_of_cons; [lia|].
        specialize (Hf k Hk). unfold by_prio in Hf. lia.
    + specialize (IH Hs). destruct (insert_prio _ i l) as [l'|]; [|set_solver]. destruct IH as (Hi & l1 & l2 & -> & -> & H1 & H2).
      split; [set_solver|]. exists (j :: l1), l2. split; [reflexivity|]. split; [reflexivity|]. split; [|exact H2].
      intros k [->|Hk]%elem_of_cons; [lia|auto].
Qed.

Lemma sorted_insert v l1 i l2 : StronglySorted (by_prio v) (l1 ++ l2) ->
  (forall j, j ∈ l1 -> k_prio (at_ v j) <= k_prio (at_ v i)) -> (forall j, j ∈ l2 -> k_prio (at_ v i) <= k_prio (at_ v j)) ->
  StronglySorted (by_prio v) (l1 ++ i :: l2).
Proof.
  intros Hs H1 H2. induction l1 as [|j l1 IH]; cbn in *.
  - constructor; [exact Hs|]. apply Forall_forall. intros j Hj. apply H2, Hj.
  - apply StronglySorted_inv in Hs as [Hs Hf]. constructor; [apply IH; [exact Hs|intros k Hk; apply H1; right; exact Hk]|].
    rewrite Forall_app, Forall_cons in *. destruct Hf as [Hf1 Hf2]. split; [exact Hf1|]. split; [apply H1; left|exact Hf2].
Qed.

(** A thread joins the list. *)
Lemma base_join ex v l1 i l2 p w :
  base_ok N ex v (l1 ++ l2) p w -> (ex = None \/ ex = Some i) -> is_Some (v !! i) -> (i ∉ l1 ++ l2) ->
  (forall j, j ∈ l1 -> k_prio (at_ v j) <= k_prio (at_ v i)) -> (forall j, j ∈ l2 -> k_prio (at_ v i) < k_prio (at_ v j)) ->
  base_ok N None v (l1 ++ i :: l2) p (unregister i w).
Proof.
  intros [B1 B2 B3 B4 B5 B6 B7 B8 B9 B10 B11] Hex Hi Hn H1 H2. destruct (NoDup_unregister i w B9) as (W1 & W2 & W3).
  constructor; auto using sorted_unregister.
  - rewrite <- Permutation_middle. apply NoDup_cons. auto.
  - intros j Hj. apply elem_of_app in Hj as [Hj|[->|Hj]%elem_of_cons]; [apply B2; set_solver|exact Hi|apply B2; set_solver].
  - apply sorted_insert; [exact B3|exact H1|]. intros j Hj. specialize (H2 j Hj). lia.
  - intros j c Hj Hnj _. apply (B4 j c Hj); [set_solver|]. destruct Hex as [->| ->]; [discriminate|]. intros [= ->]. set_solver.
  - intros j Hj. specialize (B10 j (W3 j Hj)). rewrite elem_of_app, elem_of_cons in *. intros [H|[->|H]]; [tauto|contradiction|tauto].
Qed.

(** The list is reordered. *)
Lemma base_perm ex v l l' p w : base_ok N ex v l p w -> l' ≡ₚ l -> StronglySorted (by_prio v) l' -> base_ok N ex v l' p w.
Proof.
  intros [B1 B2 B3 B4 B5 B6 B7 B8 B9 B10 B11] Hp Hs. constructor; auto.
  - rewrite Hp. exact B1.
  - intros j. rewrite Hp. apply B2.
  - intros j c. rewrite Hp. apply B4.
  - intros j. rewrite Hp. apply B10.
Qed.
End Base.

(** ** Operations *)

Lemma core_thread s i : core_of (thread s i) = at_ (view s) i.
Proof. unfold thread, at_, view. rewrite lookup_fmap. destruct (threads s !! i); reflexivity. Qed.
Lemma prio_thread s i : prio (thread s i) = k_prio (at_ (view s) i).
Proof. rewrite <- core_thread. reflexivity. Qed.
Lemma suspend_thread s i : suspend (thread s i) = k_suspend (at_ (view s) i).
Proof. rewrite <- core_thread. reflexivity. Qed.
Lemma ack_thread s i : ack_suspend (thread s i) = k_ack (at_ (view s) i).
Proof. rewrite <- core_thread. reflexivity. Qed.

Lemma view_on i f s c : threads s !! i = Some c -> view (on i f s) = <[i := core_of (f c)]> (view s).
Proof.
  intros E. unfold view, on. cbn [threads with_threads]. apply map_eq. intros j.
  rewrite lookup_fmap. destruct (decide (i = j)) as [<-|Hne].
  - rewrite lookup_alter_eq, lookup_insert_eq, E. reflexivity.
  - rewrite lookup_alter_ne, lookup_insert_ne, lookup_fmap by exact Hne. reflexivity.
Qed.
(** Fields that the invariant does not mention. *)
Lemma view_touch i f s : (forall c, core_of (f c) = core_of c) -> view (on i f s) = view s.
Proof.
  intros Hf. unfold view, on. cbn [threads with_threads]. apply map_eq. intros j. rewrite !lookup_fmap.
  destruct (decide (i = j)) as [<-|Hne]; [rewrite lookup_alter_eq; destruct (threads s !! i); cbn; congruence|].
  rewrite lookup_alter_ne by exact Hne. reflexivity.
Qed.

Lemma remove_one_spec i l : match remove_one i l with
  | None => i ∉ l
  | Some l' => exists l1 l2, l = l1 ++ i :: l2 /\ l' = l1 ++ l2
  end.
Proof.
  unfold remove_one. destruct (list_find _ l) as [[k x]|] eqn:E.
  - apply list_find_Some in E as (E & -> & _). exists (take k l), (drop (S k) l). rewrite take_drop_middle by exact E.
    rewrite delete_take_drop. auto.
  - apply list_find_None in E. rewrite Forall_forall in E. intros H. exact (E i H eq_refl).
Qed.

Section Ops.
Context (cfg : config).
Abbreviation N := (ppu_threads cfg).
Definition sb (ex : option nat) (s : sched) : Prop := base_ok N ex (view s) (g_ppu s) (g_pending s) (g_waiting s).
(** The threads behind the first are suspended; the first run unless an acknowledgement is due. *)
Definition back (s : sched) : Prop := forall i, i ∈ drop N (g_ppu s) -> k_suspend (at_ (view s) i) = true.
Definition front (s : sched) : Prop := g_scheduler_ready s = true -> g_pending s = 0 -> forall i, i ∈ take N (g_ppu s) -> k_suspend (at_ (view s) i) = false.
Definition ok (s : sched) : Prop := sb None s /\ back s /\ front s.

Lemma drop_delete (n : nat) (l1 : list nat) x l2 j : j ∈ drop n (l1 ++ l2) -> j ∈ drop n (l1 ++ x :: l2).
Proof.
  intros H. destruct (Nat.le_gt_cases n (length l1)) as [Hn|Hn].
  - rewrite drop_app_le in * by exact Hn. set_solver.
  - rewrite drop_app_ge in * by lia. destruct (n - length l1)%nat as [|m] eqn:Em; [lia|]. cbn [drop].
    apply list_elem_of_lookup_1 in H as [k Hk]. rewrite lookup_drop in Hk. apply (list_elem_of_lookup_2 _ (S k)). rewrite lookup_drop.
    rewrite <- Hk. f_equal. lia.
Qed.

(** An acknowledgement. *)
Lemma sb_acknowledge i s : sb None s -> back s -> ack_suspend (thread s i) = true ->
  sb None (with_pending (u32 (g_pending s - 1)) (on i (with_ack false) s)) /\
  back (with_pending (u32 (g_pending s - 1)) (on i (with_ack false) s)) /\ g_pending s <> 0.
Proof.
  intros B Hb Ha. unfold thread in Ha. destruct (threads s !! i) as [c|] eqn:E; [|discriminate]. cbn in Ha.
  assert (view s !! i = Some (core_of c)) as Ev by (unfold view; rewrite lookup_fmap, E; reflexivity).
  pose proof (b_pending _ _ _ _ _ _ B) as Hp. pose proof (acks_pos _ _ _ Ev Ha) as Hpos. pose proof (acks_le (view s)) as Hle.
  pose proof (b_small _ _ _ _ _ _ B) as Hsm. pose proof (b_ack _ _ _ _ _ _ B i _ Ev Ha) as Hsu.
  assert (u32 (g_pending s - 1) = g_pending s - 1) as Eu by (apply wrap_small; unfold in_range; lia).
  split; [|split; [|lia]].
  - unfold sb. cbn [view g_ppu g_pending g_waiting with_pending]. change (view (with_pending _ _)) with (view (on i (with_ack false) s)).
    rewrite (view_on i _ s c E), Eu. eapply base_thread; [exact B|exact Ev|reflexivity|discriminate|auto| |auto].
    cbn. unfold core_of in *. cbn in *. rewrite Ha. lia.
  - intros j Hj. change (view (with_pending _ _)) with (view (on i (with_ack false) s)). rewrite (view_on i _ s c E), at_insert.
    case_decide as Hij; [exact Hsu|]. apply Hb, Hj.
Qed.

(** A step that the invariant does not see. *)
Lemma sb_same s s' : view s' = view s -> g_ppu s' = g_ppu s -> g_pending s' = g_pending s -> g_waiting s' = g_waiting s ->
  g_scheduler_ready s' = g_scheduler_ready s -> (forall ex, sb ex s -> sb ex s') /\ (back s -> back s') /\ (front s -> front s').
Proof. intros E1 E2 E3 E4 E5. unfold sb, back, front. rewrite E1, E2, E3, E4, E5. auto. Qed.

Lemma view_there s i c : threads s !! i = Some c -> view s !! i = Some (core_of c).
Proof. intros E. unfold view. rewrite lookup_fmap, E. reflexivity. Qed.
Lemma on_there i f s c : threads s !! i = Some c -> threads (on i f s) !! i = Some (f c).
Proof. intros E. unfold on. cbn. rewrite lookup_alter_eq, E. reflexivity. Qed.

(** Suspending a thread that has nothing to acknowledge. *)
Lemma sb_suspend i s c : sb None s -> back s -> threads s !! i = Some c -> ack_suspend c = false ->
  sb None (on i (with_suspend true) s) /\ back (on i (with_suspend true) s).
Proof.
  intros B Hb E Ha. unfold sb, back. rewrite (view_on i _ s c E). split.
  - eapply base_thread; [exact B|exact (view_there s i c E)|reflexivity|auto|auto| |].
    + reflexivity.
    + cbn. intros [H|H]; [discriminate|congruence].
  - intros j Hj. rewrite at_insert. case_decide; [reflexivity|]. apply Hb, Hj.
Qed.

(** Leaving the list. *)
Lemma sb_leave i s c l1 l2 : sb None s -> back s -> threads s !! i = Some c -> ack_suspend c = false -> suspend c = true ->
  g_ppu s = l1 ++ i :: l2 -> sb None (with_list (l1 ++ l2) s) /\ back (with_list (l1 ++ l2) s) /\ (i ∉ l1 ++ l2) /\ (i ∉ map snd (g_waiting s)).
Proof.
  intros B Hb E Ha Hs El. unfold sb in B. pose proof (b_nodup _ _ _ _ _ _ B) as Hnd. rewrite El in B, Hnd.
  rewrite <- Permutation_middle in Hnd. apply NoDup_cons in Hnd as [Hi _]. split; [|split; [|split; [exact Hi|]]].
  - unfold sb. cbn. eapply base_asleep; [apply base_leave, B|exact (view_there s i c E)|exact Hs|exact Ha].
  - intros j Hj. apply Hb. rewrite El. apply drop_delete. exact Hj.
  - intros H. apply (b_asleep _ _ _ _ _ _ B i H). set_solver.
Qed.

Lemma register_spec t i w : StronglySorted (fun a b : Z * nat => fst a <= fst b) w ->
  StronglySorted (fun a b : Z * nat => fst a <= fst b) (register t i w) /\ map snd (register t i w) ≡ₚ i :: map snd w.
Proof.
  induction w as [|[t' j] w IH]; cbn; [intros _; split; [repeat constructor|reflexivity]|]. intros [Hs Hf]%StronglySorted_inv.
  destruct (Z.ltb_spec t t'); cbn.
  - split; [|reflexivity]. constructor; [constructor; assumption|]. constructor; [cbn; lia|].
    eapply Forall_impl; [exact Hf|]. intros [u k]. cbn. lia.
  - destruct (IH Hs) as [H1 H2]. split; [|rewrite H2; apply perm_swap]. constructor; [exact H1|].
    clear -Hf H. induction w as [|[u k] w IHw]; cbn; [constructor; [cbn; lia|constructor]|].
    apply Forall_cons in Hf as [Hu Hf]. destruct (t <? u); repeat constructor; auto.
Qed.

Lemma sb_register t i s : sb None s -> (i ∉ g_ppu s) -> (i ∉ map snd (g_waiting s)) -> sb None (with_waiting (register t i (g_waiting s)) s).
Proof.
  intros [B1 B2 B3 B4 B5 B6 B7 B8 B9 B10 B11] Hi Hw. destruct (register_spec t i (g_waiting s) B8) as [H1 H2].
  constructor; cbn; auto.
  - rewrite H2. apply NoDup_cons. auto.
  - intros j. rewrite H2. intros [->|Hj]%elem_of_cons; auto.
Qed.

(** What no operation changes: which threads there are, and whether the scheduler has started. *)
Definition kept (s s' : sched) : Prop := dom (threads s') = dom (threads s) /\ g_scheduler_ready s' = g_scheduler_ready s.
Lemma kept_refl s : kept s s.
Proof. split; reflexivity. Qed.
Lemma kept_trans s1 s2 s3 : kept s1 s2 -> kept s2 s3 -> kept s1 s3.
Proof. intros [A1 A2] [B1 B2]. split; congruence. Qed.
Lemma kept_on i f s s' : threads s' = threads (on i f s) -> g_scheduler_ready s' = g_scheduler_ready s -> kept s s'.
Proof. intros E Er. split; [rewrite E; apply dom_alter_L|exact Er]. Qed.
Lemma kept_there s s' i : kept s s' -> is_Some (threads s !! i) -> is_Some (threads s' !! i).
Proof. intros [E _]. rewrite <- !elem_of_dom, E. auto. Qed.
Lemma view_dom s : dom (view s) = dom (threads s).
Proof. apply dom_fmap_L. Qed.

Lemma sleep_unlocked_ok i timeout now s b s' : sb None s -> back s -> is_Some (threads s !! i) ->
  sleep_unlocked i timeout now s = Some (b, s') -> sb None s' /\ back s' /\ kept s s'.
Proof.
  intros B Hb [c E]. unfold sleep_unlocked.
  set (s1 := if ack_suspend (thread s i) then _ else s).
  assert (sb None s1 /\ back s1 /\ kept s s1 /\
          exists c1, threads s1 !! i = Some c1 /\ ack_suspend c1 = false) as (B1 & Hb1 & Hr1 & c1 & E1 & Ha1).
  { unfold s1. destruct (ack_suspend (thread s i)) eqn:Ea.
    - destruct (sb_acknowledge i s B Hb Ea) as (H1 & H2 & _). split; [exact H1|]. split; [exact H2|]. split; [apply (kept_on i (with_ack false) s); reflexivity|].
      exists (with_ack false c). split; [apply (on_there i _ s c E)|reflexivity].
    - repeat (split; [assumption || apply kept_refl|]). exists c. split; [exact E|]. unfold thread in Ea. rewrite E in Ea. exact Ea. }
  clearbody s1. set (s2 := on i (with_cancel 0) s1).
  assert (sb None s2 /\ back s2) as [B2 Hb2].
  { destruct (sb_same s1 s2) as (H1 & H2 & _); auto. apply view_touch. reflexivity. }
  assert (threads s2 !! i = Some (with_cancel 0 c1)) as E2 by (apply on_there, E1).
  assert (kept s s2) as Hr2 by (eapply kept_trans; [exact Hr1|]; apply (kept_on i (with_cancel 0) s1); reflexivity). clearbody s2. clear s1 B1 Hb1 Hr1 E1.
  destruct (signal (thread s i)); [intros [= <- <-]; auto|]. destruct (negb (timeout =? 0) && notify (thread s i)); [discriminate|].
  destruct (sb_suspend i s2 _ B2 Hb2 E2 Ha1) as [B3 Hb3]. pose proof (on_there i (with_suspend true) s2 _ E2) as E3.
  set (s3 := on i (with_suspend true) s2) in *.
  assert (forall f s', threads s' = threads (on i f s3) -> g_scheduler_ready s' = g_scheduler_ready s3 -> kept s s') as K3.
  { intros f s4 Ht Er. eapply kept_trans; [exact Hr2|]. eapply kept_trans; [apply (kept_on i (with_suspend true) s2 s3); reflexivity|].
    exact (kept_on i f s3 s4 Ht Er). }
  assert (kept s s3) as K0 by (eapply kept_trans; [exact Hr2|]; apply (kept_on i (with_suspend true) s2 s3); reflexivity).
  pose proof (remove_one_spec i (g_ppu s3)) as Hrem.
  destruct (remove_one i (g_ppu s3)) as [l|].
  - destruct Hrem as (l1 & l2 & El & ->). destruct (sb_leave i s3 _ l1 l2 B3 Hb3 E3 Ha1 eq_refl El) as (B4 & Hb4 & Hi4 & Hw4).
    assert (forall e, sb None (on i (with_times 0 now e) (with_list (l1 ++ l2) s3)) /\ back (on i (with_times 0 now e) (with_list (l1 ++ l2) s3))) as H.
    { intros e. destruct (sb_same (with_list (l1 ++ l2) s3) (on i (with_times 0 now e) (with_list (l1 ++ l2) s3))) as (H1 & H2 & _); auto.
      apply view_touch. reflexivity. }
    intros [= _ <-]. destruct (timeout =? 0); [split; [apply H|split; [apply H|eapply K3; reflexivity]]|].
    split; [apply (sb_register _ i (on i (with_times 0 now (wait_until now timeout)) (with_list (l1 ++ l2) s3))); [apply H|exact Hi4|exact Hw4]|].
    split; [apply H|eapply K3; reflexivity].
  - destruct (remove_one i (g_to_sleep s3)) as [l|]; intros [= _ <-]; [|auto].
    set (f := with_times _ _ _). destruct (sb_same s3 (on i f (with_to_sleep l s3))) as (H1 & H2 & _); auto;
      [apply (view_touch i f (with_to_sleep l s3)); reflexivity|]. split; [auto|]. split; [auto|]. eapply K3; reflexivity.
Qed.

Lemma emplace_thread_ok ex i s : sb ex s -> (ex = None \/ (ex = Some i /\ i ∉ g_ppu s)) -> is_Some (threads s !! i) ->
  sb None (snd (emplace_thread i s)) /\ kept s (snd (emplace_thread i s)).
Proof.
  intros B Hex Hi. unfold emplace_thread.
  replace (insert_prio _ i (g_ppu s)) with (insert_prio (fun j => k_prio (at_ (view s) j)) i (g_ppu s)).
  2:{ clear. induction (g_ppu s) as [|j l IH]; cbn; [reflexivity|]. rewrite IH, !prio_thread. reflexivity. }
  pose proof (insert_prio_spec (view s) i (g_ppu s) (b_sorted _ _ _ _ _ _ B)) as Hp.
  destruct (insert_prio _ i (g_ppu s)) as [l|].
  - destruct Hp as (Hn & l1 & l2 & El & -> & H1 & H2). cbn [snd]. split; [|split; reflexivity].
    unfold sb in *. rewrite El in B, Hn. cbn. eapply base_join; [exact B|tauto|unfold view; rewrite lookup_fmap, fmap_is_Some; exact Hi|exact Hn|exact H1|exact H2].
  - destruct Hex as [->|[-> Hn]]; [|contradiction]. destruct (_ =? 1); cbn [snd]; [|split; [exact B|apply kept_refl]].
    split; [|apply (kept_on i (with_cancel 2) s); reflexivity].
    apply (sb_same s (on i (with_cancel 2) s)); auto. apply view_touch. reflexivity.
Qed.

Lemma emplace_threads_ok l changed lowest s : sb None s -> (forall i, i ∈ l -> is_Some (threads s !! i)) ->
  sb None (snd (emplace_threads l changed lowest s)) /\ kept s (snd (emplace_threads l changed lowest s)).
Proof.
  revert changed lowest s. induction l as [|i l IH]; intros changed lowest s B Hl; cbn [emplace_threads]; [split; [exact B|apply kept_refl]|].
  destruct (emplace_thread_ok None i s B (or_introl eq_refl) (Hl i ltac:(left))) as [B1 K1].
  destruct (emplace_thread i s) as [b s1]. cbn [snd] in B1, K1.
  assert (forall ch lo, sb None (snd (emplace_threads l ch lo s1)) /\ kept s (snd (emplace_threads l ch lo s1))) as H.
  { intros ch lo. destruct (IH ch lo s1 B1) as [B2 K2]; [intros j Hj; apply (kept_there s); [exact K1|apply Hl; right; exact Hj]|].
    split; [exact B2|eapply kept_trans; eauto]. }
  destruct b; apply H.
Qed.

Lemma suspend_threads_ok l s : sb None s ->
  sb None (suspend_threads l s) /\ kept s (suspend_threads l s) /\ g_ppu (suspend_threads l s) = g_ppu s /\
  (forall j, j ∈ l \/ k_suspend (at_ (view s) j) = true -> k_suspend (at_ (view (suspend_threads l s)) j) = true).
Proof.
  revert s. induction l as [|i l IH]; intros s B; cbn [suspend_threads];
    [split; [exact B|split; [apply kept_refl|split; [reflexivity|intros j [H|H]; [apply elem_of_nil in H as []|exact H]]]]|].
  rewrite suspend_thread. destruct (k_suspend (at_ (view s) i)) eqn:Es.
  - destruct (IH s B) as (H1 & H2 & H3 & H4). repeat (split; [assumption|]). intros j [[->|Hj]%elem_of_cons|Hj]; apply H4; auto.
  - unfold at_ in Es. destruct (threads s !! i) as [c|] eqn:E; [|unfold view in Es; rewrite lookup_fmap, E in Es; discriminate].
    pose proof (view_there s i c E) as Ev. rewrite Ev in Es. cbn in Es.
    set (f := fun c => with_ack true (with_suspend true c)). set (s1 := with_pending _ (on i f s)).
    assert (view s1 = <[i := core_of (f c)]> (view s)) as Ev1 by (apply (view_on i f s c E)).
    assert (ack_suspend c = false) as Ha.
    { destruct (ack_suspend c) eqn:Ea; [|reflexivity]. pose proof (b_ack _ _ _ _ _ _ B i _ Ev Ea) as H. cbn in H. congruence. }
    assert (u32 (g_pending s + 1) = g_pending s + 1) as Eu.
    { apply wrap_small. unfold in_range. rewrite (b_pending _ _ _ _ _ _ B). pose proof (acks_insert _ _ _ (core_of (f c)) Ev) as H.
      cbn in H. rewrite Ha in H. pose proof (acks_le (<[i := core_of (f c)]> (view s))) as Hle. rewrite map_size_insert_Some in Hle by eauto.
      pose proof (b_small _ _ _ _ _ _ B). lia. }
    assert (sb None s1) as B1.
    { unfold sb. rewrite Ev1. cbn [g_ppu g_pending g_waiting s1 with_pending on with_threads]. rewrite Eu.
      eapply base_thread; [exact B|exact Ev|reflexivity|reflexivity| | |auto].
      - intros Hn _. destruct (b_out _ _ _ _ _ _ B i _ Ev Hn ltac:(discriminate)) as [H _]. cbn in H. congruence.
      - cbn. rewrite Ha. lia. }
    destruct (IH s1 B1) as (H1 & H2 & H3 & H4). split; [exact H1|]. split; [eapply kept_trans; [|exact H2]; apply (kept_on i f s); reflexivity|].
    split; [exact H3|]. intros j Hj. apply H4. rewrite Ev1, at_insert. case_decide as Hij; [auto|].
    destruct Hj as [[->|Hj]%elem_of_cons|Hj]; [contradiction|auto|auto].
Qed.

(** *** The command *)

Definition cmd_ok (cmd : command) : Prop := match cmd with Set_priority p => -4096 <= p < 4096 | _ => True end.

Lemma set_prio_view i p a b s c : threads s !! i = Some c -> -4096 <= p < 4096 ->
  view (set_prio i p a b s) = <[i := mk_core p (suspend c) (ack_suspend c)]> (view s) /\ g_ppu (set_prio i p a b s) = g_ppu s /\
  g_pending (set_prio i p a b s) = g_pending s /\ g_waiting (set_prio i p a b s) = g_waiting s /\ kept s (set_prio i p a b s).
Proof.
  intros E Hp. unfold set_prio. set (s1 := if b || a then _ else s).
  assert (threads s1 = threads s /\ g_ppu s1 = g_ppu s /\ g_pending s1 = g_pending s /\ g_waiting s1 = g_waiting s /\ g_scheduler_ready s1 = g_scheduler_ready s)
    as (E1 & E2 & E3 & E4 & E5) by (unfold s1; destruct (b || a); auto).
  clearbody s1. set (f := fun c => with_prio _ _ c).
  split; [|split; [exact E2|split; [exact E3|split; [exact E4|]]]].
  - rewrite (view_on i f s1 c) by congruence. unfold core_of at 1, f. cbn. rewrite sint_small by lia. f_equal. unfold view. rewrite E1. reflexivity.
  - split; [cbn; rewrite dom_alter_L, E1; reflexivity|exact E5].
Qed.

Lemma same_prio_spec p x l : let '(a, b) := same_prio p x l in l = a ++ b /\ forall j, j ∈ a -> p j = x.
Proof.
  induction l as [|j l IH]; cbn; [split; [reflexivity|set_solver]|]. destruct (Z.eqb_spec (p j) x); [|split; [reflexivity|set_solver]].
  destruct (same_prio p x l) as [a b]. destruct IH as [-> IH]. split; [reflexivity|]. intros k [->|Hk]%elem_of_cons; auto.
Qed.

(** Rotation behind the threads of the same priority. *)
Lemma sorted_rotate v l1 i a b : StronglySorted (by_prio v) (l1 ++ i :: a ++ b) -> (forall j, j ∈ a -> k_prio (at_ v j) = k_prio (at_ v i)) ->
  StronglySorted (by_prio v) (l1 ++ a ++ i :: b).
Proof.
  intros Hs Ha. rewrite app_assoc. apply sorted_insert.
  - rewrite <- app_assoc. eapply sorted_delete, Hs.
  - intros j [Hj|Hj]%elem_of_app; [|rewrite (Ha j Hj); lia].
    clear -Hs Hj. induction l1 as [|k l1 IH]; cbn in Hs; [apply elem_of_nil in Hj as []|]. apply StronglySorted_inv in Hs as [Hs Hf].
    apply elem_of_cons in Hj as [->|Hj]; [|auto]. rewrite Forall_app, Forall_cons in Hf. exact (proj1 (proj2 Hf)).
  - intros j Hj. assert (StronglySorted (by_prio v) (i :: a ++ b)) as H.
    { clear -Hs. induction l1 as [|k l1 IH]; cbn in Hs; [exact Hs|]. apply StronglySorted_inv in Hs as [Hs _]. auto. }
    apply StronglySorted_inv in H as [_ H]. rewrite Forall_app, !Forall_forall in H. apply H, Hj.
Qed.

Lemma command_of_ok cmd cpu current now s : sb None s -> back s -> cmd_ok cmd -> (forall i, cpu = Some i -> is_Some (threads s !! i)) ->
  match command_of cfg cmd cpu current now s with
  | inl (b, s') => sb None s' /\ back s' /\ kept s s'
  | inr s' => kept s s' /\ (sb None s' \/ exists p i, cmd = Set_priority p /\ cpu = Some i /\ sb (Some i) s' /\ i ∉ g_ppu s')
  end.
Proof.
  intros B Hb Hcmd Hcpu. destruct cmd as [p| |], cpu as [i|]; cbn [command_of]; try (split; [apply kept_refl|left; exact B]).
  - destruct (Hcpu i eq_refl) as [c E]. pose proof (view_there s i c E) as Ev. cbn in Hcmd.
    destruct ((prio (thread s i) =? p) && bool_decide (current = Some i)) eqn:Ec.
    + apply andb_true_iff in Ec as [Ep%Z.eqb_eq _]. destruct (set_prio_view i p false false s c E Hcmd) as (V1 & V2 & V3 & V4 & K).
      assert (view (set_prio i p false false s) = view s) as Vs.
      { rewrite V1. apply insert_id. rewrite Ev. f_equal. unfold core_of. f_equal. unfold thread in Ep. rewrite E in Ep. exact Ep. }
      destruct (sb_same s (set_prio i p false false s)) as (H1 & H2 & _); auto.
    + pose proof (remove_one_spec i (g_ppu s)) as Hrem. destruct (remove_one i (g_ppu s)) as [l|].
      * destruct Hrem as (l1 & l2 & El & ->). destruct (set_prio_view i p false false (with_list (l1 ++ l2) s) c E Hcmd) as (V1 & V2 & V3 & V4 & K).
        split; [exact K|right]. pose proof (b_nodup _ _ _ _ _ _ B) as Hnd. unfold sb in B. rewrite El in B, Hnd.
        assert (i ∉ l1 ++ l2) as Hi by (rewrite <- Permutation_middle in Hnd; apply NoDup_cons in Hnd; tauto).
        exists p, i. split; [reflexivity|]. split; [reflexivity|]. unfold sb. rewrite V1, V2, V3, V4. split; [|exact Hi].
        apply (base_prio N _ _ _ _ _ i (core_of c) p (base_leave _ _ _ _ _ _ _ B) Ev Hi).
      * destruct (set_prio_view i p (p <? prio (thread s i)) (prio (thread s i) <? p) s c E Hcmd) as (V1 & V2 & V3 & V4 & K).
        split; [unfold sb; rewrite V1, V2, V3, V4; apply (base_prio N _ _ _ _ _ i (core_of c) p B Ev Hrem)|]. split; [|exact K].
        intros j Hj. rewrite V2 in Hj. rewrite V1, at_insert. destruct (decide (i = j)) as [<-|Hij]; [|apply Hb, Hj].
        exfalso. apply Hrem. exact (subseteq_drop _ _ _ Hj).
  - destruct (list_find _ (g_ppu s)) as [[k x]|] eqn:Ef; [|split; [exact B|split; [exact Hb|apply kept_refl]]].
    apply list_find_Some in Ef as (Ek & -> & _). pose proof (take_drop_middle _ _ _ Ek) as El.
    pose proof (same_prio_spec (fun j => prio (thread s j)) (prio (thread s i)) (drop (S k) (g_ppu s))) as Hsp.
    destruct (same_prio _ _ _) as [a b]. destruct Hsp as [Ed Ha]. rewrite Ed in El.
    destruct a as [|a0 a]; [split; [exact B|split; [exact Hb|apply kept_refl]]|]. set (same := a0 :: a) in *.
    set (l' := take k (g_ppu s) ++ same ++ i :: b).
    assert (sb None (with_list l' s)) as B'.
    { unfold sb. cbn [g_ppu g_pending g_waiting with_list]. change (view (with_list l' s)) with (view s). eapply base_perm; [exact B|rewrite <- El; unfold l'; rewrite <- !Permutation_middle; apply perm_skip; reflexivity|].
      apply sorted_rotate; [rewrite El; exact (b_sorted _ _ _ _ _ _ B)|].
      intros j Hj. rewrite <- !prio_thread. apply Ha, Hj. }
    destruct (Nat.ltb_spec (k + length same) N) as [Hlt|Hge].
    + split; [exact B'|]. split; [|split; reflexivity]. intros j Hj. apply Hb. cbn [g_ppu with_list] in Hj. rewrite <- El.
      assert (length (take k (g_ppu s)) = k) as Hk by (rewrite length_take; apply lookup_lt_Some in Ek; lia).
      unfold l' in Hj. rewrite app_assoc, cons_middle, app_assoc, drop_app_ge in Hj by (rewrite !length_app, Hk; cbn [length]; lia).
      rewrite cons_middle, !app_assoc, drop_app_ge by (rewrite !length_app, Hk; cbn [length]; lia).
      rewrite !length_app in *. cbn [length] in *. replace (N - (k + length same + 1))%nat with (N - (k + 1 + length same))%nat in Hj by lia.
      rewrite Hk in *. revert Hj. replace (N - (k + 1 + length same))%nat with (N - (k + length same + 1))%nat by lia. auto.
    + split; [apply (kept_on i (fun c => with_times (raddr c) now (end_time c) c) (with_list l' s)); reflexivity|]. left.
      apply (sb_same (with_list l' s) (on i (fun c => with_times (raddr c) now (end_time c) c) (with_list l' s))); auto. apply view_touch. reflexivity.
Qed.

Lemma acknowledge_ok current s : sb None s -> back s -> exists s', acknowledge current s = Some s' /\ sb None s' /\ back s' /\ kept s s'.
Proof.
  intros B Hb. destruct current as [k|]; cbn [acknowledge]; [|exists s; split; [reflexivity|auto using kept_refl]].
  destruct (ack_suspend (thread s k)) eqn:Ea; [|exists s; split; [reflexivity|auto using kept_refl]].
  destruct (sb_acknowledge k s B Hb Ea) as (H1 & H2 & H3). destruct (Z.eqb_spec (g_pending s) 0); [contradiction|].
  eexists. split; [reflexivity|]. split; [exact H1|]. split; [exact H2|]. apply (kept_on k (with_ack false) s); reflexivity.
Qed.

Lemma delay_caller_ok cpu current changed free lowest s : sb None s -> back s ->
  sb None (delay_caller cfg cpu current changed free lowest s) /\ back (delay_caller cfg cpu current changed free lowest s) /\
  kept s (delay_caller cfg cpu current changed free lowest s).
Proof.
  intros B Hb. destruct current as [k|]; cbn [delay_caller]; [|auto using kept_refl]. destruct (_ && _); [|auto using kept_refl].
  set (f := with_delay _ _). destruct (sb_same s (on k f s)) as (H1 & H2 & _); auto; [apply view_touch; reflexivity|].
  split; [auto|]. split; [auto|]. apply (kept_on k f s); reflexivity.
Qed.

(** [awake_unlocked] never throws and keeps the invariant. *)
Lemma awake_unlocked_ok cpu cmd current to_awake now s :
  sb None s -> back s -> cmd_ok cmd -> (forall i, cpu = Some i -> is_Some (threads s !! i)) ->
  (forall i, i ∈ to_awake -> is_Some (threads s !! i)) ->
  exists b s', awake_unlocked cfg cpu cmd current to_awake now s = Some (b, s') /\ sb None s' /\ back s' /\ kept s s'.
Proof.
  intros B Hb Hcmd Hcpu Haw. unfold awake_unlocked. pose proof (command_of_ok cmd cpu current now s B Hb Hcmd Hcpu) as Hc.
  destruct (command_of cfg cmd cpu current now s) as [[b s1]|s1]; [exists b, s1; split; [reflexivity|exact Hc]|]. destruct Hc as [K1 Hc].
  set (put_back := match cpu with Some i => _ | None => to_awake end). set (is_yield := match cmd with Yield => true | _ => false end) in *.
  assert (forall i, i ∈ put_back -> is_Some (threads s1 !! i)) as Hput.
  { intros i Hi. apply (kept_there s); [exact K1|]. unfold put_back in Hi. destruct cpu as [k|]; [|auto]. destruct is_yield; [auto|].
    apply list_elem_of_singleton in Hi as ->. auto. }
  assert (sb None (snd (emplace_threads put_back is_yield (2 ^ 31 - 1) s1)) /\ kept s (snd (emplace_threads put_back is_yield (2 ^ 31 - 1) s1))) as [B2 K2].
  { destruct Hc as [B1|(p & i & -> & -> & B1 & Hi)].
    - destruct (emplace_threads_ok put_back is_yield (2 ^ 31 - 1) s1 B1 Hput) as [H1 H2]. split; [exact H1|eapply kept_trans; eauto].
    - unfold put_back, is_yield. cbn [emplace_threads].
      destruct (emplace_thread_ok (Some i) i s1 B1 (or_intror (conj eq_refl Hi)) (Hput i ltac:(left))) as [H1 H2].
      destruct (emplace_thread i s1) as [b s2]. cbn [snd] in H1, H2. destruct b; (split; [exact H1|eapply kept_trans; eauto]). }
  destruct (emplace_threads put_back is_yield (2 ^ 31 - 1) s1) as [[changed lowest] s2]. cbn [snd] in B2, K2.
  destruct (suspend_threads_ok (drop N (g_ppu s2)) s2 B2) as (B3 & K3 & El & Hs). set (s3 := suspend_threads _ s2) in *.
  assert (back s3) as Hb3 by (intros j Hj; apply Hs; left; rewrite <- El; exact Hj).
  destruct (acknowledge_ok current s3 B3 Hb3) as (s4 & -> & B4 & Hb4 & K4).
  destruct (delay_caller_ok cpu current changed (onproc_count (count_non_sleeping_threads cfg s1) <? N)%nat lowest s4 B4 Hb4) as (B5 & Hb5 & K5).
  eexists _, _. split; [reflexivity|]. split; [exact B5|]. split; [exact Hb5|]. eauto using kept_trans.
Qed.

(** *** schedule_all *)

Definition unsuspended (c : core) : core := mk_core (k_prio c) false (k_ack c).

Lemma start_threads_view l s j :
  view (start_threads l s) !! j = (if decide (j ∈ l) then unsuspended else fun c => c) <$> view s !! j.
Proof.
  revert s. induction l as [|i l IH]; intros s; cbn [start_threads].
  - rewrite decide_False by set_solver. destruct (view s !! j); reflexivity.
  - rewrite IH, suspend_thread.
    assert (view (if k_suspend (at_ (view s) i) then on i signalled s else s) !! j = (if decide (i = j) then unsuspended else fun c => c) <$> view s !! j) as ->.
    { destruct (k_suspend (at_ (view s) i)) eqn:Es.
      - unfold view, on. cbn [threads with_threads]. rewrite !lookup_fmap. destruct (decide (i = j)) as [<-|Hne].
        + rewrite lookup_alter_eq. destruct (threads s !! i); reflexivity.
        + rewrite lookup_alter_ne by exact Hne. destruct (threads s !! j); reflexivity.
      - destruct (decide (i = j)) as [<-|Hne]; [|destruct (view s !! j); reflexivity]. unfold at_ in Es.
        destruct (view s !! i) as [[p su a]|]; [cbn in *; subst|]; reflexivity. }
    destruct (view s !! j) as [[p su a]|]; [|reflexivity]. cbn.
    destruct (decide (j ∈ l)), (decide (j ∈ i :: l)), (decide (i = j)); set_solver.
Qed.
Lemma start_threads_kept l s : g_ppu (start_threads l s) = g_ppu s /\ g_pending (start_threads l s) = g_pending s /\
  g_waiting (start_threads l s) = g_waiting s /\ kept s (start_threads l s).
Proof.
  revert s. induction l as [|i l IH]; intros s; cbn [start_threads]; [auto using kept_refl|].
  destruct (suspend (thread s i)); [|apply IH]. destruct (IH (on i signalled s)) as (-> & -> & -> & K). repeat (split; [reflexivity|]).
  eapply kept_trans; [|exact K]. apply (kept_on i signalled s); reflexivity.
Qed.

Lemma acks_zero v : (forall i, k_ack (at_ v i) = false) -> acks v = 0%nat.
Proof.
  intros H. unfold acks. apply map_size_empty_iff, map_empty_filter_2. intros i c Hi. cbn. rewrite <- (at_some v i c Hi), H. discriminate.
Qed.

(** With no acknowledgement due, the threads in front are started. *)
Lemma start_threads_ok s : sb None s -> back s -> g_pending s = 0 ->
  let s' := start_threads (take N (g_ppu s)) s in sb None s' /\ back s' /\ front s' /\ kept s s'.
Proof.
  intros B Hb Hp. cbv zeta. destruct (start_threads_kept (take N (g_ppu s)) s) as (E1 & E2 & E3 & K).
  pose proof (start_threads_view (take N (g_ppu s)) s) as V. set (s' := start_threads _ s) in *.
  pose proof B as [B1 B2 B3 B4 B5 B6 B7 B8 B9 B10 B11].
  assert (forall i, k_ack (at_ (view s) i) = false) as Hna by (apply acks_none; lia).
  assert (forall i, at_ (view s') i = if decide (i ∈ take N (g_ppu s)) then unsuspended (at_ (view s) i) else at_ (view s) i) as Hat.
  { intros i. unfold at_. rewrite V. destruct (view s !! i) as [c|] eqn:Ei; [cbn; destruct (decide _); reflexivity|].
    destruct (decide _) as [Hi|]; [|reflexivity]. destruct (B2 i); [exact (subseteq_take _ _ _ Hi)|congruence]. }
  assert (forall i, k_suspend (at_ (view s) i) = false -> i ∈ take N (g_ppu s)) as Hrun.
  { intros i Hs. destruct (view s !! i) as [c|] eqn:Ei; [|unfold at_ in Hs; rewrite Ei in Hs; discriminate].
    rewrite (at_some _ _ _ Ei) in Hs. destruct (decide (i ∈ g_ppu s)) as [Hi|Hi].
    - rewrite <- (take_drop N (g_ppu s)), elem_of_app in Hi. destruct Hi as [Hi|Hi]; [exact Hi|].
      specialize (Hb i Hi). rewrite (at_some _ _ _ Ei) in Hb. congruence.
    - destruct (B4 i c Ei Hi ltac:(discriminate)). congruence. }
  assert (forall i, k_ack (at_ (view s') i) = false) as Hna' by (intros i; rewrite Hat; destruct (decide _); apply Hna).
  split; [|split; [|split; [|exact K]]].
  - unfold sb. rewrite E1, E2, E3. constructor; auto.
    + intros i Hi. rewrite V. apply fmap_is_Some, B2, Hi.
    + revert B3. apply sorted_ext. intros i _. rewrite Hat. destruct (decide _); reflexivity.
    + intros i c Hc Hi _. rewrite V, decide_False in Hc by (intros H; apply Hi; exact (subseteq_take _ _ _ H)).
      destruct (view s !! i) as [c0|] eqn:Ei; [|discriminate]. injection Hc as <-. apply (B4 i _ Ei Hi). discriminate.
    + intros i c Hc Ha. rewrite <- (at_some _ _ _ Hc), Hna' in Ha. discriminate.
    + rewrite (acks_zero _ Hna'). lia.
    + rewrite <- size_dom, view_dom, (proj1 K), <- view_dom, size_dom. exact B7.
    + exists (take N (g_ppu s)). split; [eapply sublist_NoDup; [exact B1|apply sublist_take]|]. split; [rewrite length_take; lia|].
      intros i [Hs|Ha]; [|rewrite Hna' in Ha; discriminate]. rewrite Hat in Hs. destruct (decide _); [assumption|auto].
  - intros i Hi. rewrite E1 in Hi. rewrite Hat. rewrite decide_False; [apply Hb, Hi|].
    intros Ht. rewrite <- (take_drop N (g_ppu s)) in B1. apply NoDup_app in B1 as (_ & H & _). exact (H i Ht Hi).
  - intros _ _ i Hi. rewrite E1 in Hi. rewrite Hat, decide_True by exact Hi. reflexivity.
Qed.

Lemma expire_ok now current w s s' : expire now current w s = Some s' ->
  view s' = view s /\ g_ppu s' = g_ppu s /\ g_pending s' = g_pending s /\ kept s s' /\ exists w1, w = w1 ++ g_waiting s'.
Proof.
  revert s. induction w as [|[t i] w IH]; intros s; cbn [expire].
  - intros [= <-]. split; [reflexivity|]. split; [reflexivity|]. split; [reflexivity|]. split; [split; reflexivity|]. exists []. reflexivity.
  - destruct (t <=? now).
    + destruct (bool_decide _); [|destruct (notify (thread s i)); [discriminate|]]; intros H; apply IH in H as (H1 & H2 & H3 & H4 & w1 & ->).
      * repeat (split; [assumption|]). exists ((t, i) :: w1). reflexivity.
      * rewrite H1, H2, H3. split; [apply view_touch; reflexivity|]. split; [reflexivity|]. split; [reflexivity|].
        split; [eapply kept_trans; [apply (kept_on i (with_notify true) s); reflexivity|exact H4]|]. exists ((t, i) :: w1). reflexivity.
    + intros [= <-]. split; [reflexivity|]. split; [reflexivity|]. split; [reflexivity|]. split; [split; reflexivity|]. exists []. reflexivity.
Qed.

Lemma sorted_suffix {A} (R : A -> A -> Prop) l1 l2 : StronglySorted R (l1 ++ l2) -> StronglySorted R l2.
Proof. induction l1 as [|x l1 IH]; cbn; [auto|]. intros [H _]%StronglySorted_inv. auto. Qed.

Lemma preempt_ok current tsc s : view (preempt_thread cfg current tsc s) = view s /\ g_ppu (preempt_thread cfg current tsc s) = g_ppu s /\
  g_pending (preempt_thread cfg current tsc s) = g_pending s /\ g_waiting (preempt_thread cfg current tsc s) = g_waiting s /\
  kept s (preempt_thread cfg current tsc s).
Proof.
  unfold preempt_thread. destruct (_ =? 0); [auto using kept_refl|]. destruct (_ && _); [|auto using kept_refl].
  destruct (to_preempt cfg current s) as [i|]; [|auto using kept_refl]. destruct (preempt (thread s i)); [auto using kept_refl|].
  split; [apply (view_touch i (with_preempt true) s); reflexivity|]. repeat (split; [reflexivity|]). apply (kept_on i (with_preempt true) s); reflexivity.
Qed.

(** [schedule_all] ends every operation. *)
Lemma schedule_all_ok current now tsc s s' : sb None s -> back s -> schedule_all cfg current now tsc s = Some s' -> ok s' /\ kept s s'.
Proof.
  intros B Hb. unfold schedule_all. set (s1 := if _ && _ then _ else s).
  assert (sb None s1 /\ back s1 /\ front s1 /\ kept s s1) as (B1 & Hb1 & Hf1 & K1).
  { unfold s1. destruct (Z.eqb_spec (g_pending s) 0) as [Ep|Ep]; cbn [andb].
    - destruct (g_scheduler_ready s) eqn:Er; [apply start_threads_ok; assumption|]. repeat (split; [assumption|]). split; [|apply kept_refl].
      intros H. congruence.
    - repeat (split; [assumption|]). split; [|apply kept_refl]. intros _ H. congruence. }
  clearbody s1. destruct (expire now current (g_waiting s1) s1) as [s2|] eqn:Ee; [|discriminate]. intros [= <-].
  apply expire_ok in Ee as (V2 & L2 & P2 & K2 & w1 & Ew). destruct (preempt_ok current tsc s2) as (V3 & L3 & P3 & W3 & K3).
  set (s3 := preempt_thread cfg current tsc s2) in *.
  assert (g_scheduler_ready s3 = g_scheduler_ready s1) as Er by (destruct K2 as [_ K2], K3 as [_ K3]; congruence).
  split; [|eauto using kept_trans]. split; [|split].
  - unfold sb. rewrite V3, L3, P3, W3, V2, L2, P2. unfold sb in B1. rewrite Ew in B1.
    destruct B1 as [C1 C2 C3 C4 C5 C6 C7 C8 C9 C10 C11]. constructor; auto.
    + eapply sorted_suffix, C8.
    + rewrite map_app in C9. apply NoDup_app in C9. tauto.
    + intros i Hi. apply C10. rewrite map_app. apply elem_of_app. auto.
  - unfold back. rewrite V3, L3, V2, L2. exact Hb1.
  - unfold front. rewrite V3, L3, P3, V2, L2, P2, Er. exact Hf1.
Qed.

Lemma awake_ok cpu cmd current to_awake now tsc s b s' :
  sb None s -> back s -> cmd_ok cmd -> (forall i, cpu = Some i -> is_Some (threads s !! i)) ->
  (forall i, i ∈ to_awake -> is_Some (threads s !! i)) -> awake cfg cpu cmd current to_awake now tsc s = Some (b, s') -> ok s' /\ kept s s'.
Proof.
  intros B Hb Hc Hcpu Haw. unfold awake. destruct (awake_unlocked_ok cpu cmd current to_awake now s B Hb Hc Hcpu Haw) as (b1 & s1 & -> & B1 & Hb1 & K1).
  destruct (schedule_all cfg current now tsc s1) as [s2|] eqn:Es; [|discriminate]. intros [= _ <-].
  destruct (schedule_all_ok _ _ _ _ _ B1 Hb1 Es) as [H1 H2]. eauto using kept_trans.
Qed.

Lemma sleep_ok i timeout current to_awake now tsc s b s' :
  sb None s -> back s -> is_Some (threads s !! i) -> (forall j, j ∈ to_awake -> is_Some (threads s !! j)) ->
  sleep cfg i timeout current to_awake now tsc s = Some (b, s') -> ok s' /\ kept s s'.
Proof.
  intros B Hb Hi Haw. unfold sleep. destruct (sleep_unlocked i timeout now s) as [[r s1]|] eqn:E1; [|discriminate].
  destruct (sleep_unlocked_ok i timeout now s r s1 B Hb Hi E1) as (B1 & Hb1 & K1).
  destruct to_awake as [|a l]; cbn [is_nil].
  - destruct (schedule_all cfg current now tsc s1) as [s2|] eqn:Es; [|discriminate]. intros [= _ <-].
    destruct (schedule_all_ok _ _ _ _ _ B1 Hb1 Es) as [H1 H2]. eauto using kept_trans.
  - destruct (awake_unlocked_ok None Enqueue current (a :: l) now s1 B1 Hb1 Logic.I) as (b2 & s2 & -> & B2 & Hb2 & K2);
      [discriminate|intros j Hj; apply (kept_there s); [exact K1|auto]|].
    destruct (schedule_all cfg current now tsc s2) as [s3|] eqn:Es; [|discriminate]. intros [= _ <-].
    destruct (schedule_all_ok _ _ _ _ _ B2 Hb2 Es) as [H1 H2]. eauto using kept_trans.
Qed.
End Ops.

(** ** Sequences of operations *)

(** Besides the scheduler's own operations: threads are created suspended, and what else happens
    to a thread leaves its priority, [suspend] and [ack_suspend] alone. *)
Inductive op :=
| Create (i : nat) (c : ppu)
| Touch (i : nat) (c : ppu)
| Sleep (i : nat) (timeout : Z) (current : option nat) (to_awake : list nat) (now tsc : Z)
| Awake (cpu : option nat) (current : option nat) (to_awake : list nat) (now tsc : Z)
| SetPriority (i : nat) (p : Z) (current : option nat) (to_awake : list nat) (now tsc : Z)
| YieldThread (i : nat) (current : option nat) (to_awake : list nat) (now tsc : Z)
| Ready (current : option nat) (to_awake : list nat) (now tsc : Z)
| FutureSleep (i : nat)
| YieldFrequency (freq max_allowed_tsc : Z).

#[global] Instance core_eq_dec : EqDecision core.
Proof. solve_decision. Defined.

Definition exist (s : sched) (l : list nat) : bool := forallb (fun i => bool_decide (is_Some (threads s !! i))) l.
Definition option_list {A} (o : option A) : list A := match o with Some x => [x] | None => [] end.

Definition do_op (cfg : config) (o : op) (s : sched) : option sched :=
  match o with
  | Create i c =>
      if bool_decide (threads s !! i = None) && suspend c && negb (ack_suspend c) && (Z.of_nat (S (size (threads s))) <? 2 ^ 32)
      then Some (with_threads (<[i := c]> (threads s)) s) else None
  | Touch i c =>
      if bool_decide (core_of <$> threads s !! i = Some (core_of c)) then Some (with_threads (<[i := c]> (threads s)) s) else None
  | Sleep i timeout current to_awake now tsc =>
      if exist s (i :: to_awake) then snd <$> sleep cfg i timeout current to_awake now tsc s else None
  | Awake cpu current to_awake now tsc =>
      if exist s (option_list cpu ++ to_awake) then snd <$> awake cfg cpu Enqueue current to_awake now tsc s else None
  | SetPriority i p current to_awake now tsc =>
      if exist s (i :: to_awake) && (- 2 ^ 31 <=? p) && (p <? 2 ^ 31) then snd <$> set_priority cfg i p current to_awake now tsc s else None
  | YieldThread i current to_awake now tsc =>
      if exist s (i :: to_awake) then snd <$> yield cfg i current to_awake now tsc s else None
  | Ready current to_awake now tsc =>
      if exist s to_awake then snd <$> make_scheduler_ready cfg current to_awake now tsc s else None
  | FutureSleep i => Some (set_future_sleep i s)
  | YieldFrequency f m => Some (set_yield_frequency f m s)
  end.
Fixpoint do_ops (cfg : config) (l : list op) (s : sched) : option sched :=
  match l with [] => Some s | o :: l => match do_op cfg o s with Some s => do_ops cfg l s | None => None end end.

(** Before the first thread. *)
Definition no_threads : sched := mk_sched ∅ [] 0 [] [] false 0 0 0 0.

Section Reach.
Context (cfg : config).

Lemma exist_spec s l : exist s l = true -> forall i, i ∈ l -> is_Some (threads s !! i).
Proof. unfold exist. rewrite forallb_forall. intros H i Hi. apply (bool_decide_eq_true_1 _), H, list_elem_of_In, Hi. Qed.

Lemma no_threads_ok : ok cfg no_threads.
Proof.
  split; [|split].
  - constructor; cbn; try set_solver; try (constructor; fail); try (rewrite ?map_size_empty; lia).
    exists []. split; [constructor|]. split; [cbn; lia|]. intros i [H|H]; discriminate.
  - intros i Hi. cbn in Hi. rewrite drop_nil in Hi. apply elem_of_nil in Hi as [].
  - intros H. discriminate.
Qed.

Lemma create_ok i c s : ok cfg s -> threads s !! i = None -> suspend c = true -> ack_suspend c = false -> Z.of_nat (S (size (threads s))) < 2 ^ 32 ->
  ok cfg (with_threads (<[i := c]> (threads s)) s).
Proof.
  intros (B & Hb & Hf) E Hs Ha Hsz. set (s' := with_threads _ s).
  assert (view s' = <[i := core_of c]> (view s)) as Ev by (apply fmap_insert).
  assert (view s !! i = None) as En by (unfold view; rewrite lookup_fmap, E; reflexivity).
  assert (i ∉ g_ppu s) as Hi by (intros H; destruct (b_dom _ _ _ _ _ _ B i H); congruence).
  assert (forall j, k_suspend (at_ (view s') j) = k_suspend (at_ (view s) j) /\ k_ack (at_ (view s') j) = k_ack (at_ (view s) j)) as Hat.
  { intros j. rewrite Ev, at_insert. case_decide; [subst|auto]. unfold at_. rewrite En. auto. }
  assert (forall j, j ∈ g_ppu s -> k_prio (at_ (view s') j) = k_prio (at_ (view s) j)) as Hp.
  { intros j Hj. rewrite Ev, at_insert. rewrite decide_False by congruence. reflexivity. }
  split; [|split].
  - destruct B as [B1 B2 B3 B4 B5 B6 B7 B8 B9 B10 (r & R1 & R2 & R3)]. constructor; cbn [g_ppu g_pending g_waiting s' with_threads]; auto.
    + intros j Hj. rewrite Ev, lookup_insert_is_Some'. auto.
    + revert B3. apply sorted_ext, Hp.
    + intros j cj. rewrite Ev. destruct (decide (i = j)) as [<-|Hne]; [rewrite lookup_insert_eq; intros [= <-]; auto|rewrite lookup_insert_ne by exact Hne; apply B4].
    + intros j cj. rewrite Ev. destruct (decide (i = j)) as [<-|Hne]; [rewrite lookup_insert_eq; intros [= <-]; auto|rewrite lookup_insert_ne by exact Hne; apply B5].
    + rewrite Ev, acks_insert_new by exact En. cbn. rewrite Ha. lia.
    + rewrite <- size_dom, view_dom, size_dom. cbn. rewrite map_size_insert_None by exact E. exact Hsz.
    + exists r. repeat split; auto. intros j. unfold runs. destruct (Hat j) as [-> ->]. apply R3.
  - intros j Hj. destruct (Hat j) as [-> _]. apply Hb, Hj.
  - intros Hr H0 j Hj. destruct (Hat j) as [-> _]. apply Hf; assumption.
Qed.

Lemma do_op_ok o s s' : ok cfg s -> do_op cfg o s = Some s' -> ok cfg s'.
Proof.
  intros I. pose proof I as (B & Hb & Hf).
  assert (forall r : option (bool * sched), snd <$> r = Some s' -> exists b, r = Some (b, s')) as Hr
    by (intros [[b s1]|]; [intros [= ->]; eauto|discriminate]).
  assert (forall s1, view s1 = view s -> g_ppu s1 = g_ppu s -> g_pending s1 = g_pending s -> g_waiting s1 = g_waiting s ->
            g_scheduler_ready s1 = g_scheduler_ready s -> ok cfg s1) as Hsame.
  { intros s1 E1 E2 E3 E4 E5. destruct (sb_same cfg s s1 E1 E2 E3 E4 E5) as (H1 & H2 & H3). split; auto. }
  destruct o; cbn [do_op].
  - destruct (bool_decide _ && _ && _ && _) eqn:E; [|discriminate]. intros [= <-]. repeat rewrite andb_true_iff in E.
    destruct E as (((E1%bool_decide_eq_true & E2) & E3%negb_true_iff) & E4%Z.ltb_lt). apply create_ok; auto.
  - case_bool_decide as E; [|discriminate]. intros [= <-]. apply Hsame; auto. unfold view. cbn. rewrite fmap_insert.
    apply insert_id. rewrite lookup_fmap. exact E.
  - destruct (exist s _) eqn:E; [|discriminate]. intros [b H]%Hr. pose proof (exist_spec _ _ E) as He.
    eapply (sleep_ok cfg); [exact B|exact Hb|apply He; left|intros j Hj; apply He; right; exact Hj|exact H].
  - destruct (exist s _) eqn:E; [|discriminate]. intros [b H]%Hr. pose proof (exist_spec _ _ E) as He.
    eapply (awake_ok cfg cpu Enqueue); [exact B|exact Hb|exact Logic.I| | |exact H].
    + intros i ->. apply He. left.
    + intros j Hj. apply He, elem_of_app. right. exact Hj.
  - destruct (exist s _ && _ && _) eqn:E; [|discriminate]. intros [b H]%Hr. rewrite !andb_true_iff in E.
    destruct E as ((E & E1%Z.leb_le) & E2%Z.ltb_lt). pose proof (exist_spec _ _ E) as He. unfold set_priority in H.
    destruct (Z.ltb_spec (u32 (p + 512)) 3712) as [Hlt|]; [|discriminate].
    eapply (awake_ok cfg (Some i) (Set_priority p)); [exact B|exact Hb| | | |exact H].
    + cbn. unfold wrap in Hlt. destruct (Z.le_gt_cases 0 (p + 512)); [rewrite Z.mod_small in Hlt by lia; lia|].
      rewrite <- (Z.mod_add _ 1), Z.mod_small in Hlt by lia. lia.
    + intros j [= <-]. apply He. left.
    + intros j Hj. apply He. right. exact Hj.
  - destruct (exist s _) eqn:E; [|discriminate]. intros [b H]%Hr. pose proof (exist_spec _ _ E) as He. unfold yield in H.
    set (f := fun c => with_times 0 (start_time c) (end_time c) c) in H.
    assert (ok cfg (on i f s)) as (B1 & Hb1 & Hf1) by (apply Hsame; auto; apply view_touch; reflexivity).
    destruct (next_ppu i (on i f s)); [|injection H as <- <-; split; auto].
    assert (kept s (on i f s)) as K by (apply (kept_on i f s); reflexivity).
    eapply (awake_ok cfg (Some i) Yield); [exact B1|exact Hb1|exact Logic.I| | |exact H].
    + intros j [= <-]. apply (kept_there s); [exact K|]. apply He. left.
    + intros j Hj. apply (kept_there s); [exact K|]. apply He. right. exact Hj.
  - destruct (exist s _) eqn:E; [|discriminate]. intros [b H]%Hr. unfold make_scheduler_ready, awake_all in H.
    eapply (awake_ok cfg None Enqueue current to_awake now tsc (with_ready true s));
      [exact B|exact Hb|exact Logic.I|discriminate|exact (exist_spec _ _ E)|exact H].
  - intros [= <-]. apply Hsame; reflexivity.
  - intros [= <-]. apply Hsame; reflexivity.
Qed.

Lemma do_ops_ok l s s' : ok cfg s -> do_ops cfg l s = Some s' -> ok cfg s'.
Proof.
  revert s. induction l as [|o l IH]; intros s I; cbn [do_ops]; [intros [= <-]; exact I|].
  destruct (do_op cfg o s) as [s1|] eqn:E; [|discriminate]. apply IH, (do_op_ok o s s1 I E).
Qed.
End Reach.

(** ** Who is signalled *)

Lemma signal_touch i f s j : (forall c, signal (f c) = signal c) -> signal (thread (on i f s) j) = signal (thread s j).
Proof.
  intros Hf. unfold thread, on. cbn. destruct (decide (i = j)) as [<-|Hne]; [rewrite lookup_alter_eq|rewrite lookup_alter_ne by exact Hne; reflexivity].
  destruct (threads s !! i); cbn; auto.
Qed.

Lemma start_threads_signal l s j : signal (thread (start_threads l s) j) = true ->
  signal (thread s j) = true \/ (j ∈ l /\ suspend (thread s j) = true).
Proof.
  revert s. induction l as [|i l IH]; intros s; cbn [start_threads]; [auto|]. destruct (suspend (thread s i)) eqn:Es.
  - intros H. apply IH in H. unfold thread, on in H |- *. cbn in H. destruct (decide (i = j)) as [<-|Hne].
    + right. split; [left|exact Es].
    + rewrite lookup_alter_ne in H by exact Hne. set_solver.
  - intros H. apply IH in H. set_solver.
Qed.

Lemma schedule_signals cfg current now tsc s s' j : schedule_all cfg current now tsc s = Some s' -> signal (thread s' j) = true ->
  signal (thread s j) = true \/ (g_pending s = 0 /\ j ∈ take (ppu_threads cfg) (g_ppu s) /\ suspend (thread s j) = true).
Proof.
  unfold schedule_all. set (s1 := if _ && _ then _ else s). destruct (expire now current (g_waiting s1) s1) as [s2|] eqn:Ee; [|discriminate].
  intros [= <-]. assert (signal (thread (preempt_thread cfg current tsc s2) j) = signal (thread s2 j)) as ->.
  { unfold preempt_thread. destruct (s_yield_frequency s2 =? 0); [reflexivity|].
    destruct ((s_last_yield_tsc s2 <=? tsc) && _ && _); [|reflexivity]. destruct (to_preempt cfg current s2) as [i|]; [|reflexivity]. destruct (preempt (thread s2 i)); [reflexivity|].
    apply (signal_touch i (with_preempt true) s2). reflexivity. }
  assert (signal (thread s2 j) = signal (thread s1 j)) as ->.
  { revert Ee. generalize (g_waiting s1) as w. intros w. clearbody s1. revert s1. induction w as [|[t i] w IH]; intros s1; cbn [expire];
      [intros [= <-]; reflexivity|]. destruct (t <=? now); [|intros [= <-]; reflexivity].
    destruct (bool_decide _); [apply IH|]. destruct (notify (thread s1 i)); [discriminate|]. intros H. apply IH in H as ->.
    apply signal_touch. reflexivity. }
  unfold s1. destruct (Z.eqb_spec (g_pending s) 0); cbn [andb]; [|auto]. destruct (g_scheduler_ready s); [|auto].
  intros H. apply start_threads_signal in H. tauto.
Qed.

(** ** The [ensure] of [schedule_all]

    It fails when a thread whose time limit has passed has its [notify] flag already. *)

(** Flags [notify] stay, and no time limit is added. *)
Definition calm (s s' : sched) : Prop := (forall i, notify (thread s' i) = notify (thread s i)) /\ (forall x, x ∈ g_waiting s' -> x ∈ g_waiting s).
Lemma calm_refl s : calm s s.
Proof. split; auto. Qed.
Lemma calm_trans s1 s2 s3 : calm s1 s2 -> calm s2 s3 -> calm s1 s3.
Proof. intros [A1 B1] [A2 B2]. split; auto. intros i. rewrite A2. apply A1. Qed.
Lemma calm_on i f s : (forall c, notify (f c) = notify c) -> calm s (on i f s).
Proof.
  intros Hf. split; [|auto]. intros j. unfold thread, on. cbn [threads with_threads]. destruct (decide (i = j)) as [<-|Hne].
  - rewrite lookup_alter_eq. destruct (threads s !! i); cbn; auto.
  - rewrite lookup_alter_ne by exact Hne. reflexivity.
Qed.
Lemma calm_set_prio i p a b s : calm s (set_prio i p a b s).
Proof. unfold set_prio. destruct (b || a); (eapply calm_trans; [|apply calm_on; reflexivity]); (split; [reflexivity|auto]). Qed.
Lemma calm_list l s : calm s (with_list l s).
Proof. split; [reflexivity|auto]. Qed.

Lemma calm_command cfg cmd cpu current now s :
  match command_of cfg cmd cpu current now s with inl (_, s') => calm s s' | inr s' => calm s s' end.
Proof.
  unfold command_of. destruct cmd as [p| |], cpu as [i|]; try apply calm_refl.
  - destruct (_ && _); [apply calm_set_prio|]. destruct (remove_one i (g_ppu s)); [|apply calm_set_prio].
    eapply calm_trans; [apply calm_list|apply calm_set_prio].
  - destruct (list_find _ _) as [[k j]|]; [|apply calm_refl]. destruct (same_prio _ _ _) as [same rest]. destruct same as [|x same]; [apply calm_refl|].
    destruct (_ <? _)%nat; [apply calm_list|]. eapply calm_trans; [apply calm_list|]. apply calm_on. reflexivity.
Qed.
Lemma unregister_subset i w x : x ∈ unregister i w -> x ∈ w.
Proof.
  induction w as [|[t j] w IH]; cbn; [auto|]. destruct (decide (j = i)); rewrite ?elem_of_cons; [auto|]. intros [->|H]; auto.
Qed.
Lemma calm_emplace i s : calm s (snd (emplace_thread i s)).
Proof.
  unfold emplace_thread. destruct (insert_prio _ _ _) as [l|]; cbn [snd].
  - split; [reflexivity|]. intros x. apply unregister_subset.
  - destruct (_ =? 1); [apply calm_on; reflexivity|apply calm_refl].
Qed.
Lemma calm_emplaces l changed lowest s : calm s (snd (emplace_threads l changed lowest s)).
Proof.
  revert changed lowest s. induction l as [|i l IH]; intros changed lowest s; cbn [emplace_threads]; [apply calm_refl|].
  pose proof (calm_emplace i s) as H. destruct (emplace_thread i s) as [b s']. cbn [snd] in H.
  destruct b; (eapply calm_trans; [exact H|apply IH]).
Qed.
Lemma calm_suspends l s : calm s (suspend_threads l s).
Proof.
  revert s. induction l as [|i l IH]; intros s; cbn [suspend_threads]; [apply calm_refl|]. eapply calm_trans; [|apply IH].
  destruct (suspend _); [apply calm_refl|]. apply (calm_on i (fun c => with_ack true (with_suspend true c)) s). reflexivity.
Qed.
Lemma calm_awake cfg cpu cmd current to_awake now s b s' :
  awake_unlocked cfg cpu cmd current to_awake now s = Some (b, s') -> calm s s'.
Proof.
  unfold awake_unlocked. pose proof (calm_command cfg cmd cpu current now s) as H0.
  destruct (command_of cfg cmd cpu current now s) as [[r s0]|s0]; [intros [= <- <-]; exact H0|].
  pose proof (calm_emplaces (match cpu with Some i => if match cmd with Yield => true | _ => false end then to_awake else [i] | None => to_awake end)
    match cmd with Yield => true | _ => false end (2 ^ 31 - 1) s0) as H1.
  destruct (emplace_threads _ _ _ s0) as [[changed lowest] s1]. cbn [snd] in H1.
  pose proof (calm_suspends (drop (ppu_threads cfg) (g_ppu s1)) s1) as H2. set (s2 := suspend_threads _ s1) in *. clearbody s2.
  destruct (acknowledge current s2) as [s3|] eqn:E3; [|discriminate]. intros [= <- <-].
  apply (calm_trans s s0); [exact H0|]. apply (calm_trans s0 s1); [exact H1|]. apply (calm_trans s1 s2); [exact H2|].
  apply (calm_trans s2 s3).
  - unfold acknowledge in E3. destruct current as [k|]; [|injection E3 as <-; apply calm_refl].
    destruct (ack_suspend _); [|injection E3 as <-; apply calm_refl]. destruct (_ =? 0); [discriminate|]. injection E3 as <-.
    apply (calm_on k (with_ack false) s2). reflexivity.
  - unfold delay_caller. destruct current as [k|]; [|apply calm_refl]. destruct (_ && _); [|apply calm_refl]. apply calm_on. reflexivity.
Qed.
Lemma calm_start l s : calm s (start_threads l s).
Proof.
  revert s. induction l as [|i l IH]; intros s; cbn [start_threads]; [apply calm_refl|]. eapply calm_trans; [|apply IH].
  destruct (suspend _); [|apply calm_refl]. apply calm_on. reflexivity.
Qed.

(** No thread with a time limit has been notified. *)
Definition unnotified (s : sched) : Prop := forall t i, (t, i) ∈ g_waiting s -> notify (thread s i) = false.
Lemma calm_unnotified s s' : calm s s' -> unnotified s -> unnotified s'.
Proof. intros [A B] H t i Hi. rewrite A. apply (H t i), B, Hi. Qed.
Lemma thread_notified i j s : j <> i -> notify (thread (on i (with_notify true) s) j) = notify (thread s j).
Proof. intros Hne. unfold thread, on. cbn [threads with_threads]. rewrite lookup_alter_ne by congruence. reflexivity. Qed.
Lemma expire_some now current w s :
  NoDup (map snd w) -> (forall t i, (t, i) ∈ w -> notify (thread s i) = false) -> is_Some (expire now current w s).
Proof.
  revert s. induction w as [|[t i] w IH]; intros s Hnd H; cbn [expire]; [eauto|]. inversion Hnd as [|? ? Hi Hw]; subst.
  destruct (t <=? now); [|eauto]. destruct (bool_decide _); [apply IH; [exact Hw|]; intros t' j Hj; apply (H t' j); right; exact Hj|].
  rewrite (H t i) by left. apply IH; [exact Hw|]. intros t' j Hj.
  rewrite thread_notified by (intros E; subst j; apply Hi, list_elem_of_fmap; exists (t', i); auto). apply (H t' j). right. exact Hj.
Qed.
Lemma schedule_some cfg current now tsc s : NoDup (map snd (g_waiting s)) -> unnotified s -> is_Some (schedule_all cfg current now tsc s).
Proof.
  intros Hnd Hu. unfold schedule_all. set (s1 := if _ && _ then _ else s).
  assert (g_waiting s1 = g_waiting s /\ calm s s1) as [Hw Hc].
  { unfold s1. destruct (_ && _); [|split; [reflexivity|apply calm_refl]]. split; [apply start_threads_kept|apply calm_start]. }
  destruct (expire_some now current (g_waiting s1) s1) as [s2 ->]; [rewrite Hw; exact Hnd|exact (calm_unnotified s s1 Hc Hu)|eauto].
Qed.

(** ** The scheduler *)

(** A thread that runs, or has been told to give way and has not yet acknowledged it. *)
Definition occupies (s : sched) (i : nat) : Prop := suspend (thread s i) = false \/ ack_suspend (thread s i) = true.

Lemma occupies_runs s i : occupies s i <-> runs (view s) i.
Proof. unfold occupies, runs. rewrite suspend_thread, ack_thread. reflexivity. Qed.

(** C40: the scheduler.  After any sequence of operations: the run queue has each thread once, by
    priority; no more than [ppu_threads] threads occupy a processor, a thread told to give way
    counting until it acknowledges; once the scheduler has started and no acknowledgement is due
    the threads that occupy one are exactly the first [ppu_threads] of the queue;
    [g_pending] is zero exactly when none is due; a thread with a registered time limit is not in
    the queue, and the limits are in order; [awake_unlocked] never throws, and [awake], which
    also runs [schedule_all], throws only when a thread with a registered time limit has its
    [notify] flag set already; and [schedule_all] signals only threads in front that were
    suspended and have acknowledged. *)
Theorem highest_run cfg ops s :
  do_ops cfg ops no_threads = Some s ->
  NoDup (g_ppu s) /\ StronglySorted (fun i j => prio (thread s i) <= prio (thread s j)) (g_ppu s) /\
  (forall r, NoDup r -> (forall i, i ∈ r -> occupies s i) -> (length r <= ppu_threads cfg)%nat) /\
  (g_scheduler_ready s = true -> g_pending s = 0 -> forall i, occupies s i <-> i ∈ take (ppu_threads cfg) (g_ppu s)) /\
  (g_pending s = 0 <-> forall i, ack_suspend (thread s i) = false) /\
  StronglySorted (fun a b : Z * nat => fst a <= fst b) (g_waiting s) /\ (forall t i, (t, i) ∈ g_waiting s -> i ∉ g_ppu s) /\
  (forall cpu cmd current to_awake now, cmd_ok cmd -> exist s (option_list cpu ++ to_awake) = true ->
     is_Some (awake_unlocked cfg cpu cmd current to_awake now s)) /\
  (forall cpu cmd current to_awake now tsc, cmd_ok cmd -> exist s (option_list cpu ++ to_awake) = true -> unnotified s ->
     is_Some (awake cfg cpu cmd current to_awake now tsc s)) /\
  (forall current now tsc s' i, schedule_all cfg current now tsc s = Some s' -> signal (thread s' i) = true ->
     signal (thread s i) = true \/ (i ∈ take (ppu_threads cfg) (g_ppu s) /\ suspend (thread s i) = true /\ ack_suspend (thread s i) = false)).
Proof.
  intros H. pose proof (do_ops_ok cfg ops no_threads s (no_threads_ok cfg) H) as (B & Hb & Hf).
  pose proof B as [B1 B2 B3 B4 B5 B6 B7 B8 B9 B10 (r & R1 & R2 & R3)].
  assert (g_pending s = 0 -> forall i, ack_suspend (thread s i) = false) as Hnone by (intros H0 i; rewrite ack_thread; apply acks_none; lia).
  split; [exact B1|]. split; [|split; [|split; [|split; [|split; [exact B8|split; [|split; [|split]]]]]]].
  - clear -B3. induction B3 as [|i l Hs IH Hl]; constructor; auto. eapply Forall_impl; [exact Hl|]. intros j. rewrite !prio_thread. auto.
  - intros r' Hnd Hocc. transitivity (length r); [|exact R2]. apply submseteq_length, NoDup_submseteq; [exact Hnd|].
    intros i Hi. apply R3, occupies_runs, Hocc, Hi.
  - intros Hr H0 i. split.
    + intros [Hs|Ha]; [|rewrite Hnone in Ha by exact H0; discriminate]. rewrite suspend_thread in Hs.
      destruct (view s !! i) as [c|] eqn:Ei; [|unfold at_ in Hs; rewrite Ei in Hs; discriminate].
      destruct (decide (i ∈ g_ppu s)) as [Hi|Hi]; [|destruct (B4 i c Ei Hi ltac:(discriminate)); rewrite (at_some _ _ _ Ei) in Hs; congruence].
      rewrite <- (take_drop (ppu_threads cfg) (g_ppu s)), elem_of_app in Hi. destruct Hi as [Hi|Hi]; [exact Hi|]. specialize (Hb i Hi). congruence.
    + intros Hi. left. rewrite suspend_thread. apply Hf; assumption.
  - split; [exact Hnone|]. intros Ha. rewrite B6, acks_zero; [reflexivity|]. intros i. rewrite <- ack_thread. apply Ha.
  - intros t i Hi. apply B10. apply list_elem_of_fmap. exists (t, i). auto.
  - intros cpu cmd current to_awake now Hc He. pose proof (exist_spec s _ He) as Hex.
    destruct (awake_unlocked_ok cfg cpu cmd current to_awake now s B Hb Hc) as (b & s' & -> & _); [|intros i Hi; apply Hex, elem_of_app; auto|eauto].
    intros i ->. apply Hex. left.
  - intros cpu cmd current to_awake now tsc Hc He Hu. pose proof (exist_spec s _ He) as Hex.
    destruct (awake_unlocked_ok cfg cpu cmd current to_awake now s B Hb Hc) as (b & s' & Es & B' & _); [|intros i Hi; apply Hex, elem_of_app; auto|].
    { intros i ->. apply Hex. left. }
    unfold awake. rewrite Es. destruct (schedule_some cfg current now tsc s') as [s'' ->]; [apply B'|exact (calm_unnotified s s' (calm_awake _ _ _ _ _ _ _ _ _ Es) Hu)|eauto].
  - intros current now tsc s' i Hs Hsig. destruct (schedule_signals _ _ _ _ _ _ _ Hs Hsig) as [Hx|(H0 & H1 & H2)]; [auto|]. right. auto.
Qed.

(** One processor: a thread runs, one of higher priority is woken, the first acknowledges and the
    other takes its place. *)
Definition new_thread (p : Z) : ppu := mk_ppu p 0 true false false false false false false 0 0 0 0 0 false.
Definition one_processor : config := mk_config 1 false.
Definition give_way : list op :=
  [Create 0%nat (new_thread 1000); Create 1%nat (new_thread 500); Ready None [] 1 0; Awake (Some 0%nat) None [] 2 0;
   Awake (Some 1%nat) None [] 3 0; Awake None (Some 0%nat) [] 4 0].

Lemma highest_run_witness :
  exists s, do_ops one_processor give_way no_threads = Some s /\ g_ppu s = [1; 0]%nat /\ g_pending s = 0 /\
    (occupies s 1 <-> 1%nat ∈ take 1 (g_ppu s)) /\ suspend (thread s 1) = false /\ suspend (thread s 0) = true.
Proof.
  destruct (do_ops one_processor give_way no_threads) as [s|] eqn:E; [|vm_compute in E; discriminate].
  exists s. split; [reflexivity|]. destruct (highest_run one_processor _ s E) as (_ & _ & _ & H & _).
  vm_compute in E. injection E as <-. split; [reflexivity|]. split; [reflexivity|]. split; [apply H; reflexivity|]. vm_compute. auto.
Defined.
