(* ===== verification/FileStream.v ===== *)
(** * Streams over a container (Utilities/File.h: container_stream, file)

    A [container_stream] is a vector of bytes with a position; the loaders read and write
    through it.  The time stamps the stream also keeps are not read by its users and are
    left out.  A result [None] of a write or a truncation is an exception: an offset over
    64 bits, or a length no vector can have. *)

From Stdlib Require Import ZArith Lia Bool.
From stdpp Require Import base numbers list option.
From S2P Require Import Prelude.

Definition len {A} (l : list A) : Z := Z.of_nat (length l).

Record container_stream := MkStream { obj : list Z; pos : Z }.

(** [std::vector::max_size] of a vector of bytes. *)
Definition vector_max : Z := 2 ^ 63 - 1.

(** [obj.resize(n)] *)
Definition resize (n : Z) (l : list Z) : list Z :=
  take (Z.to_nat n) l ++ replicate (Z.to_nat n - length l) 0.

Definition trunc (length : Z) (s : container_stream) : option container_stream :=
  if vector_max <? length then None else Some (MkStream (resize length (obj s)) (pos s)).

(** The bytes from [offset] on, [size] of them if there are as many. *)
Definition slice (offset size : Z) (l : list Z) : list Z :=
  if offset <? len l then take (Z.to_nat (Z.min size (len l - offset))) (drop (Z.to_nat offset) l) else [].

Definition read (size : Z) (s : container_stream) : list Z * container_stream :=
  let buffer := slice (pos s) size (obj s) in
  (buffer, MkStream (obj s) (pos s + len buffer)).

Definition read_at (offset size : Z) (s : container_stream) : list Z := slice offset size (obj s).

Definition write (buffer : list Z) (s : container_stream) : option container_stream :=
  let old_size := len (obj s) in
  let size := len buffer in
  if (u64 (old_size + size) <? old_size) || (u64 (pos s + size) <? pos s) then None else
  let l := if old_size <? pos s then resize (pos s) (obj s) else obj s in
  let p := Z.to_nat (pos s) in
  let overlap := Z.to_nat (Z.min (len l - pos s) size) in
  Some (MkStream (take p l ++ take overlap buffer ++ drop (p + overlap) l ++ drop overlap buffer)
          (u64 (pos s + size))).

Inductive seek_mode := seek_set | seek_cur | seek_end.

(** The position, or [-1] as an unsigned number. *)
Definition seek (offset : Z) (whence : seek_mode) (s : container_stream) : Z * container_stream :=
  let new_pos :=
    match whence with
    | seek_set => s64 offset
    | seek_cur => s64 (s64 offset + pos s)
    | seek_end => s64 (s64 offset + len (obj s))
    end in
  if new_pos <? 0 then (u64 (-1), s) else (new_pos, MkStream (obj s) new_pos).

Definition size (s : container_stream) : Z := len (obj s).

(** ** The [file] functions over it *)

Definition strict_read_check (offset _size type_size : Z) (s : container_stream) : bool :=
  negb ((if size s <=? offset then 0 else size s - offset) / type_size <? _size).

(** [file::read] of a string or a vector of [_size] elements of [type_size] bytes: [None]
    when it returns false. *)
Definition read_vec (type_size _size : Z) (s : container_stream) : option (list Z) * container_stream :=
  if (0x100000 / type_size <=? _size) && negb (strict_read_check (pos s) _size type_size s) then (None, s) else
  let '(buffer, s') := read (type_size * _size) s in
  (if len buffer =? type_size * _size then Some buffer else None, s').

(** The same with [use_offs]: at an offset, with the position left as it is. *)
Definition read_vec_at (type_size _size offset : Z) (s : container_stream) : option (list Z) :=
  if (0x100000 / type_size <=? _size) && negb (strict_read_check offset _size type_size s) then None else
  let buffer := read_at offset (type_size * _size) s in
  if len buffer =? type_size * _size then Some buffer else None.

(** [file::read] of a POD of [n] bytes. *)
Definition read_pod (n : Z) (s : container_stream) : option (list Z) * container_stream :=
  let '(buffer, s') := read n s in
  (if len buffer =? n then Some buffer else None, s').

(** [stream.trunc(stream.seek(offset, whence))] *)
Definition trunc_seek (offset : Z) (whence : seek_mode) (s : container_stream) : option container_stream :=
  let '(p, s') := seek offset whence s in trunc p s'.

(** ** Little-endian integers ([le_t]) *)

Fixpoint le_bytes (n : nat) (v : Z) : list Z :=
  match n with
  | O => []
  | S n => u8 v :: le_bytes n (Z.shiftr v 8)
  end.

Fixpoint le_value (l : list Z) : Z :=
  match l with
  | [] => 0
  | b :: l => b + 256 * le_value l
  end.

Definition is_bytes (l : list Z) : Prop := Forall (in_range 8) l.

(** ** Facts *)

Lemma len_nonneg {A} (l : list A) : 0 <= len l.
Proof. unfold len. lia. Qed.
Lemma len_app {A} (l k : list A) : len (l ++ k) = len l + len k.
Proof. unfold len. rewrite length_app. lia. Qed.
Lemma len_cons {A} (x : A) l : len (x :: l) = 1 + len l.
Proof. unfold len. cbn [length]. lia. Qed.
Lemma len_nil {A} : len (@nil A) = 0.
Proof. reflexivity. Qed.
Lemma len_replicate {A} n (x : A) : 0 <= n -> len (replicate (Z.to_nat n) x) = n.
Proof. unfold len. rewrite length_replicate. lia. Qed.
Lemma len_take {A} n (l : list A) : 0 <= n -> len (take (Z.to_nat n) l) = Z.min n (len l).
Proof. unfold len. rewrite length_take. lia. Qed.
Lemma to_nat_len {A} (l : list A) : Z.to_nat (len l) = length l.
Proof. unfold len. lia. Qed.

Create Rewrite HintDb stream.
#[export] Hint Rewrite @len_app @len_cons @len_nil : stream.

Lemma len_resize n l : 0 <= n -> len (resize n l) = n.
Proof. intros H. unfold resize, len. rewrite length_app, length_take, length_replicate. lia. Qed.

Lemma resize_exact a b n : n = len a -> resize n (a ++ b) = a.
Proof.
  intros ->. unfold resize. rewrite to_nat_len, take_app_length, length_app.
  replace (length a - (length a + length b))%nat with O by lia. apply app_nil_r.
Qed.

Lemma resize_grow a n : 0 <= n -> resize (len a + n) a = a ++ replicate (Z.to_nat n) 0.
Proof.
  intros H. unfold resize. rewrite take_ge by (unfold len; lia). f_equal. f_equal. unfold len. lia.
Qed.

Lemma resize_prefix a b n : len a <= n -> exists c, resize n (a ++ b) = a ++ c /\ len c = n - len a.
Proof.
  intros H. pose proof (len_nonneg a). exists (resize (n - len a) b). split; [|rewrite len_resize; lia].
  unfold resize. rewrite take_app, length_app, (take_ge a) by (unfold len in *; lia).
  rewrite <- app_assoc. do 2 f_equal; [f_equal|f_equal]; unfold len in *; lia.
Qed.

Lemma is_bytes_app l k : is_bytes (l ++ k) <-> is_bytes l /\ is_bytes k.
Proof. apply Forall_app. Qed.

Lemma len_le_bytes n v : len (le_bytes n v) = Z.of_nat n.
Proof. unfold len. f_equal. revert v. induction n as [|n IH]; intros v; cbn; [reflexivity|]. f_equal. apply IH. Qed.

Lemma le_bytes_ok n v : is_bytes (le_bytes n v).
Proof.
  revert v. induction n as [|n IH]; intros v; cbn; constructor; [apply wrap_range; lia|apply IH].
Qed.

Lemma le_value_bytes n v : le_value (le_bytes n v) = wrap (8 * Z.of_nat n) v.
Proof.
  revert v. induction n as [|n IH]; intros v; cbn [le_bytes le_value].
  - unfold wrap. cbn. symmetry. apply Z.mod_1_r.
  - rewrite IH. unfold wrap. rewrite Z.shiftr_div_pow2 by lia. change (2 ^ 8) with 256.
    replace (8 * Z.of_nat (S n)) with (8 + 8 * Z.of_nat n) by lia.
    rewrite Z.pow_add_r by lia. change (2 ^ 8) with 256.
    rewrite Z.rem_mul_r by (try apply Z.pow_nonzero; lia). reflexivity.
Qed.

Lemma le_value_range l : is_bytes l -> in_range (8 * len l) (le_value l).
Proof.
  induction 1 as [|b l Hb Hl IH]; [split; vm_compute; congruence|].
  rewrite len_cons. cbn [le_value]. unfold in_range in *. pose proof (len_nonneg l).
  replace (8 * (1 + len l)) with (8 + 8 * len l) by lia. rewrite Z.pow_add_r by lia.
  change (2 ^ 8) with 256 in *. nia.
Qed.

(** A read of bytes that are there. *)
Lemma slice_found a b c : slice (len a) (len b) (a ++ b ++ c) = b.
Proof.
  unfold slice. rewrite !len_app. pose proof (len_nonneg b). pose proof (len_nonneg c).
  replace (len a + (len b + len c) - len a) with (len b + len c) by lia.
  rewrite Z.min_l by lia. rewrite !to_nat_len, drop_app_length, take_app_length.
  destruct (Z.ltb_spec (len a) (len a + (len b + len c))); [reflexivity|].
  destruct b; [reflexivity|]. rewrite len_cons in *. pose proof (len_nonneg b). lia.
Qed.

Lemma slice_bytes o n l : is_bytes l -> is_bytes (slice o n l).
Proof. intros H. unfold slice. case_match; [|constructor]. apply Forall_take, Forall_drop, H. Qed.

Lemma read_found a b c : read (len b) (MkStream (a ++ b ++ c) (len a)) = (b, MkStream (a ++ b ++ c) (len a + len b)).
Proof. unfold read. cbn [obj pos]. rewrite slice_found. reflexivity. Qed.

Lemma read_pod_found a b c n : n = len b ->
  read_pod n (MkStream (a ++ b ++ c) (len a)) = (Some b, MkStream (a ++ b ++ c) (len a + len b)).
Proof. intros ->. unfold read_pod. rewrite read_found, Z.eqb_refl. reflexivity. Qed.

Lemma read_vec_found t n a b c : 0 < t -> t * n = len b ->
  read_vec t n (MkStream (a ++ b ++ c) (len a)) = (Some b, MkStream (a ++ b ++ c) (len a + len b)).
Proof.
  intros Ht Hn. unfold read_vec, strict_read_check, size. cbn [obj pos].
  rewrite Hn, read_found, Z.eqb_refl, !len_app. pose proof (len_nonneg b). pose proof (len_nonneg c).
  match goal with |- context [?x <? n] => replace (x <? n) with false end; [rewrite andb_false_r; reflexivity|].
  symmetry. apply Z.ltb_ge, Z.div_le_lower_bound; [lia|].
  destruct (Z.leb_spec (len a + (len b + len c)) (len a)); lia.
Qed.

(** A write at the end of [a] puts the bytes there, whatever was after it. *)
Lemma write_at a r b : len a + len r + len b < 2 ^ 64 ->
  exists r', write b (MkStream (a ++ r) (len a)) = Some (MkStream ((a ++ b) ++ r') (len (a ++ b)))
    /\ len r' <= len r.
Proof.
  intros H. pose proof (len_nonneg a). pose proof (len_nonneg b). pose proof (len_nonneg r).
  unfold write. cbn [obj pos]. rewrite !len_app.
  rewrite !wrap_small by (split; lia).
  destruct (Z.ltb_spec (len a + len r + len b) (len a + len r)); [lia|].
  destruct (Z.ltb_spec (len a + len b) (len a)); [lia|].
  destruct (Z.ltb_spec (len a + len r) (len a)); [lia|]. cbn [orb].
  replace (len (a ++ r) - len a) with (len r) by (rewrite len_app; lia).
  rewrite to_nat_len, take_app_length.
  rewrite <- drop_drop, drop_app_length.
  exists (drop (Z.to_nat (Z.min (len r) (len b))) r).
  split; [|unfold len; rewrite length_drop; lia].
  do 2 f_equal.
  destruct (Z.leb_spec (len r) (len b)).
  - rewrite Z.min_l by lia. rewrite to_nat_len, (drop_ge r), app_nil_l, take_drop, app_nil_r by lia. reflexivity.
  - rewrite Z.min_r by lia. rewrite to_nat_len, (firstn_all b), (drop_all b), app_nil_r, app_assoc. reflexivity.
Qed.

Lemma s64_small x : 0 <= x < 2 ^ 63 -> s64 x = x.
Proof. intros H. apply sint_small; [lia|]. change (64 - 1) with 63. lia. Qed.

Lemma seek_to off l p : 0 <= off < 2 ^ 63 -> seek off seek_set (MkStream l p) = (off, MkStream l off).
Proof.
  intros H. unfold seek. rewrite s64_small by exact H.
  destruct (Z.ltb_spec off 0); [lia|reflexivity].
Qed.

(** Writing stops inside what is there or at its end: everything after [n] is cut off. *)
Lemma trunc_seek_set a r n : len a <= n < 2 ^ 63 ->
  exists c, trunc_seek n seek_set (MkStream (a ++ r) (len a)) = Some (MkStream (a ++ c) n) /\ len c = n - len a.
Proof.
  intros H. pose proof (len_nonneg a). unfold trunc_seek. rewrite seek_to by lia.
  unfold trunc, vector_max. destruct (Z.ltb_spec (2 ^ 63 - 1) n); [lia|]. cbn [obj pos].
  destruct (resize_prefix a r n) as (c & -> & Hc); [lia|]. eauto.
Qed.

Lemma trunc_seek_cur a n : 0 <= n -> len a + n < 2 ^ 63 ->
  trunc_seek n seek_cur (MkStream a (len a)) =
    Some (MkStream (a ++ replicate (Z.to_nat n) 0) (len (a ++ replicate (Z.to_nat n) 0))).
Proof.
  intros Hn H. pose proof (len_nonneg a). unfold trunc_seek, seek. cbn [obj pos].
  rewrite (s64_small n), s64_small by lia.
  destruct (Z.ltb_spec (n + len a) 0); [lia|].
  unfold trunc, vector_max. destruct (Z.ltb_spec (2 ^ 63 - 1) (n + len a)); [lia|]. cbn [obj pos].
  rewrite Z.add_comm, resize_grow by lia. rewrite len_app, len_replicate by lia. reflexivity.
Qed.
