(* ===== verification/Psf.v ===== *)
(** * PSF registries (Loader/PSF.h, Loader/PSF.cpp)

    A PSF file (PARAM.SFO) is a header, a table of indices, a table of NUL-terminated keys
    and a table of values.  [load] reads one from a stream into a registry, a sorted map
    from keys to entries, and [save_object] writes a registry.  A failed [ensure] or
    [narrow] and a thrown exception are [None] or [Fatal]. *)

From Stdlib Require Import ZArith Lia Bool String Ascii.
From stdpp Require Import base numbers list option.
From S2P Require Import Prelude Vfs FileStream.

(** The bytes of a literal. *)
Definition str (s : String.string) : list Z :=
  map (fun c => Z.of_N (Ascii.N_of_ascii c)) (String.list_ascii_of_string s).
Arguments str s%_string.

(** ** Entries *)

Inductive format := fmt_array | fmt_string | fmt_integer.
#[export] Instance format_eq_dec : EqDecision format.
Proof. solve_decision. Defined.

Definition format_code (f : format) : Z :=
  match f with fmt_array => 0x0004 | fmt_string => 0x0204 | fmt_integer => 0x0404 end.

Inductive error := error_ok | error_stream | error_not_psf | error_corrupt.

Record entry := Entry {
  m_type : format; m_max_size : Z; m_value_integer : Z; m_value_string : list Z }.

Definition is_string (f : format) : bool := match f with fmt_string => true | _ => false end.

(** [max(with_nts)] *)
Definition max (e : entry) (with_nts : bool) : Z :=
  u32 (m_max_size e - (if negb with_nts && is_string (m_type e) then 1 else 0)).

(** [entry(type, max_size, value, allow_truncate)] *)
Definition string_entry (type : format) (max_size : Z) (value : list Z) (allow_truncate : bool) : option entry :=
  match type with
  | fmt_integer => None
  | _ =>
    if (if is_string type then 1 else 0) <? max_size then
      let e := Entry type max_size 0 value in
      Some (if allow_truncate && (max e false <? len value)
            then Entry type max_size 0 (resize (max e false) value) else e)
    else None
  end.

(** [entry(value)] *)
Definition integer_entry (value : Z) : entry := Entry fmt_integer 4 value [].

Definition as_string (e : entry) : option (list Z) :=
  match m_type e with fmt_integer => None | _ => Some (m_value_string e) end.
Definition as_integer (e : entry) : option Z :=
  match m_type e with fmt_integer => Some (m_value_integer e) | _ => None end.

(** The two assignment operators. *)
Definition set_string (e : entry) (value : list Z) : option entry :=
  match m_type e with
  | fmt_integer => None
  | _ => Some (Entry (m_type e) (m_max_size e) (m_value_integer e) value)
  end.
Definition set_integer (e : entry) (value : Z) : option entry :=
  match m_type e with
  | fmt_integer => Some (Entry (m_type e) (m_max_size e) value (m_value_string e))
  | _ => None
  end.

(** [::narrow<u32>] *)
Definition narrow32 (x : Z) : option Z := if u32 x =? x then Some x else None.

Definition entry_size (e : entry) : option Z :=
  match m_type e with
  | fmt_integer => Some 4
  | t => match narrow32 (u64 (len (m_value_string e) + (if is_string t then 1 else 0))) with
         | Some n => Some (Z.min (m_max_size e) n)
         | None => None
         end
  end.

Definition is_valid (e : entry) : bool :=
  match m_type e with
  | fmt_integer => true
  | _ => len (m_value_string e) <=? max e false
  end.

(** The bytes before the first NUL. *)
Fixpoint c_string (s : list Z) : list Z :=
  match s with
  | [] => []
  | c :: s => if c =? 0 then [] else c :: c_string s
  end.

(** Makers of entries: [psf::string] of a view and of a [char[N]], [psf::array]. *)
Definition string (max_size : Z) (value : list Z) (allow_truncate : bool) : option entry :=
  string_entry fmt_string max_size value allow_truncate.
Definition string_of_array (max_size : Z) (value_array : list Z) (allow_truncate : bool) : option entry :=
  string max_size (c_string value_array) allow_truncate.
Definition array (max_size : Z) (value : list Z) : option entry := string_entry fmt_array max_size value false.

(** ** The registry: [std::map<std::string, entry>], its nodes in the order of the keys *)

Definition registry := list (list Z * entry).

Fixpoint find (key : list Z) (psf : registry) : option entry :=
  match psf with
  | [] => None
  | (k, e) :: psf => if str_eqb k key then Some e else find key psf
  end.

Definition contains (key : list Z) (psf : registry) : bool :=
  match find key psf with Some _ => true | None => false end.

Fixpoint emplace (key : list Z) (e : entry) (psf : registry) : registry :=
  match psf with
  | [] => [(key, e)]
  | (k, x) :: psf' =>
    if str_ltb key k then (key, e) :: psf
    else if str_eqb k key then psf
    else (k, x) :: emplace key e psf'
  end.

Fixpoint update (key : list Z) (e : entry) (psf : registry) : registry :=
  match psf with
  | [] => []
  | (k, x) :: psf => if str_eqb k key then (k, e) :: psf else (k, x) :: update key e psf
  end.

(** [psf::assign] *)
Definition assign (psf : registry) (key : list Z) (e : entry) : registry :=
  match find key psf with
  | None => emplace key e psf
  | Some _ => update key e psf
  end.

Definition get_string (psf : registry) (key def : list Z) : list Z :=
  match find key psf with
  | Some e => match m_type e with fmt_integer => def | _ => m_value_string e end
  | None => def
  end.

Definition get_integer (psf : registry) (key : list Z) (def : Z) : Z :=
  match find key psf with
  | Some e => match m_type e with fmt_integer => m_value_integer e | _ => def end
  | None => def
  end.

Definition check_registry (psf : registry) : bool := forallb (fun '(_, e) => is_valid e) psf.

Definition is_cat_hdd (cat : list Z) : bool :=
  (len cat =? 2) && negb (default 0 (cat !! 1%nat) =? 68)
  && negb (str_eqb cat (str "DG")) && negb (str_eqb cat (str "MS")).

(** ** The file format *)

Record header_t := Header {
  magic : Z; version : Z; off_key_table : Z; off_data_table : Z; entries_num : Z }.

Record def_table_t := Def {
  key_off : Z; param_fmt : Z; param_len : Z; param_max : Z; data_off : Z }.

Definition sizeof_header : Z := 20.
Definition sizeof_def : Z := 16.

(** The structures as they lie in memory: little-endian fields with no padding. *)
Definition header_bytes (h : header_t) : list Z :=
  le_bytes 4 (magic h) ++ le_bytes 4 (version h) ++ le_bytes 4 (off_key_table h)
  ++ le_bytes 4 (off_data_table h) ++ le_bytes 4 (entries_num h).
Definition field (off n : nat) (l : list Z) : Z := le_value (take n (drop off l)).
Definition header_of (l : list Z) : header_t :=
  Header (field 0 4 l) (field 4 4 l) (field 8 4 l) (field 12 4 l) (field 16 4 l).

Definition def_bytes (d : def_table_t) : list Z :=
  le_bytes 2 (key_off d) ++ le_bytes 2 (param_fmt d) ++ le_bytes 4 (param_len d)
  ++ le_bytes 4 (param_max d) ++ le_bytes 4 (data_off d).
Definition def_of (l : list Z) : def_table_t :=
  Def (field 0 2 l) (field 2 2 l) (field 4 4 l) (field 8 4 l) (field 12 4 l).

(** The [n] elements of a vector of [def_table_t]. *)
Fixpoint defs_of (n : nat) (l : list Z) : list def_table_t :=
  match n with
  | O => []
  | S n => def_of (take 16 l) :: defs_of n (drop 16 l)
  end.

(** "\0PSF"_u32 *)
Definition psf_magic : Z := le_value [0; 80; 83; 70].

(** ** load *)

Inductive outcome (A : Type) := Ret (a : A) | Fail (err : error) | Fatal.
Arguments Ret {A} _.
Arguments Fail {A} _.
Arguments Fatal {A}.

Declare Scope psf_scope.
Delimit Scope psf_scope with psf.
Open Scope psf_scope.
Notation "'PSF_CHECK' c 'else' e ; k" := (if c then k else Fail e)
  (at level 10, c at level 100, e at level 100, k at level 200) : psf_scope.
Notation "'READ' ( x , s ) := m 'else' e ; k" := (match m with (Some x, s) => k | (None, _) => Fail e end)
  (at level 10, x name, s name, m at level 100, e at level 100, k at level 200) : psf_scope.

(** The value of an entry, at the position of the stream. *)
Definition load_value (ix : def_table_t) (key : list Z) (sfo : registry) (s : container_stream)
    : outcome (registry * container_stream) :=
  if (param_fmt ix =? format_code fmt_integer) && (param_max ix =? 4) && (param_len ix =? 4) then
    READ (value, s) := read_pod 4 s else error_corrupt;
    Ret (emplace key (integer_entry (le_value value)) sfo, s)
  else if (param_fmt ix =? format_code fmt_string) || (param_fmt ix =? format_code fmt_array) then
    READ (value, s) := read_vec 1 (param_len ix) s else error_corrupt;
    let e := if param_fmt ix =? format_code fmt_string
             then string_entry fmt_string (param_max ix) (c_string value) false
             else string_entry fmt_array (param_max ix) value false in
    match e with
    | Some e => Ret (emplace key e sfo, s)
    | None => Fatal
    end
  else Ret (sfo, s).

(** One pass of the loop over the indices. *)
Definition load_entry (header : header_t) (keys : list Z) (ix : def_table_t)
    (sfo : registry) (s : container_stream) : outcome (registry * container_stream) :=
  PSF_CHECK key_off ix <? u32 (off_data_table header - off_key_table header) else error_corrupt;
  let key := c_string (drop (Z.to_nat (key_off ix)) keys) in
  PSF_CHECK negb (contains key sfo) else error_corrupt;
  PSF_CHECK param_len ix <=? param_max ix else error_corrupt;
  PSF_CHECK data_off ix <? u64 (size s - off_data_table header) else error_corrupt;
  PSF_CHECK param_max ix <? u64 (size s - data_off ix) else error_corrupt;
  load_value ix key sfo (seek (u32 (off_data_table header + data_off ix)) seek_set s).2.

Fixpoint load_entries (header : header_t) (keys : list Z) (indices : list def_table_t)
    (sfo : registry) (s : container_stream) : outcome registry :=
  match indices with
  | [] => Ret sfo
  | ix :: indices =>
    match load_entry header keys ix sfo s with
    | Ret (sfo, s) => load_entries header keys indices sfo s
    | Fail e => Fail e
    | Fatal => Fatal
    end
  end.

Definition CATEGORY : list Z := str "CATEGORY".
Definition valid_cats : list (list Z) :=
  map str ["GD"; "DG"; "HG"; "AM"; "AP"; "AS"; "AT"; "AV"; "BV"; "WT"; "HM"; "CB"; "SF"; "2P"; "2G"; "1P";
           "PP"; "MN"; "PE"; "2D"; "SD"; "MS"]%string.

Definition load_stream (s : container_stream) : outcome registry :=
  let s := (seek 0 seek_set s).2 in
  READ (hb, s) := read_pod sizeof_header s else error_not_psf;
  let header := header_of hb in
  PSF_CHECK magic header =? psf_magic else error_not_psf;
  PSF_CHECK version header =? 0x101 else error_not_psf;
  PSF_CHECK sizeof_header <=? off_key_table header else error_corrupt;
  PSF_CHECK off_key_table header <=? off_data_table header else error_corrupt;
  PSF_CHECK off_data_table header <=? size s else error_corrupt;
  READ (ib, s) := read_vec sizeof_def (entries_num header) s else error_corrupt;
  let indices := defs_of (Z.to_nat (entries_num header)) ib in
  let '(p, s) := seek (off_key_table header) seek_set s in
  PSF_CHECK p =? off_key_table header else error_corrupt;
  READ (keys, s) := read_vec 1 (u32 (off_data_table header - off_key_table header)) s else error_corrupt;
  match load_entries header keys indices [] s with
  | Ret sfo =>
    PSF_CHECK existsb (str_eqb (get_string sfo CATEGORY [])) valid_cats else error_corrupt;
    Ret sfo
  | Fail e => Fail e
  | Fatal => Fatal
  end.

Record load_result_t := LoadResult { sfo : registry; errc : error }.

(** [load(stream, filename)]: no stream is a file that could not be opened; [None] is the
    end of the process at a failed [ensure] of a constructor. *)
Definition load (stream : option container_stream) : option load_result_t :=
  match stream with
  | None => Some (LoadResult [] error_stream)
  | Some s =>
    match load_stream s with
    | Ret sfo => Some (LoadResult sfo error_ok)
    | Fail e => Some (LoadResult [] e)
    | Fatal => None
    end
  end.

(** [load_object] *)
Definition load_object (stream : option container_stream) : option registry := option_map sfo (load stream).

(** ** save_object *)

(** [utils::align] of a [usz]. *)
Definition align (value align : Z) : Z := Z.land (u64 (value + (align - 1))) (u64 (0 - align)).

(** The indices and the length of the key table. *)
Fixpoint make_indices (psf : registry) (key_offset data_offset : Z) : option (list def_table_t * Z) :=
  match psf with
  | [] => Some ([], key_offset)
  | (key, e) :: psf =>
    ko ← narrow32 key_offset;
    plen ← entry_size e;
    doff ← narrow32 data_offset;
    ks ← narrow32 (u64 (len key + 1));
    let index := Def (u16 ko) (format_code (m_type e)) plen (max e true) doff in
    '(indices, key_offset) ← make_indices psf (u64 (key_offset + ks)) (u64 (data_offset + max e true));
    Some (index :: indices, key_offset)
  end.

Fixpoint save_keys (psf : registry) (s : container_stream) : option container_stream :=
  match psf with
  | [] => Some s
  | (key, _) :: psf => s ← write key s; s ← write [0] s; save_keys psf s
  end.

Definition save_entry (e : entry) (s : container_stream) : option container_stream :=
  let fmt := m_type e in
  let max_ := max e true in
  if bool_decide (fmt = fmt_integer) && (max_ =? 4) then
    value ← as_integer e; write (le_bytes 4 value) s
  else if bool_decide (fmt = fmt_string) || bool_decide (fmt = fmt_array) then
    value ← as_string e;
    let value := if is_valid e then value else take (Z.to_nat (max e false)) value in
    s ← write value s;
    trunc_seek (u64 (max_ - len value)) seek_cur s
  else None.

Fixpoint save_data (psf : registry) (s : container_stream) : option container_stream :=
  match psf with
  | [] => Some s
  | (_, e) :: psf => s ← save_entry e s; save_data psf s
  end.

Definition save_object (psf : registry) (init : list Z) : option (list Z) :=
  let stream := MkStream init 0 in
  '(indices, key_offset) ← make_indices psf 0 0;
  let key_offset := align key_offset 4 in
  okt ← narrow32 (u64 (sizeof_header + sizeof_def * len psf));
  odt ← narrow32 (u64 (okt + key_offset));
  num ← narrow32 (len psf);
  let header := Header psf_magic 0x101 okt odt num in
  stream ← write (header_bytes header) stream;
  stream ← write (List.concat (map def_bytes indices)) stream;
  stream ← save_keys psf stream;
  stream ← trunc_seek odt seek_set stream;
  stream ← save_data psf stream;
  Some (obj stream).
