(* ===== verification/PsfRound.v ===== *)
(** * PSF registries: writing and reading back

    What [save_object] writes, as one list of bytes; [load] of it gives the registry back,
    with the values that do not fit cut to their limits; and what [load] returns for any
    bytes at all. *)

From Stdlib Require Import ZArith Lia Bool String Ascii Sorted.
From stdpp Require Import base numbers list option sorting.
From S2P Require Import Prelude Vfs FileStream Psf.

(** ** Well-formed registries *)

Definition nul_free (s : list Z) : Prop := Forall (fun b => 0 < b < 256) s.

Definition entry_ok (e : entry) : Prop :=
  0 <= m_max_size e < 2 ^ 32 /\
  match m_type e with
  | fmt_integer => m_max_size e = 4 /\ in_range 32 (m_value_integer e) /\ m_value_string e = []
  | fmt_string => 1 < m_max_size e /\ m_value_integer e = 0 /\ nul_free (m_value_string e)
  | fmt_array => 0 < m_max_size e /\ m_value_integer e = 0 /\ is_bytes (m_value_string e)
  end.

Definition str_lt (s t : list Z) : Prop := str_ltb s t = true.

Definition registry_ok (psf : registry) : Prop :=
  StronglySorted str_lt psf.*1 /\ Forall (fun '(k, e) => nul_free k /\ entry_ok e) psf.

(** The part of a value that fits in the entry. *)
Definition shrink (e : entry) : entry :=
  match m_type e with
  | fmt_integer => e
  | t => Entry t (m_max_size e) (m_value_integer e) (take (Z.to_nat (max e false)) (m_value_string e))
  end.
Definition shrunk (psf : registry) : registry := (fun '(k, e) => (k, shrink e)) <$> psf.

(** ** The sections of the file *)

Definition key_blob (psf : registry) : list Z := List.concat (map (fun '(k, _) => k ++ [0]) psf).
Definition data_bytes (e : entry) : list Z :=
  match m_type e with
  | fmt_integer => le_bytes 4 (m_value_integer e)
  | _ => let v := m_value_string (shrink e) in v ++ replicate (Z.to_nat (m_max_size e - len v)) 0
  end.
Definition data_blob (psf : registry) : list Z := List.concat (map (fun '(_, e) => data_bytes e) psf).
Definition param_size (e : entry) : Z :=
  match m_type e with
  | fmt_integer => 4
  | t => Z.min (m_max_size e) (len (m_value_string e) + (if is_string t then 1 else 0))
  end.
Fixpoint indices_of (psf : registry) (ko d : Z) : list def_table_t :=
  match psf with
  | [] => []
  | (k, e) :: psf =>
    Def ko (format_code (m_type e)) (param_size e) (m_max_size e) d
      :: indices_of psf (ko + len k + 1) (d + m_max_size e)
  end.

(** The limits of the format: 16-bit offsets of keys, 32-bit offsets and lengths. *)
Definition fits (psf : registry) : Prop :=
  len (key_blob psf) <= 65536
  /\ 24 + sizeof_def * len psf + len (key_blob psf) + len (data_blob psf) < 2 ^ 32
  /\ Forall (fun '(_, e) => len (m_value_string e) + 1 < 2 ^ 32) psf.

Definition file_header (psf : registry) : header_t :=
  let okt := sizeof_header + sizeof_def * len psf in
  Header psf_magic 0x101 okt (okt + align (len (key_blob psf)) 4) (len psf).

Definition file_bytes (psf : registry) (pad : list Z) : list Z :=
  header_bytes (file_header psf) ++ List.concat (map def_bytes (indices_of psf 0 0))
  ++ key_blob psf ++ pad ++ data_blob psf.

(** ** Small facts *)

Lemma narrow32_small x : 0 <= x < 2 ^ 32 -> narrow32 x = Some x.
Proof. intros H. unfold narrow32. rewrite wrap_small by exact H. rewrite Z.eqb_refl. reflexivity. Qed.

Lemma align4 x : 0 <= x < 2 ^ 32 -> x <= align x 4 <= x + 3.
Proof.
  intros H. unfold align. rewrite (wrap_small 64 (x + (4 - 1))) by (split; lia).
  change (u64 (0 - 4)) with (Z.shiftl (Z.ones 62) 2).
  replace (Z.land (x + (4 - 1)) (Z.shiftl (Z.ones 62) 2)) with (Z.shiftl (Z.shiftr (x + 3) 2) 2).
  - rewrite Z.shiftl_mul_pow2, Z.shiftr_div_pow2 by lia. change (2 ^ 2) with 4.
    pose proof (Z.div_mod (x + 3) 4). pose proof (Z.mod_pos_bound (x + 3) 4). lia.
  - replace (x + (4 - 1)) with (x + 3) by lia. apply Z.bits_inj'. intros n Hn.
    rewrite Z.land_spec, !Z.shiftl_spec by lia.
    destruct (Z.ltb_spec n 2) as [Hl|Hl].
    + rewrite !(Z.testbit_neg_r _ (n - 2)) by lia. rewrite ?andb_false_r. reflexivity.
    + rewrite Z.shiftr_spec by lia. replace (n - 2 + 2) with n by lia.
      destruct (Z.ltb_spec n 64) as [Hu|Hu].
      * rewrite Z.ones_spec_low by lia. rewrite andb_true_r. reflexivity.
      * rewrite (testbit_high 64 (x + 3) n) by (unfold in_range; lia). reflexivity.
Qed.

Lemma max_nts e : entry_ok e -> max e true = m_max_size e.
Proof. intros [H _]. unfold max. cbn [negb andb]. rewrite Z.sub_0_r. apply wrap_small, H. Qed.

Lemma max_value e : entry_ok e ->
  max e false = m_max_size e - (if is_string (m_type e) then 1 else 0).
Proof.
  intros [H Ht]. unfold max. cbn [negb andb]. apply wrap_small. unfold in_range.
  destruct (m_type e); cbn [is_string]; lia.
Qed.

Lemma shrink_len e : entry_ok e -> len (m_value_string (shrink e)) <= m_max_size e.
Proof.
  intros He. pose proof (max_value e He) as Hm. destruct He as [H Ht]. unfold shrink.
  destruct (m_type e) eqn:E; cbn [m_value_string is_string] in *.
  1,2: rewrite len_take by lia; lia.
  destruct Ht as (-> & _ & ->). rewrite len_nil. lia.
Qed.

Lemma data_bytes_len e : entry_ok e -> len (data_bytes e) = m_max_size e.
Proof.
  intros He. pose proof (shrink_len e He). destruct He as [Hb Ht]. unfold data_bytes.
  destruct (m_type e); [| |rewrite len_le_bytes; lia].
  all: cbn zeta; rewrite len_app, len_replicate by lia; lia.
Qed.

Lemma entry_size_ok e : entry_ok e -> len (m_value_string e) + 1 < 2 ^ 32 -> entry_size e = Some (param_size e).
Proof.
  intros He H. pose proof (len_nonneg (m_value_string e)). unfold entry_size, param_size.
  destruct (m_type e); cbn [is_string]; try reflexivity;
    rewrite wrap_small, narrow32_small by (unfold in_range; lia); reflexivity.
Qed.

Lemma key_blob_cons k e psf : len (key_blob ((k, e) :: psf)) = len k + 1 + len (key_blob psf).
Proof. unfold key_blob. cbn [map List.concat]. rewrite !len_app. reflexivity. Qed.

Lemma key_blob_app p q : key_blob (p ++ q) = key_blob p ++ key_blob q.
Proof. unfold key_blob. rewrite map_app, concat_app. reflexivity. Qed.
Lemma data_blob_app p q : data_blob (p ++ q) = data_blob p ++ data_blob q.
Proof. unfold data_blob. rewrite map_app, concat_app. reflexivity. Qed.

Lemma data_blob_cons k e psf : entry_ok e ->
  len (data_blob ((k, e) :: psf)) = m_max_size e + len (data_blob psf).
Proof. intros He. unfold data_blob. cbn [map List.concat]. rewrite len_app, data_bytes_len by exact He. reflexivity. Qed.

Definition entries_ok (psf : registry) : Prop := Forall (fun '(_, e) => entry_ok e) psf.

Lemma registry_entries psf : registry_ok psf -> entries_ok psf.
Proof. intros [_ H]. eapply Forall_impl; [exact H|]. intros [k e] [_ He]. exact He. Qed.

(** ** What [save_object] writes *)

Lemma make_indices_ok psf ko d :
  entries_ok psf -> Forall (fun '(_, e) => len (m_value_string e) + 1 < 2 ^ 32) psf ->
  0 <= ko -> ko + len (key_blob psf) <= 65536 -> 0 <= d -> d + len (data_blob psf) < 2 ^ 32 ->
  make_indices psf ko d = Some (indices_of psf ko d, ko + len (key_blob psf)).
Proof.
  intros Hok. revert ko d. induction Hok as [|[k e] psf He Hok IH]; intros ko d Hl Hk0 Hk Hd0 Hd.
  - cbn. rewrite Z.add_0_r. reflexivity.
  - inversion_clear Hl as [|? ? Hv Hl']. rewrite key_blob_cons in *. rewrite data_blob_cons in Hd by exact He.
    pose proof (len_nonneg k). pose proof (len_nonneg (key_blob psf)). pose proof (len_nonneg (data_blob psf)).
    destruct (He) as [Hm _]. cbn [make_indices indices_of].
    rewrite entry_size_ok by assumption. rewrite (max_nts e He).
    rewrite !(wrap_small 64) by (unfold in_range; lia).
    rewrite !narrow32_small by lia. cbn [mbind option_bind].
    rewrite !(wrap_small 64) by (unfold in_range; lia).
    rewrite IH by (assumption || lia). rewrite (wrap_small 16) by (unfold in_range; lia). cbn [mbind option_bind].
    do 2 f_equal; [do 2 f_equal; lia|lia].
Qed.

Lemma save_keys_ok psf a r : len a + len r + len (key_blob psf) < 2 ^ 63 ->
  exists r', save_keys psf (MkStream (a ++ r) (len a))
             = Some (MkStream ((a ++ key_blob psf) ++ r') (len (a ++ key_blob psf))) /\ len r' <= len r.
Proof.
  revert a r. induction psf as [|[k e] psf IH]; intros a r H.
  - exists r. split; [|lia]. cbn. rewrite app_nil_r. reflexivity.
  - rewrite key_blob_cons in H. pose proof (len_nonneg k). pose proof (len_nonneg (key_blob psf)).
    pose proof (len_nonneg a). pose proof (len_nonneg r).
    cbn [save_keys]. destruct (write_at a r k) as (r1 & -> & Hr1); [lia|]. cbn [mbind option_bind].
    destruct (write_at (a ++ k) r1 [0]) as (r2 & -> & Hr2); [rewrite len_app, len_cons, len_nil; lia|].
    cbn [mbind option_bind].
    destruct (IH ((a ++ k) ++ [0]) r2) as (r3 & -> & Hr3); [rewrite !len_app, len_cons, len_nil; lia|].
    exists r3. split; [|lia]. unfold key_blob. cbn [map List.concat]. rewrite <- !app_assoc. reflexivity.
Qed.

(** A value cut to the limit of its entry, whether or not it was over it. *)
Lemma cut_value e : m_type e <> fmt_integer ->
  (if is_valid e then m_value_string e else take (Z.to_nat (max e false)) (m_value_string e))
  = m_value_string (shrink e).
Proof.
  intros Ht. unfold is_valid, shrink. destruct (m_type e); [| |congruence]; cbn [m_value_string].
  all: case_match eqn:Hv; [|reflexivity]; apply Z.leb_le in Hv; symmetry; apply take_ge; unfold len in Hv; lia.
Qed.

Lemma write_end a b : len a + len b < 2 ^ 64 -> write b (MkStream a (len a)) = Some (MkStream (a ++ b) (len (a ++ b))).
Proof.
  intros H. destruct (write_at a [] b) as (r & Hw & Hr); [rewrite len_nil; lia|].
  destruct r; [|rewrite len_cons, len_nil in Hr; pose proof (len_nonneg r); lia].
  rewrite !app_nil_r in Hw. exact Hw.
Qed.

Lemma save_entry_ok e a : entry_ok e -> len a + m_max_size e < 2 ^ 63 ->
  save_entry e (MkStream a (len a)) = Some (MkStream (a ++ data_bytes e) (len (a ++ data_bytes e))).
Proof.
  intros He H. pose proof (shrink_len e He) as Hs. pose proof (cut_value e) as Hc. pose proof (len_nonneg a).
  pose proof (len_nonneg (m_value_string (shrink e))).
  unfold save_entry, as_string, as_integer, data_bytes. rewrite (max_nts e He). destruct He as [Hm Ht].
  destruct (m_type e) eqn:E; cbn [bool_decide decide andb orb].
  3: { destruct Ht as (Hx & _). rewrite Hx. rewrite bool_decide_eq_true_2 by reflexivity. cbn.
       apply write_end. change (len _) with 4 at 2. lia. }
  all: rewrite !bool_decide_eq_false_2 by discriminate; rewrite ?bool_decide_eq_true_2 by reflexivity; cbn [andb orb mbind option_bind].
  all: rewrite Hc by discriminate; rewrite write_end by lia; cbn [mbind option_bind].
  all: rewrite wrap_small by (unfold in_range; lia); rewrite trunc_seek_cur by (rewrite ?len_app; lia).
  all: rewrite <- app_assoc; reflexivity.
Qed.

Lemma save_data_ok psf a : entries_ok psf -> len a + len (data_blob psf) < 2 ^ 63 ->
  save_data psf (MkStream a (len a)) = Some (MkStream (a ++ data_blob psf) (len (a ++ data_blob psf))).
Proof.
  intros Hok. revert a. induction Hok as [|[k e] psf He Hok IH]; intros a H.
  - cbn. rewrite app_nil_r. reflexivity.
  - rewrite data_blob_cons in H by exact He. pose proof (len_nonneg (data_blob psf)).
    cbn [save_data]. rewrite save_entry_ok by (assumption || lia). cbn [mbind option_bind].
    rewrite IH by (rewrite len_app, data_bytes_len by exact He; lia).
    unfold data_blob. cbn [map List.concat]. rewrite <- app_assoc. reflexivity.
Qed.

Lemma indices_len psf ko d : len (List.concat (map def_bytes (indices_of psf ko d))) = 16 * len psf.
Proof.
  revert ko d. induction psf as [|[k e] psf IH]; intros ko d; [reflexivity|].
  cbn [indices_of map List.concat]. rewrite len_app, IH, len_cons. unfold def_bytes. rewrite !len_app, !len_le_bytes. lia.
Qed.

Lemma header_len h : len (header_bytes h) = 20.
Proof. unfold header_bytes. rewrite !len_app, !len_le_bytes. reflexivity. Qed.

Lemma save_bytes psf init : registry_ok psf -> fits psf -> len init < 2 ^ 62 ->
  exists pad, save_object psf init = Some (file_bytes psf pad)
    /\ len pad = align (len (key_blob psf)) 4 - len (key_blob psf).
Proof.
  intros Hok (Hk & Ht & Hv) Hi. apply registry_entries in Hok. unfold sizeof_def in Ht.
  pose proof (len_nonneg psf). pose proof (len_nonneg (key_blob psf)). pose proof (len_nonneg (data_blob psf)).
  pose proof (align4 (len (key_blob psf))) as Ha. pose proof (len_nonneg init).
  unfold save_object. rewrite make_indices_ok by (assumption || lia). cbn [mbind option_bind].
  rewrite Z.add_0_l. unfold sizeof_header, sizeof_def.
  rewrite (wrap_small 64 (20 + 16 * len psf)), !narrow32_small by (unfold in_range; lia). cbn [mbind option_bind].
  rewrite (wrap_small 64), narrow32_small by (unfold in_range; lia). cbn [mbind option_bind].
  change (Header psf_magic 257 _ _ _) with (file_header psf).
  pose proof (header_len (file_header psf)) as Hh. pose proof (indices_len psf 0 0) as Hx.
  change (MkStream init 0) with (MkStream ([] ++ init) (len (@nil Z))).
  destruct (write_at [] init (header_bytes (file_header psf))) as (r1 & -> & Hr1); [rewrite len_nil, Hh; lia|].
  cbn [mbind option_bind app]. 
  match goal with |- context [write ?x (MkStream (?h ++ _) _)] => destruct (write_at h r1 x) as (r2 & -> & Hr2) end;
    [rewrite Hh, Hx; lia|].
  cbn [mbind option_bind].
  match goal with |- context [save_keys _ (MkStream (?h ++ _) _)] => destruct (save_keys_ok psf h r2) as (r3 & -> & Hr3) end;
    [rewrite len_app, Hh, Hx; lia|].
  cbn [mbind option_bind].
  match goal with |- context [trunc_seek ?n _ (MkStream (?h ++ _) _)] => destruct (trunc_seek_set h r3 n) as (c & -> & Hc) end;
    [rewrite !len_app, Hh, Hx; lia|].
  cbn [mbind option_bind]. rewrite !len_app, Hh, Hx in Hc.
  match goal with |- context [save_data _ (MkStream ?h ?p)] => replace p with (len h) by (rewrite !len_app, Hh, Hx; lia) end.
  rewrite save_data_ok by (rewrite ?len_app, ?Hh, ?Hx; assumption || lia). cbn [mbind option_bind obj].
  exists c. split; [unfold file_bytes; rewrite <- !app_assoc; reflexivity|lia].
Qed.

(** ** Reading the structures back *)

Lemma le2 v : le_value [u8 v; u8 (Z.shiftr v 8)] = u16 v.
Proof. exact (le_value_bytes 2 v). Qed.
Lemma le4 v : le_value [u8 v; u8 (Z.shiftr v 8); u8 (Z.shiftr (Z.shiftr v 8) 8);
                        u8 (Z.shiftr (Z.shiftr (Z.shiftr v 8) 8) 8)] = u32 v.
Proof. exact (le_value_bytes 4 v). Qed.

Definition def_ok (d : def_table_t) : Prop :=
  in_range 16 (key_off d) /\ in_range 16 (param_fmt d) /\ in_range 32 (param_len d)
  /\ in_range 32 (param_max d) /\ in_range 32 (data_off d).

Lemma header_trip h :
  in_range 32 (magic h) -> in_range 32 (version h) -> in_range 32 (off_key_table h) ->
  in_range 32 (off_data_table h) -> in_range 32 (entries_num h) -> header_of (header_bytes h) = h.
Proof.
  intros. destruct h. unfold header_of, field, header_bytes. cbn [le_bytes app take drop].
  rewrite !le4. cbn in *. rewrite !wrap_small by assumption. reflexivity.
Qed.

Lemma def_trip d : def_ok d -> def_of (def_bytes d) = d.
Proof.
  intros (? & ? & ? & ? & ?). destruct d. unfold def_of, field, def_bytes. cbn [le_bytes app take drop].
  rewrite !le2, !le4. cbn in *. rewrite !wrap_small by assumption. reflexivity.
Qed.

Lemma defs_trip l : Forall def_ok l -> defs_of (length l) (List.concat (map def_bytes l)) = l.
Proof.
  induction 1 as [|d l Hd Hl IH]; [reflexivity|].
  assert (H16 : length (def_bytes d) = 16%nat) by reflexivity.
  cbn [length map List.concat defs_of]. rewrite <- H16, take_app_length, drop_app_length, def_trip, IH by exact Hd.
  reflexivity.
Qed.

Lemma format_range f : in_range 16 (format_code f).
Proof. destruct f; unfold in_range; cbn; lia. Qed.

Lemma param_size_range e : entry_ok e -> 0 <= param_size e <= m_max_size e.
Proof.
  intros [Hm Ht]. pose proof (len_nonneg (m_value_string e)). unfold param_size.
  destruct (m_type e); cbn [is_string]; lia.
Qed.

Lemma indices_ok psf ko d : entries_ok psf -> 0 <= ko -> ko + len (key_blob psf) <= 65536 ->
  0 <= d -> d + len (data_blob psf) < 2 ^ 32 -> Forall def_ok (indices_of psf ko d).
Proof.
  intros Hok. revert ko d. induction Hok as [|[k e] psf He Hok IH]; intros ko d Hk0 Hk Hd0 Hd; cbn [indices_of]; constructor.
  - rewrite key_blob_cons in Hk. rewrite data_blob_cons in Hd by exact He.
    pose proof (param_size_range e He). pose proof (format_range (m_type e)). destruct He as [Hm _].
    pose proof (len_nonneg k). pose proof (len_nonneg (key_blob psf)). pose proof (len_nonneg (data_blob psf)).
    unfold def_ok, in_range in *. cbn. lia.
  - rewrite key_blob_cons in Hk. rewrite data_blob_cons in Hd by exact He. destruct He as [Hm _].
    pose proof (len_nonneg k). apply IH; lia.
Qed.

Lemma indices_count psf ko d : length (indices_of psf ko d) = length psf.
Proof. revert ko d. induction psf as [|[k e] psf IH]; intros ko d; cbn; [reflexivity|]. f_equal. apply IH. Qed.

Lemma c_string_stops k r : nul_free k -> c_string (k ++ 0 :: r) = k.
Proof.
  induction 1 as [|b k Hb Hk IH]; [reflexivity|]. cbn [app c_string].
  destruct (Z.eqb_spec b 0); [lia|]. f_equal. exact IH.
Qed.

(** ** The order of the keys *)

Lemma str_lt_irrefl s : ~ str_lt s s.
Proof.
  unfold str_lt. induction s as [|a s IH]; cbn; [congruence|]. rewrite Z.ltb_irrefl, Z.eqb_refl. exact IH.
Qed.

Lemma str_lt_trans s t u : str_lt s t -> str_lt t u -> str_lt s u.
Proof.
  unfold str_lt. revert t u. induction s as [|a s IH]; intros [|b t] [|c u]; cbn; try congruence.
  rewrite !orb_true_iff, !andb_true_iff, !Z.ltb_lt, !Z.eqb_eq.
  intros [H|[-> H]] [K|[-> K]]; [left; lia|left; lia|left; lia|right; eauto].
Qed.

Lemma str_lt_total s t : str_ltb s t = false -> s = t \/ str_lt t s.
Proof.
  unfold str_lt. revert t. induction s as [|a s IH]; intros [|b t]; cbn; try (auto; congruence).
  rewrite orb_false_iff, Z.ltb_ge, orb_true_iff, andb_true_iff, Z.ltb_lt, Z.eqb_eq.
  intros [H K]. destruct (Z.eqb_spec a b) as [->|Hn]; [|right; left; lia].
  destruct (IH t K) as [->|]; auto.
Qed.

(** A key after all the others goes to the end. *)
Lemma emplace_last k e psf : Forall (fun k' => str_lt k' k) psf.*1 -> emplace k e psf = psf ++ [(k, e)].
Proof.
  induction psf as [|[k' x] psf IH]; cbn; [reflexivity|]. intros [Hk H]%Forall_cons.
  destruct (str_ltb k k') eqn:E; [destruct (str_lt_irrefl k); eapply str_lt_trans; eassumption|].
  destruct (str_eqb_spec k' k) as [->|]; [destruct (str_lt_irrefl k Hk)|]. f_equal. apply IH, H.
Qed.

Lemma find_absent k psf : k ∉ psf.*1 -> find k psf = None.
Proof.
  induction psf as [|[k' x] psf IH]; cbn; [reflexivity|]. rewrite not_elem_of_cons. intros [Hk H].
  destruct (str_eqb_spec k' k); [congruence|]. apply IH, H.
Qed.

Lemma shrunk_keys psf : (shrunk psf).*1 = psf.*1.
Proof. unfold shrunk. rewrite <- list_fmap_compose. apply list_fmap_ext. intros ? [k e] _. reflexivity. Qed.

Lemma before_absent k (l : list (list Z)) : Forall (fun k' => str_lt k' k) l -> k ∉ l.
Proof. intros H Hk. rewrite Forall_forall in H. exact (str_lt_irrefl k (H k Hk)). Qed.

(** ** Reading the entries back *)

(** The bytes of a value that [load] reads: the string with its terminator, or the array. *)
Definition stored (e : entry) : list Z := m_value_string (shrink e) ++ (if is_string (m_type e) then [0] else []).

Lemma data_split e : entry_ok e -> m_type e <> fmt_integer ->
  exists z, data_bytes e = stored e ++ z /\ len (stored e) = param_size e.
Proof.
  intros He Ht. pose proof (max_value e He) as Hm. pose proof (len_nonneg (m_value_string e)).
  destruct He as [Hb He]. unfold data_bytes, stored, param_size, shrink.
  destruct (m_type e); [| |congruence]; cbn [is_string m_value_string] in *.
  - rewrite app_nil_r. eexists. split; [reflexivity|]. rewrite len_take by lia. lia.
  - exists (replicate (Z.to_nat (m_max_size e - Z.min (max e false) (len (m_value_string e)) - 1)) 0).
    split; [|rewrite len_app, len_take by lia; change (len [0]) with 1; lia].
    rewrite len_take by lia. rewrite <- app_assoc. f_equal. cbn [app].
    replace (Z.to_nat (m_max_size e - Z.min (max e false) (len (m_value_string e))))
      with (S (Z.to_nat (m_max_size e - Z.min (max e false) (len (m_value_string e)) - 1))) by lia.
    reflexivity.
Qed.

(** What is built from the bytes read. *)
Lemma stored_entry e : entry_ok e -> m_type e <> fmt_integer ->
  (if format_code (m_type e) =? format_code fmt_string
   then string_entry fmt_string (m_max_size e) (c_string (stored e)) false
   else string_entry fmt_array (m_max_size e) (stored e) false) = Some (shrink e).
Proof.
  intros [Hb He] Ht. unfold stored, string_entry, shrink.
  destruct (m_type e); [| |congruence]; cbn -[Z.ltb c_string take].
  - destruct He as (Hm & -> & _). destruct (Z.ltb_spec 0 (m_max_size e)); [|lia]. rewrite app_nil_r. reflexivity.
  - destruct He as (Hm & -> & Hn). destruct (Z.ltb_spec 1 (m_max_size e)); [|lia].
    rewrite c_string_stops by apply Forall_take, Hn. reflexivity.
Qed.

Lemma load_value_ok ko d a c k e sfo : entry_ok e ->
  exists s', load_value (Def ko (format_code (m_type e)) (param_size e) (m_max_size e) d) k sfo
               (MkStream (a ++ data_bytes e ++ c) (len a)) = Ret (emplace k (shrink e) sfo, s')
    /\ obj s' = a ++ data_bytes e ++ c.
Proof.
  intros He. unfold load_value. cbn [param_fmt param_len param_max].
  destruct (decide (m_type e = fmt_integer)) as [Et|Et].
  - unfold data_bytes, param_size, shrink. destruct He as [_ He]. rewrite Et in *. destruct He as (Hm & Hr & Hv).
    rewrite Hm. cbn [format_code Z.eqb Pos.eqb andb].
    rewrite read_pod_found by (rewrite len_le_bytes; reflexivity).
    rewrite le_value_bytes, wrap_small by exact Hr.
    replace (integer_entry (m_value_integer e)) with e by (destruct e; cbn in *; subst; reflexivity).
    eexists. split; reflexivity.
  - destruct (data_split e He Et) as (z & Hz & Hl). rewrite Hz, <- app_assoc.
    replace (format_code (m_type e) =? format_code fmt_integer) with false by (destruct (m_type e); cbn; congruence).
    replace ((format_code (m_type e) =? format_code fmt_string) || (format_code (m_type e) =? format_code fmt_array))
      with true by (destruct (m_type e); cbn; congruence).
    cbn [andb]. rewrite read_vec_found by lia. rewrite stored_entry by assumption.
    eexists. split; reflexivity.
Qed.

Section Entries.
Context (h : header_t) (pad P : list Z) (all : registry).
Context (Hok : registry_ok all).
Let K := off_key_table h.
Let D := off_data_table h.
Context (HK : 0 <= K) (HD : 20 <= D) (Hsize : D + len (data_blob all) < 2 ^ 32).
Context (Hkeys : len (key_blob all ++ pad) = D - K) (HP : len P = D).

Lemma load_entry_ok done k e todo s :
  all = done ++ (k, e) :: todo -> obj s = P ++ data_blob all ->
  exists s', load_entry h (key_blob all ++ pad)
    (Def (len (key_blob done)) (format_code (m_type e)) (param_size e) (m_max_size e) (len (data_blob done)))
    (shrunk done) s = Ret (shrunk (done ++ [(k, e)]), s') /\ obj s' = P ++ data_blob all.
Proof using Hok HK HD Hsize Hkeys HP.
  intros Hall Hs. destruct Hok as [Hsort Hent].
  assert (Hke : nul_free k /\ entry_ok e).
  { rewrite Forall_forall in Hent. apply (Hent (k, e)). rewrite Hall, elem_of_app, elem_of_cons. auto. }
  destruct Hke as [Hk He].
  assert (Hlt : Forall (fun k' => str_lt k' k) (shrunk done).*1).
  { rewrite shrunk_keys. apply Forall_forall. intros k' Hk'. rewrite Hall, fmap_app in Hsort.
    apply StronglySorted_app in Hsort as (Hd & _). apply Hd; [exact Hk'|cbn; apply list_elem_of_here]. }
  pose proof (param_size_range e He) as Hp. pose proof (data_bytes_len e He) as Hdl.
  assert (Hdata : data_blob all = data_blob done ++ data_bytes e ++ data_blob todo).
  { rewrite Hall, data_blob_app. reflexivity. }
  assert (Hkb : key_blob all ++ pad = key_blob done ++ k ++ 0 :: key_blob todo ++ pad).
  { rewrite Hall, key_blob_app. unfold key_blob at 2. cbn [map List.concat]. rewrite <- !app_assoc. reflexivity. }
  pose proof (f_equal len Hdata) as Hdd. rewrite !len_app, Hdl in Hdd.
  pose proof (f_equal len Hkb) as Hkk. rewrite Hkeys in Hkk. autorewrite with stream in Hkk.
  pose proof (len_nonneg (key_blob done)). pose proof (len_nonneg (data_blob done)).
  pose proof (len_nonneg (data_blob todo)). pose proof (len_nonneg (key_blob todo)). pose proof (len_nonneg pad).
  pose proof (len_nonneg k). pose proof (len_nonneg P).
  assert (Hmax : 0 < m_max_size e < 2 ^ 32) by (destruct He as [? He]; destruct (m_type e); lia).
  unfold load_entry, size. cbn [key_off param_fmt param_len param_max data_off].
  fold D K. rewrite Hs, len_app, HP.
  rewrite !wrap_small by (unfold in_range; lia).
  destruct (Z.ltb_spec (len (key_blob done)) (D - K)); [|lia].
  rewrite Hkb, to_nat_len, drop_app_length, c_string_stops by exact Hk.
  unfold contains. rewrite find_absent by (apply before_absent, Hlt). cbn [negb].
  destruct (Z.leb_spec (param_size e) (m_max_size e)); [|lia].
  destruct (Z.ltb_spec (len (data_blob done)) (D + len (data_blob all) - D)); [|lia].
  destruct (Z.ltb_spec (m_max_size e) (D + len (data_blob all) - len (data_blob done))); [|lia].
  destruct s as [o p]. cbn [obj] in Hs. rewrite Hs, seek_to by lia. cbn [snd].
  replace (D + len (data_blob done)) with (len (P ++ data_blob done)) by (rewrite len_app; lia).
  rewrite Hdata, app_assoc.
  destruct (load_value_ok (len (key_blob done)) (len (data_blob done)) (P ++ data_blob done) (data_blob todo)
              k e (shrunk done) He) as (s' & -> & Hs').
  exists s'. split; [|exact Hs']. rewrite emplace_last by exact Hlt. unfold shrunk. rewrite fmap_app. reflexivity.
Qed.

Lemma load_entries_ok todo done s :
  all = done ++ todo -> obj s = P ++ data_blob all ->
  load_entries h (key_blob all ++ pad) (indices_of todo (len (key_blob done)) (len (data_blob done))) (shrunk done) s
  = Ret (shrunk all).
Proof using Hok HK HD Hsize Hkeys HP.
  revert done s. induction todo as [|[k e] todo IH]; intros done s Hall Hs.
  - rewrite Hall, app_nil_r. reflexivity.
  - cbn [indices_of load_entries].
    destruct (load_entry_ok done k e todo s Hall Hs) as (s' & -> & Hs').
    assert (He : entry_ok e).
    { destruct Hok as [_ Hent]. rewrite Forall_forall in Hent. apply (Hent (k, e)). rewrite Hall, elem_of_app, elem_of_cons. auto. }
    replace (len (key_blob done) + len k + 1) with (len (key_blob (done ++ [(k, e)])))
      by (rewrite key_blob_app, len_app, key_blob_cons; change (len (key_blob [])) with 0; lia).
    replace (len (data_blob done) + m_max_size e) with (len (data_blob (done ++ [(k, e)])))
      by (rewrite data_blob_app, len_app, data_blob_cons by exact He; change (len (data_blob [])) with 0; lia).
    apply IH; [rewrite <- app_assoc; exact Hall|exact Hs'].
Qed.
End Entries.

(** ** The whole file *)

Definition category_ok (psf : registry) : bool := existsb (str_eqb (get_string psf CATEGORY [])) valid_cats.

(** What [load] answers for a registry it has read. *)
Definition loaded (psf : registry) : load_result_t :=
  if category_ok psf then LoadResult psf error_ok else LoadResult [] error_corrupt.

Lemma file_header_trip psf : len (key_blob psf) <= 65536 -> 24 + 16 * len psf + len (key_blob psf) < 2 ^ 32 ->
  header_of (header_bytes (file_header psf)) = file_header psf.
Proof.
  intros Hk Ht. pose proof (len_nonneg psf). pose proof (len_nonneg (key_blob psf)).
  pose proof (align4 (len (key_blob psf))) as Ha.
  apply header_trip; unfold file_header, in_range; cbn -[Z.add Z.mul align]; unfold sizeof_header, sizeof_def; lia.
Qed.

Lemma load_file psf pad p : registry_ok psf -> fits psf ->
  len pad = align (len (key_blob psf)) 4 - len (key_blob psf) ->
  load (Some (MkStream (file_bytes psf pad) p)) = Some (loaded (shrunk psf)).
Proof.
  intros Hok (Hk & Ht & Hv) Hpad. unfold sizeof_def in Ht. pose proof (registry_entries psf Hok) as Hent.
  pose proof (len_nonneg psf). pose proof (len_nonneg (key_blob psf)). pose proof (len_nonneg (data_blob psf)).
  pose proof (align4 (len (key_blob psf))) as Ha. set (h := file_header psf).
  assert (Hh : header_of (header_bytes h) = h) by (apply file_header_trip; assumption || lia).
  pose proof (header_len h) as Hhl. pose proof (indices_len psf 0 0) as Hil.
  set (ib := List.concat (map def_bytes (indices_of psf 0 0))) in *.
  set (tail := key_blob psf ++ pad ++ data_blob psf).
  unfold load, load_stream. rewrite seek_to by lia. cbn [snd].
  change (file_bytes psf pad) with ([] ++ header_bytes h ++ ib ++ tail).
  change (MkStream ([] ++ header_bytes h ++ ib ++ tail) 0)
    with (MkStream ([] ++ header_bytes h ++ ib ++ tail) (len (@nil Z))).
  rewrite read_pod_found by (rewrite Hhl; reflexivity). rewrite Hh. cbn [app].
  change (len [] + len (header_bytes h)) with (len (header_bytes h)).
  change (magic h) with psf_magic. change (version h) with 257. rewrite !Z.eqb_refl.
  assert (HK : off_key_table h = 20 + 16 * len psf) by reflexivity.
  assert (HD : off_data_table h = off_key_table h + align (len (key_blob psf)) 4) by reflexivity.
  assert (HN : entries_num h = len psf) by reflexivity.
  unfold sizeof_header, sizeof_def, size. cbn [obj].
  destruct (Z.leb_spec 20 (off_key_table h)); [|lia].
  destruct (Z.leb_spec (off_key_table h) (off_data_table h)); [|lia].
  destruct (Z.leb_spec (off_data_table h) (len (header_bytes h ++ ib ++ tail))) as [_|Hb];
    [|unfold tail in Hb; rewrite !len_app, Hhl, Hil in Hb; lia].
  rewrite read_vec_found by (rewrite ?Hil, ?HN; lia).
  rewrite seek_to by lia. rewrite Z.eqb_refl, HN, to_nat_len, <- (indices_count psf 0 0).
  unfold ib at 2. rewrite defs_trip by (apply indices_ok; assumption || lia).
  assert (Hsplit : header_bytes h ++ ib ++ tail = (header_bytes h ++ ib) ++ (key_blob psf ++ pad) ++ data_blob psf)
    by (unfold tail; rewrite <- !app_assoc; reflexivity).
  assert (Hpre : len (header_bytes h ++ ib) = off_key_table h) by (rewrite len_app, Hhl, Hil; lia).
  rewrite Hsplit. rewrite <- Hpre at 2. rewrite read_vec_found
    by (rewrite ?wrap_small by (unfold in_range; lia); rewrite ?len_app; lia).
  pose proof (load_entries_ok h pad ((header_bytes h ++ ib) ++ key_blob psf ++ pad) psf Hok) as HL.
  rewrite !len_app, Hhl, Hil in HL.
  specialize (HL ltac:(lia) ltac:(lia) ltac:(lia) ltac:(lia) ltac:(lia) psf []).
  change (len (key_blob [])) with 0 in HL. change (len (data_blob [])) with 0 in HL. change (shrunk []) with (@nil (list Z * entry)) in HL.
  rewrite HL by (cbn [obj app]; rewrite <- ?app_assoc; reflexivity).
  unfold loaded, category_ok. destruct (existsb _ valid_cats); reflexivity.
Qed.

Lemma shrink_valid e : entry_ok e -> is_valid e = true -> shrink e = e.
Proof.
  intros He. unfold is_valid, shrink. destruct e as [[] m i v]; cbn [m_type m_max_size m_value_integer m_value_string]; [| |reflexivity].
  all: rewrite Z.leb_le; intros H; f_equal; apply take_ge; unfold len in H; lia.
Qed.

Lemma shrunk_valid psf : entries_ok psf -> check_registry psf = true -> shrunk psf = psf.
Proof.
  unfold check_registry, shrunk. induction 1 as [|[k e] psf He Hok IH]; [reflexivity|]. cbn.
  rewrite andb_true_iff. intros [Hv H]. rewrite shrink_valid by assumption. f_equal. apply IH, H.
Qed.

(** C5: A registry written by [save_object], over any buffer, and read by [load] comes
    back with its keys, types, limits and values: integers and arrays exactly, strings up
    to their terminator, and a value over the limit of its entry cut to it, so that a
    registry [check_registry] accepts comes back itself.  [load] refuses it as corrupt if
    and only if its CATEGORY is not one of the known ones. *)
Theorem psf_roundtrip psf init :
  registry_ok psf -> fits psf -> len init < 2 ^ 62 ->
  exists data, save_object psf init = Some data
    /\ (forall p, load (Some (MkStream data p)) = Some (loaded (shrunk psf)))
    /\ (check_registry psf = true -> shrunk psf = psf).
Proof.
  intros Hok Hf Hi. destruct (save_bytes psf init Hok Hf Hi) as (pad & Hs & Hp).
  exists (file_bytes psf pad). split; [exact Hs|]. split.
  - intros p. apply load_file; assumption.
  - apply shrunk_valid, registry_entries, Hok.
Qed.

(** ** What [load] returns for any bytes *)

(** The values of a loaded registry are no longer than their limits. *)
Definition within (psf : registry) : Prop := Forall (fun '(_, e) => len (m_value_string e) <= m_max_size e) psf.

Lemma emplace_forall (Q : list Z * entry -> Prop) k e psf : Q (k, e) -> Forall Q psf -> Forall Q (emplace k e psf).
Proof.
  intros Hk. induction 1 as [|[k' x] psf Hx H IH]; cbn; [auto|]. repeat case_match; auto.
Qed.

Lemma emplace_sorted k e psf : StronglySorted str_lt psf.*1 -> StronglySorted str_lt (emplace k e psf).*1.
Proof.
  induction psf as [|[k' x] psf IH]; cbn; [repeat constructor|]. intros [Hs Hh]%StronglySorted_inv.
  destruct (str_ltb k k') eqn:E; cbn.
  - constructor; [constructor; assumption|]. constructor; [exact E|].
    eapply Forall_impl; [exact Hh|]. intros y. apply str_lt_trans, E.
  - destruct (str_eqb_spec k' k) as [->|Hn]; cbn; [constructor; assumption|].
    constructor; [apply IH, Hs|]. apply Forall_fmap. apply emplace_forall; cbn.
    + destruct (str_lt_total k k' E); [congruence|assumption].
    + rewrite <- Forall_fmap; exact Hh.
Qed.

Lemma emplace_registry k e psf : registry_ok psf -> nul_free k -> entry_ok e -> registry_ok (emplace k e psf).
Proof. intros [Hs Hf] Hk He. split; [apply emplace_sorted, Hs|apply emplace_forall; auto]. Qed.

Lemma c_string_free s : is_bytes s -> nul_free (c_string s).
Proof.
  induction 1 as [|b s Hb Hs IH]; cbn; [constructor|].
  destruct (Z.eqb_spec b 0); constructor; [|exact IH]. unfold in_range in Hb. cbn in Hb. lia.
Qed.

Lemma c_string_len s : len (c_string s) <= len s.
Proof. induction s as [|b s IH]; cbn; [lia|]. case_match; rewrite ?len_cons, ?len_nil; pose proof (len_nonneg s); lia. Qed.

Lemma field_range off n l : is_bytes l -> in_range (8 * Z.of_nat n) (field off n l).
Proof.
  intros H. unfold field. pose proof (le_value_range (take n (drop off l)) (Forall_take _ _ _ (Forall_drop _ _ _ H))) as Hr.
  unfold in_range in *. split; [apply Hr|]. eapply Z.lt_le_trans; [apply Hr|]. apply Z.pow_le_mono_r; [lia|].
  unfold len. rewrite length_take. lia.
Qed.

Lemma defs_range n l : is_bytes l -> Forall (fun d => in_range 32 (param_max d)) (defs_of n l).
Proof.
  revert l. induction n as [|n IH]; intros l H; cbn [defs_of]; constructor; [|apply IH, Forall_drop, H].
  apply (field_range 8 4), Forall_take, H.
Qed.

Lemma read_pod_bytes n s v s' : is_bytes (obj s) -> read_pod n s = (Some v, s') ->
  is_bytes v /\ len v = n /\ obj s' = obj s.
Proof.
  intros H. unfold read_pod, read. destruct (Z.eqb_spec (len (slice (pos s) n (obj s))) n); intros E; simplify_eq.
  split; [apply slice_bytes, H|auto].
Qed.

Lemma read_vec_bytes t n s v s' : is_bytes (obj s) -> read_vec t n s = (Some v, s') ->
  is_bytes v /\ len v = t * n /\ obj s' = obj s.
Proof.
  intros H. unfold read_vec. case_match; [discriminate|]. unfold read.
  destruct (Z.eqb_spec (len (slice (pos s) (t * n) (obj s))) (t * n)); intros E; simplify_eq.
  split; [apply slice_bytes, H|auto].
Qed.

Lemma seek_obj off w s : obj (seek off w s).2 = obj s.
Proof. unfold seek. case_match; reflexivity. Qed.

(** An entry [load] builds. *)
Lemma string_entry_ok t m v e : in_range 32 m -> len v <= m ->
  match t with fmt_string => nul_free v | _ => is_bytes v end ->
  string_entry t m v false = Some e -> entry_ok e /\ len (m_value_string e) <= m_max_size e.
Proof.
  intros Hm Hl Hv. unfold string_entry. destruct t; cbn -[Z.ltb]; try discriminate;
    case_match eqn:E; intros H; simplify_eq; apply Z.ltb_lt in E; (split; [split; [exact Hm|]|exact Hl]); cbn; auto.
Qed.

Lemma load_value_sound ix key sfo s sfo' s' :
  is_bytes (obj s) -> in_range 32 (param_max ix) -> param_len ix <= param_max ix ->
  load_value ix key sfo s = Ret (sfo', s') ->
  obj s' = obj s /\ (sfo' = sfo \/ exists e, sfo' = emplace key e sfo /\ entry_ok e /\ len (m_value_string e) <= m_max_size e).
Proof.
  intros Hb Hm Hl. unfold load_value. case_match eqn:Ei.
  - destruct (read_pod 4 s) as [[v|] s1] eqn:Er; [|discriminate]. intros E; simplify_eq.
    destruct (read_pod_bytes _ _ _ _ Hb Er) as (Hv & Hvl & Ho). split; [exact Ho|]. right. eexists. split; [reflexivity|].
    pose proof (le_value_range v Hv) as Hr. rewrite Hvl in Hr.
    split; [split; [cbn; lia|]; cbn [m_type integer_entry m_max_size m_value_integer m_value_string]; auto|vm_compute; congruence].
  - case_match eqn:Es; [|intros E; simplify_eq; auto].
    destruct (read_vec 1 (param_len ix) s) as [[v|] s1] eqn:Er; [|discriminate].
    destruct (read_vec_bytes _ _ _ _ _ Hb Er) as (Hv & Hvl & Ho).
    pose proof (c_string_len v). pose proof (c_string_free v Hv).
    case_match eqn:Ee; [|discriminate]. intros E; simplify_eq. split; [exact Ho|]. right. eexists. split; [reflexivity|].
    destruct (param_fmt ix =? format_code fmt_string); eapply string_entry_ok; try eassumption; cbn; auto; lia.
Qed.

Definition sound (psf : registry) : Prop := registry_ok psf /\ within psf.

Lemma load_entry_sound h keys ix sfo s sfo' s' :
  is_bytes (obj s) -> is_bytes keys -> in_range 32 (param_max ix) -> sound sfo ->
  load_entry h keys ix sfo s = Ret (sfo', s') -> obj s' = obj s /\ sound sfo'.
Proof.
  intros Hb Hk Hm [Hok Hw]. unfold load_entry. repeat (case_match; [|discriminate]). intros E.
  apply load_value_sound in E as [Ho Hs]; [|rewrite seek_obj; exact Hb|exact Hm|apply Z.leb_le; assumption].
  rewrite seek_obj in Ho. split; [exact Ho|]. destruct Hs as [->|(e & -> & He & Hl)]; [split; assumption|].
  split; [apply emplace_registry; auto; apply c_string_free, Forall_drop, Hk|apply emplace_forall; auto].
Qed.

Lemma load_entries_sound h keys indices sfo s sfo' :
  is_bytes (obj s) -> is_bytes keys -> Forall (fun d => in_range 32 (param_max d)) indices -> sound sfo ->
  load_entries h keys indices sfo s = Ret sfo' -> sound sfo'.
Proof.
  intros Hb Hk Hi. revert sfo s Hb. induction Hi as [|ix indices Hx Hi IH]; intros sfo s Hb Hs; cbn [load_entries].
  - intros E; simplify_eq. exact Hs.
  - destruct (load_entry h keys ix sfo s) as [[sfo1 s1]| |] eqn:E; [|discriminate..].
    destruct (load_entry_sound _ _ _ _ _ _ _ Hb Hk Hx Hs E) as [Ho Hs1]. apply IH; [rewrite Ho; exact Hb|exact Hs1].
Qed.

Lemma load_stream_sound s sfo : is_bytes (obj s) -> load_stream s = Ret sfo -> sound sfo /\ category_ok sfo = true.
Proof.
  intros Hb. unfold load_stream. pose proof (seek_obj 0 seek_set s) as Ho0.
  destruct (seek 0 seek_set s) as [p0 s0]. cbn [snd] in *. rewrite <- Ho0 in Hb.
  destruct (read_pod sizeof_header s0) as [[hb|] s1] eqn:E1; [|discriminate].
  destruct (read_pod_bytes _ _ _ _ Hb E1) as (_ & _ & Ho1). rewrite <- Ho1 in Hb.
  repeat (case_match; [|discriminate]).
  destruct (read_vec sizeof_def _ s1) as [[ib|] s2] eqn:E2; [|discriminate].
  destruct (read_vec_bytes _ _ _ _ _ Hb E2) as (Hib & _ & Ho2). rewrite <- Ho2 in Hb.
  pose proof (seek_obj (off_key_table (header_of hb)) seek_set s2) as Ho3.
  destruct (seek _ seek_set s2) as [p3 s3]. cbn [snd] in *. rewrite <- Ho3 in Hb. case_match; [|discriminate].
  destruct (read_vec 1 _ s3) as [[keys|] s4] eqn:E4; [|discriminate].
  destruct (read_vec_bytes _ _ _ _ _ Hb E4) as (Hk & _ & Ho4). rewrite <- Ho4 in Hb.
  destruct (load_entries _ keys _ [] s4) as [sfo1| |] eqn:E5; [|discriminate..].
  destruct (existsb _ valid_cats) eqn:E6; [|discriminate]. intros E; simplify_eq.
  split; [|exact E6]. eapply load_entries_sound; [exact Hb|exact Hk|apply defs_range, Hib| |exact E5].
  split; [split|]; constructor.
Qed.

Lemma load_entries_error h keys indices sfo s e : load_entries h keys indices sfo s = Fail e -> e = error_corrupt.
Proof.
  revert sfo s. induction indices as [|ix indices IH]; intros sfo s; cbn [load_entries]; [discriminate|].
  destruct (load_entry h keys ix sfo s) as [[sfo1 s1]|e1|] eqn:E; [apply IH| |discriminate].
  intros [= ->]. revert E. unfold load_entry, load_value. repeat case_match; congruence.
Qed.

Lemma load_cases s r : is_bytes (obj s) -> load (Some s) = Some r ->
  (errc r <> error_ok /\ sfo r = []) \/ (errc r = error_ok /\ sound (sfo r) /\ category_ok (sfo r) = true).
Proof.
  intros Hb. unfold load. destruct (load_stream s) as [psf|err|] eqn:E; intros H; simplify_eq; cbn.
  - right. destruct (load_stream_sound s psf Hb E). auto.
  - left. split; [|reflexivity]. intros ->. revert E. unfold load_stream.
    repeat case_match; try discriminate.
    match goal with H : load_entries _ _ _ _ _ = Fail _ |- _ => apply load_entries_error in H end. congruence.
Qed.

(** C23: Whatever bytes a file has, if [load] returns it returns either an error and an
    empty registry, or a registry that is sorted, with keys and strings free of NUL bytes,
    entries as their constructors make them, values no longer than their limits and a
    known CATEGORY; when this registry is within the limits of the format and
    [check_registry] accepts it, saving it and loading that gives the same result. *)
Theorem load_registry s r :
  is_bytes (obj s) -> load (Some s) = Some r ->
  (errc r <> error_ok /\ sfo r = [])
  \/ (errc r = error_ok /\ registry_ok (sfo r) /\ within (sfo r) /\ category_ok (sfo r) = true
      /\ (fits (sfo r) -> check_registry (sfo r) = true ->
          exists data, save_object (sfo r) [] = Some data /\ forall p, load (Some (MkStream data p)) = Some r)).
Proof.
  intros Hb Hl. destruct (load_cases s r Hb Hl) as [?|(He & [Hok Hw] & Hc)]; [left; assumption|right].
  split; [exact He|]. split; [exact Hok|]. split; [exact Hw|]. split; [exact Hc|]. intros Hf Hv.
  destruct (save_bytes (sfo r) [] Hok Hf) as (pad & Hs & Hp); [reflexivity|].
  exists (file_bytes (sfo r) pad). split; [exact Hs|]. intros p. rewrite load_file by assumption.
  rewrite shrunk_valid by (try apply registry_entries; assumption).
  unfold loaded. rewrite Hc, <- He. destruct r; reflexivity.
Qed.

(** ** Assignment *)

Lemma find_emplaced k e psf k' : k ∉ psf.*1 -> find k' (emplace k e psf) = if str_eqb k k' then Some e else find k' psf.
Proof.
  induction psf as [|[k1 x] psf IH]; intros Hk; cbn; [reflexivity|].
  cbn in Hk. apply not_elem_of_cons in Hk as [Hn Hk].
  destruct (str_ltb k k1); cbn; [reflexivity|]. destruct (str_eqb_spec k1 k); [congruence|]. cbn.
  destruct (str_eqb_spec k1 k') as [->|]; [destruct (str_eqb_spec k k'); [congruence|reflexivity]|]. apply IH, Hk.
Qed.

Lemma find_key k psf : find k psf = None -> k ∉ psf.*1.
Proof.
  induction psf as [|[k1 x] psf IH]; cbn; [intros _; apply not_elem_of_nil|].
  destruct (str_eqb_spec k1 k); [discriminate|]. intros H. apply not_elem_of_cons. auto.
Qed.

Lemma update_keys k e psf : (update k e psf).*1 = psf.*1.
Proof. induction psf as [|[k1 x] psf IH]; cbn; [reflexivity|]. case_match; cbn; [reflexivity|]. f_equal. exact IH. Qed.

Lemma find_update k e psf k' : find k psf <> None -> find k' (update k e psf) = if str_eqb k k' then Some e else find k' psf.
Proof.
  induction psf as [|[k1 x] psf IH]; cbn; [congruence|]. destruct (str_eqb_spec k1 k) as [->|Hn]; intros H; cbn.
  - destruct (str_eqb_spec k k'); reflexivity.
  - destruct (str_eqb_spec k1 k') as [->|]; [destruct (str_eqb_spec k k'); [congruence|reflexivity]|]. apply IH, H.
Qed.

(** [assign] sets one key and keeps a registry well-formed. *)
Lemma assign_ok psf key e : registry_ok psf -> nul_free key -> entry_ok e ->
  registry_ok (assign psf key e)
  /\ forall k, find k (assign psf key e) = if str_eqb key k then Some e else find k psf.
Proof.
  intros Hok Hk He. unfold assign. destruct (find key psf) as [x|] eqn:E.
  - split; [|intros k; apply find_update; congruence]. destruct Hok as [Hs Hf]. split; [rewrite update_keys; exact Hs|].
    clear Hs E. induction Hf as [|[k1 y] psf [Hk1 Hy] Hf IH]; cbn; [constructor|]. case_match; constructor; auto.
  - split; [apply emplace_registry; assumption|]. intros k. apply find_emplaced, find_key, E.
Qed.

(** *** Files that end the process

    The constructor of a string entry demands room for a character and the terminator, the
    one of an array room for a byte; [load] checks neither before it calls them.  An index
    with a smaller limit is the only way [load] does not return. *)
Definition crashes (d : def_table_t) : Prop :=
  (param_fmt d = format_code fmt_string /\ param_max d <= 1) \/ (param_fmt d = format_code fmt_array /\ param_max d <= 0).

Lemma load_entries_fatal h keys indices sfo s : load_entries h keys indices sfo s = Fatal -> Exists crashes indices.
Proof.
  revert sfo s. induction indices as [|ix indices IH]; intros sfo s; cbn [load_entries]; [discriminate|].
  destruct (load_entry h keys ix sfo s) as [[sfo1 s1]|e1|] eqn:E; [intros H; right; eapply IH, H|discriminate|].
  intros _. left. revert E. unfold load_entry, load_value. repeat (case_match; [|discriminate]).
  repeat (case_match; try discriminate); intros _; unfold string_entry, crashes in *; cbn -[Z.ltb] in *.
  all: repeat match goal with H : (if ?c then _ else _) = None |- _ => destruct c eqn:?; try discriminate end.
  all: repeat match goal with H : (_ =? _) = true |- _ => apply Z.eqb_eq in H | H : (_ <? _) = false |- _ => apply Z.ltb_ge in H
                            | H : orb _ _ = true |- _ => apply orb_true_iff in H as [?|?] end.
  all: try (left; split; [assumption|lia]); try (right; split; [assumption|lia]); congruence.
Qed.

Lemma defs_of_take n m l : (16 * n <= m)%nat -> defs_of n (take m l) = defs_of n l.
Proof.
  revert m l. induction n as [|n IH]; intros m l H; cbn [defs_of]; [reflexivity|].
  rewrite take_take, Nat.min_l, skipn_firstn_comm, IH by lia. reflexivity.
Qed.

Lemma load_none s : load (Some s) = None ->
  Exists crashes (defs_of (Z.to_nat (field 16 4 (obj s))) (drop 20 (obj s))).
Proof.
  unfold load. destruct (load_stream s) eqn:E; try discriminate. intros _. revert E.
  destruct s as [l p]. unfold load_stream. rewrite seek_to by lia. cbn [snd obj].
  unfold read_pod, read, sizeof_header. cbn [obj pos].
  destruct (Z.eqb_spec (len (slice 0 20 l)) 20) as [H20|]; [|discriminate].
  assert (Hh : entries_num (header_of (slice 0 20 l)) = field 16 4 l).
  { revert H20. unfold slice. case_match; [|discriminate]. rewrite drop_0, len_take by (pose proof (len_nonneg l); lia).
    intros Hl. replace (Z.to_nat (Z.min 20 (len l - 0))) with 20%nat by lia.
    unfold header_of, field. cbn [entries_num]. rewrite skipn_firstn_comm, take_take. reflexivity. }
  rewrite H20. do 5 (case_match; [|discriminate]). rewrite Hh. unfold read_vec at 1.
  match goal with |- context [if ?c then (None, _) else _] => destruct c; [discriminate|] end.
  unfold read. cbn [obj pos]. rewrite Z.add_0_l.
  destruct (Z.eqb_spec (len (slice 20 (sizeof_def * field 16 4 l) l)) (sizeof_def * field 16 4 l)) as [Hi|]; [|discriminate].
  case_match. case_match; [|discriminate]. case_match. case_match; [|discriminate]. case_match eqn:El; try discriminate.
  { case_match; discriminate. }
  intros _. apply load_entries_fatal in El. revert El. unfold slice in *. unfold sizeof_def in *.
  destruct (Z.to_nat (field 16 4 l)) as [|n] eqn:En; [auto|].
  destruct (Z.ltb_spec 20 (len l)); [|rewrite len_nil in Hi; lia].
  rewrite len_take in Hi by lia. rewrite Z.min_l by lia. rewrite defs_of_take by lia. auto.
Qed.

(** *** Examples *)

(** A registry with an integer, an array with a NUL byte and a string over its limit. *)
Definition sample : registry :=
  [(str "ATTRIBUTE", integer_entry 7); (CATEGORY, Entry fmt_string 4 0 (str "GD"));
   (str "RAW", Entry fmt_array 5 0 [1; 0; 2]); (str "TITLE", Entry fmt_string 4 0 (str "abcdef"))].

Lemma sample_ok : registry_ok sample.
Proof.
  split; [repeat constructor|].
  repeat (constructor; [split; [repeat constructor|]; split; cbn; unfold in_range; repeat split; try lia; repeat (constructor; try lia)|]).
  constructor.
Qed.

Lemma sample_fits : fits sample.
Proof. split; [vm_compute; congruence|]. split; [vm_compute; reflexivity|]. repeat constructor. Qed.

Lemma psf_roundtrip_witness :
  exists data, save_object sample [9; 9] = Some data
    /\ load (Some (MkStream data 0)) = Some (LoadResult (shrunk sample) error_ok).
Proof.
  destruct (psf_roundtrip sample [9; 9] sample_ok sample_fits eq_refl) as (data & Hs & Hl & _).
  exists data. split; [exact Hs|]. rewrite Hl. reflexivity.
Defined.

Lemma is_bytes_test l : forallb (fun b => (0 <=? b) && (b <? 256)) l = true -> is_bytes l.
Proof.
  intros H. apply Forall_forall. intros b Hb. apply list_elem_of_In in Hb. rewrite forallb_forall in H.
  apply H in Hb. apply andb_true_iff in Hb as [?%Z.leb_le ?%Z.ltb_lt]. split; [assumption|]. change (2 ^ 8) with 256. assumption.
Qed.

Definition sample_file : list Z := default [] (save_object (shrunk sample) []).

Lemma load_registry_witness : registry_ok (shrunk sample) /\ category_ok (shrunk sample) = true.
Proof.
  destruct (load_registry (MkStream sample_file 0) (LoadResult (shrunk sample) error_ok)) as [[H _]|(_ & H & _ & Hc & _)].
  - apply is_bytes_test. vm_compute. reflexivity.
  - vm_compute. reflexivity.
  - destruct H. reflexivity.
  - split; [exact H|exact Hc].
Defined.

(** A file whose CATEGORY has no room for a character ends the process. *)
Lemma small_limit_crash : exists data,
  save_object [(CATEGORY, Entry fmt_string 1 0 [])] [] = Some data /\ load (Some (MkStream data 0)) = None.
Proof. exists (default [] (save_object [(CATEGORY, Entry fmt_string 1 0 [])] [])). split; vm_compute; reflexivity. Qed.

(** Keys of more than 65535 bytes wrap their 16-bit offsets, which the 32-bit [narrow]
    does not notice: the offset written for a key at 65536 is 0. *)
Lemma key_offset_wraps k e : len k = 65535 -> entry_size e = Some 4 ->
  exists d1 d2 n, make_indices [(k, e); ([66], e)] 0 0 = Some ([d1; d2], n) /\ key_off d1 = 0 /\ key_off d2 = 0.
Proof.
  intros Hk He. cbn [make_indices]. rewrite He, Hk. change (len [66]) with 1.
  set (m := max e true). assert (Hm : 0 <= m < 2 ^ 32) by (apply wrap_range; lia).
  rewrite (wrap_small 64 (65535 + 1)), (wrap_small 64 (1 + 1)), (wrap_small 64 (0 + m)) by (unfold in_range; lia).
  rewrite (narrow32_small 0), (narrow32_small (65535 + 1)), (narrow32_small (1 + 1)) by lia.
  cbn [mbind option_bind]. rewrite (wrap_small 64 (0 + (65535 + 1))) by (unfold in_range; lia).
  rewrite (narrow32_small (0 + (65535 + 1))), (narrow32_small (0 + m)) by lia. cbn [mbind option_bind].
  do 3 eexists. split; [reflexivity|]. split; reflexivity.
Qed.
