(* ===== verification/PpuOpcodes.v ===== *)
(** * PPU instruction words and the decoder (Emu/Cell/PPUOpcodes.h)

    The fields of [ppu_opcode_t], the rotate mask, the instruction lists and the table of
    0x20000 slots the decoder fills from them, and the encoders of
    [namespace ppu_instructions]. *)

From Stdlib Require Import ZArith Lia Bool.
From stdpp Require Import base numbers list gmap.
From S2P Require Import Prelude BitField.

(** ** [ppu_opcode_t] *)

Module ppu_opcode_t.

(** [ppu_bf_t<T, I, N>] numbers the bits of the word from the most significant one. *)
Definition ppu_bf (I N op : Z) : Z := bf.extract (32 - N - I) N op.
Definition ppu_bf_s (I N op : Z) : Z := bf.extract_s 32 (32 - N - I) N op.

Definition main (op : Z) : Z := ppu_bf 0 6 op.
Definition vuimm (op : Z) : Z := ppu_bf 11 5 op.
Definition vs (op : Z) : Z := ppu_bf 6 5 op.
Definition vsh (op : Z) : Z := ppu_bf 22 4 op.
Definition oe (op : Z) : Z := ppu_bf 21 1 op.
Definition spr (op : Z) : Z := ppu_bf 11 10 op.
Definition vc (op : Z) : Z := ppu_bf 21 5 op.
Definition vb (op : Z) : Z := ppu_bf 16 5 op.
Definition va (op : Z) : Z := ppu_bf 11 5 op.
Definition vd (op : Z) : Z := ppu_bf 6 5 op.
Definition lk (op : Z) : Z := ppu_bf 31 1 op.
Definition aa (op : Z) : Z := ppu_bf 30 1 op.
Definition rb (op : Z) : Z := ppu_bf 16 5 op.
Definition ra (op : Z) : Z := ppu_bf 11 5 op.
Definition rd (op : Z) : Z := ppu_bf 6 5 op.
Definition uimm16 (op : Z) : Z := ppu_bf 16 16 op.
Definition l11 (op : Z) : Z := ppu_bf 11 1 op.
Definition rs (op : Z) : Z := ppu_bf 6 5 op.
Definition simm16 (op : Z) : Z := ppu_bf_s 16 16 op.
Definition ds (op : Z) : Z := ppu_bf_s 16 14 op.
Definition vsimm (op : Z) : Z := ppu_bf_s 11 5 op.
Definition ll (op : Z) : Z := ppu_bf_s 6 26 op.
Definition li (op : Z) : Z := ppu_bf_s 6 24 op.
Definition lev (op : Z) : Z := ppu_bf 20 7 op.
Definition crfs (op : Z) : Z := ppu_bf 11 3 op.
Definition l10 (op : Z) : Z := ppu_bf 10 1 op.
Definition crfd (op : Z) : Z := ppu_bf 6 3 op.
Definition crbb (op : Z) : Z := ppu_bf 16 5 op.
Definition crba (op : Z) : Z := ppu_bf 11 5 op.
Definition crbd (op : Z) : Z := ppu_bf 6 5 op.
Definition rc (op : Z) : Z := ppu_bf 31 1 op.
Definition me32 (op : Z) : Z := ppu_bf 26 5 op.
Definition mb32 (op : Z) : Z := ppu_bf 21 5 op.
Definition sh32 (op : Z) : Z := ppu_bf 16 5 op.
Definition bi (op : Z) : Z := ppu_bf 11 5 op.
Definition bo (op : Z) : Z := ppu_bf 6 5 op.
Definition bh (op : Z) : Z := ppu_bf 19 2 op.
Definition frb (op : Z) : Z := ppu_bf 16 5 op.
Definition fra (op : Z) : Z := ppu_bf 11 5 op.
Definition frd (op : Z) : Z := ppu_bf 6 5 op.
Definition crm (op : Z) : Z := ppu_bf 12 8 op.
Definition frs (op : Z) : Z := ppu_bf 6 5 op.

(** The concatenated fields ([cf_t]). *)
Definition sh64 (op : Z) : Z := Z.lor (Z.shiftl (ppu_bf 30 1 op) 5) (ppu_bf 16 5 op).
Definition mbe64 (op : Z) : Z := Z.lor (Z.shiftl (ppu_bf 26 1 op) 5) (ppu_bf 21 5 op).
Definition bt14 (op : Z) : Z := Z.shiftl (ppu_bf_s 16 14 op) 2.
Definition bt24 (op : Z) : Z := Z.shiftl (ppu_bf_s 6 24 op) 2.
End ppu_opcode_t.

(** [ppu_rotate_mask(mb, me)] *)
Definition ppu_rotate_mask (mb me : Z) : Z :=
  let mask := u64 (Z.shiftl (Z.ones 64) (Z.land (Z.lxor (u32 (me - mb)) (Z.ones 32)) 63)) in
  Z.lor (Z.shiftr mask (Z.land mb 63)) (u64 (Z.shiftl mask (Z.land (u32 (64 - mb)) 63))).

Definition ppu_decode (inst : Z) : Z :=
  Z.land (Z.lor (Z.shiftr inst 26) (u32 (Z.shiftl inst 6))) 0x1ffff.

(** ** Instruction names *)

Module Name.
Inductive t :=
| UNK | TDI | TWI | MULLI | SUBFIC | CMPLI | CMPI | ADDIC | ADDI | ADDIS | BC | SC | B | RLWIMI | RLWINM
| RLWNM | ORI | ORIS | XORI | XORIS | ANDI | ANDIS | LWZ | LWZU | LBZ | LBZU | STW | STWU | STB | STBU | LHZ
| LHZU | LHA | LHAU | STH | STHU | LMW | STMW | LFS | LFSU | LFD | LFDU | STFS | STFSU | STFD | STFDU
| VADDUBM | VMAXUB | VRLB | VCMPEQUB | VMULOUB | VADDFP | VMRGHB | VPKUHUM | VMHADDSHS | VMHRADDSHS
| VMLADDUHM | VMSUMUBM | VMSUMMBM | VMSUMUHM | VMSUMUHS | VMSUMSHM | VMSUMSHS | VSEL | VPERM | VSLDOI
| VMADDFP | VNMSUBFP | VADDUHM | VMAXUH | VRLH | VCMPEQUH | VMULOUH | VSUBFP | VMRGHH | VPKUWUM | VADDUWM
| VMAXUW | VRLW | VCMPEQUW | VMRGHW | VPKUHUS | VCMPEQFP | VPKUWUS | VMAXSB | VSLB | VMULOSB | VREFP | VMRGLB
| VPKSHUS | VMAXSH | VSLH | VMULOSH | VRSQRTEFP | VMRGLH | VPKSWUS | VADDCUW | VMAXSW | VSLW | VEXPTEFP
| VMRGLW | VPKSHSS | VSL | VCMPGEFP | VLOGEFP | VPKSWSS | VADDUBS | VMINUB | VSRB | VCMPGTUB | VMULEUB
| VRFIN | VSPLTB | VUPKHSB | VADDUHS | VMINUH | VSRH | VCMPGTUH | VMULEUH | VRFIZ | VSPLTH | VUPKHSH
| VADDUWS | VMINUW | VSRW | VCMPGTUW | VRFIP | VSPLTW | VUPKLSB | VSR | VCMPGTFP | VRFIM | VUPKLSH | VADDSBS
| VMINSB | VSRAB | VCMPGTSB | VMULESB | VCFUX | VSPLTISB | VPKPX | VADDSHS | VMINSH | VSRAH | VCMPGTSH
| VMULESH | VCFSX | VSPLTISH | VUPKHPX | VADDSWS | VMINSW | VSRAW | VCMPGTSW | VCTUXS | VSPLTISW | VCMPBFP
| VCTSXS | VUPKLPX | VSUBUBM | VAVGUB | VAND | VMAXFP | VSLO | VSUBUHM | VAVGUH | VANDC | VMINFP | VSRO
| VSUBUWM | VAVGUW | VOR | VXOR | VAVGSB | VNOR | VAVGSH | VSUBCUW | VAVGSW | VSUBUBS | MFVSCR | VSUM4UBS
| VSUBUHS | MTVSCR | VSUM4SHS | VSUBUWS | VSUM2SWS | VSUBSBS | VSUM4SBS | VSUBSHS | VSUBSWS | VSUMSWS | MCRF
| BCLR | CRNOR | CRANDC | ISYNC | CRXOR | CRNAND | CRAND | CREQV | CRORC | CROR | BCCTR | RLDICL | RLDICR
| RLDIC | RLDIMI | RLDCL | RLDCR | CMP | TW | LVSL | LVEBX | SUBFC | MULHDU | ADDC | MULHWU | MFOCRF | LWARX
| LDX | LWZX | SLW | CNTLZW | SLD | AND | CMPL | LVSR | LVEHX | SUBF | LDUX | DCBST | LWZUX | CNTLZD | ANDC
| TD | LVEWX | MULHD | MULHW | LDARX | DCBF | LBZX | LVX | NEG | LBZUX | NOR | STVEBX | SUBFE | ADDE | MTOCRF
| STDX | STWCX | STWX | STVEHX | STDUX | STWUX | STVEWX | SUBFZE | ADDZE | STDCX | STBX | STVX | SUBFME
| MULLD | ADDME | MULLW | DCBTST | STBUX | ADD | DCBT | LHZX | EQV | ECIWX | LHZUX | XOR | MFSPR | LWAX | DST
| LHAX | LVXL | MFTB | LWAUX | DSTST | LHAUX | STHX | ORC | ECOWX | STHUX | OR | DIVDU | DIVWU | MTSPR | DCBI
| NAND | STVXL | DIVD | DIVW | LVLX | LDBRX | LSWX | LWBRX | LFSX | SRW | SRD | LVRX | LFSUX | LSWI | SYNC
| LFDX | LFDUX | STVLX | STDBRX | STSWX | STWBRX | STFSX | STVRX | STFSUX | STSWI | STFDX | STFDUX | LVLXL
| LHBRX | SRAW | SRAD | LVRXL | DSS | SRAWI | SRADI | EIEIO | STVLXL | STHBRX | EXTSH | STVRXL | EXTSB
| STFIWX | EXTSW | ICBI | DCBZ | LD | LDU | LWA | FDIVS | FSUBS | FADDS | FSQRTS | FRES | FMULS | FMSUBS
| FMADDS | FNMSUBS | FNMADDS | STD | STDU | MTFSB1 | MCRFS | MTFSB0 | MTFSFI | MFFS | MTFSF | FCMPU | FRSP
| FCTIW | FCTIWZ | FDIV | FSUB | FADD | FSQRT | FSEL | FMUL | FRSQRTE | FMSUB | FMADD | FNMSUB | FNMADD
| FCMPO | FNEG | FMR | FNABS | FABS | FCTID | FCTIDZ | FCFID.
End Name.

(** A function of the table: the handler [name<0, Flags...>] with [has_oe] and [has_rc] as
    [ppu_interpreter_rt_base] selects them for [name], [nameO], [name_] and [nameO_]. *)
Record fn := Fn { base : Name.t; has_oe : bool; has_rc : bool }.

(** [GET(name)] and [GETRC(name)]: the functions for a clear and a set record bit. *)
Definition GET (n : Name.t) (oe : bool) : fn * fn := (Fn n oe false, Fn n oe false).
Definition GETRC (n : Name.t) (oe : bool) : fn * fn := (Fn n oe false, Fn n oe true).

Record instruction_info := MkInfo { value : Z; ptr0 : fn; ptr_rc : fn; magn : Z }.
Definition info (v : Z) (p : fn * fn) (m : Z) : instruction_info := MkInfo v p.1 p.2 m.

Definition main_opcodes : list instruction_info := [
  info 0x02 (GET Name.TDI false) 0; info 0x03 (GET Name.TWI false) 0; info 0x07 (GET Name.MULLI false) 0;
  info 0x08 (GET Name.SUBFIC false) 0; info 0x0a (GET Name.CMPLI false) 0; info 0x0b (GET Name.CMPI false) 0;
  info 0x0c (GET Name.ADDIC false) 0; info 0x0d (GET Name.ADDIC false) 0; info 0x0e (GET Name.ADDI false) 0;
  info 0x0f (GET Name.ADDIS false) 0; info 0x10 (GET Name.BC false) 0; info 0x11 (GET Name.SC false) 0;
  info 0x12 (GET Name.B false) 0; info 0x14 (GETRC Name.RLWIMI false) 0;
  info 0x15 (GETRC Name.RLWINM false) 0; info 0x17 (GETRC Name.RLWNM false) 0;
  info 0x18 (GET Name.ORI false) 0; info 0x19 (GET Name.ORIS false) 0; info 0x1a (GET Name.XORI false) 0;
  info 0x1b (GET Name.XORIS false) 0; info 0x1c (GET Name.ANDI false) 0; info 0x1d (GET Name.ANDIS false) 0;
  info 0x20 (GET Name.LWZ false) 0; info 0x21 (GET Name.LWZU false) 0; info 0x22 (GET Name.LBZ false) 0;
  info 0x23 (GET Name.LBZU false) 0; info 0x24 (GET Name.STW false) 0; info 0x25 (GET Name.STWU false) 0;
  info 0x26 (GET Name.STB false) 0; info 0x27 (GET Name.STBU false) 0; info 0x28 (GET Name.LHZ false) 0;
  info 0x29 (GET Name.LHZU false) 0; info 0x2a (GET Name.LHA false) 0; info 0x2b (GET Name.LHAU false) 0;
  info 0x2c (GET Name.STH false) 0; info 0x2d (GET Name.STHU false) 0; info 0x2e (GET Name.LMW false) 0;
  info 0x2f (GET Name.STMW false) 0; info 0x30 (GET Name.LFS false) 0; info 0x31 (GET Name.LFSU false) 0;
  info 0x32 (GET Name.LFD false) 0; info 0x33 (GET Name.LFDU false) 0; info 0x34 (GET Name.STFS false) 0;
  info 0x35 (GET Name.STFSU false) 0; info 0x36 (GET Name.STFD false) 0; info 0x37 (GET Name.STFDU false) 0
].
Definition group_04 : list instruction_info := [
  info 0x0 (GET Name.VADDUBM false) 0; info 0x2 (GET Name.VMAXUB false) 0; info 0x4 (GET Name.VRLB false) 0;
  info 0x006 (GET Name.VCMPEQUB false) 0; info 0x406 (GET Name.VCMPEQUB true) 0;
  info 0x8 (GET Name.VMULOUB false) 0; info 0xa (GET Name.VADDFP false) 0;
  info 0xc (GET Name.VMRGHB false) 0; info 0xe (GET Name.VPKUHUM false) 0;
  info 0x20 (GET Name.VMHADDSHS false) 5; info 0x21 (GET Name.VMHRADDSHS false) 5;
  info 0x22 (GET Name.VMLADDUHM false) 5; info 0x24 (GET Name.VMSUMUBM false) 5;
  info 0x25 (GET Name.VMSUMMBM false) 5; info 0x26 (GET Name.VMSUMUHM false) 5;
  info 0x27 (GET Name.VMSUMUHS false) 5; info 0x28 (GET Name.VMSUMSHM false) 5;
  info 0x29 (GET Name.VMSUMSHS false) 5; info 0x2a (GET Name.VSEL false) 5;
  info 0x2b (GET Name.VPERM false) 5; info 0x2c (GET Name.VSLDOI false) 5;
  info 0x2e (GET Name.VMADDFP false) 5; info 0x2f (GET Name.VNMSUBFP false) 5;
  info 0x40 (GET Name.VADDUHM false) 0; info 0x42 (GET Name.VMAXUH false) 0;
  info 0x44 (GET Name.VRLH false) 0; info 0x046 (GET Name.VCMPEQUH false) 0;
  info 0x446 (GET Name.VCMPEQUH true) 0; info 0x48 (GET Name.VMULOUH false) 0;
  info 0x4a (GET Name.VSUBFP false) 0; info 0x4c (GET Name.VMRGHH false) 0;
  info 0x4e (GET Name.VPKUWUM false) 0; info 0x80 (GET Name.VADDUWM false) 0;
  info 0x82 (GET Name.VMAXUW false) 0; info 0x84 (GET Name.VRLW false) 0;
  info 0x086 (GET Name.VCMPEQUW false) 0; info 0x486 (GET Name.VCMPEQUW true) 0;
  info 0x8c (GET Name.VMRGHW false) 0; info 0x8e (GET Name.VPKUHUS false) 0;
  info 0x0c6 (GET Name.VCMPEQFP false) 0; info 0x4c6 (GET Name.VCMPEQFP true) 0;
  info 0xce (GET Name.VPKUWUS false) 0; info 0x102 (GET Name.VMAXSB false) 0;
  info 0x104 (GET Name.VSLB false) 0; info 0x108 (GET Name.VMULOSB false) 0;
  info 0x10a (GET Name.VREFP false) 0; info 0x10c (GET Name.VMRGLB false) 0;
  info 0x10e (GET Name.VPKSHUS false) 0; info 0x142 (GET Name.VMAXSH false) 0;
  info 0x144 (GET Name.VSLH false) 0; info 0x148 (GET Name.VMULOSH false) 0;
  info 0x14a (GET Name.VRSQRTEFP false) 0; info 0x14c (GET Name.VMRGLH false) 0;
  info 0x14e (GET Name.VPKSWUS false) 0; info 0x180 (GET Name.VADDCUW false) 0;
  info 0x182 (GET Name.VMAXSW false) 0; info 0x184 (GET Name.VSLW false) 0;
  info 0x18a (GET Name.VEXPTEFP false) 0; info 0x18c (GET Name.VMRGLW false) 0;
  info 0x18e (GET Name.VPKSHSS false) 0; info 0x1c4 (GET Name.VSL false) 0;
  info 0x1c6 (GET Name.VCMPGEFP false) 0; info 0x5c6 (GET Name.VCMPGEFP true) 0;
  info 0x1ca (GET Name.VLOGEFP false) 0; info 0x1ce (GET Name.VPKSWSS false) 0;
  info 0x200 (GET Name.VADDUBS false) 0; info 0x202 (GET Name.VMINUB false) 0;
  info 0x204 (GET Name.VSRB false) 0; info 0x206 (GET Name.VCMPGTUB false) 0;
  info 0x606 (GET Name.VCMPGTUB true) 0; info 0x208 (GET Name.VMULEUB false) 0;
  info 0x20a (GET Name.VRFIN false) 0; info 0x20c (GET Name.VSPLTB false) 0;
  info 0x20e (GET Name.VUPKHSB false) 0; info 0x240 (GET Name.VADDUHS false) 0;
  info 0x242 (GET Name.VMINUH false) 0; info 0x244 (GET Name.VSRH false) 0;
  info 0x246 (GET Name.VCMPGTUH false) 0; info 0x646 (GET Name.VCMPGTUH true) 0;
  info 0x248 (GET Name.VMULEUH false) 0; info 0x24a (GET Name.VRFIZ false) 0;
  info 0x24c (GET Name.VSPLTH false) 0; info 0x24e (GET Name.VUPKHSH false) 0;
  info 0x280 (GET Name.VADDUWS false) 0; info 0x282 (GET Name.VMINUW false) 0;
  info 0x284 (GET Name.VSRW false) 0; info 0x286 (GET Name.VCMPGTUW false) 0;
  info 0x686 (GET Name.VCMPGTUW true) 0; info 0x28a (GET Name.VRFIP false) 0;
  info 0x28c (GET Name.VSPLTW false) 0; info 0x28e (GET Name.VUPKLSB false) 0;
  info 0x2c4 (GET Name.VSR false) 0; info 0x2c6 (GET Name.VCMPGTFP false) 0;
  info 0x6c6 (GET Name.VCMPGTFP true) 0; info 0x2ca (GET Name.VRFIM false) 0;
  info 0x2ce (GET Name.VUPKLSH false) 0; info 0x300 (GET Name.VADDSBS false) 0;
  info 0x302 (GET Name.VMINSB false) 0; info 0x304 (GET Name.VSRAB false) 0;
  info 0x306 (GET Name.VCMPGTSB false) 0; info 0x706 (GET Name.VCMPGTSB true) 0;
  info 0x308 (GET Name.VMULESB false) 0; info 0x30a (GET Name.VCFUX false) 0;
  info 0x30c (GET Name.VSPLTISB false) 0; info 0x30e (GET Name.VPKPX false) 0;
  info 0x340 (GET Name.VADDSHS false) 0; info 0x342 (GET Name.VMINSH false) 0;
  info 0x344 (GET Name.VSRAH false) 0; info 0x346 (GET Name.VCMPGTSH false) 0;
  info 0x746 (GET Name.VCMPGTSH true) 0; info 0x348 (GET Name.VMULESH false) 0;
  info 0x34a (GET Name.VCFSX false) 0; info 0x34c (GET Name.VSPLTISH false) 0;
  info 0x34e (GET Name.VUPKHPX false) 0; info 0x380 (GET Name.VADDSWS false) 0;
  info 0x382 (GET Name.VMINSW false) 0; info 0x384 (GET Name.VSRAW false) 0;
  info 0x386 (GET Name.VCMPGTSW false) 0; info 0x786 (GET Name.VCMPGTSW true) 0;
  info 0x38a (GET Name.VCTUXS false) 0; info 0x38c (GET Name.VSPLTISW false) 0;
  info 0x3c6 (GET Name.VCMPBFP false) 0; info 0x7c6 (GET Name.VCMPBFP true) 0;
  info 0x3ca (GET Name.VCTSXS false) 0; info 0x3ce (GET Name.VUPKLPX false) 0;
  info 0x400 (GET Name.VSUBUBM false) 0; info 0x402 (GET Name.VAVGUB false) 0;
  info 0x404 (GET Name.VAND false) 0; info 0x40a (GET Name.VMAXFP false) 0;
  info 0x40c (GET Name.VSLO false) 0; info 0x440 (GET Name.VSUBUHM false) 0;
  info 0x442 (GET Name.VAVGUH false) 0; info 0x444 (GET Name.VANDC false) 0;
  info 0x44a (GET Name.VMINFP false) 0; info 0x44c (GET Name.VSRO false) 0;
  info 0x480 (GET Name.VSUBUWM false) 0; info 0x482 (GET Name.VAVGUW false) 0;
  info 0x484 (GET Name.VOR false) 0; info 0x4c4 (GET Name.VXOR false) 0;
  info 0x502 (GET Name.VAVGSB false) 0; info 0x504 (GET Name.VNOR false) 0;
  info 0x542 (GET Name.VAVGSH false) 0; info 0x580 (GET Name.VSUBCUW false) 0;
  info 0x582 (GET Name.VAVGSW false) 0; info 0x600 (GET Name.VSUBUBS false) 0;
  info 0x604 (GET Name.MFVSCR false) 0; info 0x608 (GET Name.VSUM4UBS false) 0;
  info 0x640 (GET Name.VSUBUHS false) 0; info 0x644 (GET Name.MTVSCR false) 0;
  info 0x648 (GET Name.VSUM4SHS false) 0; info 0x680 (GET Name.VSUBUWS false) 0;
  info 0x688 (GET Name.VSUM2SWS false) 0; info 0x700 (GET Name.VSUBSBS false) 0;
  info 0x708 (GET Name.VSUM4SBS false) 0; info 0x740 (GET Name.VSUBSHS false) 0;
  info 0x780 (GET Name.VSUBSWS false) 0; info 0x788 (GET Name.VSUMSWS false) 0
].
Definition group_13 : list instruction_info := [
  info 0x000 (GET Name.MCRF false) 0; info 0x010 (GET Name.BCLR false) 0;
  info 0x021 (GET Name.CRNOR false) 0; info 0x081 (GET Name.CRANDC false) 0;
  info 0x096 (GET Name.ISYNC false) 0; info 0x0c1 (GET Name.CRXOR false) 0;
  info 0x0e1 (GET Name.CRNAND false) 0; info 0x101 (GET Name.CRAND false) 0;
  info 0x121 (GET Name.CREQV false) 0; info 0x1a1 (GET Name.CRORC false) 0;
  info 0x1c1 (GET Name.CROR false) 0; info 0x210 (GET Name.BCCTR false) 0
].
Definition group_1e : list instruction_info := [
  info 0x0 (GETRC Name.RLDICL false) 0; info 0x1 (GETRC Name.RLDICL false) 0;
  info 0x2 (GETRC Name.RLDICR false) 0; info 0x3 (GETRC Name.RLDICR false) 0;
  info 0x4 (GETRC Name.RLDIC false) 0; info 0x5 (GETRC Name.RLDIC false) 0;
  info 0x6 (GETRC Name.RLDIMI false) 0; info 0x7 (GETRC Name.RLDIMI false) 0;
  info 0x8 (GETRC Name.RLDCL false) 0; info 0x9 (GETRC Name.RLDCR false) 0
].
Definition group_1f : list instruction_info := [
  info 0x000 (GET Name.CMP false) 0; info 0x004 (GET Name.TW false) 0; info 0x006 (GET Name.LVSL false) 0;
  info 0x007 (GET Name.LVEBX false) 0; info 0x008 (GETRC Name.SUBFC false) 0;
  info 0x208 (GETRC Name.SUBFC true) 0; info 0x009 (GETRC Name.MULHDU false) 0;
  info 0x00a (GETRC Name.ADDC false) 0; info 0x20a (GETRC Name.ADDC true) 0;
  info 0x00b (GETRC Name.MULHWU false) 0; info 0x013 (GET Name.MFOCRF false) 0;
  info 0x014 (GET Name.LWARX false) 0; info 0x015 (GET Name.LDX false) 0; info 0x017 (GET Name.LWZX false) 0;
  info 0x018 (GETRC Name.SLW false) 0; info 0x01a (GETRC Name.CNTLZW false) 0;
  info 0x01b (GETRC Name.SLD false) 0; info 0x01c (GETRC Name.AND false) 0;
  info 0x020 (GET Name.CMPL false) 0; info 0x026 (GET Name.LVSR false) 0;
  info 0x027 (GET Name.LVEHX false) 0; info 0x028 (GETRC Name.SUBF false) 0;
  info 0x228 (GETRC Name.SUBF true) 0; info 0x035 (GET Name.LDUX false) 0;
  info 0x036 (GET Name.DCBST false) 0; info 0x037 (GET Name.LWZUX false) 0;
  info 0x03a (GETRC Name.CNTLZD false) 0; info 0x03c (GETRC Name.ANDC false) 0;
  info 0x044 (GET Name.TD false) 0; info 0x047 (GET Name.LVEWX false) 0;
  info 0x049 (GETRC Name.MULHD false) 0; info 0x04b (GETRC Name.MULHW false) 0;
  info 0x054 (GET Name.LDARX false) 0; info 0x056 (GET Name.DCBF false) 0;
  info 0x057 (GET Name.LBZX false) 0; info 0x067 (GET Name.LVX false) 0; info 0x068 (GETRC Name.NEG false) 0;
  info 0x268 (GETRC Name.NEG true) 0; info 0x077 (GET Name.LBZUX false) 0;
  info 0x07c (GETRC Name.NOR false) 0; info 0x087 (GET Name.STVEBX false) 0;
  info 0x088 (GETRC Name.SUBFE false) 0; info 0x288 (GETRC Name.SUBFE true) 0;
  info 0x08a (GETRC Name.ADDE false) 0; info 0x28a (GETRC Name.ADDE true) 0;
  info 0x090 (GET Name.MTOCRF false) 0; info 0x095 (GET Name.STDX false) 0;
  info 0x096 (GET Name.STWCX false) 0; info 0x097 (GET Name.STWX false) 0;
  info 0x0a7 (GET Name.STVEHX false) 0; info 0x0b5 (GET Name.STDUX false) 0;
  info 0x0b7 (GET Name.STWUX false) 0; info 0x0c7 (GET Name.STVEWX false) 0;
  info 0x0c8 (GETRC Name.SUBFZE false) 0; info 0x2c8 (GETRC Name.SUBFZE true) 0;
  info 0x0ca (GETRC Name.ADDZE false) 0; info 0x2ca (GETRC Name.ADDZE true) 0;
  info 0x0d6 (GET Name.STDCX false) 0; info 0x0d7 (GET Name.STBX false) 0;
  info 0x0e7 (GET Name.STVX false) 0; info 0x0e8 (GETRC Name.SUBFME false) 0;
  info 0x2e8 (GETRC Name.SUBFME true) 0; info 0x0e9 (GETRC Name.MULLD false) 0;
  info 0x2e9 (GETRC Name.MULLD true) 0; info 0x0ea (GETRC Name.ADDME false) 0;
  info 0x2ea (GETRC Name.ADDME true) 0; info 0x0eb (GETRC Name.MULLW false) 0;
  info 0x2eb (GETRC Name.MULLW true) 0; info 0x0f6 (GET Name.DCBTST false) 0;
  info 0x0f7 (GET Name.STBUX false) 0; info 0x10a (GETRC Name.ADD false) 0;
  info 0x30a (GETRC Name.ADD true) 0; info 0x116 (GET Name.DCBT false) 0; info 0x117 (GET Name.LHZX false) 0;
  info 0x11c (GETRC Name.EQV false) 0; info 0x136 (GET Name.ECIWX false) 0;
  info 0x137 (GET Name.LHZUX false) 0; info 0x13c (GETRC Name.XOR false) 0;
  info 0x153 (GET Name.MFSPR false) 0; info 0x155 (GET Name.LWAX false) 0; info 0x156 (GET Name.DST false) 0;
  info 0x157 (GET Name.LHAX false) 0; info 0x167 (GET Name.LVXL false) 0; info 0x173 (GET Name.MFTB false) 0;
  info 0x175 (GET Name.LWAUX false) 0; info 0x176 (GET Name.DSTST false) 0;
  info 0x177 (GET Name.LHAUX false) 0; info 0x197 (GET Name.STHX false) 0;
  info 0x19c (GETRC Name.ORC false) 0; info 0x1b6 (GET Name.ECOWX false) 0;
  info 0x1b7 (GET Name.STHUX false) 0; info 0x1bc (GETRC Name.OR false) 0;
  info 0x1c9 (GETRC Name.DIVDU false) 0; info 0x3c9 (GETRC Name.DIVDU true) 0;
  info 0x1cb (GETRC Name.DIVWU false) 0; info 0x3cb (GETRC Name.DIVWU true) 0;
  info 0x1d3 (GET Name.MTSPR false) 0; info 0x1d6 (GET Name.DCBI false) 0;
  info 0x1dc (GETRC Name.NAND false) 0; info 0x1e7 (GET Name.STVXL false) 0;
  info 0x1e9 (GETRC Name.DIVD false) 0; info 0x3e9 (GETRC Name.DIVD true) 0;
  info 0x1eb (GETRC Name.DIVW false) 0; info 0x3eb (GETRC Name.DIVW true) 0;
  info 0x207 (GET Name.LVLX false) 0; info 0x214 (GET Name.LDBRX false) 0;
  info 0x215 (GET Name.LSWX false) 0; info 0x216 (GET Name.LWBRX false) 0;
  info 0x217 (GET Name.LFSX false) 0; info 0x218 (GETRC Name.SRW false) 0;
  info 0x21b (GETRC Name.SRD false) 0; info 0x227 (GET Name.LVRX false) 0;
  info 0x237 (GET Name.LFSUX false) 0; info 0x255 (GET Name.LSWI false) 0;
  info 0x256 (GET Name.SYNC false) 0; info 0x257 (GET Name.LFDX false) 0;
  info 0x277 (GET Name.LFDUX false) 0; info 0x287 (GET Name.STVLX false) 0;
  info 0x294 (GET Name.STDBRX false) 0; info 0x295 (GET Name.STSWX false) 0;
  info 0x296 (GET Name.STWBRX false) 0; info 0x297 (GET Name.STFSX false) 0;
  info 0x2a7 (GET Name.STVRX false) 0; info 0x2b7 (GET Name.STFSUX false) 0;
  info 0x2d5 (GET Name.STSWI false) 0; info 0x2d7 (GET Name.STFDX false) 0;
  info 0x2f7 (GET Name.STFDUX false) 0; info 0x307 (GET Name.LVLXL false) 0;
  info 0x316 (GET Name.LHBRX false) 0; info 0x318 (GETRC Name.SRAW false) 0;
  info 0x31a (GETRC Name.SRAD false) 0; info 0x327 (GET Name.LVRXL false) 0;
  info 0x336 (GET Name.DSS false) 0; info 0x338 (GETRC Name.SRAWI false) 0;
  info 0x33a (GETRC Name.SRADI false) 0; info 0x33b (GETRC Name.SRADI false) 0;
  info 0x356 (GET Name.EIEIO false) 0; info 0x387 (GET Name.STVLXL false) 0;
  info 0x396 (GET Name.STHBRX false) 0; info 0x39a (GETRC Name.EXTSH false) 0;
  info 0x3a7 (GET Name.STVRXL false) 0; info 0x3ba (GETRC Name.EXTSB false) 0;
  info 0x3d7 (GET Name.STFIWX false) 0; info 0x3da (GETRC Name.EXTSW false) 0;
  info 0x3d6 (GET Name.ICBI false) 0; info 0x3f6 (GET Name.DCBZ false) 0
].
Definition group_3a : list instruction_info := [
  info 0x0 (GET Name.LD false) 0; info 0x1 (GET Name.LDU false) 0; info 0x2 (GET Name.LWA false) 0
].
Definition group_3b : list instruction_info := [
  info 0x12 (GETRC Name.FDIVS false) 5; info 0x14 (GETRC Name.FSUBS false) 5;
  info 0x15 (GETRC Name.FADDS false) 5; info 0x16 (GETRC Name.FSQRTS false) 5;
  info 0x18 (GETRC Name.FRES false) 5; info 0x19 (GETRC Name.FMULS false) 5;
  info 0x1c (GETRC Name.FMSUBS false) 5; info 0x1d (GETRC Name.FMADDS false) 5;
  info 0x1e (GETRC Name.FNMSUBS false) 5; info 0x1f (GETRC Name.FNMADDS false) 5
].
Definition group_3e : list instruction_info := [
  info 0x0 (GET Name.STD false) 0; info 0x1 (GET Name.STDU false) 0
].
Definition group_3f : list instruction_info := [
  info 0x026 (GETRC Name.MTFSB1 false) 0; info 0x040 (GET Name.MCRFS false) 0;
  info 0x046 (GETRC Name.MTFSB0 false) 0; info 0x086 (GETRC Name.MTFSFI false) 0;
  info 0x247 (GETRC Name.MFFS false) 0; info 0x2c7 (GETRC Name.MTFSF false) 0;
  info 0x000 (GET Name.FCMPU false) 0; info 0x00c (GETRC Name.FRSP false) 0;
  info 0x00e (GETRC Name.FCTIW false) 0; info 0x00f (GETRC Name.FCTIWZ false) 0;
  info 0x012 (GETRC Name.FDIV false) 5; info 0x014 (GETRC Name.FSUB false) 5;
  info 0x015 (GETRC Name.FADD false) 5; info 0x016 (GETRC Name.FSQRT false) 5;
  info 0x017 (GETRC Name.FSEL false) 5; info 0x019 (GETRC Name.FMUL false) 5;
  info 0x01a (GETRC Name.FRSQRTE false) 5; info 0x01c (GETRC Name.FMSUB false) 5;
  info 0x01d (GETRC Name.FMADD false) 5; info 0x01e (GETRC Name.FNMSUB false) 5;
  info 0x01f (GETRC Name.FNMADD false) 5; info 0x020 (GET Name.FCMPO false) 0;
  info 0x028 (GETRC Name.FNEG false) 0; info 0x048 (GETRC Name.FMR false) 0;
  info 0x088 (GETRC Name.FNABS false) 0; info 0x108 (GETRC Name.FABS false) 0;
  info 0x32e (GETRC Name.FCTID false) 0; info 0x32f (GETRC Name.FCTIDZ false) 0;
  info 0x34e (GETRC Name.FCFID false) 0
].

Definition groups : list (Z * Z * Z * list instruction_info) := [
  (0x00, 6, u32 (-1), main_opcodes); (0x04, 11, 0, group_04); (0x13, 10, 1, group_13);
  (0x1e, 4, 1, group_1e); (0x1f, 10, 1, group_1f); (0x3a, 2, 0, group_3a); (0x3b, 10, 1, group_3b);
  (0x3e, 2, 0, group_3e); (0x3f, 10, 1, group_3f)
].

(** ** The table *)

Definition table := gmap Z fn.

(** [fill_table(main_op, count, sh, entries)]: one entry. *)
Definition fill_entry (main_op count sh : Z) (t : table) (v : instruction_info) : table :=
  if sh <? 11 then
    for_up (Z.to_nat (Z.shiftl 1 (magn v + (11 - sh - count)))) (fun i =>
      for_up (Z.to_nat (Z.shiftl 1 sh)) (fun j =>
        let k := Z.lor (Z.shiftl (Z.lor (Z.shiftl i (count - magn v)) (value v)) sh) j in
        <[Z.lor (Z.shiftl k 6) main_op := if Z.testbit k 0 then ptr_rc v else ptr0 v]>)) t
  else
    for_up (Z.to_nat (Z.shiftl 1 11)) (fun i =>
      <[Z.lor (Z.shiftl i 6) (value v) := if Z.testbit i 0 then ptr_rc v else ptr0 v]>) t.

Definition fill_table (t : table) (g : Z * Z * Z * list instruction_info) : table :=
  let '(main_op, count, sh, entries) := g in foldl (fill_entry main_op count sh) t entries.

Definition UNK_fn : fn := Fn Name.UNK false false.

Definition m_table : table := foldl fill_table ∅ groups.

(** [ppu_decoder::decode]; a slot no entry fills is [UNK]. *)
Definition table_decode (inst : Z) : fn := default UNK_fn (m_table !! ppu_decode inst).

(** ** Encoders *)

Module ppu_instructions.
Definition set_rd (v op : Z) : Z := bf.store 21 5 v op.
Definition set_rs (v op : Z) : Z := bf.store 21 5 v op.
Definition set_ra (v op : Z) : Z := bf.store 16 5 v op.
Definition set_rb (v op : Z) : Z := bf.store 11 5 v op.
Definition set_simm16 (v op : Z) : Z := bf.store 0 16 v op.
Definition set_uimm16 (v op : Z) : Z := bf.store 0 16 v op.
Definition set_rc (v op : Z) : Z := bf.store 0 1 v op.
Definition set_lev (v op : Z) : Z := bf.store 5 7 v op.
Definition set_ll (v op : Z) : Z := bf.store 0 26 v op.
Definition set_aa (v op : Z) : Z := bf.store 1 1 v op.
Definition set_lk (v op : Z) : Z := bf.store 0 1 v op.
Definition set_bo (v op : Z) : Z := bf.store 21 5 v op.
Definition set_bi (v op : Z) : Z := bf.store 16 5 v op.
Definition set_ds (v op : Z) : Z := bf.store 2 14 v op.
Definition set_bh (v op : Z) : Z := bf.store 11 2 v op.
Definition set_spr (v op : Z) : Z := bf.store 11 10 v op.
Definition set_crfd (v op : Z) : Z := bf.store 23 3 v op.
Definition set_l10 (v op : Z) : Z := bf.store 21 1 v op.
Definition set_frs (v op : Z) : Z := bf.store 21 5 v op.
Definition set_frd (v op : Z) : Z := bf.store 21 5 v op.
Definition set_vs (v op : Z) : Z := bf.store 21 5 v op.
Definition set_vd (v op : Z) : Z := bf.store 21 5 v op.
Definition set_sh64 (v op : Z) : Z := bf.store (32 - 1 - 30) 1 (Z.shiftr v 5) (bf.store (32 - 5 - 16) 5 v op).
Definition set_mbe64 (v op : Z) : Z := bf.store (32 - 1 - 26) 1 (Z.shiftr v 5) (bf.store (32 - 5 - 21) 5 v op).

Definition ADDI (rt ra_ si : Z) : Z := set_simm16 si (set_ra ra_ (set_rd rt (Z.shiftl 0x0e 26))).
Definition ADDIS (rt ra_ si : Z) : Z := set_simm16 si (set_ra ra_ (set_rd rt (Z.shiftl 0x0f 26))).
Definition XORIS (rt ra_ si : Z) : Z := set_simm16 si (set_ra ra_ (set_rd rt (Z.shiftl 0x1b 26))).
Definition ORI (rt ra_ ui : Z) : Z := set_uimm16 ui (set_ra ra_ (set_rd rt (Z.shiftl 0x18 26))).
Definition ORIS (rt ra_ ui : Z) : Z := set_uimm16 ui (set_ra ra_ (set_rd rt (Z.shiftl 0x19 26))).
Definition OR (ra_ rs_ rb_ : Z) (rc_ : bool) : Z :=
  set_rc (Z.b2z rc_) (set_rb rb_ (set_ra ra_ (set_rs rs_ (Z.lor (Z.shiftl 0x1f 26) (Z.shiftl 0x1bc 1))))).
Definition SC (lev_ : Z) : Z := set_lev lev_ (Z.lor (Z.shiftl 0x11 26) (Z.shiftl 1 1)).
Definition B (li_ : Z) (aa_ lk_ : bool) : Z :=
  set_lk (Z.b2z lk_) (set_aa (Z.b2z aa_) (set_ll li_ (Z.shiftl 0x12 26))).
Definition BC (bo_ bi_ bd : Z) (aa_ lk_ : bool) : Z :=
  set_lk (Z.b2z lk_) (set_aa (Z.b2z aa_) (set_ds (Z.quot bd 4) (set_bi bi_ (set_bo bo_ (Z.shiftl 0x10 26))))).
Definition BCLR (bo_ bi_ bh_ : Z) (lk_ : bool) : Z :=
  set_lk (Z.b2z lk_) (set_bh bh_ (set_bi bi_ (set_bo bo_ (Z.lor (Z.shiftl 0x13 26) (Z.shiftl 0x10 1))))).
Definition BCCTR (bo_ bi_ bh_ : Z) (lk_ : bool) : Z :=
  set_lk (Z.b2z lk_) (set_bh bh_ (set_bi bi_ (set_bo bo_ (Z.lor (Z.shiftl 0x13 26) (Z.shiftl 0x210 1))))).
Definition MFSPR (rt spr_ : Z) : Z := set_spr spr_ (set_rd rt (Z.lor (Z.shiftl 0x1f 26) (Z.shiftl 0x153 1))).
Definition MTSPR (spr_ rs_ : Z) : Z := set_spr spr_ (set_rs rs_ (Z.lor (Z.shiftl 0x1f 26) (Z.shiftl 0x1d3 1))).
Definition LWZ (rt ra_ si : Z) : Z := set_simm16 si (set_ra ra_ (set_rd rt (Z.shiftl 0x20 26))).
Definition STW (rt ra_ si : Z) : Z := set_simm16 si (set_ra ra_ (set_rd rt (Z.shiftl 0x24 26))).
Definition STD (rs_ ra_ si : Z) : Z := set_ds (Z.quot si 4) (set_ra ra_ (set_rs rs_ (Z.shiftl 0x3e 26))).
Definition STDU (rs_ ra_ si : Z) : Z := set_ds (Z.quot si 4) (set_ra ra_ (set_rs rs_ (Z.lor (Z.shiftl 0x3e 26) 1))).
Definition LD (rt ra_ si : Z) : Z := set_ds (Z.quot si 4) (set_ra ra_ (set_rd rt (Z.shiftl 0x3a 26))).
Definition LDU (rt ra_ si : Z) : Z := set_ds (Z.quot si 4) (set_ra ra_ (set_rd rt (Z.lor (Z.shiftl 0x3a 26) 1))).
Definition CMPI (bf_ l ra_ ui : Z) : Z := set_uimm16 ui (set_ra ra_ (set_l10 l (set_crfd bf_ (Z.shiftl 0xb 26)))).
Definition CMPLI (bf_ l ra_ ui : Z) : Z := set_uimm16 ui (set_ra ra_ (set_l10 l (set_crfd bf_ (Z.shiftl 0xa 26)))).
Definition RLDICL (ra_ rs_ sh mb : Z) (rc_ : bool) : Z :=
  set_rc (Z.b2z rc_) (set_mbe64 mb (set_sh64 sh (set_rs rs_ (set_ra ra_ (Z.shiftl 30 26))))).
Definition RLDICR (ra_ rs_ sh mb : Z) (rc_ : bool) : Z := Z.lor (RLDICL ra_ rs_ sh mb rc_) (Z.shiftl 1 2).
Definition STFD (frs_ ra_ si : Z) : Z := set_simm16 si (set_ra ra_ (set_frs frs_ (Z.shiftl 54 26))).
Definition STVX (vs_ ra_ rb_ : Z) : Z := set_rb rb_ (set_ra ra_ (set_vs vs_ (Z.lor (Z.shiftl 31 26) (Z.shiftl 231 1)))).
Definition LFD (frd_ ra_ si : Z) : Z := set_simm16 si (set_ra ra_ (set_frd frd_ (Z.shiftl 50 26))).
Definition LVX (vd_ ra_ rb_ : Z) : Z := set_rb rb_ (set_ra ra_ (set_vd vd_ (Z.lor (Z.shiftl 31 26) (Z.shiftl 103 1)))).
Definition EIEIO : Z := 0x7c0006ac.

(** [namespace implicts] *)
Definition NOP : Z := ORI 0 0 0.
Definition MR (rt ra_ : Z) : Z := OR rt ra_ ra_ false.
Definition LI (rt imm : Z) : Z := ADDI rt 0 imm.
Definition LIS (rt imm : Z) : Z := ADDIS rt 0 imm.
Definition BLR : Z := BCLR (Z.lor 0x10 0x04) 0 0 false.
Definition BCTR : Z := BCCTR (Z.lor 0x10 0x04) 0 0 false.
Definition BCTRL : Z := BCCTR (Z.lor 0x10 0x04) 0 0 true.
Definition MFCTR (reg : Z) : Z := MFSPR reg (Z.shiftl 9 5).
Definition MTCTR (reg : Z) : Z := MTSPR (Z.shiftl 9 5) reg.
Definition MFLR (reg : Z) : Z := MFSPR reg (Z.shiftl 8 5).
Definition MTLR (reg : Z) : Z := MTSPR (Z.shiftl 8 5) reg.
Definition BNE (cr imm : Z) : Z := BC 4 (Z.lor 2 (Z.shiftl cr 2)) imm false false.
Definition BEQ (cr imm : Z) : Z := BC 12 (Z.lor 2 (Z.shiftl cr 2)) imm false false.
Definition BGT (cr imm : Z) : Z := BC 12 (Z.lor 1 (Z.shiftl cr 2)) imm false false.
Definition CMPDI (cr reg imm : Z) : Z := CMPI cr 1 reg imm.
Definition CMPWI (cr reg imm : Z) : Z := CMPI cr 0 reg imm.
Definition CMPLDI (cr reg imm : Z) : Z := CMPLI cr 1 reg imm.
Definition CMPLWI (cr reg imm : Z) : Z := CMPLI cr 0 reg imm.
Definition EXTRDI (x y n b : Z) : Z := RLDICL x y (u32 (b + n)) (u32 (64 - b)) false.
Definition SRDI (x y n : Z) : Z := RLDICL x y (u32 (64 - n)) n false.
Definition CLRLDI (x y n : Z) : Z := RLDICL x y 0 n false.
Definition CLRRDI (x y n : Z) : Z := RLDICR x y 0 (u32 (63 - n)) false.
Definition TRAP : Z := 0x7FE00008.
End ppu_instructions.
