(* ===== verification/PpuThread.v ===== *)
(** * The PPU thread as the interpreter sees it (Emu/Cell/PPUThread.h, PPUInterpreter.cpp)

    Registers, the reservation the thread holds, its call history, and guest memory; the
    helpers of the instruction handlers: condition register and overflow updates, additions
    with carry, checked memory access.  What the handlers call outside the interpreter is
    the interface [PpuHost], the settings they read the record [ppu_config]. *)

From Stdlib Require Import ZArith Lia Bool.
From stdpp Require Import base numbers list gmap.
From S2P Require Import Prelude V128 Bytes GuestMem BitField PpuOpcodes.
Import ppu_opcode_t.

(** The ring of called addresses kept for debugging. *)
Record call_history_t := mk_history { data : list Z; index : Z; last_r1 : Z; last_r2 : Z }.
Definition call_history_max_size : Z := 4096.

Record ppu_thread := mk_ppu_thread {
  gpr : list Z;                             (* u64 gpr[32] *)
  fpr : list Z;                             (* f64 fpr[32], as bits *)
  vr : list Z;                              (* v128 vr[32] *)
  cr : list Z;                              (* the 32 bytes of cr_bits *)
  lr : Z;
  ctr : Z;
  vrsave : Z;
  cia : Z;                                  (* current instruction address *)
  so : bool;                                (* xer.so *)
  ov : bool;                                (* xer.ov *)
  ca : bool;                                (* xer.ca *)
  cnt : Z;                                  (* xer.cnt *)
  nj : bool;                                (* VSCR non-Java bit *)
  sat : Z;                                  (* v128 sat: not zero when VSCR SAT is set *)
  jm_mask : Z;
  raddr : Z;                                (* reservation address *)
  rdata : list Z;                           (* 128 bytes of reservation data *)
  use_full_rdata : bool;
  res_cached : Z;
  state : Z;                                (* bs_t<cpu_flag> *)
  exec_bytes : Z;
  history : call_history_t;                 (* call_history *)
  stat : gmap Z Z;                          (* words at vm::g_stat_addr + address *)
  mem : guest;                              (* guest memory *)
}.

Definition with_gpr (v : list Z) (s : ppu_thread) : ppu_thread :=
    mk_ppu_thread v (fpr s) (vr s) (cr s) (lr s) (ctr s) (vrsave s) (cia s) (so s) (ov s) (ca s) (cnt s)
    (nj s) (sat s) (jm_mask s) (raddr s) (rdata s) (use_full_rdata s) (res_cached s) (state s)
    (exec_bytes s) (history s) (stat s) (mem s).
Definition with_fpr (v : list Z) (s : ppu_thread) : ppu_thread :=
    mk_ppu_thread (gpr s) v (vr s) (cr s) (lr s) (ctr s) (vrsave s) (cia s) (so s) (ov s) (ca s) (cnt s)
    (nj s) (sat s) (jm_mask s) (raddr s) (rdata s) (use_full_rdata s) (res_cached s) (state s)
    (exec_bytes s) (history s) (stat s) (mem s).
Definition with_vr (v : list Z) (s : ppu_thread) : ppu_thread :=
    mk_ppu_thread (gpr s) (fpr s) v (cr s) (lr s) (ctr s) (vrsave s) (cia s) (so s) (ov s) (ca s) (cnt s)
    (nj s) (sat s) (jm_mask s) (raddr s) (rdata s) (use_full_rdata s) (res_cached s) (state s)
    (exec_bytes s) (history s) (stat s) (mem s).
Definition with_cr (v : list Z) (s : ppu_thread) : ppu_thread :=
    mk_ppu_thread (gpr s) (fpr s) (vr s) v (lr s) (ctr s) (vrsave s) (cia s) (so s) (ov s) (ca s) (cnt s)
    (nj s) (sat s) (jm_mask s) (raddr s) (rdata s) (use_full_rdata s) (res_cached s) (state s)
    (exec_bytes s) (history s) (stat s) (mem s).
Definition with_lr (v : Z) (s : ppu_thread) : ppu_thread :=
    mk_ppu_thread (gpr s) (fpr s) (vr s) (cr s) v (ctr s) (vrsave s) (cia s) (so s) (ov s) (ca s) (cnt s)
    (nj s) (sat s) (jm_mask s) (raddr s) (rdata s) (use_full_rdata s) (res_cached s) (state s)
    (exec_bytes s) (history s) (stat s) (mem s).
Definition with_ctr (v : Z) (s : ppu_thread) : ppu_thread :=
    mk_ppu_thread (gpr s) (fpr s) (vr s) (cr s) (lr s) v (vrsave s) (cia s) (so s) (ov s) (ca s) (cnt s)
    (nj s) (sat s) (jm_mask s) (raddr s) (rdata s) (use_full_rdata s) (res_cached s) (state s)
    (exec_bytes s) (history s) (stat s) (mem s).
Definition with_vrsave (v : Z) (s : ppu_thread) : ppu_thread :=
    mk_ppu_thread (gpr s) (fpr s) (vr s) (cr s) (lr s) (ctr s) v (cia s) (so s) (ov s) (ca s) (cnt s)
    (nj s) (sat s) (jm_mask s) (raddr s) (rdata s) (use_full_rdata s) (res_cached s) (state s)
    (exec_bytes s) (history s) (stat s) (mem s).
Definition with_cia (v : Z) (s : ppu_thread) : ppu_thread :=
    mk_ppu_thread (gpr s) (fpr s) (vr s) (cr s) (lr s) (ctr s) (vrsave s) v (so s) (ov s) (ca s) (cnt s)
    (nj s) (sat s) (jm_mask s) (raddr s) (rdata s) (use_full_rdata s) (res_cached s) (state s)
    (exec_bytes s) (history s) (stat s) (mem s).
Definition with_so (v : bool) (s : ppu_thread) : ppu_thread :=
    mk_ppu_thread (gpr s) (fpr s) (vr s) (cr s) (lr s) (ctr s) (vrsave s) (cia s) v (ov s) (ca s) (cnt s)
    (nj s) (sat s) (jm_mask s) (raddr s) (rdata s) (use_full_rdata s) (res_cached s) (state s)
    (exec_bytes s) (history s) (stat s) (mem s).
Definition with_ov (v : bool) (s : ppu_thread) : ppu_thread :=
    mk_ppu_thread (gpr s) (fpr s) (vr s) (cr s) (lr s) (ctr s) (vrsave s) (cia s) (so s) v (ca s) (cnt s)
    (nj s) (sat s) (jm_mask s) (raddr s) (rdata s) (use_full_rdata s) (res_cached s) (state s)
    (exec_bytes s) (history s) (stat s) (mem s).
Definition with_ca (v : bool) (s : ppu_thread) : ppu_thread :=
    mk_ppu_thread (gpr s) (fpr s) (vr s) (cr s) (lr s) (ctr s) (vrsave s) (cia s) (so s) (ov s) v (cnt s)
    (nj s) (sat s) (jm_mask s) (raddr s) (rdata s) (use_full_rdata s) (res_cached s) (state s)
    (exec_bytes s) (history s) (stat s) (mem s).
Definition with_cnt (v : Z) (s : ppu_thread) : ppu_thread :=
    mk_ppu_thread (gpr s) (fpr s) (vr s) (cr s) (lr s) (ctr s) (vrsave s) (cia s) (so s) (ov s) (ca s) v
    (nj s) (sat s) (jm_mask s) (raddr s) (rdata s) (use_full_rdata s) (res_cached s) (state s)
    (exec_bytes s) (history s) (stat s) (mem s).
Definition with_nj (v : bool) (s : ppu_thread) : ppu_thread :=
    mk_ppu_thread (gpr s) (fpr s) (vr s) (cr s) (lr s) (ctr s) (vrsave s) (cia s) (so s) (ov s) (ca s)
    (cnt s) v (sat s) (jm_mask s) (raddr s) (rdata s) (use_full_rdata s) (res_cached s) (state s)
    (exec_bytes s) (history s) (stat s) (mem s).
Definition with_sat (v : Z) (s : ppu_thread) : ppu_thread :=
    mk_ppu_thread (gpr s) (fpr s) (vr s) (cr s) (lr s) (ctr s) (vrsave s) (cia s) (so s) (ov s) (ca s)
    (cnt s) (nj s) v (jm_mask s) (raddr s) (rdata s) (use_full_rdata s) (res_cached s) (state s)
    (exec_bytes s) (history s) (stat s) (mem s).
Definition with_jm_mask (v : Z) (s : ppu_thread) : ppu_thread :=
    mk_ppu_thread (gpr s) (fpr s) (vr s) (cr s) (lr s) (ctr s) (vrsave s) (cia s) (so s) (ov s) (ca s)
    (cnt s) (nj s) (sat s) v (raddr s) (rdata s) (use_full_rdata s) (res_cached s) (state s)
    (exec_bytes s) (history s) (stat s) (mem s).
Definition with_raddr (v : Z) (s : ppu_thread) : ppu_thread :=
    mk_ppu_thread (gpr s) (fpr s) (vr s) (cr s) (lr s) (ctr s) (vrsave s) (cia s) (so s) (ov s) (ca s)
    (cnt s) (nj s) (sat s) (jm_mask s) v (rdata s) (use_full_rdata s) (res_cached s) (state s)
    (exec_bytes s) (history s) (stat s) (mem s).
Definition with_rdata (v : list Z) (s : ppu_thread) : ppu_thread :=
    mk_ppu_thread (gpr s) (fpr s) (vr s) (cr s) (lr s) (ctr s) (vrsave s) (cia s) (so s) (ov s) (ca s)
    (cnt s) (nj s) (sat s) (jm_mask s) (raddr s) v (use_full_rdata s) (res_cached s) (state s)
    (exec_bytes s) (history s) (stat s) (mem s).
Definition with_use_full_rdata (v : bool) (s : ppu_thread) : ppu_thread :=
    mk_ppu_thread (gpr s) (fpr s) (vr s) (cr s) (lr s) (ctr s) (vrsave s) (cia s) (so s) (ov s) (ca s)
    (cnt s) (nj s) (sat s) (jm_mask s) (raddr s) (rdata s) v (res_cached s) (state s) (exec_bytes s)
    (history s) (stat s) (mem s).
Definition with_res_cached (v : Z) (s : ppu_thread) : ppu_thread :=
    mk_ppu_thread (gpr s) (fpr s) (vr s) (cr s) (lr s) (ctr s) (vrsave s) (cia s) (so s) (ov s) (ca s)
    (cnt s) (nj s) (sat s) (jm_mask s) (raddr s) (rdata s) (use_full_rdata s) v (state s) (exec_bytes s)
    (history s) (stat s) (mem s).
Definition with_state (v : Z) (s : ppu_thread) : ppu_thread :=
    mk_ppu_thread (gpr s) (fpr s) (vr s) (cr s) (lr s) (ctr s) (vrsave s) (cia s) (so s) (ov s) (ca s)
    (cnt s) (nj s) (sat s) (jm_mask s) (raddr s) (rdata s) (use_full_rdata s) (res_cached s) v
    (exec_bytes s) (history s) (stat s) (mem s).
Definition with_exec_bytes (v : Z) (s : ppu_thread) : ppu_thread :=
    mk_ppu_thread (gpr s) (fpr s) (vr s) (cr s) (lr s) (ctr s) (vrsave s) (cia s) (so s) (ov s) (ca s)
    (cnt s) (nj s) (sat s) (jm_mask s) (raddr s) (rdata s) (use_full_rdata s) (res_cached s) (state s) v
    (history s) (stat s) (mem s).
Definition with_history (v : call_history_t) (s : ppu_thread) : ppu_thread :=
    mk_ppu_thread (gpr s) (fpr s) (vr s) (cr s) (lr s) (ctr s) (vrsave s) (cia s) (so s) (ov s) (ca s)
    (cnt s) (nj s) (sat s) (jm_mask s) (raddr s) (rdata s) (use_full_rdata s) (res_cached s) (state s)
    (exec_bytes s) v (stat s) (mem s).
Definition with_stat (v : gmap Z Z) (s : ppu_thread) : ppu_thread :=
    mk_ppu_thread (gpr s) (fpr s) (vr s) (cr s) (lr s) (ctr s) (vrsave s) (cia s) (so s) (ov s) (ca s)
    (cnt s) (nj s) (sat s) (jm_mask s) (raddr s) (rdata s) (use_full_rdata s) (res_cached s) (state s)
    (exec_bytes s) (history s) v (mem s).
Definition with_mem (v : guest) (s : ppu_thread) : ppu_thread :=
    mk_ppu_thread (gpr s) (fpr s) (vr s) (cr s) (lr s) (ctr s) (vrsave s) (cia s) (so s) (ov s) (ca s)
    (cnt s) (nj s) (sat s) (jm_mask s) (raddr s) (rdata s) (use_full_rdata s) (res_cached s) (state s)
    (exec_bytes s) (history s) (stat s) v.


(** [g_cfg.core] as far as the handlers read it, directly or through the flags compiled in. *)
Record ppu_config := mk_config {
  ppu_debug : bool;
  debugger_present : bool;          (* is_debugger_present() *)
  set_call_history : bool;
  use_feed_data : bool;
  set_sat : bool;
  use_nj : bool;
  fix_nj : bool;
  accurate_cache_line_stores : bool;
  stub_ppu_traps : Z;
}.

(** ** Results

    A handler continues with the next instruction, returns to the loop that dispatches at
    [cia], faults on a guest address or throws. *)
Inductive result :=
| Next (s : ppu_thread)
| Leave (s : ppu_thread)
| PFault (addr : Z)
| PThrow.

(** A step inside a handler. *)
Inductive mres (X : Type) := MOk (x : X) (s : ppu_thread) | MFault (addr : Z) | MThrow.
Arguments MOk {X} _ _.
Arguments MFault {X} _.
Arguments MThrow {X}.
Definition PM (X : Type) : Type := ppu_thread -> mres X.

Definition mret {X} (x : X) : PM X := fun s => MOk x s.
Definition mbindp {X Y} (m : PM X) (f : X -> PM Y) : PM Y := fun s =>
  match m s with
  | MOk x s => f x s
  | MFault a => MFault a
  | MThrow => MThrow
  end.
(** A change of the registers alone. *)
Definition modify (f : ppu_thread -> ppu_thread) : PM unit := fun s => MOk tt (f s).

Declare Scope ppu_scope.
Delimit Scope ppu_scope with ppu.
Notation "'let!' x := m 'in' k" := (mbindp m (fun x => k)) (at level 10, x name, k at level 200) : ppu_scope.
Notation "m >> k" := (mbindp m (fun _ => k)) (at level 100, right associativity) : ppu_scope.
Open Scope ppu_scope.

(** ** Services outside the interpreter

    Reservations, system calls, the atomic cache line store, the time base, HLE functions,
    the conversions between [f32] and [f64], the floating-point handlers, and what
    a signalled thread does before it goes on or stops.  Reservations are time stamps that all
    threads of the host share: [reservation_update] (Emu/Memory/vm.cpp) waits until the line is
    not locked and lets a signalled thread stop, as [check_state] does. *)
Class PpuHost := {
  ppu_lwarx : Z -> PM Z;
  ppu_ldarx : Z -> PM Z;
  ppu_stwcx : Z -> Z -> PM bool;
  ppu_stdcx : Z -> Z -> PM bool;
  reservation_update : Z -> PM unit;
  do_cell_atomic_128_store : Z -> PM unit;
  get_timebased_time : PM Z;
  ppu_execute_syscall : Z -> ppu_thread -> result;
  hle_function : Z -> Z -> ppu_thread -> option result;
  f64_of_f32 : Z -> Z;
  f32_of_f64 : Z -> Z;
  fp_vec_exec : fn -> Z -> Z -> ppu_thread -> result;
  check_state : ppu_thread -> bool * ppu_thread;
}.

(** ** Registers *)

Definition get (s : ppu_thread) (r : Z) : Z := nth (Z.to_nat r) (gpr s) 0.
Definition set (r v : Z) (s : ppu_thread) : ppu_thread := with_gpr (<[Z.to_nat r := v]> (gpr s)) s.
Definition get_vr (s : ppu_thread) (r : Z) : Z := nth (Z.to_nat r) (vr s) 0.
Definition set_vr (r v : Z) (s : ppu_thread) : ppu_thread := with_vr (<[Z.to_nat r := v]> (vr s)) s.
Definition get_fpr (s : ppu_thread) (r : Z) : Z := nth (Z.to_nat r) (fpr s) 0.
Definition set_fpr (r v : Z) (s : ppu_thread) : ppu_thread := with_fpr (<[Z.to_nat r := v]> (fpr s)) s.

(** [ppu.cr[i]] *)
Definition cr_bit (s : ppu_thread) (i : Z) : Z := nth (Z.to_nat i) (cr s) 0.
Definition set_cr_bit (i v : Z) (s : ppu_thread) : ppu_thread := with_cr (<[Z.to_nat i := v]> (cr s)) s.

(** [ppu.cr.fields[i]]: the four bytes of a field. *)
Definition cr_field (s : ppu_thread) (i : Z) : list Z := take 4 (drop (Z.to_nat (4 * i)) (cr s)).
Definition set_cr_field (i : Z) (v : list Z) (s : ppu_thread) : ppu_thread :=
  with_cr (take (Z.to_nat (4 * i)) (cr s) ++ v ++ drop (Z.to_nat (4 * i) + 4) (cr s)) s.

(** [cr_bits::pack] and [cr_bits::unpack] *)
Definition pack (bits : list Z) : Z := foldl (fun result bit => Z.lor (u32 (Z.shiftl result 1)) bit) 0 bits.
Definition unpack_step (acc : list Z * Z) (_ : nat) : list Z * Z :=
  (acc.1 ++ [Z.b2z (negb (Z.land acc.2 (Z.shiftl 1 31) =? 0))], u32 (Z.shiftl acc.2 1)).
Definition unpack (value : Z) : list Z := (foldl unpack_step ([], value) (seq 0 32)).1.

(** ** Condition register and overflow *)

Section Helpers.
Context (cfg : ppu_config).

(** A little-endian [u32] of four bytes. *)
Definition field_word (l : list Z) : Z := foldr (fun b w => Z.lor b (Z.shiftl w 8)) 0 l.

(** [ppu_cr_set(ppu, field, le, gt, eq, so)] *)
Definition ppu_cr_set (field : Z) (le gt eq so_ : bool) (s : ppu_thread) : ppu_thread :=
  let s := set_cr_bit (field * 4 + 0) (Z.b2z le) s in
  let s := set_cr_bit (field * 4 + 1) (Z.b2z gt) s in
  let s := set_cr_bit (field * 4 + 2) (Z.b2z eq) s in
  let s := set_cr_bit (field * 4 + 3) (Z.b2z so_) s in
  if ppu_debug cfg
  then with_stat (<[cia s := Z.lor (default 0 (stat s !! cia s)) (field_word (cr_field s field))]> (stat s)) s
  else s.

(** [ppu_cr_set<T>(ppu, field, a, b)]; [a] and [b] are already values of [T]. *)
Definition ppu_cr_cmp (field a b : Z) (s : ppu_thread) : ppu_thread :=
  ppu_cr_set field (a <? b) (b <? a) (a =? b) (so s) s.

(** [if constexpr (has_rc) ppu_cr_set<s64>(ppu, 0, v, 0)] *)
Definition record (f : fn) (v : Z) (s : ppu_thread) : ppu_thread :=
  if has_rc f then ppu_cr_cmp 0 (s64 v) 0 s else s.

Definition ppu_ov_set (bit : bool) (s : ppu_thread) : ppu_thread :=
  let s := with_ov bit s in with_so (so s || bit) s.

(** ** Additions with carry *)

(** [add_flags_result_t<u64>]: the result and the carry. *)
Definition add64_flags (a b : Z) : Z * bool := let result := u64 (a + b) in (result, result <? a).
Definition add64_flags_c (a b : Z) (c : bool) : Z * bool :=
  let '(result, carry) := add64_flags a b in
  let '(r, carry') := add64_flags result (Z.b2z c) in
  (r, carry || carry').

(** [~x] of a [u64] *)
Definition not64 (x : Z) : Z := Z.lxor x (Z.ones 64).

Definition dup32 (x : Z) : Z := Z.lor x (Z.shiftl x 32).

(** ** Memory *)

(** [vm::cast(addr)] of a 64-bit address: a narrowing error throws. *)
Definition vm_cast (addr : Z) : PM Z := fun s => if u32 addr =? addr then MOk addr s else MThrow.

(** The bytes of an object of [n] bytes in guest memory. *)
Definition vm_bytes (m : gmap Z Z) (a : Z) (n : nat) : list Z := map (fun i => byte_at m (a + Z.of_nat i)) (seq 0 n).

Definition be_of (l : list Z) : Z := foldl (fun v b => Z.lor (Z.shiftl v 8) b) 0 l.
Definition le_of (l : list Z) : Z := be_of (rev l).

(** [vm::_ref<T>(vm::cast(addr))] read: the bytes of the object. *)
Definition vm_read (addr : Z) (n : nat) : PM (list Z) :=
  let! a := vm_cast addr in fun s =>
  if accessible (mem s) a n page_readable then MOk (vm_bytes (ram (mem s)) a n) s else MFault a.

(** [vm::write<T>(vm::cast(addr), value)]; [v] is the object as a big-endian number. *)
Definition vm_write (addr : Z) (n : nat) (v : Z) : PM unit :=
  let! a := vm_cast addr in fun s =>
  if accessible (mem s) a n page_writable
  then MOk tt (with_mem (with_ram (be_store (ram (mem s)) a n v) (mem s)) s) else MFault a.

(** A reservation found lost. *)
Definition lose_reservation (s : ppu_thread) : ppu_thread := with_res_cached 0 (with_raddr 0 s).

(** [std::memcmp(a, b, size)] is not zero. *)
Definition differs (a b : list Z) : bool := negb (bool_decide (a = b)).

(** [ppu_feed_data<T>(ppu, addr)]: the bytes read, with the reservation given up when they
    differ from its data. *)
Definition ppu_feed_data (n : nat) (addr : Z) : PM (list Z) :=
  let! value := vm_read addr n in fun s =>
  let size_T := Z.of_nat n in
  let raddr_ := raddr s in
  if negb (use_feed_data cfg) || negb (use_full_rdata s) then MOk value s
  else if (raddr_ / 128 <? addr / 128) || (u64 (addr + size_T - 1) / 128 <? raddr_ / 128) then MOk value s
  else if (size_T =? 1) || (addr / 128 =? u64 (addr + size_T - 1) / 128) then
    if differs value (take n (drop (Z.to_nat (Z.land addr 127)) (rdata s))) then MOk value (lose_reservation s) else MOk value s
  else
    let '(src, size_, offs) :=
      if raddr_ / 128 =? addr / 128
      then (Z.land addr 127, Z.min (128 - addr mod 128) size_T, 0)
      else (0, u64 (addr + size_T) mod 128, size_T - u64 (addr + size_T) mod 128) in
    if differs (take (Z.to_nat size_) (drop (Z.to_nat offs) value))
               (take (Z.to_nat size_) (drop (Z.to_nat src) (rdata s)))
    then MOk value (lose_reservation s) else MOk value s.

(** ** Calls *)

(** [ppu_record_call]; the address it returns is its argument. *)
Definition ppu_record_call (new_cia op : Z) (indirect : bool) (s : ppu_thread) : ppu_thread :=
  let h := history s in
  let push h := mk_history (<[Z.to_nat (index h mod call_history_max_size) := new_cia]> (data h))
                  (u64 (index h + 1)) (last_r1 h) (last_r2 h) in
  if negb (set_call_history cfg) then s
  else if match data h with [] => true | _ => false end then s
  else if lk op =? 0 then
    if indirect && (get s 1 =? last_r1 h) && negb (get s 2 =? last_r2 h)
    then with_history (push (mk_history (data h) (index h) (u64 (-1)) (get s 2))) s
    else s
  else
    let h := push h in with_history (mk_history (data h) (index h) (get s 1) (get s 2)) s.

(** [ppu_trap(ppu, addr)] *)
Definition page_executable : Z := 0x04.
Definition ppu_trap (addr : Z) (s : ppu_thread) : result :=
  if negb (Z.land addr (Z.lor (Z.shiftl (Z.ones 32) 32) 3) =? 0) then PThrow else
  let s := with_cia (u32 addr) s in
  let add := u32 (u32 (stub_ppu_traps cfg) * 4) in
  if (add =? 0) || negb (check_addr1 (mem s) (cia s) page_executable)
     || negb (check_addr1 (mem s) (u32 (cia s + add)) page_executable) then PThrow
  else Leave (with_cia (u32 (cia s + add)) s).

End Helpers.
