(* ===== verification/Neon.v ===== *)
(** * The vector operations of util/simd.hpp on ARM64

    The first half gives the NEON intrinsics that the ARM64 branches of util/simd.hpp use,
    each for every element width; a 64-bit half register is a [Z] in [0, 2^64).  The second
    half has the [gv_*] functions themselves, one definition each, of the same name; where
    simd.hpp overloads a shift for a constant and a vector of counts, the latter has [v]
    appended. *)

From Stdlib Require Import ZArith Lia Bool Btauto.
From stdpp Require Import base numbers list.
From S2P Require Import Prelude V128.

(** ** Intrinsics *)

(** Saturation to a signed and to an unsigned [w]-bit number. *)
Definition ssat (w x : Z) : Z := Z.max (- 2 ^ (w - 1)) (Z.min (2 ^ (w - 1) - 1) x).
Definition usat (w x : Z) : Z := Z.max 0 (Z.min (2 ^ w - 1) x).

(** A signed function of the elements. *)
Definition smap2 (w : Z) (f : Z -> Z -> Z) (a b : Z) : Z := map2 w (fun x y => f (sint w x) (sint w y)) a b.

Definition vaddq (w a b : Z) : Z := map2 w Z.add a b.
Definition vsubq (w a b : Z) : Z := map2 w Z.sub a b.
Definition vmulq (w a b : Z) : Z := map2 w Z.mul a b.
Definition vmlaq (w c a b : Z) : Z := vaddq w c (vmulq w a b).
Definition vqaddq_s (w a b : Z) : Z := smap2 w (fun x y => ssat w (x + y)) a b.
Definition vqaddq_u (w a b : Z) : Z := map2 w (fun x y => usat w (x + y)) a b.
Definition vqsubq_s (w a b : Z) : Z := smap2 w (fun x y => ssat w (x - y)) a b.
Definition vqsubq_u (w a b : Z) : Z := map2 w (fun x y => usat w (x - y)) a b.
Definition vmaxq_s (w a b : Z) : Z := smap2 w Z.max a b.
Definition vmaxq_u (w a b : Z) : Z := map2 w Z.max a b.
Definition vminq_s (w a b : Z) : Z := smap2 w Z.min a b.
Definition vminq_u (w a b : Z) : Z := map2 w Z.min a b.
Definition vceqq (w a b : Z) : Z := map2 w (fun x y => mask_of (x =? y)) a b.
Definition vcgtq_s (w a b : Z) : Z := smap2 w (fun x y => mask_of (y <? x)) a b.
Definition vcgeq_u (w a b : Z) : Z := map2 w (fun x y => mask_of (y <=? x)) a b.
(** Halving addition, rounded up. *)
Definition vrhaddq_s (w a b : Z) : Z := smap2 w (fun x y => Z.shiftr (x + y + 1) 1) a b.
Definition vrhaddq_u (w a b : Z) : Z := map2 w (fun x y => Z.shiftr (x + y + 1) 1) a b.
Definition vnegq (w a : Z) : Z := map1 w Z.opp a.
Definition vdupq_n (w v : Z) : Z := splat w v.

Definition vandq (a b : Z) : Z := Z.land a b.
Definition vorrq (a b : Z) : Z := Z.lor a b.
Definition veorq (a b : Z) : Z := Z.lxor a b.
Definition vbicq (a b : Z) : Z := Z.ldiff a b.
Definition vmvnq (a : Z) : Z := v_not a.
(** Bitwise select: [b] where [m] has a one, else [c]. *)
Definition vbslq (m b c : Z) : Z := Z.lor (Z.land m b) (Z.ldiff c m).

(** Shift of each element by the signed low byte of the element of [b]: to the left when it
    is positive, to the right when it is negative. *)
Definition shift_by (x n : Z) : Z := Z.shiftl x (sint 8 n).
Definition vshlq_u (w a b : Z) : Z := map2 w shift_by a b.
Definition vshlq_s (w a b : Z) : Z := map2 w (fun x n => shift_by (sint w x) n) a b.

(** High halves of doubled products, saturated: truncated, rounded, and rounded with an
    accumulator. *)
Definition vqdmulhq_s (w a b : Z) : Z := smap2 w (fun x y => ssat w (Z.shiftr (2 * x * y) w)) a b.
Definition vqrdmulhq_s (w a b : Z) : Z := smap2 w (fun x y => ssat w (Z.shiftr (2 * x * y + 2 ^ (w - 1)) w)) a b.
Definition vqrdmlahq_s (w c a b : Z) : Z :=
  build w (nlanes w) (fun i =>
    ssat w (Z.shiftr (Z.shiftl (slane w i c) w + 2 * slane w i a * slane w i b + 2 ^ (w - 1)) w)).

(** Half registers. *)
Definition dlanes (w : Z) : nat := Z.to_nat (64 / w).
Definition vget_low (a : Z) : Z := lane 64 0 a.
Definition vget_high (a : Z) : Z := lane 64 1 a.
Definition vcombine (lo hi : Z) : Z := from64 lo hi.

(** Narrowing from elements of [2 w] bits to [w], with saturation; lengthening from [w]. *)
Definition vqmovn_s (w a : Z) : Z := build w (dlanes w) (fun i => ssat w (slane (2 * w) i a)).
Definition vqmovun_s (w a : Z) : Z := build w (dlanes w) (fun i => usat w (slane (2 * w) i a)).
Definition vqmovn_u (w a : Z) : Z := build w (dlanes w) (fun i => usat w (lane (2 * w) i a)).
Definition vmovl_s (w d : Z) : Z := build (2 * w) (nlanes (2 * w)) (fun i => slane w i d).
Definition vmovl_u (w d : Z) : Z := build (2 * w) (nlanes (2 * w)) (fun i => lane w i d).
Definition vmull_s (w d e : Z) : Z := build (2 * w) (nlanes (2 * w)) (fun i => slane w i d * slane w i e).
Definition vmull_u (w d e : Z) : Z := build (2 * w) (nlanes (2 * w)) (fun i => lane w i d * lane w i e).
Definition vaddl_s (w d e : Z) : Z := build (2 * w) (nlanes (2 * w)) (fun i => slane w i d + slane w i e).
Definition vaddw_s (w a d : Z) : Z := build (2 * w) (nlanes (2 * w)) (fun i => lane (2 * w) i a + slane w i d).

(** Sums of neighbours: of elements of [w] bits into elements of [2 w], and of two half
    registers into one. *)
Definition vpaddlq_s (w a : Z) : Z := build (2 * w) (nlanes (2 * w)) (fun i => slane w (2 * i) a + slane w (2 * i + 1) a).
Definition vpaddlq_u (w a : Z) : Z := build (2 * w) (nlanes (2 * w)) (fun i => lane w (2 * i) a + lane w (2 * i + 1) a).
Definition vpadd (w d e : Z) : Z :=
  build w (dlanes w) (fun i =>
    let n := 32 / w in
    if i <? n then lane w (2 * i) d + lane w (2 * i + 1) d else lane w (2 * (i - n)) e + lane w (2 * (i - n) + 1) e).

(** Even and odd elements of two registers; interleaving of their low and high halves. *)
Definition unzip (w k a b : Z) : Z :=
  build w (nlanes w) (fun i => let n := 128 / w in let j := 2 * i + k in if j <? n then lane w j a else lane w (j - n) b).
Definition vuzp1q (w a b : Z) : Z := unzip w 0 a b.
Definition vuzp2q (w a b : Z) : Z := unzip w 1 a b.
Definition vzip1q (w a b : Z) : Z := interleave w 0 a b.
Definition vzip2q (w a b : Z) : Z := interleave w (64 / w) a b.

(** Table lookup of bytes; an index outside the table gives zero. *)
Definition vqtbl1q (t idx : Z) : Z := map1 8 (fun k => if k <? 16 then lane 8 k t else 0) idx.
Definition vqtbl2q (t0 t1 idx : Z) : Z :=
  map1 8 (fun k => if k <? 16 then lane 8 k t0 else if k <? 32 then lane 8 (k - 16) t1 else 0) idx.

(** ** util/simd.hpp *)

Definition gv_bcst8 (value : Z) : Z := vdupq_n 8 value.
Definition gv_bcst16 (value : Z) : Z := vdupq_n 16 value.
Definition gv_bcst32 (value : Z) : Z := vdupq_n 32 value.
Definition gv_bcst64 (value : Z) : Z := vdupq_n 64 value.

Definition gv_and32 (a b : Z) : Z := vandq a b.
Definition gv_andfs (a b : Z) : Z := vandq a b.
Definition gv_andn32 (a b : Z) : Z := vbicq b a.
Definition gv_andnfs (a b : Z) : Z := vbicq b a.
Definition gv_or32 (a b : Z) : Z := vorrq a b.
Definition gv_orfs (a b : Z) : Z := vorrq a b.
Definition gv_xor32 (a b : Z) : Z := veorq a b.
Definition gv_xorfs (a b : Z) : Z := veorq a b.
Definition gv_not32 (a : Z) : Z := vmvnq a.
Definition gv_notfs (a : Z) : Z := vmvnq a.

(** Shifts by a constant. *)
Definition gv_shl16 (a count : Z) : Z := if 16 <=? count then 0 else vshlq_s 16 a (vdupq_n 16 count).
Definition gv_shl32 (a count : Z) : Z := if 32 <=? count then 0 else vshlq_s 32 a (vdupq_n 32 count).
Definition gv_shl64 (a count : Z) : Z := if 64 <=? count then 0 else vshlq_s 64 a (vdupq_n 64 count).
Definition gv_shr16 (a count : Z) : Z := if 16 <=? count then 0 else vshlq_u 16 a (vdupq_n 16 (0 - count)).
Definition gv_shr32 (a count : Z) : Z := if 32 <=? count then 0 else vshlq_u 32 a (vdupq_n 32 (0 - count)).
Definition gv_shr64 (a count : Z) : Z := if 64 <=? count then 0 else vshlq_u 64 a (vdupq_n 64 (0 - count)).
Definition gv_sar16 (a count : Z) : Z := let count := if 16 <=? count then 15 else count in vshlq_s 16 a (vdupq_n 16 (0 - count)).
Definition gv_sar32 (a count : Z) : Z := let count := if 32 <=? count then 31 else count in vshlq_s 32 a (vdupq_n 32 (0 - count)).

Definition gv_add8 (a b : Z) : Z := vaddq 8 a b.
Definition gv_add64 (a b : Z) : Z := vaddq 64 a b.
Definition gv_adds_s8 (a b : Z) : Z := vqaddq_s 8 a b.
Definition gv_adds_s16 (a b : Z) : Z := vqaddq_s 16 a b.
Definition gv_adds_s32 (a b : Z) : Z := vqaddq_s 32 a b.
Definition gv_addus_u8 (a b : Z) : Z := vqaddq_u 8 a b.
Definition gv_addus_u16 (a b : Z) : Z := vqaddq_u 16 a b.
Definition gv_addus_u32 (a b : Z) : Z := vqaddq_u 32 a b.
Definition gv_subs_s8 (a b : Z) : Z := vqsubq_s 8 a b.
Definition gv_subs_s16 (a b : Z) : Z := vqsubq_s 16 a b.
Definition gv_subs_s32 (a b : Z) : Z := vqsubq_s 32 a b.
Definition gv_subus_u8 (a b : Z) : Z := vqsubq_u 8 a b.
Definition gv_subus_u16 (a b : Z) : Z := vqsubq_u 16 a b.
Definition gv_subus_u32 (a b : Z) : Z := vqsubq_u 32 a b.

Definition gv_maxu16 (a b : Z) : Z := vmaxq_u 16 a b.
Definition gv_maxu32 (a b : Z) : Z := vmaxq_u 32 a b.
Definition gv_maxs8 (a b : Z) : Z := vmaxq_s 8 a b.
Definition gv_maxs16 (a b : Z) : Z := vmaxq_s 16 a b.
Definition gv_maxs32 (a b : Z) : Z := vmaxq_s 32 a b.
Definition gv_minu16 (a b : Z) : Z := vminq_u 16 a b.
Definition gv_minu32 (a b : Z) : Z := vminq_u 32 a b.
Definition gv_mins8 (a b : Z) : Z := vminq_s 8 a b.
Definition gv_mins16 (a b : Z) : Z := vminq_s 16 a b.
Definition gv_mins32 (a b : Z) : Z := vminq_s 32 a b.

Definition gv_eq8 (a b : Z) : Z := vceqq 8 a b.
Definition gv_eq16 (a b : Z) : Z := vceqq 16 a b.
Definition gv_eq32 (a b : Z) : Z := vceqq 32 a b.
Definition gv_gts8 (a b : Z) : Z := vcgtq_s 8 a b.
Definition gv_gts16 (a b : Z) : Z := vcgtq_s 16 a b.
Definition gv_gts32 (a b : Z) : Z := vcgtq_s 32 a b.
Definition gv_geu32 (a b : Z) : Z := vcgeq_u 32 a b.

Definition gv_avgu8 (a b : Z) : Z := vrhaddq_u 8 a b.
Definition gv_avgu16 (a b : Z) : Z := vrhaddq_u 16 a b.
Definition gv_avgu32 (a b : Z) : Z := vrhaddq_u 32 a b.
Definition gv_avgs8 (a b : Z) : Z := vrhaddq_s 8 a b.
Definition gv_avgs16 (a b : Z) : Z := vrhaddq_s 16 a b.
Definition gv_avgs32 (a b : Z) : Z := vrhaddq_s 32 a b.

(** Products and sums of products. *)
Definition gv_rmuladds_hds16 (a b c : Z) : Z := vqrdmlahq_s 16 c a b.
Definition gv_rmuls_hds16 (a b : Z) : Z := vqrdmulhq_s 16 a b.
Definition gv_muls_hds16 (a b : Z) : Z := vqdmulhq_s 16 a b.
Definition gv_muladd16 (a b c : Z) : Z := vmlaq 16 c a b.
Definition gv_mul16 (a b : Z) : Z := vmulq 16 a b.
Definition gv_mul32 (a b : Z) : Z := vmulq 32 a b.
Definition gv_hadds8x4 (a c : Z) : Z := vaddq 32 (vpaddlq_s 16 (vpaddlq_s 8 a)) c.
Definition gv_haddu8x4 (a : Z) : Z := vpaddlq_u 16 (vpaddlq_u 8 a).
Definition gv_hadds16x2 (a c : Z) : Z := vaddq 32 (vpaddlq_s 16 a) c.

(** The sums of four products of bytes of the two registers, unsigned by signed. *)
Definition dot_u8s8 (a b : Z) : Z :=
  let l := vpaddlq_s 16 (vmulq 16 (vmovl_u 8 (vget_low a)) (vmovl_s 8 (vget_low b))) in
  let h := vpaddlq_s 16 (vmulq 16 (vmovl_u 8 (vget_high a)) (vmovl_s 8 (vget_high b))) in
  vaddq 32 (vuzp1q 32 l h) (vuzp2q 32 l h).
Definition gv_dotu8s8x4 (a b c : Z) : Z := vaddq 32 c (dot_u8s8 a b).
Definition gv_dots_u8s8x4 (a b c : Z) : Z := vqaddq_s 32 c (dot_u8s8 a b).
Definition gv_dotu8x4 (a b c : Z) : Z :=
  let l := vpaddlq_u 16 (vmulq 16 (vmovl_u 8 (vget_low a)) (vmovl_u 8 (vget_low b))) in
  let h := vpaddlq_u 16 (vmulq 16 (vmovl_u 8 (vget_high a)) (vmovl_u 8 (vget_high b))) in
  vaddq 32 c (vaddq 32 (vuzp1q 32 l h) (vuzp2q 32 l h)).
Definition gv_dots16x2 (a b : Z) : Z :=
  let ml := vmull_s 16 (vget_low a) (vget_low b) in
  let mh := vmull_s 16 (vget_high a) (vget_high b) in
  let sl := vpadd 32 (vget_low ml) (vget_high ml) in
  let sh := vpadd 32 (vget_low mh) (vget_high mh) in
  vcombine sl sh.
Definition gv_dots16x2_acc (a b c : Z) : Z := gv_add32 c (gv_dots16x2 a b).
Definition gv_dotu16x2 (a b : Z) : Z :=
  let ml := vmull_u 16 (vget_low a) (vget_low b) in
  let mh := vmull_u 16 (vget_high a) (vget_high b) in
  let sl := vpadd 32 (vget_low ml) (vget_high ml) in
  let sh := vpadd 32 (vget_low mh) (vget_high mh) in
  vcombine sl sh.

(** [_cmp] is the result of a comparison. *)
Definition gv_select32 (cmp t f : Z) : Z := vbslq cmp t f.
Definition gv_dots_s16x2 (a b c : Z) : Z :=
  let ab := gv_dots16x2 a b in
  let s0 := gv_adds_s32 ab c in
  let s1 := gv_eq32 ab (gv_bcst32 0x80000000) in
  let s2 := gv_select32 (gv_gts32 (gv_bcst32 0) c) (gv_xor32 c (gv_bcst32 0x80000000)) (gv_bcst32 0x7fffffff) in
  gv_select32 s1 s2 s0.
Definition gv_mul_even_s16 (a b : Z) : Z := gv_mul32 (gv_sar32 (gv_shl32 a 16) 16) (gv_sar32 (gv_shl32 b 16) 16).
Definition gv_mul_even_u16 (a b : Z) : Z :=
  let c := gv_bcst32 0x0000ffff in gv_mul32 (gv_and32 a c) (gv_and32 b c).
Definition gv_mul_odds_s16 (a b : Z) : Z := gv_mul32 (gv_sar32 a 16) (gv_sar32 b 16).
Definition gv_mul_odds_u16 (a b : Z) : Z := gv_mul32 (gv_shr32 a 16) (gv_shr32 b 16).

(** Tests: the saturated halves of the words as one 64-bit number. *)
Definition gv_testz (a : Z) : bool := sint 64 (vqmovn_s 16 a) =? 0.
Definition gv_testall0 (a : Z) : bool := sint 64 (vqmovn_s 16 a) =? 0.
Definition gv_testall1 (a : Z) : bool := sint 64 (vqmovn_s 16 a) =? -1.

(** Packing and unpacking. *)
Definition gv_packss_s16 (low high : Z) : Z := vcombine (vqmovn_s 8 low) (vqmovn_s 8 high).
Definition gv_packus_s16 (low high : Z) : Z := vcombine (vqmovun_s 8 low) (vqmovun_s 8 high).
Definition gv_packus_u16 (low high : Z) : Z := vcombine (vqmovn_u 8 low) (vqmovn_u 8 high).
Definition gv_packtu16 (low high : Z) : Z := vuzp1q 8 low high.
Definition gv_packss_s32 (low high : Z) : Z := vcombine (vqmovn_s 16 low) (vqmovn_s 16 high).
Definition gv_packus_s32 (low high : Z) : Z := vcombine (vqmovun_s 16 low) (vqmovun_s 16 high).
Definition gv_packus_u32 (low high : Z) : Z := vcombine (vqmovn_u 16 low) (vqmovn_u 16 high).
Definition gv_packtu32 (low high : Z) : Z := vuzp1q 16 low high.
Definition gv_unpacklo8 (lows highs : Z) : Z := vzip1q 8 lows highs.
Definition gv_unpacklo16 (lows highs : Z) : Z := vzip1q 16 lows highs.
Definition gv_unpacklo32 (lows highs : Z) : Z := vzip1q 32 lows highs.
Definition gv_unpackhi8 (lows highs : Z) : Z := vzip2q 8 lows highs.
Definition gv_unpackhi16 (lows highs : Z) : Z := vzip2q 16 lows highs.
Definition gv_unpackhi32 (lows highs : Z) : Z := vzip2q 32 lows highs.
Definition gv_extend_lo_s8 (vec : Z) : Z := vmovl_s 8 (vget_low vec).
Definition gv_extend_hi_s8 (vec : Z) : Z := vmovl_s 8 (vget_high vec).
Definition gv_extend_lo_s16 (vec : Z) : Z := vmovl_s 16 (vget_low vec).
Definition gv_extend_hi_s16 (vec : Z) : Z := vmovl_s 16 (vget_high vec).

(** Shifts and rotates by the elements of a vector.  The counts of halfwords and words are
    masked with a byte pattern; the shift looks at their low bytes only. *)
Definition gv_shl8v (a b : Z) : Z := vshlq_u 8 a (vandq b (gv_bcst8 7)).
Definition gv_shl16v (a b : Z) : Z := vshlq_u 16 a (vandq b (gv_bcst8 15)).
Definition gv_shl32v (a b : Z) : Z := vshlq_u 32 a (vandq b (gv_bcst8 31)).
Definition gv_shr8v (a b : Z) : Z := vshlq_u 8 a (vnegq 8 (vandq b (gv_bcst8 7))).
Definition gv_shr16v (a b : Z) : Z := vshlq_u 16 a (vnegq 16 (vandq b (gv_bcst8 15))).
Definition gv_shr32v (a b : Z) : Z := vshlq_u 32 a (vnegq 32 (vandq b (gv_bcst8 31))).
Definition gv_sar8v (a b : Z) : Z := vshlq_s 8 a (vnegq 8 (vandq b (gv_bcst8 7))).
Definition gv_sar16v (a b : Z) : Z := vshlq_s 16 a (vnegq 16 (vandq b (gv_bcst8 15))).
Definition gv_sar32v (a b : Z) : Z := vshlq_s 32 a (vnegq 32 (vandq b (gv_bcst8 31))).
Definition gv_rol8 (a b : Z) : Z :=
  let amt1 := vandq b (gv_bcst8 7) in let amt2 := vsubq 8 amt1 (gv_bcst8 8) in
  vorrq (vshlq_u 8 a amt1) (vshlq_u 8 a amt2).
Definition gv_rol16 (a b : Z) : Z :=
  let amt1 := vandq b (gv_bcst16 15) in let amt2 := vsubq 16 amt1 (gv_bcst16 16) in
  vorrq (vshlq_u 16 a amt1) (vshlq_u 16 a amt2).
Definition gv_rol32 (a b : Z) : Z :=
  let amt1 := vandq b (gv_bcst32 31) in let amt2 := vsubq 32 amt1 (gv_bcst32 32) in
  vorrq (vshlq_u 32 a amt1) (vshlq_u 32 a amt2).
Definition gv_fshl8 (a b c : Z) : Z :=
  let amt1 := vandq c (gv_bcst8 7) in let amt2 := vsubq 8 amt1 (gv_bcst8 8) in
  vorrq (vshlq_u 8 a amt1) (vshlq_u 8 b amt2).
Definition gv_fshr8 (a b c : Z) : Z :=
  let amt1 := vandq c (gv_bcst8 7) in let amt2 := vsubq 8 (gv_bcst8 8) amt1 in
  vorrq (vshlq_u 8 b (vnegq 8 amt1)) (vshlq_u 8 a amt2).

(** Shifts by a number of bytes, through a table lookup. *)
Definition gv_shuffle_left (Count a : Z) : Z :=
  if 15 <? Count then 0 else vqtbl1q a (build 8 16 (fun i => u8 (i - Count))).
Definition gv_shuffle_right (Count a : Z) : Z :=
  if 15 <? Count then 0 else vqtbl1q a (build 8 16 (fun i => u8 (i + Count))).

(** ** Ranges *)

Ltac neon_unfold :=
  unfold vmlaq, vaddq, vsubq, vmulq, vqaddq_s, vqaddq_u, vqsubq_s, vqsubq_u, vmaxq_s, vmaxq_u, vminq_s, vminq_u,
    vceqq, vcgtq_s, vcgeq_u, vrhaddq_s, vrhaddq_u, vnegq, vdupq_n, vandq, vorrq, veorq, vbicq, vmvnq, vbslq,
    vshlq_u, vshlq_s, vqdmulhq_s, vqrdmulhq_s, vqrdmlahq_s, vcombine, vmovl_s, vmovl_u, vmull_s, vmull_u, vaddl_s,
    vaddw_s, vpaddlq_s, vpaddlq_u, vuzp1q, vuzp2q, unzip, vzip1q, vzip2q, interleave, vqtbl1q, vqtbl2q, smap2.
Ltac gv_unfold :=
  unfold gv_dots_s16x2, gv_dots16x2_acc, gv_dotu8s8x4, gv_dots_u8s8x4, gv_dotu8x4, dot_u8s8, gv_dots16x2,
    gv_dotu16x2, gv_mul_even_s16, gv_mul_even_u16, gv_mul_odds_s16, gv_mul_odds_u16, gv_shl8v, gv_shl16v,
    gv_shl32v, gv_shr8v, gv_shr16v, gv_shr32v, gv_sar8v, gv_sar16v, gv_sar32v, gv_rol8, gv_rol16, gv_rol32,
    gv_fshl8, gv_fshr8, gv_bcst8, gv_bcst16, gv_bcst32, gv_bcst64, gv_and32, gv_andfs, gv_andn32, gv_andnfs,
    gv_or32, gv_orfs, gv_xor32, gv_xorfs, gv_not32, gv_notfs, gv_shl16, gv_shl32, gv_shl64, gv_shr16, gv_shr32,
    gv_shr64, gv_sar16, gv_sar32, gv_add8, gv_add64, gv_adds_s8, gv_adds_s16, gv_adds_s32, gv_addus_u8,
    gv_addus_u16, gv_addus_u32, gv_subs_s8, gv_subs_s16, gv_subs_s32, gv_subus_u8, gv_subus_u16, gv_subus_u32,
    gv_maxu16, gv_maxu32, gv_maxs8, gv_maxs16, gv_maxs32, gv_minu16, gv_minu32, gv_mins8, gv_mins16, gv_mins32,
    gv_eq8, gv_eq16, gv_eq32, gv_gts8, gv_gts16, gv_gts32, gv_geu32, gv_avgu8, gv_avgu16, gv_avgu32, gv_avgs8,
    gv_avgs16, gv_avgs32, gv_rmuladds_hds16, gv_rmuls_hds16, gv_muls_hds16, gv_muladd16, gv_mul16, gv_mul32,
    gv_hadds8x4, gv_haddu8x4, gv_hadds16x2, gv_select32, gv_packss_s16, gv_packus_s16, gv_packus_u16, gv_packtu16,
    gv_packss_s32, gv_packus_s32, gv_packus_u32, gv_packtu32, gv_unpacklo8, gv_unpacklo16, gv_unpacklo32,
    gv_unpackhi8, gv_unpackhi16, gv_unpackhi32, gv_extend_lo_s8, gv_extend_hi_s8, gv_extend_lo_s16,
    gv_extend_hi_s16, gv_shuffle_left, gv_shuffle_right.

(** [gv_range]: the result of a [gv_*] expression is a 128-bit value. *)
Ltac gv_range := cbv zeta; gv_unfold; v_unfold; cbv zeta; neon_unfold; repeat v_range_step.

(** ** Lanes *)

Lemma lane_half w m i k x : 0 < w -> w * m = 64 -> 0 <= i < m -> 0 <= k -> lane w i (lane 64 k x) = lane w (m * k + i) x.
Proof. intros Hw Hm Hi Hk. rewrite <- Hm. apply lane_lane; lia. Qed.

Lemma lane_vcombine w m lo hi i :
  0 < w -> w * m = 64 -> 0 <= i < 2 * m -> lane w i (vcombine lo hi) = if i <? m then lane w i lo else lane w (i - m) hi.
Proof.
  intros Hw Hm Hi.
  assert (forall x j, 0 <= j < m -> lane w j (wrap 64 x) = lane w j x) as Hx.
  { intros x j Hj. transitivity (lane w j (lane 64 0 x)); [unfold lane at 3; rewrite Z.shiftr_0_r; reflexivity|].
    rewrite (lane_half w m) by lia. f_equal. lia. }
  unfold vcombine, from64. destruct (Z.ltb_spec i m).
  - replace i with (m * 0 + i) at 1 by lia. rewrite <- (lane_half w m) by lia. rewrite !lane_set_lane by lia. apply Hx. lia.
  - replace i with (m * 1 + (i - m)) at 1 by lia. rewrite <- (lane_half w m) by lia. rewrite !lane_set_lane by lia. apply Hx. lia.
Qed.

Lemma lane_vget_low w m i x : 0 < w -> w * m = 64 -> 0 <= i < m -> lane w i (vget_low x) = lane w i x.
Proof. intros. unfold vget_low. rewrite (lane_half w m) by lia. f_equal. lia. Qed.
Lemma lane_vget_high w m i x : 0 < w -> w * m = 64 -> 0 <= i < m -> lane w i (vget_high x) = lane w (m + i) x.
Proof. intros. unfold vget_high. rewrite (lane_half w m) by lia. f_equal. lia. Qed.

(** A vector given by its elements. *)
Lemma build_eq w `{LaneWidth w} x f :
  in_range 128 x -> (forall i, 0 <= i < Z.of_nat (nlanes w) -> lane w i x = wrap w (f i)) -> x = build w (nlanes w) f.
Proof.
  intros Hx Hf. apply (lane128_ext (w:=w)); [exact Hx|apply build128_range|]. intros i Hi.
  rewrite Hf, lane_build; auto using width_pos.
Qed.
Lemma vec_zero w `{LaneWidth w} x :
  in_range 128 x -> (x = 0 <-> forall i, 0 <= i < Z.of_nat (nlanes w) -> lane w i x = 0).
Proof.
  intros Hx. split; [intros -> i _; apply lane_zero, width_nonneg|]. intros Hz.
  apply (lane128_ext (w:=w)); [exact Hx|apply zero_range; lia|]. intros i Hi. rewrite Hz, lane_zero; auto using width_nonneg.
Qed.

(** Shift counts: only the low byte matters, and the masks below cut the counts to it. *)
Lemma sint8_wrap w x : 8 <= w -> sint 8 (wrap w x) = sint 8 x.
Proof.
  intros Hw. rewrite <- (sint_wrap 8 (wrap w x)), <- (sint_wrap 8 x) by lia. f_equal. unfold wrap.
  apply Z.bits_inj'. intros k Hk. rewrite <- !Z.land_ones, !Z.land_spec by lia.
  destruct (Z.ltb_spec k 8); [rewrite !Z.ones_spec_low by lia; btauto|rewrite !(Z.ones_spec_high 8) by lia; btauto].
Qed.
Lemma shift_by_pos w x n : 8 <= w -> 0 <= n < 128 -> shift_by x (wrap w n) = Z.shiftl x n.
Proof. intros Hw Hn. unfold shift_by. rewrite sint8_wrap, sint_small by lia. reflexivity. Qed.
Lemma shift_by_neg w x n : 8 <= w -> 0 <= n <= 128 -> shift_by x (wrap w (- n)) = Z.shiftr x n.
Proof. intros Hw Hn. unfold shift_by. rewrite sint8_wrap, sint_small by lia. apply Z.shiftl_opp_r. Qed.

Section ConstantShifts.
Context (w : Z) `{HW : LaneWidth w} (H8 : 8 <= w) (a i n : Z) (Hi : 0 <= i < Z.of_nat (nlanes w)) (Hn : 0 <= n < 64).

Lemma lane_shr_n : lane w i (vshlq_u w a (vdupq_n w (0 - n))) = Z.shiftr (lane w i a) n.
Proof.
  unfold vshlq_u, vdupq_n. rewrite lane_map2, lane_splat, Z.sub_0_l, shift_by_neg by (exact Hi || lia).
  apply wrap_small, shiftr_range; auto with range.
Qed.
Lemma lane_sar_n : lane w i (vshlq_s w a (vdupq_n w (0 - n))) = wrap w (Z.shiftr (slane w i a) n).
Proof. unfold vshlq_s, vdupq_n. rewrite lane_map2, lane_splat, Z.sub_0_l, shift_by_neg by (exact Hi || lia). reflexivity. Qed.
Lemma lane_shl_n : lane w i (vshlq_s w a (vdupq_n w n)) = wrap w (Z.shiftl (lane w i a) n).
Proof.
  unfold vshlq_s, vdupq_n. rewrite lane_map2, lane_splat, shift_by_pos by (exact Hi || lia).
  rewrite !Z.shiftl_mul_pow2 by lia. rewrite <- (wrap_mul_l w (sint w _)), wrap_sint, wrap_mul_l by lia. reflexivity.
Qed.
End ConstantShifts.

(** A register of two narrowed halves. *)
Lemma vcombine_build w m f g `{LaneWidth w} :
  w * m = 64 -> dlanes w = Z.to_nat m -> 0 <= m ->
  vcombine (build w (dlanes w) f) (build w (dlanes w) g) = build w (nlanes w) (fun i => if i <? m then f i else g (i - m)).
Proof.
  intros Hm Hd Hm0. pose proof (width_pos (w:=w)). destruct (lane_width (w:=w)) as [_ Hn].
  assert (Z.of_nat (nlanes w) = 2 * m) as Hn' by nia.
  apply (build_eq w); [apply from64_range|]. intros i Hi. rewrite (lane_vcombine w m) by lia.
  destruct (Z.ltb_spec i m); apply lane_build; rewrite ?Hd; lia.
Qed.

(** ** Clamping *)

Lemma wrap_inj w x y : wrap w x = wrap w y -> - 2 ^ w < x - y < 2 ^ w -> x = y.
Proof.
  unfold wrap. intros E Hb.
  assert ((x - y) mod 2 ^ w = 0) as Ed by (rewrite Zminus_mod, E, Z.sub_diag; apply Z.mod_0_l; lia).
  apply Z.mod_divide in Ed; [|lia]. destruct Ed as [k Ek]. assert (-1 < k < 1) by nia. nia.
Qed.

Lemma ssat_range w x : 1 <= w -> - 2 ^ (w - 1) <= ssat w x <= 2 ^ (w - 1) - 1.
Proof. intros Hw. unfold ssat. pose proof (pow2_pos (w - 1) ltac:(lia)). lia. Qed.
Lemma usat_range w x : 0 <= w -> 0 <= usat w x <= 2 ^ w - 1.
Proof. intros Hw. unfold usat. pose proof (pow2_pos w Hw). lia. Qed.
Lemma ssat_fits w x : 1 <= w -> (ssat w x = x <-> - 2 ^ (w - 1) <= x < 2 ^ (w - 1)).
Proof. intros Hw. unfold ssat. pose proof (pow2_pos (w - 1) ltac:(lia)). lia. Qed.
Lemma usat_fits w x : 0 <= w -> (usat w x = x <-> 0 <= x < 2 ^ w).
Proof. intros Hw. unfold usat. pose proof (pow2_pos w Hw). lia. Qed.
Lemma wrap_ssat_eq w x :
  1 <= w -> - 2 ^ w <= x < 2 ^ w -> wrap w (ssat w x) = wrap w x -> ssat w x = x.
Proof.
  intros Hw Hx E. apply (wrap_inj w); [exact E|]. pose proof (pow2_pos (w - 1) ltac:(lia)).
  assert (2 ^ w = 2 * 2 ^ (w - 1)) by (rewrite <- Z.pow_succ_r by lia; f_equal; lia). unfold ssat. lia.
Qed.
Lemma wrap_usat_eq w x : 0 <= w -> - 2 ^ w < x < 2 * 2 ^ w - 1 -> wrap w (usat w x) = wrap w x -> usat w x = x.
Proof. intros Hw Hx E. apply (wrap_inj w); [exact E|]. pose proof (pow2_pos w Hw). unfold usat. lia. Qed.

Lemma slane_range w i x : 1 <= w -> - 2 ^ (w - 1) <= slane w i x < 2 ^ (w - 1).
Proof. intros. apply sint_range. lia. Qed.
Lemma wrap_slane w i x : 0 < w -> wrap w (slane w i x) = lane w i x.
Proof. intros. unfold slane. rewrite wrap_sint by lia. apply lane_wrap. lia. Qed.

(** ** Tests of a whole register *)

Lemma wrap_ssat_const w c x :
  8 <= w -> - 1 <= c <= 0 -> wrap w (ssat w x) = wrap w c <-> x = c.
Proof.
  intros Hw Hc. pose proof (ssat_range w x ltac:(lia)).
  assert (2 ^ w = 2 * 2 ^ (w - 1)) by (rewrite <- Z.pow_succ_r by lia; f_equal; lia).
  assert (2 ^ 7 <= 2 ^ (w - 1)) as H7 by (apply Z.pow_le_mono_r; lia). change (2 ^ 7) with 128 in H7. split.
  - intros E. apply wrap_inj in E; [|lia]. unfold ssat in *. lia.
  - intros ->. f_equal. apply ssat_fits; lia.
Qed.
Lemma lane_const w c i `{LaneWidth w} :
  - 1 <= c <= 0 -> 0 <= i < Z.of_nat (nlanes w) -> lane w i (wrap 128 c) = wrap w c.
Proof.
  intros Hc Hi. pose proof (width_pos (w:=w)). destruct (lane_width (w:=w)) as [_ Hn]. apply Z.bits_inj_iff'. intros k Hk.
  unfold lane. rewrite !testbit_wrap, Z.shiftr_spec, testbit_wrap by nia.
  assert (c = -1 \/ c = 0) as [-> | ->] by lia; rewrite ?Z.bits_m1, ?Z.bits_0 by nia; [|rewrite !andb_false_r; reflexivity].
  destruct (Z.ltb_spec k w); cbn; [|reflexivity]. destruct (Z.ltb_spec (k + w * i) 128); [reflexivity|nia].
Qed.
Lemma narrow_const c x : - 1 <= c <= 0 -> in_range 128 x -> sint 64 (vqmovn_s 16 x) = c <-> x = wrap 128 c.
Proof.
  intros Hc Hx. transitivity (vqmovn_s 16 x = wrap 64 c).
  - split; [intros <-; rewrite wrap_sint by lia; symmetry; apply wrap_small; apply (build_range 16 4); lia|].
    intros ->. assert (c = -1 \/ c = 0) as [-> | ->] by lia; reflexivity.
  - split; intros E.
    + apply (lane128_ext (w:=32)); [exact Hx|apply wrap128_range|]. intros i Hi. rewrite (lane_const 32) by (exact Hc || exact Hi || typeclasses eauto).
      change (Z.of_nat (nlanes 32)) with 4 in Hi. apply (f_equal (lane 16 i)) in E. unfold vqmovn_s in E.
      change (dlanes 16) with 4%nat in E. rewrite lane_build in E by lia.
      assert (lane 16 i (wrap 64 c) = wrap 16 c) as E' by
        (assert (c = -1 \/ c = 0) as [-> | ->] by lia; assert (i = 0 \/ i = 1 \/ i = 2 \/ i = 3) as [-> |[-> |[-> | ->]]] by lia; reflexivity).
      rewrite E' in E. apply wrap_ssat_const in E; [|lia|lia]. rewrite <- E. symmetry. apply wrap_slane. lia.
    + subst x. assert (c = -1 \/ c = 0) as [-> | ->] by lia; reflexivity.
Qed.
Lemma testz_zero x : in_range 128 x -> gv_testz x = (x =? 0).
Proof. intros Hx. unfold gv_testz. apply Bool.eq_iff_eq_true. rewrite !Z.eqb_eq. apply (narrow_const 0); [lia|exact Hx]. Qed.
Lemma testall0_zero x : in_range 128 x -> gv_testall0 x = (x =? 0).
Proof. exact (testz_zero x). Qed.
Lemma testall1_ones x : in_range 128 x -> gv_testall1 x = (x =? 2 ^ 128 - 1).
Proof. intros Hx. unfold gv_testall1. apply Bool.eq_iff_eq_true. rewrite !Z.eqb_eq. apply (narrow_const (-1)); [lia|exact Hx]. Qed.
