(* ===== verification/PpuVec.v ===== *)
(** * AltiVec integer handlers of the PPU interpreter (Emu/Cell/PPUInterpreter.cpp)

    One definition per handler, of the same name, on the vector operations of util/simd.hpp
    (file Neon).  [ppu.sat] collects the bits that saturation changed; VSCR's SAT reads as
    whether any is set. *)

From Stdlib Require Import ZArith Lia Bool.
From stdpp Require Import base numbers list gmap.
From S2P Require Import Prelude V128 Bytes GuestMem BitField PpuOpcodes PpuThread Neon.
Import ppu_opcode_t.

Module Vec.

Section Handlers.
Context (cfg : ppu_config).

(** The forms [exec(d, a, b)] and [exec(d, a, b, c)]. *)
Definition form_ab (f : Z -> Z -> Z) (op : Z) (s : ppu_thread) : ppu_thread :=
  set_vr (vd op) (f (get_vr s (va op)) (get_vr s (vb op))) s.
Definition form_abc (f : Z -> Z -> Z -> Z) (op : Z) (s : ppu_thread) : ppu_thread :=
  set_vr (vd op) (f (get_vr s (va op)) (get_vr s (vb op)) (get_vr s (vc op))) s.
Definition form_b (f : Z -> Z) (op : Z) (s : ppu_thread) : ppu_thread := set_vr (vd op) (f (get_vr s (vb op))) s.

(** [sat = gv_or32(v, sat)] when the setting is on. *)
Definition add_sat (v : Z) (s : ppu_thread) : ppu_thread := if set_sat cfg then with_sat (gv_or32 v (sat s)) s else s.

(** ** VSCR *)

Definition MFVSCR (op : Z) (s : ppu_thread) : ppu_thread :=
  let sat_bit := if set_sat cfg then Z.b2z (negb (gv_testz (sat s))) else 0 in
  set_vr (vd op) (from64 (Z.lor sat_bit (Z.shiftl (Z.b2z (nj s)) 16)) 0) s.

Definition MTVSCR (op : Z) (s : ppu_thread) : ppu_thread :=
  let vscr := lane 32 0 (get_vr s (vb op)) in
  let s := if set_sat cfg then with_sat (Z.land vscr 1) s else s in
  let s := if use_nj cfg || fix_nj cfg
           then with_jm_mask (if negb (Z.land vscr 0x10000 =? 0) then 0x7f800000 else 0x7fffffff) s else s in
  with_nj (negb (Z.land vscr 0x10000 =? 0)) s.

(** ** Addition and subtraction *)

Definition VADDCUW := form_ab (fun a b => gv_sub32 (gv_geu32 (gv_not32 a) b) (gv_bcst32 (-1))).
Definition VADDUBM := form_ab gv_add8.
Definition VADDUHM := form_ab gv_add16.
Definition VADDUWM := form_ab gv_add32.
Definition VSUBCUW := form_ab (fun a b => gv_shr32 (gv_geu32 a b) 31).
Definition VSUBUBM := form_ab gv_sub8.
Definition VSUBUHM := form_ab gv_sub16.
Definition VSUBUWM := form_ab gv_sub32.

(** The saturating result [r], compared with the modular one [m]. *)
Definition saturating (r m : Z -> Z -> Z) (op : Z) (s : ppu_thread) : ppu_thread :=
  let a := get_vr s (va op) in
  let b := get_vr s (vb op) in
  set_vr (vd op) (r a b) (add_sat (gv_xor32 (m a b) (r a b)) s).

Definition VADDSBS := saturating gv_adds_s8 gv_add8.
Definition VADDSHS := saturating gv_adds_s16 gv_add16.
Definition VADDSWS := saturating gv_adds_s32 gv_add32.
Definition VADDUBS := saturating gv_addus_u8 gv_add8.
Definition VADDUHS := saturating gv_addus_u16 gv_add16.
Definition VADDUWS := saturating gv_addus_u32 gv_add32.
Definition VSUBSBS := saturating gv_subs_s8 gv_sub8.
Definition VSUBSHS := saturating gv_subs_s16 gv_sub16.
Definition VSUBSWS := saturating gv_subs_s32 gv_sub32.
Definition VSUBUBS := saturating gv_subus_u8 gv_sub8.
Definition VSUBUHS := saturating gv_subus_u16 gv_sub16.
Definition VSUBUWS := saturating gv_subus_u32 gv_sub32.

(** ** Logic, average, extremes *)

Definition VAND := form_ab gv_andfs.
Definition VANDC := form_ab (fun a b => gv_andnfs b a).
Definition VNOR := form_ab (fun a b => gv_notfs (gv_orfs a b)).
Definition VOR := form_ab gv_orfs.
Definition VXOR := form_ab gv_xorfs.
Definition VSEL := form_abc (fun a b c => let x := gv_andfs b c in gv_orfs x (gv_andnfs c a)).

Definition VAVGSB := form_ab gv_avgs8.
Definition VAVGSH := form_ab gv_avgs16.
Definition VAVGSW := form_ab gv_avgs32.
Definition VAVGUB := form_ab gv_avgu8.
Definition VAVGUH := form_ab gv_avgu16.
Definition VAVGUW := form_ab gv_avgu32.
Definition VMAXSB := form_ab gv_maxs8.
Definition VMAXSH := form_ab gv_maxs16.
Definition VMAXSW := form_ab gv_maxs32.
Definition VMAXUB := form_ab gv_maxu8.
Definition VMAXUH := form_ab gv_maxu16.
Definition VMAXUW := form_ab gv_maxu32.
Definition VMINSB := form_ab gv_mins8.
Definition VMINSH := form_ab gv_mins16.
Definition VMINSW := form_ab gv_mins32.
Definition VMINUB := form_ab gv_minu8.
Definition VMINUH := form_ab gv_minu16.
Definition VMINUW := form_ab gv_minu32.

(** ** Comparison; the form with the record bit sets CR6. *)

Definition compare (g : Z -> Z -> Z) (f : fn) (op : Z) (s : ppu_thread) : ppu_thread :=
  let r := g (get_vr s (va op)) (get_vr s (vb op)) in
  let s := if has_oe f then ppu_cr_set cfg 6 (gv_testall1 r) false (gv_testall0 r) false s else s in
  set_vr (vd op) r s.

Definition VCMPEQUB := compare gv_eq8.
Definition VCMPEQUH := compare gv_eq16.
Definition VCMPEQUW := compare gv_eq32.
Definition VCMPGTSB := compare gv_gts8.
Definition VCMPGTSH := compare gv_gts16.
Definition VCMPGTSW := compare gv_gts32.
Definition VCMPGTUB := compare gv_gtu8.
Definition VCMPGTUH := compare gv_gtu16.
Definition VCMPGTUW := compare gv_gtu32.

(** ** Multiplication *)

(** The end of the two high multiply-adds: [m] is the saturated product. *)
Definition high_muladd (m : Z) (op : Z) (s : ppu_thread) : ppu_thread :=
  let a := get_vr s (va op) in
  let b := get_vr s (vb op) in
  let c := get_vr s (vc op) in
  let f := gv_gts16 (gv_bcst16 0) c in
  let x := gv_eq16 (gv_maxs16 a b) (gv_bcst16 0x8000) in
  let r := gv_sub16 (gv_adds_s16 m c) (gv_and32 x f) in
  let t := gv_add16 m c in
  set_vr (vd op) r (add_sat (gv_or32 (gv_andn32 f x) (gv_andn32 x (gv_xor32 t r))) s).
Definition VMHADDSHS (op : Z) (s : ppu_thread) : ppu_thread :=
  high_muladd (gv_muls_hds16 (get_vr s (va op)) (get_vr s (vb op))) op s.
Definition VMHRADDSHS (op : Z) (s : ppu_thread) : ppu_thread :=
  if negb (set_sat cfg) then form_abc gv_rmuladds_hds16 op s
  else high_muladd (gv_rmuls_hds16 (get_vr s (va op)) (get_vr s (vb op))) op s.
Definition VMLADDUHM := form_abc gv_muladd16.

Definition VMSUMMBM := form_abc (fun a b c => gv_dotu8s8x4 b a c).
Definition VMSUMUBM := form_abc gv_dotu8x4.
Definition VMSUMSHM := form_abc gv_dots16x2_acc.
Definition VMSUMUHM := form_abc (fun a b c => gv_add32 c (gv_dotu16x2 a b)).
Definition VMSUMSHS (op : Z) (s : ppu_thread) : ppu_thread :=
  let a := get_vr s (va op) in
  let b := get_vr s (vb op) in
  let c := get_vr s (vc op) in
  let r := gv_dots_s16x2 a b c in
  let t := gv_dots16x2_acc a b c in
  set_vr (vd op) r (add_sat (gv_xor32 t r) s).
Definition VMSUMUHS (op : Z) (s : ppu_thread) : ppu_thread :=
  let a := get_vr s (va op) in
  let b := get_vr s (vb op) in
  let c := get_vr s (vc op) in
  let m1 := gv_mul_even_u16 a b in
  let m2 := gv_mul_odds_u16 a b in
  let s1 := gv_add32 m1 m2 in
  let x1 := gv_gtu32 m1 s1 in
  let s2 := gv_or32 (gv_add32 s1 c) x1 in
  let x2 := gv_gtu32 s1 s2 in
  set_vr (vd op) (gv_or32 s2 x2) (add_sat (gv_or32 x1 x2) s).

Definition VMULESB := form_ab (fun a b => gv_mul16 (gv_sar16 a 8) (gv_sar16 b 8)).
Definition VMULESH := form_ab gv_mul_odds_s16.
Definition VMULEUB := form_ab (fun a b => gv_mul16 (gv_shr16 a 8) (gv_shr16 b 8)).
Definition VMULEUH := form_ab gv_mul_odds_u16.
Definition VMULOSB := form_ab (fun a b => gv_mul16 (gv_sar16 (gv_shl16 a 8) 8) (gv_sar16 (gv_shl16 b 8) 8)).
Definition VMULOSH := form_ab gv_mul_even_s16.
Definition VMULOUB := form_ab (fun a b =>
  let mask := gv_bcst16 0x00ff in gv_mul16 (gv_and32 a mask) (gv_and32 b mask)).
Definition VMULOUH := form_ab gv_mul_even_u16.

(** ** Sums across *)

Definition VSUMSWS (op : Z) (s : ppu_thread) : ppu_thread :=
  let a := get_vr s (va op) in
  let b := get_vr s (vb op) in
  let sum := slane 32 0 b + slane 32 0 a + slane 32 1 a + slane 32 2 a + slane 32 3 a in
  let mark s := if set_sat cfg then with_sat (set_lane 8 0 1 (sat s)) s else s in
  if 2 ^ 31 - 1 <? sum then set_vr (vd op) (u32 (2 ^ 31 - 1)) (mark s)
  else if sum <? - 2 ^ 31 then set_vr (vd op) (u32 (- 2 ^ 31)) (mark s)
  else set_vr (vd op) (u32 sum) s.
Definition VSUM2SWS (op : Z) (s : ppu_thread) : ppu_thread :=
  let a := get_vr s (va op) in
  let b := get_vr s (vb op) in
  let x := vaddl_s 32 (vget_low (vuzp1q 32 a a)) (vget_low (vuzp2q 32 a a)) in
  let y := vaddw_s 32 x (vget_low (vuzp1q 32 b b)) in
  let r := vmovl_u 32 (vqmovn_s 32 y) in
  set_vr (vd op) r (add_sat (gv_shr64 (gv_add64 y (gv_bcst64 0x80000000)) 32) s).
Definition VSUM4SBS := saturating (fun a b => gv_dots_u8s8x4 (gv_bcst8 1) a b) gv_hadds8x4.
Definition VSUM4SHS := saturating (fun a b => gv_dots_s16x2 a (gv_bcst16 1) b) gv_hadds16x2.
Definition VSUM4UBS := saturating (fun a b => gv_addus_u32 (gv_haddu8x4 a) b) (fun a b => gv_add32 (gv_haddu8x4 a) b).

(** ** Merge, pack, unpack, splat, permute *)

Definition VMRGHB := form_ab (fun a b => gv_unpackhi8 b a).
Definition VMRGHH := form_ab (fun a b => gv_unpackhi16 b a).
Definition VMRGHW := form_ab (fun a b => gv_unpackhi32 b a).
Definition VMRGLB := form_ab (fun a b => gv_unpacklo8 b a).
Definition VMRGLH := form_ab (fun a b => gv_unpacklo16 b a).
Definition VMRGLW := form_ab (fun a b => gv_unpacklo32 b a).

Definition VPERM := form_abc (fun a b c => vqtbl2q b a (vbicq (vdupq_n 8 0x1f) c)).

Definition VPKPX := form_ab (fun a b =>
  let a1 := gv_sar32 (gv_shl32 a 7) (7 + 9) in
  let b1 := gv_sar32 (gv_shl32 b 7) (7 + 9) in
  let a2 := gv_sar32 (gv_shl32 a 16) (16 + 3) in
  let b2 := gv_sar32 (gv_shl32 b 16) (16 + 3) in
  let p1 := gv_packss_s32 b1 a1 in
  let p2 := gv_packss_s32 b2 a2 in
  gv_or32 (gv_or32 (gv_and32 p1 (gv_bcst16 0xfc00)) (gv_shl16 (gv_and32 p1 (gv_bcst16 0x7c)) 3)) (gv_and32 p2 (gv_bcst16 0x1f))).

(** A packing [p] of [b] and [a]; [lost a b] has the bits that do not fit. *)
Definition packing (lost p : Z -> Z -> Z) (op : Z) (s : ppu_thread) : ppu_thread :=
  let a := get_vr s (va op) in
  let b := get_vr s (vb op) in
  set_vr (vd op) (p b a) (add_sat (lost a b) s).

Definition VPKSHSS := packing (fun a b => gv_shr16 (Z.lor (gv_add16 a (gv_bcst16 0x80)) (gv_add16 b (gv_bcst16 0x80))) 8) gv_packss_s16.
Definition VPKSHUS := packing (fun a b => gv_shr16 (Z.lor a b) 8) gv_packus_s16.
Definition VPKSWSS := packing (fun a b => gv_shr32 (Z.lor (gv_add32 a (gv_bcst32 0x8000)) (gv_add32 b (gv_bcst32 0x8000))) 16) gv_packss_s32.
Definition VPKSWUS := packing (fun a b => gv_shr32 (Z.lor a b) 16) gv_packus_s32.
Definition VPKUHUS := packing (fun a b => gv_shr16 (Z.lor a b) 8) gv_packus_u16.
Definition VPKUWUS := packing (fun a b => gv_shr32 (Z.lor a b) 16) gv_packus_u32.
Definition VPKUHUM := form_ab (fun a b => gv_packtu16 b a).
Definition VPKUWUM := form_ab (fun a b => gv_packtu32 b a).

Definition unpack_pixel (x : Z) : Z :=
  let y := gv_or32 (gv_and32 (gv_shl32 x 6) (gv_bcst32 0x1f0000)) (gv_and32 (gv_shl32 x 3) (gv_bcst32 0x1f00)) in
  gv_or32 y (gv_and32 x (gv_bcst32 0xff00001f)).
Definition VUPKHPX := form_b (fun b => unpack_pixel (gv_extend_hi_s16 b)).
Definition VUPKHSB := form_b gv_extend_hi_s8.
Definition VUPKHSH := form_b gv_extend_hi_s16.
Definition VUPKLPX := form_b (fun b => unpack_pixel (gv_extend_lo_s16 b)).
Definition VUPKLSB := form_b gv_extend_lo_s8.
Definition VUPKLSH := form_b gv_extend_lo_s16.

(** [b.u8r[i]] is [b._u8[15 - i]]. *)
Definition VSPLTB (op : Z) (s : ppu_thread) : ppu_thread :=
  set_vr (vd op) (gv_bcst8 (lane 8 (15 - Z.land (vuimm op) 15) (get_vr s (vb op)))) s.
Definition VSPLTH (op : Z) (s : ppu_thread) : ppu_thread :=
  set_vr (vd op) (gv_bcst16 (lane 16 (7 - Z.land (vuimm op) 7) (get_vr s (vb op)))) s.
Definition VSPLTW (op : Z) (s : ppu_thread) : ppu_thread :=
  set_vr (vd op) (gv_bcst32 (lane 32 (3 - Z.land (vuimm op) 3) (get_vr s (vb op)))) s.
Definition VSPLTISB (op : Z) (s : ppu_thread) : ppu_thread := set_vr (vd op) (gv_bcst8 (vsimm op)) s.
Definition VSPLTISH (op : Z) (s : ppu_thread) : ppu_thread := set_vr (vd op) (gv_bcst16 (vsimm op)) s.
Definition VSPLTISW (op : Z) (s : ppu_thread) : ppu_thread := set_vr (vd op) (gv_bcst32 (vsimm op)) s.

(** ** Shifts and rotates *)

Definition VRLB := form_ab gv_rol8.
Definition VRLH := form_ab gv_rol16.
Definition VRLW := form_ab gv_rol32.
Definition VSLB := form_ab gv_shl8v.
Definition VSLH := form_ab gv_shl16v.
Definition VSLW := form_ab gv_shl32v.
Definition VSRB := form_ab gv_shr8v.
Definition VSRH := form_ab gv_shr16v.
Definition VSRW := form_ab gv_shr32v.
Definition VSRAB := form_ab gv_sar8v.
Definition VSRAH := form_ab gv_sar16v.
Definition VSRAW := form_ab gv_sar32v.
Definition VSL := form_ab (fun a b => gv_fshl8 a (gv_shuffle_left 1 a) b).
Definition VSR := form_ab (fun a b => gv_fshr8 (gv_shuffle_right 1 a) a b).
Definition VSLO := form_ab (fun a b => wrap 128 (Z.shiftl a (Z.land (lane 8 0 b) 0x78))).
Definition VSRO := form_ab (fun a b => Z.shiftr a (Z.land (lane 8 0 b) 0x78)).
(** [VSLDOI<Count>] *)
Definition VSLDOI (Count : Z) := form_ab (fun a b => gv_or32 (gv_shuffle_left Count a) (gv_shuffle_right (16 - Count) b)).

End Handlers.
End Vec.
