(* ===== verification/PpuInterp.v ===== *)
(** * The PPU interpreter (Emu/Cell/PPUInterpreter.cpp)

    One definition per handler of the fixed-point, branch, condition register, and load and
    store instructions, each from the handler's body.  A handler that only changes
    registers maps the thread to the thread; one that reads or writes memory is a [PM].
    The vector handlers that compute are in PpuVec.  Then the dispatch, [ppu_interpreter_rt::decode] and the execution of one instruction and
    of a run of them. *)

From Stdlib Require Import ZArith Lia Bool.
From stdpp Require Import base numbers list gmap.
From S2P Require Import Prelude V128 Bytes GuestMem BitField PpuOpcodes PpuThread PpuVec.
Import ppu_opcode_t.

Module Interp.

Section Handlers.
Context (cfg : ppu_config) `{PpuHost}.

(** ** Traps *)

Definition bo_has (op m : Z) : bool := negb (Z.land (bo op) m =? 0).

(** The condition of the four trap instructions on signed and unsigned operands. *)
Definition trap_condition (op a b a_ b_ : Z) : bool :=
  (bo_has op 0x10 && (a <? b)) || (bo_has op 0x8 && (b <? a)) || (bo_has op 0x4 && (a =? b))
  || (bo_has op 0x2 && (a_ <? b_)) || (bo_has op 0x1 && (b_ <? a_)).

Definition TDI (pc op : Z) (s : ppu_thread) : result :=
  let a := s64 (get s (ra op)) in
  let b := simm16 op in
  if trap_condition op a b (u64 a) (u64 b) then ppu_trap cfg pc s else Next s.

Definition TWI (pc op : Z) (s : ppu_thread) : result :=
  let a := s32 (u32 (get s (ra op))) in
  let b := simm16 op in
  if trap_condition op a b (u32 a) (u32 b) then ppu_trap cfg pc s else Next s.

Definition TD (pc op : Z) (s : ppu_thread) : result :=
  let a := s64 (get s (ra op)) in
  let b := s64 (get s (rb op)) in
  if trap_condition op a b (u64 a) (u64 b) then ppu_trap cfg pc s else Next s.

Definition TW (pc op : Z) (s : ppu_thread) : result :=
  let a := s32 (get s (ra op)) in
  let b := s32 (get s (rb op)) in
  if trap_condition op a b (u32 a) (u32 b) then ppu_trap cfg pc s else Next s.

(** ** Immediate arithmetic and comparison *)

Definition MULLI (op : Z) (s : ppu_thread) : ppu_thread :=
  set (rd op) (u64 (s64 (get s (ra op)) * simm16 op)) s.

Definition SUBFIC (op : Z) (s : ppu_thread) : ppu_thread :=
  let a := get s (ra op) in
  let r := add64_flags_c (not64 a) (u64 (simm16 op)) true in
  with_ca r.2 (set (rd op) r.1 s).

Definition CMPLI (op : Z) (s : ppu_thread) : ppu_thread :=
  if negb (l10 op =? 0)
  then ppu_cr_cmp cfg (crfd op) (get s (ra op)) (uimm16 op) s
  else ppu_cr_cmp cfg (crfd op) (u32 (get s (ra op))) (uimm16 op) s.

Definition CMPI (op : Z) (s : ppu_thread) : ppu_thread :=
  if negb (l10 op =? 0)
  then ppu_cr_cmp cfg (crfd op) (s64 (get s (ra op))) (simm16 op) s
  else ppu_cr_cmp cfg (crfd op) (s32 (u32 (get s (ra op)))) (simm16 op) s.

Definition ADDIC (op : Z) (s : ppu_thread) : ppu_thread :=
  let r := add64_flags (get s (ra op)) (u64 (simm16 op)) in
  let s := with_ca r.2 (set (rd op) r.1 s) in
  if negb (Z.land (main op) 1 =? 0) then ppu_cr_cmp cfg 0 (s64 r.1) 0 s else s.

Definition ADDI (op : Z) (s : ppu_thread) : ppu_thread :=
  set (rd op) (if negb (ra op =? 0) then u64 (get s (ra op) + simm16 op) else u64 (simm16 op)) s.

Definition ADDIS (op : Z) (s : ppu_thread) : ppu_thread :=
  set (rd op) (if negb (ra op =? 0) then u64 (get s (ra op) + simm16 op * 65536) else u64 (simm16 op * 65536)) s.

(** ** Branches and system calls *)

(** The tail of the conditional branches: [taken] has set [cia]; a branch that is not taken
    goes on, or returns when the thread has been signalled. *)
Definition branch_end (taken : bool) (link old_cia : Z) (s : ppu_thread) : result :=
  let leave s := Leave (with_exec_bytes (u64 (exec_bytes s + u32 (link - old_cia))) s) in
  if taken then leave s
  else if state s =? 0 then Next s
  else leave (with_cia link s).

(** The CTR and condition tests of [BC] and [BCLR], after the decrement. *)
Definition dec_ctr (op : Z) (s : ppu_thread) : ppu_thread :=
  with_ctr (u64 (ctr s - Z.b2z (xorb (bo_has op 0x04) true))) s.
Definition ctr_ok (op : Z) (s : ppu_thread) : bool :=
  bo_has op 0x04 || xorb (negb (ctr s =? 0)) (bo_has op 0x02).
Definition cond_ok (op : Z) (s : ppu_thread) : bool :=
  bo_has op 0x10 || xorb (negb (cr_bit s (bi op) =? 0)) (xorb (bo_has op 0x08) true).

Definition BC (pc op : Z) (s : ppu_thread) : result :=
  let s := dec_ctr op s in
  let link := u32 (pc + 4) in
  let s := if negb (lk op =? 0) then with_lr link s else s in
  let old_cia := cia s in
  if ctr_ok op s && cond_ok op s then
    let s := with_cia pc s in
    let s := ppu_record_call cfg (cia s) op false s in
    branch_end true link old_cia (with_cia (u32 ((if negb (aa op =? 0) then 0 else cia s) + bt14 op)) s)
  else branch_end false link old_cia s.

Definition SC (pc op : Z) (s : ppu_thread) : result :=
  let old_cia := cia s in
  let s := with_cia pc s in
  let s := with_exec_bytes (u64 (exec_bytes s + u32 (cia s - old_cia))) s in
  if negb (op =? ppu_instructions.SC 0) then PThrow
  else ppu_execute_syscall (get s 11) s.

Definition B (pc op : Z) (s : ppu_thread) : result :=
  let old_cia := cia s in
  let s := with_cia pc s in
  let link := u32 (cia s + 4) in
  let s := ppu_record_call cfg (cia s) op false s in
  let s := with_cia (u32 ((if negb (aa op =? 0) then 0 else cia s) + bt24 op)) s in
  let s := if negb (lk op =? 0) then with_lr link s else s in
  Leave (with_exec_bytes (u64 (exec_bytes s + u32 (link - old_cia))) s).

Definition BCLR (pc op : Z) (s : ppu_thread) : result :=
  let s := dec_ctr op s in
  let ok := ctr_ok op s && cond_ok op s in
  let target := Z.land (u32 (lr s)) 0xfffffffc in
  let link := u32 (pc + 4) in
  let s := if negb (lk op =? 0) then with_lr link s else s in
  let old_cia := cia s in
  if ok then branch_end true link old_cia (with_cia target (ppu_record_call cfg target op true s))
  else branch_end false link old_cia s.

Definition BCCTR (pc op : Z) (s : ppu_thread) : result :=
  let link := u32 (pc + 4) in
  let s := if negb (lk op =? 0) then with_lr link s else s in
  let old_cia := cia s in
  if bo_has op 0x10 || (cr_bit s (bi op) =? Z.b2z (bo_has op 0x8)) then
    let target := Z.land (u32 (ctr s)) 0xfffffffc in
    branch_end true link old_cia (with_cia target (ppu_record_call cfg target op true s))
  else branch_end false link old_cia s.

(** ** Condition register *)

Definition MCRF (op : Z) (s : ppu_thread) : ppu_thread := set_cr_field (crfd op) (cr_field s (crfs op)) s.
Definition CRNOR (op : Z) (s : ppu_thread) : ppu_thread :=
  set_cr_bit (crbd op) (Z.lxor (Z.lor (cr_bit s (crba op)) (cr_bit s (crbb op))) 1) s.
Definition CRANDC (op : Z) (s : ppu_thread) : ppu_thread :=
  set_cr_bit (crbd op) (Z.land (cr_bit s (crba op)) (Z.lxor (cr_bit s (crbb op)) 1)) s.
Definition CRXOR (op : Z) (s : ppu_thread) : ppu_thread :=
  set_cr_bit (crbd op) (Z.lxor (cr_bit s (crba op)) (cr_bit s (crbb op))) s.
Definition CRNAND (op : Z) (s : ppu_thread) : ppu_thread :=
  set_cr_bit (crbd op) (Z.lxor (Z.land (cr_bit s (crba op)) (cr_bit s (crbb op))) 1) s.
Definition CRAND (op : Z) (s : ppu_thread) : ppu_thread :=
  set_cr_bit (crbd op) (Z.land (cr_bit s (crba op)) (cr_bit s (crbb op))) s.
Definition CREQV (op : Z) (s : ppu_thread) : ppu_thread :=
  set_cr_bit (crbd op) (Z.lxor (Z.lxor (cr_bit s (crba op)) (cr_bit s (crbb op))) 1) s.
Definition CRORC (op : Z) (s : ppu_thread) : ppu_thread :=
  set_cr_bit (crbd op) (Z.lor (cr_bit s (crba op)) (Z.lxor (cr_bit s (crbb op)) 1)) s.
Definition CROR (op : Z) (s : ppu_thread) : ppu_thread :=
  set_cr_bit (crbd op) (Z.lor (cr_bit s (crba op)) (cr_bit s (crbb op))) s.
Definition ISYNC (op : Z) (s : ppu_thread) : ppu_thread := s.

(** [MFOCRF<N>] *)
Definition MFOCRF (N op : Z) (s : ppu_thread) : ppu_thread :=
  let p := N * 4 in
  let v := Z.lor (Z.lor (Z.lor (Z.shiftl (cr_bit s (p + 0)) 3) (Z.shiftl (cr_bit s (p + 1)) 2))
                        (Z.shiftl (cr_bit s (p + 2)) 1)) (Z.shiftl (cr_bit s (p + 3)) 0) in
  set (rd op) (u32 (Z.shiftl v (Z.lxor p 0x1c))) s.

Definition MFCR (op : Z) (s : ppu_thread) : ppu_thread := set (rd op) (pack (cr s)) s.

(** [s_table[v]]: the bits of a 4-bit number. *)
Definition s_table (v : Z) : list Z :=
  [Z.b2z (Z.testbit v 3); Z.b2z (Z.testbit v 2); Z.b2z (Z.testbit v 1); Z.b2z (Z.testbit v 0)].

Definition MTOCRF (op : Z) (s : ppu_thread) : ppu_thread :=
  let v := get s (rs op) in
  if negb (l11 op =? 0) then
    let n := Z.land (countl_zero 32 (crm op)) 7 in
    set_cr_field n (s_table (Z.land (Z.shiftr v (Z.lxor (n * 4) 0x1c)) 0xf)) s
  else
    for_up 8 (fun i s =>
      if negb (Z.land (crm op) (Z.shiftr 128 i) =? 0)
      then set_cr_field i (s_table (Z.land (Z.shiftr v (Z.lxor (i * 4) 0x1c)) 0xf)) s else s) s.

(** ** Rotates *)

Definition RLWIMI (f : fn) (op : Z) (s : ppu_thread) : ppu_thread :=
  let mask := ppu_rotate_mask (32 + mb32 op) (32 + me32 op) in
  let v := Z.lor (Z.land (get s (ra op)) (not64 mask))
             (Z.land (dup32 (rotl 32 (u32 (get s (rs op))) (sh32 op))) mask) in
  record cfg f v (set (ra op) v s).

Definition RLWINM (f : fn) (op : Z) (s : ppu_thread) : ppu_thread :=
  let v := Z.land (dup32 (rotl 32 (u32 (get s (rs op))) (sh32 op))) (ppu_rotate_mask (32 + mb32 op) (32 + me32 op)) in
  record cfg f v (set (ra op) v s).

Definition RLWNM (f : fn) (op : Z) (s : ppu_thread) : ppu_thread :=
  let v := Z.land (dup32 (rotl 32 (u32 (get s (rs op))) (Z.land (get s (rb op)) 0x1f)))
             (ppu_rotate_mask (32 + mb32 op) (32 + me32 op)) in
  record cfg f v (set (ra op) v s).

Definition RLDICL (f : fn) (op : Z) (s : ppu_thread) : ppu_thread :=
  let v := Z.land (rotl 64 (get s (rs op)) (sh64 op)) (Z.shiftr (Z.ones 64) (mbe64 op)) in
  record cfg f v (set (ra op) v s).

Definition RLDICR (f : fn) (op : Z) (s : ppu_thread) : ppu_thread :=
  let v := Z.land (rotl 64 (get s (rs op)) (sh64 op)) (u64 (Z.shiftl (Z.ones 64) (Z.lxor (mbe64 op) 63))) in
  record cfg f v (set (ra op) v s).

Definition RLDIC (f : fn) (op : Z) (s : ppu_thread) : ppu_thread :=
  let v := Z.land (rotl 64 (get s (rs op)) (sh64 op)) (ppu_rotate_mask (mbe64 op) (Z.lxor (sh64 op) 63)) in
  record cfg f v (set (ra op) v s).

Definition RLDIMI (f : fn) (op : Z) (s : ppu_thread) : ppu_thread :=
  let mask := ppu_rotate_mask (mbe64 op) (Z.lxor (sh64 op) 63) in
  let v := Z.lor (Z.land (get s (ra op)) (not64 mask)) (Z.land (rotl 64 (get s (rs op)) (sh64 op)) mask) in
  record cfg f v (set (ra op) v s).

Definition RLDCL (f : fn) (op : Z) (s : ppu_thread) : ppu_thread :=
  let v := Z.land (rotl 64 (get s (rs op)) (Z.land (get s (rb op)) 0x3f)) (Z.shiftr (Z.ones 64) (mbe64 op)) in
  record cfg f v (set (ra op) v s).

Definition RLDCR (f : fn) (op : Z) (s : ppu_thread) : ppu_thread :=
  let v := Z.land (rotl 64 (get s (rs op)) (Z.land (get s (rb op)) 0x3f))
             (u64 (Z.shiftl (Z.ones 64) (Z.lxor (mbe64 op) 63))) in
  record cfg f v (set (ra op) v s).

(** ** Logic *)

Definition ORI (op : Z) (s : ppu_thread) : ppu_thread := set (ra op) (Z.lor (get s (rs op)) (uimm16 op)) s.
Definition ORIS (op : Z) (s : ppu_thread) : ppu_thread :=
  set (ra op) (Z.lor (get s (rs op)) (Z.shiftl (uimm16 op) 16)) s.
Definition XORI (op : Z) (s : ppu_thread) : ppu_thread := set (ra op) (Z.lxor (get s (rs op)) (uimm16 op)) s.
Definition XORIS (op : Z) (s : ppu_thread) : ppu_thread :=
  set (ra op) (Z.lxor (get s (rs op)) (Z.shiftl (uimm16 op) 16)) s.
Definition ANDI (op : Z) (s : ppu_thread) : ppu_thread :=
  let v := Z.land (get s (rs op)) (uimm16 op) in ppu_cr_cmp cfg 0 (s64 v) 0 (set (ra op) v s).
Definition ANDIS (op : Z) (s : ppu_thread) : ppu_thread :=
  let v := Z.land (get s (rs op)) (Z.shiftl (uimm16 op) 16) in ppu_cr_cmp cfg 0 (s64 v) 0 (set (ra op) v s).

(** Two registers to one, with the record form. *)
Definition logic (v : Z -> Z -> Z) (f : fn) (op : Z) (s : ppu_thread) : ppu_thread :=
  let r := v (get s (rs op)) (get s (rb op)) in record cfg f r (set (ra op) r s).
Definition AND := logic Z.land.
Definition ANDC := logic (fun a b => Z.land a (not64 b)).
Definition NOR := logic (fun a b => not64 (Z.lor a b)).
Definition EQV := logic (fun a b => not64 (Z.lxor a b)).
Definition XOR := logic Z.lxor.
Definition ORC := logic (fun a b => Z.lor a (not64 b)).
Definition OR := logic Z.lor.
Definition NAND := logic (fun a b => not64 (Z.land a b)).

(** One register to one. *)
Definition unary (v : Z -> Z) (f : fn) (op : Z) (s : ppu_thread) : ppu_thread :=
  let r := v (get s (rs op)) in record cfg f r (set (ra op) r s).
Definition CNTLZW := unary (fun a => countl_zero 32 (u32 a)).
Definition CNTLZD := unary (countl_zero 64).
Definition EXTSB := unary (fun a => u64 (s8 a)).
Definition EXTSH := unary (fun a => u64 (s16 a)).
Definition EXTSW := unary (fun a => u64 (s32 a)).

(** ** Shifts *)

Definition SLW := logic (fun a b => u32 (u64 (Z.shiftl a (Z.land b 0x3f)))).
Definition SRW := logic (fun a b => Z.shiftr (Z.land a 0xffffffff) (Z.land b 0x3f)).
Definition SLD := logic (fun a b =>
  let n := Z.land b 0x7f in if negb (Z.land n 0x40 =? 0) then 0 else u64 (Z.shiftl a n)).
Definition SRD := logic (fun a b =>
  let n := Z.land b 0x7f in if negb (Z.land n 0x40 =? 0) then 0 else Z.shiftr a n).

Definition SRAW (f : fn) (op : Z) (s : ppu_thread) : ppu_thread :=
  let RS := s32 (get s (rs op)) in
  let shift := Z.land (get s (rb op)) 63 in
  let '(v, c) :=
    if 31 <? shift then (u64 (0 - Z.b2z (RS <? 0)), RS <? 0)
    else let v := u64 (Z.shiftr RS shift) in
         (v, (RS <? 0) && negb (u64 (Z.shiftl v shift) =? u64 RS)) in
  record cfg f v (with_ca c (set (ra op) v s)).

Definition SRAD (f : fn) (op : Z) (s : ppu_thread) : ppu_thread :=
  let RS := s64 (get s (rs op)) in
  let shift := Z.land (get s (rb op)) 127 in
  let '(v, c) :=
    if 63 <? shift then (u64 (0 - Z.b2z (RS <? 0)), RS <? 0)
    else let v := u64 (Z.shiftr RS shift) in
         (v, (RS <? 0) && negb (u64 (Z.shiftl v shift) =? u64 RS)) in
  record cfg f v (with_ca c (set (ra op) v s)).

Definition SRAWI (f : fn) (op : Z) (s : ppu_thread) : ppu_thread :=
  let RS := s32 (u32 (get s (rs op))) in
  let v := u64 (Z.shiftr RS (sh32 op)) in
  let c := (RS <? 0) && negb (u32 (u64 (Z.shiftl v (sh32 op))) =? u32 RS) in
  record cfg f v (with_ca c (set (ra op) v s)).

Definition SRADI (f : fn) (op : Z) (s : ppu_thread) : ppu_thread :=
  let sh := sh64 op in
  let RS := s64 (get s (rs op)) in
  let v := u64 (Z.shiftr RS sh) in
  let c := (RS <? 0) && negb (u64 (Z.shiftl v sh) =? u64 RS) in
  record cfg f v (with_ca c (set (ra op) v s)).

(** ** Register comparison *)

Definition CMP (op : Z) (s : ppu_thread) : ppu_thread :=
  if negb (l10 op =? 0)
  then ppu_cr_cmp cfg (crfd op) (s64 (get s (ra op))) (s64 (get s (rb op))) s
  else ppu_cr_cmp cfg (crfd op) (s32 (u32 (get s (ra op)))) (s32 (u32 (get s (rb op)))) s.

Definition CMPL (op : Z) (s : ppu_thread) : ppu_thread :=
  if negb (l10 op =? 0)
  then ppu_cr_cmp cfg (crfd op) (get s (ra op)) (get s (rb op)) s
  else ppu_cr_cmp cfg (crfd op) (u32 (get s (ra op))) (u32 (get s (rb op))) s.

(** ** Addition and subtraction *)

Definition oe_set (f : fn) (bit : bool) (s : ppu_thread) : ppu_thread := if has_oe f then ppu_ov_set bit s else s.
Definition sign (x : Z) : Z := Z.shiftr x 63.
(** [(x >> 63 == y >> 63) && (x >> 63 != r >> 63)] *)
Definition add_overflow (x y r : Z) : bool := (sign x =? sign y) && negb (sign x =? sign r).

Definition ADD (f : fn) (op : Z) (s : ppu_thread) : ppu_thread :=
  let RA := get s (ra op) in
  let RB := get s (rb op) in
  let v := u64 (RA + RB) in
  record cfg f v (oe_set f (add_overflow RA RB v) (set (rd op) v s)).

Definition SUBF (f : fn) (op : Z) (s : ppu_thread) : ppu_thread :=
  let RA := get s (ra op) in
  let RB := get s (rb op) in
  let v := u64 (RB - RA) in
  record cfg f v (oe_set f (add_overflow (not64 RA) RB v) (set (rd op) v s)).

Definition NEG (f : fn) (op : Z) (s : ppu_thread) : ppu_thread :=
  let RA := get s (ra op) in
  let v := u64 (0 - RA) in
  record cfg f v (oe_set f (RA =? Z.shiftl 1 63) (set (rd op) v s)).

(** The end of an addition with carry out. *)
Definition add_end (f : fn) (op x : Z) (sy : Z) (r : Z * bool) (s : ppu_thread) : ppu_thread :=
  let s := with_ca r.2 (set (rd op) r.1 s) in
  record cfg f r.1 (oe_set f ((sign x =? sy) && negb (sign x =? sign r.1)) s).

Definition ADDC (f : fn) (op : Z) (s : ppu_thread) : ppu_thread :=
  let RA := get s (ra op) in
  let RB := get s (rb op) in
  add_end f op RA (sign RB) (add64_flags RA RB) s.
Definition SUBFC (f : fn) (op : Z) (s : ppu_thread) : ppu_thread :=
  let RA := get s (ra op) in
  let RB := get s (rb op) in
  add_end f op (not64 RA) (sign RB) (add64_flags_c (not64 RA) RB true) s.
Definition ADDE (f : fn) (op : Z) (s : ppu_thread) : ppu_thread :=
  let RA := get s (ra op) in
  let RB := get s (rb op) in
  add_end f op RA (sign RB) (add64_flags_c RA RB (ca s)) s.
Definition SUBFE (f : fn) (op : Z) (s : ppu_thread) : ppu_thread :=
  let RA := get s (ra op) in
  let RB := get s (rb op) in
  add_end f op (not64 RA) (sign RB) (add64_flags_c (not64 RA) RB (ca s)) s.
Definition ADDZE (f : fn) (op : Z) (s : ppu_thread) : ppu_thread :=
  let RA := get s (ra op) in add_end f op RA 0 (add64_flags_c RA 0 (ca s)) s.
Definition SUBFZE (f : fn) (op : Z) (s : ppu_thread) : ppu_thread :=
  let RA := get s (ra op) in add_end f op (not64 RA) 0 (add64_flags_c (not64 RA) 0 (ca s)) s.
Definition ADDME (f : fn) (op : Z) (s : ppu_thread) : ppu_thread :=
  let RA := get s (ra op) in add_end f op RA 1 (add64_flags_c RA (Z.ones 64) (ca s)) s.
Definition SUBFME (f : fn) (op : Z) (s : ppu_thread) : ppu_thread :=
  let RA := get s (ra op) in add_end f op (not64 RA) 1 (add64_flags_c (not64 RA) (Z.ones 64) (ca s)) s.

(** ** Multiplication and division *)

(** [utils::umulh64] and [utils::mulh64] *)
Definition umulh64 (x y : Z) : Z := Z.shiftr (x * y) 64.
Definition mulh64 (x y : Z) : Z := Z.shiftr (s64 x * s64 y) 64.

(** Two registers to [rd], with the record form. *)
Definition high (v : Z -> Z -> Z) (f : fn) (op : Z) (s : ppu_thread) : ppu_thread :=
  let r := v (get s (ra op)) (get s (rb op)) in record cfg f r (set (rd op) r s).
Definition MULHDU := high umulh64.
Definition MULHD := high (fun a b => u64 (mulh64 a b)).
Definition MULHWU := high (fun a b => Z.shiftr (u32 a * u32 b) 32).
Definition MULHW := high (fun a b => u64 (Z.shiftr (s32 a * s32 b) 32)).

(** [RA * RB] on [s64] overflows for some operands, which C++ leaves undefined; the value here is
    the wrapped product that the multiply instruction of the host gives.  The same holds of MULLI. *)
Definition MULLD (f : fn) (op : Z) (s : ppu_thread) : ppu_thread :=
  let RA := s64 (get s (ra op)) in
  let RB := s64 (get s (rb op)) in
  let v := u64 (RA * RB) in
  let s := set (rd op) v s in
  let s := if negb (oe op =? 0) then ppu_ov_set (negb (mulh64 RA RB =? Z.shiftr (s64 v) 63)) s else s in
  record cfg f v s.

Definition MULLW (f : fn) (op : Z) (s : ppu_thread) : ppu_thread :=
  let v := u64 (s32 (get s (ra op)) * s32 (get s (rb op))) in
  record cfg f v (oe_set f ((s64 v <? - 2 ^ 31) || (2 ^ 31 - 1 <? s64 v)) (set (rd op) v s)).

Definition DIVDU (f : fn) (op : Z) (s : ppu_thread) : ppu_thread :=
  let RA := get s (ra op) in
  let RB := get s (rb op) in
  let v := if RB =? 0 then 0 else RA / RB in
  record cfg f v (oe_set f (RB =? 0) (set (rd op) v s)).

Definition DIVWU (f : fn) (op : Z) (s : ppu_thread) : ppu_thread :=
  let RA := u32 (get s (ra op)) in
  let RB := u32 (get s (rb op)) in
  let v := if RB =? 0 then 0 else RA / RB in
  record cfg f v (oe_set f (RB =? 0) (set (rd op) v s)).

Definition DIVD (f : fn) (op : Z) (s : ppu_thread) : ppu_thread :=
  let RA := s64 (get s (ra op)) in
  let RB := s64 (get s (rb op)) in
  let o := (RB =? 0) || ((RA =? - 2 ^ 63) && (RB =? -1)) in
  let v := if o then 0 else u64 (Z.quot RA RB) in
  record cfg f v (oe_set f o (set (rd op) v s)).

Definition DIVW (f : fn) (op : Z) (s : ppu_thread) : ppu_thread :=
  let RA := s32 (get s (ra op)) in
  let RB := s32 (get s (rb op)) in
  let o := (RB =? 0) || ((RA =? - 2 ^ 31) && (RB =? -1)) in
  let v := if o then 0 else u32 (Z.quot RA RB) in
  record cfg f v (oe_set f o (set (rd op) v s)).

(** ** Special registers *)

(** The two halves of the field are exchanged. *)
Definition spr_number (op : Z) : Z := Z.lor (Z.shiftr (spr op) 5) (Z.shiftl (Z.land (spr op) 0x1f) 5).

Definition xer_word (s : ppu_thread) : Z :=
  Z.lor (Z.lor (Z.lor (Z.shiftl (Z.b2z (so s)) 31) (Z.shiftl (Z.b2z (ov s)) 30)) (Z.shiftl (Z.b2z (ca s)) 29)) (cnt s).

Definition MFSPR (op : Z) : PM unit := fun s =>
  let n := spr_number op in
  if n =? 0x001 then MOk tt (set (rd op) (xer_word s) s)
  else if n =? 0x008 then MOk tt (set (rd op) (lr s) s)
  else if n =? 0x009 then MOk tt (set (rd op) (ctr s) s)
  else if n =? 0x100 then MOk tt (set (rd op) (vrsave s) s)
  else if n =? 0x10C then (let! t := get_timebased_time in modify (set (rd op) t)) s
  else if n =? 0x10D then (let! t := get_timebased_time in modify (set (rd op) (Z.shiftr t 32))) s
  else MThrow.

Definition MFTB (op : Z) : PM unit := fun s =>
  let n := spr_number op in
  if n =? 0x10C then (let! t := get_timebased_time in modify (set (rd op) t)) s
  else if n =? 0x10D then (let! t := get_timebased_time in modify (set (rd op) (Z.shiftr t 32))) s
  else MThrow.

Definition MTSPR (op : Z) : PM unit := fun s =>
  let n := spr_number op in
  let value := get s (rs op) in
  if n =? 0x001 then
    let s := with_so (negb (Z.land value 0x80000000 =? 0)) s in
    let s := with_ov (negb (Z.land value 0x40000000 =? 0)) s in
    let s := with_ca (negb (Z.land value 0x20000000 =? 0)) s in
    MOk tt (with_cnt (Z.land value 0x7f) s)
  else if n =? 0x008 then MOk tt (with_lr value s)
  else if n =? 0x009 then MOk tt (with_ctr value s)
  else if n =? 0x100 then MOk tt (with_vrsave (u32 value) s)
  else MThrow.

(** ** Addresses *)

(** [op.ra ? gpr[ra] + gpr[rb] : gpr[rb]] *)
Definition addr_x (op : Z) (s : ppu_thread) : Z :=
  if negb (ra op =? 0) then u64 (get s (ra op) + get s (rb op)) else get s (rb op).
(** [gpr[ra] + gpr[rb]] *)
Definition addr_ux (op : Z) (s : ppu_thread) : Z := u64 (get s (ra op) + get s (rb op)).
(** [op.ra || 1 ? gpr[ra] + simm16 : simm16] and [gpr[ra] + simm16] *)
Definition addr_d (op : Z) (s : ppu_thread) : Z := u64 (get s (ra op) + simm16 op).
(** [op.ra ? gpr[ra] + simm16 : simm16] *)
Definition addr_d0 (op : Z) (s : ppu_thread) : Z :=
  if negb (ra op =? 0) then u64 (get s (ra op) + simm16 op) else u64 (simm16 op).
(** [(simm16 & ~3) + (op.ra ? gpr[ra] : 0)] and [gpr[ra] + (simm16 & ~3)] *)
Definition addr_ds (op : Z) (s : ppu_thread) : Z :=
  u64 (Z.land (simm16 op) (-4) + (if negb (ra op =? 0) then get s (ra op) else 0)).
Definition addr_dsu (op : Z) (s : ppu_thread) : Z := u64 (get s (ra op) + Z.land (simm16 op) (-4)).

(** ** Loads *)

(** [ppu.gpr[op.rd] = ppu_feed_data<T>(ppu, addr)] with [conv] the conversion from the bytes
    of [T] to [u64], and the same with [ppu.gpr[op.ra] = addr] after it. *)
Definition load (n : nat) (conv : list Z -> Z) (addr : Z -> ppu_thread -> Z) (op : Z) : PM unit := fun s =>
  (let! v := ppu_feed_data cfg n (addr op s) in modify (set (rd op) (conv v))) s.
Definition load_u (n : nat) (conv : list Z -> Z) (addr : Z -> ppu_thread -> Z) (op : Z) : PM unit := fun s =>
  let a := addr op s in
  (let! v := ppu_feed_data cfg n a in modify (fun s => set (ra op) a (set (rd op) (conv v) s))) s.

Definition be_s16 (l : list Z) : Z := u64 (s16 (be_of l)).
Definition be_s32 (l : list Z) : Z := u64 (s32 (be_of l)).

Definition LBZ := load 1 be_of addr_d.
Definition LBZU := load_u 1 be_of addr_d.
Definition LBZX := load 1 be_of addr_x.
Definition LBZUX := load_u 1 be_of addr_ux.
Definition LHZ := load 2 be_of addr_d.
Definition LHZU := load_u 2 be_of addr_d.
Definition LHZX := load 2 be_of addr_x.
Definition LHZUX := load_u 2 be_of addr_x.
Definition LHA := load 2 be_s16 addr_d.
Definition LHAU := load_u 2 be_s16 addr_d.
Definition LHAX := load 2 be_s16 addr_x.
Definition LHAUX := load_u 2 be_s16 addr_x.
Definition LWZ := load 4 be_of addr_d.
Definition LWZU := load_u 4 be_of addr_d.
Definition LWZX := load 4 be_of addr_x.
Definition LWZUX := load_u 4 be_of addr_ux.
Definition LWA := load 4 be_s32 addr_ds.
Definition LWAX := load 4 be_s32 addr_x.
Definition LWAUX := load_u 4 be_s32 addr_x.
Definition LD := load 8 be_of addr_ds.
Definition LDU := load_u 8 be_of addr_dsu.
Definition LDX := load 8 be_of addr_x.
Definition LDUX := load_u 8 be_of addr_ux.
Definition LHBRX := load 2 le_of addr_x.
Definition LWBRX := load 4 le_of addr_x.
Definition LDBRX := load 8 le_of addr_x.

Definition LWARX (op : Z) : PM unit := fun s =>
  (let! a := vm_cast (addr_x op s) in let! v := ppu_lwarx a in modify (set (rd op) v)) s.
Definition LDARX (op : Z) : PM unit := fun s =>
  (let! a := vm_cast (addr_x op s) in let! v := ppu_ldarx a in modify (set (rd op) v)) s.

(** ** Stores *)

Definition store (n : nat) (conv : Z -> Z) (addr : Z -> ppu_thread -> Z) (op : Z) : PM unit := fun s =>
  vm_write (addr op s) n (conv (get s (rs op))) s.
Definition store_u (n : nat) (conv : Z -> Z) (addr : Z -> ppu_thread -> Z) (op : Z) : PM unit := fun s =>
  let a := addr op s in (vm_write a n (conv (get s (rs op))) >> modify (set (ra op) a)) s.

(** A [le_t] of [n] bytes as the big-endian number of the same bytes. *)
Definition swap (n : nat) (v : Z) : Z := be_of (map (fun i => lane 8 (Z.of_nat i) v) (seq 0 n)).

Definition STB := store 1 u8 addr_d.
Definition STBU := store_u 1 u8 addr_d.
Definition STBX := store 1 u8 addr_x.
Definition STBUX := store_u 1 u8 addr_ux.
Definition STH := store 2 u16 addr_d.
Definition STHU := store_u 2 u16 addr_d.
Definition STHX := store 2 u16 addr_x.
Definition STHUX := store_u 2 u16 addr_ux.
Definition STWU := store_u 4 u32 addr_d.
Definition STWX := store 4 u32 addr_x.
Definition STWUX := store_u 4 u32 addr_ux.
Definition STD := store 8 (fun v => v) addr_ds.
Definition STDU := store_u 8 (fun v => v) addr_dsu.
Definition STDX := store 8 (fun v => v) addr_x.
Definition STDUX := store_u 8 (fun v => v) addr_ux.
Definition STHBRX := store 2 (fun v => swap 2 (u16 v)) addr_x.
Definition STWBRX := store 4 (fun v => swap 4 (u32 v)) addr_x.
Definition STDBRX := store 8 (swap 8) addr_x.

(** [STW] tells the reservation table of a value that some engines spin on. *)
Definition STW (op : Z) : PM unit := fun s =>
  let addr := addr_d op s in
  let value := u32 (get s (rs op)) in
  (vm_write addr 4 value >>
   (if value =? 0xAAAAAAAA then let! a := vm_cast addr in reservation_update a else mret tt)) s.

Definition STWCX (op : Z) : PM unit := fun s =>
  (let! a := vm_cast (addr_x op s) in
   let! ok := ppu_stwcx a (u32 (get s (rs op))) in modify (fun s => ppu_cr_set cfg 0 false false ok (so s) s)) s.
Definition STDCX (op : Z) : PM unit := fun s =>
  (let! a := vm_cast (addr_x op s) in
   let! ok := ppu_stdcx a (get s (rs op)) in modify (fun s => ppu_cr_set cfg 0 false false ok (so s) s)) s.

Definition DCBZ (op : Z) : PM unit := fun s =>
  (let! a := vm_cast (addr_x op s) in
   let addr0 := Z.land a (Z.lxor 127 (Z.ones 32)) in
   if accurate_cache_line_stores cfg then do_cell_atomic_128_store addr0 else vm_write addr0 128 0) s.

(** ** Multiple and string access *)

(** [for (u32 i = op.rd; i < 32; ++i, addr += 4)] with [n] passes left. *)
Fixpoint lmw_loop (n : nat) (i addr : Z) : PM unit :=
  match n with
  | O => mret tt
  | S n => let! v := ppu_feed_data cfg 4 addr in modify (set i (be_of v)) >> lmw_loop n (i + 1) (u64 (addr + 4))
  end.
Definition LMW (op : Z) : PM unit := fun s => lmw_loop (Z.to_nat (32 - rd op)) (rd op) (addr_d0 op s) s.

Fixpoint stmw_loop (n : nat) (i addr : Z) : PM unit :=
  match n with
  | O => mret tt
  | S n => (fun s => vm_write addr 4 (u32 (get s i)) s) >> stmw_loop n (i + 1) (u64 (addr + 4))
  end.
Definition STMW (op : Z) : PM unit := fun s => stmw_loop (Z.to_nat (32 - rs op)) (rs op) (addr_d0 op s) s.

(** The words of a string, then its last bytes, packed from the top of a word. *)
Fixpoint load_words (n : nat) (reg addr : Z) : PM unit :=
  match n with
  | O => mret tt
  | S n => let! v := ppu_feed_data cfg 4 addr in
           modify (set reg (be_of v)) >> load_words n ((reg + 1) mod 32) (u64 (addr + 4))
  end.
Fixpoint load_tail (n : nat) (byte addr value : Z) : PM Z :=
  match n with
  | O => mret value
  | S n => let! v := ppu_feed_data cfg 1 addr in
           load_tail n (byte + 1) (u64 (addr + 1)) (Z.lor value (u32 (Z.shiftl (be_of v) (Z.lxor 3 byte * 8))))
  end.
(** The same with the shift counted down ([LSWI]). *)
Fixpoint load_tail_i (n : nat) (i addr buf : Z) : PM Z :=
  match n with
  | O => mret buf
  | S n => let! v := ppu_feed_data cfg 1 addr in
           load_tail_i n (i - 1) (u64 (addr + 1)) (Z.lor buf (u32 (Z.shiftl (be_of v) (i * 8))))
  end.
Definition load_string (tail : nat -> Z -> PM Z) (count reg addr : Z) : PM unit :=
  load_words (Z.to_nat (count / 4)) reg addr >>
  (if count mod 4 =? 0 then mret tt else
   let! v := tail (Z.to_nat (count mod 4)) (u64 (addr + 4 * (count / 4))) in
   modify (set ((reg + count / 4) mod 32) v)).

Definition LSWX (op : Z) : PM unit := fun s =>
  load_string (fun n a => load_tail n 0 a 0) (Z.land (cnt s) 0x7f) (rd op) (addr_x op s) s.
(** [N = op.rb ? op.rb : 32] bytes from [op.ra ? gpr[ra] : 0]. *)
Definition string_count (op : Z) : Z := if negb (rb op =? 0) then rb op else 32.
Definition string_addr (op : Z) (s : ppu_thread) : Z := if negb (ra op =? 0) then get s (ra op) else 0.
Definition LSWI (op : Z) : PM unit := fun s =>
  load_string (fun n a => load_tail_i n 3 a 0) (string_count op) (rd op) (string_addr op s) s.

Fixpoint store_words (n : nat) (reg addr : Z) : PM unit :=
  match n with
  | O => mret tt
  | S n => (fun s => vm_write addr 4 (u32 (get s reg)) s) >> store_words n ((reg + 1) mod 32) (u64 (addr + 4))
  end.
Fixpoint store_tail (n : nat) (byte addr value : Z) : PM unit :=
  match n with
  | O => mret tt
  | S n => vm_write addr 1 (u8 (Z.shiftr value (Z.lxor 3 byte * 8))) >> store_tail n (byte + 1) (u64 (addr + 1)) value
  end.
(** The same with the value shifted up ([STSWI]). *)
Fixpoint store_tail_i (n : nat) (addr buf : Z) : PM unit :=
  match n with
  | O => mret tt
  | S n => vm_write addr 1 (Z.shiftr (Z.land 0xFF000000 buf) 24) >> store_tail_i n (u64 (addr + 1)) (u32 (Z.shiftl buf 8))
  end.
Definition store_string (tail : nat -> Z -> Z -> PM unit) (count reg addr : Z) : PM unit :=
  store_words (Z.to_nat (count / 4)) reg addr >>
  (if count mod 4 =? 0 then mret tt else fun s =>
   tail (Z.to_nat (count mod 4)) (u64 (addr + 4 * (count / 4))) (u32 (get s ((reg + count / 4) mod 32))) s).
Definition STSWX (op : Z) : PM unit := fun s =>
  store_string (fun n => store_tail n 0) (Z.land (cnt s) 0x7F) (rs op) (addr_x op s) s.
Definition STSWI (op : Z) : PM unit := fun s =>
  store_string store_tail_i (string_count op) (rd op) (string_addr op s) s.

(** ** Floating-point and vector registers in memory *)

Definition load_f (n : nat) (conv : Z -> Z) (addr : Z -> ppu_thread -> Z) (op : Z) : PM unit := fun s =>
  (let! v := ppu_feed_data cfg n (addr op s) in modify (set_fpr (frd op) (conv (be_of v)))) s.
Definition load_fu (n : nat) (conv : Z -> Z) (addr : Z -> ppu_thread -> Z) (op : Z) : PM unit := fun s =>
  let a := addr op s in
  (let! v := ppu_feed_data cfg n a in modify (fun s => set (ra op) a (set_fpr (frd op) (conv (be_of v)) s))) s.
Definition LFS := load_f 4 f64_of_f32 addr_d.
Definition LFSU := load_fu 4 f64_of_f32 addr_d.
Definition LFSX := load_f 4 f64_of_f32 addr_x.
Definition LFSUX := load_fu 4 f64_of_f32 addr_ux.
Definition LFD := load_f 8 (fun v => v) addr_d.
Definition LFDU := load_fu 8 (fun v => v) addr_d.
Definition LFDX := load_f 8 (fun v => v) addr_x.
Definition LFDUX := load_fu 8 (fun v => v) addr_ux.

Definition store_f (n : nat) (conv : Z -> Z) (addr : Z -> ppu_thread -> Z) (op : Z) : PM unit := fun s =>
  vm_write (addr op s) n (conv (get_fpr s (frs op))) s.
Definition store_fu (n : nat) (conv : Z -> Z) (addr : Z -> ppu_thread -> Z) (op : Z) : PM unit := fun s =>
  let a := addr op s in (vm_write a n (conv (get_fpr s (frs op))) >> modify (set (ra op) a)) s.
Definition STFS := store_f 4 f32_of_f64 addr_d.
Definition STFSU := store_fu 4 f32_of_f64 addr_d.
Definition STFSX := store_f 4 f32_of_f64 addr_x.
Definition STFSUX := store_fu 4 f32_of_f64 addr_ux.
Definition STFD := store_f 8 (fun v => v) addr_d.
Definition STFDU := store_fu 8 (fun v => v) addr_d.
Definition STFDX := store_f 8 (fun v => v) addr_x.
Definition STFDUX := store_fu 8 (fun v => v) addr_ux.
Definition STFIWX := store_f 4 u32 addr_x.

(** [addr & ~m] *)
Definition align_down (addr m : Z) : Z := Z.land addr (Z.lxor m (Z.ones 64)).

(** [s_lvsl_consts[n]] and [s_lvsr_consts[n]]; byte [u8r[i]] of the base is [i]. *)
Definition s_lvsl_consts (n : Z) : Z := build 8 16 (fun i => u8 (15 - i + n)).
Definition s_lvsr_consts (n : Z) : Z := build 8 16 (fun i => u8 (15 - i + (16 - n))).
Definition LVSL (op : Z) (s : ppu_thread) : ppu_thread := set_vr (vd op) (s_lvsl_consts (addr_x op s mod 16)) s.
Definition LVSR (op : Z) (s : ppu_thread) : ppu_thread := set_vr (vd op) (s_lvsr_consts (addr_x op s mod 16)) s.

Definition LVX (op : Z) : PM unit := fun s =>
  (let! v := ppu_feed_data cfg 16 (align_down (addr_x op s) 15) in modify (set_vr (vd op) (be_of v))) s.
Definition LVXL := LVX.
Definition LVEBX := LVX.
Definition LVEHX := LVX.
Definition LVEWX := LVX.
Definition STVX (op : Z) : PM unit := fun s => vm_write (align_down (addr_x op s) 15) 16 (get_vr s (vs op)) s.
Definition STVXL := STVX.
Definition STVEBX (op : Z) : PM unit := fun s =>
  let addr := addr_x op s in
  vm_write addr 1 (lane 8 (15 - Z.land addr 0xf) (get_vr s (vs op))) s.
Definition STVEHX (op : Z) : PM unit := fun s =>
  let addr := align_down (addr_x op s) 1 in
  vm_write addr 2 (lane 16 (7 - Z.shiftr (Z.land addr 0xf) 1) (get_vr s (vs op))) s.
Definition STVEWX (op : Z) : PM unit := fun s =>
  let addr := align_down (addr_x op s) 3 in
  vm_write addr 4 (lane 32 (3 - Z.shiftr (Z.land addr 0xf) 2) (get_vr s (vs op))) s.

Definition LVLX (op : Z) : PM unit := fun s =>
  let addr := addr_x op s in
  (let! data := ppu_feed_data cfg 16 (align_down addr 15) in
   modify (set_vr (vd op) (wrap 128 (Z.shiftl (be_of data) (Z.land addr 15 * 8))))) s.
Definition LVLXL := LVLX.
Definition LVRX (op : Z) : PM unit := fun s =>
  let addr := addr_x op s in
  (let! data := ppu_feed_data cfg 16 (align_down (if Z.land addr 15 =? 0 then cia s else addr) 15) in
   modify (set_vr (vd op) (Z.shiftr (Z.shiftr (be_of data) (Z.land (not64 addr) 15 * 8)) 8))) s.
Definition LVRXL := LVRX.

(** Single bytes through a pointer into guest memory: [ptr[j] = s.u8r[j]]. *)
Definition poke (a v : Z) : PM unit := fun s =>
  if accessible (mem s) a 1 page_writable
  then MOk tt (with_mem (with_ram (be_store (ram (mem s)) a 1 v) (mem s)) s) else MFault a.
Fixpoint poke_up (n : nat) (ptr j v : Z) : PM unit :=
  match n with
  | O => mret tt
  | S n => poke (ptr + j) (lane 8 (15 - j) v) >> poke_up n ptr (j + 1) v
  end.
Fixpoint poke_down (n : nat) (ptr i v : Z) : PM unit :=
  match n with
  | O => mret tt
  | S n => poke (ptr + i) (lane 8 (15 - i) v) >> poke_down n ptr (i - 1) v
  end.
Definition STVLX (op : Z) : PM unit := fun s =>
  let addr := addr_x op s in
  (let! ptr := vm_cast addr in poke_up (Z.to_nat (16 - Z.land addr 15)) ptr 0 (get_vr s (vs op))) s.
Definition STVLXL := STVLX.
Definition STVRX (op : Z) : PM unit := fun s =>
  let addr := addr_x op s in
  (let! ptr := vm_cast (u64 (addr - 16)) in poke_down (Z.to_nat (Z.land addr 15)) ptr 15 (get_vr s (vs op))) s.
Definition STVRXL := STVRX.

(** ** Instructions without effect here, and the ones that throw *)

Definition SYNC (op : Z) (s : ppu_thread) : ppu_thread := s.
Definition EIEIO (op : Z) (s : ppu_thread) : ppu_thread := s.
Definition cache_hint (op : Z) (s : ppu_thread) : ppu_thread := s.
Definition ECIWX (op : Z) : PM unit := fun _ => MThrow.
Definition ECOWX (op : Z) : PM unit := fun _ => MThrow.

Definition UNK (pc op : Z) (s : ppu_thread) : result :=
  let old_cia := cia s in
  let s := with_cia pc s in
  let s := with_exec_bytes (u64 (exec_bytes s + u32 (cia s - old_cia))) s in
  match hle_function (cia s) op s with
  | Some r => r
  | None => PThrow
  end.

(** ** Dispatch *)

(** The end of a straight-line handler ([RETURN_]): the next function is called; with a
    debugger or [ppu_debug] the address of the next instruction is kept in [cia]. *)
Definition straight (pc : Z) (s : ppu_thread) : result :=
  Next (if debugger_present cfg || ppu_debug cfg then with_cia (u32 (pc + 4)) s else s).
Definition straight_m (pc : Z) (m : mres unit) : result :=
  match m with
  | MOk _ s => straight pc s
  | MFault a => PFault a
  | MThrow => PThrow
  end.

(** The handler of a table function at [pc] on the word [op]. *)
Definition exec (f : fn) (pc op : Z) (s : ppu_thread) : result :=
  match base f with
  | Name.TDI => TDI pc op s
  | Name.TWI => TWI pc op s
  | Name.TD => TD pc op s
  | Name.TW => TW pc op s
  | Name.BC => BC pc op s
  | Name.SC => SC pc op s
  | Name.B => B pc op s
  | Name.BCLR => BCLR pc op s
  | Name.BCCTR => BCCTR pc op s
  | Name.UNK => UNK pc op s
  | Name.MULLI => straight pc (MULLI op s)
  | Name.SUBFIC => straight pc (SUBFIC op s)
  | Name.CMPLI => straight pc (CMPLI op s)
  | Name.CMPI => straight pc (CMPI op s)
  | Name.ADDIC => straight pc (ADDIC op s)
  | Name.ADDI => straight pc (ADDI op s)
  | Name.ADDIS => straight pc (ADDIS op s)
  | Name.MCRF => straight pc (MCRF op s)
  | Name.CRNOR => straight pc (CRNOR op s)
  | Name.CRANDC => straight pc (CRANDC op s)
  | Name.CRXOR => straight pc (CRXOR op s)
  | Name.CRNAND => straight pc (CRNAND op s)
  | Name.CRAND => straight pc (CRAND op s)
  | Name.CREQV => straight pc (CREQV op s)
  | Name.CRORC => straight pc (CRORC op s)
  | Name.CROR => straight pc (CROR op s)
  | Name.ISYNC => straight pc (ISYNC op s)
  | Name.MTOCRF => straight pc (MTOCRF op s)
  | Name.ORI => straight pc (ORI op s)
  | Name.ORIS => straight pc (ORIS op s)
  | Name.XORI => straight pc (XORI op s)
  | Name.XORIS => straight pc (XORIS op s)
  | Name.ANDI => straight pc (ANDI op s)
  | Name.ANDIS => straight pc (ANDIS op s)
  | Name.CMP => straight pc (CMP op s)
  | Name.CMPL => straight pc (CMPL op s)
  | Name.LVSL => straight pc (LVSL op s)
  | Name.LVSR => straight pc (LVSR op s)
  | Name.SYNC => straight pc (SYNC op s)
  | Name.EIEIO => straight pc (EIEIO op s)
  | Name.RLWIMI => straight pc (RLWIMI f op s)
  | Name.RLWINM => straight pc (RLWINM f op s)
  | Name.RLWNM => straight pc (RLWNM f op s)
  | Name.RLDICL => straight pc (RLDICL f op s)
  | Name.RLDICR => straight pc (RLDICR f op s)
  | Name.RLDIC => straight pc (RLDIC f op s)
  | Name.RLDIMI => straight pc (RLDIMI f op s)
  | Name.RLDCL => straight pc (RLDCL f op s)
  | Name.RLDCR => straight pc (RLDCR f op s)
  | Name.AND => straight pc (AND f op s)
  | Name.ANDC => straight pc (ANDC f op s)
  | Name.NOR => straight pc (NOR f op s)
  | Name.EQV => straight pc (EQV f op s)
  | Name.XOR => straight pc (XOR f op s)
  | Name.ORC => straight pc (ORC f op s)
  | Name.OR => straight pc (OR f op s)
  | Name.NAND => straight pc (NAND f op s)
  | Name.CNTLZW => straight pc (CNTLZW f op s)
  | Name.CNTLZD => straight pc (CNTLZD f op s)
  | Name.EXTSB => straight pc (EXTSB f op s)
  | Name.EXTSH => straight pc (EXTSH f op s)
  | Name.EXTSW => straight pc (EXTSW f op s)
  | Name.SLW => straight pc (SLW f op s)
  | Name.SRW => straight pc (SRW f op s)
  | Name.SLD => straight pc (SLD f op s)
  | Name.SRD => straight pc (SRD f op s)
  | Name.SRAW => straight pc (SRAW f op s)
  | Name.SRAD => straight pc (SRAD f op s)
  | Name.SRAWI => straight pc (SRAWI f op s)
  | Name.SRADI => straight pc (SRADI f op s)
  | Name.ADD => straight pc (ADD f op s)
  | Name.SUBF => straight pc (SUBF f op s)
  | Name.NEG => straight pc (NEG f op s)
  | Name.ADDC => straight pc (ADDC f op s)
  | Name.SUBFC => straight pc (SUBFC f op s)
  | Name.ADDE => straight pc (ADDE f op s)
  | Name.SUBFE => straight pc (SUBFE f op s)
  | Name.ADDZE => straight pc (ADDZE f op s)
  | Name.SUBFZE => straight pc (SUBFZE f op s)
  | Name.ADDME => straight pc (ADDME f op s)
  | Name.SUBFME => straight pc (SUBFME f op s)
  | Name.MULHDU => straight pc (MULHDU f op s)
  | Name.MULHD => straight pc (MULHD f op s)
  | Name.MULHWU => straight pc (MULHWU f op s)
  | Name.MULHW => straight pc (MULHW f op s)
  | Name.MULLD => straight pc (MULLD f op s)
  | Name.MULLW => straight pc (MULLW f op s)
  | Name.DIVDU => straight pc (DIVDU f op s)
  | Name.DIVWU => straight pc (DIVWU f op s)
  | Name.DIVD => straight pc (DIVD f op s)
  | Name.DIVW => straight pc (DIVW f op s)
  | Name.MFSPR => straight_m pc (MFSPR op s)
  | Name.MFTB => straight_m pc (MFTB op s)
  | Name.MTSPR => straight_m pc (MTSPR op s)
  | Name.LBZ => straight_m pc (LBZ op s)
  | Name.LBZU => straight_m pc (LBZU op s)
  | Name.LBZX => straight_m pc (LBZX op s)
  | Name.LBZUX => straight_m pc (LBZUX op s)
  | Name.LHZ => straight_m pc (LHZ op s)
  | Name.LHZU => straight_m pc (LHZU op s)
  | Name.LHZX => straight_m pc (LHZX op s)
  | Name.LHZUX => straight_m pc (LHZUX op s)
  | Name.LHA => straight_m pc (LHA op s)
  | Name.LHAU => straight_m pc (LHAU op s)
  | Name.LHAX => straight_m pc (LHAX op s)
  | Name.LHAUX => straight_m pc (LHAUX op s)
  | Name.LWZ => straight_m pc (LWZ op s)
  | Name.LWZU => straight_m pc (LWZU op s)
  | Name.LWZX => straight_m pc (LWZX op s)
  | Name.LWZUX => straight_m pc (LWZUX op s)
  | Name.LWA => straight_m pc (LWA op s)
  | Name.LWAX => straight_m pc (LWAX op s)
  | Name.LWAUX => straight_m pc (LWAUX op s)
  | Name.LD => straight_m pc (LD op s)
  | Name.LDU => straight_m pc (LDU op s)
  | Name.LDX => straight_m pc (LDX op s)
  | Name.LDUX => straight_m pc (LDUX op s)
  | Name.LHBRX => straight_m pc (LHBRX op s)
  | Name.LWBRX => straight_m pc (LWBRX op s)
  | Name.LDBRX => straight_m pc (LDBRX op s)
  | Name.LWARX => straight_m pc (LWARX op s)
  | Name.LDARX => straight_m pc (LDARX op s)
  | Name.STB => straight_m pc (STB op s)
  | Name.STBU => straight_m pc (STBU op s)
  | Name.STBX => straight_m pc (STBX op s)
  | Name.STBUX => straight_m pc (STBUX op s)
  | Name.STH => straight_m pc (STH op s)
  | Name.STHU => straight_m pc (STHU op s)
  | Name.STHX => straight_m pc (STHX op s)
  | Name.STHUX => straight_m pc (STHUX op s)
  | Name.STW => straight_m pc (STW op s)
  | Name.STWU => straight_m pc (STWU op s)
  | Name.STWX => straight_m pc (STWX op s)
  | Name.STWUX => straight_m pc (STWUX op s)
  | Name.STD => straight_m pc (STD op s)
  | Name.STDU => straight_m pc (STDU op s)
  | Name.STDX => straight_m pc (STDX op s)
  | Name.STDUX => straight_m pc (STDUX op s)
  | Name.STHBRX => straight_m pc (STHBRX op s)
  | Name.STWBRX => straight_m pc (STWBRX op s)
  | Name.STDBRX => straight_m pc (STDBRX op s)
  | Name.STWCX => straight_m pc (STWCX op s)
  | Name.STDCX => straight_m pc (STDCX op s)
  | Name.DCBZ => straight_m pc (DCBZ op s)
  | Name.LMW => straight_m pc (LMW op s)
  | Name.STMW => straight_m pc (STMW op s)
  | Name.LSWX => straight_m pc (LSWX op s)
  | Name.LSWI => straight_m pc (LSWI op s)
  | Name.STSWX => straight_m pc (STSWX op s)
  | Name.STSWI => straight_m pc (STSWI op s)
  | Name.LFS => straight_m pc (LFS op s)
  | Name.LFSU => straight_m pc (LFSU op s)
  | Name.LFSX => straight_m pc (LFSX op s)
  | Name.LFSUX => straight_m pc (LFSUX op s)
  | Name.LFD => straight_m pc (LFD op s)
  | Name.LFDU => straight_m pc (LFDU op s)
  | Name.LFDX => straight_m pc (LFDX op s)
  | Name.LFDUX => straight_m pc (LFDUX op s)
  | Name.STFS => straight_m pc (STFS op s)
  | Name.STFSU => straight_m pc (STFSU op s)
  | Name.STFSX => straight_m pc (STFSX op s)
  | Name.STFSUX => straight_m pc (STFSUX op s)
  | Name.STFD => straight_m pc (STFD op s)
  | Name.STFDU => straight_m pc (STFDU op s)
  | Name.STFDX => straight_m pc (STFDX op s)
  | Name.STFDUX => straight_m pc (STFDUX op s)
  | Name.STFIWX => straight_m pc (STFIWX op s)
  | Name.LVX => straight_m pc (LVX op s)
  | Name.LVXL => straight_m pc (LVXL op s)
  | Name.LVEBX => straight_m pc (LVEBX op s)
  | Name.LVEHX => straight_m pc (LVEHX op s)
  | Name.LVEWX => straight_m pc (LVEWX op s)
  | Name.STVX => straight_m pc (STVX op s)
  | Name.STVXL => straight_m pc (STVXL op s)
  | Name.STVEBX => straight_m pc (STVEBX op s)
  | Name.STVEHX => straight_m pc (STVEHX op s)
  | Name.STVEWX => straight_m pc (STVEWX op s)
  | Name.LVLX => straight_m pc (LVLX op s)
  | Name.LVLXL => straight_m pc (LVLXL op s)
  | Name.LVRX => straight_m pc (LVRX op s)
  | Name.LVRXL => straight_m pc (LVRXL op s)
  | Name.STVLX => straight_m pc (STVLX op s)
  | Name.STVLXL => straight_m pc (STVLXL op s)
  | Name.STVRX => straight_m pc (STVRX op s)
  | Name.STVRXL => straight_m pc (STVRXL op s)
  | Name.ECIWX => straight_m pc (ECIWX op s)
  | Name.ECOWX => straight_m pc (ECOWX op s)
  | Name.DCBST | Name.DCBF | Name.DCBTST | Name.DCBT | Name.DST | Name.DSTST | Name.DCBI | Name.DSS | Name.ICBI => straight pc (cache_hint op s)
  | Name.MFVSCR => straight pc (Vec.MFVSCR cfg op s)
  | Name.MTVSCR => straight pc (Vec.MTVSCR cfg op s)
  | Name.VADDCUW => straight pc (Vec.VADDCUW op s)
  | Name.VADDUBM => straight pc (Vec.VADDUBM op s)
  | Name.VADDUHM => straight pc (Vec.VADDUHM op s)
  | Name.VADDUWM => straight pc (Vec.VADDUWM op s)
  | Name.VSUBCUW => straight pc (Vec.VSUBCUW op s)
  | Name.VSUBUBM => straight pc (Vec.VSUBUBM op s)
  | Name.VSUBUHM => straight pc (Vec.VSUBUHM op s)
  | Name.VSUBUWM => straight pc (Vec.VSUBUWM op s)
  | Name.VADDSBS => straight pc (Vec.VADDSBS cfg op s)
  | Name.VADDSHS => straight pc (Vec.VADDSHS cfg op s)
  | Name.VADDSWS => straight pc (Vec.VADDSWS cfg op s)
  | Name.VADDUBS => straight pc (Vec.VADDUBS cfg op s)
  | Name.VADDUHS => straight pc (Vec.VADDUHS cfg op s)
  | Name.VADDUWS => straight pc (Vec.VADDUWS cfg op s)
  | Name.VSUBSBS => straight pc (Vec.VSUBSBS cfg op s)
  | Name.VSUBSHS => straight pc (Vec.VSUBSHS cfg op s)
  | Name.VSUBSWS => straight pc (Vec.VSUBSWS cfg op s)
  | Name.VSUBUBS => straight pc (Vec.VSUBUBS cfg op s)
  | Name.VSUBUHS => straight pc (Vec.VSUBUHS cfg op s)
  | Name.VSUBUWS => straight pc (Vec.VSUBUWS cfg op s)
  | Name.VAND => straight pc (Vec.VAND op s)
  | Name.VANDC => straight pc (Vec.VANDC op s)
  | Name.VNOR => straight pc (Vec.VNOR op s)
  | Name.VOR => straight pc (Vec.VOR op s)
  | Name.VXOR => straight pc (Vec.VXOR op s)
  | Name.VSEL => straight pc (Vec.VSEL op s)
  | Name.VAVGSB => straight pc (Vec.VAVGSB op s)
  | Name.VAVGSH => straight pc (Vec.VAVGSH op s)
  | Name.VAVGSW => straight pc (Vec.VAVGSW op s)
  | Name.VAVGUB => straight pc (Vec.VAVGUB op s)
  | Name.VAVGUH => straight pc (Vec.VAVGUH op s)
  | Name.VAVGUW => straight pc (Vec.VAVGUW op s)
  | Name.VMAXSB => straight pc (Vec.VMAXSB op s)
  | Name.VMAXSH => straight pc (Vec.VMAXSH op s)
  | Name.VMAXSW => straight pc (Vec.VMAXSW op s)
  | Name.VMAXUB => straight pc (Vec.VMAXUB op s)
  | Name.VMAXUH => straight pc (Vec.VMAXUH op s)
  | Name.VMAXUW => straight pc (Vec.VMAXUW op s)
  | Name.VMINSB => straight pc (Vec.VMINSB op s)
  | Name.VMINSH => straight pc (Vec.VMINSH op s)
  | Name.VMINSW => straight pc (Vec.VMINSW op s)
  | Name.VMINUB => straight pc (Vec.VMINUB op s)
  | Name.VMINUH => straight pc (Vec.VMINUH op s)
  | Name.VMINUW => straight pc (Vec.VMINUW op s)
  | Name.VCMPEQUB => straight pc (Vec.VCMPEQUB cfg f op s)
  | Name.VCMPEQUH => straight pc (Vec.VCMPEQUH cfg f op s)
  | Name.VCMPEQUW => straight pc (Vec.VCMPEQUW cfg f op s)
  | Name.VCMPGTSB => straight pc (Vec.VCMPGTSB cfg f op s)
  | Name.VCMPGTSH => straight pc (Vec.VCMPGTSH cfg f op s)
  | Name.VCMPGTSW => straight pc (Vec.VCMPGTSW cfg f op s)
  | Name.VCMPGTUB => straight pc (Vec.VCMPGTUB cfg f op s)
  | Name.VCMPGTUH => straight pc (Vec.VCMPGTUH cfg f op s)
  | Name.VCMPGTUW => straight pc (Vec.VCMPGTUW cfg f op s)
  | Name.VMHADDSHS => straight pc (Vec.VMHADDSHS cfg op s)
  | Name.VMHRADDSHS => straight pc (Vec.VMHRADDSHS cfg op s)
  | Name.VMLADDUHM => straight pc (Vec.VMLADDUHM op s)
  | Name.VMSUMMBM => straight pc (Vec.VMSUMMBM op s)
  | Name.VMSUMUBM => straight pc (Vec.VMSUMUBM op s)
  | Name.VMSUMSHM => straight pc (Vec.VMSUMSHM op s)
  | Name.VMSUMUHM => straight pc (Vec.VMSUMUHM op s)
  | Name.VMSUMSHS => straight pc (Vec.VMSUMSHS cfg op s)
  | Name.VMSUMUHS => straight pc (Vec.VMSUMUHS cfg op s)
  | Name.VMULESB => straight pc (Vec.VMULESB op s)
  | Name.VMULESH => straight pc (Vec.VMULESH op s)
  | Name.VMULEUB => straight pc (Vec.VMULEUB op s)
  | Name.VMULEUH => straight pc (Vec.VMULEUH op s)
  | Name.VMULOSB => straight pc (Vec.VMULOSB op s)
  | Name.VMULOSH => straight pc (Vec.VMULOSH op s)
  | Name.VMULOUB => straight pc (Vec.VMULOUB op s)
  | Name.VMULOUH => straight pc (Vec.VMULOUH op s)
  | Name.VSUMSWS => straight pc (Vec.VSUMSWS cfg op s)
  | Name.VSUM2SWS => straight pc (Vec.VSUM2SWS cfg op s)
  | Name.VSUM4SBS => straight pc (Vec.VSUM4SBS cfg op s)
  | Name.VSUM4SHS => straight pc (Vec.VSUM4SHS cfg op s)
  | Name.VSUM4UBS => straight pc (Vec.VSUM4UBS cfg op s)
  | Name.VMRGHB => straight pc (Vec.VMRGHB op s)
  | Name.VMRGHH => straight pc (Vec.VMRGHH op s)
  | Name.VMRGHW => straight pc (Vec.VMRGHW op s)
  | Name.VMRGLB => straight pc (Vec.VMRGLB op s)
  | Name.VMRGLH => straight pc (Vec.VMRGLH op s)
  | Name.VMRGLW => straight pc (Vec.VMRGLW op s)
  | Name.VPERM => straight pc (Vec.VPERM op s)
  | Name.VPKPX => straight pc (Vec.VPKPX op s)
  | Name.VPKSHSS => straight pc (Vec.VPKSHSS cfg op s)
  | Name.VPKSHUS => straight pc (Vec.VPKSHUS cfg op s)
  | Name.VPKSWSS => straight pc (Vec.VPKSWSS cfg op s)
  | Name.VPKSWUS => straight pc (Vec.VPKSWUS cfg op s)
  | Name.VPKUHUS => straight pc (Vec.VPKUHUS cfg op s)
  | Name.VPKUWUS => straight pc (Vec.VPKUWUS cfg op s)
  | Name.VPKUHUM => straight pc (Vec.VPKUHUM op s)
  | Name.VPKUWUM => straight pc (Vec.VPKUWUM op s)
  | Name.VUPKHPX => straight pc (Vec.VUPKHPX op s)
  | Name.VUPKHSB => straight pc (Vec.VUPKHSB op s)
  | Name.VUPKHSH => straight pc (Vec.VUPKHSH op s)
  | Name.VUPKLPX => straight pc (Vec.VUPKLPX op s)
  | Name.VUPKLSB => straight pc (Vec.VUPKLSB op s)
  | Name.VUPKLSH => straight pc (Vec.VUPKLSH op s)
  | Name.VSPLTB => straight pc (Vec.VSPLTB op s)
  | Name.VSPLTH => straight pc (Vec.VSPLTH op s)
  | Name.VSPLTW => straight pc (Vec.VSPLTW op s)
  | Name.VSPLTISB => straight pc (Vec.VSPLTISB op s)
  | Name.VSPLTISH => straight pc (Vec.VSPLTISH op s)
  | Name.VSPLTISW => straight pc (Vec.VSPLTISW op s)
  | Name.VRLB => straight pc (Vec.VRLB op s)
  | Name.VRLH => straight pc (Vec.VRLH op s)
  | Name.VRLW => straight pc (Vec.VRLW op s)
  | Name.VSLB => straight pc (Vec.VSLB op s)
  | Name.VSLH => straight pc (Vec.VSLH op s)
  | Name.VSLW => straight pc (Vec.VSLW op s)
  | Name.VSRB => straight pc (Vec.VSRB op s)
  | Name.VSRH => straight pc (Vec.VSRH op s)
  | Name.VSRW => straight pc (Vec.VSRW op s)
  | Name.VSRAB => straight pc (Vec.VSRAB op s)
  | Name.VSRAH => straight pc (Vec.VSRAH op s)
  | Name.VSRAW => straight pc (Vec.VSRAW op s)
  | Name.VSL => straight pc (Vec.VSL op s)
  | Name.VSR => straight pc (Vec.VSR op s)
  | Name.VSLO => straight pc (Vec.VSLO op s)
  | Name.VSRO => straight pc (Vec.VSRO op s)
  | _ => fp_vec_exec f pc op s
  end.

(** What [ppu_interpreter_rt::decode] returns: a function of the table, a specialised one,
    or one that throws. *)
Inductive intrp_fn :=
| Handler (f : fn)
| MFOCRF_ (n : Z)
| MFCR_fn
| VSLDOI_ (n : Z)
| Invalid.

Definition select (f : fn) (opv : Z) : intrp_fn :=
  match base f with
  | Name.LWZ | Name.LBZ | Name.STW | Name.STB | Name.LHZ | Name.LHA | Name.STH
  | Name.LFS | Name.LFD | Name.STFS | Name.STFD => if ra opv =? 0 then Invalid else Handler f
  | Name.VSLDOI => VSLDOI_ (vsh opv)
  | Name.MFOCRF =>
      if negb (l11 opv =? 0) then
        let n := Z.land (countl_zero 32 (crm opv)) 7 in
        if negb (Z.shiftr 0x80 n =? crm opv) then Invalid else MFOCRF_ n
      else MFCR_fn
  | _ => Handler f
  end.
Definition rt_decode (opv : Z) : intrp_fn := select (table_decode opv) opv.

Definition exec_fn (g : intrp_fn) (pc op : Z) (s : ppu_thread) : result :=
  match g with
  | Handler f => exec f pc op s
  | MFOCRF_ n => straight pc (MFOCRF n op s)
  | MFCR_fn => straight pc (MFCR op s)
  | VSLDOI_ n => straight pc (Vec.VSLDOI n op s)
  | Invalid => PThrow
  end.

(** ** Running *)

(** [vm::read32(addr)]: the word at a 32-bit address. *)
Definition read32 (addr : Z) (s : ppu_thread) : option Z :=
  if accessible (mem s) addr 4 page_readable then Some (be_load (ram (mem s)) addr 4) else None.

(** The instruction at [pc], decoded as [ppu_cache] decodes it. *)
Definition exec_at (pc : Z) (s : ppu_thread) : result :=
  match read32 pc s with
  | None => PFault pc
  | Some op => exec_fn (rt_decode op) pc op s
  end.

(** One instruction with [ppu_ret] after it, as [ppu_recompiler_fallback] runs it.  A handler that
    goes on loads the following word, which it passes to [ppu_ret], and may fault there. *)
Definition run_one (s : ppu_thread) : result :=
  match exec_at (cia s) s with
  | Next t =>
      let next := u32 (cia s + 4) in
      match read32 next t with
      | None => PFault next
      | Some _ => Leave (with_cia next t)
      end
  | r => r
  end.

(** The tail calls from one handler to the next.  [None]: more than [fuel] instructions. *)
Fixpoint tail_calls (step : Z -> ppu_thread -> result) (fuel : nat) (pc : Z) (s : ppu_thread) : option result :=
  match fuel with
  | O => None
  | S fuel =>
    match step pc s with
    | Next s => tail_calls step fuel (u32 (pc + 4)) s
    | r => Some r
    end
  end.
Definition run_chain : nat -> Z -> ppu_thread -> option result := tail_calls exec_at.

(** A pass of the loop of [exec_task]: a thread with a flag set runs one instruction. *)
Definition exec_pass (fuel : nat) (s : ppu_thread) : option result :=
  if state s =? 0 then run_chain fuel (cia s) s else Some (run_one s).

(** [cpu_thread::test_stopped] *)
Definition test_stopped (s : ppu_thread) : bool * ppu_thread :=
  if state s =? 0 then (false, s) else check_state s.

(** How far a loop came: all its passes used, returned, or ended by a fault or an exception;
    [Busy]: inside a chain of handlers longer than its bound. *)
Inductive run_result :=
| Running (s : ppu_thread)
| Returned (s : ppu_thread)
| RFault (addr : Z)
| RThrow
| Busy.

(** The loop of [exec_task] for the interpreter. *)
Fixpoint task_loop (pass : ppu_thread -> option result) (passes : nat) (s : ppu_thread) : run_result :=
  match passes with
  | O => Running s
  | S passes =>
    let '(stop, s) := test_stopped s in
    if stop then Returned s
    else match pass s with
         | Some (Next s) | Some (Leave s) => task_loop pass passes s
         | Some (PFault a) => RFault a
         | Some PThrow => RThrow
         | None => Busy
         end
  end.
Definition exec_task (passes fuel : nat) : ppu_thread -> run_result := task_loop (exec_pass fuel) passes.

(** [ppu_recompiler_fallback]: single instructions until [compiled] says that the code cache
    holds a function at [cia]. *)
Fixpoint fallback_loop (step : ppu_thread -> result) (compiled : Z -> bool) (passes : nat) (s : ppu_thread) : run_result :=
  match passes with
  | O => Running s
  | S passes =>
    if compiled (cia s) then Returned s
    else match step s with
         | Next s | Leave s =>
           let '(stop, s) := test_stopped s in
           if stop then Returned s else fallback_loop step compiled passes s
         | PFault a => RFault a
         | PThrow => RThrow
         end
  end.
Definition ppu_recompiler_fallback := fallback_loop run_one.

(** [ppu_reservation_fallback]: single instructions until the reservation is gone. *)
Fixpoint reservation_loop (step : ppu_thread -> result) (passes : nat) (s : ppu_thread) : run_result :=
  match passes with
  | O => Running s
  | S passes =>
    match step s with
    | Next s | Leave s =>
      if (raddr s =? 0) || negb (use_full_rdata s) then Returned s
      else let '(stop, s) := test_stopped s in
           if stop then Returned s else reservation_loop step passes s
    | PFault a => RFault a
    | PThrow => RThrow
    end
  end.
Definition ppu_reservation_fallback := reservation_loop run_one.

End Handlers.
End Interp.
