(* ===== verification/PpuWf.v ===== *)
(** * Well-formed PPU threads

    The type invariant of the thread the interpreter works on, the laws of its registers,
    and that every handler, a single instruction and a run of them keep it. *)

From Stdlib Require Import ZArith Lia Bool.
From stdpp Require Import base numbers list gmap.
From S2P Require Import Prelude V128 Bytes GuestMem BitField PpuOpcodes PpuThread Neon PpuVec PpuInterp.
Import ppu_opcode_t Interp.

(** ** The invariant *)

Record wf (s : ppu_thread) : Prop := mk_wf {
  wf_gpr : length (gpr s) = 32%nat /\ Forall (in_range 64) (gpr s);
  wf_fpr : length (fpr s) = 32%nat /\ Forall (in_range 64) (fpr s);
  wf_vr : length (vr s) = 32%nat /\ Forall (in_range 128) (vr s);
  wf_cr : length (cr s) = 32%nat /\ Forall (in_range 1) (cr s);
  wf_lr : in_range 64 (lr s);
  wf_ctr : in_range 64 (ctr s);
  wf_vrsave : in_range 32 (vrsave s);
  wf_cia : in_range 32 (cia s);
  wf_cnt : in_range 7 (cnt s);
  wf_sat : in_range 128 (sat s);
  wf_jm : in_range 32 (jm_mask s);
  wf_raddr : in_range 32 (raddr s);
  wf_exec : in_range 64 (exec_bytes s);
  wf_history : Forall (in_range 32) (data (history s)) /\ in_range 64 (index (history s));
  wf_ram : bytes_ok (ram (mem s));
}.

(** The invariant on the outcome of a handler and of a step inside one. *)
Definition wf_result (r : result) : Prop :=
  match r with Next s | Leave s => wf s | PFault _ | PThrow => True end.
Definition keeps {X} (P : X -> Prop) (m : PM X) : Prop :=
  forall s, wf s -> match m s with MOk x s => P x /\ wf s | MFault _ | MThrow => True end.

(** What the handlers rely on of the rest of the thread object. *)
Class PpuHostOk (host : PpuHost) : Prop := {
  ppu_lwarx_ok a : keeps (in_range 64) (@ppu_lwarx host a);
  ppu_ldarx_ok a : keeps (in_range 64) (@ppu_ldarx host a);
  ppu_stwcx_ok a v : keeps (fun _ => True) (@ppu_stwcx host a v);
  ppu_stdcx_ok a v : keeps (fun _ => True) (@ppu_stdcx host a v);
  reservation_update_ok a : keeps (fun _ => True) (@reservation_update host a);
  do_cell_atomic_128_store_ok a : keeps (fun _ => True) (@do_cell_atomic_128_store host a);
  get_timebased_time_ok : keeps (in_range 64) (@get_timebased_time host);
  ppu_execute_syscall_ok n s : wf s -> wf_result (@ppu_execute_syscall host n s);
  hle_function_ok a op s r : wf s -> @hle_function host a op s = Some r -> wf_result r;
  f64_of_f32_ok v : in_range 64 (@f64_of_f32 host v);
  f32_of_f64_ok v : in_range 32 (@f32_of_f64 host v);
  fp_vec_exec_ok f pc op s : in_range 32 pc -> wf s -> wf_result (@fp_vec_exec host f pc op s);
  check_state_ok s : wf s -> wf (@check_state host s).2;
}.

(** ** Ranges *)

Lemma in_range_le w w' x : 0 <= w <= w' -> in_range w x -> in_range w' x.
Proof. intros Hw [H0 H1]. split; [lia|]. pose proof (Z.pow_le_mono_r 2 w w'). lia. Qed.

Lemma shiftl_range w x n : 0 <= n -> 0 <= w -> in_range w x -> in_range (w + n) (Z.shiftl x n).
Proof.
  intros Hn Hw [H0 H1]. rewrite Z.shiftl_mul_pow2 by lia. unfold in_range.
  rewrite Z.pow_add_r by lia. pose proof (pow2_pos n). nia.
Qed.

Lemma shiftr_wide w x n : 0 <= n <= w -> in_range w x -> in_range (w - n) (Z.shiftr x n).
Proof.
  intros Hn [H0 H1]. rewrite Z.shiftr_div_pow2 by lia. pose proof (pow2_pos n). split.
  - apply Z.div_pos; lia.
  - apply Z.div_lt_upper_bound; [lia|]. rewrite <- Z.pow_add_r by lia. replace (n + (w - n)) with w by lia. lia.
Qed.

Lemma rotl_range w x n : 0 < w -> in_range w x -> in_range w (rotl w x n).
Proof.
  intros Hw Hx. unfold rotl. pose proof (Z.mod_pos_bound n w Hw).
  apply lor_range; [lia|apply wrap_range; lia|apply shiftr_range; auto; lia].
Qed.
Lemma countl_zero_range w x : 0 <= w -> in_range w x -> 0 <= countl_zero w x <= w.
Proof.
  intros Hw [H0 H1]. unfold countl_zero. destruct (Z.eqb_spec x 0); [lia|].
  pose proof (Z.log2_nonneg x). assert (Z.log2 x < w) by (apply Z.log2_lt_pow2; lia). lia.
Qed.
Lemma dup32_range x : in_range 32 x -> in_range 64 (dup32 x).
Proof.
  intros H. unfold dup32. apply lor_range; [lia|apply (in_range_le 32); auto; lia|].
  apply (shiftl_range 32 x 32); auto; lia.
Qed.
Lemma not64_range x : in_range 64 x -> in_range 64 (not64 x).
Proof. intros. apply lxor_range; auto with range. Qed.
Lemma rotate_mask_range mb me : in_range 64 (ppu_rotate_mask mb me).
Proof.
  unfold ppu_rotate_mask. cbv zeta. apply lor_range; [lia| |apply wrap_range; lia].
  apply shiftr_range; [apply Z.land_nonneg; lia|lia|apply wrap_range; lia].
Qed.

(** Instruction fields. *)
Lemma ppu_field_range I N op : 0 <= N -> in_range N (ppu_bf I N op).
Proof. apply bf.extract_range. Qed.
Lemma uimm16_range op : in_range 16 (uimm16 op).
Proof. apply ppu_field_range. lia. Qed.
Lemma cat_range I J op : in_range 6 (Z.lor (Z.shiftl (ppu_bf I 1 op) 5) (ppu_bf J 5 op)).
Proof.
  apply lor_range; [lia| |apply (in_range_le 5); [lia|apply ppu_field_range; lia]].
  apply (shiftl_range 1 _ 5); [lia|lia|apply ppu_field_range; lia].
Qed.
Lemma sh64_range op : in_range 6 (sh64 op). Proof. apply cat_range. Qed.
Lemma mbe64_range op : in_range 6 (mbe64 op). Proof. apply cat_range. Qed.

(** ** Registers *)

Lemma nth_range w l n : 0 <= w -> Forall (in_range w) l -> in_range w (nth n l 0).
Proof.
  intros Hw Hl. rewrite nth_lookup. destruct (l !! n) as [x|] eqn:E; cbn.
  - apply (Forall_lookup_1 _ _ _ _ Hl E).
  - apply zero_range, Hw.
Qed.
Lemma gpr_range s r : wf s -> in_range 64 (get s r).
Proof. intros Hwf. apply nth_range; [lia|]. apply (wf_gpr s Hwf). Qed.
Lemma get_fpr_range s r : wf s -> in_range 64 (get_fpr s r).
Proof. intros Hwf. apply nth_range; [lia|]. apply (wf_fpr s Hwf). Qed.
Lemma get_vr_range s r : wf s -> in_range 128 (get_vr s r).
Proof. intros Hwf. apply nth_range; [lia|]. apply (wf_vr s Hwf). Qed.
Lemma cr_bit_range s i : wf s -> in_range 1 (cr_bit s i).
Proof. intros Hwf. apply nth_range; [lia|]. apply (wf_cr s Hwf). Qed.

Definition reg_ok (r : Z) : Prop := in_range 5 r.
Lemma ppu_reg_field I op : reg_ok (ppu_bf I 5 op).
Proof. apply ppu_field_range. lia. Qed.

Lemma gpr_set_eq s r v : wf s -> reg_ok r -> get (set r v s) r = v.
Proof.
  intros Hwf Hr. unfold get, set. cbn. rewrite nth_lookup, list_lookup_insert_eq; [reflexivity|].
  rewrite (proj1 (wf_gpr s Hwf)). unfold reg_ok, in_range in Hr. lia.
Qed.
Lemma gpr_set_ne s r r' v : 0 <= r -> 0 <= r' -> r <> r' -> get (set r v s) r' = get s r'.
Proof. intros. unfold get, set. cbn. rewrite !nth_lookup, list_lookup_insert_ne; [reflexivity|]. lia. Qed.

Lemma vr_set_eq s r v : wf s -> reg_ok r -> get_vr (set_vr r v s) r = v.
Proof.
  intros Hwf Hr. unfold get_vr, set_vr. cbn. rewrite nth_lookup, list_lookup_insert_eq; [reflexivity|].
  rewrite (proj1 (wf_vr s Hwf)). unfold reg_ok, in_range in Hr. lia.
Qed.
Lemma vr_set_ne s r r' v : 0 <= r -> 0 <= r' -> r <> r' -> get_vr (set_vr r v s) r' = get_vr s r'.
Proof. intros. unfold get_vr, set_vr. cbn. rewrite !nth_lookup, list_lookup_insert_ne; [reflexivity|]. lia. Qed.

Lemma insert_keeps w n (l : list Z) i v :
  length l = n /\ Forall (in_range w) l -> in_range w v ->
  length (<[i := v]> l) = n /\ Forall (in_range w) (<[i := v]> l).
Proof. intros [Hl Hf] Hv. rewrite length_insert. split; [exact Hl|]. apply Forall_insert; auto. Qed.

Lemma ppu_wf_set s r v : wf s -> in_range 64 v -> wf (set r v s).
Proof. intros [] Hv. constructor; cbn; auto using insert_keeps. Qed.
Lemma wf_set_fpr s r v : wf s -> in_range 64 v -> wf (set_fpr r v s).
Proof. intros [] Hv. constructor; cbn; auto using insert_keeps. Qed.
Lemma wf_set_vr s r v : wf s -> in_range 128 v -> wf (set_vr r v s).
Proof. intros [] Hv. constructor; cbn; auto using insert_keeps. Qed.
Lemma wf_set_cr_bit s i v : wf s -> in_range 1 v -> wf (set_cr_bit i v s).
Proof. intros [] Hv. constructor; cbn; auto using insert_keeps. Qed.
Lemma wf_with_lr s v : wf s -> in_range 64 v -> wf (with_lr v s).
Proof. intros [] ?. constructor; auto. Qed.
Lemma wf_with_ctr s v : wf s -> in_range 64 v -> wf (with_ctr v s).
Proof. intros [] ?. constructor; auto. Qed.
Lemma wf_with_vrsave s v : wf s -> in_range 32 v -> wf (with_vrsave v s).
Proof. intros [] ?. constructor; auto. Qed.
Lemma wf_with_cia s v : wf s -> in_range 32 v -> wf (with_cia v s).
Proof. intros [] ?. constructor; auto. Qed.
Lemma wf_with_so s v : wf s -> wf (with_so v s).
Proof. intros []. constructor; auto. Qed.
Lemma wf_with_ov s v : wf s -> wf (with_ov v s).
Proof. intros []. constructor; auto. Qed.
Lemma wf_with_ca s v : wf s -> wf (with_ca v s).
Proof. intros []. constructor; auto. Qed.
Lemma wf_with_cnt s v : wf s -> in_range 7 v -> wf (with_cnt v s).
Proof. intros [] ?. constructor; auto. Qed.
Lemma wf_with_sat s v : wf s -> in_range 128 v -> wf (with_sat v s).
Proof. intros [] ?. constructor; auto. Qed.
Lemma wf_with_jm s v : wf s -> in_range 32 v -> wf (with_jm_mask v s).
Proof. intros [] ?. constructor; auto. Qed.
Lemma wf_with_nj s v : wf s -> wf (with_nj v s).
Proof. intros []. constructor; auto. Qed.
Lemma wf_with_exec s v : wf s -> in_range 64 v -> wf (with_exec_bytes v s).
Proof. intros [] ?. constructor; auto. Qed.
Lemma wf_with_stat s v : wf s -> wf (with_stat v s).
Proof. intros []. constructor; auto. Qed.
Lemma wf_lose s : wf s -> wf (lose_reservation s).
Proof. intros []. constructor; auto. cbn. apply zero_range. lia. Qed.
Lemma wf_poke s a n v : wf s -> wf (with_mem (with_ram (be_store (ram (mem s)) a n v) (mem s)) s).
Proof. intros []. constructor; auto. cbn. apply be_store_ok. auto. Qed.

Lemma wf_set_cr_field s i v :
  wf s -> 0 <= i < 8 -> length v = 4%nat -> Forall (in_range 1) v -> wf (set_cr_field i v s).
Proof.
  intros [] Hi Hl Hv. constructor; auto. cbn [cr set_cr_field with_cr].
  destruct wf_cr0 as [Hc Hb]. split.
  - rewrite !length_app, length_take, length_drop, Hc, Hl. lia.
  - apply Forall_app. split; [apply Forall_take, Hb|]. apply Forall_app. split; [exact Hv|apply Forall_drop, Hb].
Qed.

Create HintDb ppu.
#[export] Hint Resolve ppu_wf_set wf_set_fpr wf_set_vr wf_set_cr_bit wf_with_lr wf_with_ctr wf_with_vrsave
  wf_with_cia wf_with_so wf_with_ov wf_with_ca wf_with_cnt wf_with_exec wf_with_stat wf_lose wf_poke
  wf_lr wf_ctr wf_vrsave wf_cia wf_cnt wf_raddr wf_exec wf_ram gpr_range get_fpr_range get_vr_range
  cr_bit_range : ppu.

(** ** The helpers of the handlers *)

Lemma cr_field_ok s i : wf s -> 0 <= i < 8 -> length (cr_field s i) = 4%nat /\ Forall (in_range 1) (cr_field s i).
Proof.
  intros Hwf Hi. destruct (wf_cr s Hwf) as [Hl Hb]. unfold cr_field. split.
  - rewrite length_take, length_drop, Hl. lia.
  - apply Forall_take, Forall_drop, Hb.
Qed.

Lemma wf_ppu_cr_set cfg field le gt eq so_ s : wf s -> wf (ppu_cr_set cfg field le gt eq so_ s).
Proof. intros Hwf. unfold ppu_cr_set. cbv zeta. destruct (ppu_debug cfg); auto 10 using b2z_range with ppu. Qed.
Lemma wf_cr_cmp cfg field a b s : wf s -> wf (ppu_cr_cmp cfg field a b s).
Proof. apply wf_ppu_cr_set. Qed.
Lemma wf_record cfg f v s : wf s -> wf (record cfg f v s).
Proof. unfold record. destruct (has_rc f); auto using wf_cr_cmp. Qed.
Lemma wf_oe_set f b s : wf s -> wf (oe_set f b s).
Proof. unfold oe_set, ppu_ov_set. destruct (has_oe f); auto with ppu. Qed.
Lemma wf_record_call cfg a op ind s : wf s -> in_range 32 a -> wf (ppu_record_call cfg a op ind s).
Proof.
  intros Hwf Ha. unfold ppu_record_call. cbv zeta.
  destruct (negb _); [exact Hwf|]. destruct (match data _ with [] => _ | _ => _ end); [exact Hwf|].
  destruct (lk op =? 0); [destruct (_ && _); [|exact Hwf]|];
    destruct Hwf; constructor; auto; cbn [history data index with_history];
    (split; [apply Forall_insert; [apply wf_history0|exact Ha]|apply wrap_range; lia]).
Qed.
#[export] Hint Resolve wf_cr_cmp wf_record wf_oe_set wf_ppu_cr_set wf_record_call : ppu.

Lemma foldl_lor8_range acc l :
  0 <= acc -> Forall (in_range 8) l ->
  forall w, 0 <= w -> in_range w acc ->
  in_range (w + 8 * Z.of_nat (length l)) (foldl (fun v b => Z.lor (Z.shiftl v 8) b) acc l).
Proof.
  revert acc. induction l as [|b l IH]; intros acc H0 Hl w Hw Ha; cbn [foldl length].
  - rewrite Z.mul_0_r, Z.add_0_r. exact Ha.
  - apply Forall_cons in Hl as [Hb Hl].
    assert (in_range (w + 8) (Z.lor (Z.shiftl acc 8) b)) as Hn.
    { apply lor_range; [lia|apply shiftl_range; auto; lia|apply (in_range_le 8); auto; lia]. }
    replace (w + 8 * Z.of_nat (S (length l))) with (w + 8 + 8 * Z.of_nat (length l)) by lia.
    apply IH; auto; [apply Hn|lia].
Qed.
Lemma be_of_range l n : length l = n -> Forall (in_range 8) l -> in_range (8 * Z.of_nat n) (be_of l).
Proof.
  intros <- Hl. pose proof (foldl_lor8_range 0 l ltac:(lia) Hl 0 ltac:(lia)) as H. cbn in H.
  apply H. unfold in_range. lia.
Qed.

Lemma vm_bytes_ok m a n : bytes_ok m -> length (vm_bytes m a n) = n /\ Forall (in_range 8) (vm_bytes m a n).
Proof.
  intros Hm. unfold vm_bytes. rewrite length_map, length_seq. split; [reflexivity|].
  apply Forall_forall. intros x Hx. apply list_elem_of_fmap in Hx as (i & -> & _). apply byte_at_range, Hm.
Qed.

(** Sequences of steps. *)
Lemma keeps_ret {X} (P : X -> Prop) x : P x -> keeps P (mret x).
Proof. intros Hx s Hs. split; auto. Qed.
Lemma keeps_bind {X Y} (P : X -> Prop) (Q : Y -> Prop) m k :
  keeps P m -> (forall x, P x -> keeps Q (k x)) -> keeps Q (mbindp m k).
Proof.
  intros Hm Hk s Hs. unfold mbindp. specialize (Hm s Hs). destruct (m s) as [x t| |]; auto.
  destruct Hm as [Hx Ht]. apply Hk; auto.
Qed.
Lemma keeps_modify (f : ppu_thread -> ppu_thread) : (forall s, wf s -> wf (f s)) -> keeps (fun _ => True) (modify f).
Proof. intros Hf s Hs. split; auto. Qed.
Lemma keeps_throw {X} (P : X -> Prop) : keeps P (fun _ => MThrow).
Proof. intros s _. exact I. Qed.
(** [look s Hs]: name the state a step begins in. *)
Tactic Notation "look" ident(s) ident(Hs) :=
  match goal with
  | |- keeps ?P _ =>
      intros s Hs; cbv beta zeta;
      match goal with |- match ?m s with MOk _ _ => _ | MFault _ => _ | MThrow => _ end =>
        let H := fresh in enough (keeps P m) as H by exact (H s Hs) end
  end.

Lemma keeps_cast a : keeps (in_range 32) (vm_cast a).
Proof.
  intros s Hs. unfold vm_cast. destruct (Z.eqb_spec (u32 a) a) as [<-|]; [|exact I].
  split; [|exact Hs]. apply wrap_range. lia.
Qed.
Definition bytes_of (n : nat) (l : list Z) : Prop := length l = n /\ Forall (in_range 8) l.
Lemma keeps_read a n : keeps (bytes_of n) (vm_read a n).
Proof.
  apply (keeps_bind (in_range 32)); [apply keeps_cast|]. intros x Hx s Hs.
  destruct (accessible _ _ _ _); [|exact I]. split; [|exact Hs]. apply vm_bytes_ok, wf_ram, Hs.
Qed.
Lemma keeps_write a n v : keeps (fun _ => True) (vm_write a n v).
Proof.
  apply (keeps_bind (in_range 32)); [apply keeps_cast|]. intros x Hx s Hs.
  destruct (accessible _ _ _ _); [|exact I]. auto with ppu.
Qed.
Lemma keeps_poke a v : keeps (fun _ => True) (poke a v).
Proof. intros s Hs. unfold poke. destruct (accessible _ _ _ _); [|exact I]. auto with ppu. Qed.
Lemma keeps_feed cfg n a : keeps (bytes_of n) (ppu_feed_data cfg n a).
Proof.
  apply (keeps_bind (bytes_of n)); [apply keeps_read|]. intros x Hx s Hs.
  cbv zeta. repeat case_match; simplify_eq; auto with ppu.
Qed.
Create HintDb keeps.
Create HintDb exec.
#[export] Hint Resolve keeps_ret keeps_throw keeps_cast keeps_read keeps_write keeps_poke keeps_feed : keeps.
#[export] Hint Resolve ppu_lwarx_ok ppu_ldarx_ok ppu_stwcx_ok ppu_stdcx_ok reservation_update_ok
  do_cell_atomic_128_store_ok get_timebased_time_ok : keeps.

(** Values read from memory. *)
Lemma bytes_u64 n l : (n <= 8)%nat -> bytes_of n l -> in_range 64 (be_of l).
Proof. intros Hn [Hl Hb]. apply (in_range_le (8 * Z.of_nat n)); [lia|]. apply be_of_range; auto. Qed.
Lemma bytes_le64 n l : (n <= 8)%nat -> bytes_of n l -> in_range 64 (le_of l).
Proof.
  intros Hn [Hl Hb]. apply (bytes_u64 n); auto. split; [rewrite length_rev; auto|]. apply Forall_rev, Hb.
Qed.

(** ** Every handler keeps the invariant *)

Lemma wf_for_loop n body s :
  wf s -> (forall i s, 0 <= i < Z.of_nat n -> wf s -> wf (body i s)) -> wf (for_up n body s).
Proof. intros Hs Hb. apply (for_up_ind (fun _ s => wf s)); auto. Qed.

Lemma s_table_ok v : length (s_table v) = 4%nat /\ Forall (in_range 1) (s_table v).
Proof. split; [reflexivity|]. repeat (apply Forall_cons; split; [apply b2z_range|]). apply Forall_nil. exact I. Qed.

Lemma pack_range l : Forall (in_range 1) l -> in_range 32 (pack l).
Proof.
  intros Hl. unfold pack. assert (in_range 32 0) as H0 by (apply zero_range; lia). revert H0.
  generalize 0. induction Hl as [|b l Hb _ IH]; intros acc Ha; cbn [foldl]; [exact Ha|].
  apply IH. apply lor_range; [lia|apply wrap_range; lia|apply (in_range_le 1); auto; lia].
Qed.

Lemma xer_word_range s : wf s -> in_range 32 (xer_word s).
Proof.
  intros Hwf. unfold xer_word.
  repeat (apply lor_range; [lia| |]);
    try (apply (in_range_le 7); [lia|apply wf_cnt, Hwf]);
    match goal with |- in_range 32 (Z.shiftl _ ?n) =>
      apply (in_range_le (1 + n)); [lia|apply shiftl_range; [lia|lia|apply b2z_range]] end.
Qed.

Lemma umulh64_range a b : in_range 64 a -> in_range 64 b -> in_range 64 (umulh64 a b).
Proof.
  intros [] []. unfold umulh64. apply (shiftr_wide 128 _ 64); [lia|]. unfold in_range in *.
  change (2 ^ 128) with (2 ^ 64 * 2 ^ 64). nia.
Qed.
Lemma div_range w a b : 0 <= w -> in_range w a -> 0 < b -> in_range w (a / b).
Proof.
  intros Hw [H0 H1] Hb. split; [apply Z.div_pos; lia|].
  apply Z.div_lt_upper_bound; [lia|]. nia.
Qed.
Lemma umulh32_range a b : in_range 64 (Z.shiftr (u32 a * u32 b) 32).
Proof.
  pose proof (wrap_range 32 a ltac:(lia)) as []. pose proof (wrap_range 32 b ltac:(lia)) as [].
  apply (in_range_le 32); [lia|]. apply (shiftr_wide 64 _ 32); [lia|]. unfold in_range.
  change (2 ^ 64) with (2 ^ 32 * 2 ^ 32). nia.
Qed.
Lemma udiv_range a b : in_range 64 a -> 0 <= b -> in_range 64 (if b =? 0 then 0 else a / b).
Proof. intros Ha Hb. destruct (Z.eqb_spec b 0); [apply zero_range; lia|apply div_range; auto; lia]. Qed.
Lemma u32_wide x : in_range 64 (u32 x).
Proof. apply (in_range_le 32); [lia|apply wrap_range; lia]. Qed.
Lemma countl64 w x : 0 <= w <= 64 -> in_range w x -> in_range 64 (countl_zero w x).
Proof. intros Hw Hx. pose proof (countl_zero_range w x ltac:(lia) Hx). unfold in_range. lia. Qed.
Lemma target_range x : in_range 32 (Z.land (u32 x) 0xfffffffc).
Proof. apply land_range; [lia|apply wrap_range; lia|lia]. Qed.
Lemma imm_high_range op : in_range 64 (Z.shiftl (uimm16 op) 16).
Proof. apply (in_range_le (16 + 16)); [lia|apply shiftl_range; [lia|lia|apply uimm16_range]]. Qed.
#[export] Hint Resolve target_range u32_wide : ppu.

Lemma cr_not_nonneg s i : wf s -> 0 <= Z.lxor (cr_bit s i) 1.
Proof. intros Hs. pose proof (cr_bit_range s i Hs) as []. apply Z.lxor_nonneg. lia. Qed.

(** [p_range]: a value a handler writes fits its register. *)
Ltac p_range_step :=
  match goal with
  | H : ?P |- ?P => exact H
  | H : in_range _ ?x |- 0 <= ?x => apply H
  | |- in_range 64 (Z.shiftr (u32 _ * u32 _) 32) => apply umulh32_range
  | |- in_range _ (wrap ?w _) => first [apply wrap_range; lia | apply (in_range_le w); [lia|apply wrap_range; lia]]
  | |- in_range _ (get _ _) => apply gpr_range
  | |- in_range 64 (if ?b =? 0 then 0 else _ / ?b) => apply udiv_range
  | |- in_range _ (if ?b then _ else _) => destruct b
  | |- in_range _ (Z.lor _ _) => apply lor_range; [lia| |]
  | |- in_range _ (Z.lxor _ 1) => apply lxor_range; [lia| |unfold in_range; lia]
  | |- in_range _ (Z.lxor _ _) => apply lxor_range; [lia| |]
  | |- in_range _ (Z.land _ _) => apply land_range; [lia| |]
  | |- in_range 64 (not64 _) => apply not64_range
  | |- in_range 64 (dup32 _) => apply dup32_range
  | |- in_range _ (rotl _ _ _) => apply rotl_range; [lia|]
  | |- in_range _ (ppu_rotate_mask _ _) => apply rotate_mask_range
  | |- in_range _ (Z.shiftr _ _) => apply shiftr_range; [|lia|]
  | |- in_range _ (Z.ones _) => apply ones_range; lia
  | |- in_range 64 (uimm16 _) => apply (in_range_le 16); [lia|apply uimm16_range]
  | |- in_range 64 (Z.shiftl (uimm16 _) 16) => apply imm_high_range
  | |- in_range 64 (countl_zero 32 _) => apply countl64; [lia|]
  | |- in_range 64 (countl_zero 64 _) => apply countl64; [lia|]
  | |- in_range 64 (umulh64 _ _) => apply umulh64_range
  | |- in_range 1 (cr_bit _ _) => apply cr_bit_range
  | |- in_range _ 0 => apply zero_range; lia
  | |- 0 <= mbe64 ?op => apply (mbe64_range op)
  | |- 0 <= ppu_rotate_mask ?a ?b => apply (rotate_mask_range a b)
  | |- 0 <= uimm16 ?op => apply (uimm16_range op)
  | |- 0 <= Z.shiftl (uimm16 ?op) 16 => apply (imm_high_range op)
  | |- 0 <= wrap ?w ?x => apply (wrap_range w x); lia
  | |- 0 <= get ?s ?r => apply (gpr_range s r)
  | |- 0 <= Z.land _ _ => apply Z.land_nonneg; right; lia
  | |- 0 <= Z.shiftr _ _ => apply Z.shiftr_nonneg
  | |- 0 <= Z.ones _ => apply (ones_range 64); lia
  | |- 0 <= not64 ?x => apply (not64_range x)
  | |- 0 <= Z.lxor (cr_bit ?s ?i) 1 => apply cr_not_nonneg
  | |- 0 <= cr_bit ?s ?i => apply (cr_bit_range s i)
  | |- 0 <= _ => lia
  | |- wf _ => auto with ppu
  end.
Ltac p_range := repeat p_range_step.

Section HandlersWf.
Context (cfg : ppu_config) {host : PpuHost} {ok : PpuHostOk host}.

Lemma logic_wf v f op s :
  wf s -> (forall a b, in_range 64 a -> in_range 64 b -> in_range 64 (v a b)) -> wf (logic cfg v f op s).
Proof. intros Hs Hv. unfold logic. apply wf_record, ppu_wf_set; auto with ppu. Qed.
Lemma unary_wf v f op s : wf s -> (forall a, in_range 64 a -> in_range 64 (v a)) -> wf (unary cfg v f op s).
Proof. intros Hs Hv. unfold unary. apply wf_record, ppu_wf_set; auto with ppu. Qed.
Lemma high_wf v f op s :
  wf s -> (forall a b, in_range 64 a -> in_range 64 b -> in_range 64 (v a b)) -> wf (high cfg v f op s).
Proof. intros Hs Hv. unfold high. apply wf_record, ppu_wf_set; auto with ppu. Qed.
Lemma add_end_wf f op x sy r s : wf s -> in_range 64 r.1 -> wf (add_end cfg f op x sy r s).
Proof. intros Hs Hr. unfold add_end. auto with ppu. Qed.
Lemma add64_range a b : in_range 64 (add64_flags a b).1.
Proof. apply wrap_range. lia. Qed.
Lemma add64_c_range a b c : in_range 64 (add64_flags_c a b c).1.
Proof. unfold add64_flags_c. cbn. apply wrap_range. lia. Qed.

Lemma straight_wf pc s : wf s -> wf_result (straight cfg pc s).
Proof. intros Hs. unfold straight. destruct (_ || _); cbn; [|exact Hs]. apply wf_with_cia, wrap_range; [exact Hs|lia]. Qed.
Lemma straight_m_wf pc (m : PM unit) s : wf s -> keeps (fun _ => True) m -> wf_result (straight_m cfg pc (m s)).
Proof. intros Hs Hm. unfold straight_m. specialize (Hm s Hs). destruct (m s); cbn; auto. apply straight_wf, Hm. Qed.

Lemma ppu_trap_wf pc s : wf s -> wf_result (ppu_trap cfg pc s).
Proof.
  intros Hs. unfold ppu_trap. destruct (negb _); [exact I|]. cbv zeta. destruct (_ || _ || _); [exact I|].
  cbn [wf_result]. repeat (apply wf_with_cia; [|apply wrap_range; lia]). exact Hs.
Qed.
Lemma branch_end_wf taken link old s : wf s -> in_range 32 link -> wf_result (branch_end taken link old s).
Proof.
  intros Hs Hl. unfold branch_end. destruct taken; [|destruct (_ =? _)]; cbn; auto;
    apply wf_with_exec; auto with ppu; apply wrap_range; lia.
Qed.
Lemma link_wf op v s : wf s -> in_range 32 v -> wf (if negb (lk op =? 0) then with_lr v s else s).
Proof. intros Hs Hv. destruct (negb _); auto. apply wf_with_lr; auto. apply (in_range_le 32); auto; lia. Qed.
Lemma dec_ctr_wf op s : wf s -> wf (dec_ctr op s).
Proof. intros Hs. apply wf_with_ctr; auto. apply wrap_range. lia. Qed.

(** Loads and stores. *)
Lemma load_keeps n conv addr op :
  (forall l, bytes_of n l -> in_range 64 (conv l)) -> keeps (fun _ => True) (load cfg n conv addr op).
Proof.
  intros Hc. unfold load. look s Hs. apply (keeps_bind (bytes_of n)); [apply keeps_feed|].
  intros l Hl. apply keeps_modify. intros t Ht. apply ppu_wf_set; auto.
Qed.
Lemma load_u_keeps n conv addr op :
  (forall l, bytes_of n l -> in_range 64 (conv l)) -> (forall s, wf s -> in_range 64 (addr op s)) ->
  keeps (fun _ => True) (load_u cfg n conv addr op).
Proof.
  intros Hc Ha. unfold load_u. look s Hs. apply (keeps_bind (bytes_of n)); [apply keeps_feed|].
  intros l Hl. apply keeps_modify. intros t Ht. repeat apply ppu_wf_set; auto.
Qed.
Lemma load_f_keeps n conv addr op :
  (forall l, bytes_of n l -> in_range 64 (conv (be_of l))) -> keeps (fun _ => True) (load_f cfg n conv addr op).
Proof.
  intros Hc. unfold load_f. look s Hs. apply (keeps_bind (bytes_of n)); [apply keeps_feed|].
  intros l Hl. apply keeps_modify. intros t Ht. apply wf_set_fpr; auto.
Qed.
Lemma load_fu_keeps n conv addr op :
  (forall l, bytes_of n l -> in_range 64 (conv (be_of l))) -> (forall s, wf s -> in_range 64 (addr op s)) ->
  keeps (fun _ => True) (load_fu cfg n conv addr op).
Proof.
  intros Hc Ha. unfold load_fu. look s Hs. apply (keeps_bind (bytes_of n)); [apply keeps_feed|].
  intros l Hl. apply keeps_modify. intros t Ht. apply ppu_wf_set; auto. apply wf_set_fpr; auto.
Qed.
Lemma store_keeps n conv addr op : keeps (fun _ => True) (store n conv addr op).
Proof. unfold store. look s Hs. apply keeps_write. Qed.
Lemma store_u_keeps n conv addr op :
  (forall s, wf s -> in_range 64 (addr op s)) -> keeps (fun _ => True) (store_u n conv addr op).
Proof.
  intros Ha. unfold store_u. look s Hs. apply (keeps_bind (fun _ => True)); [apply keeps_write|].
  intros ? _. apply keeps_modify. auto with ppu.
Qed.
Lemma store_f_keeps n conv addr op : keeps (fun _ => True) (store_f n conv addr op).
Proof. unfold store_f. look s Hs. apply keeps_write. Qed.
Lemma store_fu_keeps n conv addr op :
  (forall s, wf s -> in_range 64 (addr op s)) -> keeps (fun _ => True) (store_fu n conv addr op).
Proof.
  intros Ha. unfold store_fu. look s Hs. apply (keeps_bind (fun _ => True)); [apply keeps_write|].
  intros ? _. apply keeps_modify. auto with ppu.
Qed.

Lemma addr_x_range op s : wf s -> in_range 64 (addr_x op s).
Proof. intros Hs. unfold addr_x. p_range. Qed.
Lemma addr_ux_range op s : wf s -> in_range 64 (addr_ux op s).
Proof. intros Hs. apply wrap_range. lia. Qed.
Lemma addr_d_range op s : wf s -> in_range 64 (addr_d op s).
Proof. intros Hs. apply wrap_range. lia. Qed.
Lemma addr_dsu_range op s : wf s -> in_range 64 (addr_dsu op s).
Proof. intros Hs. apply wrap_range. lia. Qed.

Lemma bytes_s16 l : bytes_of 2 l -> in_range 64 (be_s16 l).
Proof. intros _. apply wrap_range. lia. Qed.
Lemma bytes_s32 l : bytes_of 4 l -> in_range 64 (be_s32 l).
Proof. intros _. apply wrap_range. lia. Qed.

Lemma lmw_keeps n i a : keeps (fun _ => True) (lmw_loop cfg n i a).
Proof.
  revert i a. induction n as [|n IH]; intros i a; cbn [lmw_loop]; [apply keeps_ret; exact I|].
  apply (keeps_bind (bytes_of 4)); [apply keeps_feed|]. intros l Hl.
  apply (keeps_bind (fun _ => True)); auto. apply keeps_modify. intros s Hs.
  apply ppu_wf_set; auto. apply (bytes_u64 4); auto; lia.
Qed.
Lemma load_words_keeps n i a : keeps (fun _ => True) (load_words cfg n i a).
Proof.
  revert i a. induction n as [|n IH]; intros i a; cbn [load_words]; [apply keeps_ret; exact I|].
  apply (keeps_bind (bytes_of 4)); [apply keeps_feed|]. intros l Hl.
  apply (keeps_bind (fun _ => True)); auto. apply keeps_modify. intros s Hs.
  apply ppu_wf_set; auto. apply (bytes_u64 4); auto; lia.
Qed.
Lemma stmw_keeps n i a : keeps (fun _ => True) (stmw_loop n i a).
Proof.
  revert i a. induction n as [|n IH]; intros i a; cbn [stmw_loop]; [apply keeps_ret; exact I|].
  apply (keeps_bind (fun _ => True)); auto. look s Hs. apply keeps_write.
Qed.
Lemma store_words_keeps n i a : keeps (fun _ => True) (store_words n i a).
Proof.
  revert i a. induction n as [|n IH]; intros i a; cbn [store_words]; [apply keeps_ret; exact I|].
  apply (keeps_bind (fun _ => True)); auto. look s Hs. apply keeps_write.
Qed.
Lemma load_tail_keeps n b a v : in_range 64 v -> keeps (in_range 64) (load_tail cfg n b a v).
Proof.
  revert b a v. induction n as [|n IH]; intros b a v Hv; cbn [load_tail]; [apply keeps_ret, Hv|].
  apply (keeps_bind (bytes_of 1)); [apply keeps_feed|]. intros l Hl. apply IH. p_range.
Qed.
Lemma load_tail_i_keeps n b a v : in_range 64 v -> keeps (in_range 64) (load_tail_i cfg n b a v).
Proof.
  revert b a v. induction n as [|n IH]; intros b a v Hv; cbn [load_tail_i]; [apply keeps_ret, Hv|].
  apply (keeps_bind (bytes_of 1)); [apply keeps_feed|]. intros l Hl. apply IH. p_range.
Qed.
Lemma store_tail_keeps n b a v : keeps (fun _ => True) (store_tail n b a v).
Proof.
  revert b a v. induction n as [|n IH]; intros b a v; cbn [store_tail]; [apply keeps_ret; exact I|].
  apply (keeps_bind (fun _ => True)); auto. apply keeps_write.
Qed.
Lemma store_tail_i_keeps n a v : keeps (fun _ => True) (store_tail_i n a v).
Proof.
  revert a v. induction n as [|n IH]; intros a v; cbn [store_tail_i]; [apply keeps_ret; exact I|].
  apply (keeps_bind (fun _ => True)); auto. apply keeps_write.
Qed.
Lemma load_string_keeps tail count reg a :
  (forall n a, keeps (in_range 64) (tail n a)) -> keeps (fun _ => True) (load_string cfg tail count reg a).
Proof.
  intros Ht. apply (keeps_bind (fun _ => True)); [apply load_words_keeps|]. intros _ _.
  destruct (_ =? _); [apply keeps_ret; exact I|]. apply (keeps_bind (in_range 64)); auto.
  intros v Hv. apply keeps_modify. auto with ppu.
Qed.
Lemma store_string_keeps tail count reg a :
  (forall n a v, keeps (fun _ => True) (tail n a v)) -> keeps (fun _ => True) (store_string tail count reg a).
Proof.
  intros Ht. apply (keeps_bind (fun _ => True)); [apply store_words_keeps|]. intros _ _.
  destruct (_ =? _); [apply keeps_ret; exact I|]. look s Hs. auto.
Qed.
Lemma poke_up_keeps n ptr j v : keeps (fun _ => True) (poke_up n ptr j v).
Proof.
  revert j. induction n as [|n IH]; intros j; cbn [poke_up]; [apply keeps_ret; exact I|].
  apply (keeps_bind (fun _ => True)); auto with keeps.
Qed.
Lemma poke_down_keeps n ptr j v : keeps (fun _ => True) (poke_down n ptr j v).
Proof.
  revert j. induction n as [|n IH]; intros j; cbn [poke_down]; [apply keeps_ret; exact I|].
  apply (keeps_bind (fun _ => True)); auto with keeps.
Qed.

(** The invariant of the handlers that work on memory, by the shape of their bodies. *)
Ltac keeps_step :=
  match goal with
  | |- keeps _ (load _ _ be_of _ _) => apply load_keeps; intros l Hl; eapply bytes_u64; [|exact Hl]; lia
  | |- keeps _ (load _ _ le_of _ _) => apply load_keeps; intros l Hl; eapply bytes_le64; [|exact Hl]; lia
  | |- keeps _ (load _ _ be_s16 _ _) => apply load_keeps, bytes_s16
  | |- keeps _ (load _ _ be_s32 _ _) => apply load_keeps, bytes_s32
  | |- keeps _ (load_u _ _ be_of _ _) => apply load_u_keeps; [intros l Hl; eapply bytes_u64; [|exact Hl]; lia|]
  | |- keeps _ (load_u _ _ be_s16 _ _) => apply load_u_keeps; [apply bytes_s16|]
  | |- keeps _ (load_u _ _ be_s32 _ _) => apply load_u_keeps; [apply bytes_s32|]
  | |- keeps _ (load_f _ _ f64_of_f32 _ _) => apply load_f_keeps; intros l _; apply f64_of_f32_ok
  | |- keeps _ (load_fu _ _ f64_of_f32 _ _) => apply load_fu_keeps; [intros l _; apply f64_of_f32_ok|]
  | |- keeps _ (load_f _ _ _ _ _) => apply load_f_keeps; intros l Hl; eapply bytes_u64; [|exact Hl]; lia
  | |- keeps _ (load_fu _ _ _ _ _) => apply load_fu_keeps; [intros l Hl; eapply bytes_u64; [|exact Hl]; lia|]
  | |- keeps _ (store _ _ _ _) => apply store_keeps
  | |- keeps _ (store_u _ _ _ _) => apply store_u_keeps
  | |- keeps _ (store_f _ _ _ _) => apply store_f_keeps
  | |- keeps _ (store_fu _ _ _ _) => apply store_fu_keeps
  | |- forall s, wf s -> in_range 64 (addr_x ?op s) => exact (addr_x_range op)
  | |- forall s, wf s -> in_range 64 (addr_ux ?op s) => exact (addr_ux_range op)
  | |- forall s, wf s -> in_range 64 (addr_d ?op s) => exact (addr_d_range op)
  | |- forall s, wf s -> in_range 64 (addr_dsu ?op s) => exact (addr_dsu_range op)
  end.

Lemma modify_set r v : in_range 64 v -> keeps (fun _ => True) (modify (set r v)).
Proof. intros Hv. apply keeps_modify. auto with ppu. Qed.
Lemma modify_vr r v : in_range 128 v -> keeps (fun _ => True) (modify (set_vr r v)).
Proof. intros Hv. apply keeps_modify. auto with ppu. Qed.
Lemma modify_eq b : keeps (fun _ => True) (modify (fun s => ppu_cr_set cfg 0 false false b (so s) s)).
Proof. apply keeps_modify. auto with ppu. Qed.
Lemma bytes_v128 l : bytes_of 16 l -> in_range 128 (be_of l).
Proof. intros [Hl Hb]. apply (be_of_range l 16); auto. Qed.
Lemma time_keeps op : keeps (fun _ => True) (let! t := get_timebased_time in modify (set (rd op) t)).
Proof. apply (keeps_bind (in_range 64)); auto using modify_set with keeps. Qed.
Lemma time_high_keeps op : keeps (fun _ => True) (let! t := get_timebased_time in modify (set (rd op) (Z.shiftr t 32))).
Proof. apply (keeps_bind (in_range 64)); auto with keeps. intros t Ht. apply modify_set, shiftr_range; auto; lia. Qed.

Lemma MFSPR_keeps op : keeps (fun _ => True) (MFSPR op).
Proof.
  intros s Hs. unfold MFSPR. cbv zeta.
  repeat (destruct (_ =? _); [first [exact (time_keeps op s Hs)|exact (time_high_keeps op s Hs)|split; [exact I|]]|]);
    try exact I; apply ppu_wf_set; auto with ppu.
  - apply (in_range_le 32); [lia|apply xer_word_range, Hs].
  - apply (in_range_le 32); [lia|apply wf_vrsave, Hs].
Qed.
Lemma MFTB_keeps op : keeps (fun _ => True) (MFTB op).
Proof.
  intros s Hs. unfold MFTB. cbv zeta.
  repeat (destruct (_ =? _); [first [exact (time_keeps op s Hs)|exact (time_high_keeps op s Hs)]|]); exact I.
Qed.
Lemma MTSPR_keeps op : keeps (fun _ => True) (MTSPR op).
Proof.
  intros s Hs. unfold MTSPR. cbv zeta.
  repeat (destruct (_ =? _); [split; [exact I|]|]); try exact I; auto 10 using wrap_range with ppu.
  - apply wf_with_cnt; auto with ppu. rewrite Z.land_comm.
    apply land_range; [lia|unfold in_range; lia|apply (gpr_range s), Hs].
  - apply wf_with_vrsave; auto. apply wrap_range. lia.
Qed.

(** One step after the address of a memory handler. *)
Ltac mem_body :=
  repeat match goal with
  | |- keeps _ (mbindp (vm_cast _) _) => apply (keeps_bind (in_range 32)); [apply keeps_cast|intros ? ?]
  | |- keeps _ (mbindp (ppu_feed_data _ ?n _) _) => apply (keeps_bind (bytes_of n)); [apply keeps_feed|intros ? ?]
  | |- keeps _ (mbindp (ppu_lwarx _) _) => apply (keeps_bind (in_range 64)); [apply ppu_lwarx_ok|intros ? ?]
  | |- keeps _ (mbindp (ppu_ldarx _) _) => apply (keeps_bind (in_range 64)); [apply ppu_ldarx_ok|intros ? ?]
  | |- keeps _ (mbindp _ _) => apply (keeps_bind (fun _ => True)); [auto with keeps|intros ? _]
  | |- keeps _ (if _ then _ else _) => case_match
  | |- keeps _ (modify (set _ _)) => apply modify_set
  | |- keeps _ (modify (set_vr _ _)) => apply modify_vr
  | |- keeps _ (modify (fun s => ppu_cr_set _ _ _ _ _ _ _)) => apply modify_eq
  | H : bytes_of 16 _ |- in_range 128 (wrap 128 _) => apply wrap_range; lia
  | H : bytes_of 16 ?l |- in_range 128 (be_of ?l) => apply bytes_v128, H
  | |- in_range 128 (Z.shiftr _ _) => apply shiftr_range; [|lia|]
  | |- 0 <= Z.land _ 15 * 8 => apply Z.mul_nonneg_nonneg; [apply Z.land_nonneg; right|]; lia
  | |- 0 <= 8 => lia
  | |- keeps _ (poke_up _ _ _ _) => apply poke_up_keeps
  | |- keeps _ (poke_down _ _ _ _) => apply poke_down_keeps
  | |- keeps _ (lmw_loop _ _ _ _) => apply lmw_keeps
  | |- keeps _ (stmw_loop _ _ _) => apply stmw_keeps
  | |- keeps _ (load_string _ _ _ _ _) => apply load_string_keeps; intros ? ?
  | |- keeps _ (store_string _ _ _ _) => apply store_string_keeps; intros ? ? ?
  | |- keeps _ (load_tail _ _ _ _ _) => apply load_tail_keeps, zero_range; lia
  | |- keeps _ (load_tail_i _ _ _ _ _) => apply load_tail_i_keeps, zero_range; lia
  | |- keeps _ (store_tail _ _ _ _) => apply store_tail_keeps
  | |- keeps _ (store_tail_i _ _ _) => apply store_tail_i_keeps
  | |- _ => solve [auto with keeps]
  end.

(** Handlers that only change registers. *)
Ltac pure_step :=
  match goal with
  | |- wf (logic _ _ _ _ _) => apply logic_wf; [|intros ? ? ? ?]
  | |- wf (unary _ _ _ _ _) => apply unary_wf; [|intros ? ?]
  | |- wf (high _ _ _ _ _) => apply high_wf; [|intros ? ? ? ?]
  | |- wf (add_end _ _ _ _ _ _ _) => apply add_end_wf
  | |- wf (set _ _ _) => apply ppu_wf_set
  | |- wf (set_cr_bit _ _ _) => apply wf_set_cr_bit
  | |- wf (with_ca _ _) => apply wf_with_ca
  | |- wf (record _ _ _ _) => apply wf_record
  | |- wf (oe_set _ _ _) => apply wf_oe_set
  | |- wf (ppu_cr_cmp _ _ _ _ _) => apply wf_cr_cmp
  | |- wf (ppu_ov_set _ _) => apply wf_with_so, wf_with_ov
  | |- wf (if _ then _ else _) => case_match
  | |- in_range 64 (add64_flags _ _).1 => apply add64_range
  | |- in_range 64 (add64_flags_c _ _ _).1 => apply add64_c_range
  | |- _ => p_range_step
  end.

Lemma crf_range I op : 0 <= ppu_bf I 3 op < 8.
Proof. apply (ppu_field_range I 3 op). lia. Qed.
Lemma MCRF_wf op s : wf s -> wf (MCRF op s).
Proof. intros Hs. pose proof (cr_field_ok s (crfs op) Hs (crf_range _ _)) as []. apply wf_set_cr_field; auto. apply crf_range. Qed.
Lemma MTOCRF_wf op s : wf s -> wf (MTOCRF op s).
Proof.
  intros Hs. unfold MTOCRF. cbv zeta. destruct (negb _).
  - apply wf_set_cr_field; try apply s_table_ok; auto. change 7 with (Z.ones 3). rewrite Z.land_ones by lia.
    apply Z.mod_pos_bound. lia.
  - apply wf_for_loop; auto. intros i t Hi Ht. destruct (negb _); auto.
    apply wf_set_cr_field; try apply s_table_ok; auto.
Qed.
Lemma SRAW_wf f op s : wf s -> wf (SRAW cfg f op s).
Proof. intros Hs. unfold SRAW. cbv zeta. destruct (31 <? _); cbv iota beta; repeat pure_step. Qed.
Lemma SRAD_wf f op s : wf s -> wf (SRAD cfg f op s).
Proof. intros Hs. unfold SRAD. cbv zeta. destruct (63 <? _); cbv iota beta; repeat pure_step. Qed.
Lemma SLD_wf f op s : wf s -> wf (SLD cfg f op s).
Proof. intros Hs. apply logic_wf; auto. intros. cbv zeta. p_range. Qed.
Lemma SRD_wf f op s : wf s -> wf (SRD cfg f op s).
Proof. intros Hs. apply logic_wf; auto. intros. cbv zeta. p_range. Qed.
Lemma LVSL_wf op s : wf s -> wf (LVSL op s).
Proof. intros Hs. apply wf_set_vr; auto. apply build128_range'; [lia|reflexivity]. Qed.
Lemma LVSR_wf op s : wf s -> wf (LVSR op s).
Proof. intros Hs. apply wf_set_vr; auto. apply build128_range'; [lia|reflexivity]. Qed.
Lemma MFOCRF_wf n op s : wf s -> wf (MFOCRF n op s).
Proof. intros Hs. apply ppu_wf_set; auto with ppu. Qed.
Lemma MFCR_wf op s : wf s -> wf (MFCR op s).
Proof. intros Hs. apply ppu_wf_set; auto. apply (in_range_le 32); [lia|]. apply pack_range, wf_cr, Hs. Qed.

(** Branches, traps and system calls. *)
Lemma trap_wf (b : bool) pc s : wf s -> wf_result (if b then ppu_trap cfg pc s else Next s).
Proof. intros Hs. destruct b; [apply ppu_trap_wf, Hs|exact Hs]. Qed.
Lemma BC_wf pc op s : wf s -> in_range 32 pc -> wf_result (BC cfg pc op s).
Proof.
  intros Hs Hp. unfold BC. cbv zeta.
  assert (wf (if negb (lk op =? 0) then with_lr (u32 (pc + 4)) (dec_ctr op s) else dec_ctr op s)) as Hl.
  { apply link_wf; [apply dec_ctr_wf, Hs|apply wrap_range; lia]. }
  destruct (_ && _); apply branch_end_wf; try (apply wrap_range; lia); auto.
  apply wf_with_cia; [|apply wrap_range; lia]. apply wf_record_call; auto with ppu.
Qed.
Lemma indirect_wf (b : bool) link old target op s :
  wf s -> in_range 32 link -> in_range 32 target ->
  wf_result (if b then branch_end true link old (with_cia target (ppu_record_call cfg target op true s))
             else branch_end false link old s).
Proof. intros Hs Hl Ht. destruct b; apply branch_end_wf; auto with ppu. Qed.
Lemma BCLR_wf pc op s : wf s -> wf_result (BCLR cfg pc op s).
Proof.
  intros Hs. unfold BCLR. cbv zeta.
  apply indirect_wf; auto using target_range; [|apply wrap_range; lia].
  apply link_wf; [apply dec_ctr_wf, Hs|apply wrap_range; lia].
Qed.
Lemma BCCTR_wf pc op s : wf s -> wf_result (BCCTR cfg pc op s).
Proof.
  intros Hs. unfold BCCTR. cbv zeta.
  apply indirect_wf; auto using target_range; [|apply wrap_range; lia].
  apply link_wf; [exact Hs|apply wrap_range; lia].
Qed.
Lemma B_wf pc op s : wf s -> in_range 32 pc -> wf_result (B cfg pc op s).
Proof.
  intros Hs Hp. unfold B. cbv zeta. cbn [wf_result]. apply wf_with_exec; [|apply wrap_range; lia].
  apply link_wf; [|apply wrap_range; lia]. apply wf_with_cia; [|apply wrap_range; lia].
  apply wf_record_call; auto with ppu.
Qed.
Lemma SC_wf pc op s : wf s -> in_range 32 pc -> wf_result (SC pc op s).
Proof.
  intros Hs Hp. unfold SC. cbv zeta. destruct (negb _); [exact I|].
  apply ppu_execute_syscall_ok. apply wf_with_exec; auto with ppu. apply wrap_range. lia.
Qed.
Lemma UNK_wf pc op s : wf s -> in_range 32 pc -> wf_result (UNK pc op s).
Proof.
  intros Hs Hp. unfold UNK. cbv zeta. destruct (hle_function _ _ _) eqn:E; [|exact I].
  apply hle_function_ok in E; auto. apply wf_with_exec; auto with ppu. apply wrap_range. lia.
Qed.

Lemma LVX_keeps op : keeps (fun _ => True) (LVX cfg op).
Proof. unfold LVX. look s Hs. mem_body. Qed.
Lemma STVX_keeps op : keeps (fun _ => True) (STVX op).
Proof. unfold STVX. look s Hs. mem_body. Qed.
Lemma LVLX_keeps op : keeps (fun _ => True) (LVLX cfg op).
Proof. unfold LVLX. look s Hs. mem_body. Qed.
Lemma LVRX_keeps op : keeps (fun _ => True) (LVRX cfg op).
Proof. unfold LVRX. look s Hs. mem_body. Qed.
Lemma STVLX_keeps op : keeps (fun _ => True) (STVLX op).
Proof. unfold STVLX. look s Hs. mem_body. Qed.
Lemma STVRX_keeps op : keeps (fun _ => True) (STVRX op).
Proof. unfold STVRX. look s Hs. mem_body. Qed.

(** ** Vector handlers *)

Lemma form_ab_wf g op s :
  wf s -> (forall a b, in_range 128 a -> in_range 128 b -> in_range 128 (g a b)) -> wf (Vec.form_ab g op s).
Proof. intros Hs Hg. apply wf_set_vr; auto using get_vr_range. Qed.
Lemma form_abc_wf g op s :
  wf s -> (forall a b c, in_range 128 a -> in_range 128 b -> in_range 128 c -> in_range 128 (g a b c)) ->
  wf (Vec.form_abc g op s).
Proof. intros Hs Hg. apply wf_set_vr; auto using get_vr_range. Qed.
Lemma form_b_wf g op s : wf s -> (forall b, in_range 128 b -> in_range 128 (g b)) -> wf (Vec.form_b g op s).
Proof. intros Hs Hg. apply wf_set_vr; auto using get_vr_range. Qed.
Lemma add_sat_wf v s : wf s -> in_range 128 v -> wf (Vec.add_sat cfg v s).
Proof.
  intros Hs Hv. unfold Vec.add_sat. destruct (set_sat cfg); [|exact Hs]. apply wf_with_sat; [exact Hs|].
  apply lor128_range; [exact Hv|apply wf_sat, Hs].
Qed.
Lemma saturating_wf g h op s :
  wf s -> (forall a b, in_range 128 a -> in_range 128 b -> in_range 128 (g a b)) ->
  (forall a b, in_range 128 a -> in_range 128 b -> in_range 128 (h a b)) -> wf (Vec.saturating cfg g h op s).
Proof.
  intros Hs Hg Hh. unfold Vec.saturating. cbv zeta.
  apply wf_set_vr; [apply add_sat_wf; [exact Hs|apply lxor128_range]|]; auto using get_vr_range.
Qed.
Lemma packing_wf g h op s :
  wf s -> (forall a b, in_range 128 a -> in_range 128 b -> in_range 128 (g a b)) ->
  (forall a b, in_range 128 a -> in_range 128 b -> in_range 128 (h a b)) -> wf (Vec.packing cfg g h op s).
Proof.
  intros Hs Hg Hh. unfold Vec.packing. cbv zeta.
  apply wf_set_vr; [apply add_sat_wf; [exact Hs|]|]; auto using get_vr_range.
Qed.
Lemma compare_wf g f op s :
  wf s -> (forall a b, in_range 128 a -> in_range 128 b -> in_range 128 (g a b)) -> wf (Vec.compare cfg g f op s).
Proof.
  intros Hs Hg. unfold Vec.compare. cbv zeta. apply wf_set_vr; auto using get_vr_range.
  destruct (has_oe f); [apply wf_ppu_cr_set; auto|exact Hs].
Qed.
Ltac sat_wf := apply wf_set_vr; [apply add_sat_wf; [assumption|]|]; cbv zeta; gv_range.
Lemma high_muladd_wf m op s : wf s -> in_range 128 m -> wf (Vec.high_muladd cfg m op s).
Proof. intros Hs Hm. unfold Vec.high_muladd. sat_wf. Qed.
Lemma VMHADDSHS_wf op s : wf s -> wf (Vec.VMHADDSHS cfg op s).
Proof. intros Hs. apply high_muladd_wf; [exact Hs|]. gv_range. Qed.
Lemma VMHRADDSHS_wf op s : wf s -> wf (Vec.VMHRADDSHS cfg op s).
Proof.
  intros Hs. unfold Vec.VMHRADDSHS. destruct (negb _); [apply form_abc_wf; [exact Hs|intros]|apply high_muladd_wf; [exact Hs|]]; gv_range.
Qed.
Lemma VMSUMSHS_wf op s : wf s -> wf (Vec.VMSUMSHS cfg op s).
Proof.
  intros Hs. pose proof (get_vr_range s (vc op) Hs). unfold Vec.VMSUMSHS. cbv zeta. sat_wf.
Qed.
Lemma VMSUMUHS_wf op s : wf s -> wf (Vec.VMSUMUHS cfg op s).
Proof. intros Hs. unfold Vec.VMSUMUHS. cbv zeta. sat_wf. Qed.
Lemma VSUM2SWS_wf op s : wf s -> wf (Vec.VSUM2SWS cfg op s).
Proof. intros Hs. unfold Vec.VSUM2SWS. cbv zeta. sat_wf. Qed.
Lemma VSUMSWS_wf op s : wf s -> wf (Vec.VSUMSWS cfg op s).
Proof.
  intros Hs. assert (forall x, in_range 128 (u32 x)) as Hu by (intros; apply (in_range_le 32); [lia|apply wrap_range; lia]).
  unfold Vec.VSUMSWS. cbv zeta. set (t := if set_sat cfg then _ else _).
  assert (wf t) as Ht.
  { subst t. destruct (set_sat cfg); [|exact Hs]. apply wf_with_sat; [exact Hs|].
    apply (set_lane128_range 8); [vm_compute; intuition congruence|apply wf_sat, Hs]. }
  destruct (_ <? _); [|destruct (_ <? _)]; apply wf_set_vr; auto.
Qed.
Lemma MFVSCR_wf op s : wf s -> wf (Vec.MFVSCR cfg op s).
Proof. intros Hs. apply wf_set_vr; [exact Hs|apply from64_range]. Qed.
Lemma MTVSCR_wf op s : wf s -> wf (Vec.MTVSCR cfg op s).
Proof.
  intros Hs. unfold Vec.MTVSCR. cbv zeta. apply wf_with_nj.
  assert (forall t, wf t -> wf (if set_sat cfg then with_sat (Z.land (lane 32 0 (get_vr s (vb op))) 1) t else t)) as H1.
  { intros t Ht. destruct (set_sat cfg); [|exact Ht]. apply wf_with_sat; [exact Ht|].
    apply (in_range_le 32); [lia|]. apply land_range; [lia|apply lane_range; lia|lia]. }
  destruct (_ || _); [|auto]. apply wf_with_jm; [auto|]. destruct (negb _); unfold in_range; lia.
Qed.
Lemma VSRO_wf op s : wf s -> wf (Vec.VSRO op s).
Proof.
  intros Hs. apply form_ab_wf; [exact Hs|]. intros a b Ha Hb. apply shiftr128_range; [|exact Ha].
  apply Z.land_nonneg. lia.
Qed.
Lemma splat_wf (g : Z -> Z) v op s : wf s -> (forall v, in_range 128 (g v)) -> wf (set_vr (vd op) (g v) s).
Proof. intros Hs Hg. apply wf_set_vr; auto. Qed.

Ltac vec_wf :=
  match goal with
  | |- wf (Vec.form_ab _ _ _) => apply form_ab_wf
  | |- wf (Vec.form_abc _ _ _) => apply form_abc_wf
  | |- wf (Vec.form_b _ _ _) => apply form_b_wf
  | |- wf (Vec.saturating _ _ _ _ _) => apply saturating_wf
  | |- wf (Vec.packing _ _ _ _ _) => apply packing_wf
  | |- wf (Vec.compare _ _ _ _ _) => apply compare_wf
  | |- wf (set_vr _ _ _) => apply splat_wf
  end; [assumption|intros; unfold Vec.unpack_pixel; gv_range..].
Hint Resolve VMHADDSHS_wf VMHRADDSHS_wf VMSUMSHS_wf VMSUMUHS_wf VSUM2SWS_wf VSUMSWS_wf MFVSCR_wf MTVSCR_wf VSRO_wf : exec.

Hint Resolve LVX_keeps STVX_keeps LVLX_keeps LVRX_keeps STVLX_keeps STVRX_keeps : exec.
Hint Resolve trap_wf BC_wf BCLR_wf BCCTR_wf B_wf SC_wf UNK_wf MCRF_wf MTOCRF_wf SRAW_wf SRAD_wf SLD_wf SRD_wf
  LVSL_wf LVSR_wf MFSPR_keeps MFTB_keeps MTSPR_keeps fp_vec_exec_ok : exec.

Ltac handler h := first [unfold h | match h with ?h' _ => unfold h' | ?h' _ _ => unfold h' end].
Ltac exec_case :=
  match goal with
  | |- wf_result (fp_vec_exec _ _ _ _) => solve [auto with exec]
  | |- wf_result (straight_m _ _ (?h _ ?s)) =>
      apply straight_m_wf; [assumption|];
      first [solve [auto with exec] | handler h; first [solve [auto with exec] | solve [repeat keeps_step] | let t := fresh in let Ht := fresh in look t Ht; solve [mem_body] | apply keeps_throw]]
  | |- wf_result (straight_m _ _ (?h _ _ ?s)) =>
      apply straight_m_wf; [assumption|];
      first [solve [auto with exec] | handler h; first [solve [auto with exec] | solve [repeat keeps_step] | let t := fresh in let Ht := fresh in look t Ht; solve [mem_body]]]
  | |- wf_result (straight _ _ (?h _ _)) =>
      apply straight_wf; first [solve [auto with exec] | handler h; first [solve [vec_wf] | cbv zeta; solve [repeat pure_step]]]
  | |- wf_result (straight _ _ (?h _ _ _)) =>
      apply straight_wf; first [solve [auto with exec] | handler h; first [solve [vec_wf] | cbv zeta; solve [repeat pure_step]]]
  | |- wf_result (straight _ _ (?h _ _ _ _)) =>
      apply straight_wf; first [solve [auto with exec] | handler h; first [solve [vec_wf] | cbv zeta; solve [repeat pure_step]]]
  | |- wf_result (?h _ _ _) => first [solve [auto with exec] | handler h; cbv zeta; solve [auto with exec]]
  | |- wf_result (?h _ _ _ _) => first [solve [auto with exec] | handler h; cbv zeta; solve [auto with exec]]
  end.

Lemma ppu_exec_wf f pc op s : wf s -> in_range 32 pc -> wf_result (exec cfg f pc op s).
Proof. intros Hs Hp. unfold exec. destruct (base f); exec_case. Qed.

Lemma exec_fn_wf g pc op s : wf s -> in_range 32 pc -> wf_result (exec_fn cfg g pc op s).
Proof.
  intros Hs Hp. destruct g; cbn [exec_fn]; auto using ppu_exec_wf, straight_wf, MFOCRF_wf, MFCR_wf.
  - apply straight_wf, form_ab_wf; [exact Hs|intros; gv_range].
  - exact I.
Qed.

Lemma exec_at_wf pc s : wf s -> in_range 32 pc -> wf_result (exec_at cfg pc s).
Proof. intros Hs Hp. unfold exec_at. destruct (read32 _ _) as [op|]; [apply exec_fn_wf; auto|exact I]. Qed.

Lemma run_one_wf s : wf s -> wf_result (run_one cfg s).
Proof.
  intros Hs. unfold run_one. pose proof (exec_at_wf (cia s) s Hs (wf_cia s Hs)) as H.
  destruct (exec_at _ _ _); cbn [wf_result] in *; auto. destruct (read32 _ _); [|exact I]. apply wf_with_cia; auto. apply wrap_range. lia.
Qed.

Lemma run_chain_wf fuel pc s r : wf s -> in_range 32 pc -> run_chain cfg fuel pc s = Some r -> wf_result r.
Proof.
  unfold run_chain. revert pc s.
  induction fuel as [|fuel IH]; intros pc s Hs Hp; cbn [tail_calls]; [discriminate|].
  pose proof (exec_at_wf pc s Hs Hp) as H.
  destruct (exec_at _ _ _) as [t|t|a|]; cbn [wf_result] in H; [|intros [= <-]; auto..].
  apply IH; auto. apply wrap_range. lia.
Qed.

Definition wf_loop (r : run_result) : Prop :=
  match r with Running s | Returned s => wf s | RFault _ | RThrow | Busy => True end.

Lemma test_stopped_wf s : wf s -> wf (test_stopped s).2.
Proof. intros Hs. unfold test_stopped. destruct (_ =? _); auto using check_state_ok. Qed.

Lemma exec_task_wf n chain s : wf s -> wf_loop (exec_task cfg n chain s).
Proof.
  unfold exec_task. revert s. induction n as [|n IH]; intros s Hs; cbn [task_loop]; [exact Hs|].
  pose proof (test_stopped_wf s Hs) as Ht. destruct (test_stopped s) as [[] t]; [exact Ht|]. cbn [snd] in Ht.
  assert (forall r, exec_pass cfg chain t = Some r -> wf_result r) as Hp.
  { intros r. unfold exec_pass. destruct (_ =? _).
    - apply run_chain_wf; auto. apply wf_cia, Ht.
    - intros [= <-]. apply run_one_wf, Ht. }
  destruct (exec_pass _ _ _) as [r|]; [|exact I].
  specialize (Hp r eq_refl). destruct r; cbn [wf_result] in Hp; auto; exact I.
Qed.

Lemma recompiler_fallback_wf compiled n s : wf s -> wf_loop (ppu_recompiler_fallback cfg compiled n s).
Proof.
  unfold ppu_recompiler_fallback. revert s. induction n as [|n IH]; intros s Hs; cbn [fallback_loop]; [exact Hs|].
  destruct (compiled _); [exact Hs|]. pose proof (run_one_wf s Hs) as Hr.
  destruct (run_one cfg s) as [t|t| |]; cbn [wf_result] in Hr; try exact I;
    pose proof (test_stopped_wf t Hr) as Ht; destruct (test_stopped t) as [[] u]; auto.
Qed.
Lemma reservation_fallback_wf n s : wf s -> wf_loop (ppu_reservation_fallback cfg n s).
Proof.
  unfold ppu_reservation_fallback. revert s. induction n as [|n IH]; intros s Hs; cbn [reservation_loop]; [exact Hs|].
  pose proof (run_one_wf s Hs) as Hr.
  destruct (run_one cfg s) as [t|t| |]; cbn [wf_result] in Hr; try exact I; (destruct (_ || _); [exact Hr|]);
    pose proof (test_stopped_wf t Hr) as Ht; destruct (test_stopped t) as [[] u]; auto.
Qed.

(** C7: whatever code guest memory holds, a PPU thread in a well-formed state (32 general
    and floating-point registers of 64 bits, 32 vector registers of 128, condition bits 0 or
    1, link, count and address registers within their widths, memory of bytes) is in one
    after any number of passes of [exec_task], of [ppu_recompiler_fallback] and of
    [ppu_reservation_fallback], whether the loop still runs or has returned, for every host
    whose services keep the state well-formed. *)
Theorem interpreter_keeps_wf compiled n chain s :
  wf s ->
  wf_loop (exec_task cfg n chain s) /\
  wf_loop (ppu_recompiler_fallback cfg compiled n s) /\ wf_loop (ppu_reservation_fallback cfg n s).
Proof. auto using exec_task_wf, recompiler_fallback_wf, reservation_fallback_wf. Qed.
End HandlersWf.

(** ** A concrete host

    System calls stop the thread by raising a flag, a flagged thread stops, reservations
    never hold, and the handlers outside this model do nothing. *)
Module BarePpu.
Definition host : PpuHost := {|
  ppu_lwarx a := fun s => MOk 0 (with_raddr (u32 a) s);
  ppu_ldarx a := fun s => MOk 0 (with_raddr (u32 a) s);
  ppu_stwcx a v := mret false;
  ppu_stdcx a v := mret false;
  reservation_update a := mret tt;
  do_cell_atomic_128_store a := vm_write a 128 0;
  get_timebased_time := mret 0;
  ppu_execute_syscall n s := Leave (with_state 1 s);
  hle_function a op s := None;
  f64_of_f32 v := 0;
  f32_of_f64 v := 0;
  fp_vec_exec f pc op s := Next s;
  check_state s := (true, s);
|}.

Lemma ppu_host_ok : PpuHostOk host.
Proof.
  split; cbn; auto with keeps; try (intros; apply zero_range; lia); try discriminate.
  - intros a s []. split; [apply zero_range; lia|]. constructor; auto. apply wrap_range. lia.
  - intros a s []. split; [apply zero_range; lia|]. constructor; auto. apply wrap_range. lia.
  - apply keeps_ret, zero_range. lia.
  - intros _ s []. constructor; auto.
Qed.

(** A build without a debugger, with the vector settings on. *)
Definition cfg : ppu_config := mk_config false false false false true true true false 0.

(** A thread with a program at 0x10000, a page of code and data, zeroed registers. *)
Fixpoint place (a : Z) (ws : list Z) (m : gmap Z Z) : gmap Z Z :=
  match ws with [] => m | w :: ws => place (a + 4) ws (be_store m a 4 w) end.
Definition boot (ws : list Z) : ppu_thread :=
  mk_ppu_thread (replicate 32 0) (replicate 32 0) (replicate 32 0) (replicate 32 0) 0 0 0 0x10000
    false false false 0 true 0 0x7f800000 0 (replicate 128 0) false 0 0 0 (mk_history [] 0 0 0) ∅
    (mk_guest (place 0x10000 ws ∅) {[ 16 := 0x87; 17 := 0x83 ]} 0 0 0).

Lemma ppu_boot_wf ws : wf (boot ws).
Proof.
  constructor; cbn -[place replicate]; try (apply zero_range; lia);
    try (split; [reflexivity|apply Forall_replicate, zero_range; lia]).
  - unfold in_range. lia.
  - unfold in_range. lia.
  - split; [apply Forall_nil; exact I|apply zero_range; lia].
  - assert (forall a m, bytes_ok m -> bytes_ok (place a ws m)) as H.
    { induction ws as [|w ws IH]; intros a m Hm; cbn [place]; [exact Hm|]. apply IH, be_store_ok, Hm. }
    apply H, map_Forall_empty.
Qed.

(** Operands in registers 3, 4 and 5, and a word whose RD, RA and RB fields name them. *)
Definition sample (a b : Z) : ppu_thread := set 4 (u64 a) (set 5 (u64 b) (boot [])).
Definition op345 : Z := 3 * 2 ^ 21 + 4 * 2 ^ 16 + 5 * 2 ^ 11.
Lemma ppu_sample_wf a b : wf (sample a b).
Proof. unfold sample. repeat (apply ppu_wf_set; [|apply wrap_range; lia]). apply ppu_boot_wf. Qed.
End BarePpu.

(** [li r3, 7; addi r3, r3, -2; sc]. *)
Definition prog_sc : list Z := [0x38600007; 0x3863FFFE; 0x44000002].

Lemma interpreter_keeps_wf_witness :
  wf (BarePpu.boot prog_sc) /\
  exists t, @exec_task BarePpu.cfg BarePpu.host 2 10 (BarePpu.boot prog_sc) = Returned t /\ get t 3 = 5 /\ wf t.
Proof.
  pose proof (BarePpu.ppu_boot_wf prog_sc) as Hs. split; [exact Hs|].
  destruct (@interpreter_keeps_wf BarePpu.cfg BarePpu.host BarePpu.ppu_host_ok (fun _ => false) 2 10 _ Hs) as [Ht _].
  assert (exists t, @exec_task BarePpu.cfg BarePpu.host 2 10 (BarePpu.boot prog_sc) = Returned t /\ get t 3 = 5) as (t & E & E3).
  { eexists. split; vm_compute; reflexivity. }
  exists t. rewrite E in Ht. auto.
Defined.
