(* ===== verification/PpuArith.v ===== *)
(** * Fixed-point arithmetic of the PPU

    Each addition, subtraction, multiplication and division handler against a reference
    on integers: the result, the carry, the overflow bits and the condition register field
    0 it leaves.  Then arithmetic on two registers by sequences of instructions. *)

From Stdlib Require Import ZArith Lia Bool.
From stdpp Require Import base numbers list gmap.
From S2P Require Import Prelude V128 Bytes GuestMem BitField PpuOpcodes PpuThread PpuInterp PpuWf.
Import ppu_opcode_t Interp.

(** ** The reference

    [v] goes to register [r]; [c], if given, to the carry; [o] to the overflow bit of the
    forms that have it, which the summary overflow accumulates; the record forms compare
    the signed result with zero, and with the PPU Debug setting also add the field to the
    statistics word of the current instruction. *)
Definition fits (w x : Z) : bool := (- 2 ^ (w - 1) <=? x) && (x <? 2 ^ (w - 1)).

Definition cr0 (v : Z) (so_ : bool) : list Z :=
  [Z.b2z (s64 v <? 0); Z.b2z (0 <? s64 v); Z.b2z (s64 v =? 0); Z.b2z so_].

Definition note_field (cfg : ppu_config) (field : list Z) (s : ppu_thread) : ppu_thread :=
  if ppu_debug cfg then with_stat (<[cia s := Z.lor (default 0 (stat s !! cia s)) (field_word field)]> (stat s)) s else s.
Definition commit (cfg : ppu_config) (f : fn) (r v : Z) (c : option bool) (o : bool) (s : ppu_thread) : ppu_thread :=
  let so_ := if has_oe f then so s || o else so s in
  let s := with_gpr (<[Z.to_nat r := v]> (gpr s)) s in
  let s := with_ca (default (ca s) c) s in
  let s := if has_oe f then with_so so_ (with_ov o s) else s in
  if has_rc f then note_field cfg (cr0 v so_) (with_cr (cr0 v so_ ++ drop 4 (cr s)) s) else s.

(** ** The handlers' helpers *)

Lemma sign_spec x : in_range 64 x -> sign x = if x <? 2 ^ 63 then 0 else 1.
Proof.
  intros Hx. unfold sign, in_range in *. rewrite Z.shiftr_div_pow2 by lia.
  destruct (Z.ltb_spec x (2 ^ 63)); Z.div_mod_to_equations; lia.
Qed.
Lemma not64_spec x : in_range 64 x -> not64 x = 2 ^ 64 - 1 - x.
Proof.
  intros Hx. unfold not64.
  assert (Z.ldiff x (Z.ones 64) = 0) as H0.
  { bits. rewrite (testbit_high 64 x) by (auto; lia). reflexivity. }
  replace (2 ^ 64 - 1 - x) with (Z.ones 64 - x) by (rewrite Z.ones_equiv; lia).
  rewrite Z.sub_nocarry_ldiff by exact H0. bits. rewrite (testbit_high 64 x) by (auto; lia). reflexivity.
Qed.
Lemma u64_cases x : 0 <= x < 2 * 2 ^ 64 -> u64 x = if x <? 2 ^ 64 then x else x - 2 ^ 64.
Proof.
  intros Hx. unfold wrap. destruct (Z.ltb_spec x (2 ^ 64)); [apply Z.mod_small; lia|].
  rewrite <- (Z.mod_add x (-1)), Z.mod_small by lia. lia.
Qed.
Lemma s64_cases x : in_range 64 x -> s64 x = if x <? 2 ^ 63 then x else x - 2 ^ 64.
Proof. intros Hx. rewrite (sint_unsigned 64) by (auto; lia). reflexivity. Qed.
Lemma s64_not64 x : in_range 64 x -> s64 (not64 x) = - s64 x - 1.
Proof.
  intros Hx. rewrite not64_spec, !s64_cases by (auto; unfold in_range in *; lia). unfold in_range in Hx.
  destruct (Z.ltb_spec x (2 ^ 63)), (Z.ltb_spec (2 ^ 64 - 1 - x) (2 ^ 63)); lia.
Qed.
Lemma u64_s64 x : u64 (s64 x) = u64 x.
Proof. apply wrap_sint. lia. Qed.
Lemma u64_s64_add x y z : u64 (s64 x + s64 y + z) = u64 (x + y + z).
Proof.
  replace (s64 x + s64 y + z) with (s64 x + (s64 y + z)) by lia. rewrite <- wrap_add_l, u64_s64, wrap_add_l.
  replace (x + (s64 y + z)) with (s64 y + (x + z)) by lia. rewrite <- wrap_add_l, u64_s64, wrap_add_l.
  f_equal. lia.
Qed.

(** [split_64]: case analysis on every comparison, the innermost first. *)
Ltac no_if a := lazymatch a with context [if _ then _ else _] => fail | _ => idtac end.
Ltac split_64 :=
  repeat match goal with
  | |- context [?a <? ?b] => no_if a; destruct (Z.ltb_spec a b)
  | |- context [?a <=? ?b] => no_if a; destruct (Z.leb_spec a b)
  | |- context [?a =? ?b] => no_if a; destruct (Z.eqb_spec a b)
  end; cbn [andb orb negb Z.b2z] in *; try reflexivity; try lia.

(** The test of the sign bits finds the signed sums that do not fit. *)
Lemma add_overflow_spec a b (c : bool) :
  in_range 64 a -> in_range 64 b ->
  add_overflow a b (u64 (a + b + Z.b2z c)) = negb (fits 64 (s64 a + s64 b + Z.b2z c)).
Proof.
  intros Ha Hb. unfold add_overflow.
  assert (0 <= a + b + Z.b2z c < 2 * 2 ^ 64) as Hs by (unfold in_range in *; destruct c; cbn; lia).
  rewrite !sign_spec by (auto; apply wrap_range; lia). rewrite !s64_cases by auto.
  rewrite (u64_cases _ Hs). unfold fits, in_range in *. change (64 - 1) with 63. 
  destruct c; cbn [Z.b2z] in *; split_64.
Qed.

Lemma add64_flags_spec a b :
  in_range 64 a -> in_range 64 b -> add64_flags a b = (u64 (a + b), 2 ^ 64 <=? a + b).
Proof.
  intros Ha Hb. unfold add64_flags, in_range in *. rewrite u64_cases by lia. f_equal. split_64.
Qed.
Lemma add64_flags_c_spec a b (c : bool) :
  in_range 64 a -> in_range 64 b ->
  add64_flags_c a b c = (u64 (a + b + Z.b2z c), 2 ^ 64 <=? a + b + Z.b2z c).
Proof.
  intros Ha Hb. unfold add64_flags_c. rewrite add64_flags_spec by auto. cbv beta iota zeta.
  assert (in_range 64 (Z.b2z c)) as Hc by (apply (in_range_le 1); [lia|apply b2z_range]).
  pose proof (wrap_range 64 (a + b) ltac:(lia)) as Hr.
  rewrite (add64_flags_spec (u64 (a + b))) by auto. cbv beta iota zeta. rewrite wrap_add_l. f_equal.
  unfold in_range in *. rewrite u64_cases by lia. destruct c; cbn [Z.b2z] in *; split_64.
Qed.

(** The record form on field 0. *)
Lemma cr0_update (l : list Z) a b c d :
  length l = 32%nat ->
  <[3%nat := d]> (<[2%nat := c]> (<[1%nat := b]> (<[0%nat := a]> l))) = [a; b; c; d] ++ drop 4 l.
Proof. intros Hl. destruct l as [|? [|? [|? [|? l]]]]; try discriminate Hl. reflexivity. Qed.

Section Arith.
Context (cfg : ppu_config).

Lemma record_spec f v s :
  length (cr s) = 32%nat ->
  record cfg f v s = if has_rc f then note_field cfg (cr0 v (so s)) (with_cr (cr0 v (so s) ++ drop 4 (cr s)) s) else s.
Proof.
  intros Hl. unfold record, ppu_cr_cmp, ppu_cr_set, note_field. destruct (has_rc f); [|reflexivity].
  unfold set_cr_bit, with_cr, cr0, cr_field. cbn [cr gpr stat cia]. change (Z.to_nat (0 * 4 + 0)) with 0%nat.
  change (Z.to_nat (0 * 4 + 1)) with 1%nat. change (Z.to_nat (0 * 4 + 2)) with 2%nat. change (Z.to_nat (0 * 4 + 3)) with 3%nat.
  rewrite (cr0_update (cr s)) by auto. reflexivity.
Qed.

Lemma commit_none f r v o s :
  wf s -> record cfg f v (oe_set f o (set r v s)) = commit cfg f r v None o s.
Proof.
  intros Hs. pose proof (proj1 (wf_cr s Hs)) as Hl.
  rewrite record_spec by (unfold oe_set; destruct (has_oe f); exact Hl).
  unfold commit, oe_set, ppu_ov_set, set. destruct (has_oe f), (has_rc f), s; reflexivity.
Qed.
Lemma commit_some f r v c o s :
  wf s -> record cfg f v (oe_set f o (with_ca c (set r v s))) = commit cfg f r v (Some c) o s.
Proof.
  intros Hs. pose proof (proj1 (wf_cr s Hs)) as Hl.
  rewrite record_spec by (unfold oe_set; destruct (has_oe f); exact Hl).
  unfold commit, oe_set, ppu_ov_set, set. destruct (has_oe f), (has_rc f), s; reflexivity.
Qed.
Lemma add_end_spec f op a b c s :
  wf s -> in_range 64 a -> in_range 64 b ->
  add_end cfg f op a (sign b) (add64_flags_c a b c) s =
  commit cfg f (rd op) (u64 (s64 a + s64 b + Z.b2z c)) (Some (2 ^ 64 <=? a + b + Z.b2z c))
    (negb (fits 64 (s64 a + s64 b + Z.b2z c))) s.
Proof.
  intros Hs Ha Hb. unfold add_end. rewrite add64_flags_c_spec by auto. cbn [fst snd].
  rewrite <- add_overflow_spec, u64_s64_add by auto. apply commit_some, Hs.
Qed.

Lemma add_end_plain f op a b s :
  wf s -> in_range 64 a -> in_range 64 b ->
  add_end cfg f op a (sign b) (add64_flags a b) s =
  commit cfg f (rd op) (u64 (s64 a + s64 b)) (Some (2 ^ 64 <=? a + b)) (negb (fits 64 (s64 a + s64 b))) s.
Proof.
  intros Hs Ha Hb. pose proof (add_end_spec f op a b false s Hs Ha Hb) as H. cbn [Z.b2z] in H.
  rewrite !Z.add_0_r in H. rewrite <- H. f_equal.
  rewrite add64_flags_c_spec, add64_flags_spec by auto. cbn [Z.b2z]. rewrite !Z.add_0_r. reflexivity.
Qed.
Lemma add_plain f op a b s :
  wf s -> in_range 64 a -> in_range 64 b ->
  record cfg f (u64 (a + b)) (oe_set f (add_overflow a b (u64 (a + b))) (set (rd op) (u64 (a + b)) s)) =
  commit cfg f (rd op) (u64 (s64 a + s64 b)) None (negb (fits 64 (s64 a + s64 b))) s.
Proof.
  intros Hs Ha Hb. pose proof (add_overflow_spec a b false Ha Hb) as H. cbn [Z.b2z] in H.
  rewrite !Z.add_0_r in H. rewrite H, commit_none by auto. f_equal.
  pose proof (u64_s64_add a b 0) as E. rewrite !Z.add_0_r in E. auto.
Qed.

(** The sum of signed integers [x] stands for, with overflow when it does not fit. *)
Definition sum_to (f : fn) (op x : Z) (c : option bool) (s : ppu_thread) : ppu_thread :=
  commit cfg f (rd op) (u64 x) c (negb (fits 64 x)) s.

Lemma sum_to_eq f op x y c d s : x = y -> c = d -> sum_to f op x c s = sum_to f op y d s.
Proof. congruence. Qed.

Lemma simm16_sint op : simm16 op = s16 (uimm16 op).
Proof. unfold simm16, uimm16, ppu_bf, ppu_bf_s. rewrite bf.extract_s_sint by lia. reflexivity. Qed.
Lemma s64_simm16 op : s64 (u64 (simm16 op)) = simm16 op.
Proof.
  rewrite sint_wrap, simm16_sint by lia. apply sint_small; [lia|].
  pose proof (sint_range 16 (uimm16 op) ltac:(lia)). lia.
Qed.

Lemma subtract f op s :
  wf s -> SUBF cfg f op s = sum_to f op (s64 (get s (rb op)) - s64 (get s (ra op))) None s.
Proof.
  intros Hs. pose proof (gpr_range s (ra op) Hs) as Ha. pose proof (gpr_range s (rb op) Hs) as Hb.
  pose proof (add_overflow_spec _ _ true (not64_range _ Ha) Hb) as H.
  assert (u64 (get s (rb op) - get s (ra op)) = u64 (not64 (get s (ra op)) + get s (rb op) + 1)) as E.
  { rewrite not64_spec by auto. unfold wrap. rewrite <- (Z.mod_add (_ - _) 1) by lia. f_equal. lia. }
  unfold SUBF. cbv zeta. rewrite E. cbn [Z.b2z] in H. rewrite H, commit_none by auto. unfold sum_to.
  rewrite <- u64_s64_add, s64_not64 by auto.
  replace (- s64 (get s (ra op)) - 1 + s64 (get s (rb op)) + 1) with (s64 (get s (rb op)) - s64 (get s (ra op))) by lia.
  reflexivity.
Qed.
Lemma negate f op s : wf s -> NEG cfg f op s = sum_to f op (0 - s64 (get s (ra op))) None s.
Proof.
  intros Hs. pose proof (gpr_range s (ra op) Hs) as Ha. unfold NEG. cbv zeta.
  rewrite commit_none by auto. unfold sum_to. f_equal.
  - rewrite <- (wrap_sub_r 64 0 (s64 _)), u64_s64, wrap_sub_r. reflexivity.
  - rewrite s64_cases by auto. unfold fits, in_range in *. change (Z.shiftl 1 63) with (2 ^ 63). split_64.
Qed.
Lemma subtract_imm op s :
  wf s ->
  SUBFIC op s = sum_to (Fn Name.SUBFIC false false) op (simm16 op - s64 (get s (ra op)))
                  (Some (get s (ra op) <=? u64 (simm16 op))) s.
Proof.
  intros Hs. pose proof (gpr_range s (ra op) Hs) as Ha. pose proof (wrap_range 64 (simm16 op) ltac:(lia)) as Hi.
  unfold SUBFIC. cbv zeta. rewrite add64_flags_c_spec by auto using not64_range. cbn [fst snd Z.b2z].
  rewrite <- u64_s64_add, s64_not64, s64_simm16, not64_spec by auto.
  replace (- s64 (get s (ra op)) - 1 + simm16 op + 1) with (simm16 op - s64 (get s (ra op))) by lia.
  replace (2 ^ 64 <=? 2 ^ 64 - 1 - get s (ra op) + u64 (simm16 op) + 1) with (get s (ra op) <=? u64 (simm16 op)) by split_64.
  reflexivity.
Qed.
Lemma odd_land1 x : negb (Z.land x 1 =? 0) = Z.odd x.
Proof.
  change 1 with (Z.ones 1). rewrite Z.land_ones by lia. change (2 ^ 1) with 2. rewrite Zmod_odd.
  destruct (Z.odd x); reflexivity.
Qed.
Lemma add_imm op s :
  wf s ->
  ADDIC cfg op s = sum_to (Fn Name.ADDIC false (Z.odd (main op))) op (s64 (get s (ra op)) + simm16 op)
                     (Some (2 ^ 64 <=? get s (ra op) + u64 (simm16 op))) s.
Proof.
  intros Hs. pose proof (gpr_range s (ra op) Hs) as Ha. pose proof (wrap_range 64 (simm16 op) ltac:(lia)) as Hi.
  unfold ADDIC. cbv zeta. rewrite add64_flags_spec by auto. cbn [fst snd]. rewrite odd_land1.
  pose proof (u64_s64_add (get s (ra op)) (u64 (simm16 op)) 0) as E. rewrite !Z.add_0_r, s64_simm16 in E.
  unfold sum_to. rewrite E, <- commit_some by auto. reflexivity.
Qed.

(** C8: every addition and subtraction handler leaves in RD the 64-bit wrap of the sum or
    difference of its signed operands, sets the carry exactly when the unsigned addition
    the architecture defines carries out of bit 63 (for subtraction: when nothing is
    borrowed), in the OE forms sets OV exactly when the signed result does not fit in 64 bits
    and accumulates it in SO, in the record forms sets CR0 from the sign of the result and
    the new SO (and, with the PPU Debug setting, adds the field to the statistics word of the
    instruction), and changes nothing else: ADD, ADDC, ADDE, ADDZE, ADDME, SUBF, SUBFC, SUBFE,
    SUBFZE, SUBFME, NEG, and the immediate forms ADDIC and SUBFIC. *)
Theorem additions f op s :
  wf s ->
  let RA := get s (ra op) in let RB := get s (rb op) in let CA := Z.b2z (ca s) in
  ADD cfg f op s = sum_to f op (s64 RA + s64 RB) None s /\
  ADDC cfg f op s = sum_to f op (s64 RA + s64 RB) (Some (2 ^ 64 <=? RA + RB)) s /\
  ADDE cfg f op s = sum_to f op (s64 RA + s64 RB + CA) (Some (2 ^ 64 <=? RA + RB + CA)) s /\
  ADDZE cfg f op s = sum_to f op (s64 RA + CA) (Some (2 ^ 64 <=? RA + CA)) s /\
  ADDME cfg f op s = sum_to f op (s64 RA + CA - 1) (Some (1 <=? RA + CA)) s /\
  SUBF cfg f op s = sum_to f op (s64 RB - s64 RA) None s /\
  SUBFC cfg f op s = sum_to f op (s64 RB - s64 RA) (Some (RA <=? RB)) s /\
  SUBFE cfg f op s = sum_to f op (s64 RB - s64 RA - 1 + CA) (Some (RA + 1 - CA <=? RB)) s /\
  SUBFZE cfg f op s = sum_to f op (0 - s64 RA - 1 + CA) (Some (RA + 1 - CA <=? 0)) s /\
  SUBFME cfg f op s = sum_to f op (-1 - s64 RA - 1 + CA) (Some (RA + 1 - CA <=? 2 ^ 64 - 1)) s /\
  NEG cfg f op s = sum_to f op (0 - s64 RA) None s /\
  SUBFIC op s = sum_to (Fn Name.SUBFIC false false) op (simm16 op - s64 RA) (Some (RA <=? u64 (simm16 op))) s /\
  ADDIC cfg op s = sum_to (Fn Name.ADDIC false (Z.odd (main op))) op (s64 RA + simm16 op)
                     (Some (2 ^ 64 <=? RA + u64 (simm16 op))) s.
Proof.
  intros Hs RA RB CA.
  assert (in_range 64 RA) as Ha by (apply gpr_range, Hs). assert (in_range 64 RB) as Hb by (apply gpr_range, Hs).
  pose proof (not64_range RA Ha) as Hn. pose proof (s64_not64 RA Ha) as En. pose proof (not64_spec RA Ha) as Un.
  pose proof (ones_range 64 ltac:(lia)) as H1. pose proof (zero_range 64 ltac:(lia)) as H0.
  pose proof (wrap_range 64 (simm16 op) ltac:(lia)) as Hi. pose proof (s64_simm16 op) as Ei.
  repeat split.
  - apply add_plain; auto.
  - apply add_end_plain; auto.
  - apply add_end_spec; auto.
  - unfold ADDZE. rewrite (add_end_spec f op RA 0) by auto. apply sum_to_eq; [|f_equal]; fold CA; change (s64 0) with 0; [lia|].
    rewrite Z.add_0_r. reflexivity.
  - unfold ADDME. rewrite (add_end_spec f op RA (Z.ones 64)) by auto.
    apply sum_to_eq; [|f_equal]; fold CA; change (s64 (Z.ones 64)) with (-1); change (Z.ones 64) with (2 ^ 64 - 1); [lia|].
    split_64.
  - apply subtract; auto.
  - unfold SUBFC. fold RA RB. rewrite add_end_spec by auto. apply sum_to_eq; [|f_equal]; rewrite ?En, ?Un; cbn [Z.b2z]; [lia|].
    split_64.
  - unfold SUBFE. fold RA RB. rewrite add_end_spec by auto. apply sum_to_eq; [|f_equal]; rewrite ?En, ?Un; fold CA; [lia|].
    split_64.
  - unfold SUBFZE. fold RA. rewrite (add_end_spec f op (not64 RA) 0) by auto.
    apply sum_to_eq; [|f_equal]; rewrite ?En, ?Un; fold CA; change (s64 0) with 0; [lia|]. split_64.
  - unfold SUBFME. fold RA. rewrite (add_end_spec f op (not64 RA) (Z.ones 64)) by auto.
    apply sum_to_eq; [|f_equal]; rewrite ?En, ?Un; fold CA; change (s64 (Z.ones 64)) with (-1);
      change (Z.ones 64) with (2 ^ 64 - 1); [lia|]. split_64.
  - apply negate; auto.
  - apply subtract_imm; auto.
  - apply add_imm; auto.
Qed.

(** ** Two registers as one number *)

Lemma commit_get f r v c o s : wf s -> reg_ok r -> get (commit cfg f r v c o s) r = v.
Proof.
  intros Hs Hr. unfold commit. transitivity (get (set r v s) r); [|apply gpr_set_eq; auto].
  unfold note_field. destruct (has_oe f), (has_rc f), (ppu_debug cfg); reflexivity.
Qed.
Lemma commit_get_ne f r v c o s r' : reg_ok r -> reg_ok r' -> r <> r' -> get (commit cfg f r v c o s) r' = get s r'.
Proof.
  intros [Hr _] [Hr' _] Hne. rewrite <- (gpr_set_ne s r r' v Hr Hr' Hne).
  unfold commit, note_field. destruct (has_oe f), (has_rc f), (ppu_debug cfg); reflexivity.
Qed.
Lemma commit_ca f r v c o s : ca (commit cfg f r v c o s) = default (ca s) c.
Proof. unfold commit, note_field. destruct (has_oe f), (has_rc f), (ppu_debug cfg); reflexivity. Qed.
Lemma commit_ov f r v c o s : ov (commit cfg f r v c o s) = if has_oe f then o else ov s.
Proof. unfold commit, note_field. destruct (has_oe f), (has_rc f), (ppu_debug cfg); reflexivity. Qed.

Lemma wf_commit f r v c o s : wf s -> in_range 64 v -> wf (commit cfg f r v c o s).
Proof.
  intros Hs Hv. destruct c as [c|].
  - rewrite <- commit_some by auto. auto with ppu.
  - rewrite <- commit_none by auto. auto with ppu.
Qed.

Definition pair_of (s : ppu_thread) (hi lo : Z) : Z := get s hi * 2 ^ 64 + get s lo.

(** Limbs: the low sum, its carry into the high one. *)
Lemma limb_add a b c d (k : bool) :
  in_range 64 a -> in_range 64 b -> in_range 64 c -> in_range 64 d ->
  let lo := b + d + Z.b2z k in let cl := Z.b2z (2 ^ 64 <=? lo) in
  let sum := (a * 2 ^ 64 + b) + (c * 2 ^ 64 + d) + Z.b2z k in
  u64 (a + c + cl) * 2 ^ 64 + u64 lo = wrap 128 sum /\ (2 ^ 64 <=? a + c + cl) = (2 ^ 128 <=? sum) /\
  fits 64 (s64 a + s64 c + cl) = fits 128 (sint 128 (a * 2 ^ 64 + b) + sint 128 (c * 2 ^ 64 + d) + Z.b2z k).
Proof.
  intros Ha Hb Hc Hd. cbv zeta. unfold in_range in *.
  assert (0 <= Z.b2z k <= 1) as Hk by (destruct k; cbn; lia). generalize dependent (Z.b2z k). clear k. intros k Hk.
  rewrite (u64_cases (b + d + k)) by lia.
  rewrite !(sint_unsigned 128) by (unfold in_range; lia).
  rewrite !s64_cases by (unfold in_range; lia).
  assert (wrap 128 (a * 2 ^ 64 + b + (c * 2 ^ 64 + d) + k) =
          if a * 2 ^ 64 + b + (c * 2 ^ 64 + d) + k <? 2 ^ 128 then a * 2 ^ 64 + b + (c * 2 ^ 64 + d) + k
          else a * 2 ^ 64 + b + (c * 2 ^ 64 + d) + k - 2 ^ 128) as ->.
  { unfold wrap. destruct (Z.ltb_spec (a * 2 ^ 64 + b + (c * 2 ^ 64 + d) + k) (2 ^ 128)); [apply Z.mod_small; lia|].
    rewrite <- (Z.mod_add _ (-1)), Z.mod_small by lia. lia. }
  destruct (Z.leb_spec (2 ^ 64) (b + d + k)); cbn [Z.b2z];
    (rewrite u64_cases by lia); unfold fits; repeat split; split_64.
Qed.

Lemma u64_sum a c k : u64 (s64 a + s64 c + k) = u64 (a + c + k).
Proof. apply u64_s64_add. Qed.

(** The second instruction on the operands the first left alone. *)
Lemma chained_add f1 f2 op1 op2 a1 b1 a2 b2 (k : bool) s t :
  wf s -> in_range 64 a1 -> in_range 64 b1 -> in_range 64 a2 -> in_range 64 b2 ->
  rd op1 <> rd op2 ->
  let s1 := commit cfg f1 (rd op1) (u64 (s64 a1 + s64 b1 + Z.b2z k)) (Some (2 ^ 64 <=? a1 + b1 + Z.b2z k))
              (negb (fits 64 (s64 a1 + s64 b1 + Z.b2z k))) s in
  t = add_end cfg f2 op2 a2 (sign b2) (add64_flags_c a2 b2 (ca s1)) s1 ->
  let sum := (a2 * 2 ^ 64 + a1) + (b2 * 2 ^ 64 + b1) + Z.b2z k in
  pair_of t (rd op2) (rd op1) = wrap 128 sum /\ ca t = (2 ^ 128 <=? sum) /\
  (has_oe f2 = true ->
   ov t = negb (fits 128 (sint 128 (a2 * 2 ^ 64 + a1) + sint 128 (b2 * 2 ^ 64 + b1) + Z.b2z k))).
Proof.
  intros Hs Ha1 Hb1 Ha2 Hb2 Hne s1 Ht sum.
  assert (wf s1) as Hs1 by (apply wf_commit; [exact Hs|apply wrap_range; lia]).
  rewrite add_end_spec in Ht by auto. replace (ca s1) with (2 ^ 64 <=? a1 + b1 + Z.b2z k) in Ht by (symmetry; apply commit_ca).
  destruct (limb_add a2 a1 b2 b1 k) as (E1 & E2 & E3); auto. cbv zeta in E1, E2, E3.
  rewrite E2, E3, u64_sum in Ht. subst t. unfold pair_of.
  rewrite commit_get, commit_get_ne, commit_ca, commit_ov by (auto; apply ppu_reg_field).
  unfold s1. rewrite commit_get, u64_sum by (auto; apply ppu_reg_field). repeat split; auto.
  intros ->. reflexivity.
Qed.

Lemma ADDC_commit f op s :
  wf s ->
  ADDC cfg f op s =
  commit cfg f (rd op) (u64 (s64 (get s (ra op)) + s64 (get s (rb op)) + Z.b2z false))
    (Some (2 ^ 64 <=? get s (ra op) + get s (rb op) + Z.b2z false))
    (negb (fits 64 (s64 (get s (ra op)) + s64 (get s (rb op)) + Z.b2z false))) s.
Proof. intros Hs. cbn [Z.b2z]. rewrite !Z.add_0_r. apply add_end_plain; auto with ppu. Qed.
Lemma SUBFC_commit f op s :
  wf s ->
  SUBFC cfg f op s =
  commit cfg f (rd op) (u64 (s64 (not64 (get s (ra op))) + s64 (get s (rb op)) + Z.b2z true))
    (Some (2 ^ 64 <=? not64 (get s (ra op)) + get s (rb op) + Z.b2z true))
    (negb (fits 64 (s64 (not64 (get s (ra op))) + s64 (get s (rb op)) + Z.b2z true))) s.
Proof. intros Hs. apply add_end_spec; auto using not64_range with ppu. Qed.

(** The one's complement of a pair, and the subtraction it stands for. *)
Lemma pair_range s hi lo : wf s -> in_range 128 (pair_of s hi lo).
Proof.
  intros Hs. pose proof (gpr_range s hi Hs). pose proof (gpr_range s lo Hs). unfold pair_of, in_range in *. lia.
Qed.
Lemma not64_pair s hi lo :
  wf s -> not64 (get s hi) * 2 ^ 64 + not64 (get s lo) = 2 ^ 128 - 1 - pair_of s hi lo.
Proof. intros Hs. rewrite !not64_spec by auto with ppu. unfold pair_of. lia. Qed.
Lemma sub_pair_wrap A B : wrap 128 (2 ^ 128 - 1 - A + B + 1) = wrap 128 (B - A).
Proof. unfold wrap. rewrite <- (Z.mod_add (B - A) 1) by lia. f_equal. lia. Qed.
Lemma sub_pair_borrow A B : (2 ^ 128 <=? 2 ^ 128 - 1 - A + B + 1) = (A <=? B).
Proof. split_64. Qed.
Lemma sub_pair_sint A B :
  in_range 128 A -> sint 128 (2 ^ 128 - 1 - A) + sint 128 B + 1 = sint 128 B - sint 128 A.
Proof.
  intros HA. rewrite !(sint_unsigned 128 (_ - A)), (sint_unsigned 128 A) by (unfold in_range in *; lia).
  unfold in_range in *. change (128 - 1) with 127. split_64.
Qed.

(** C13: addition and subtraction of 128-bit numbers in register pairs: when [ADDC] on the
    low halves is followed by [ADDE] on the high ones, with a low result register that is
    none of the later operands, the pair of results is the sum modulo 2^128, CA is the carry
    out of bit 127 and the OE form's OV tells whether the signed 128-bit sum does not fit;
    [SUBFC] then [SUBFE] give the difference, CA the absence of a borrow, and OV
    likewise. *)
Theorem double_word f1 f2 op1 op2 s :
  wf s -> rd op1 <> ra op2 -> rd op1 <> rb op2 -> rd op1 <> rd op2 ->
  let A := pair_of s (ra op2) (ra op1) in let B := pair_of s (rb op2) (rb op1) in
  let t := ADDE cfg f2 op2 (ADDC cfg f1 op1 s) in
  let u := SUBFE cfg f2 op2 (SUBFC cfg f1 op1 s) in
  pair_of t (rd op2) (rd op1) = wrap 128 (A + B) /\ ca t = (2 ^ 128 <=? A + B) /\
  (has_oe f2 = true -> ov t = negb (fits 128 (sint 128 A + sint 128 B))) /\
  pair_of u (rd op2) (rd op1) = wrap 128 (B - A) /\ ca u = (A <=? B) /\
  (has_oe f2 = true -> ov u = negb (fits 128 (sint 128 B - sint 128 A))).
Proof.
  intros Hs Hra Hrb Hrd A B t u. pose proof (fun r => gpr_range s r Hs) as Hg.
  destruct (chained_add f1 f2 op1 op2 (get s (ra op1)) (get s (rb op1)) (get s (ra op2)) (get s (rb op2)) false s t)
    as (T1 & T2 & T3); auto.
  { unfold t. rewrite ADDC_commit by auto. unfold ADDE. cbv zeta.
    rewrite !commit_get_ne by (auto; apply ppu_reg_field). reflexivity. }
  destruct (chained_add f1 f2 op1 op2 (not64 (get s (ra op1))) (get s (rb op1)) (not64 (get s (ra op2))) (get s (rb op2)) true s u)
    as (U1 & U2 & U3); auto using not64_range.
  { unfold u. rewrite SUBFC_commit by auto. unfold SUBFE. cbv zeta.
    rewrite !commit_get_ne by (auto; apply ppu_reg_field). reflexivity. }
  rewrite !not64_pair in U1, U2, U3 by auto. cbn [Z.b2z] in T1, T2, T3, U1, U2, U3.
  rewrite !Z.add_0_r in T1, T2, T3. fold A B in U1, U2, U3.
  rewrite sub_pair_wrap in U1. rewrite sub_pair_borrow in U2. rewrite sub_pair_sint in U3 by (apply pair_range; auto).
  auto 10.
Qed.

(** ** Multiplication and division *)

Lemma high_part p : Z.shiftr p 64 = p / 2 ^ 64.
Proof. apply Z.shiftr_div_pow2. lia. Qed.

(** [mulh64(a, b) != (s64)result >> 63] finds the products that do not fit. *)
Lemma product_overflow p : negb (Z.shiftr p 64 =? Z.shiftr (s64 (u64 p)) 63) = negb (fits 64 p).
Proof.
  pose proof (wrap_range 64 p ltac:(lia)) as Hr. rewrite s64_cases by auto. unfold in_range in Hr.
  rewrite !Z.shiftr_div_pow2 by lia. unfold fits. change (64 - 1) with 63.
  assert (p = 2 ^ 64 * (p / 2 ^ 64) + u64 p) as Ep by (unfold wrap; apply Z.div_mod; lia).
  assert ((if u64 p <? 2 ^ 63 then u64 p else u64 p - 2 ^ 64) / 2 ^ 63 = if u64 p <? 2 ^ 63 then 0 else -1) as ->.
  { destruct (Z.ltb_spec (u64 p) (2 ^ 63)); Z.div_mod_to_equations; lia. }
  split_64.
Qed.

Lemma product_bound m x y : - m <= x <= m -> - m <= y <= m -> - (m * m) <= x * y <= m * m.
Proof. nia. Qed.
Lemma s32_product a b : - 2 ^ 62 <= s32 a * s32 b <= 2 ^ 62.
Proof.
  pose proof (sint_range 32 a ltac:(lia)). pose proof (sint_range 32 b ltac:(lia)).
  pose proof (product_bound (2 ^ 31) (s32 a) (s32 b)). lia.
Qed.
Lemma s64_product a b : - 2 ^ 126 <= s64 a * s64 b <= 2 ^ 126.
Proof.
  pose proof (sint_range 64 a ltac:(lia)). pose proof (sint_range 64 b ltac:(lia)).
  pose proof (product_bound (2 ^ 63) (s64 a) (s64 b)). lia.
Qed.
Lemma s64_s64 x : s64 (s64 x) = s64 x.
Proof. apply sint_small; [lia|]. apply sint_range. lia. Qed.

(** A quotient of [w]-bit signed integers leaves the range only for the one pair. *)
Lemma quot_fits w a b :
  1 < w -> - 2 ^ (w - 1) <= a < 2 ^ (w - 1) -> b <> 0 ->
  fits w (Z.quot a b) = negb ((a =? - 2 ^ (w - 1)) && (b =? -1)).
Proof.
  intros Hw Ha Hb. pose proof (pow2_pos (w - 1) ltac:(lia)).
  assert (Z.abs (Z.quot a b) * Z.abs b <= Z.abs a) as Hq.
  { rewrite <- Z.quot_abs, Z.mul_comm by auto. apply Z.mul_quot_le; lia. }
  unfold fits.
  destruct (Z.eqb_spec b (-1)) as [->|Hne].
  - assert (Z.quot a (-1) = - a) as -> by (change (-1) with (- (1)); rewrite Z.quot_opp_r, Z.quot_1_r; lia).
    destruct (Z.eqb_spec a (- 2 ^ (w - 1))); split_64.
  - rewrite andb_false_r. cbn [negb].
    destruct (Z.eq_dec b 1) as [->|]; [rewrite Z.quot_1_r; split_64|].
    assert (Z.abs (Z.quot a b) < 2 ^ (w - 1) \/ a = 0 /\ Z.quot a b = 0) as [H1|[-> ->]]; [|split_64..].
    destruct (Z.eq_dec a 0) as [->|]; [right; split; [reflexivity|apply Z.quot_0_l; auto]|left; nia].
Qed.

(** The forms without an OE bit. *)
Definition no_oe (f : fn) : fn := Fn (base f) false (has_rc f).
Lemma high_commit v f op s :
  wf s -> high cfg v f op s = commit cfg (no_oe f) (rd op) (v (get s (ra op)) (get s (rb op))) None false s.
Proof. intros Hs. rewrite <- commit_none by auto. reflexivity. Qed.

Lemma quotient_end w f op a b conv s :
  1 < w -> - 2 ^ (w - 1) <= a < 2 ^ (w - 1) -> wf s ->
  let o := (b =? 0) || ((a =? - 2 ^ (w - 1)) && (b =? -1)) in
  let bad := (b =? 0) || negb (fits w (Z.quot a b)) in
  record cfg f (if o then 0 else conv (Z.quot a b)) (oe_set f o (set (rd op) (if o then 0 else conv (Z.quot a b)) s)) =
  commit cfg f (rd op) (if bad then 0 else conv (Z.quot a b)) None bad s.
Proof.
  intros Hw Ha Hs. cbv zeta. rewrite commit_none by auto.
  replace ((b =? 0) || negb (fits w (Z.quot a b))) with ((b =? 0) || ((a =? - 2 ^ (w - 1)) && (b =? -1))); [reflexivity|].
  destruct (Z.eqb_spec b 0); [reflexivity|]. cbn [orb]. rewrite quot_fits, negb_involutive by auto. reflexivity.
Qed.

(** C16: the multiplication handlers leave the low or the high half of the exact product:
    MULLD the low 64 bits of the signed product with OV exactly when it does not fit in 64
    bits, MULHD and MULHDU halves that give back the signed and the unsigned product
    together with the low 64 bits, MULLW and MULHW, MULHWU the same for the low words, OV of
    MULLW when the product does not fit in 32 bits.  The division handlers leave the
    quotient truncated toward zero; they leave 0 and set OV exactly when the divisor is 0 or
    the quotient does not fit (the smallest number by -1).  Record forms set CR0 (and, with the
    PPU Debug setting, add it to the statistics word of the instruction), and nothing else
    changes.  The handler is taken in the form that the OE bit of the word selects, as the decoder
    does ([PpuDecode.ppu_decode_correct]); the product of MULLD is the wrapped one (see MULLD). *)
Theorem products_and_quotients f op s :
  wf s -> has_oe f = negb (oe op =? 0) ->
  let RA := get s (ra op) in let RB := get s (rb op) in
  let A := s64 RA in let B := s64 RB in let AW := s32 RA in let BW := s32 RB in
  MULLD cfg f op s = commit cfg f (rd op) (u64 (A * B)) None (negb (fits 64 (A * B))) s /\
  MULLW cfg f op s = commit cfg f (rd op) (u64 (AW * BW)) None (negb (fits 32 (AW * BW))) s /\
  (exists h, MULHD cfg f op s = commit cfg (no_oe f) (rd op) h None false s /\ s64 h * 2 ^ 64 + u64 (A * B) = A * B) /\
  (exists h, MULHDU cfg f op s = commit cfg (no_oe f) (rd op) h None false s /\
             in_range 64 h /\ h * 2 ^ 64 + u64 (RA * RB) = RA * RB) /\
  (exists h, MULHW cfg f op s = commit cfg (no_oe f) (rd op) h None false s /\ s64 h * 2 ^ 32 + u32 (AW * BW) = AW * BW) /\
  (exists h, MULHWU cfg f op s = commit cfg (no_oe f) (rd op) h None false s /\
             in_range 32 h /\ h * 2 ^ 32 + u32 (u32 RA * u32 RB) = u32 RA * u32 RB) /\
  (let bad := (B =? 0) || negb (fits 64 (Z.quot A B)) in
   DIVD cfg f op s = commit cfg f (rd op) (if bad then 0 else u64 (Z.quot A B)) None bad s) /\
  (let bad := (BW =? 0) || negb (fits 32 (Z.quot AW BW)) in
   DIVW cfg f op s = commit cfg f (rd op) (if bad then 0 else u32 (Z.quot AW BW)) None bad s) /\
  DIVDU cfg f op s = commit cfg f (rd op) (if RB =? 0 then 0 else Z.quot RA RB) None (RB =? 0) s /\
  DIVWU cfg f op s = commit cfg f (rd op) (if u32 RB =? 0 then 0 else Z.quot (u32 RA) (u32 RB)) None (u32 RB =? 0) s.
Proof.
  intros Hs Hoe RA RB A B AW BW.
  assert (in_range 64 RA) as Ha by (apply gpr_range, Hs). assert (in_range 64 RB) as Hb by (apply gpr_range, Hs).
  pose proof (wrap_range 32 RA ltac:(lia)) as Ha32. pose proof (wrap_range 32 RB ltac:(lia)) as Hb32.
  pose proof (s64_product RA RB) as Hp. pose proof (s32_product RA RB) as Hp32.
  split; [|split; [|split; [|split; [|split; [|split; [|split; [|split; [|split]]]]]]]].
  - rewrite <- commit_none, <- product_overflow by auto. unfold MULLD, oe_set, mulh64. cbv zeta.
    rewrite Hoe, !s64_s64. destruct (negb _); reflexivity.
  - rewrite <- commit_none by auto. unfold MULLW. fold RA RB AW BW. cbv zeta. do 2 f_equal.
    rewrite (sint_wrap 64), (sint_small 64) by lia. unfold fits. change (32 - 1) with 31. split_64.
  - eexists. split; [apply high_commit; auto|]. unfold mulh64. fold RA RB A B.
    rewrite high_part, sint_wrap, sint_small by (Z.div_mod_to_equations; lia).
    unfold wrap. pose proof (Z.div_mod (A * B) (2 ^ 64)). lia.
  - eexists. split; [apply high_commit; auto|]. split; [apply umulh64_range; auto|]. unfold umulh64. fold RA RB.
    rewrite high_part. unfold wrap. pose proof (Z.div_mod (RA * RB) (2 ^ 64)). lia.
  - eexists. split; [apply high_commit; auto|]. cbv beta. fold RA RB AW BW.
    rewrite Z.shiftr_div_pow2, sint_wrap, sint_small by (Z.div_mod_to_equations; lia).
    unfold wrap. pose proof (Z.div_mod (AW * BW) (2 ^ 32)). lia.
  - eexists. split; [apply high_commit; auto|]. cbv beta. fold RA RB. split.
    + apply (shiftr_wide 64 _ 32); [lia|]. unfold in_range in *. nia.
    + rewrite Z.shiftr_div_pow2 by lia. pose proof (Z.div_mod (u32 RA * u32 RB) (2 ^ 32)). unfold wrap in *. lia.
  - apply (quotient_end 64); [lia|apply sint_range; lia|exact Hs].
  - apply (quotient_end 32); [lia|apply sint_range; lia|exact Hs].
  - rewrite <- commit_none by auto. unfold DIVDU. fold RA RB. cbv zeta. unfold in_range in *.
    destruct (Z.eqb_spec RB 0); [reflexivity|]. rewrite Z.quot_div_nonneg by lia. reflexivity.
  - rewrite <- commit_none by auto. unfold DIVWU. fold RA RB. cbv zeta. unfold in_range in *.
    destruct (Z.eqb_spec (u32 RB) 0); [reflexivity|]. rewrite Z.quot_div_nonneg by lia. reflexivity.
Qed.
End Arith.

(** ** Examples *)

(** [addo. r3, r4, r5] with 2^63-1 and 1 overflows; the record form sees a negative number. *)
Lemma additions_witness :
  let s := BarePpu.sample (2 ^ 63 - 1) 1 in
  wf s /\ ADD BarePpu.cfg (Fn Name.ADD true true) BarePpu.op345 s
           = sum_to BarePpu.cfg (Fn Name.ADD true true) BarePpu.op345 (2 ^ 63) None s /\
  take 4 (cr (ADD BarePpu.cfg (Fn Name.ADD true true) BarePpu.op345 s)) = [1; 0; 0; 1].
Proof.
  intros s. pose proof (BarePpu.ppu_sample_wf (2 ^ 63 - 1) 1) as Hs. split; [exact Hs|].
  destruct (additions BarePpu.cfg (Fn Name.ADD true true) BarePpu.op345 s Hs) as [E _].
  split; [exact E|]. vm_compute. reflexivity.
Defined.

(** The pairs (r6, r4) and (r7, r5), to (r8, r3). *)
Lemma double_word_witness :
  let s := set 6 1 (set 7 2 (BarePpu.sample (-1) 5)) in
  let op2 := 8 * 2 ^ 21 + 6 * 2 ^ 16 + 7 * 2 ^ 11 in
  let t := ADDE BarePpu.cfg (Fn Name.ADDE false false) op2 (ADDC BarePpu.cfg (Fn Name.ADDC false false) BarePpu.op345 s) in
  wf s /\ pair_of t 8 3 = 4 * 2 ^ 64 + 4.
Proof.
  intros s op2 t. assert (wf s) as Hs.
  { repeat (apply ppu_wf_set; [|unfold in_range; lia]). apply BarePpu.ppu_sample_wf. }
  split; [exact Hs|].
  destruct (double_word BarePpu.cfg (Fn Name.ADDC false false) (Fn Name.ADDE false false) BarePpu.op345 op2 s Hs)
    as [E _]; [vm_compute; congruence..|].
  etransitivity; [exact E|]. vm_compute. reflexivity.
Defined.

(** [divdo r3, r4, r5] with -2^63 and -1. *)
Lemma products_and_quotients_witness :
  let s := BarePpu.sample (- 2 ^ 63) (-1) in let op := BarePpu.op345 + 2 ^ 10 in
  wf s /\ DIVD BarePpu.cfg (Fn Name.DIVD true false) op s = commit BarePpu.cfg (Fn Name.DIVD true false) 3 0 None true s.
Proof.
  intros s op. pose proof (BarePpu.ppu_sample_wf (- 2 ^ 63) (-1)) as Hs. split; [exact Hs|].
  destruct (products_and_quotients BarePpu.cfg (Fn Name.DIVD true false) op s Hs eq_refl)
    as (_ & _ & _ & _ & _ & _ & E & _).
  etransitivity; [exact E|]. vm_compute. reflexivity.
Defined.
