(* ===== verification/PpuRotate.v ===== *)
(** * Rotates and shifts of the PPU

    The rotate mask against the MASK(mb, me) of the architecture, the nine rotate
    instructions bit by bit, the shifts as multiplications and divisions by powers of two
    with the carry of the algebraic ones, and division by a power of two by a pair of
    instructions. *)

From Stdlib Require Import ZArith Lia Bool.
From stdpp Require Import base numbers list gmap.
From S2P Require Import Prelude V128 Bytes GuestMem BitField PpuOpcodes PpuThread PpuInterp PpuWf PpuArith.
Import ppu_opcode_t Interp.

(** ** Reference *)

(** Bit [k] (from the least significant) of MASK(mb, me), whose ends are bit numbers counted
    from the most significant; the mask wraps around when [me < mb]. *)
Definition mask_bit (mb me k : Z) : bool :=
  let i := 63 - k in
  if mb <=? me then (mb <=? i) && (i <=? me) else (mb <=? i) || (i <=? me).

(** Bit [k] of a [w]-bit number rotated left by [n]. *)
Definition rot_bit (w x n k : Z) : bool := Z.testbit x ((k - n) mod w).

Lemma testbit_rotl w x n k :
  0 < w -> in_range w x -> 0 <= k < w -> Z.testbit (rotl w x n) k = rot_bit w x n k.
Proof.
  intros Hw Hx Hk. unfold rotl, rot_bit. cbv zeta. pose proof (Z.mod_pos_bound n w Hw) as Hr.
  rewrite Z.lor_spec, testbit_wrap, testbit_shiftl, Z.shiftr_spec by lia.
  assert ((k - n) mod w = (k - n mod w) mod w) as -> by (rewrite Zminus_mod_idemp_r; reflexivity).
  set (r := n mod w) in *. destruct (Z.ltb_spec k w); [|lia]. destruct (Z.leb_spec r k); cbn [andb orb].
  - rewrite Z.mod_small by lia. rewrite (testbit_high w x (k + (w - r))) by (auto; lia). apply orb_false_r.
  - rewrite <- (Z.mod_add _ 1), Z.mod_small by lia. f_equal. lia.
Qed.

Lemma land63 x : Z.land x 63 = x mod 64.
Proof. change 63 with (Z.ones 6). rewrite Z.land_ones by lia. reflexivity. Qed.

Lemma mask_width mb me :
  0 <= mb < 64 -> 0 <= me < 64 -> Z.land (Z.lxor (u32 (me - mb)) (Z.ones 32)) 63 = 63 - (me - mb) mod 64.
Proof.
  intros Hmb Hme. change 63 with (Z.ones 6) at 1.
  assert (Z.land (Z.lxor (u32 (me - mb)) (Z.ones 32)) (Z.ones 6) = Z.ldiff (Z.ones 6) (wrap 6 (me - mb))) as ->.
  { bits. }
  rewrite <- Z.sub_nocarry_ldiff; [reflexivity|].
  bits.
Qed.

(** The mask of [ppu_rotate_mask] is MASK(mb, me). *)
Lemma rotate_mask_bit mb me k :
  0 <= mb < 64 -> 0 <= me < 64 -> 0 <= k < 64 -> Z.testbit (ppu_rotate_mask mb me) k = mask_bit mb me k.
Proof.
  intros Hmb Hme Hk. unfold ppu_rotate_mask, mask_bit. cbv zeta. rewrite mask_width by lia.
  rewrite (land63 mb), (Z.mod_small mb) by lia.
  set (d := (me - mb) mod 64). assert (0 <= d < 64) as Hd by (apply Z.mod_pos_bound; lia).
  assert (Z.land (u32 (64 - mb)) 63 = (64 - mb) mod 64) as ->.
  { rewrite land63. unfold wrap. Z.div_mod_to_equations. lia. }
  assert (d = if mb <=? me then me - mb else me - mb + 64) as Ed.
  { unfold d. destruct (Z.leb_spec mb me); [apply Z.mod_small; lia|].
    rewrite <- (Z.mod_add _ 1), Z.mod_small by lia. lia. }
  assert ((64 - mb) mod 64 = if mb =? 0 then 0 else 64 - mb) as ->.
  { destruct (Z.eqb_spec mb 0) as [->|]; [reflexivity|apply Z.mod_small; lia]. }
  clearbody d.
  destruct (Z.leb_spec mb me), (Z.eqb_spec mb 0) as [E0|E0]; try rewrite E0 in *; subst d;
    autorewrite with bits; rewrite ?testbit_shiftl, ?testbit_ones by lia; autorewrite with bits;
    repeat (bits_case; bits_norm; autorewrite with bits); try reflexivity.
Qed.

Lemma testbit_dup32 x k : in_range 32 x -> 0 <= k < 64 -> Z.testbit (dup32 x) k = Z.testbit x (k mod 32).
Proof.
  intros Hx Hk. unfold dup32. rewrite Z.lor_spec, testbit_shiftl by lia. destruct (Z.leb_spec 32 k); cbn [andb].
  - rewrite (testbit_high 32 x k) by (auto; lia). rewrite <- (Z.mod_add k (-1)), Z.mod_small by lia. reflexivity.
  - rewrite Z.mod_small by lia. apply orb_false_r.
Qed.
Lemma testbit_not64 x k : 0 <= k < 64 -> Z.testbit (not64 x) k = negb (Z.testbit x k).
Proof. intros Hk. unfold not64. rewrite Z.lxor_spec, testbit_ones by lia. bits_case. apply xorb_true_r. Qed.

(** The word rotated by [n] and repeated in both halves. *)
Lemma testbit_word_rotl x n k :
  0 <= k < 64 -> Z.testbit (dup32 (rotl 32 (u32 x) n)) k = rot_bit 32 (u32 x) n (k mod 32).
Proof.
  intros Hk. pose proof (wrap_range 32 x ltac:(lia)) as Hx. pose proof (Z.mod_pos_bound k 32 ltac:(lia)).
  rewrite testbit_dup32 by (lia || (apply rotl_range; auto; lia)). apply testbit_rotl; auto; lia.
Qed.

Lemma mask_low mb k : 0 <= mb < 64 -> 0 <= k < 64 -> Z.testbit (Z.shiftr (Z.ones 64) mb) k = mask_bit mb 63 k.
Proof. intros Hmb Hk. unfold mask_bit. autorewrite with bits. cbv zeta. repeat bits_case; reflexivity. Qed.
Lemma mask_high me k :
  0 <= me < 64 -> 0 <= k < 64 -> Z.testbit (u64 (Z.shiftl (Z.ones 64) (Z.lxor me 63))) k = mask_bit 0 me k.
Proof.
  intros Hme Hk. assert (Z.lxor me 63 = 63 - me) as ->.
  { change 63 with (Z.ones 6). rewrite Z.sub_nocarry_ldiff;
      bits; rewrite (testbit_high 6 me) by (unfold in_range; lia); reflexivity. }
  unfold mask_bit. rewrite testbit_wrap, testbit_shiftl by lia. cbv zeta.
  repeat (bits_case; bits_norm); try reflexivity; rewrite testbit_ones by lia; repeat bits_case; reflexivity.
Qed.

Section Rotates.
Context (cfg : ppu_config).

(** The handler writes to RA the 64-bit value with the given bits, sets CR0 in its record
    form ([commit]), and changes nothing else. *)
Definition rotates_to (f : fn) (op : Z) (s t : ppu_thread) (bit : Z -> bool) : Prop :=
  exists v, in_range 64 v /\ (forall k, 0 <= k < 64 -> Z.testbit v k = bit k) /\
            t = commit cfg (no_oe f) (ra op) v None false s.

Lemma rotates_intro f op s v bit :
  wf s -> in_range 64 v -> (forall k, 0 <= k < 64 -> Z.testbit v k = bit k) ->
  rotates_to f op s (record cfg f v (set (ra op) v s)) bit.
Proof.
  intros Hs Hv Hb. exists v. repeat split; try apply Hv; auto.
  rewrite <- (commit_none cfg) by auto. reflexivity.
Qed.

Lemma field5 I op : 0 <= ppu_bf I 5 op < 32.
Proof. apply (ppu_field_range I 5 op). lia. Qed.
Lemma mbe64_bound op : 0 <= mbe64 op < 64.
Proof. apply (mbe64_range op). Qed.
Lemma sh64_bound op : 0 <= sh64 op < 64.
Proof. apply (sh64_range op). Qed.
Lemma sh64_not op : Z.lxor (sh64 op) 63 = 63 - sh64 op.
Proof.
  pose proof (sh64_range op) as H. change 63 with (Z.ones 6). rewrite Z.sub_nocarry_ldiff;
    bits; rewrite (testbit_high 6 (sh64 op)) by (auto; lia); reflexivity.
Qed.

Ltac rot_range := intros; cbv zeta; p_range.

(** C21: each rotate instruction writes to RA exactly the bits the architecture gives it:
    the rotated word (repeated in both halves) or doubleword under MASK(mb, me), for the
    insert forms with the old bits of RA outside the mask, with the shift count taken from the
    field or from the low bits of RB; record forms set CR0 (and, with the PPU Debug setting, add it
    to the statistics word of the instruction), and nothing else changes. *)
Theorem rotates f op s :
  wf s ->
  let RS := get s (rs op) in let RA := get s (ra op) in let RB := get s (rb op) in
  let word n k := rot_bit 32 (u32 RS) n (k mod 32) in
  let double n k := rot_bit 64 RS n k in
  let m32 k := mask_bit (32 + mb32 op) (32 + me32 op) k in
  let mi k := mask_bit (mbe64 op) (63 - sh64 op) k in
  rotates_to f op s (RLWINM cfg f op s) (fun k => m32 k && word (sh32 op) k) /\
  rotates_to f op s (RLWNM cfg f op s) (fun k => m32 k && word (RB mod 32) k) /\
  rotates_to f op s (RLWIMI cfg f op s) (fun k => if m32 k then word (sh32 op) k else Z.testbit RA k) /\
  rotates_to f op s (RLDICL cfg f op s) (fun k => mask_bit (mbe64 op) 63 k && double (sh64 op) k) /\
  rotates_to f op s (RLDICR cfg f op s) (fun k => mask_bit 0 (mbe64 op) k && double (sh64 op) k) /\
  rotates_to f op s (RLDIC cfg f op s) (fun k => mi k && double (sh64 op) k) /\
  rotates_to f op s (RLDIMI cfg f op s) (fun k => if mi k then double (sh64 op) k else Z.testbit RA k) /\
  rotates_to f op s (RLDCL cfg f op s) (fun k => mask_bit (mbe64 op) 63 k && double (RB mod 64) k) /\
  rotates_to f op s (RLDCR cfg f op s) (fun k => mask_bit 0 (mbe64 op) k && double (RB mod 64) k).
Proof.
  intros Hs RS RA RB word double m32 mi.
  assert (in_range 64 RS) as HRS by (apply gpr_range, Hs). assert (in_range 64 RA) as HRA by (apply gpr_range, Hs).
  pose proof (field5 21 op) as Hmb. pose proof (field5 26 op) as Hme.
  pose proof (mbe64_bound op) as Hmbe. pose proof (sh64_bound op) as Hsh.
  assert (forall k, 0 <= k < 64 -> Z.testbit (ppu_rotate_mask (32 + mb32 op) (32 + me32 op)) k = m32 k) as M32.
  { intros k Hk. apply rotate_mask_bit; auto; unfold mb32, me32; lia. }
  assert (forall k, 0 <= k < 64 -> Z.testbit (ppu_rotate_mask (mbe64 op) (Z.lxor (sh64 op) 63)) k = mi k) as MI.
  { intros k Hk. rewrite sh64_not. apply rotate_mask_bit; auto; lia. }
  assert (forall n k, 0 <= k < 64 -> Z.testbit (dup32 (rotl 32 (u32 RS) n)) k = word n k) as W.
  { intros n k Hk. apply testbit_word_rotl, Hk. }
  assert (forall n k, 0 <= k < 64 -> Z.testbit (rotl 64 RS n) k = double n k) as D.
  { intros n k Hk. apply testbit_rotl; auto; lia. }
  assert (Z.land RB 0x1f = RB mod 32) as E5 by (change 0x1f with (Z.ones 5); rewrite Z.land_ones by lia; reflexivity).
  assert (Z.land RB 0x3f = RB mod 64) as E6 by (change 0x3f with (Z.ones 6); rewrite Z.land_ones by lia; reflexivity).
  repeat split; (apply rotates_intro; [exact Hs|fold RS RA RB; p_range|]);
    intros k Hk; fold RS RA RB; rewrite ?E5, ?E6, ?Z.lor_spec, ?Z.land_spec, ?testbit_not64, ?W, ?D, ?M32, ?MI,
      ?mask_low, ?mask_high by lia; try apply andb_comm.
  - destruct (m32 k), (word (sh32 op) k), (Z.testbit RA k); reflexivity.
  - destruct (mi k), (double (sh64 op) k), (Z.testbit RA k); reflexivity.
Qed.

(** ** Shifts *)

(** The carry of an algebraic shift: ones lost from a negative number. *)
Definition sra_carry (S n : Z) : bool := (S <? 0) && negb (S mod 2 ^ n =? 0).

(** [(v << n) != S] tells whether bits were lost, at any width [w] at least [n]. *)
Lemma lost_bits w S n : 0 <= n <= w -> (wrap w (Z.shiftl (Z.shiftr S n) n) =? wrap w S) = (S mod 2 ^ n =? 0).
Proof.
  intros Hn. rewrite Z.shiftr_div_pow2, Z.shiftl_mul_pow2 by lia.
  assert (S / 2 ^ n * 2 ^ n = S - S mod 2 ^ n) as -> by (pose proof (Z.div_mod S (2 ^ n)); pose proof (pow2_pos n); lia).
  pose proof (Z.mod_pos_bound S (2 ^ n) (pow2_pos n ltac:(lia))) as Hm.
  pose proof (Z.pow_le_mono_r 2 n w ltac:(lia) ltac:(lia)) as Hp. pose proof (pow2_pos w ltac:(lia)).
  destruct (Z.eqb_spec (S mod 2 ^ n) 0) as [->|Hne]; [rewrite Z.sub_0_r; apply Z.eqb_refl|].
  apply Z.eqb_neq. intros E. unfold wrap in E.
  assert ((S mod 2 ^ n) mod 2 ^ w = 0) as E0.
  { replace (S mod 2 ^ n) with (S - (S - S mod 2 ^ n)) by lia. rewrite Zminus_mod, E, Z.sub_diag. apply Z.mod_0_l. lia. }
  rewrite Z.mod_small in E0 by lia. lia.
Qed.
Lemma lost_bits_64 w S n :
  0 <= n <= w -> w <= 64 ->
  (wrap w (u64 (Z.shiftl (u64 (Z.shiftr S n)) n)) =? wrap w S) = (S mod 2 ^ n =? 0).
Proof.
  intros Hn Hw. rewrite <- (lost_bits w S n) by lia. f_equal. bits.
Qed.

(** Shifts by more than the width keep only the sign. *)
Lemma sra_over w S n :
  0 < w <= n -> - 2 ^ (w - 1) <= S < 2 ^ (w - 1) -> S / 2 ^ n = 0 - Z.b2z (S <? 0) /\ sra_carry S n = (S <? 0).
Proof.
  intros Hn HS. pose proof (Z.pow_le_mono_r 2 (w - 1) n ltac:(lia) ltac:(lia)) as Hp.
  pose proof (Z.pow_lt_mono_r 2 (w - 1) n ltac:(lia) ltac:(lia)) as Hq. unfold sra_carry.
  destruct (Z.ltb_spec S 0); cbn [andb Z.b2z].
  - assert (S / 2 ^ n = -1) as E by (symmetry; apply (Z.div_unique_pos S (2 ^ n) (-1) (S + 2 ^ n)); lia).
    split; [lia|]. rewrite Z.mod_eq, E by lia. destruct (Z.eqb_spec (S - 2 ^ n * -1) 0); [lia|reflexivity].
  - split; [rewrite Z.div_small by lia; lia|reflexivity].
Qed.

Lemma sra_end (f : fn) op v c s :
  wf s -> record cfg f v (with_ca c (set (ra op) v s)) = commit cfg (no_oe f) (ra op) v (Some c) false s.
Proof. intros Hs. rewrite <- (commit_some cfg) by auto. reflexivity. Qed.
Lemma logic_commit v f op s :
  wf s -> logic cfg v f op s = commit cfg (no_oe f) (ra op) (v (get s (rs op)) (get s (rb op))) None false s.
Proof. intros Hs. rewrite <- (commit_none cfg) by auto. reflexivity. Qed.

Lemma land_pow2 x n m : m = Z.ones n -> 0 <= n -> Z.land x m = x mod 2 ^ n.
Proof. intros -> Hn. apply Z.land_ones, Hn. Qed.

(** An algebraic shift by [n] with the code's split at the width. *)
Lemma sra_split (f : fn) op w m S n s :
  0 < w <= 64 -> m = w - 1 -> - 2 ^ (w - 1) <= S < 2 ^ (w - 1) -> 0 <= n -> wf s ->
  (let '(v, c) :=
     if m <? n then (u64 (0 - Z.b2z (S <? 0)), S <? 0)
     else (u64 (Z.shiftr S n), (S <? 0) && negb (u64 (Z.shiftl (u64 (Z.shiftr S n)) n) =? u64 S)) in
   record cfg f v (with_ca c (set (ra op) v s))) =
  commit cfg (no_oe f) (ra op) (u64 (S / 2 ^ n)) (Some (sra_carry S n)) false s.
Proof.
  intros Hw -> HS Hn Hs. destruct (Z.ltb_spec (w - 1) n).
  - destruct (sra_over w S n) as [-> ->]; auto; [lia|]. apply sra_end, Hs.
  - pose proof (lost_bits_64 64 S n ltac:(lia) ltac:(lia)) as E.
    rewrite (wrap_wrap 64) in E by lia. rewrite sra_end, E, Z.shiftr_div_pow2 by (auto; lia). reflexivity.
Qed.

Lemma mul_wrap_zero w x n : 0 <= w <= n -> wrap w (x * 2 ^ n) = 0.
Proof.
  intros Hn. unfold wrap. replace (2 ^ n) with (2 ^ (n - w) * 2 ^ w) by (rewrite <- Z.pow_add_r by lia; f_equal; lia).
  rewrite Z.mul_assoc. apply Z.mod_mul. pose proof (pow2_pos w). lia.
Qed.
Lemma bit6_of n : 0 <= n < 128 -> negb (Z.land n 0x40 =? 0) = (64 <=? n).
Proof.
  intros Hn. destruct (Z.leb_spec 64 n).
  - assert (Z.land n 64 = 64) as ->; [|reflexivity].
    apply Z.bits_inj'. intros k Hk. rewrite Z.land_spec. destruct (Z.eq_dec k 6) as [->|].
    + replace (Z.testbit n 6) with true; [reflexivity|]. symmetry. apply Z.testbit_true; [lia|].
      change (2 ^ 6) with 64. Z.div_mod_to_equations. lia.
    + change 64 with (2 ^ 6). rewrite Z.pow2_bits_false by lia. apply andb_false_r.
  - change 64 with (2 ^ 6). assert (Z.land n (2 ^ 6) = 0) as ->; [|reflexivity].
    apply Z.bits_inj'. intros k Hk. rewrite Z.land_spec, Z.bits_0. destruct (Z.eq_dec k 6) as [->|].
    + rewrite (testbit_high 6 n) by (unfold in_range; lia). reflexivity.
    + rewrite Z.pow2_bits_false by lia. apply andb_false_r.
Qed.

(** Rounding toward zero: one is added to the quotient of a negative number that lost ones. *)
Lemma sra_quot S n : 0 <= n -> S / 2 ^ n + Z.b2z (sra_carry S n) = Z.quot S (2 ^ n).
Proof.
  intros Hn. pose proof (pow2_pos n Hn) as Hp. unfold sra_carry.
  destruct (Z.ltb_spec S 0); cbn [andb Z.b2z].
  - assert (Z.quot S (2 ^ n) = - ((- S) / 2 ^ n)) as ->.
    { rewrite <- (Z.opp_involutive S) at 1. rewrite Z.quot_opp_l, Z.quot_div_nonneg by lia. reflexivity. }
    destruct (Z.eqb_spec (S mod 2 ^ n) 0) as [E|E]; cbn [negb Z.b2z].
    + rewrite Z.div_opp_l_z by lia. lia.
    + rewrite Z.div_opp_l_nz by lia. lia.
  - rewrite Z.quot_div_nonneg by lia. lia.
Qed.

Lemma addze_after f1 f2 op1 op2 (S n : Z) s :
  wf s -> 0 <= n -> - 2 ^ 63 <= S < 2 ^ 63 -> ra op2 = ra op1 ->
  get (ADDZE cfg f2 op2 (commit cfg f1 (ra op1) (u64 (S / 2 ^ n)) (Some (sra_carry S n)) false s)) (rd op2)
  = u64 (Z.quot S (2 ^ n)).
Proof.
  intros Hs Hn HS E. set (t := commit cfg f1 _ _ _ _ s).
  assert (wf t) as Ht by (apply (wf_commit cfg); [exact Hs|apply wrap_range; lia]).
  unfold ADDZE. change 0 with (sign 0) at 1. rewrite (add_end_spec cfg) by (auto using zero_range with ppu; apply zero_range; lia).
  rewrite commit_get by (auto; apply ppu_reg_field). rewrite u64_s64_add, Z.add_0_r.
  assert (get t (ra op2) = u64 (S / 2 ^ n)) as ->.
  { rewrite E. apply commit_get; auto. apply ppu_reg_field. }
  assert (ca t = sra_carry S n) as -> by apply commit_ca.
  rewrite wrap_add_l, sra_quot by lia. reflexivity.
Qed.

(** C22: the shift instructions multiply or divide by a power of two: SLW and SLD wrap the
    product to the width, SRW and SRD divide the unsigned number, for every count the low 6
    or 7 bits of RB can give, the algebraic shifts divide the signed number rounding down and
    set CA exactly when a negative number lost ones, so that an algebraic shift by a constant
    followed by ADDZE on its result is the division rounding toward zero that compilers use
    it for.  Record forms set CR0 as [commit] says, and nothing else changes. *)
Theorem shifts f op s :
  wf s ->
  let RS := get s (rs op) in let RB := get s (rb op) in
  let put v := commit cfg (no_oe f) (ra op) v None false s in
  let sra S n := commit cfg (no_oe f) (ra op) (u64 (S / 2 ^ n)) (Some (sra_carry S n)) false s in
  SLW cfg f op s = put (u32 (RS * 2 ^ (RB mod 64))) /\ SRW cfg f op s = put (u32 RS / 2 ^ (RB mod 64)) /\
  SLD cfg f op s = put (u64 (RS * 2 ^ (RB mod 128))) /\ SRD cfg f op s = put (RS / 2 ^ (RB mod 128)) /\
  SRAW cfg f op s = sra (s32 RS) (RB mod 64) /\ SRAD cfg f op s = sra (s64 RS) (RB mod 128) /\
  SRAWI cfg f op s = sra (s32 RS) (sh32 op) /\ SRADI cfg f op s = sra (s64 RS) (sh64 op) /\
  (forall f2 op2, ra op2 = ra op ->
    get (ADDZE cfg f2 op2 (SRAWI cfg f op s)) (rd op2) = u64 (Z.quot (s32 RS) (2 ^ sh32 op)) /\
    get (ADDZE cfg f2 op2 (SRADI cfg f op s)) (rd op2) = u64 (Z.quot (s64 RS) (2 ^ sh64 op))).
Proof.
  intros Hs RS RB put sra.
  assert (in_range 64 RS) as HRS by (apply gpr_range, Hs).
  pose proof (Z.mod_pos_bound RB 64 ltac:(lia)) as H6. pose proof (Z.mod_pos_bound RB 128 ltac:(lia)) as H7.
  assert (Z.land RB 0x3f = RB mod 64) as E6 by (apply (land_pow2 RB 6); [reflexivity|lia]).
  assert (Z.land RB 0x7f = RB mod 128) as E7 by (apply (land_pow2 RB 7); [reflexivity|lia]).
  pose proof (sint_range 32 RS ltac:(lia)) as R32. pose proof (sint_range 64 RS ltac:(lia)) as R64.
  pose proof (field5 16 op : 0 <= sh32 op < 32) as H5. pose proof (sh64_bound op) as Hsh.
  assert (SRAWI cfg f op s = sra (s32 RS) (sh32 op)) as EI.
  { unfold SRAWI. cbv zeta. fold RS. rewrite (sint_wrap 32), sra_end, lost_bits_64, Z.shiftr_div_pow2 by (auto; lia). reflexivity. }
  assert (SRADI cfg f op s = sra (s64 RS) (sh64 op)) as ED.
  { unfold SRADI. cbv zeta. fold RS. pose proof (lost_bits_64 64 (s64 RS) (sh64 op) ltac:(lia) ltac:(lia)) as E.
    rewrite (wrap_wrap 64) in E by lia. rewrite sra_end, E, Z.shiftr_div_pow2 by (auto; lia). reflexivity. }
  split; [|split; [|split; [|split; [|split; [|split; [|split; [exact EI|split; [exact ED|]]]]]]]].
  - unfold SLW. rewrite logic_commit by auto. fold RS RB. unfold put. f_equal.
    rewrite E6, Z.shiftl_mul_pow2 by lia. bits.
  - unfold SRW. rewrite logic_commit by auto. fold RS RB. unfold put. f_equal.
    rewrite E6, (land_pow2 RS 32), Z.shiftr_div_pow2 by (reflexivity || lia). reflexivity.
  - unfold SLD. rewrite logic_commit by auto. fold RS RB. unfold put. f_equal. cbv zeta.
    rewrite E7, bit6_of by lia. destruct (Z.leb_spec 64 (RB mod 128)); [rewrite mul_wrap_zero by lia; reflexivity|].
    rewrite Z.shiftl_mul_pow2 by lia. reflexivity.
  - unfold SRD. rewrite logic_commit by auto. fold RS RB. unfold put. f_equal. cbv zeta.
    rewrite E7, bit6_of, Z.shiftr_div_pow2 by lia. destruct (Z.leb_spec 64 (RB mod 128)); [|reflexivity].
    pose proof (Z.pow_le_mono_r 2 64 (RB mod 128)). unfold in_range in HRS. symmetry. apply Z.div_small. lia.
  - unfold SRAW. fold RS RB. cbv zeta. change 63 with 0x3f. rewrite E6. apply (sra_split f op 32); auto; lia.
  - unfold SRAD. fold RS RB. cbv zeta. change 127 with 0x7f. rewrite E7. apply (sra_split f op 64); auto; lia.
  - intros f2 op2 E. rewrite EI, ED. split; apply addze_after; auto; lia.
Qed.
End Rotates.

(** ** Examples *)

(** [rlwinm r4, r3, 8, 0, 7] takes the second byte of the word to the top; a mask that wraps. *)
Lemma rotates_witness :
  let s := set 3 0x12345678 (BarePpu.boot []) in
  let op := 3 * 2 ^ 21 + 4 * 2 ^ 16 + 8 * 2 ^ 11 + 0 * 2 ^ 6 + 7 * 2 ^ 1 in
  wf s /\ rotates_to BarePpu.cfg (Fn Name.RLWINM false false) op s (RLWINM BarePpu.cfg (Fn Name.RLWINM false false) op s)
           (fun k => mask_bit 32 39 k && rot_bit 32 (u32 0x12345678) 8 (k mod 32)) /\
  get (RLWINM BarePpu.cfg (Fn Name.RLWINM false false) op s) 4 = 0x34000000 /\
  ppu_rotate_mask 60 3 = 0xf00000000000000f.
Proof.
  intros s op. assert (wf s) as Hs by (apply ppu_wf_set; [apply BarePpu.ppu_boot_wf|unfold in_range; lia]).
  split; [exact Hs|]. destruct (rotates BarePpu.cfg (Fn Name.RLWINM false false) op s Hs) as [E _].
  split; [exact E|]. split; vm_compute; reflexivity.
Defined.

(** [sradi r4, r3, 1] of -7 rounds down to -4; [addze r5, r4] gives -3. *)
Lemma shifts_witness :
  let s := set 3 (u64 (-7)) (BarePpu.boot []) in
  let op := 3 * 2 ^ 21 + 4 * 2 ^ 16 + 1 * 2 ^ 11 in let op2 := 5 * 2 ^ 21 + 4 * 2 ^ 16 in
  wf s /\ get (SRADI BarePpu.cfg (Fn Name.SRADI false false) op s) 4 = u64 (-4) /\
  get (ADDZE BarePpu.cfg (Fn Name.ADDZE false false) op2 (SRADI BarePpu.cfg (Fn Name.SRADI false false) op s)) 5 = u64 (-3).
Proof.
  intros s op op2. assert (wf s) as Hs by (apply ppu_wf_set; [apply BarePpu.ppu_boot_wf|unfold in_range; vm_compute; intuition congruence]).
  split; [exact Hs|]. split; [vm_compute; reflexivity|].
  destruct (shifts BarePpu.cfg (Fn Name.SRADI false false) op s Hs) as (_ & _ & _ & _ & _ & _ & _ & _ & E).
  destruct (E (Fn Name.ADDZE false false) op2) as [_ E2]; [vm_compute; reflexivity|].
  etransitivity; [exact E2|]. vm_compute. reflexivity.
Defined.
