(* ===== verification/PpuFlow.v ===== *)
(** * Branches, comparisons, traps and special registers of the PPU

    Branches against the BO field of the architecture, comparisons and the branches that
    test them, traps, and what moves to and from the condition register and the special
    registers preserve. *)

From Stdlib Require Import ZArith Lia Bool.
From stdpp Require Import base numbers list gmap.
From S2P Require Import Prelude V128 Bytes GuestMem BitField PpuOpcodes PpuThread PpuInterp PpuWf.
Import ppu_opcode_t Interp.

(** ** Branches *)

(** Bit [i] of the BO field, numbered from the most significant. *)
Definition bo_bit (op i : Z) : bool := Z.testbit (bo op) (4 - i).

Lemma land_pow2_bit x n : 0 <= n -> negb (Z.land x (2 ^ n) =? 0) = Z.testbit x n.
Proof.
  intros Hn. destruct (Z.eqb_spec (Z.land x (2 ^ n)) 0) as [E|E]; cbn [negb].
  - apply (f_equal (fun z => Z.testbit z n)) in E. rewrite Z.land_spec, Z.pow2_bits_true, andb_true_r, Z.bits_0 in E by lia. auto.
  - symmetry. apply not_false_iff_true. intros Hf. apply E. apply Z.bits_inj'. intros k Hk.
    rewrite Z.land_spec, Z.pow2_bits_eqb, Z.bits_0 by lia.
    destruct (Z.eqb_spec n k) as [<-|]; [rewrite Hf|rewrite andb_false_r]; reflexivity.
Qed.
Lemma bo_has_bit op i : 0 <= i <= 4 -> bo_has op (2 ^ (4 - i)) = bo_bit op i.
Proof. intros Hi. apply land_pow2_bit. lia. Qed.
Lemma bo_has_0 op : bo_has op 0x10 = bo_bit op 0. Proof. apply (bo_has_bit op 0). lia. Qed.
Lemma bo_has_1 op : bo_has op 0x08 = bo_bit op 1. Proof. apply (bo_has_bit op 1). lia. Qed.
Lemma bo_has_2 op : bo_has op 0x04 = bo_bit op 2. Proof. apply (bo_has_bit op 2). lia. Qed.
Lemma bo_has_3 op : bo_has op 0x02 = bo_bit op 3. Proof. apply (bo_has_bit op 3). lia. Qed.
Lemma bo_has_4 op : bo_has op 0x01 = bo_bit op 4. Proof. apply (bo_has_bit op 4). lia. Qed.

(** Everything but [cia], LR, CTR, the call history and the count of executed bytes. *)
Definition same_regs (s t : ppu_thread) : Prop :=
  gpr t = gpr s /\ fpr t = fpr s /\ vr t = vr s /\ cr t = cr s /\ vrsave t = vrsave s /\
  so t = so s /\ ov t = ov s /\ ca t = ca s /\ cnt t = cnt s /\ nj t = nj s /\ sat t = sat s /\ jm_mask t = jm_mask s /\ raddr t = raddr s /\ rdata t = rdata s /\
  use_full_rdata t = use_full_rdata s /\ res_cached t = res_cached s /\ state t = state s /\ stat t = stat s /\ mem t = mem s.

(** The outcome of a branch at [pc]: a taken one leaves at its target; one that is not goes
    on with the next instruction, or leaves there when the thread has been signalled. *)
Definition branches_to (pc : Z) (s : ppu_thread) (r : result) (taken : bool) (target ctr_ lr_ : Z) : Prop :=
  exists t, same_regs s t /\ ctr t = ctr_ /\ lr t = lr_ /\
    if taken then r = Leave t /\ cia t = target
    else if state s =? 0 then r = Next t /\ cia t = cia s else r = Leave t /\ cia t = u32 (pc + 4).

Lemma record_call_same cfg a op ind s :
  same_regs s (ppu_record_call cfg a op ind s) /\ ctr (ppu_record_call cfg a op ind s) = ctr s /\
  lr (ppu_record_call cfg a op ind s) = lr s /\ cia (ppu_record_call cfg a op ind s) = cia s.
Proof.
  unfold ppu_record_call, same_regs. cbv zeta.
  destruct (negb _); [auto 30|]. destruct (match data _ with [] => _ | _ => _ end); [auto 30|].
  destruct (lk op =? 0); [destruct (_ && _)|]; auto 30.
Qed.

(** The two conditions of the BO field. *)
Definition count_after (op : Z) (s : ppu_thread) : Z := if bo_bit op 2 then ctr s else u64 (ctr s - 1).
Definition count_holds (op : Z) (s : ppu_thread) : bool :=
  bo_bit op 2 || (if bo_bit op 3 then count_after op s =? 0 else negb (count_after op s =? 0)).
Definition cond_holds (op : Z) (s : ppu_thread) : bool :=
  bo_bit op 0 || (cr_bit s (bi op) =? Z.b2z (bo_bit op 1)).
(** LR after an instruction at [pc] with the LK bit. *)
Definition link_after (pc op : Z) (s : ppu_thread) : Z := if negb (lk op =? 0) then u32 (pc + 4) else lr s.

Lemma dec_ctr_spec op s : wf s -> dec_ctr op s = with_ctr (count_after op s) s.
Proof.
  intros Hs. unfold dec_ctr, count_after. rewrite bo_has_2.
  destruct (bo_bit op 2); cbn [xorb Z.b2z]; [|reflexivity].
  rewrite Z.sub_0_r, wrap_small by apply (wf_ctr s Hs). reflexivity.
Qed.
Lemma ctr_ok_spec op s : wf s -> ctr_ok op (with_ctr (count_after op s) s) = count_holds op s.
Proof.
  intros Hs. unfold ctr_ok, count_holds. rewrite bo_has_2, bo_has_3. cbn [ctr with_ctr].
  destruct (bo_bit op 2), (bo_bit op 3), (count_after op s =? 0); reflexivity.
Qed.
Lemma cr_bit_cases s i : wf s -> cr_bit s i = 0 \/ cr_bit s i = 1.
Proof. intros Hs. pose proof (cr_bit_range s i Hs) as []. change (2 ^ 1) with 2 in *. lia. Qed.
Lemma cond_ok_spec op s : wf s -> cond_ok op s = cond_holds op s.
Proof.
  intros Hs. unfold cond_ok, cond_holds. rewrite bo_has_0, bo_has_1.
  destruct (cr_bit_cases s (bi op) Hs) as [->| ->], (bo_bit op 0), (bo_bit op 1); reflexivity.
Qed.

Section Flow.
Context (cfg : ppu_config).

Lemma branch_end_spec pc old (taken : bool) target c l s u v :
  (taken = true -> same_regs s u /\ ctr u = c /\ lr u = l /\ cia u = target) ->
  (taken = false -> same_regs s v /\ ctr v = c /\ lr v = l /\ cia v = cia s) ->
  branches_to pc s (if taken then branch_end true (u32 (pc + 4)) old u else branch_end false (u32 (pc + 4)) old v) taken target c l.
Proof.
  intros Hu Hv. destruct taken.
  - destruct (Hu eq_refl) as (Hr & Hc & Hl & Ha). eexists. split; [|split; [|split; [|split; [reflexivity|]]]]; auto.
  - destruct (Hv eq_refl) as (Hr & Hc & Hl & Ha). unfold branch_end, branches_to.
    assert (state v = state s) as -> by apply Hr.
    destruct (state s =? 0); eexists; (split; [|split; [|split; [|split; [reflexivity|]]]]); auto.
Qed.

Lemma link_same pc op s :
  let t := if negb (lk op =? 0) then with_lr (u32 (pc + 4)) s else s in
  same_regs s t /\ ctr t = ctr s /\ lr t = link_after pc op s /\ cia t = cia s.
Proof. cbv zeta. unfold same_regs, link_after. destruct (negb _); auto 30. Qed.

Lemma same_regs_trans s t u : same_regs s t -> same_regs t u -> same_regs s u.
Proof. unfold same_regs. intros H1 H2. decompose [and] H1. decompose [and] H2. repeat split; congruence. Qed.

(** The state a recorded call leaves at [target]. *)
Lemma call_same a op ind target s t :
  same_regs s t -> same_regs s (with_cia target (ppu_record_call cfg a op ind t)) /\
  ctr (with_cia target (ppu_record_call cfg a op ind t)) = ctr t /\
  lr (with_cia target (ppu_record_call cfg a op ind t)) = lr t /\
  cia (with_cia target (ppu_record_call cfg a op ind t)) = target.
Proof.
  intros Hst. destruct (record_call_same cfg a op ind t) as (H1 & H2 & H3 & _).
  split; [|auto]. apply (same_regs_trans s t); [exact Hst|exact H1].
Qed.

Lemma B_branches pc op s :
  branches_to pc s (B cfg pc op s) true (u32 ((if negb (aa op =? 0) then 0 else pc) + bt24 op)) (ctr s) (link_after pc op s).
Proof.
  unfold B. cbv zeta. destruct (record_call_same cfg (cia (with_cia pc s)) op false (with_cia pc s)) as (R1 & R2 & R3 & R4).
  set (r := ppu_record_call cfg _ op false _) in *.
  destruct (link_same pc op (with_cia (u32 ((if negb (aa op =? 0) then 0 else cia r) + bt24 op)) r)) as (N1 & N2 & N3 & N4).
  eexists. split; [|split; [|split; [|split; [reflexivity|]]]].
  - apply (same_regs_trans s (with_cia pc s)); [unfold same_regs; auto 30|].
    apply (same_regs_trans _ r); [exact R1|]. eapply same_regs_trans; [|exact N1]. unfold same_regs. auto 30.
  - etransitivity; [exact N2|exact R2].
  - etransitivity; [exact N3|]. unfold link_after. cbn [lr with_cia]. rewrite R3. reflexivity.
  - etransitivity; [exact N4|]. cbn [cia with_cia]. rewrite R4. reflexivity.
Qed.

(** LR and CTR before the condition of BC and BCLR is tested. *)
Lemma link_count pc op s :
  let t := if negb (lk op =? 0) then with_lr (u32 (pc + 4)) (with_ctr (count_after op s) s)
           else with_ctr (count_after op s) s in
  same_regs s t /\ ctr t = count_after op s /\ lr t = link_after pc op s /\ cia t = cia s.
Proof.
  intros t. destruct (link_same pc op (with_ctr (count_after op s) s)) as (L1 & L2 & L3 & L4).
  split; [|auto]. eapply same_regs_trans; [|exact L1]. unfold same_regs. auto 30.
Qed.

Lemma BC_branches pc op s :
  wf s ->
  branches_to pc s (BC cfg pc op s) (count_holds op s && cond_holds op s)
    (u32 ((if negb (aa op =? 0) then 0 else pc) + bt14 op)) (count_after op s) (link_after pc op s).
Proof.
  intros Hs. destruct (link_count pc op s) as (L1 & L2 & L3 & L4). unfold BC. cbv zeta. rewrite dec_ctr_spec by auto.
  set (t := if negb (lk op =? 0) then _ else _) in *.
  assert (ctr_ok op t && cond_ok op t = count_holds op s && cond_holds op s) as ->.
  { rewrite <- (ctr_ok_spec op s Hs), <- (cond_ok_spec op s Hs). unfold t. destruct (negb (lk op =? 0)); reflexivity. }
  apply branch_end_spec; intros _; [|auto].
  destruct (record_call_same cfg (cia (with_cia pc t)) op false (with_cia pc t)) as (R1 & R2 & R3 & R4).
  set (u := ppu_record_call cfg _ op false _) in *. rewrite R4.
  split; [|split; [|split]]; [|exact (eq_trans R2 L2)|exact (eq_trans R3 L3)|reflexivity].
  apply (same_regs_trans s t); [exact L1|exact R1].
Qed.
Lemma BCLR_branches pc op s :
  wf s ->
  branches_to pc s (BCLR cfg pc op s) (count_holds op s && cond_holds op s)
    (Z.land (u32 (lr s)) 0xfffffffc) (count_after op s) (link_after pc op s).
Proof.
  intros Hs. destruct (link_count pc op s) as (L1 & L2 & L3 & L4). unfold BCLR. cbv zeta.
  rewrite dec_ctr_spec, ctr_ok_spec by auto.
  replace (cond_ok op (with_ctr (count_after op s) s)) with (cond_holds op s) by (rewrite <- cond_ok_spec by auto; reflexivity).
  apply branch_end_spec; intros _; [|auto].
  destruct (call_same (Z.land (u32 (lr s)) 0xfffffffc) op true (Z.land (u32 (lr s)) 0xfffffffc) _ _ L1) as (R1 & R2 & R3 & R4).
  split; [exact R1|]. split; [exact (eq_trans R2 L2)|]. split; [exact (eq_trans R3 L3)|exact R4].
Qed.
Lemma BCCTR_branches pc op s :
  branches_to pc s (BCCTR cfg pc op s) (cond_holds op s) (Z.land (u32 (ctr s)) 0xfffffffc) (ctr s) (link_after pc op s).
Proof.
  destruct (link_same pc op s) as (M1 & M2 & M3 & M4). unfold BCCTR. cbv zeta. rewrite M2.
  set (t := if negb (lk op =? 0) then with_lr (u32 (pc + 4)) s else s) in *.
  replace (bo_has op 0x10 || (cr_bit t (bi op) =? Z.b2z (bo_has op 0x8))) with (cond_holds op s).
  2:{ unfold cond_holds. rewrite bo_has_0, bo_has_1. unfold t. destruct (negb (lk op =? 0)); reflexivity. }
  apply branch_end_spec; intros _; [|auto].
  destruct (call_same (Z.land (u32 (ctr s)) 0xfffffffc) op true (Z.land (u32 (ctr s)) 0xfffffffc) _ _ M1)
    as (R1 & R2 & R3 & R4). rewrite R2, R3. auto.
Qed.

(** C25: the branch instructions do what BO, BI, AA and LK say: BC and BCLR decrement CTR
    unless BO says not to and test it for (in)equality with zero, they and BCCTR test the CR
    bit BI against BO; a taken branch continues at the sum of the displacement and the
    instruction's address (or zero), at the old LR or at CTR without its low two bits, and
    LK stores the following address in LR after LR was read as the target.  A branch not taken
    goes on with the next instruction, and a signalled thread leaves the handlers there.  No
    other register and no memory changes. *)
Theorem ppu_branches pc op s :
  wf s ->
  let l := link_after pc op s in let c := count_after op s in
  let base := if negb (aa op =? 0) then 0 else pc in
  branches_to pc s (B cfg pc op s) true (u32 (base + bt24 op)) (ctr s) l /\
  branches_to pc s (BC cfg pc op s) (count_holds op s && cond_holds op s) (u32 (base + bt14 op)) c l /\
  branches_to pc s (BCLR cfg pc op s) (count_holds op s && cond_holds op s) (Z.land (u32 (lr s)) 0xfffffffc) c l /\
  branches_to pc s (BCCTR cfg pc op s) (cond_holds op s) (Z.land (u32 (ctr s)) 0xfffffffc) (ctr s) l.
Proof.
  intros Hs. cbv zeta. auto using B_branches, BC_branches, BCLR_branches, BCCTR_branches.
Qed.

(** ** Comparisons *)

Lemma cr_bit_set i v s j :
  wf s -> 0 <= i < 32 -> 0 <= j -> cr_bit (set_cr_bit i v s) j = if i =? j then v else cr_bit s j.
Proof.
  intros Hs Hi Hj. unfold cr_bit, set_cr_bit. cbn [cr with_cr]. rewrite !nth_lookup.
  destruct (Z.eqb_spec i j) as [<-|].
  - rewrite list_lookup_insert_eq; [reflexivity|]. rewrite (proj1 (wf_cr s Hs)). lia.
  - rewrite list_lookup_insert_ne by lia. reflexivity.
Qed.

(** The bits of the field a comparison sets; the other fields are untouched. *)
Lemma cr_bit_cmp field a b s j :
  wf s -> 0 <= field < 8 -> 0 <= j < 32 ->
  cr_bit (ppu_cr_cmp cfg field a b s) j =
  if j / 4 =? field then Z.b2z (nth (Z.to_nat (j mod 4)) [a <? b; b <? a; a =? b; so s] false) else cr_bit s j.
Proof.
  intros Hs Hf Hj. unfold ppu_cr_cmp, ppu_cr_set. cbv zeta.
  set (t := set_cr_bit (field * 4 + 3) _ _).
  assert (forall u, cr_bit (if ppu_debug cfg then with_stat u t else t) j = cr_bit t j) as -> by (destruct (ppu_debug cfg); reflexivity).
  unfold t. rewrite !cr_bit_set by (auto 10 using b2z_range with ppu; lia).
  pose proof (Z.div_mod j 4 ltac:(lia)). pose proof (Z.mod_pos_bound j 4 ltac:(lia)).
  destruct (Z.eqb_spec (j / 4) field).
  - assert (j mod 4 = 0 \/ j mod 4 = 1 \/ j mod 4 = 2 \/ j mod 4 = 3) as [E|[E|[E|E]]] by lia;
      rewrite E; repeat bits_case; reflexivity.
  - repeat bits_case; reflexivity.
Qed.

Lemma cmp_same field a b s :
  let t := ppu_cr_cmp cfg field a b s in
  gpr t = gpr s /\ ctr t = ctr s /\ lr t = lr s /\ so t = so s /\ cia t = cia s /\ mem t = mem s /\ state t = state s.
Proof. cbv zeta. unfold ppu_cr_cmp, ppu_cr_set. cbv zeta. destruct (ppu_debug cfg); auto 10. Qed.

(** What the four comparison instructions compare. *)
Definition compared (op : Z) (s : ppu_thread) : list (ppu_thread * Z * Z) :=
  let RA := get s (ra op) in let RB := get s (rb op) in let wide := negb (l10 op =? 0) in
  [ (CMP cfg op s, if wide then s64 RA else s32 RA, if wide then s64 RB else s32 RB);
    (CMPL cfg op s, if wide then RA else u32 RA, if wide then RB else u32 RB);
    (CMPI cfg op s, if wide then s64 RA else s32 RA, simm16 op);
    (CMPLI cfg op s, if wide then RA else u32 RA, uimm16 op) ].

Lemma triple_eq {X Y W} (x x' : X) (y y' : Y) (w w' : W) : (x, y, w) = (x', y', w') -> x = x' /\ y = y' /\ w = w'.
Proof. intros [= -> -> ->]. auto. Qed.
Lemma compared_cmp op s t a b : (t, a, b) ∈ compared op s -> t = ppu_cr_cmp cfg (crfd op) a b s.
Proof.
  unfold compared, CMP, CMPL, CMPI, CMPLI. cbv zeta. rewrite !(sint_wrap 32) by lia. intros Hin.
  repeat (apply elem_of_cons in Hin as [Hin|Hin];
          [apply triple_eq in Hin as (-> & -> & ->); destruct (negb (l10 op =? 0)); reflexivity|]).
  apply elem_of_nil in Hin as [].
Qed.

(** A comparison followed by a conditional branch on its field: for CMP, CMPL, CMPI and
    CMPLI, signed or unsigned, on doublewords or words, a BC that ignores CTR and tests bit
    LT, GT, EQ or SO of the field the comparison names is taken exactly when the operands
    stand in that relation (or SO was set) and BO asks for true, or they do not and it asks
    for false; the comparison changes no other field, no register, counter or memory. *)
Theorem compare_and_branch pc op1 op2 s j t a b :
  wf s -> (t, a, b) ∈ compared op1 s -> 0 <= j < 4 -> bi op2 = 4 * crfd op1 + j ->
  bo_bit op2 0 = false -> bo_bit op2 2 = true ->
  branches_to pc t (BC cfg pc op2 t)
    (Bool.eqb (nth (Z.to_nat j) [a <? b; b <? a; a =? b; so s] false) (bo_bit op2 1))
    (u32 ((if negb (aa op2 =? 0) then 0 else pc) + bt14 op2)) (ctr s) (link_after pc op2 s) /\
  (forall i, 0 <= i < 32 -> i / 4 <> crfd op1 -> cr_bit t i = cr_bit s i) /\
  gpr t = gpr s /\ cia t = cia s /\ mem t = mem s.
Proof.
  intros Hs Hin Hj Hbi H0 H2. apply compared_cmp in Hin as Et. pose proof (crf_range 6 op1 : 0 <= crfd op1 < 8) as Hf.
  assert (wf t) as Ht by (rewrite Et; auto with ppu).
  destruct (cmp_same (crfd op1) a b s) as (Eg & Ec & El & Es & Ea & Em & _). rewrite <- Et in Eg, Ec, El, Es, Ea, Em.
  split; [|split; [|auto]].
  - pose proof (BC_branches pc op2 t Ht) as H. unfold count_holds, count_after, cond_holds, link_after in H |- *.
    rewrite H0, H2, Hbi, El, Ec in H. cbn [orb andb] in H.
    replace (cr_bit t (4 * crfd op1 + j)) with (Z.b2z (nth (Z.to_nat j) [a <? b; b <? a; a =? b; so s] false)) in H.
    2:{ rewrite Et, cr_bit_cmp by (auto; lia). replace ((4 * crfd op1 + j) / 4) with (crfd op1) by (Z.div_mod_to_equations; lia).
        rewrite Z.eqb_refl. do 3 f_equal. Z.div_mod_to_equations; lia. }
    destruct (nth _ _ _), (bo_bit op2 1); exact H.
  - intros i Hi Hne. rewrite Et, cr_bit_cmp by (auto; lia). destruct (Z.eqb_spec (i / 4) (crfd op1)); [contradiction|reflexivity].
Qed.
End Flow.

(** ** Examples *)

(** [bdnzl +8] at 0x10000 with CTR = 1 is not taken; with CTR = 2 it is. *)
Lemma ppu_branches_witness :
  let s := with_ctr 2 (BarePpu.boot []) in let op := 0x42000009 in
  wf s /\ branches_to 0x10000 s (BC BarePpu.cfg 0x10000 op s) true 0x10008 1 0x10004.
Proof.
  intros s op. assert (wf s) as Hs by (apply wf_with_ctr; [apply BarePpu.ppu_boot_wf|unfold in_range; lia]).
  split; [exact Hs|]. destruct (ppu_branches BarePpu.cfg 0x10000 op s Hs) as (_ & E & _).
  replace (count_holds op s && cond_holds op s) with true in E by (vm_compute; reflexivity).
  replace (u32 ((if negb (aa op =? 0) then 0 else 0x10000) + bt14 op)) with 0x10008 in E by (vm_compute; reflexivity).
  replace (count_after op s) with 1 in E by (vm_compute; reflexivity).
  replace (link_after 0x10000 op s) with 0x10004 in E by (vm_compute; reflexivity). exact E.
Defined.

(** [cmpw cr1, r4, r5; blt cr1, +16] with -1 and 1: taken for the signed comparison. *)
Lemma compare_and_branch_witness :
  let s := BarePpu.sample (-1) 1 in let op1 := 4 * 2 ^ 21 + BarePpu.op345 - 3 * 2 ^ 21 in let op2 := 0x41840010 in
  let t := CMP BarePpu.cfg op1 s in
  wf s /\ branches_to 0x10000 t (BC BarePpu.cfg 0x10000 op2 t) true 0x10010 0 0.
Proof.
  intros s op1 op2 t. pose proof (BarePpu.ppu_sample_wf (-1) 1) as Hs. split; [exact Hs|].
  destruct (compare_and_branch BarePpu.cfg 0x10000 op1 op2 s 0 t (-1) 1 Hs) as [E _];
    [apply elem_of_cons; left; vm_compute; reflexivity|lia|vm_compute; reflexivity..|].
  exact E.
Defined.
