(* ===== verification/PpuSpr.v ===== *)
(** * Moves to and from the condition register and the special registers *)

From Stdlib Require Import ZArith Lia Bool.
From stdpp Require Import base numbers list gmap.
From S2P Require Import Prelude V128 Bytes GuestMem BitField PpuOpcodes PpuThread PpuInterp PpuWf PpuFlow.
Import ppu_opcode_t Interp.

(** ** Packed condition bits *)

Lemma bit_cases b : in_range 1 b -> b = 0 \/ b = 1.
Proof. unfold in_range. change (2 ^ 1) with 2. lia. Qed.
Lemma bit_testbit b : in_range 1 b -> b = Z.b2z (Z.testbit b 0).
Proof. intros H. destruct (bit_cases b H) as [->| ->]; reflexivity. Qed.

Lemma testbit_pack_acc l acc k :
  Forall (in_range 1) l -> 0 <= k < 32 ->
  Z.testbit (foldl (fun result bit => Z.lor (u32 (Z.shiftl result 1)) bit) acc l) k =
  if k <? Z.of_nat (length l) then Z.testbit (nth (length l - 1 - Z.to_nat k) l 0) 0
  else Z.testbit acc (k - Z.of_nat (length l)).
Proof.
  intros Hl Hk. revert acc. induction Hl as [|b l Hb Hl IH]; intros acc; cbn [foldl length].
  - destruct (Z.ltb_spec k (Z.of_nat 0)); [lia|]. f_equal. lia.
  - rewrite IH. destruct (Z.ltb_spec k (Z.of_nat (length l))), (Z.ltb_spec k (Z.of_nat (S (length l)))); try lia.
    + replace (S (length l) - 1 - Z.to_nat k)%nat with (S (length l - 1 - Z.to_nat k)) by lia. reflexivity.
    + replace (S (length l) - 1 - Z.to_nat k)%nat with 0%nat by lia. replace (k - Z.of_nat (length l)) with 0 by lia.
      rewrite Z.lor_spec, testbit_wrap, testbit_shiftl by lia. reflexivity.
    + rewrite Z.lor_spec, testbit_wrap, testbit_shiftl by lia.
      rewrite (testbit_high 1 b) by (auto; lia). bits_case. bits_case. cbn [andb]. rewrite orb_false_r. f_equal. lia.
Qed.
(** Bit [k] of the packed register is condition bit [31 - k]. *)
Lemma testbit_pack s k : wf s -> 0 <= k < 32 -> Z.testbit (pack (cr s)) k = Z.testbit (cr_bit s (31 - k)) 0.
Proof.
  intros Hs Hk. destruct (wf_cr s Hs) as [Hl Hb]. unfold pack. rewrite testbit_pack_acc, Hl by auto.
  destruct (Z.ltb_spec k (Z.of_nat 32)); [|lia]. unfold cr_bit. do 2 f_equal. lia.
Qed.

Lemma cr_ext s l : wf s -> length l = 32%nat -> (forall i, 0 <= i < 32 -> nth (Z.to_nat i) l 0 = cr_bit s i) -> l = cr s.
Proof.
  intros Hs Hl H. destruct (wf_cr s Hs) as [Hc _]. apply (list_eq_same_length _ _ 32); auto.
  intros i x y Hi Hx Hy. specialize (H (Z.of_nat i) ltac:(lia)). unfold cr_bit in H. rewrite Nat2Z.id in H.
  rewrite !nth_lookup, Hx, Hy in H. exact H.
Qed.

(** A field written as a whole. *)
Lemma cr_bit_field n v s j :
  wf s -> 0 <= n < 8 -> length v = 4%nat -> 0 <= j < 32 ->
  cr_bit (set_cr_field n v s) j = if j / 4 =? n then nth (Z.to_nat (j mod 4)) v 0 else cr_bit s j.
Proof.
  intros Hs Hn Hv Hj. unfold cr_bit, set_cr_field. cbn [cr with_cr]. pose proof (proj1 (wf_cr s Hs)) as Hl.
  rewrite !nth_lookup. pose proof (Z.div_mod j 4 ltac:(lia)). pose proof (Z.mod_pos_bound j 4 ltac:(lia)).
  assert (length (take (Z.to_nat (4 * n)) (cr s)) = Z.to_nat (4 * n)) as Ht by (rewrite length_take, Hl; lia).
  destruct (Z.eqb_spec (j / 4) n).
  - rewrite lookup_app_r by (rewrite Ht; lia). rewrite lookup_app_l by (rewrite Ht, Hv; lia).
    rewrite Ht. f_equal. f_equal. lia.
  - destruct (Z.lt_ge_cases j (4 * n)).
    + rewrite lookup_app_l by (rewrite Ht; lia). rewrite lookup_take_lt by lia. reflexivity.
    + rewrite lookup_app_r by (rewrite Ht; lia). rewrite lookup_app_r by (rewrite Ht, Hv; lia).
      rewrite Ht, Hv, lookup_drop. f_equal. f_equal. lia.
Qed.

Lemma field_shift n : 0 <= n < 8 -> Z.lxor (n * 4) 0x1c = 28 - 4 * n.
Proof. intros Hn. assert (n = 0 \/ n = 1 \/ n = 2 \/ n = 3 \/ n = 4 \/ n = 5 \/ n = 6 \/ n = 7) as H by lia.
  repeat destruct H as [->|H]; try (subst n); reflexivity.
Qed.
Lemma table_bit v n m :
  0 <= n < 8 -> 0 <= m < 4 ->
  nth (Z.to_nat m) (s_table (Z.land (Z.shiftr v (Z.lxor (n * 4) 0x1c)) 0xf)) 0 = Z.b2z (Z.testbit v (31 - (4 * n + m))).
Proof.
  intros Hn Hm. rewrite field_shift by lia. change 0xf with (Z.ones 4).
  assert (m = 0 \/ m = 1 \/ m = 2 \/ m = 3) as H by lia.
  repeat destruct H as [->|H]; try (subst m);
    [change (Z.to_nat 0) with 0%nat|change (Z.to_nat 1) with 1%nat|change (Z.to_nat 2) with 2%nat|change (Z.to_nat 3) with 3%nat];
    cbn [nth s_table]; rewrite Z.land_spec, Z.shiftr_spec, testbit_ones by lia; bits_case; rewrite andb_true_r; do 2 f_equal; lia.
Qed.

(** ** [mtcrf] and [mfcr] *)

(** The fields the instruction selects: any, or exactly one in the form for one field. *)
Definition fields_ok (op : Z) : Prop := l11 op = 0 \/ exists m, 0 <= m < 8 /\ crm op = 2 ^ m.

Lemma shiftr_128 i : 0 <= i < 8 -> Z.shiftr 128 i = 2 ^ (7 - i).
Proof.
  intros Hi. rewrite Z.shiftr_div_pow2 by lia. change 128 with (2 ^ 7).
  replace (2 ^ 7) with (2 ^ (7 - i) * 2 ^ i) by (rewrite <- Z.pow_add_r by lia; f_equal; lia).
  apply Z.div_mul. pose proof (pow2_pos i). lia.
Qed.
Lemma one_field m : 0 <= m < 8 -> Z.land (countl_zero 32 (2 ^ m)) 7 = 7 - m.
Proof.
  intros Hm. assert (m = 0 \/ m = 1 \/ m = 2 \/ m = 3 \/ m = 4 \/ m = 5 \/ m = 6 \/ m = 7) as H by lia.
  repeat destruct H as [->|H]; try (subst m); reflexivity.
Qed.

Lemma table_field_bit v n s j :
  wf s -> 0 <= n < 8 -> 0 <= j < 32 ->
  cr_bit (set_cr_field n (s_table (Z.land (Z.shiftr v (Z.lxor (n * 4) 0x1c)) 0xf)) s) j =
  if j / 4 =? n then Z.b2z (Z.testbit v (31 - j)) else cr_bit s j.
Proof.
  intros Hs Hn Hj. rewrite cr_bit_field by (auto; apply s_table_ok).
  destruct (Z.eqb_spec (j / 4) n); [|reflexivity]. pose proof (Z.div_mod j 4 ltac:(lia)).
  rewrite table_bit by (lia || apply Z.mod_pos_bound; lia). do 2 f_equal. lia.
Qed.

(** Condition bit [j] after [mtcrf] or [mtocrf]. *)
Lemma MTOCRF_bit op s j :
  wf s -> fields_ok op -> 0 <= j < 32 ->
  cr_bit (MTOCRF op s) j = if Z.testbit (crm op) (7 - j / 4) then Z.b2z (Z.testbit (get s (rs op)) (31 - j)) else cr_bit s j.
Proof.
  intros Hs Hok Hj. unfold MTOCRF. cbv zeta. pose proof (Z.div_mod j 4 ltac:(lia)). pose proof (Z.mod_pos_bound j 4 ltac:(lia)).
  destruct (Z.eqb_spec (l11 op) 0) as [E|E]; cbn [negb].
  - set (v := get s (rs op)).
    set (body := fun i t => if negb (Z.land (crm op) (Z.shiftr 128 i) =? 0) then _ else t).
    pose proof (for_up_ind (fun n t => wf t /\ cr_bit t j = if (j / 4 <? n) && Z.testbit (crm op) (7 - j / 4)
                                         then Z.b2z (Z.testbit v (31 - j)) else cr_bit s j) body 8 s) as Hfor.
    destruct Hfor as [_ Hfor].
    + split; [exact Hs|]. destruct (Z.ltb_spec (j / 4) 0); [lia|reflexivity].
    + intros i t Hi [Ht IH]. unfold body. rewrite shiftr_128, land_pow2_bit by lia.
      destruct (Z.testbit (crm op) (7 - i)) eqn:Eb.
      * split; [apply wf_set_cr_field; try apply s_table_ok; auto|]. rewrite table_field_bit, IH by (auto; lia).
        destruct (Z.eqb_spec (j / 4) i) as [->|].
        -- rewrite Eb. destruct (Z.ltb_spec i (i + 1)); [reflexivity|lia].
        -- destruct (Z.ltb_spec (j / 4) i), (Z.ltb_spec (j / 4) (i + 1)); try lia; reflexivity.
      * split; [exact Ht|]. rewrite IH. destruct (Z.eqb_spec (j / 4) i) as [->|].
        -- rewrite Eb, !andb_false_r. reflexivity.
        -- destruct (Z.ltb_spec (j / 4) i), (Z.ltb_spec (j / 4) (i + 1)); try lia; reflexivity.
    + rewrite Hfor. destruct (Z.ltb_spec (j / 4) (Z.of_nat 8)); [reflexivity|lia].
  - destruct Hok as [Hok|(m & Hm & Em)]; [contradiction|]. rewrite Em, one_field by lia.
    rewrite table_field_bit, Z.pow2_bits_eqb by (auto; lia).
    destruct (Z.eqb_spec (j / 4) (7 - m)), (Z.eqb_spec m (7 - j / 4)); try lia; reflexivity.
Qed.

(** ** XER *)

Lemma land_pow2_shift v n : 0 <= n -> Z.land v (2 ^ n) = Z.shiftl (Z.b2z (Z.testbit v n)) n.
Proof.
  intros Hn. apply Z.bits_inj'. intros k Hk. rewrite Z.land_spec, Z.pow2_bits_eqb, testbit_shiftl by lia.
  destruct (Z.eqb_spec n k) as [<-|].
  - rewrite andb_true_r, Z.sub_diag. destruct (Z.leb_spec n n); [|lia]. destruct (Z.testbit v n); reflexivity.
  - rewrite andb_false_r. destruct (Z.leb_spec n k); [|reflexivity]. cbn [andb]. symmetry.
    apply (testbit_high 1); [apply b2z_range|lia|lia].
Qed.

(** The bits of XER that are kept. *)
Definition xer_mask : Z := 0xe000007f.
Lemma xer_mask_split v :
  Z.land v xer_mask =
  Z.lor (Z.lor (Z.lor (Z.shiftl (Z.b2z (Z.testbit v 31)) 31) (Z.shiftl (Z.b2z (Z.testbit v 30)) 30))
           (Z.shiftl (Z.b2z (Z.testbit v 29)) 29)) (Z.land v 0x7f).
Proof.
  change xer_mask with (Z.lor (Z.lor (Z.lor (2 ^ 31) (2 ^ 30)) (2 ^ 29)) 0x7f).
  rewrite !Z.land_lor_distr_r, !land_pow2_shift by lia. reflexivity.
Qed.
Lemma xer_test v n m : m = 2 ^ n -> 0 <= n -> negb (Z.land v m =? 0) = Z.testbit v n.
Proof. intros ->. apply land_pow2_bit. Qed.

Lemma xer_word_bits s :
  wf s ->
  Z.testbit (xer_word s) 31 = so s /\ Z.testbit (xer_word s) 30 = ov s /\ Z.testbit (xer_word s) 29 = ca s /\
  Z.land (xer_word s) 0x7f = cnt s.
Proof.
  intros Hs. pose proof (wf_cnt s Hs) as Hc. unfold xer_word.
  rewrite !Z.lor_spec, !(testbit_high 7 (cnt s)) by (auto; lia).
  split; [|split; [|split]]; try (destruct (so s), (ov s), (ca s); reflexivity).
  change 0x7f with (Z.ones 7). rewrite Z.land_ones by lia. fold (wrap 7 (Z.lor (Z.lor (Z.lor (Z.shiftl (Z.b2z (so s)) 31) (Z.shiftl (Z.b2z (ov s)) 30)) (Z.shiftl (Z.b2z (ca s)) 29)) (cnt s))).
  apply Z.bits_inj'. intros k Hk. rewrite testbit_wrap, !Z.lor_spec, !testbit_shiftl by lia.
  destruct (Z.ltb_spec k 7); [|rewrite (testbit_high 7 (cnt s)) by (auto; lia); reflexivity].
  repeat bits_case. reflexivity.
Qed.

(** ** Round trips *)

Lemma MFCR_MTOCRF op1 op2 s k :
  wf s -> fields_ok op1 -> 0 <= k < 32 ->
  Z.testbit (get (MFCR op2 (MTOCRF op1 s)) (rd op2)) k =
  if Z.testbit (crm op1) (k / 4) then Z.testbit (get s (rs op1)) k else Z.testbit (pack (cr s)) k.
Proof.
  intros Hs Hok Hk. pose proof (MTOCRF_wf op1 s Hs) as Ht. unfold MFCR. rewrite gpr_set_eq by (auto; apply ppu_reg_field).
  rewrite !testbit_pack, MTOCRF_bit by (auto; lia).
  replace (7 - (31 - k) / 4) with (k / 4) by (Z.div_mod_to_equations; lia). replace (31 - (31 - k)) with k by lia.
  destruct (Z.testbit (crm op1) (k / 4)); [|reflexivity]. destruct (Z.testbit _ k); reflexivity.
Qed.
Lemma MTOCRF_MFCR op1 op2 s :
  wf s -> fields_ok op1 -> rs op1 = rd op2 -> cr (MTOCRF op1 (MFCR op2 s)) = cr s.
Proof.
  intros Hs Hok E. pose proof (MFCR_wf op2 s Hs) as Ht. pose proof (MTOCRF_wf op1 _ Ht) as Hu.
  apply cr_ext; [exact Hs|apply (wf_cr _ Hu)|]. intros i Hi.
  change (cr_bit (MTOCRF op1 (MFCR op2 s)) i = cr_bit s i). rewrite MTOCRF_bit by auto.
  assert (get (MFCR op2 s) (rs op1) = pack (cr s)) as -> by (rewrite E; apply gpr_set_eq; auto; apply ppu_reg_field).
  rewrite testbit_pack by (auto; lia). replace (31 - (31 - i)) with i by lia.
  destruct (Z.testbit (crm op1) _); [|reflexivity]. symmetry. apply bit_testbit, cr_bit_range, Hs.
Qed.

Section Spr.
Context `{PpuHost}.

Lemma MFSPR_MTSPR op1 op2 s n v :
  wf s -> (n, v) ∈ [(0x001, Z.land (get s (rs op1)) xer_mask); (0x008, get s (rs op1)); (0x009, get s (rs op1));
                    (0x100, u32 (get s (rs op1)))] ->
  spr_number op1 = n -> spr_number op2 = n ->
  exists t u, MTSPR op1 s = MOk tt t /\ MFSPR op2 t = MOk tt u /\ get u (rd op2) = v.
Proof.
  intros Hs Hin E1 E2. pose proof (MTSPR_keeps op1 s Hs) as Hk. unfold MTSPR in *. cbv zeta in *.
  repeat (apply elem_of_cons in Hin as [Hin|Hin]); try (apply elem_of_nil in Hin as []);
    injection Hin as -> ->; rewrite E1 in *; cbn [Z.eqb Pos.eqb] in *;
    (eexists; eexists; split; [reflexivity|]; split;
      [unfold MFSPR; cbv zeta; rewrite E2; reflexivity|rewrite gpr_set_eq; [|apply Hk|apply ppu_reg_field]]);
    try reflexivity.
  rewrite xer_mask_split. unfold xer_word. cbn [so ov ca cnt with_so with_ov with_ca with_cnt].
  rewrite (xer_test _ 31 0x80000000), (xer_test _ 30 0x40000000), (xer_test _ 29 0x20000000) by (reflexivity || lia). reflexivity.
Qed.

Lemma MTSPR_MFSPR op1 op2 s :
  wf s -> spr_number op1 ∈ [0x001; 0x008; 0x009; 0x100] -> spr_number op2 = spr_number op1 -> rs op1 = rd op2 ->
  exists t, MFSPR op2 s = MOk tt t /\ MTSPR op1 t = MOk tt t.
Proof.
  intros Hs Hin E2 E. pose proof (xer_word_bits s Hs) as (X1 & X2 & X3 & X4).
  pose proof (wf_vrsave s Hs) as Hv. unfold MFSPR. cbv zeta. rewrite E2.
  assert (forall x, get (set (rd op2) x s) (rs op1) = x) as Hg by (intros; rewrite E; apply gpr_set_eq; auto; apply ppu_reg_field).
  repeat (apply elem_of_cons in Hin as [Hin|Hin]); try (apply elem_of_nil in Hin as []); rewrite Hin; cbn [Z.eqb Pos.eqb];
    (eexists; split; [reflexivity|]; unfold MTSPR; cbv zeta; rewrite Hin, Hg; cbn [Z.eqb Pos.eqb]; f_equal);
    rewrite ?(xer_test _ 31 0x80000000), ?(xer_test _ 30 0x40000000), ?(xer_test _ 29 0x20000000), ?X1, ?X2, ?X3, ?X4, ?wrap_small by (reflexivity || lia || auto);
    destruct s; reflexivity.
Qed.

(** C33: moves to and from the special registers.  After [mtcrf] (any fields) or [mtocrf]
    (one field) [mfcr] reads the new value of the selected fields and the old one of the
    others; moving the register that [mfcr] read back leaves CR as it was.  After [mtspr] to
    XER, LR, CTR or VRSAVE [mfspr] reads the value, less the bits the register does not have;
    moving back what [mfspr] read changes nothing; other numbers throw. *)
Theorem special_register_moves op1 op2 s :
  wf s ->
  (fields_ok op1 -> forall k, 0 <= k < 32 ->
     Z.testbit (get (MFCR op2 (MTOCRF op1 s)) (rd op2)) k =
     if Z.testbit (crm op1) (k / 4) then Z.testbit (get s (rs op1)) k else Z.testbit (pack (cr s)) k) /\
  (fields_ok op1 -> rs op1 = rd op2 -> cr (MTOCRF op1 (MFCR op2 s)) = cr s) /\
  (forall n v, (n, v) ∈ [(0x001, Z.land (get s (rs op1)) xer_mask); (0x008, get s (rs op1)); (0x009, get s (rs op1));
                         (0x100, u32 (get s (rs op1)))] ->
     spr_number op1 = n -> spr_number op2 = n ->
     exists t u, MTSPR op1 s = MOk tt t /\ MFSPR op2 t = MOk tt u /\ get u (rd op2) = v) /\
  (spr_number op1 ∈ [0x001; 0x008; 0x009; 0x100] -> spr_number op2 = spr_number op1 -> rs op1 = rd op2 ->
     exists t, MFSPR op2 s = MOk tt t /\ MTSPR op1 t = MOk tt t) /\
  (spr_number op1 ∉ [0x001; 0x008; 0x009; 0x100] -> MTSPR op1 s = MThrow).
Proof.
  intros Hs. split; [intros; apply MFCR_MTOCRF; auto|]. split; [intros; apply MTOCRF_MFCR; auto|].
  split; [intros; eapply MFSPR_MTSPR; eauto|]. split; [intros; apply MTSPR_MFSPR; auto|].
  intros Hn. repeat (apply not_elem_of_cons in Hn as [? Hn]). unfold MTSPR. cbv zeta.
  rewrite !(proj2 (Z.eqb_neq (spr_number op1) _)) by assumption. reflexivity.
Qed.
End Spr.

(** [mtcrf 0x81, r4; mfcr r3] and [mtxer r4; mfxer r3]. *)
Lemma special_register_moves_witness :
  let s := BarePpu.sample 0xfedcba98 0 in
  let mtcrf := 4 * 2 ^ 21 + 0x81 * 2 ^ 12 in let mfcr := 3 * 2 ^ 21 in
  let mtxer := 4 * 2 ^ 21 + 1 * 2 ^ 16 in let mfxer := 3 * 2 ^ 21 + 1 * 2 ^ 16 in
  wf s /\ Z.testbit (get (MFCR mfcr (MTOCRF mtcrf s)) 3) 31 = true /\
  get (MFCR mfcr (MTOCRF mtcrf s)) 3 = 0xf0000008 /\
  exists t u, MTSPR mtxer s = MOk tt t /\ @MFSPR BarePpu.host mfxer t = MOk tt u /\ get u 3 = 0xe0000018.
Proof.
  intros s mtcrf mfcr mtxer mfxer. pose proof (BarePpu.ppu_sample_wf 0xfedcba98 0) as Hs. split; [exact Hs|].
  split; [|split; [vm_compute; reflexivity|]].
  - destruct (@special_register_moves BarePpu.host mtcrf mfcr s Hs) as [E _].
    etransitivity; [apply (E (or_introl eq_refl) 31); lia|]. vm_compute. reflexivity.
  - destruct (@special_register_moves BarePpu.host mtxer mfxer s Hs) as (_ & _ & E & _).
    destruct (E 1 0xe0000018) as (t & u & E1 & E2 & E3); [apply elem_of_cons; left; vm_compute; reflexivity|vm_compute; reflexivity..|].
    exists t, u. auto.
Defined.
