(* ===== verification/PpuMem.v ===== *)
(** * Loads and stores of the PPU

    What a store leaves for the loads that follow it, at every width, byte order and offset
    and in every address form, the faults, and the multiple-register instructions as a save
    and restore of registers. *)

From Stdlib Require Import ZArith Lia Bool.
From stdpp Require Import base numbers list gmap.
From S2P Require Import Prelude V128 Bytes GuestMem BitField PpuOpcodes PpuThread PpuInterp PpuWf.
Import ppu_opcode_t Interp.

(** ** Bytes and numbers *)

Lemma be_of_snoc l b : be_of (l ++ [b]) = Z.lor (Z.shiftl (be_of l) 8) b.
Proof. unfold be_of. rewrite foldl_app. reflexivity. Qed.

Lemma vm_bytes_S m a n : vm_bytes m a (S n) = vm_bytes m a n ++ [byte_at m (a + Z.of_nat n)].
Proof. unfold vm_bytes. rewrite seq_S, map_app. reflexivity. Qed.

(** Byte [k] from the most significant one of a big-endian list. *)
Lemma lane_be_of l k :
  Forall (in_range 8) l -> (k < length l)%nat -> lane 8 (Z.of_nat (length l - 1 - k)) (be_of l) = nth k l 0.
Proof.
  intros Hl. induction l as [|b l IH] using rev_ind; intros Hk; [cbn in Hk; lia|].
  apply Forall_app in Hl as [Hl Hb]. apply Forall_cons in Hb as [Hb _].
  rewrite be_of_snoc. rewrite length_app in *. cbn [length] in *.
  destruct (Nat.eq_dec k (length l)) as [->|].
  - rewrite app_nth2, Nat.sub_diag by lia. cbn [nth]. replace (length l + 1 - 1 - length l)%nat with 0%nat by lia.
    cbn [Z.of_nat]. apply Z.bits_inj'. intros j Hj. autorewrite with bits. rewrite Z.mul_0_r, Z.add_0_r.
    destruct (Z.ltb_spec j 8); cbn [andb]; [destruct (Z.leb_spec 8 j); [lia|reflexivity]|].
    symmetry. apply (testbit_high 8); auto; lia.
  - rewrite app_nth1, <- IH by (auto; lia).
    apply Z.bits_inj'. intros j Hj. autorewrite with bits. destruct (Z.ltb_spec j 8); [|reflexivity]. cbn [andb].
    destruct (Z.leb_spec 8 (j + 8 * Z.of_nat (length l + 1 - 1 - k))); [|lia]. cbn [andb].
    rewrite (testbit_high 8 b) by (auto; lia). rewrite orb_false_r. f_equal. lia.
Qed.

Lemma be_of_bytes m a n : bytes_ok m -> be_of (vm_bytes m a n) = be_load m a n.
Proof.
  intros Hm. destruct (vm_bytes_ok m a n Hm) as [Hl Hb].
  apply (lane_ext 8 n); [lia|apply be_of_range; auto|apply be_load_range; auto|].
  intros i Hi. replace i with (Z.of_nat n - 1 - (Z.of_nat n - 1 - i)) at 2 by lia.
  rewrite lane_be_load by (auto; lia).
  pose proof (lane_be_of (vm_bytes m a n) (n - 1 - Z.to_nat i) Hb) as H. rewrite Hl in H.
  replace (Z.of_nat (n - 1 - (n - 1 - Z.to_nat i))) with i in H by lia. rewrite H by lia.
  rewrite nth_lookup. unfold vm_bytes. change (map ?f ?l) with (f <$> l).
  rewrite list_lookup_fmap, lookup_seq_lt by lia. cbn. f_equal. lia.
Qed.

(** Part of a stored number, loaded: [j] bytes at offset [k] of [n]. *)
Lemma be_load_part m a n v k j :
  bytes_ok m -> (k + j <= n)%nat ->
  be_load (be_store m a n v) (a + Z.of_nat k) j = wrap (8 * Z.of_nat j) (Z.shiftr v (8 * Z.of_nat (n - k - j))).
Proof.
  intros Hm Hk. pose proof (be_store_ok m a n v Hm) as Hm'.
  apply (lane_ext 8 j); [lia|apply be_load_range; auto|apply wrap_range; lia|].
  intros i Hi. replace i with (Z.of_nat j - 1 - (Z.of_nat j - 1 - i)) at 1 by lia.
  rewrite lane_be_load by (auto; lia).
  replace (a + Z.of_nat k + (Z.of_nat j - 1 - i)) with (a + (Z.of_nat k + (Z.of_nat j - 1 - i))) by lia.
  rewrite byte_at_store by lia. apply Z.bits_inj'. intros b Hb. autorewrite with bits.
  destruct (Z.ltb_spec b 8); [|reflexivity]. cbn [andb].
  destruct (Z.ltb_spec (b + 8 * i) (8 * Z.of_nat j)); [|lia]. cbn [andb]. f_equal. lia.
Qed.

(** ** Byte order *)

Lemma nth_map_seq (f : nat -> Z) n k : (k < n)%nat -> nth k (map f (seq 0 n)) 0 = f k.
Proof.
  intros Hk. rewrite nth_lookup. change (map f (seq 0 n)) with (f <$> seq 0 n).
  rewrite list_lookup_fmap, lookup_seq_lt by lia. reflexivity.
Qed.
Lemma map_seq_bytes (f : nat -> Z) n : (forall i, in_range 8 (f i)) -> bytes_of n (map f (seq 0 n)).
Proof.
  intros Hf. split; [rewrite length_map, length_seq; reflexivity|].
  apply Forall_forall. intros x Hx. apply list_elem_of_fmap in Hx as (i & -> & _). apply Hf.
Qed.

(** Byte [i] from the least significant one of a swapped number. *)
Lemma lane_swap n v i : 0 <= i < Z.of_nat n -> lane 8 i (swap n v) = lane 8 (Z.of_nat n - 1 - i) v.
Proof.
  intros Hi. unfold swap. destruct (map_seq_bytes (fun i => lane 8 (Z.of_nat i) v) n) as [Hl Hb];
    [intros; apply lane_range; lia|].
  pose proof (lane_be_of _ (n - 1 - Z.to_nat i) Hb) as H. rewrite Hl in H.
  replace (Z.of_nat (n - 1 - (n - 1 - Z.to_nat i))) with i in H by lia. rewrite H, nth_map_seq by lia.
  f_equal. lia.
Qed.
Lemma swap_range n v : in_range (8 * Z.of_nat n) (swap n v).
Proof. destruct (map_seq_bytes (fun i => lane 8 (Z.of_nat i) v) n) as [Hl Hb]; [intros; apply lane_range; lia|]. apply be_of_range; auto. Qed.
Lemma swap_swap n v : in_range (8 * Z.of_nat n) v -> swap n (swap n v) = v.
Proof.
  intros Hv. apply (lane_ext 8 n); [lia|apply swap_range|exact Hv|].
  intros i Hi. rewrite !lane_swap by lia. f_equal. lia.
Qed.

(** Bytes read from the other end are the swapped number. *)
Lemma le_of_bytes m a n : bytes_ok m -> le_of (vm_bytes m a n) = swap n (be_load m a n).
Proof.
  intros Hm. destruct (vm_bytes_ok m a n Hm) as [Hl Hb].
  assert (Forall (in_range 8) (rev (vm_bytes m a n))) as Hr by (apply Forall_rev, Hb).
  assert (length (rev (vm_bytes m a n)) = n) as Hlr by (rewrite length_rev; exact Hl).
  apply (lane_ext 8 n); [lia|apply be_of_range; auto|apply swap_range|].
  intros i Hi. rewrite lane_swap by lia.
  pose proof (lane_be_of _ (n - 1 - Z.to_nat i) Hr) as H. rewrite Hlr in H.
  replace (Z.of_nat (n - 1 - (n - 1 - Z.to_nat i))) with i in H by lia. unfold le_of. rewrite H by lia.
  rewrite rev_nth, Hl by (rewrite Hl; lia). unfold vm_bytes. rewrite nth_map_seq, lane_be_load by (auto; lia).
  f_equal. lia.
Qed.

(** ** Access *)

Lemma accessible_part g a n f k j :
  accessible g a n f = true -> (k + j <= n)%nat -> accessible g (a + Z.of_nat k) j f = true.
Proof.
  revert a k j. induction n as [|n IH]; intros a k j H Hk; cbn [accessible] in H.
  - destruct j; [reflexivity|lia].
  - apply andb_true_iff in H as [H1 H2]. destruct k as [|k].
    + destruct j as [|j]; [reflexivity|]. cbn [accessible]. rewrite Z.add_0_r, H1. cbn [andb].
      specialize (IH (a + 1) 0%nat j H2 ltac:(lia)). rewrite Z.add_0_r in IH. exact IH.
    + specialize (IH (a + 1) k j H2 ltac:(lia)). replace (a + Z.of_nat (S k)) with (a + 1 + Z.of_nat k) by lia. exact IH.
Qed.

(** Reading, possibly giving up a reservation. *)
Definition fed (s t : ppu_thread) : Prop := t = s \/ t = lose_reservation s.

Section Access.
Context (cfg : ppu_config).

Lemma feed_ok n a s :
  in_range 32 a -> accessible (mem s) a n page_readable = true ->
  exists t, ppu_feed_data cfg n a s = MOk (vm_bytes (ram (mem s)) a n) t /\ fed s t.
Proof.
  intros Ha Hacc. unfold ppu_feed_data, vm_read, vm_cast, mbindp. rewrite wrap_small, Z.eqb_refl, Hacc by auto. cbv zeta.
  unfold fed.
  repeat (case_match; try (eexists; split; [reflexivity|]; auto; fail)); simplify_eq; eexists; split; try reflexivity; auto.
Qed.
Lemma feed_throw n a s : in_range 64 a -> 2 ^ 32 <= a -> ppu_feed_data cfg n a s = MThrow.
Proof.
  intros Ha Hb. unfold ppu_feed_data, vm_read, vm_cast, mbindp.
  pose proof (wrap_range 32 a ltac:(lia)) as Hr. unfold in_range in Hr.
  destruct (Z.eqb_spec (u32 a) a); [lia|reflexivity].
Qed.
Lemma feed_fault n a s :
  in_range 32 a -> accessible (mem s) a n page_readable = false -> ppu_feed_data cfg n a s = MFault a.
Proof.
  intros Ha Hacc. unfold ppu_feed_data, vm_read, vm_cast, mbindp. rewrite wrap_small, Z.eqb_refl, Hacc by auto. reflexivity.
Qed.
Lemma write_ok n a v s :
  in_range 32 a -> accessible (mem s) a n page_writable = true ->
  vm_write a n v s = MOk tt (with_mem (with_ram (be_store (ram (mem s)) a n v) (mem s)) s).
Proof. intros Ha Hacc. unfold vm_write, vm_cast, mbindp. rewrite wrap_small, Z.eqb_refl, Hacc by auto. reflexivity. Qed.
Lemma write_throw n a v s : in_range 64 a -> 2 ^ 32 <= a -> vm_write a n v s = MThrow.
Proof.
  intros Ha Hb. unfold vm_write, vm_cast, mbindp. pose proof (wrap_range 32 a ltac:(lia)) as Hr. unfold in_range in Hr.
  destruct (Z.eqb_spec (u32 a) a); [lia|reflexivity].
Qed.
Lemma write_fault n a v s :
  in_range 32 a -> accessible (mem s) a n page_writable = false -> vm_write a n v s = MFault a.
Proof. intros Ha Hacc. unfold vm_write, vm_cast, mbindp. rewrite wrap_small, Z.eqb_refl, Hacc by auto. reflexivity. Qed.

Context `{PpuHost}.

(** ** Effective addresses

    D forms add the signed immediate to RA; DS forms add four times a signed 14-bit number
    and X forms add RB to RA, or to zero when they name r0. *)
Definition ra_or_0 (op : Z) (s : ppu_thread) : Z := if ra op =? 0 then 0 else get s (ra op).
Definition ea_d (op : Z) (s : ppu_thread) : Z := u64 (get s (ra op) + sint 16 op).
Definition ea_ds (op : Z) (s : ppu_thread) : Z := u64 (ra_or_0 op s + 4 * sint 14 (op / 4)).
Definition ea_x (op : Z) (s : ppu_thread) : Z := u64 (ra_or_0 op s + get s (rb op)).

Lemma simm16_low op : simm16 op = sint 16 op.
Proof.
  unfold simm16, ppu_bf_s. rewrite bf.extract_s_sint, bf.extract_wrap, sint_wrap, Z.shiftr_0_r by lia. reflexivity.
Qed.
Lemma addr_d_ea op s : addr_d op s = ea_d op s.
Proof. unfold addr_d, ea_d. rewrite simm16_low. reflexivity. Qed.
Lemma land_minus4 x : Z.land x (-4) = 4 * (x / 4).
Proof.
  replace (-4) with (Z.lnot (Z.ones 2)) by reflexivity. rewrite <- Z.ldiff_land, Z.ldiff_ones_r by lia.
  rewrite Z.shiftl_mul_pow2, Z.shiftr_div_pow2 by lia. change (2 ^ 2) with 4. lia.
Qed.
Lemma sint_div4 x : sint 16 x / 4 = sint 14 (x / 4).
Proof.
  unfold sint. change (2 ^ (16 - 1)) with (4 * 2 ^ 13). change (2 ^ 16) with (4 * 2 ^ 14). change (14 - 1) with 13.
  rewrite (Z.mul_comm 4 (2 ^ 14)), Z.mul_comm with (n := 4). Z.div_mod_to_equations. lia.
Qed.
Lemma addr_ds_ea op s : addr_ds op s = ea_ds op s.
Proof.
  unfold addr_ds, ea_ds, ra_or_0. rewrite simm16_low, land_minus4, sint_div4. destruct (ra op =? 0); cbn [negb]; f_equal; lia.
Qed.
Lemma addr_x_ea op s : wf s -> addr_x op s = ea_x op s.
Proof.
  intros Hs. unfold addr_x, ea_x, ra_or_0. destruct (ra op =? 0); cbn [negb]; [|reflexivity].
  symmetry. apply wrap_small, gpr_range, Hs.
Qed.

(** ** The instructions

    The store instructions that leave RA alone, each with its size, the big-endian number of
    the bytes it writes and its address; the loads with their size, what they make of the
    big-endian number of the bytes, and their address. *)
Definition store_forms (op : Z) (s : ppu_thread) : list (PM unit * nat * Z * Z) :=
  let RS := get s (rs op) in
  [ (STB op, 1%nat, u8 RS, ea_d op s); (STBX op, 1%nat, u8 RS, ea_x op s);
    (STH op, 2%nat, u16 RS, ea_d op s); (STHX op, 2%nat, u16 RS, ea_x op s);
    (STW op, 4%nat, u32 RS, ea_d op s); (STWX op, 4%nat, u32 RS, ea_x op s);
    (STD op, 8%nat, RS, ea_ds op s); (STDX op, 8%nat, RS, ea_x op s);
    (STHBRX op, 2%nat, swap 2 (u16 RS), ea_x op s); (STWBRX op, 4%nat, swap 4 (u32 RS), ea_x op s);
    (STDBRX op, 8%nat, swap 8 RS, ea_x op s) ].
Definition load_forms (op : Z) (s : ppu_thread) : list (PM unit * nat * (Z -> Z) * Z) :=
  [ (LBZ cfg op, 1%nat, fun v => v, ea_d op s); (LBZX cfg op, 1%nat, fun v => v, ea_x op s);
    (LHZ cfg op, 2%nat, fun v => v, ea_d op s); (LHZX cfg op, 2%nat, fun v => v, ea_x op s);
    (LHA cfg op, 2%nat, fun v => u64 (s16 v), ea_d op s); (LHAX cfg op, 2%nat, fun v => u64 (s16 v), ea_x op s);
    (LWZ cfg op, 4%nat, fun v => v, ea_d op s); (LWZX cfg op, 4%nat, fun v => v, ea_x op s);
    (LWA cfg op, 4%nat, fun v => u64 (s32 v), ea_ds op s); (LWAX cfg op, 4%nat, fun v => u64 (s32 v), ea_x op s);
    (LD cfg op, 8%nat, fun v => v, ea_ds op s); (LDX cfg op, 8%nat, fun v => v, ea_x op s);
    (LHBRX cfg op, 2%nat, swap 2, ea_x op s); (LWBRX cfg op, 4%nat, swap 4, ea_x op s);
    (LDBRX cfg op, 8%nat, swap 8, ea_x op s) ].

(** A form does this at any state with the given registers. *)
Definition stores (st : PM unit) (n : nat) (v a : Z) (s : ppu_thread) : Prop := st s = vm_write a n v s.
Definition loads (op : Z) (ld : PM unit) (n : nat) (conv : Z -> Z) (a : Z) (s : ppu_thread) : Prop :=
  exists c, ld s = (let! l := ppu_feed_data cfg n a in modify (set (rd op) (c l))) s /\
            forall m b, bytes_ok m -> c (vm_bytes m b n) = conv (be_load m b n).

(** [vm::reservation_update], which [STW] calls after it has stored 0xAAAAAAAA, changes time stamps
    outside the thread; that a signalled thread may stop in it is left out. *)
Context (Hupdate : forall a s, reservation_update a s = MOk tt s).

Lemma STW_stores op s : STW op s = vm_write (ea_d op s) 4 (u32 (get s (rs op))) s.
Proof.
  rewrite <- addr_d_ea. unfold STW, mbindp at 1. cbv zeta. unfold vm_write, vm_cast, mbindp, mret.
  destruct (u32 (addr_d op s) =? addr_d op s) eqn:E; [|reflexivity]. destruct (accessible _ _ _ _); [|reflexivity].
  destruct (_ =? 0xAAAAAAAA); [|reflexivity]. apply Hupdate.
Qed.

Lemma elem_of_4 {X Y W V} (x x' : X) (y y' : Y) (w w' : W) (v v' : V) :
  (x, y, w, v) = (x', y', w', v') -> x = x' /\ y = y' /\ w = w' /\ v = v'.
Proof. intros [= -> -> -> ->]. auto. Qed.

Ltac in_forms Hin :=
  repeat (apply elem_of_cons in Hin as [Hin|Hin]); [apply elem_of_4 in Hin as (-> & -> & -> & ->)..|apply elem_of_nil in Hin as []].

Lemma store_form op s st n v a : wf s -> (st, n, v, a) ∈ store_forms op s -> stores st n v a s.
Proof.
  unfold store_forms. cbv zeta. intros Hs Hin.
  in_forms Hin; rewrite <- ?addr_d_ea, <- ?addr_ds_ea, <- ?addr_x_ea by exact Hs; try reflexivity.
  unfold stores. rewrite addr_d_ea. apply STW_stores.
Qed.

Lemma load_form op s ld n conv a :
  wf s -> (ld, n, conv, a) ∈ load_forms op s ->
  loads op ld n conv a s /\ (forall t, wf t -> gpr t = gpr s -> loads op ld n conv a t).
Proof.
  unfold load_forms. intros Hs Hin. enough (forall t, wf t -> gpr t = gpr s -> loads op ld n conv a t) as Hx by auto.
  intros t Ht Et. assert (ea_d op s = ea_d op t /\ ea_x op s = ea_x op t /\ ea_ds op s = ea_ds op t) as (Ed & Ex & Es).
  { unfold ea_d, ea_x, ea_ds, ra_or_0, get. rewrite Et. auto. }
  rewrite Ed, Ex, Es in Hin.
  in_forms Hin; rewrite <- ?addr_d_ea, <- ?addr_ds_ea, <- ?addr_x_ea by exact Ht;
    (eexists; split; [reflexivity|]; intros m b Hm; unfold be_s16, be_s32; cbv beta;
     rewrite ?be_of_bytes, ?le_of_bytes by auto; reflexivity).
Qed.

Lemma ea_range op s : in_range 64 (ea_d op s) /\ in_range 64 (ea_ds op s) /\ in_range 64 (ea_x op s).
Proof. repeat split; apply wrap_range; lia. Qed.
Lemma store_addr op s st n v a : (st, n, v, a) ∈ store_forms op s -> in_range 64 a.
Proof. unfold store_forms. cbv zeta. intros Hin. in_forms Hin; apply ea_range. Qed.
Lemma load_addr op s ld n conv a : (ld, n, conv, a) ∈ load_forms op s -> in_range 64 a.
Proof. unfold load_forms. intros Hin. in_forms Hin; apply ea_range. Qed.
Lemma load_size op s ld n conv a : (ld, n, conv, a) ∈ load_forms op s -> (0 < n)%nat.
Proof. unfold load_forms. intros Hin. in_forms Hin; lia. Qed.
Lemma fed_same s t : fed s t -> gpr t = gpr s /\ mem t = mem s /\ (wf s -> wf t).
Proof. intros [->| ->]; auto using wf_lose. Qed.

(** [n] bytes at [a] the program may read and write. *)
Definition cell (s : ppu_thread) (a : Z) (n : nat) : Prop :=
  0 <= a /\ a + Z.of_nat n <= 2 ^ 32 /\
  accessible (mem s) a n page_readable = true /\ accessible (mem s) a n page_writable = true.

Lemma load_after ld op j conv b u :
  wf u -> loads op ld j conv b u -> in_range 32 b -> accessible (mem u) b j page_readable = true ->
  exists t, ld u = MOk tt t /\ gpr t = <[Z.to_nat (rd op) := conv (be_load (ram (mem u)) b j)]> (gpr u) /\ mem t = mem u.
Proof.
  intros Hu (c & E & Hc) Hb Hacc. destruct (feed_ok j b u Hb Hacc) as (t & Ef & Hf).
  destruct (fed_same u t Hf) as (Hg & Hm & _).
  exists (set (rd op) (c (vm_bytes (ram (mem u)) b j)) t). rewrite E. unfold mbindp. rewrite Ef. split; [reflexivity|].
  rewrite Hc by apply (wf_ram u Hu). unfold set. cbn [gpr mem with_gpr]. rewrite Hg, Hm. auto.
Qed.

(** C15: a store followed by a load inside the bytes it wrote: for every store and load
    instruction of the lists (bytes to doublewords, zero- and sign-extending, byte-reversed, D,
    DS and X addresses), when the program may access the stored bytes, both complete, the
    target register holds the stored number's bytes at the load's offset, converted as the
    load says (so a load of the same form gives the stored value back; reversed stores and
    loads cancel), no other register changes and no memory outside the stored bytes.  A store or
    load at an address beyond 32 bits throws, at a page without the right it faults.  The call of
    [vm::reservation_update] in [STW] of 0xAAAAAAAA is taken to leave the thread and memory as they
    are. *)
Theorem store_then_load op1 op2 s st n v a ld j conv b k :
  wf s -> (st, n, v, a) ∈ store_forms op1 s -> (ld, j, conv, b) ∈ load_forms op2 s ->
  (cell s a n -> b = a + Z.of_nat k -> (k + j <= n)%nat ->
   exists t, (st >> ld) s = MOk tt t /\
     gpr t = <[Z.to_nat (rd op2) := conv (wrap (8 * Z.of_nat j) (Z.shiftr v (8 * Z.of_nat (n - k - j))))]> (gpr s) /\
     (forall c, c < a \/ a + Z.of_nat n <= c -> byte_at (ram (mem t)) c = byte_at (ram (mem s)) c)) /\
  (2 ^ 32 <= a -> st s = MThrow) /\ (2 ^ 32 <= b -> ld s = MThrow) /\
  (a < 2 ^ 32 -> accessible (mem s) a n page_writable = false -> st s = MFault a) /\
  (b < 2 ^ 32 -> accessible (mem s) b j page_readable = false -> ld s = MFault b) /\
  swap n (swap n (wrap (8 * Z.of_nat n) v)) = wrap (8 * Z.of_nat n) v.
Proof.
  intros Hs Hst Hld. pose proof (store_form _ _ _ _ _ _ Hs Hst) as Est. destruct (load_form _ _ _ _ _ _ Hs Hld) as [Eld Eld'].
  pose proof (store_addr _ _ _ _ _ _ Hst) as Ha. pose proof (load_addr _ _ _ _ _ _ Hld) as Hb.
  split; [|split; [|split; [|split; [|split]]]].
  - intros (H0 & H1 & Hr & Hw) -> Hk. unfold stores in Est. pose proof (load_size _ _ _ _ _ _ Hld).
    set (u := with_mem (with_ram (be_store (ram (mem s)) a n v) (mem s)) s).
    assert (st s = MOk tt u) as E by (rewrite Est; apply write_ok; auto; unfold in_range in *; lia).
    destruct (load_after ld op2 j conv (a + Z.of_nat k) u) as (t & Et & Eg & Em).
    + apply wf_poke, Hs.
    + apply Eld'; [apply wf_poke, Hs|reflexivity].
    + unfold in_range in *. lia.
    + cbn [mem u with_mem]. rewrite accessible_ram. apply (accessible_part _ _ n); auto.
    + exists t. unfold mbindp. rewrite E, Et. split; [reflexivity|]. rewrite Eg, Em. cbn [ram mem u with_mem with_ram gpr].
      rewrite be_load_part by (auto; apply (wf_ram s Hs)). split; [reflexivity|].
      intros c Hc. apply byte_at_store_other. exact Hc.
  - intros Hlt. unfold stores in Est. rewrite Est. apply write_throw; auto.
  - intros Hlt. destruct Eld as (c & -> & _). unfold mbindp. rewrite feed_throw; auto.
  - intros Hlt Hacc. unfold stores in Est. rewrite Est. apply write_fault; auto. unfold in_range in *. lia.
  - intros Hlt Hacc. destruct Eld as (c & -> & _). unfold mbindp. rewrite feed_fault; auto. unfold in_range in *. lia.
  - apply swap_swap, wrap_range. lia.
Qed.

(** ** Multiple registers *)

Lemma stmw_spec n i a s :
  wf s -> 0 <= a -> a + 4 * Z.of_nat n <= 2 ^ 32 -> accessible (mem s) a (4 * n) page_writable = true ->
  exists m, stmw_loop n i a s = MOk tt (with_mem (with_ram m (mem s)) s) /\ bytes_ok m /\
    (forall j, (j < n)%nat -> be_load m (a + 4 * Z.of_nat j) 4 = u32 (get s (i + Z.of_nat j))) /\
    (forall c, c < a \/ a + 4 * Z.of_nat n <= c -> byte_at m c = byte_at (ram (mem s)) c).
Proof.
  revert i a s. induction n as [|n IH]; intros i a s Hs Ha Hn Hacc; cbn [stmw_loop].
  - exists (ram (mem s)). split; [destruct s as [???????????????????????[]]; reflexivity|].
    split; [apply (wf_ram s Hs)|]. split; [lia|auto].
  - unfold mbindp.
    pose proof (accessible_part _ a (4 * S n) _ 0 4 Hacc ltac:(lia)) as H0. rewrite Z.add_0_r in H0.
    rewrite write_ok by (exact H0 || (unfold in_range; lia)).
    set (v := u32 (get s i)). set (m0 := be_store (ram (mem s)) a 4 v).
    assert (u64 (a + 4) = a + 4) as -> by (apply wrap_small; unfold in_range; lia).
    destruct (IH (i + 1) (a + 4) (with_mem (with_ram m0 (mem s)) s)) as (m & E & Hm & Hl & Ho); [apply wf_poke, Hs|lia|lia| |].
    { cbn [mem with_mem]. rewrite accessible_ram. apply (accessible_part _ a (4 * S n) _ 4 (4 * n)) in Hacc; [exact Hacc|lia]. }
    exists m. split; [rewrite E; destruct s; reflexivity|]. split; [exact Hm|].
    assert (forall c, c < a + 4 -> byte_at m c = byte_at m0 c) as Ho' by (intros c Hc; apply Ho; auto).
    split.
    + intros [|j] Hj.
      * rewrite Z.mul_0_r, !Z.add_0_r. transitivity (be_load m0 a 4).
        { cbn [be_load]. rewrite !Ho' by lia. reflexivity. }
        apply be_load_store; [apply be_store_ok, (wf_ram s Hs)|apply wrap_range; lia].
      * replace (a + 4 * Z.of_nat (S j)) with (a + 4 + 4 * Z.of_nat j) by lia. rewrite Hl by lia.
        replace (i + Z.of_nat (S j)) with (i + 1 + Z.of_nat j) by lia. reflexivity.
    + intros c Hc. rewrite Ho by lia. apply byte_at_store_other. lia.
Qed.

Lemma lmw_spec n i a s :
  wf s -> 0 <= i -> i + Z.of_nat n <= 32 -> 0 <= a -> a + 4 * Z.of_nat n <= 2 ^ 32 ->
  accessible (mem s) a (4 * n) page_readable = true ->
  exists t, lmw_loop cfg n i a s = MOk tt t /\ mem t = mem s /\
    forall r, 0 <= r < 32 -> get t r = if (i <=? r) && (r <? i + Z.of_nat n)
                                       then be_load (ram (mem s)) (a + 4 * (r - i)) 4 else get s r.
Proof.
  revert i a s. induction n as [|n IH]; intros i a s Hs Hi Hin Ha Hn Hacc; cbn [lmw_loop].
  - exists s. split; [reflexivity|]. split; [reflexivity|]. intros r Hr. repeat bits_case; reflexivity.
  - pose proof (accessible_part _ a (4 * S n) _ 0 4 Hacc ltac:(lia)) as H0. rewrite Z.add_0_r in H0.
    destruct (feed_ok 4 a s) as (t & Ef & Hf); [unfold in_range; lia|exact H0|].
    destruct (fed_same s t Hf) as (Hg & Hm & Hwt). unfold mbindp. rewrite Ef. unfold modify.
    rewrite be_of_bytes by apply (wf_ram s Hs). set (v := be_load (ram (mem s)) a 4).
    assert (in_range 64 v) as Hv by (apply (in_range_le 32); [lia|]; apply (be_load_range _ _ 4), (wf_ram s Hs)).
    assert (u64 (a + 4) = a + 4) as -> by (apply wrap_small; unfold in_range; lia).
    destruct (IH (i + 1) (a + 4) (set i v t)) as (u & E & Em & Eg); [auto with ppu|lia..| |].
    { cbn [mem set with_gpr]. rewrite Hm. apply (accessible_part _ a (4 * S n) _ 4 (4 * n)) in Hacc; [exact Hacc|lia]. }
    exists u. split; [exact E|]. split; [rewrite Em; exact Hm|]. intros r Hr. rewrite Eg by lia.
    cbn [mem set with_gpr]. rewrite Hm.
    assert (get t r = get s r) as Et by (unfold get; rewrite Hg; reflexivity).
    destruct (Z.eq_dec r i) as [->|Hne].
    + rewrite gpr_set_eq by (auto; unfold reg_ok, in_range; lia). repeat bits_case. cbn [andb]. unfold v. f_equal. lia.
    + rewrite gpr_set_ne, Et by lia. repeat bits_case; cbn [andb]; try reflexivity. f_equal. lia.
Qed.

(** Saving and restoring registers: [STMW] from register r on, to 4-byte aligned or
    unaligned memory the program may access, changes nothing but the words it writes, and an
    [LMW] at the same address on any later state with that memory restores the low words of
    registers r to 31 (zero-extended), whatever the registers held meanwhile, including the
    address register itself, and leaves the registers below r and memory alone. *)
Theorem multiple_save_restore op1 op2 s u :
  wf s -> wf u -> rd op2 = rs op1 -> addr_d0 op2 u = addr_d0 op1 s ->
  cell s (addr_d0 op1 s) (4 * Z.to_nat (32 - rs op1)) ->
  exists t, STMW op1 s = MOk tt t /\ gpr t = gpr s /\
    (forall c, c < addr_d0 op1 s \/ addr_d0 op1 s + 4 * (32 - rs op1) <= c ->
       byte_at (ram (mem t)) c = byte_at (ram (mem s)) c) /\
    (mem u = mem t ->
     exists v, LMW cfg op2 u = MOk tt v /\ mem v = mem u /\
       (forall i, rs op1 <= i < 32 -> get v i = u32 (get s i)) /\
       (forall i, 0 <= i < rs op1 -> get v i = get u i)).
Proof.
  intros Hs Hu Hr Ha (H0 & H1 & Har & Haw). pose proof (ppu_field_range 6 5 op1 ltac:(lia) : in_range 5 (rs op1)) as Hrs.
  unfold in_range in Hrs.
  destruct (stmw_spec (Z.to_nat (32 - rs op1)) (rs op1) (addr_d0 op1 s) s) as (m & E & Hm & Hl & Ho); auto; [lia|].
  exists (with_mem (with_ram m (mem s)) s). split; [exact E|]. split; [reflexivity|].
  split; [intros c Hc; apply Ho; lia|]. intros Em. unfold LMW. rewrite Hr, Ha.
  destruct (lmw_spec (Z.to_nat (32 - rs op1)) (rs op1) (addr_d0 op1 s) u) as (v & Ev & Emv & Hg); auto; [lia..| |].
  { rewrite Em. cbn [mem with_mem]. rewrite accessible_ram. exact Har. }
  exists v. split; [exact Ev|]. split; [exact Emv|]. split; intros i Hi; rewrite Hg by lia; repeat bits_case; cbn [andb];
    try reflexivity.
  rewrite Em. cbn [mem ram with_mem with_ram].
  specialize (Hl (Z.to_nat (i - rs op1)) ltac:(lia)). rewrite Z2Nat.id in Hl by lia.
  replace (rs op1 + (i - rs op1)) with i in Hl by lia. exact Hl.
Qed.
End Access.

(** ** Examples *)

(** [stw r4, 0(r6); lbz r3, 1(r6)] at 0x11000 gives the second byte of the word. *)
Lemma store_then_load_witness :
  let s := set 6 0x11000 (BarePpu.sample 0x12345678 0) in
  let op1 := 4 * 2 ^ 21 + 6 * 2 ^ 16 in let op2 := 3 * 2 ^ 21 + 6 * 2 ^ 16 + 1 in
  wf s /\ exists t, (@STW BarePpu.host op1 >> LBZ BarePpu.cfg op2) s = MOk tt t /\ get t 3 = 0x34.
Proof.
  intros s op1 op2. assert (wf s) as Hs by (apply ppu_wf_set; [apply BarePpu.ppu_sample_wf|unfold in_range; lia]).
  split; [exact Hs|].
  destruct (@store_then_load BarePpu.cfg BarePpu.host (fun _ _ => eq_refl) op1 op2 s
              (@STW BarePpu.host op1) 4 (u32 (get s (rs op1))) (addr_d op1 s)
              (LBZ BarePpu.cfg op2) 1 (fun v => v) (addr_d op2 s) 1 Hs) as [E _].
  - do 4 (apply elem_of_cons; right). apply elem_of_cons. left. reflexivity.
  - apply elem_of_cons. left. reflexivity.
  - destruct E as (t & Et & Eg & _); [split; [|split; [|split]]; vm_compute; congruence|vm_compute; reflexivity|lia|].
    exists t. split; [exact Et|]. unfold get. rewrite Eg. vm_compute. reflexivity.
Defined.

(** [stmw r30, 16(r6)], then [lmw r30, 16(r6)] with both registers overwritten. *)
Lemma multiple_save_restore_witness :
  let s := set 30 5 (set 31 7 (set 6 0x11000 (BarePpu.boot []))) in
  let op := 30 * 2 ^ 21 + 6 * 2 ^ 16 + 16 in
  wf s /\ exists t v, STMW op s = MOk tt t /\ LMW BarePpu.cfg op (set 30 0 (set 31 0 t)) = MOk tt v /\ get v 30 = 5 /\ get v 31 = 7.
Proof.
  intros s op. assert (wf s) as Hs by (do 3 (apply ppu_wf_set; [|unfold in_range; lia]); apply BarePpu.ppu_boot_wf).
  split; [exact Hs|].
  assert (cell s (addr_d0 op s) (4 * Z.to_nat (32 - rs op))) as Hc by (split; [|split; [|split]]; vm_compute; congruence).
  destruct (multiple_save_restore BarePpu.cfg op op s s Hs Hs eq_refl eq_refl Hc) as (t & E & Eg & _).
  assert (wf t) as Ht.
  { pose proof (stmw_keeps (Z.to_nat (32 - rs op)) (rs op) (addr_d0 op s) s Hs) as Hk. unfold STMW in E. rewrite E in Hk. apply Hk. }
  assert (wf (set 30 0 (set 31 0 t))) as Hu by (do 2 (apply ppu_wf_set; [|unfold in_range; lia]); exact Ht).
  destruct (multiple_save_restore BarePpu.cfg op op s (set 30 0 (set 31 0 t)) Hs Hu eq_refl) as (t' & E' & _ & _ & F); [|exact Hc|].
  - unfold addr_d0, get, set. cbn [gpr with_gpr]. rewrite Eg. vm_compute. reflexivity.
  - assert (t' = t) as -> by congruence. destruct (F eq_refl) as (v & Ev & _ & Hv & _).
    exists t, v. split; [exact E|]. split; [exact Ev|].
    split; (etransitivity; [apply Hv; vm_compute; intuition congruence|vm_compute; reflexivity]).
Defined.
