(* ===== verification/PpuDecode.v ===== *)
(** * The PPU decoder

    The table of 0x20000 slots against the instruction lists: a word decodes to the entry
    whose opcode fields it has, with the flags its OE and Rc bits ask for, and to [UNK] when it
    has none.  Words built by [ppu_instructions] decode to the instruction asked for. *)

From Stdlib Require Import ZArith Lia Bool.
From stdpp Require Import base numbers list gmap.
From S2P Require Import Prelude BitField PpuOpcodes.
Import ppu_opcode_t.

(** ** Rows: the entries of all groups with the fields that select them *)

(** The words with primary opcode [r_main] and [r_value] in the [r_width] bits from bit
    [r_sh] up. *)
Record row := Row { r_main : Z; r_sh : Z; r_width : Z; r_value : Z; r_ptr0 : fn; r_rc : fn }.

Definition row_of (main_op count sh : Z) (v : instruction_info) : row :=
  if sh <? 11 then Row main_op sh (count - magn v) (value v) (ptr0 v) (ptr_rc v)
  else Row (value v) 0 0 0 (ptr0 v) (ptr_rc v).
Definition rows_of (g : Z * Z * Z * list instruction_info) : list row :=
  let '(main_op, count, sh, entries) := g in map (row_of main_op count sh) entries.
Definition rows : list row := concat (map rows_of groups).

Definition row_matches (inst : Z) (r : row) : Prop :=
  main inst = r_main r /\ bf.extract (r_sh r) (r_width r) inst = r_value r.

(** The same on a slot of the table. *)
Definition row_hits (x : Z) (r : row) : bool :=
  (x mod 64 =? r_main r) && ((x / 64 / 2 ^ r_sh r) mod 2 ^ r_width r =? r_value r).
Definition row_fn (x : Z) (r : row) : fn := if Z.odd (x / 64) then r_rc r else r_ptr0 r.

(** ** Filling the table *)

(** [t'] is [t] with the slots of [S] set to [w]. *)
Definition updates (t t' : table) (S : Z -> Prop) (w : Z -> fn) : Prop :=
  forall x, (S x -> t' !! x = Some (w x)) /\ (~ S x -> t' !! x = t !! x).

Lemma updates_insert t y w v : v = w y -> updates t (<[y := v]> t) (fun x => x = y) w.
Proof. intros -> x. split; [intros ->; apply lookup_insert_eq|intros Hne; apply lookup_insert_ne; congruence]. Qed.

Lemma updates_ext t t' (S S' : Z -> Prop) w : (forall x, S x <-> S' x) -> updates t t' S w -> updates t t' S' w.
Proof. intros Hs H x. destruct (H x) as [H1 H2]. split; [rewrite <- Hs; auto|intros Hn; apply H2; rewrite Hs; auto]. Qed.

Lemma updates_loop (body : Z -> table -> table) (S : Z -> Z -> Prop) w n t :
  (forall i x, S i x \/ ~ S i x) -> (forall i t, 0 <= i < Z.of_nat n -> updates t (body i t) (S i) w) ->
  updates t (for_up n body t) (fun x => exists i, 0 <= i < Z.of_nat n /\ S i x) w.
Proof.
  intros Hdec Hb.
  apply (for_up_ind (fun m t' => updates t t' (fun x => exists i, 0 <= i < m /\ S i x) w)).
  - intros x. split; [intros (i & Hi & _); lia|reflexivity].
  - intros j t' Hj IH x. destruct (Hb j t' Hj x) as [H1 H2], (IH x) as [I1 I2]. split.
    + intros (i & Hi & Hx). destruct (Hdec j x) as [Hjx|Hjx]; [auto|]. rewrite H2 by auto. apply I1.
      exists i. split; [|exact Hx]. destruct (Z.eq_dec i j) as [->|]; [contradiction|lia].
    + intros Hn. rewrite H2, I2; [reflexivity| |].
      * intros (i & Hi & Hx). apply Hn. exists i. split; [lia|exact Hx].
      * intros Hx. apply Hn. exists j. split; [lia|exact Hx].
Qed.

(** The shape the entries have. *)
Definition entry_ok (main_op count sh : Z) (v : instruction_info) : bool :=
  if sh <? 11 then (0 <=? main_op) && (main_op <? 64) && (0 <=? sh) && (0 <=? magn v) && (magn v <=? count)
                   && (sh + count <=? 11) && (0 <=? value v) && (value v <? 2 ^ (count - magn v))
  else (0 <=? value v) && (value v <? 64).

Lemma slot_div k m : 0 <= m < 64 -> (k * 64 + m) / 64 = k /\ (k * 64 + m) mod 64 = m.
Proof. intros Hm. Z.div_mod_to_equations. lia. Qed.

(** The slots of an entry of a group. *)
Lemma group_slots main_op count sh c v x :
  0 <= main_op < 64 -> 0 <= sh -> 0 <= c -> c <= count -> sh + count <= 11 -> 0 <= v < 2 ^ c -> 0 <= x < 0x20000 ->
  (exists i, 0 <= i < 2 ^ (11 - sh - c) /\ exists j, 0 <= j < 2 ^ sh /\ x = ((i * 2 ^ c + v) * 2 ^ sh + j) * 64 + main_op) <->
  x mod 64 = main_op /\ (x / 64 / 2 ^ sh) mod 2 ^ c = v.
Proof.
  intros Hm Hsh Hc Hcc Hs Hv Hx. pose proof (pow2_pos sh Hsh) as Ps. pose proof (pow2_pos c Hc) as Pc. split.
  - intros (i & Hi & j & Hj & ->). destruct (slot_div ((i * 2 ^ c + v) * 2 ^ sh + j) main_op Hm) as [-> ->].
    split; [reflexivity|]. rewrite (Z.add_comm _ j), Z.div_add, (Z.div_small j), Z.add_0_l by lia.
    rewrite (Z.add_comm _ v), Z.mod_add by lia. apply Z.mod_small; lia.
  - intros [H1 H2]. exists (x / 64 / 2 ^ sh / 2 ^ c). split.
    { split; [repeat (apply Z.div_pos; [|lia]); lia|]. rewrite !Z.div_div by lia. apply Z.div_lt_upper_bound; [lia|].
      assert (2 ^ sh * 2 ^ c * 2 ^ (11 - sh - c) = 2048) as E11.
      { rewrite <- !Z.pow_add_r by lia. replace (sh + c + (11 - sh - c)) with 11 by lia. reflexivity. }
      nia. }
    exists ((x / 64) mod 2 ^ sh). split; [apply Z.mod_pos_bound; lia|].
    pose proof (Z.div_mod x 64 ltac:(lia)). pose proof (Z.div_mod (x / 64) (2 ^ sh) ltac:(lia)).
    pose proof (Z.div_mod (x / 64 / 2 ^ sh) (2 ^ c) ltac:(lia)). nia.
Qed.

Lemma range_shiftl n : 0 <= n -> Z.of_nat (Z.to_nat (Z.shiftl 1 n)) = 2 ^ n.
Proof. intros Hn. rewrite Z.shiftl_1_l, Z2Nat.id; [reflexivity|]. pose proof (pow2_pos n Hn). lia. Qed.

(** A loop of insertions whose slots are pairwise told apart by their number. *)
Lemma slot_dec n (f : Z -> Z) x : (exists j, 0 <= j < n /\ x = f j) \/ ~ (exists j, 0 <= j < n /\ x = f j).
Proof.
  destruct (decide (Exists (fun j => x = f (Z.of_nat j)) (seq 0 (Z.to_nat n)))) as [H|H]; rewrite Exists_exists in H.
  - left. destruct H as (j & Hj & ->). apply elem_of_seq in Hj. exists (Z.of_nat j). split; [lia|reflexivity].
  - right. intros (j & Hj & ->). apply H. exists (Z.to_nat j). rewrite elem_of_seq, Z2Nat.id by lia. split; [lia|reflexivity].
Qed.

Lemma slot_or m k : 0 <= k -> 0 <= m < 64 -> Z.lor (Z.shiftl k 6) m = k * 64 + m.
Proof. intros Hk Hm. rewrite lor_shiftl_small by lia. reflexivity. Qed.

Lemma updates_pow (body : Z -> table -> table) (S : Z -> Z -> Prop) w n t :
  0 <= n -> (forall i x, S i x \/ ~ S i x) -> (forall i t, 0 <= i < 2 ^ n -> updates t (body i t) (S i) w) ->
  updates t (for_up (Z.to_nat (Z.shiftl 1 n)) body t) (fun x => exists i, 0 <= i < 2 ^ n /\ S i x) w.
Proof.
  intros Hn Hdec Hb. pose proof (updates_loop body S w (Z.to_nat (Z.shiftl 1 n)) t Hdec) as H.
  rewrite range_shiftl in H by lia. apply H, Hb.
Qed.

Lemma group_updates main_op count sh t v :
  0 <= main_op < 64 -> 0 <= sh -> 0 <= magn v <= count -> sh + count <= 11 -> 0 <= value v < 2 ^ (count - magn v) -> sh < 11 ->
  updates t (fill_entry main_op count sh t v)
    (fun x => exists i, 0 <= i < 2 ^ (11 - sh - (count - magn v)) /\
              exists j, 0 <= j < 2 ^ sh /\ x = ((i * 2 ^ (count - magn v) + value v) * 2 ^ sh + j) * 64 + main_op)
    (fun y => if Z.odd (y / 64) then ptr_rc v else ptr0 v).
Proof.
  intros Hm Hsh Hmg Hs Hv Hlt. unfold fill_entry. destruct (Z.ltb_spec sh 11); [|lia].
  replace (magn v + (11 - sh - count)) with (11 - sh - (count - magn v)) by lia.
  apply updates_pow; [lia|intros i x; apply slot_dec|].
  intros i t' Hi. apply (updates_pow _ (fun j x => x = ((i * 2 ^ (count - magn v) + value v) * 2 ^ sh + j) * 64 + main_op));
    [lia|intros j x; destruct (Z.eq_dec x (((i * 2 ^ (count - magn v) + value v) * 2 ^ sh + j) * 64 + main_op)); auto|].
  intros j t'' Hj. cbv zeta.
  pose proof (pow2_pos (count - magn v) ltac:(lia)).
  rewrite (lor_shiftl_small i (count - magn v)), (lor_shiftl_small _ sh), slot_or by nia.
  apply updates_insert. rewrite Z.bit0_odd. destruct (slot_div ((i * 2 ^ (count - magn v) + value v) * 2 ^ sh + j) main_op Hm) as [-> _].
  reflexivity.
Qed.
Lemma main_updates main_op count sh t v :
  0 <= value v < 64 -> 11 <= sh ->
  updates t (fill_entry main_op count sh t v) (fun x => exists i, 0 <= i < 2048 /\ x = i * 64 + value v)
    (fun y => if Z.odd (y / 64) then ptr_rc v else ptr0 v).
Proof.
  intros Hv Hsh. unfold fill_entry. destruct (Z.ltb_spec sh 11); [lia|].
  change 2048 with (Z.of_nat (Z.to_nat (Z.shiftl 1 11))).
  apply updates_loop; [intros i x; destruct (Z.eq_dec x (i * 64 + value v)); auto|].
  intros i t' Hi. rewrite slot_or by lia. apply updates_insert.
  rewrite Z.bit0_odd. destruct (slot_div i (value v) Hv) as [-> _]. reflexivity.
Qed.

Lemma updates_lookup t t' S w x (b : bool) : updates t t' S w -> (b = true <-> S x) -> t' !! x = if b then Some (w x) else t !! x.
Proof. intros H Hb. destruct (H x) as [H1 H2], b; [apply H1, Hb; reflexivity|apply H2; rewrite <- Hb; discriminate]. Qed.

Lemma fill_entry_spec main_op count sh t v :
  entry_ok main_op count sh v = true ->
  forall x, 0 <= x < 0x20000 ->
  fill_entry main_op count sh t v !! x =
  if row_hits x (row_of main_op count sh v) then Some (row_fn x (row_of main_op count sh v)) else t !! x.
Proof.
  intros Hok x Hx. unfold entry_ok, row_hits, row_fn, row_of in *.
  destruct (Z.ltb_spec sh 11); cbn [r_main r_sh r_width r_value r_ptr0 r_rc];
    rewrite ?andb_true_iff, ?Z.leb_le, ?Z.ltb_lt in Hok.
  - apply (updates_lookup _ _ _ _ _ _ (group_updates main_op count sh t v ltac:(lia) ltac:(lia) ltac:(lia) ltac:(lia) ltac:(lia) ltac:(lia))).
    rewrite andb_true_iff, !Z.eqb_eq. symmetry. apply (group_slots main_op count sh (count - magn v) (value v) x); lia.
  - apply (updates_lookup _ _ _ _ _ _ (main_updates main_op count sh t v ltac:(lia) ltac:(lia))).
    rewrite andb_true_iff, !Z.eqb_eq, Z.mod_1_r. split.
    + intros [E _]. exists (x / 64). pose proof (Z.div_mod x 64 ltac:(lia)).
      split; [|lia]. split; [apply Z.div_pos; lia|apply Z.div_lt_upper_bound; lia].
    + intros (i & Hi & ->). destruct (slot_div i (value v)) as [_ ->]; [lia|auto].
Qed.

(** ** All entries *)

Definition entries : list (Z * Z * Z * instruction_info) :=
  concat (map (fun g => map (fun v => (g.1, v)) g.2) groups).
Definition fill1 (t : table) (e : Z * Z * Z * instruction_info) : table :=
  let '(main_op, count, sh, v) := e in fill_entry main_op count sh t v.
Definition row1 (e : Z * Z * Z * instruction_info) : row :=
  let '(main_op, count, sh, v) := e in row_of main_op count sh v.
Definition ok1 (e : Z * Z * Z * instruction_info) : bool :=
  let '(main_op, count, sh, v) := e in entry_ok main_op count sh v.

Lemma entries_ok : forallb ok1 entries = true.
Proof. vm_compute. reflexivity. Qed.

Lemma fill_group_entries g t : fill_table t g = foldl fill1 t (map (fun v => (g.1, v)) g.2).
Proof.
  destruct g as [[[main_op count] sh] l]. cbn [fst snd fill_table]. revert t.
  induction l as [|v l IH]; intros t; [reflexivity|]. cbn [foldl map fill1]. apply IH.
Qed.
Lemma fill_groups gs t : foldl fill_table t gs = foldl fill1 t (concat (map (fun g => map (fun v => (g.1, v)) g.2) gs)).
Proof.
  revert t. induction gs as [|g gs IH]; intros t; [reflexivity|].
  cbn [foldl map concat]. rewrite IH, fill_group_entries, foldl_app. reflexivity.
Qed.

Lemma fill_entries l t x :
  forallb ok1 l = true -> 0 <= x < 0x20000 ->
  (forall e, e ∈ l -> row_hits x (row1 e) = false) /\ foldl fill1 t l !! x = t !! x \/
  exists e, e ∈ l /\ row_hits x (row1 e) = true /\ foldl fill1 t l !! x = Some (row_fn x (row1 e)).
Proof.
  intros Hok Hx. revert t. induction l as [|e l IH]; intros t.
  - left. split; [intros e He; apply elem_of_nil in He as []|reflexivity].
  - cbn [forallb] in Hok. apply andb_true_iff in Hok as [He Hl]. cbn [foldl].
    destruct (IH Hl (fill1 t e)) as [[Hno E]|(e' & Hin & Hh & E)].
    + rewrite E. destruct e as [[[main_op count] sh] v]. cbn [fill1]. rewrite fill_entry_spec by auto.
      destruct (row_hits x (row_of main_op count sh v)) eqn:Eh.
      * right. exists (main_op, count, sh, v). split; [apply elem_of_cons; auto|]. auto.
      * left. split; [|reflexivity]. intros e' He'. apply elem_of_cons in He' as [->|He']; auto.
    + right. exists e'. split; [apply elem_of_cons; auto|]. auto.
Qed.

(** ** No two entries share a word *)

Definition apart (r r' : row) : bool :=
  negb (r_main r =? r_main r') ||
  ((r_sh r =? r_sh r') && negb (Z.land (Z.lxor (r_value r) (r_value r')) (Z.ones (Z.min (r_width r) (r_width r'))) =? 0)).
Fixpoint all_apart (l : list row) : bool :=
  match l with [] => true | r :: l => forallb (apart r) l && all_apart l end.
Definition widths_ok (r : row) : bool := (0 <=? r_width r) && (0 <=? r_sh r) && (r_sh r + r_width r <=? 11).

Lemma apart_hits x r r' :
  widths_ok r = true -> widths_ok r' = true -> apart r r' = true -> row_hits x r = true -> row_hits x r' = true -> False.
Proof.
  unfold apart, row_hits, widths_ok. rewrite !andb_true_iff, orb_true_iff, !andb_true_iff, !negb_true_iff, !Z.eqb_eq, !Z.eqb_neq, !Z.leb_le.
  intros [[? ?] _] [[? ?] _] [Hm|[Hs Hv]] [G1 G2] [G3 G4]; [congruence|]. apply Hv. rewrite <- G2, <- G4, Hs.
  fold (wrap (r_width r) (x / 64 / 2 ^ r_sh r')) (wrap (r_width r') (x / 64 / 2 ^ r_sh r')).
  apply Z.bits_inj'. intros k Hk. rewrite Z.land_spec, Z.lxor_spec, testbit_ones, !testbit_wrap, Z.bits_0 by lia.
  repeat bits_case; cbn [andb]; rewrite ?xorb_nilpotent, ?andb_false_r; reflexivity.
Qed.

Lemma rows_apart : all_apart rows = true.
Proof. vm_compute. reflexivity. Qed.
Lemma rows_widths : forallb widths_ok rows = true.
Proof. vm_compute. reflexivity. Qed.
Lemma row_width r : r ∈ rows -> widths_ok r = true.
Proof. intros Hr. apply list_elem_of_In in Hr. pose proof rows_widths as H. rewrite forallb_forall in H. auto. Qed.

Lemma all_apart_unique l x r r' :
  all_apart l = true -> (forall r, r ∈ l -> widths_ok r = true) ->
  r ∈ l -> r' ∈ l -> row_hits x r = true -> row_hits x r' = true -> r = r'.
Proof.
  induction l as [|s l IH]; intros Ha Hw Hr Hr' H H'; [apply elem_of_nil in Hr as []|].
  cbn [all_apart] in Ha. apply andb_true_iff in Ha as [Hs Hl]. rewrite forallb_forall in Hs.
  apply elem_of_cons in Hr as [->|Hr], Hr' as [->|Hr'].
  - reflexivity.
  - exfalso. apply (apart_hits x s r'); auto; [apply Hw, elem_of_cons; auto|apply Hw, elem_of_cons; auto|apply Hs, list_elem_of_In, Hr'].
  - exfalso. apply (apart_hits x s r); auto; [apply Hw, elem_of_cons; auto|apply Hw, elem_of_cons; auto|apply Hs, list_elem_of_In, Hr].
  - apply IH; auto. intros q Hq. apply Hw, elem_of_cons. auto.
Qed.

Lemma rows_entries r : r ∈ rows <-> exists e, e ∈ entries /\ r = row1 e.
Proof.
  assert (rows = map row1 entries) as ->.
  { unfold rows, entries. rewrite concat_map, map_map. apply (f_equal (@concat row)), map_ext. intros [[[m c] sh] l].
    cbn [rows_of fst snd]. rewrite ?map_map. try reflexivity. }
  rewrite !list_elem_of_In, in_map_iff. split; intros (e & H1 & H2); exists e; [rewrite list_elem_of_In|rewrite list_elem_of_In in H1]; auto.
Qed.

(** ** Words *)

Lemma decode_slot inst :
  in_range 32 inst -> 0 <= ppu_decode inst < 0x20000 /\ ppu_decode inst mod 64 = main inst /\ ppu_decode inst / 64 = wrap 11 inst.
Proof.
  intros Hi. assert (ppu_decode inst = wrap 11 inst * 64 + main inst) as ->.
  { rewrite <- lor_shiftl_small with (m := 6); [|lia|apply wrap_range; lia|apply (bf.extract_range 26 6); lia].
    unfold ppu_decode, main, ppu_bf, bf.extract. change 0x1ffff with (Z.ones 17).
    bits; rewrite ?(testbit_high 32 inst) by (auto; lia); try reflexivity. }
  pose proof (wrap_range 11 inst ltac:(lia)) as Hw. pose proof (bf.extract_range 26 6 inst ltac:(lia) : in_range 6 (main inst)) as Hm.
  unfold in_range in *. destruct (slot_div (wrap 11 inst) (main inst)) as [E1 E2]; [lia|]. rewrite E1, E2. repeat split; lia.
Qed.

Lemma hits_matches inst r :
  in_range 32 inst -> widths_ok r = true -> row_hits (ppu_decode inst) r = true <-> row_matches inst r.
Proof.
  unfold widths_ok. intros Hi Hw. rewrite !andb_true_iff, !Z.leb_le in Hw. destruct (decode_slot inst Hi) as (_ & E1 & E2).
  unfold row_hits, row_matches. rewrite E1, E2, andb_true_iff, !Z.eqb_eq.
  assert ((wrap 11 inst / 2 ^ r_sh r) mod 2 ^ r_width r = bf.extract (r_sh r) (r_width r) inst) as ->; [|reflexivity].
  rewrite <- Z.shiftr_div_pow2 by lia. fold (wrap (r_width r) (Z.shiftr (wrap 11 inst) (r_sh r))). unfold bf.extract. bits.
Qed.

(** The arithmetic instructions with an OE bit. *)
Definition is_xo (n : Name.t) : bool :=
  match n with
  | Name.ADD | Name.ADDC | Name.ADDE | Name.ADDZE | Name.ADDME | Name.SUBF | Name.SUBFC | Name.SUBFE | Name.SUBFZE
  | Name.SUBFME | Name.NEG | Name.MULLD | Name.MULLW | Name.DIVD | Name.DIVDU | Name.DIVW | Name.DIVWU => true
  | _ => false
  end.
Definition flags_ok (r : row) : bool :=
  negb (has_rc (r_ptr0 r)) && (Bool.eqb (has_oe (r_ptr0 r)) (has_oe (r_rc r))) &&
  (if is_xo (base (r_ptr0 r)) || is_xo (base (r_rc r))
   then (r_main r =? 0x1f) && (r_sh r =? 1) && (r_width r =? 10) && Bool.eqb (has_oe (r_ptr0 r)) (Z.testbit (r_value r) 9)
   else true).
Lemma rows_flags : forallb flags_ok rows = true.
Proof. vm_compute. reflexivity. Qed.

Lemma field1 I op : ppu_bf I 1 op = Z.b2z (Z.testbit op (31 - I)) \/ 31 < I.
Proof.
  destruct (Z.le_gt_cases I 31); [left|right; lia]. unfold ppu_bf, bf.extract. replace (32 - 1 - I) with (31 - I) by lia.
  apply Z.bits_inj'. intros k Hk. rewrite Z.land_spec, Z.shiftr_spec, testbit_ones by lia.
  destruct (Z.ltb_spec k 1).
  - assert (k = 0) as -> by lia. rewrite andb_true_r, Z.add_0_l. destruct (Z.testbit op (31 - I)); reflexivity.
  - rewrite andb_false_r. symmetry. destruct (Z.testbit op (31 - I)); cbn [Z.b2z]; [|apply Z.bits_0].
    apply (testbit_high 1); [unfold in_range; lia|lia|lia].
Qed.

Lemma decode_row inst :
  in_range 32 inst ->
  (forall r, r ∈ rows -> ~ row_matches inst r) /\ table_decode inst = UNK_fn \/
  exists r, r ∈ rows /\ row_matches inst r /\ table_decode inst = if Z.odd inst then r_rc r else r_ptr0 r.
Proof.
  intros Hi. destruct (decode_slot inst Hi) as (Hx & _ & E2). unfold table_decode, m_table. rewrite fill_groups. fold entries.
  destruct (fill_entries entries ∅ (ppu_decode inst) entries_ok Hx) as [[Hno ->]|(e & He & Hh & ->)].
  - left. split; [|exact (f_equal (default UNK_fn) (lookup_empty (M := gmap Z) _))]. intros r Hr Hm. pose proof (row_width r Hr) as Hw.
    apply (hits_matches inst r Hi Hw) in Hm. apply rows_entries in Hr as (e & He & ->). rewrite Hno in Hm by auto. discriminate.
  - right. assert (row1 e ∈ rows) as Hr by (apply rows_entries; exists e; auto). exists (row1 e). split; [exact Hr|].
    split; [apply hits_matches; auto using row_width|]. unfold row_fn. rewrite E2. cbn [from_option id].
    replace (Z.odd (wrap 11 inst)) with (Z.odd inst); [reflexivity|].
    rewrite <- !Z.bit0_odd, testbit_wrap by lia. reflexivity.
Qed.

(** C11: the decoder agrees with the instruction lists on every 32-bit word.  A word with
    the primary opcode and the extended opcode bits of an entry decodes to that entry's
    handler, whatever its operand bits (so no entry shadows another), in the record form
    exactly when the entry has one and the low bit is set; a word that matches no entry
    decodes to [UNK].  A decoded record form has Rc set, and the arithmetic instructions
    with an OE bit are decoded to the form that bit asks for. *)
Theorem ppu_decode_correct inst :
  in_range 32 inst ->
  (forall r, r ∈ rows -> row_matches inst r -> table_decode inst = if Z.odd inst then r_rc r else r_ptr0 r) /\
  ((forall r, r ∈ rows -> ~ row_matches inst r) -> table_decode inst = UNK_fn) /\
  (has_rc (table_decode inst) = true -> rc inst = 1) /\
  (is_xo (base (table_decode inst)) = true -> has_oe (table_decode inst) = negb (oe inst =? 0)).
Proof.
  intros Hi. destruct (decode_row inst Hi) as [[Hno E]|(r & Hr & Hm & E)]; rewrite E.
  - split; [intros r Hr Hm; destruct (Hno r Hr Hm)|]. split; [intros _; exact eq_refl|]. split; discriminate.
  - pose proof rows_flags as Hf. rewrite forallb_forall in Hf. specialize (Hf r (proj1 (list_elem_of_In _ _) Hr)).
    unfold flags_ok in Hf. rewrite !andb_true_iff, negb_true_iff, eqb_true_iff in Hf. destruct Hf as [[F1 F2] F3].
    split; [|split; [intros Hno; destruct (Hno r Hr Hm)|split]].
    + intros r' Hr' Hm'. rewrite (all_apart_unique rows (ppu_decode inst) r' r rows_apart row_width Hr' Hr
        (proj2 (hits_matches inst r' Hi (row_width r' Hr')) Hm') (proj2 (hits_matches inst r Hi (row_width r Hr)) Hm)). reflexivity.
    + unfold rc. destruct (field1 31 inst) as [->|]; [|lia]. change (31 - 31) with 0. rewrite Z.bit0_odd.
      destruct (Z.odd inst); [reflexivity|congruence].
    + intros Hxo. assert (is_xo (base (r_ptr0 r)) || is_xo (base (r_rc r)) = true) as Hx.
      { rewrite orb_true_iff. destruct (Z.odd inst); auto. }
      rewrite Hx, !andb_true_iff, !Z.eqb_eq, eqb_true_iff in F3. destruct F3 as [[[_ Gs] Gw] Go]. destruct Hm as [_ Hv].
      rewrite Gs, Gw in Hv. unfold oe. destruct (field1 21 inst) as [->|]; [|lia].
      assert (Z.testbit (r_value r) 9 = Z.testbit inst (31 - 21)) as Et.
      { rewrite <- Hv, bf.testbit_extract by lia. reflexivity. }
      rewrite <- Et. destruct (Z.odd inst); rewrite <- ?F2, Go; destruct (Z.testbit (r_value r) 9); reflexivity.
Qed.

(** [addo. r3, r4, r5]. *)
Lemma ppu_decode_correct_witness : table_decode 0x7c642e15 = Fn Name.ADD true true.
Proof.
  refine (proj1 (ppu_decode_correct 0x7c642e15 _) (Row 0x1f 1 10 0x30a (Fn Name.ADD true false) (Fn Name.ADD true true)) _ _).
  - vm_compute. split; congruence.
  - apply (list_elem_of_lookup_2 _ 296). vm_compute. reflexivity.
  - split; reflexivity.
Defined.
