(* ===== verification/PpuEncode.v ===== *)
(** * Encoded PPU instructions

    The words [ppu_instructions] builds decode to the instruction they name, with the operands
    given. *)

From Stdlib Require Import ZArith Lia Bool.
From stdpp Require Import base numbers list gmap.
From S2P Require Import Prelude BitField PpuOpcodes PpuDecode.
Import ppu_opcode_t.

Lemma extract_none I x : bf.extract I 0 x = 0.
Proof. apply Z.land_0_r. Qed.

(** A word with the fields of row [k]. *)
Lemma decode_as inst k r :
  rows !! k = Some r -> in_range 32 inst -> main inst = r_main r ->
  bf.extract (r_sh r) (r_width r) inst = r_value r ->
  table_decode inst = if Z.odd inst then r_rc r else r_ptr0 r.
Proof.
  intros Hk Hi Hm Hv. destruct (decode_row inst Hi) as [[Hno _]|(r' & Hr & Hm' & ->)].
  - destruct (Hno r (list_elem_of_lookup_2 _ _ _ Hk)). split; auto.
  - assert (r' = r) as ->; [|reflexivity].
    assert (r ∈ rows) as Hr' by (apply (list_elem_of_lookup_2 _ _ _ Hk)).
    apply (all_apart_unique rows (ppu_decode inst)); auto using rows_apart, row_width;
      apply hits_matches; auto using row_width. split; auto.
Qed.

(** [store b 0] of a bit. *)
Lemma odd_store0 v x : Z.odd (bf.store 0 1 (Z.b2z v) x) = v.
Proof.
  rewrite <- Z.bit0_odd. pose proof (bf.extract_store 0 1 (Z.b2z v) x ltac:(lia) ltac:(lia)) as E.
  apply (f_equal (fun z => Z.testbit z 0)) in E. rewrite bf.testbit_extract, testbit_wrap in E by lia. cbn [Z.add] in E.
  destruct v; exact E.
Qed.

Ltac word_fields :=
  unfold main, rd, rs, ra, rb, simm16, uimm16, bo, bi, ds, bt14, bt24, aa, lk, spr, crfd, l10, rc, frd, frs, vd, vs, ppu_bf, ppu_bf_s;
  cbn [Z.sub Z.add Z.opp Z.pos_sub Pos.pred_double Pos.succ Pos.add Pos.add_carry Z.succ_double Z.pred_double Z.double].
Ltac word_decodes k :=
  match goal with |- table_decode ?w = _ =>
    let r := eval vm_compute in (rows !! k) in
    match r with Some ?r =>
      rewrite (decode_as w k r);
      [ cbn [r_ptr0 r_rc]; rewrite ?odd_store0; try (destruct (Z.odd _)); repeat case_match; reflexivity
      | vm_compute; reflexivity
      | op_range
      | cbn [r_main]; word_fields; op_fields; reflexivity
      | cbn [r_sh r_width r_value]; rewrite ?extract_none; op_fields; reflexivity ]
    end
  end.

Ltac word_end :=
  repeat (rewrite extract_store_small by (lia || apply b2z_range) || rewrite bf.extract_store_other by lia);
  rewrite ?Z.shiftl_mul_pow2 by lia; repeat split; auto; lia.

Section Encoders.
Import ppu_instructions.
Context (t a b : Z) (Ht : in_range 5 t) (Ha : in_range 5 a) (Hb : in_range 5 b).

Definition simm_ok (i : Z) : Prop := - 2 ^ 15 <= i < 2 ^ 15.

Lemma ADDI_word i :
  simm_ok i -> table_decode (ADDI t a i) = Fn Name.ADDI false false /\ rd (ADDI t a i) = t /\ ra (ADDI t a i) = a /\ simm16 (ADDI t a i) = i.
Proof.
  intros H0. unfold simm_ok in *. unfold ADDI, set_simm16, set_ra, set_rd.
  split; [word_decodes 8%nat|]. word_fields. op_fields. word_end.
Qed.

Lemma ADDIS_word i :
  simm_ok i -> table_decode (ADDIS t a i) = Fn Name.ADDIS false false /\ rd (ADDIS t a i) = t /\ ra (ADDIS t a i) = a /\ simm16 (ADDIS t a i) = i.
Proof.
  intros H0. unfold simm_ok in *. unfold ADDIS, set_simm16, set_ra, set_rd.
  split; [word_decodes 9%nat|]. word_fields. op_fields. word_end.
Qed.

Lemma XORIS_word i :
  simm_ok i -> table_decode (XORIS t a i) = Fn Name.XORIS false false /\ rd (XORIS t a i) = t /\ ra (XORIS t a i) = a /\ simm16 (XORIS t a i) = i.
Proof.
  intros H0. unfold simm_ok in *. unfold XORIS, set_simm16, set_ra, set_rd.
  split; [word_decodes 19%nat|]. word_fields. op_fields. word_end.
Qed.

Lemma LWZ_word i :
  simm_ok i -> table_decode (LWZ t a i) = Fn Name.LWZ false false /\ rd (LWZ t a i) = t /\ ra (LWZ t a i) = a /\ simm16 (LWZ t a i) = i.
Proof.
  intros H0. unfold simm_ok in *. unfold LWZ, set_simm16, set_ra, set_rd.
  split; [word_decodes 22%nat|]. word_fields. op_fields. word_end.
Qed.

Lemma STW_word i :
  simm_ok i -> table_decode (STW t a i) = Fn Name.STW false false /\ rd (STW t a i) = t /\ ra (STW t a i) = a /\ simm16 (STW t a i) = i.
Proof.
  intros H0. unfold simm_ok in *. unfold STW, set_simm16, set_ra, set_rd.
  split; [word_decodes 26%nat|]. word_fields. op_fields. word_end.
Qed.

Lemma ORI_word i :
  in_range 16 i -> table_decode (ORI t a i) = Fn Name.ORI false false /\ rd (ORI t a i) = t /\ ra (ORI t a i) = a /\ uimm16 (ORI t a i) = i.
Proof.
  intros H0. unfold ORI, set_uimm16, set_ra, set_rd.
  split; [word_decodes 16%nat|]. word_fields. op_fields. word_end.
Qed.

Lemma ORIS_word i :
  in_range 16 i -> table_decode (ORIS t a i) = Fn Name.ORIS false false /\ rd (ORIS t a i) = t /\ ra (ORIS t a i) = a /\ uimm16 (ORIS t a i) = i.
Proof.
  intros H0. unfold ORIS, set_uimm16, set_ra, set_rd.
  split; [word_decodes 17%nat|]. word_fields. op_fields. word_end.
Qed.

Lemma STFD_word i :
  simm_ok i -> table_decode (STFD t a i) = Fn Name.STFD false false /\ frs (STFD t a i) = t /\ ra (STFD t a i) = a /\ simm16 (STFD t a i) = i.
Proof.
  intros H0. unfold simm_ok in *. unfold STFD, set_simm16, set_ra, set_frs.
  split; [word_decodes 44%nat|]. word_fields. op_fields. word_end.
Qed.

Lemma LFD_word i :
  simm_ok i -> table_decode (LFD t a i) = Fn Name.LFD false false /\ frd (LFD t a i) = t /\ ra (LFD t a i) = a /\ simm16 (LFD t a i) = i.
Proof.
  intros H0. unfold simm_ok in *. unfold LFD, set_simm16, set_ra, set_frd.
  split; [word_decodes 40%nat|]. word_fields. op_fields. word_end.
Qed.

Lemma STVX_word :
  table_decode (STVX t a b) = Fn Name.STVX false false /\ vs (STVX t a b) = t /\ ra (STVX t a b) = a /\ rb (STVX t a b) = b.
Proof.
  unfold STVX, set_rb, set_ra, set_vs.
  split; [word_decodes 284%nat|]. word_fields. op_fields. word_end.
Qed.

Lemma LVX_word :
  table_decode (LVX t a b) = Fn Name.LVX false false /\ vd (LVX t a b) = t /\ ra (LVX t a b) = a /\ rb (LVX t a b) = b.
Proof.
  unfold LVX, set_rb, set_ra, set_vd.
  split; [word_decodes 260%nat|]. word_fields. op_fields. word_end.
Qed.

Lemma OR_word (c : bool) :
  table_decode (OR t a b c) = Fn Name.OR false c /\ ra (OR t a b c) = t /\ rs (OR t a b c) = a /\ rb (OR t a b c) = b.
Proof.
  unfold OR, set_rc, set_rb, set_ra, set_rs.
  split; [word_decodes 316%nat|]. word_fields. op_fields. word_end.
Qed.

Lemma STD_word i :
  - 2 ^ 13 <= i < 2 ^ 13 -> table_decode (STD t a (4 * i)) = Fn Name.STD false false /\ rs (STD t a (4 * i)) = t /\ ra (STD t a (4 * i)) = a /\ ds (STD t a (4 * i)) = i.
Proof.
  intros H0. unfold STD. rewrite (Z.mul_comm 4 i), Z.quot_mul by lia. unfold set_ds, set_ra, set_rs.
  split; [word_decodes 384%nat|]. word_fields. op_fields. word_end.
Qed.

Lemma STDU_word i :
  - 2 ^ 13 <= i < 2 ^ 13 -> table_decode (STDU t a (4 * i)) = Fn Name.STDU false false /\ rs (STDU t a (4 * i)) = t /\ ra (STDU t a (4 * i)) = a /\ ds (STDU t a (4 * i)) = i.
Proof.
  intros H0. unfold STDU. rewrite (Z.mul_comm 4 i), Z.quot_mul by lia. unfold set_ds, set_ra, set_rs.
  split; [word_decodes 385%nat|]. word_fields. op_fields. word_end.
Qed.

Lemma LD_word i :
  - 2 ^ 13 <= i < 2 ^ 13 -> table_decode (LD t a (4 * i)) = Fn Name.LD false false /\ rd (LD t a (4 * i)) = t /\ ra (LD t a (4 * i)) = a /\ ds (LD t a (4 * i)) = i.
Proof.
  intros H0. unfold LD. rewrite (Z.mul_comm 4 i), Z.quot_mul by lia. unfold set_ds, set_ra, set_rd.
  split; [word_decodes 371%nat|]. word_fields. op_fields. word_end.
Qed.

Lemma LDU_word i :
  - 2 ^ 13 <= i < 2 ^ 13 -> table_decode (LDU t a (4 * i)) = Fn Name.LDU false false /\ rd (LDU t a (4 * i)) = t /\ ra (LDU t a (4 * i)) = a /\ ds (LDU t a (4 * i)) = i.
Proof.
  intros H0. unfold LDU. rewrite (Z.mul_comm 4 i), Z.quot_mul by lia. unfold set_ds, set_ra, set_rd.
  split; [word_decodes 372%nat|]. word_fields. op_fields. word_end.
Qed.

Lemma CMPI_word c l i :
  in_range 3 c -> in_range 1 l -> in_range 16 i -> table_decode (CMPI c l a i) = Fn Name.CMPI false false /\ crfd (CMPI c l a i) = c /\ l10 (CMPI c l a i) = l /\ ra (CMPI c l a i) = a /\ uimm16 (CMPI c l a i) = i.
Proof.
  intros H0 H1 H2. unfold CMPI, set_uimm16, set_ra, set_l10, set_crfd.
  split; [word_decodes 5%nat|]. word_fields. op_fields. word_end.
Qed.

Lemma CMPLI_word c l i :
  in_range 3 c -> in_range 1 l -> in_range 16 i -> table_decode (CMPLI c l a i) = Fn Name.CMPLI false false /\ crfd (CMPLI c l a i) = c /\ l10 (CMPLI c l a i) = l /\ ra (CMPLI c l a i) = a /\ uimm16 (CMPLI c l a i) = i.
Proof.
  intros H0 H1 H2. unfold CMPLI, set_uimm16, set_ra, set_l10, set_crfd.
  split; [word_decodes 4%nat|]. word_fields. op_fields. word_end.
Qed.

Lemma MFSPR_word n :
  in_range 10 n -> table_decode (MFSPR t n) = Fn Name.MFSPR false false /\ rd (MFSPR t n) = t /\ spr (MFSPR t n) = n.
Proof.
  intros H0. unfold MFSPR, set_spr, set_rd.
  split; [word_decodes 303%nat|]. word_fields. op_fields. word_end.
Qed.

Lemma MTSPR_word n :
  in_range 10 n -> table_decode (MTSPR n t) = Fn Name.MTSPR false false /\ rs (MTSPR n t) = t /\ spr (MTSPR n t) = n.
Proof.
  intros H0. unfold MTSPR, set_spr, set_rs.
  split; [word_decodes 321%nat|]. word_fields. op_fields. word_end.
Qed.

Lemma BC_word i (x y : bool) :
  - 2 ^ 13 <= i < 2 ^ 13 -> table_decode (BC t a (4 * i) x y) = Fn Name.BC false false /\ bo (BC t a (4 * i) x y) = t /\ bi (BC t a (4 * i) x y) = a /\ bt14 (BC t a (4 * i) x y) = 4 * i /\ aa (BC t a (4 * i) x y) = Z.b2z x /\ lk (BC t a (4 * i) x y) = Z.b2z y.
Proof.
  intros H0. unfold BC. rewrite (Z.mul_comm 4 i), Z.quot_mul by lia. unfold set_lk, set_aa, set_ds, set_bi, set_bo.
  split; [word_decodes 10%nat|]. word_fields. op_fields. word_end.
Qed.

Lemma BCLR_word h (y : bool) :
  in_range 2 h -> table_decode (BCLR t a h y) = Fn Name.BCLR false false /\ bo (BCLR t a h y) = t /\ bi (BCLR t a h y) = a /\ lk (BCLR t a h y) = Z.b2z y.
Proof.
  intros H0. unfold BCLR, set_lk, set_bh, set_bi, set_bo.
  split; [word_decodes 204%nat|]. word_fields. op_fields. word_end.
Qed.

Lemma BCCTR_word h (y : bool) :
  in_range 2 h -> table_decode (BCCTR t a h y) = Fn Name.BCCTR false false /\ bo (BCCTR t a h y) = t /\ bi (BCCTR t a h y) = a /\ lk (BCCTR t a h y) = Z.b2z y.
Proof.
  intros H0. unfold BCCTR, set_lk, set_bh, set_bi, set_bo.
  split; [word_decodes 214%nat|]. word_fields. op_fields. word_end.
Qed.
End Encoders.

(** [extrdi x, y, n, b] is [rldicl x, y, b + n, 64 - n], which leaves n bits; the word of
    [EXTRDI] has 64 - b in its place: 8 bits at bit 16 come out as 16 bits. *)
Lemma extrdi_wrong :
  let w := ppu_instructions.EXTRDI 3 4 8 16 in
  sh64 w = 16 + 8 /\ mbe64 w = 64 - 16 /\ mbe64 w <> 64 - 8.
Proof. vm_compute. repeat split. discriminate. Qed.
