(* ===== verification/PpuRun.v ===== *)
(** * Programs run by the PPU interpreter

    From words in guest memory through the decoder and the handlers to the loop that runs
    them: a counted loop ends, with the results its iterations add up to. *)

From Stdlib Require Import ZArith Lia Bool.
From stdpp Require Import base numbers list gmap.
From S2P Require Import Prelude V128 Bytes GuestMem BitField PpuOpcodes PpuThread PpuInterp PpuWf PpuFlow PpuDecode PpuEncode.
Import ppu_opcode_t Interp.

(** What the instructions of the loop leave alone: all but [cia], CTR, r3 and the counters for the
    debugger (executed bytes, call history). *)
Definition same_rest (s t : ppu_thread) : Prop :=
  fpr t = fpr s /\ vr t = vr s /\ cr t = cr s /\ lr t = lr s /\ vrsave t = vrsave s /\
  so t = so s /\ ov t = ov s /\ ca t = ca s /\ cnt t = cnt s /\ nj t = nj s /\ sat t = sat s /\ jm_mask t = jm_mask s /\ raddr t = raddr s /\
  rdata t = rdata s /\ use_full_rdata t = use_full_rdata s /\ res_cached t = res_cached s /\ state t = state s /\ stat t = stat s /\ mem t = mem s.
Lemma same_rest_trans s t u : same_rest s t -> same_rest t u -> same_rest s u.
Proof. unfold same_rest. intros H1 H2. decompose [and] H1. decompose [and] H2. repeat split; congruence. Qed.

(** The handler of the word in memory. *)
Lemma exec_word cfg `{PpuHost} pc w f s :
  accessible (mem s) pc 4 page_readable = true -> be_load (ram (mem s)) pc 4 = w -> table_decode w = f ->
  select f w = Handler f -> exec_at cfg pc s = exec cfg f pc w s.
Proof. intros Hacc Hw Hf Hsel. unfold exec_at, read32, rt_decode. rewrite Hacc, Hw, Hf, Hsel. reflexivity. Qed.

Lemma read_next pc s : accessible (mem s) pc 4 page_readable = true -> read32 pc s = Some (be_load (ram (mem s)) pc 4).
Proof. intros H. unfold read32. rewrite H. reflexivity. Qed.

Section CountedLoop.
Context (cfg : ppu_config) {host : PpuHost} {ok : PpuHostOk host}.
Context (a si : Z) (Ha : 0 <= a) (Ha8 : a + 8 < 2 ^ 32) (Hsi : simm_ok si).

(** [addi r3, r3, si; bdnz -4] at [a], and a readable word behind them, which the last [bdnz] loads. *)
Definition addi_word : Z := ppu_instructions.ADDI 3 3 si.
Definition bdnz_word : Z := ppu_instructions.BC 16 0 (4 * -1) false false.
Definition loop_at (g : guest) : Prop :=
  accessible g a 4 page_readable = true /\ be_load (ram g) a 4 = addi_word /\
  accessible g (a + 4) 4 page_readable = true /\ be_load (ram g) (a + 4) 4 = bdnz_word /\
  accessible g (a + 8) 4 page_readable = true.

Lemma addi_step s :
  loop_at (mem s) -> cia s = a ->
  exists t, run_one cfg s = Leave t /\ cia t = a + 4 /\ ctr t = ctr s /\
    gpr t = <[3%nat := u64 (get s 3 + si)]> (gpr s) /\ same_rest s t.
Proof.
  intros (Hacc & Hw & Hnext & _) Hc.
  destruct (ADDI_word 3 3 ltac:(unfold in_range; lia) ltac:(unfold in_range; lia) si Hsi) as (Ed & E1 & E2 & E3).
  unfold run_one. rewrite Hc, (exec_word cfg a _ _ s Hacc Hw Ed eq_refl). cbn [exec base]. unfold straight.
  set (t := Interp.ADDI _ s).
  assert (t = set 3 (u64 (get s 3 + si)) s) as Et by (unfold t, Interp.ADDI, addi_word; rewrite E1, E2, E3; reflexivity).
  assert (u32 (a + 4) = a + 4) as Eu by (apply wrap_small; unfold in_range; lia).
  clearbody t. subst t. rewrite Eu, read_next by (destruct (_ || _); exact Hnext). eexists. split; [reflexivity|].
  unfold same_rest. destruct (_ || _); cbn [cia ctr gpr with_cia set with_gpr]; auto 30.
Qed.

(** What the word of [bdnz] says. *)
Definition bdnz_fields (w : Z) : Prop :=
  table_decode w = Fn Name.BC false false /\ bo w = 16 /\ bt14 w = -4 /\ aa w = 0 /\ lk w = 0.
Lemma bdnz_word_fields : bdnz_fields bdnz_word.
Proof.
  destruct (BC_word 16 0 ltac:(unfold in_range; lia) ltac:(unfold in_range; lia) (-1) false false ltac:(lia))
    as (Ed & E1 & _ & E3 & E4 & E5). exact (conj Ed (conj E1 (conj E3 (conj E4 E5)))).
Qed.

Lemma bdnz_step s n w :
  wf s -> accessible (mem s) (a + 4) 4 page_readable = true -> be_load (ram (mem s)) (a + 4) 4 = w -> bdnz_fields w ->
  accessible (mem s) (a + 8) 4 page_readable = true ->
  cia s = a + 4 -> ctr s = n -> 1 <= n ->
  exists t, run_one cfg s = Leave t /\ cia t = (if n =? 1 then a + 8 else a) /\ ctr t = n - 1 /\
    gpr t = gpr s /\ same_rest s t.
Proof.
  intros Hs Hacc Hw (Ed & E1 & E3 & E4 & E5) Hnext Hc Hn H1. pose proof (wf_ctr s Hs) as Hr. rewrite Hn in Hr. unfold in_range in Hr.
  destruct (BC_branches cfg (a + 4) w s Hs) as (t & Hsame & Et & El & Hb).
  assert (count_after w s = n - 1) as Ec.
  { unfold count_after, bo_bit. rewrite E1, Hn. cbn. apply wrap_small. unfold in_range. lia. }
  assert (count_holds w s && cond_holds w s = negb (n =? 1)) as Eh.
  { unfold count_holds, cond_holds. rewrite Ec. unfold bo_bit. rewrite E1. cbn. rewrite andb_true_r. f_equal.
    destruct (Z.eqb_spec (n - 1) 0), (Z.eqb_spec n 1); try lia; reflexivity. }
  rewrite Eh in Hb. rewrite Ec in Et.
  assert (lr t = lr s) as El' by (rewrite El; unfold link_after; rewrite E5; reflexivity).
  assert (same_rest s t) as Hst by (unfold same_regs, same_rest in *; decompose [and] Hsame; auto 30).
  assert (gpr t = gpr s) as Hg by apply Hsame.
  unfold run_one. rewrite Hc, (exec_word cfg (a + 4) _ _ s Hacc Hw Ed eq_refl). cbn [exec base].
  assert (u32 (a + 4 + 4) = a + 8) as Eu by (rewrite wrap_small; unfold in_range; lia).
  destruct (Z.eqb_spec n 1) as [->|Hne]; cbn [negb] in Hb.
  - assert (accessible (mem t) (a + 8) 4 page_readable = true) as Hmem by (replace (mem t) with (mem s) by (symmetry; apply Hst); exact Hnext).
    destruct (state s =? 0); destruct Hb as [-> Hci]; rewrite ?Eu, ?(read_next _ _ Hmem); eexists; (split; [reflexivity|]);
      cbn [cia ctr gpr with_cia]; rewrite ?Hci; auto 10.
  - destruct Hb as [-> Hci]. eexists. split; [reflexivity|]. split; [|auto].
    rewrite Hci, E3, E4. cbn [negb Z.eqb]. rewrite wrap_small; unfold in_range; lia.
Qed.

(** One pass of the fallback loop that neither finds code nor a signal. *)
Lemma fallback_pass step compiled p s t :
  compiled (cia s) = false -> step s = Leave t -> state t = 0 ->
  fallback_loop step compiled (S p) s = fallback_loop step compiled p t.
Proof.
  intros Hc Hst Ht. cbn [fallback_loop]. rewrite Hc, Hst. unfold test_stopped. rewrite Ht. reflexivity.
Qed.

Lemma run_wf s t : wf s -> run_one cfg s = Leave t -> wf t.
Proof. intros Hs E. pose proof (run_one_wf cfg s Hs) as H. rewrite E in H. exact H. Qed.

Definition loop_exit (c : Z) : bool := c =? a + 8.

(** Both instructions of an iteration: between them the thread is at [a + 4]. *)
Lemma loop_iteration s n :
  wf s -> loop_at (mem s) -> cia s = a -> state s = 0 -> ctr s = n -> 1 <= n ->
  exists u t, ppu_recompiler_fallback cfg loop_exit 1 s = Running u /\ cia u = a + 4 /\
    (forall p, ppu_recompiler_fallback cfg loop_exit (S (S p)) s = ppu_recompiler_fallback cfg loop_exit p t) /\
    wf t /\ cia t = (if n =? 1 then a + 8 else a) /\ ctr t = n - 1 /\
    gpr t = <[3%nat := u64 (get s 3 + si)]> (gpr s) /\ same_rest s t.
Proof.
  intros Hs Hl Hc Hz Hn H1. destruct (addi_step s Hl Hc) as (t & Et & Ct & Nt & Gt & Rt).
  assert (mem t = mem s) as Mt by apply Rt. assert (state t = 0) as Zt by (rewrite <- Hz; apply Rt).
  pose proof (run_wf s t Hs Et) as Wt.
  destruct (bdnz_step t n bdnz_word Wt) as (u & Eu & Cu & Nu & Gu & Ru);
    [rewrite Mt; apply Hl|rewrite Mt; apply Hl|exact bdnz_word_fields|rewrite Mt; apply Hl|exact Ct|congruence|exact H1|].
  assert (state u = 0) as Zu by (rewrite <- Zt; apply Ru).
  assert (loop_exit (cia s) = false /\ loop_exit (cia t) = false) as [X1 X2].
  { unfold loop_exit. rewrite Hc, Ct, !Z.eqb_neq. lia. }
  exists t, u. split; [|split; [exact Ct|split]].
  - unfold ppu_recompiler_fallback. rewrite (fallback_pass _ _ 0 s t X1 Et Zt). reflexivity.
  - intros p. unfold ppu_recompiler_fallback. rewrite (fallback_pass _ _ (S p) s t X1 Et Zt). apply fallback_pass; auto.
  - split; [exact (run_wf t u Wt Eu)|]. split; [exact Cu|]. split; [exact Nu|]. split; [congruence|].
    apply (same_rest_trans s t); auto.
Qed.

(** C6: a counted loop ends.  With the words [addi r3, r3, si; bdnz -4] that [ppu_instructions]
    builds in readable memory at [a] and a readable word behind them, CTR = n >= 1 and no signal
    pending, the interpreter started at [a] is at [a + 8] for the first time after exactly 2n
    instructions, whatever the settings and for every well-behaved host: the fallback loop given
    fewer passes is still running and inside the loop, given 2n it is at [a + 8], and given any
    more it returns there, with CTR zero, n times si added to r3 modulo 2^64, and every other
    register, the reservation and memory as they were. *)
Theorem counted_loop_returns n s :
  wf s -> loop_at (mem s) -> cia s = a -> state s = 0 -> ctr s = Z.of_nat n -> (1 <= n)%nat ->
  (forall p, (p < 2 * n)%nat -> exists u, ppu_recompiler_fallback cfg loop_exit p s = Running u /\ (cia u = a \/ cia u = a + 4)) /\
  exists t, ppu_recompiler_fallback cfg loop_exit (2 * n) s = Running t /\
    (forall p, (2 * n < p)%nat -> ppu_recompiler_fallback cfg loop_exit p s = Returned t) /\
    cia t = a + 8 /\ ctr t = 0 /\ gpr t = <[3%nat := u64 (get s 3 + Z.of_nat n * si)]> (gpr s) /\ same_rest s t.
Proof.
  revert s. induction n as [|n IH]; intros s Hs Hl Hc Hz Hn H1; [lia|].
  destruct (loop_iteration s (Z.of_nat (S n)) Hs Hl Hc Hz Hn ltac:(lia)) as (u1 & t & E1 & C1 & Et & Wt & Ct & Nt & Gt & Rt).
  assert (get t 3 = u64 (get s 3 + si)) as G3.
  { unfold get. rewrite Gt. change (Z.to_nat 3) with 3%nat. rewrite nth_lookup, list_lookup_insert_eq; [reflexivity|].
    rewrite (proj1 (wf_gpr s Hs)). lia. }
  assert (exists t', (forall p, (p < 2 * n)%nat -> exists u, ppu_recompiler_fallback cfg loop_exit p t = Running u /\ (cia u = a \/ cia u = a + 4)) /\
    ppu_recompiler_fallback cfg loop_exit (2 * n) t = Running t' /\
    (forall p, (2 * n < p)%nat -> ppu_recompiler_fallback cfg loop_exit p t = Returned t') /\
    cia t' = a + 8 /\ ctr t' = 0 /\ gpr t' = <[3%nat := u64 (get s 3 + Z.of_nat (S n) * si)]> (gpr s) /\ same_rest s t')
    as (t' & Hearly & Hat & Hafter & Hrest).
  { destruct (Z.eqb_spec (Z.of_nat (S n)) 1) as [E0|E0].
    - assert (n = 0%nat) as -> by lia. exists t. split; [lia|]. split; [reflexivity|]. split.
      + intros [|p] Hp; [lia|]. unfold ppu_recompiler_fallback. cbn [fallback_loop]. unfold loop_exit. rewrite Ct, Z.eqb_refl. reflexivity.
      + split; [exact Ct|]. split; [lia|]. split; [|exact Rt]. rewrite Gt. f_equal. f_equal. lia.
    - destruct (IH t Wt) as (Hearly & u & Eu & Hafter & Cu & Nu & Gu & Ru); [| |rewrite <- Hz; apply Rt|lia|lia|].
      { replace (mem t) with (mem s) by (symmetry; apply Rt). exact Hl. }
      { exact Ct. }
      exists u. split; [exact Hearly|]. split; [exact Eu|]. split; [exact Hafter|]. split; [exact Cu|]. split; [exact Nu|].
      split; [|apply (same_rest_trans s t); auto]. rewrite Gu, Gt, list_insert_insert_eq. f_equal. rewrite G3, wrap_add_l. f_equal. lia. }
  split; [|exists t'; split; [|split; [|exact Hrest]]].
  - intros [|[|p]] Hp; [exists s; auto|exists u1; auto|]. rewrite Et. apply Hearly. lia.
  - replace (2 * S n)%nat with (S (S (2 * n))) by lia. rewrite Et. exact Hat.
  - intros [|[|p]] Hp; [lia|lia|]. rewrite Et. apply Hafter. lia.
Qed.
End CountedLoop.

(** Seven iterations that add -2 to 100. *)
Lemma counted_loop_returns_witness :
  let s := with_ctr 7 (set 3 100 (BarePpu.boot [addi_word (-2); bdnz_word; 0])) in
  wf s /\ exists t, @ppu_recompiler_fallback BarePpu.cfg BarePpu.host (loop_exit 0x10000) 14 s = Running t /\
    @ppu_recompiler_fallback BarePpu.cfg BarePpu.host (loop_exit 0x10000) 15 s = Returned t /\
    cia t = 0x10008 /\ get t 3 = 86.
Proof.
  intros s. assert (wf s) as Hs.
  { apply wf_with_ctr; [apply ppu_wf_set; [apply BarePpu.ppu_boot_wf|]|]; unfold in_range; lia. }
  split; [exact Hs|].
  destruct (@counted_loop_returns BarePpu.cfg BarePpu.host BarePpu.ppu_host_ok 0x10000 (-2) ltac:(lia) ltac:(lia)
              ltac:(unfold simm_ok; lia) 7 s Hs) as (_ & t & E & H & C & _ & G & _).
  - split; [|split; [|split; [|split]]]; vm_compute; reflexivity.
  - reflexivity.
  - reflexivity.
  - reflexivity.
  - lia.
  - exists t. split; [exact E|]. split; [apply H; lia|]. split; [exact C|]. unfold get. rewrite G. vm_compute. reflexivity.
Defined.
