(* ===== verification/PpuVecSat.v ===== *)
(** * Saturating vector instructions of the PPU

    Every saturating AltiVec handler leaves the exact results clamped to the element type and
    makes [ppu.sat] nonzero exactly when it was or when some result did not fit. *)

From Stdlib Require Import ZArith Lia Bool.
From stdpp Require Import base numbers list.
From S2P Require Import Prelude V128 BitField PpuOpcodes PpuThread Neon PpuVec PpuInterp PpuWf.
Import ppu_opcode_t Vec.

Section Saturation.
Context (cfg : ppu_config).

(** VD has the elements [clamp (F i)] of width [w]; VSCR's SAT is kept, and set when an
    element was changed by the clamping and the setting asks for it; nothing else changes. *)
Definition clamps (w : Z) (clamp F : Z -> Z) (op : Z) (s t : ppu_thread) : Prop :=
  exists v, t = set_vr (vd op) (build w (nlanes w) (fun i => clamp (F i))) (with_sat v s) /\ in_range 128 v /\
    if set_sat cfg then v = 0 <-> sat s = 0 /\ forall i, 0 <= i < Z.of_nat (nlanes w) -> clamp (F i) = F i
    else v = sat s.

Lemma with_sat_same s : with_sat (sat s) s = s.
Proof. destruct s. reflexivity. Qed.

(** The shape of every handler: a result and a vector of what was lost. *)
Lemma clamps_intro w clamp F op s r x `{LaneWidth w} :
  wf s -> in_range 128 x -> r = build w (nlanes w) (fun i => clamp (F i)) ->
  (x = 0 <-> forall i, 0 <= i < Z.of_nat (nlanes w) -> clamp (F i) = F i) ->
  clamps w clamp F op s (set_vr (vd op) r (add_sat cfg x s)).
Proof.
  intros Hs Hx -> Hz. unfold add_sat, clamps. destruct (set_sat cfg).
  - exists (gv_or32 x (sat s)). split; [reflexivity|]. split; [apply lor128_range; [exact Hx|apply wf_sat, Hs]|].
    unfold gv_or32, vorrq. rewrite Z.lor_eq_0_iff, Hz. tauto.
  - exists (sat s). split; [rewrite with_sat_same; reflexivity|]. split; [apply wf_sat, Hs|reflexivity].
Qed.

Lemma xor_builds w `{HW : LaneWidth w} f g :
  Z.lxor (build w (nlanes w) f) (build w (nlanes w) g) = 0 <->
  forall i, 0 <= i < Z.of_nat (nlanes w) -> wrap w (g i) = wrap w (f i).
Proof.
  rewrite Z.lxor_eq_0_iff. split.
  - intros E i Hi. apply (f_equal (lane w i)) in E. rewrite !lane_build in E by auto using width_pos. auto.
  - intros E. apply build_ext. intros i Hi. symmetry. auto.
Qed.

(** A saturated result [r] compared with the modular one [m]. *)
Lemma xor_clamps w clamp F r m op s `{LaneWidth w} :
  wf s -> r = build w (nlanes w) (fun i => clamp (F i)) -> m = build w (nlanes w) F ->
  (forall i, 0 <= i < Z.of_nat (nlanes w) -> wrap w (clamp (F i)) = wrap w (F i) -> clamp (F i) = F i) ->
  clamps w clamp F op s (set_vr (vd op) r (add_sat cfg (gv_xor32 m r) s)).
Proof.
  intros Hs Er Em Hc. apply clamps_intro; [assumption|exact Hs| |exact Er|].
  - rewrite Er, Em. apply lxor128_range; apply build128_range.
  - rewrite Er, Em. unfold gv_xor32, veorq. rewrite (xor_builds w). split.
    + intros E i Hi. apply Hc; auto.
    + intros E i Hi. rewrite E; auto.
Qed.
Lemma saturating_clamps w clamp F r m op s `{LaneWidth w} :
  wf s ->
  let A := get_vr s (va op) in let B := get_vr s (vb op) in
  r A B = build w (nlanes w) (fun i => clamp (F i)) -> m A B = build w (nlanes w) F ->
  (forall i, 0 <= i < Z.of_nat (nlanes w) -> wrap w (clamp (F i)) = wrap w (F i) -> clamp (F i) = F i) ->
  clamps w clamp F op s (saturating cfg r m op s).
Proof. intros Hs A B Er Em Hc. apply xor_clamps; assumption. Qed.

(** The modular sum or difference of the signed elements. *)
Lemma wrap_smap2_add w f : forall a b `{LaneWidth w},
  (forall x y, wrap w (f x y) = wrap w (f (sint w x) (sint w y))) ->
  map2 w f a b = build w (nlanes w) (fun i => f (slane w i a) (slane w i b)).
Proof. intros a b Hw Hf. apply build_ext. intros i Hi. apply Hf. Qed.
Lemma wrap_add_sint w x y : 0 < w -> wrap w (x + y) = wrap w (sint w x + sint w y).
Proof.
  intros Hw. rewrite <- (wrap_add_l w (sint w x)), <- (wrap_add_r w _ (sint w y)), !wrap_sint, wrap_add_l, wrap_add_r by lia. reflexivity.
Qed.
Lemma wrap_sub_sint w x y : 0 < w -> wrap w (x - y) = wrap w (sint w x - sint w y).
Proof.
  intros Hw. rewrite <- (wrap_sub_l w (sint w x)), <- (wrap_sub_r w _ (sint w y)), !wrap_sint, wrap_sub_l, wrap_sub_r by lia. reflexivity.
Qed.

Lemma add_s_clamps w r m op s `{LaneWidth w} :
  wf s -> (forall a b, r a b = vqaddq_s w a b) -> (forall a b, m a b = vaddq w a b) ->
  clamps w (ssat w) (fun i => slane w i (get_vr s (va op)) + slane w i (get_vr s (vb op))) op s (saturating cfg r m op s).
Proof.
  intros Hs Hr Hm. pose proof (width_pos (w:=w)). apply saturating_clamps; [assumption|exact Hs|apply Hr| |].
  - rewrite Hm. apply wrap_smap2_add; [assumption|]. intros. apply wrap_add_sint. lia.
  - intros i Hi. apply wrap_ssat_eq; [lia|]. assert (2 ^ w = 2 * 2 ^ (w - 1)) by (rewrite <- Z.pow_succ_r by lia; f_equal; lia).
    pose proof (slane_range w i (get_vr s (va op)) ltac:(lia)). pose proof (slane_range w i (get_vr s (vb op)) ltac:(lia)). lia.
Qed.
Lemma sub_s_clamps w r m op s `{LaneWidth w} :
  wf s -> (forall a b, r a b = vqsubq_s w a b) -> (forall a b, m a b = vsubq w a b) ->
  clamps w (ssat w) (fun i => slane w i (get_vr s (va op)) - slane w i (get_vr s (vb op))) op s (saturating cfg r m op s).
Proof.
  intros Hs Hr Hm. pose proof (width_pos (w:=w)). apply saturating_clamps; [assumption|exact Hs|apply Hr| |].
  - rewrite Hm. apply wrap_smap2_add; [assumption|]. intros. apply wrap_sub_sint. lia.
  - intros i Hi. apply wrap_ssat_eq; [lia|]. assert (2 ^ w = 2 * 2 ^ (w - 1)) by (rewrite <- Z.pow_succ_r by lia; f_equal; lia).
    pose proof (slane_range w i (get_vr s (va op)) ltac:(lia)). pose proof (slane_range w i (get_vr s (vb op)) ltac:(lia)). lia.
Qed.
Lemma add_u_clamps w r m op s `{LaneWidth w} :
  wf s -> (forall a b, r a b = vqaddq_u w a b) -> (forall a b, m a b = vaddq w a b) ->
  clamps w (usat w) (fun i => lane w i (get_vr s (va op)) + lane w i (get_vr s (vb op))) op s (saturating cfg r m op s).
Proof.
  intros Hs Hr Hm. pose proof (width_pos (w:=w)). apply saturating_clamps; [assumption|exact Hs|apply Hr|apply Hm|].
  intros i Hi. apply wrap_usat_eq; [lia|].
  pose proof (lane_range w i (get_vr s (va op)) ltac:(lia)) as Ha. pose proof (lane_range w i (get_vr s (vb op)) ltac:(lia)) as Hb.
  unfold in_range in *. lia.
Qed.
Lemma sub_u_clamps w r m op s `{LaneWidth w} :
  wf s -> (forall a b, r a b = vqsubq_u w a b) -> (forall a b, m a b = vsubq w a b) ->
  clamps w (usat w) (fun i => lane w i (get_vr s (va op)) - lane w i (get_vr s (vb op))) op s (saturating cfg r m op s).
Proof.
  intros Hs Hr Hm. pose proof (width_pos (w:=w)). apply saturating_clamps; [assumption|exact Hs|apply Hr|apply Hm|].
  intros i Hi. apply wrap_usat_eq; [lia|].
  pose proof (lane_range w i (get_vr s (va op)) ltac:(lia)) as Ha. pose proof (lane_range w i (get_vr s (vb op)) ltac:(lia)) as Hb.
  unfold in_range in *. lia.
Qed.

(** ** Packing *)

Lemma packing_clamps w m clamp G lost p op s `{LaneWidth w} :
  wf s -> w * m = 64 -> dlanes w = Z.to_nat m -> 0 <= m ->
  let A := get_vr s (va op) in let B := get_vr s (vb op) in
  p B A = vcombine (build w (dlanes w) (fun i => clamp (G i B))) (build w (dlanes w) (fun i => clamp (G i A))) ->
  in_range 128 (lost A B) ->
  (lost A B = 0 <-> forall i, 0 <= i < m -> clamp (G i A) = G i A /\ clamp (G i B) = G i B) ->
  clamps w clamp (fun i => if i <? m then G i B else G (i - m) A) op s (packing cfg lost p op s).
Proof.
  intros Hs Hm Hd Hm0 A B Ep Hr Hl. unfold packing. cbv zeta. fold A B.
  pose proof (width_pos (w:=w)). destruct (lane_width (w:=w)) as [_ Hn]. assert (Z.of_nat (nlanes w) = 2 * m) as Hn' by nia.
  apply clamps_intro; [assumption|exact Hs|exact Hr| |].
  - rewrite Ep, (vcombine_build w m) by assumption. apply build_ext. intros i Hi. destruct (i <? m); reflexivity.
  - rewrite Hl. split.
    + intros Hf i Hi. destruct (Z.ltb_spec i m); apply Hf; lia.
    + intros Hf i Hi. split.
      * specialize (Hf (m + i) ltac:(lia)). destruct (Z.ltb_spec (m + i) m); [lia|]. replace (m + i - m) with i in Hf by lia. exact Hf.
      * specialize (Hf i ltac:(lia)). destruct (Z.ltb_spec i m); [exact Hf|lia].
Qed.

(** The high half of every element of two vectors is zero. *)
Lemma high_zero w n x y `{LaneWidth w} :
  8 <= w -> 0 <= n < 64 -> in_range 128 x -> in_range 128 y ->
  vshlq_u w (Z.lor x y) (vdupq_n w (0 - n)) = 0 <->
  forall i, 0 <= i < Z.of_nat (nlanes w) -> lane w i x < 2 ^ n /\ lane w i y < 2 ^ n.
Proof.
  intros H8 Hn Hx Hy. rewrite (vec_zero w) by (unfold vshlq_u; apply map2_range).
  enough (forall i, 0 <= i < Z.of_nat (nlanes w) ->
    lane w i (vshlq_u w (Z.lor x y) (vdupq_n w (0 - n))) = 0 <-> lane w i x < 2 ^ n /\ lane w i y < 2 ^ n) as He.
  { split; intros E i Hi; apply He; auto. }
  intros i Hi. rewrite lane_shr_n, lane_lor, Z.shiftr_lor, Z.lor_eq_0_iff by (assumption || lia).
  rewrite !Z.shiftr_div_pow2 by lia.
  pose proof (lane_range w i x ltac:(lia)) as Hlx. pose proof (lane_range w i y ltac:(lia)) as Hly. unfold in_range in *.
  pose proof (pow2_pos n ltac:(lia)). rewrite !Z.div_small_iff by lia. lia.
Qed.

(** What the lost bits say of an element [x] that is narrowed. *)
Lemma biased_fits w x :
  w = 8 \/ w = 16 -> in_range (2 * w) x -> wrap (2 * w) (x + 2 ^ (w - 1)) < 2 ^ w <-> ssat w (sint (2 * w) x) = sint (2 * w) x.
Proof.
  intros Hw Hx. rewrite ssat_fits by lia. unfold in_range, wrap, sint in *.
  destruct Hw as [-> | ->]; [change (2 * 8) with 16 in *|change (2 * 16) with 32 in *];
    cbn [Z.sub Z.opp Z.add Z.pos_sub Pos.pred_double] in *; Z.div_mod_to_equations; lia.
Qed.
Lemma small_fits_s w x :
  w = 8 \/ w = 16 -> in_range (2 * w) x -> x < 2 ^ w <-> usat w (sint (2 * w) x) = sint (2 * w) x.
Proof.
  intros Hw Hx. rewrite usat_fits by lia. unfold in_range, sint in *.
  destruct Hw as [-> | ->]; [change (2 * 8) with 16 in *|change (2 * 16) with 32 in *];
    cbn [Z.sub Z.opp Z.add Z.pos_sub Pos.pred_double] in *; Z.div_mod_to_equations; lia.
Qed.
Lemma small_fits_u w x : 0 <= w -> 0 <= x -> x < 2 ^ w <-> usat w x = x.
Proof. intros Hw Hx. rewrite usat_fits by lia. lia. Qed.

(** The six packings lose bits exactly where the clamping changes an element. *)
Lemma lost_fits w n x y P Q `{LaneWidth w} :
  8 <= w -> 0 <= n < 64 -> in_range 128 x -> in_range 128 y ->
  (forall i, 0 <= i < Z.of_nat (nlanes w) -> lane w i x < 2 ^ n <-> P i) ->
  (forall i, 0 <= i < Z.of_nat (nlanes w) -> lane w i y < 2 ^ n <-> Q i) ->
  vshlq_u w (Z.lor x y) (vdupq_n w (0 - n)) = 0 <-> forall i, 0 <= i < Z.of_nat (nlanes w) -> P i /\ Q i.
Proof.
  intros H8 Hn Hx Hy HP HQ. rewrite (high_zero w) by assumption.
  split; intros Hf i Hi; destruct (Hf i Hi); split; (apply HP || apply HQ); assumption.
Qed.

Lemma narrow_clamps w m clamp G lost p op s X Y `{LaneWidth w} `{LaneWidth (2 * w)} :
  w = 8 \/ w = 16 -> m = 64 / w -> wf s ->
  let A := get_vr s (va op) in let B := get_vr s (vb op) in
  p B A = vcombine (build w (dlanes w) (fun i => clamp (G i B))) (build w (dlanes w) (fun i => clamp (G i A))) ->
  lost A B = vshlq_u (2 * w) (Z.lor X Y) (vdupq_n (2 * w) (0 - w)) -> in_range 128 X -> in_range 128 Y ->
  (forall i, 0 <= i < Z.of_nat (nlanes (2 * w)) -> lane (2 * w) i X < 2 ^ w <-> clamp (G i A) = G i A) ->
  (forall i, 0 <= i < Z.of_nat (nlanes (2 * w)) -> lane (2 * w) i Y < 2 ^ w <-> clamp (G i B) = G i B) ->
  clamps w clamp (fun i => if i <? m then G i B else G (i - m) A) op s (packing cfg lost p op s).
Proof.
  intros Hw Hm Hs A B Hp Hl HX HY PX PY.
  assert (w * m = 64 /\ dlanes w = Z.to_nat m /\ 0 <= m /\ m = Z.of_nat (nlanes (2 * w))) as (H1 & H2 & H3 & H4)
    by (destruct Hw as [-> | ->]; subst m; repeat split; vm_compute; congruence).
  apply (packing_clamps w m clamp G); try assumption; [fold A B; rewrite Hl; apply map2_range|].
  fold A B. rewrite Hl, H4. apply (lost_fits (2 * w) w); auto; lia.
Qed.

(** Signed to signed, signed to unsigned, unsigned to unsigned. *)
Section Packs.
Context (w m : Z) (lost p : Z -> Z -> Z) (op : Z) (s : ppu_thread) `{LaneWidth w} `{LaneWidth (2 * w)}.
Context (Hw : w = 8 \/ w = 16) (Hm : m = 64 / w) (Hs : wf s).
Let A := get_vr s (va op).
Let B := get_vr s (vb op).

Lemma pack_ss :
  (forall a b, p a b = vcombine (vqmovn_s w a) (vqmovn_s w b)) ->
  (forall a b, lost a b = vshlq_u (2 * w) (Z.lor (vaddq (2 * w) a (vdupq_n (2 * w) (2 ^ (w - 1))))
                                                 (vaddq (2 * w) b (vdupq_n (2 * w) (2 ^ (w - 1))))) (vdupq_n (2 * w) (0 - w))) ->
  clamps w (ssat w) (fun i => if i <? m then slane (2 * w) i B else slane (2 * w) (i - m) A) op s (packing cfg lost p op s).
Proof.
  intros Hp Hl. eapply (narrow_clamps w m (ssat w) (slane (2 * w))); try assumption; [apply Hp|apply Hl|apply map2_range|apply map2_range| |];
    intros i Hi; unfold vaddq, vdupq_n; rewrite lane_map2, lane_splat, wrap_add_r by (exact Hi || lia);
    apply biased_fits; auto; apply lane_range; lia.
Qed.
Lemma pack_us :
  (forall a b, p a b = vcombine (vqmovun_s w a) (vqmovun_s w b)) ->
  (forall a b, lost a b = vshlq_u (2 * w) (Z.lor a b) (vdupq_n (2 * w) (0 - w))) ->
  clamps w (usat w) (fun i => if i <? m then slane (2 * w) i B else slane (2 * w) (i - m) A) op s (packing cfg lost p op s).
Proof.
  intros Hp Hl. eapply (narrow_clamps w m (usat w) (slane (2 * w))); try assumption; [apply Hp|apply Hl|apply get_vr_range, Hs|apply get_vr_range, Hs| |];
    intros i Hi; apply small_fits_s; auto; apply lane_range; lia.
Qed.
Lemma pack_uu :
  (forall a b, p a b = vcombine (vqmovn_u w a) (vqmovn_u w b)) ->
  (forall a b, lost a b = vshlq_u (2 * w) (Z.lor a b) (vdupq_n (2 * w) (0 - w))) ->
  clamps w (usat w) (fun i => if i <? m then lane (2 * w) i B else lane (2 * w) (i - m) A) op s (packing cfg lost p op s).
Proof.
  intros Hp Hl. eapply (narrow_clamps w m (usat w) (lane (2 * w))); try assumption; [apply Hp|apply Hl|apply get_vr_range, Hs|apply get_vr_range, Hs| |];
    intros i Hi; apply small_fits_u; try lia; apply lane_range; lia.
Qed.
End Packs.

(** ** VSCR *)

Lemma MFVSCR_sat op s :
  wf s -> set_sat cfg = true -> Z.testbit (get_vr (MFVSCR cfg op s) (vd op)) 0 = negb (sat s =? 0).
Proof.
  intros Hs Hset. unfold MFVSCR. rewrite vr_set_eq, Hset, testz_zero by (exact Hs || apply wf_sat, Hs || apply ppu_reg_field).
  destruct (sat s =? 0), (nj s); reflexivity.
Qed.

(** The names of one operation in simd.hpp, and its intrinsic. *)
Ltac intrinsic :=
  intros; cbv [gv_add8 gv_add16 gv_add32 gv_sub8 gv_sub16 gv_sub32 gv_adds_s8 gv_adds_s16 gv_adds_s32 gv_addus_u8
    gv_addus_u16 gv_addus_u32 gv_subs_s8 gv_subs_s16 gv_subs_s32 gv_subus_u8 gv_subus_u16 gv_subus_u32
    mm_add_epi16 mm_add_epi32 mm_sub_epi8 mm_sub_epi16 mm_sub_epi32 vaddq vsubq]; reflexivity.

(** C17: every addition, subtraction and packing with saturation leaves in VD the exact sums,
    differences or elements clamped to the signed or unsigned element type (packing puts VB's
    elements into the low half and VA's into the high one), and, when the setting is on, sets
    VSCR's SAT exactly when it was set or some element was changed by the clamping, as
    [mfvscr] then reads; no other register and no memory changes. *)
Theorem vector_saturation op s :
  wf s ->
  let A := get_vr s (va op) in let B := get_vr s (vb op) in
  let signed w m i := if i <? m then slane (2 * w) i B else slane (2 * w) (i - m) A in
  let unsigned w m i := if i <? m then lane (2 * w) i B else lane (2 * w) (i - m) A in
  clamps 8 (ssat 8) (fun i => slane 8 i A + slane 8 i B) op s (VADDSBS cfg op s) /\
  clamps 16 (ssat 16) (fun i => slane 16 i A + slane 16 i B) op s (VADDSHS cfg op s) /\
  clamps 32 (ssat 32) (fun i => slane 32 i A + slane 32 i B) op s (VADDSWS cfg op s) /\
  clamps 8 (usat 8) (fun i => lane 8 i A + lane 8 i B) op s (VADDUBS cfg op s) /\
  clamps 16 (usat 16) (fun i => lane 16 i A + lane 16 i B) op s (VADDUHS cfg op s) /\
  clamps 32 (usat 32) (fun i => lane 32 i A + lane 32 i B) op s (VADDUWS cfg op s) /\
  clamps 8 (ssat 8) (fun i => slane 8 i A - slane 8 i B) op s (VSUBSBS cfg op s) /\
  clamps 16 (ssat 16) (fun i => slane 16 i A - slane 16 i B) op s (VSUBSHS cfg op s) /\
  clamps 32 (ssat 32) (fun i => slane 32 i A - slane 32 i B) op s (VSUBSWS cfg op s) /\
  clamps 8 (usat 8) (fun i => lane 8 i A - lane 8 i B) op s (VSUBUBS cfg op s) /\
  clamps 16 (usat 16) (fun i => lane 16 i A - lane 16 i B) op s (VSUBUHS cfg op s) /\
  clamps 32 (usat 32) (fun i => lane 32 i A - lane 32 i B) op s (VSUBUWS cfg op s) /\
  clamps 8 (ssat 8) (signed 8 8) op s (VPKSHSS cfg op s) /\ clamps 16 (ssat 16) (signed 16 4) op s (VPKSWSS cfg op s) /\
  clamps 8 (usat 8) (signed 8 8) op s (VPKSHUS cfg op s) /\ clamps 16 (usat 16) (signed 16 4) op s (VPKSWUS cfg op s) /\
  clamps 8 (usat 8) (unsigned 8 8) op s (VPKUHUS cfg op s) /\ clamps 16 (usat 16) (unsigned 16 4) op s (VPKUWUS cfg op s) /\
  (set_sat cfg = true -> Z.testbit (get_vr (MFVSCR cfg op s) (vd op)) 0 = negb (sat s =? 0)).
Proof.
  intros Hs. cbv zeta.
  do 3 (split; [apply add_s_clamps; [typeclasses eauto|exact Hs|intrinsic|intrinsic]|]).
  do 3 (split; [apply add_u_clamps; [typeclasses eauto|exact Hs|intrinsic|intrinsic]|]).
  do 3 (split; [apply sub_s_clamps; [typeclasses eauto|exact Hs|intrinsic|intrinsic]|]).
  do 3 (split; [apply sub_u_clamps; [typeclasses eauto|exact Hs|intrinsic|intrinsic]|]).
  split; [apply (pack_ss 8 8); auto; (typeclasses eauto || intrinsic)|].
  split; [apply (pack_ss 16 4); auto; (typeclasses eauto || intrinsic)|].
  split; [apply (pack_us 8 8); auto; (typeclasses eauto || intrinsic)|].
  split; [apply (pack_us 16 4); auto; (typeclasses eauto || intrinsic)|].
  split; [apply (pack_uu 8 8); auto; (typeclasses eauto || intrinsic)|].
  split; [apply (pack_uu 16 4); auto; (typeclasses eauto || intrinsic)|].
  apply MFVSCR_sat, Hs.
Qed.

End Saturation.

(** Three operands in v4, v5 and v6. *)
Definition vectors (a b c : Z) : ppu_thread := set_vr 4 (wrap 128 a) (set_vr 5 (wrap 128 b) (set_vr 6 (wrap 128 c) (BarePpu.boot []))).
Lemma vectors_wf a b c : wf (vectors a b c).
Proof. unfold vectors. repeat (apply wf_set_vr; [|apply wrap128_range]). apply BarePpu.ppu_boot_wf. Qed.

Lemma vector_saturation_witness :
  let s := vectors 0x7f 0x01 0 in let t := VADDSBS BarePpu.cfg BarePpu.op345 s in
  wf s /\ clamps BarePpu.cfg 8 (ssat 8) (fun i => slane 8 i 0x7f + slane 8 i 0x01) BarePpu.op345 s t /\
  get_vr t 3 = 0x7f /\ sat t <> 0 /\ sat (VADDUBS BarePpu.cfg BarePpu.op345 s) = 0.
Proof.
  intros s t. pose proof (vectors_wf 0x7f 0x01 0) as Hs. split; [exact Hs|].
  destruct (vector_saturation BarePpu.cfg BarePpu.op345 s Hs) as [E _].
  split; [exact E|]. vm_compute. repeat split; congruence.
Defined.
