(* ===== verification/PpuVecSum.v ===== *)
(** * Saturating sums of products

    The multiply-sums, high multiply-adds and sums across of the AltiVec unit.  The NEON
    sequences take detours (a product that saturates on its own, a sum of products that
    wraps); the results and VSCR's SAT are those of the exact sums. *)

From Stdlib Require Import ZArith Lia Bool.
From stdpp Require Import base numbers list.
From S2P Require Import Prelude V128 BitField PpuOpcodes PpuThread Neon PpuVec PpuInterp PpuWf PpuVecSat.
Import ppu_opcode_t Vec.

(** ** Elements *)

(** [by_index]: a goal about one of four elements, for each of them. *)
Ltac by_index i :=
  let E := fresh "E" in
  match goal with H : 0 <= i < 4 |- _ =>
    assert (i = 0 \/ i = 1 \/ i = 2 \/ i = 3) as [E|[E|[E|E]]] by lia; clear H; subst i
  end.
Ltac half_lanes :=
  repeat first [ rewrite lane_build by lia | rewrite (lane_vget_low 32 2) by lia | rewrite (lane_vget_high 32 2) by lia
               | rewrite (lane_vget_low 16 4) by lia | rewrite (lane_vget_high 16 4) by lia
               | rewrite (lane_vget_low 8 8) by lia | rewrite (lane_vget_high 8 8) by lia ].

Ltac index i := lazymatch i with Z0 => fail | Zpos _ => fail | Zneg _ => fail | _ => let v := eval vm_compute in i in change i with v end.
Ltac indices :=
  repeat match goal with
  | |- context [lane _ ?i _] => index i
  | |- context [slane _ ?i _] => index i
  | |- context [if ?c then _ else _] =>
      let v := eval vm_compute in c in first [constr_eq v true | constr_eq v false]; change c with v; cbv iota
  end.
Ltac elements := repeat (progress (indices; half_lanes)).

Lemma wrap_add_both w x y : wrap w (wrap w x + wrap w y) = wrap w (x + y).
Proof. rewrite wrap_add_l, wrap_add_r. reflexivity. Qed.

Lemma lane_dots16x2 a b i :
  0 <= i < 4 -> lane 32 i (gv_dots16x2 a b) =
  u32 (slane 16 (2 * i) a * slane 16 (2 * i) b + slane 16 (2 * i + 1) a * slane 16 (2 * i + 1) b).
Proof.
  intros Hi. unfold gv_dots16x2. cbv zeta. rewrite (lane_vcombine 32 2) by lia. unfold vpadd, vmull_s, slane.
  change (dlanes 32) with 2%nat. change (nlanes (2 * 16)) with 4%nat. change (2 * 16) with 32.
  by_index i; elements; apply wrap_add_both.
Qed.

(** The exact sum of the products of halfwords [2 i] and [2 i + 1]. *)
Definition dot16 (a b i : Z) : Z := slane 16 (2 * i) a * slane 16 (2 * i) b + slane 16 (2 * i + 1) a * slane 16 (2 * i + 1) b.
Lemma s16_product x y : - 2 ^ 15 <= x < 2 ^ 15 -> - 2 ^ 15 <= y < 2 ^ 15 -> - 2 ^ 30 + 2 ^ 15 <= x * y <= 2 ^ 30.
Proof. change (2 ^ 15) with 32768. change (2 ^ 30) with 1073741824. nia. Qed.
Lemma dot16_range a b i : - 2 ^ 31 < dot16 a b i <= 2 ^ 31.
Proof.
  unfold dot16. pose proof (fun k x => slane_range 16 k x ltac:(lia)) as Hr.
  pose proof (s16_product _ _ (Hr (2 * i) a) (Hr (2 * i) b)). pose proof (s16_product _ _ (Hr (2 * i + 1) a) (Hr (2 * i + 1) b)). lia.
Qed.

Lemma lane_select w i p m x y :
  0 < w -> 0 <= i -> lane w i m = wrap w (mask_of p) -> lane w i (vbslq m x y) = if p then lane w i x else lane w i y.
Proof.
  intros Hw Hi Hm. unfold vbslq. rewrite lane_lor, lane_land, lane_ldiff, Hm by lia.
  pose proof (lane_wrap w i x ltac:(lia)) as Ex. destruct p; cbn [mask_of].
  - change (-1) with (Z.lnot 0). rewrite <- Ex, <- (lane_wrap w i y) by lia. bits.
  - rewrite wrap_small by (apply zero_range; lia). rewrite Z.land_0_l, Z.ldiff_0_r. reflexivity.
Qed.

(** Flipping the top bit of a negative number adds [2^31]. *)
Lemma flip_top y : in_range 31 y -> Z.lxor (y + 2 ^ 31) (2 ^ 31) = y.
Proof.
  intros Hy. rewrite (Z.add_nocarry_lxor y (2 ^ 31)).
  - rewrite Z.lxor_assoc, Z.lxor_nilpotent, Z.lxor_0_r. reflexivity.
  - apply Z.bits_inj'. intros k Hk. rewrite Z.land_spec, Z.bits_0, Z.pow2_bits_eqb by lia.
    destruct (Z.eqb_spec 31 k) as [<-|]; [|apply andb_false_r]. rewrite (testbit_high 31); auto; lia.
Qed.

(** A sum of products that wrapped to [-2^31] was [2^31]. *)
Lemma wrapped_sum_sat d c :
  - 2 ^ 31 < d <= 2 ^ 31 -> - 2 ^ 31 <= c < 2 ^ 31 ->
  (if u32 d =? u32 0x80000000 then if c <? 0 then Z.lxor (u32 c) (u32 0x80000000) else u32 0x7fffffff
   else u32 (ssat 32 (sint 32 (u32 d) + c))) = u32 (ssat 32 (c + d)).
Proof.
  intros Hd Hc. assert (d = 2 ^ 31 \/ - 2 ^ 31 < d < 2 ^ 31) as [-> | Hd'] by lia.
  - change (u32 (2 ^ 31) =? u32 0x80000000) with true. cbv iota. destruct (Z.ltb_spec c 0).
    + assert (u32 c = (c + 2 ^ 31) + 2 ^ 31) as ->.
      { rewrite <- (wrap_small 32 (c + 2 ^ 31 + 2 ^ 31)) by (unfold in_range; lia). unfold wrap.
        replace (c + 2 ^ 31 + 2 ^ 31) with (c + 1 * 2 ^ 32) by lia. rewrite Z.mod_add by lia. reflexivity. }
      change (u32 0x80000000) with (2 ^ 31). rewrite flip_top by (unfold in_range; lia).
      rewrite (proj2 (ssat_fits 32 _ ltac:(lia))), wrap_small by (unfold in_range; lia). reflexivity.
    + f_equal. unfold ssat. change (32 - 1) with 31. lia.
  - rewrite sint_wrap, sint_small by (cbn; lia).
    destruct (Z.eqb_spec (u32 d) (u32 0x80000000)) as [E|_]; [exfalso|f_equal; f_equal; lia].
    apply wrap_inj in E; lia.
Qed.

Lemma lane_dots_s16x2 a b c i :
  0 <= i < 4 -> lane 32 i (gv_dots_s16x2 a b c) = u32 (ssat 32 (slane 32 i c + dot16 a b i)).
Proof.
  intros Hi. assert (0 <= i < Z.of_nat (nlanes 32)) as Hi' by exact Hi. unfold gv_dots_s16x2. cbv zeta.
  rewrite <- wrapped_sum_sat by (apply dot16_range || apply (slane_range 32); lia).
  unfold gv_select32. rewrite (lane_select 32 i (lane 32 i (gv_dots16x2 a b) =? u32 0x80000000)).
  - rewrite (lane_select 32 i (slane 32 i c <? 0)).
    + rewrite lane_dots16x2 by exact Hi. fold (dot16 a b i). unfold gv_xor32, gv_bcst32, gv_adds_s32. neon_unfold.
      rewrite lane_lxor, !lane_splat, lane_map2, lane_dots16x2 by (exact Hi || exact Hi' || lia).
      fold (dot16 a b i). rewrite wrap_slane by lia. reflexivity.
    + lia.
    + lia.
    + unfold gv_gts32, gv_bcst32. neon_unfold. rewrite lane_map2, lane_splat by exact Hi'. reflexivity.
  - lia.
  - lia.
  - unfold gv_eq32, gv_bcst32. neon_unfold. rewrite lane_map2, lane_splat by exact Hi'. reflexivity.
Qed.

(** Eight signed or unsigned bytes, in groups of four. *)
Definition sum_s8 (a i : Z) : Z := slane 8 (4 * i) a + slane 8 (4 * i + 1) a + slane 8 (4 * i + 2) a + slane 8 (4 * i + 3) a.
Definition sum_u8 (a i : Z) : Z := lane 8 (4 * i) a + lane 8 (4 * i + 1) a + lane 8 (4 * i + 2) a + lane 8 (4 * i + 3) a.
Lemma sum_s8_range a i : - 512 <= sum_s8 a i <= 508.
Proof.
  unfold sum_s8. pose proof (fun k => slane_range 8 k a ltac:(lia)) as Hr. cbn in Hr.
  pose proof (Hr (4 * i)). pose proof (Hr (4 * i + 1)). pose proof (Hr (4 * i + 2)). pose proof (Hr (4 * i + 3)). lia.
Qed.
Lemma sum_u8_range a i : 0 <= sum_u8 a i <= 1020.
Proof.
  unfold sum_u8. pose proof (fun k => lane_range 8 k a ltac:(lia)) as Hr. unfold in_range in Hr. cbn in Hr.
  pose proof (Hr (4 * i)). pose proof (Hr (4 * i + 1)). pose proof (Hr (4 * i + 2)). pose proof (Hr (4 * i + 3)). lia.
Qed.

Lemma lane_pairs_s8 a j : 0 <= j < 8 -> slane 16 j (vpaddlq_s 8 a) = slane 8 (2 * j) a + slane 8 (2 * j + 1) a.
Proof.
  intros Hj. unfold slane at 1, vpaddlq_s. change (nlanes (2 * 8)) with 8%nat. change (2 * 8) with 16.
  rewrite lane_build by lia. pose proof (slane_range 8 (2 * j) a ltac:(lia)) as H1. pose proof (slane_range 8 (2 * j + 1) a ltac:(lia)) as H2.
  cbn in H1, H2. rewrite sint_wrap, sint_small by (cbn; lia). reflexivity.
Qed.
Lemma lane_pairs_u8 a j : 0 <= j < 8 -> lane 16 j (vpaddlq_u 8 a) = lane 8 (2 * j) a + lane 8 (2 * j + 1) a.
Proof.
  intros Hj. unfold vpaddlq_u. change (nlanes (2 * 8)) with 8%nat. change (2 * 8) with 16.
  rewrite lane_build by lia. pose proof (lane_range 8 (2 * j) a ltac:(lia)) as H1. pose proof (lane_range 8 (2 * j + 1) a ltac:(lia)) as H2.
  unfold in_range in *. cbn in H1, H2. apply wrap_small. unfold in_range. cbn. lia.
Qed.

Lemma lane_hadds8x4 a c i : 0 <= i < 4 -> lane 32 i (gv_hadds8x4 a c) = u32 (slane 32 i c + sum_s8 a i).
Proof.
  intros Hi. unfold gv_hadds8x4, vaddq. rewrite lane_map2 by exact Hi. unfold vpaddlq_s at 1.
  change (nlanes (2 * 16)) with 4%nat. change (2 * 16) with 32. rewrite lane_build, !lane_pairs_s8 by lia.
  rewrite wrap_add_l, <- (wrap_add_r 32 _ (lane 32 i c)), <- (wrap_slane 32 i c), wrap_wrap, wrap_add_r by lia.
  f_equal. unfold sum_s8. replace (2 * (2 * i)) with (4 * i) by lia. replace (2 * (2 * i + 1)) with (4 * i + 2) by lia.
  replace (4 * i + 2 + 1) with (4 * i + 3) by lia. lia.
Qed.
Lemma lane_haddu8x4 a i : 0 <= i < 4 -> lane 32 i (gv_haddu8x4 a) = sum_u8 a i.
Proof.
  intros Hi. unfold gv_haddu8x4. unfold vpaddlq_u at 1.
  change (nlanes (2 * 16)) with 4%nat. change (2 * 16) with 32. rewrite lane_build, !lane_pairs_u8 by lia.
  replace (2 * (2 * i)) with (4 * i) by lia. replace (2 * (2 * i + 1)) with (4 * i + 2) by lia.
  replace (4 * i + 2 + 1) with (4 * i + 3) by lia. rewrite wrap_small; [unfold sum_u8; lia|].
  pose proof (sum_u8_range a i) as Hr. unfold sum_u8 in Hr. unfold in_range. cbn. lia.
Qed.
Lemma lane_hadds16x2 a c i :
  0 <= i < 4 -> lane 32 i (gv_hadds16x2 a c) = u32 (slane 32 i c + (slane 16 (2 * i) a + slane 16 (2 * i + 1) a)).
Proof.
  intros Hi. unfold gv_hadds16x2, vaddq. rewrite lane_map2 by exact Hi. unfold vpaddlq_s.
  change (nlanes (2 * 16)) with 4%nat. change (2 * 16) with 32. rewrite lane_build by lia.
  rewrite wrap_add_l, <- (wrap_add_r 32 _ (lane 32 i c)), <- (wrap_slane 32 i c), wrap_wrap, wrap_add_r by lia. f_equal. lia.
Qed.

(** The products with one. *)
Lemma lane_unit_products (half : Z -> Z) k a j :
  (forall x t, 0 <= t < 8 -> lane 8 t (half x) = lane 8 (k + t) x) -> 0 <= k + j < 16 -> 0 <= j < 8 ->
  slane 16 j (vmulq 16 (vmovl_u 8 (half (gv_bcst8 1))) (vmovl_s 8 (half a))) = slane 8 (k + j) a.
Proof.
  intros Hh Hk Hj. unfold slane at 1, vmulq. rewrite lane_map2 by exact Hj. unfold vmovl_u, vmovl_s.
  change (nlanes (2 * 8)) with 8%nat. change (2 * 8) with 16. rewrite !lane_build by lia. unfold slane.
  rewrite !Hh by exact Hj. unfold gv_bcst8, vdupq_n. rewrite lane_splat by (exact Hk). change (u16 (u8 1)) with 1.
  rewrite Z.mul_1_l, wrap_wrap, sint_wrap by lia. pose proof (slane_range 8 (k + j) a ltac:(lia)) as Hr. unfold slane in Hr. cbn in Hr.
  apply sint_small; cbn; lia.
Qed.
Lemma lane_dot_units a i : 0 <= i < 4 -> lane 32 i (dot_u8s8 (gv_bcst8 1) a) = u32 (sum_s8 a i).
Proof.
  intros Hi. unfold dot_u8s8. cbv zeta. unfold vaddq. rewrite lane_map2 by exact Hi.
  set (l := vpaddlq_s 16 (vmulq 16 (vmovl_u 8 (vget_low _)) _)). set (h := vpaddlq_s 16 (vmulq 16 (vmovl_u 8 (vget_high _)) _)).
  assert (forall j, 0 <= j < 4 -> lane 32 j l = u32 (slane 8 (2 * j) a + slane 8 (2 * j + 1) a)) as Hl.
  { intros j Hj. unfold l, vpaddlq_s. change (nlanes (2 * 16)) with 4%nat. change (2 * 16) with 32. rewrite lane_build by lia.
    rewrite !(lane_unit_products vget_low 0) by (lia || (intros; rewrite (lane_vget_low 8 8) by lia; reflexivity)). reflexivity. }
  assert (forall j, 0 <= j < 4 -> lane 32 j h = u32 (slane 8 (8 + 2 * j) a + slane 8 (8 + (2 * j + 1)) a)) as Hh.
  { intros j Hj. unfold h, vpaddlq_s. change (nlanes (2 * 16)) with 4%nat. change (2 * 16) with 32. rewrite lane_build by lia.
    rewrite !(lane_unit_products vget_high 8) by (lia || (intros; rewrite (lane_vget_high 8 8) by lia; reflexivity)). reflexivity. }
  clearbody l h. unfold vuzp1q, vuzp2q, unzip, sum_s8. change (nlanes 32) with 4%nat. rewrite !lane_build by lia.
  cbv zeta. by_index i; indices; rewrite ?Hl, ?Hh, !wrap_wrap, wrap_add_both by lia; f_equal; indices; lia.
Qed.

(** ** Unsigned sums of products *)

Definition dotu16 (a b i : Z) : Z := lane 16 (2 * i) a * lane 16 (2 * i) b + lane 16 (2 * i + 1) a * lane 16 (2 * i + 1) b.

Lemma lor_full x : in_range 32 x -> Z.lor x (u32 (-1)) = u32 (-1).
Proof. intros Hx. rewrite <- (wrap_small 32 x Hx). change (u32 (-1)) with (Z.ones 32). bits. Qed.

(** Two additions with saturation by masks of ones. *)
Lemma masked_add_sat m1 m2 c :
  in_range 32 m1 -> in_range 32 m2 -> in_range 32 c ->
  let s1 := u32 (m1 + m2) in let x1 := u32 (mask_of (s1 <? m1)) in
  let s2 := Z.lor (u32 (s1 + c)) x1 in let x2 := u32 (mask_of (s2 <? s1)) in
  Z.lor s2 x2 = u32 (usat 32 (c + (m1 + m2))) /\ (Z.lor x1 x2 = 0 <-> usat 32 (c + (m1 + m2)) = c + (m1 + m2)).
Proof.
  intros H1 H2 Hc s1 x1 s2 x2. unfold in_range in *. rewrite usat_fits by lia.
  destruct (Z.lt_ge_cases (m1 + m2) (2 ^ 32)) as [Hs|Hs].
  - assert (s1 = m1 + m2) as E1 by (apply wrap_small; unfold in_range; lia).
    assert (x1 = 0) as X1 by (unfold x1; destruct (Z.ltb_spec s1 m1); [lia|reflexivity]).
    assert (s2 = u32 (s1 + c)) as E2 by (unfold s2; rewrite X1; apply Z.lor_0_r). rewrite X1, Z.lor_0_l.
    destruct (Z.lt_ge_cases (c + (m1 + m2)) (2 ^ 32)) as [Ht|Ht].
    + rewrite wrap_small in E2 by (unfold in_range; lia). unfold x2. destruct (Z.ltb_spec s2 s1); [lia|].
      change (u32 (mask_of false)) with 0. rewrite Z.lor_0_r, (proj2 (usat_fits 32 _ ltac:(lia))), wrap_small by (unfold in_range; lia). lia.
    + assert (u32 (s1 + c) = s1 + c - 2 ^ 32) as E by (symmetry; apply (Z.mod_unique _ _ 1); lia).
      unfold x2. destruct (Z.ltb_spec s2 s1); [|lia]. change (mask_of true) with (-1).
      rewrite lor_full by (unfold in_range; lia). split; [unfold usat; replace (Z.max _ _) with (2 ^ 32 - 1) by lia; reflexivity|].
      change (u32 (-1)) with (2 ^ 32 - 1). lia.
  - assert (s1 = m1 + m2 - 2 ^ 32) as E1 by (symmetry; apply (Z.mod_unique _ _ 1); lia).
    assert (x1 = u32 (-1)) as X1 by (unfold x1; destruct (Z.ltb_spec s1 m1); [reflexivity|lia]).
    assert (s2 = u32 (-1)) as E2 by (unfold s2; rewrite X1; apply lor_full, wrap_range; lia).
    assert (x2 = 0) as X2 by (unfold x2; rewrite E2; change (u32 (-1)) with (2 ^ 32 - 1); destruct (Z.ltb_spec (2 ^ 32 - 1) s1); [lia|reflexivity]).
    rewrite E2, X1, X2, !Z.lor_0_r. split; [unfold usat; replace (Z.max _ _) with (2 ^ 32 - 1) by lia; reflexivity|].
    change (u32 (-1)) with (2 ^ 32 - 1). lia.
Qed.

(** ** High multiply-adds *)

(** [P] is the exact product part; only [2^15], of two times [-2^15], does not fit. *)
Lemma high_muladd_element P c :
  - 2 ^ 15 <= P <= 2 ^ 15 -> - 2 ^ 15 <= c < 2 ^ 15 ->
  let x := u16 (mask_of (P =? 2 ^ 15)) in let f := u16 (mask_of (c <? 0)) in
  let r := u16 (u16 (ssat 16 (ssat 16 P + c)) - Z.land x f) in
  r = u16 (ssat 16 (c + P)) /\
  (Z.lor (Z.ldiff x f) (Z.ldiff (Z.lxor (u16 (ssat 16 P + c)) r) x) = 0 <-> ssat 16 (c + P) = c + P).
Proof.
  intros HP Hc x f r. rewrite Z.lor_eq_0_iff, ssat_fits by lia. change (2 ^ (16 - 1)) with (2 ^ 15).
  destruct (Z.eqb_spec P (2 ^ 15)) as [-> | Hne].
  - change (ssat 16 (2 ^ 15)) with (2 ^ 15 - 1) in *. change x with (Z.ones 16) in *.
    assert (forall y, in_range 16 y -> Z.ldiff y (Z.ones 16) = 0) as Hd by (intros y Hy; rewrite <- (wrap_small 16 y Hy); bits).
    rewrite (Hd (Z.lxor _ r)) by (apply lxor_range; apply wrap_range || lia; lia).
    destruct (Z.ltb_spec c 0).
    + change f with (Z.ones 16) in *. rewrite (proj2 (ssat_fits 16 (c + 2 ^ 15) ltac:(lia))), Hd by (apply ones_range || cbn; lia).
      split; [|lia]. unfold r. change (Z.land (Z.ones 16) (Z.ones 16)) with (2 ^ 16 - 1).
      rewrite (proj2 (ssat_fits 16 (2 ^ 15 - 1 + c) ltac:(lia))), wrap_sub_l by (cbn; lia).
      replace (2 ^ 15 - 1 + c - (2 ^ 16 - 1)) with (c + 2 ^ 15 + (-1) * 2 ^ 16) by lia. unfold wrap. apply Z.mod_add. lia.
    + change f with 0 in *. unfold r. rewrite Z.land_0_r, Z.sub_0_r, wrap_wrap, Z.ldiff_0_r by lia. split; [f_equal; unfold ssat; change (16 - 1) with 15; lia|].
      change (Z.ones 16) with 65535. lia.
  - change x with 0 in *. unfold r. rewrite Z.land_0_l, Z.sub_0_r, wrap_wrap, Z.ldiff_0_l, Z.ldiff_0_r, Z.lxor_eq_0_iff by lia.
    rewrite (proj2 (ssat_fits 16 P ltac:(lia))), (Z.add_comm P) by (cbn; lia). split; [reflexivity|].
    rewrite <- (ssat_fits 16 (c + P)) by lia. split; [|intros ->; auto].
    intros [_ E]. symmetry in E. apply wrap_ssat_eq in E; [exact E|lia|lia].
Qed.

(** ** Handlers *)

Section Sums.
Context (cfg : ppu_config).

Lemma clamps_lanes w clamp F op s r x `{LaneWidth w} :
  wf s -> in_range 128 r -> in_range 128 x ->
  (forall i, 0 <= i < Z.of_nat (nlanes w) -> lane w i r = wrap w (clamp (F i)) /\ (lane w i x = 0 <-> clamp (F i) = F i)) ->
  clamps cfg w clamp F op s (set_vr (vd op) r (add_sat cfg x s)).
Proof.
  intros Hs Hr Hx Hl. apply clamps_intro; [assumption|exact Hs|exact Hx| |].
  - apply (build_eq w); [exact Hr|]. intros i Hi. apply (Hl i Hi).
  - rewrite (vec_zero w) by exact Hx. split; intros E i Hi; apply (Hl i Hi); auto.
Qed.

(** Two elements agree when their difference fits the width. *)
Lemma xor_lanes32 F r t :
  (forall i, 0 <= i < 4 -> lane 32 i r = u32 (ssat 32 (F i))) -> (forall i, 0 <= i < 4 -> lane 32 i t = u32 (F i)) ->
  (forall i, - 2 ^ 32 <= F i < 2 ^ 32) ->
  forall i, 0 <= i < 4 -> lane 32 i r = u32 (ssat 32 (F i)) /\ (lane 32 i (gv_xor32 t r) = 0 <-> ssat 32 (F i) = F i).
Proof.
  intros Hr Ht HF i Hi. split; [auto|]. unfold gv_xor32, veorq. rewrite lane_lxor, Z.lxor_eq_0_iff, Hr, Ht by lia.
  split; [|intros ->; reflexivity]. intros E. apply wrap_ssat_eq; [lia|apply HF|auto].
Qed.

Lemma dots_s16x2_range a b c : in_range 128 c -> in_range 128 (gv_dots_s16x2 a b c).
Proof. intros. gv_range; assumption. Qed.

Lemma VMSUMSHS_clamps op s :
  wf s -> let A := get_vr s (va op) in let B := get_vr s (vb op) in let C := get_vr s (vc op) in
  clamps cfg 32 (ssat 32) (fun i => slane 32 i C + dot16 A B i) op s (VMSUMSHS cfg op s).
Proof.
  intros Hs A B C. unfold VMSUMSHS. cbv zeta. fold A B C.
  assert (in_range 128 (gv_dots_s16x2 A B C)) as Hr by (apply dots_s16x2_range, get_vr_range, Hs).
  assert (in_range 128 (gv_dots16x2_acc A B C)) as Ht by apply map2_range.
  apply clamps_lanes; [typeclasses eauto|exact Hs|exact Hr|apply lxor128_range; assumption|].
  change (Z.of_nat (nlanes 32)) with 4. apply xor_lanes32.
  - intros i Hi. apply lane_dots_s16x2. exact Hi.
  - intros i Hi. unfold gv_dots16x2_acc, gv_add32, mm_add_epi32. rewrite lane_map2 by exact Hi.
    rewrite lane_dots16x2, wrap_add_r, <- (wrap_slane 32 i C), wrap_add_l by lia. reflexivity.
  - intros i. pose proof (dot16_range A B i). pose proof (slane_range 32 i C ltac:(lia)) as Hc. cbn in Hc. lia.
Qed.

Lemma VSUM4SHS_clamps op s :
  wf s -> let A := get_vr s (va op) in let B := get_vr s (vb op) in
  clamps cfg 32 (ssat 32) (fun i => slane 32 i B + (slane 16 (2 * i) A + slane 16 (2 * i + 1) A)) op s (VSUM4SHS cfg op s).
Proof.
  intros Hs A B. unfold VSUM4SHS, saturating. cbv zeta. fold A B.
  assert (in_range 128 (gv_dots_s16x2 A (gv_bcst16 1) B)) as Hr by (apply dots_s16x2_range, get_vr_range, Hs).
  apply clamps_lanes; [typeclasses eauto|exact Hs|exact Hr|apply lxor128_range; [apply map2_range|exact Hr]|].
  change (Z.of_nat (nlanes 32)) with 4. apply xor_lanes32.
  - intros i Hi. rewrite lane_dots_s16x2 by exact Hi. unfold dot16, slane, gv_bcst16, vdupq_n.
    rewrite !lane_splat by (change (Z.of_nat (nlanes 16)) with 8; lia). change (s16 (u16 1)) with 1. rewrite !Z.mul_1_r. reflexivity.
  - intros i Hi. apply lane_hadds16x2. exact Hi.
  - intros i. pose proof (slane_range 16 (2 * i) A ltac:(lia)) as H1. pose proof (slane_range 16 (2 * i + 1) A ltac:(lia)) as H2.
    pose proof (slane_range 32 i B ltac:(lia)) as Hc. cbn in H1, H2, Hc. lia.
Qed.

Lemma VSUM4SBS_clamps op s :
  wf s -> let A := get_vr s (va op) in let B := get_vr s (vb op) in
  clamps cfg 32 (ssat 32) (fun i => slane 32 i B + sum_s8 A i) op s (VSUM4SBS cfg op s).
Proof.
  intros Hs A B. unfold VSUM4SBS, saturating. cbv zeta. fold A B.
  assert (in_range 128 (gv_dots_u8s8x4 (gv_bcst8 1) A B)) as Hr by apply map2_range.
  apply clamps_lanes; [typeclasses eauto|exact Hs|exact Hr|apply lxor128_range; [apply map2_range|exact Hr]|].
  change (Z.of_nat (nlanes 32)) with 4. apply xor_lanes32.
  - intros i Hi. unfold gv_dots_u8s8x4, vqaddq_s, smap2. rewrite lane_map2, lane_dot_units, sint_wrap by (exact Hi || lia).
    pose proof (sum_s8_range A i). rewrite (sint_small 32 (sum_s8 A i)) by (cbn; lia). reflexivity.
  - intros i Hi. apply lane_hadds8x4. exact Hi.
  - intros i. pose proof (sum_s8_range A i). pose proof (slane_range 32 i B ltac:(lia)) as Hc. cbn in Hc. lia.
Qed.

Lemma VSUM4UBS_clamps op s :
  wf s -> let A := get_vr s (va op) in let B := get_vr s (vb op) in
  clamps cfg 32 (usat 32) (fun i => sum_u8 A i + lane 32 i B) op s (VSUM4UBS cfg op s).
Proof.
  intros Hs A B. unfold VSUM4UBS. apply saturating_clamps; [typeclasses eauto|exact Hs|..]; fold A B.
  - apply (build_eq 32); [apply map2_range|]. intros i Hi. unfold gv_addus_u32, vqaddq_u. rewrite lane_map2, lane_haddu8x4 by exact Hi. reflexivity.
  - apply (build_eq 32); [apply map2_range|]. intros i Hi. unfold gv_add32, mm_add_epi32. rewrite lane_map2, lane_haddu8x4 by exact Hi. reflexivity.
  - intros i Hi. apply wrap_usat_eq; [lia|]. pose proof (sum_u8_range A i). pose proof (lane_range 32 i B ltac:(lia)) as Hb.
    unfold in_range in Hb. lia.
Qed.

Lemma lane_mul_even_u16 a b i : 0 <= i < 4 -> lane 32 i (gv_mul_even_u16 a b) = lane 16 (2 * i) a * lane 16 (2 * i) b.
Proof.
  intros Hi. unfold gv_mul_even_u16, gv_mul32, vmulq, gv_and32, vandq, gv_bcst32, vdupq_n. cbv zeta.
  rewrite lane_map2, !lane_land, !lane_splat by (exact Hi || lia). change (u32 0xffff) with (Z.ones 16).
  assert (forall x, Z.land (lane 32 i x) (Z.ones 16) = lane 16 (2 * i) x) as E.
  { intros x. rewrite Z.land_ones by lia. change 32 with (2 * 16). rewrite (lane_double 16), (Z.mul_comm (2 ^ 16)), Z.mod_add by lia. apply lane_wrap. lia. }
  rewrite !E. apply wrap_small. pose proof (lane_range 16 (2 * i) a ltac:(lia)). pose proof (lane_range 16 (2 * i) b ltac:(lia)).
  unfold in_range in *. nia.
Qed.
Lemma lane_mul_odds_u16 a b i : 0 <= i < 4 -> lane 32 i (gv_mul_odds_u16 a b) = lane 16 (2 * i + 1) a * lane 16 (2 * i + 1) b.
Proof.
  intros Hi. unfold gv_mul_odds_u16, gv_mul32, vmulq. rewrite lane_map2 by exact Hi.
  assert (forall x, lane 32 i (gv_shr32 x 16) = lane 16 (2 * i + 1) x) as E.
  { intros x. unfold gv_shr32. change (32 <=? 16) with false. cbv iota. rewrite (lane_shr_n 32) by (exact Hi || lia || typeclasses eauto).
    rewrite Z.shiftr_div_pow2 by lia. change 32 with (2 * 16). rewrite (lane_double 16), (Z.mul_comm (2 ^ 16)), Z.div_add by lia.
    rewrite Z.div_small; [lia|]. apply lane_range. lia. }
  rewrite !E. apply wrap_small. pose proof (lane_range 16 (2 * i + 1) a ltac:(lia)). pose proof (lane_range 16 (2 * i + 1) b ltac:(lia)).
  unfold in_range in *. nia.
Qed.

Lemma VMSUMUHS_clamps op s :
  wf s -> let A := get_vr s (va op) in let B := get_vr s (vb op) in let C := get_vr s (vc op) in
  clamps cfg 32 (usat 32) (fun i => lane 32 i C + dotu16 A B i) op s (VMSUMUHS cfg op s).
Proof.
  intros Hs A B C. unfold VMSUMUHS. cbv zeta. fold A B C.
  apply clamps_lanes; [typeclasses eauto|exact Hs|gv_range..|].
  intros i Hi. assert (0 <= i < 4) as Hi' by exact Hi.
  set (m1 := gv_mul_even_u16 A B). set (m2 := gv_mul_odds_u16 A B).
  assert (dotu16 A B i = lane 32 i m1 + lane 32 i m2) as -> by (unfold m1, m2; rewrite lane_mul_even_u16, lane_mul_odds_u16 by exact Hi'; reflexivity).
  unfold gv_or32, vorrq, gv_gtu32, gv_add32, mm_add_epi32.
  repeat first [rewrite lane_lor by lia | rewrite lane_map2 by exact Hi].
  apply masked_add_sat; apply lane_range; lia.
Qed.

(** Only [-2^15] times itself leaves the range, with and without rounding. *)
Lemma corner x y :
  - 2 ^ 15 <= x < 2 ^ 15 -> - 2 ^ 15 <= y < 2 ^ 15 -> 2 ^ 30 - 2 ^ 15 < x * y <-> Z.max x y = - 2 ^ 15.
Proof. change (2 ^ 15) with 32768. change (2 ^ 30) with 1073741824. nia. Qed.
Lemma high_product x y k :
  - 2 ^ 15 <= x < 2 ^ 15 -> - 2 ^ 15 <= y < 2 ^ 15 -> 0 <= k < 2 ^ 15 ->
  let P := Z.shiftr (x * y + k) 15 in - 2 ^ 15 <= P <= 2 ^ 15 /\ (u16 (Z.max x y) =? u16 0x8000) = (P =? 2 ^ 15).
Proof.
  intros Hx Hy Hk P. pose proof (s16_product x y Hx Hy) as Hp. pose proof (corner x y Hx Hy) as Hc.
  assert (P * 2 ^ 15 <= x * y + k < P * 2 ^ 15 + 2 ^ 15) as HP by (unfold P; rewrite Z.shiftr_div_pow2 by lia; Z.div_mod_to_equations; lia).
  split; [lia|]. apply eq_iff_eq_true. rewrite !Z.eqb_eq. transitivity (Z.max x y = - 2 ^ 15).
  - split; [|intros ->; reflexivity]. intros E. apply (wrap_inj 16); [rewrite E; reflexivity|lia].
  - assert (x * y <= 2 ^ 30) by lia. rewrite <- Hc. split; intros; [|lia].
    assert (x * y = 2 ^ 30) by (apply Hc in H0; assert (x = - 2 ^ 15 /\ y = - 2 ^ 15) as [-> ->] by lia; reflexivity). lia.
Qed.

Lemma high_muladd_clamps (m : Z -> Z -> Z) k op s :
  0 <= k < 2 ^ 15 -> wf s -> let A := get_vr s (va op) in let B := get_vr s (vb op) in let C := get_vr s (vc op) in
  in_range 128 (m A B) ->
  (forall i, 0 <= i < 8 -> lane 16 i (m A B) = u16 (ssat 16 (Z.shiftr (slane 16 i A * slane 16 i B + k) 15))) ->
  clamps cfg 16 (ssat 16) (fun i => slane 16 i C + Z.shiftr (slane 16 i A * slane 16 i B + k) 15) op s (high_muladd cfg (m A B) op s).
Proof.
  intros Hk Hs A B C Hm Hl. unfold high_muladd. cbv zeta. fold A B C.
  assert (in_range 128 C) by apply get_vr_range, Hs.
  apply clamps_lanes; [typeclasses eauto|exact Hs|gv_range; auto..|].
  intros i Hi. assert (0 <= i < 8) as Hi' by exact Hi. pose proof (slane_range 16 i A ltac:(lia)) as Ha. pose proof (slane_range 16 i B ltac:(lia)) as Hb.
  pose proof (slane_range 16 i C ltac:(lia)) as Hc. destruct (high_product _ _ k Ha Hb Hk) as [HP E].
  destruct (high_muladd_element _ _ HP Hc) as [E1 E2].
  unfold gv_or32, gv_andn32, gv_xor32, gv_and32, gv_sub16, mm_sub_epi16, gv_add16, mm_add_epi16, gv_gts16, gv_eq16, gv_maxs16, gv_adds_s16, gv_bcst16.
  neon_unfold.
  repeat first [rewrite lane_lor by lia | rewrite lane_ldiff by lia | rewrite lane_lxor by lia | rewrite lane_land by lia
               | rewrite lane_map2 by exact Hi | rewrite lane_splat by exact Hi].
  fold (slane 16 i A) (slane 16 i B) (slane 16 i C). rewrite (Hl i Hi'), E, !sint_wrap by lia.
  change (s16 0) with 0. pose proof (ssat_range 16 (Z.shiftr (slane 16 i A * slane 16 i B + k) 15) ltac:(lia)).
  rewrite (sint_small 16 (ssat 16 _)) by lia. rewrite <- (wrap_slane 16 i C), wrap_add_both by lia. split; assumption.
Qed.

Lemma shiftr_twice x k : Z.shiftr (2 * x + 2 * k) 16 = Z.shiftr (x + k) 15.
Proof. rewrite !Z.shiftr_div_pow2 by lia. change (2 ^ 16) with (2 * 2 ^ 15). rewrite <- Z.mul_add_distr_l. apply Z.div_mul_cancel_l; lia. Qed.

Lemma clamps_ext w clamp F G op s t : (forall i, F i = G i) -> clamps cfg w clamp F op s t -> clamps cfg w clamp G op s t.
Proof.
  intros E (v & Et & Hv & Hs). exists v. split; [|split; [exact Hv|]].
  - rewrite Et. f_equal. apply build_ext. intros i Hi. rewrite E. reflexivity.
  - destruct (set_sat cfg); [|exact Hs]. rewrite Hs. setoid_rewrite E. reflexivity.
Qed.

Lemma VMHADDSHS_clamps op s :
  wf s -> let A := get_vr s (va op) in let B := get_vr s (vb op) in let C := get_vr s (vc op) in
  clamps cfg 16 (ssat 16) (fun i => slane 16 i C + Z.shiftr (slane 16 i A * slane 16 i B) 15) op s (VMHADDSHS cfg op s).
Proof.
  intros Hs A B C. eapply clamps_ext; [|apply (high_muladd_clamps gv_muls_hds16 0); [lia|exact Hs|apply map2_range|]].
  - intros i. cbv beta. rewrite Z.add_0_r. reflexivity.
  - intros i Hi. unfold gv_muls_hds16, vqdmulhq_s, smap2. rewrite lane_map2 by exact Hi. f_equal. f_equal.
    rewrite <- shiftr_twice. f_equal. unfold slane. lia.
Qed.

Lemma VMHRADDSHS_clamps op s :
  wf s -> let A := get_vr s (va op) in let B := get_vr s (vb op) in let C := get_vr s (vc op) in
  clamps cfg 16 (ssat 16) (fun i => slane 16 i C + Z.shiftr (slane 16 i A * slane 16 i B + 2 ^ 14) 15) op s (VMHRADDSHS cfg op s).
Proof.
  intros Hs A B C. unfold VMHRADDSHS. destruct (set_sat cfg) eqn:Eset; cbn [negb].
  - apply (high_muladd_clamps gv_rmuls_hds16 (2 ^ 14)); [lia|exact Hs|apply map2_range|].
    intros i Hi. unfold gv_rmuls_hds16, vqrdmulhq_s, smap2. rewrite lane_map2 by exact Hi. f_equal. f_equal.
    rewrite <- shiftr_twice. f_equal. unfold slane. lia.
  - unfold clamps. rewrite Eset. exists (sat s). rewrite with_sat_same. split; [|split; [apply wf_sat, Hs|reflexivity]].
    unfold form_abc. fold A B C. f_equal. apply (build_ext 16 8). intros i Hi. f_equal. f_equal. rewrite <- shiftr_twice.
    rewrite !Z.shiftr_div_pow2, Z.shiftl_mul_pow2, <- Z.add_assoc, Z.add_comm, Z.div_add by lia. rewrite Z.add_comm. f_equal. f_equal. lia.
Qed.


(** The sum of two words of VA and one of VB. *)
Definition sum2 (a b j : Z) : Z := slane 32 (2 * j) b + (slane 32 (2 * j) a + slane 32 (2 * j + 1) a).
Lemma sum2_bounds a b j : - 3 * 2 ^ 31 <= sum2 a b j < 3 * 2 ^ 31.
Proof.
  unfold sum2. pose proof (slane_range 32 (2 * j) b ltac:(lia)). pose proof (slane_range 32 (2 * j) a ltac:(lia)).
  pose proof (slane_range 32 (2 * j + 1) a ltac:(lia)). lia.
Qed.

Lemma lane_even_words x k j : 0 <= j < 2 -> k = 0 \/ k = 1 -> lane 32 j (vget_low (unzip 32 k x x)) = lane 32 (2 * j + k) x.
Proof.
  intros Hj Hk. rewrite (lane_vget_low 32 2) by lia. unfold unzip. change (nlanes 32) with 4%nat. change (128 / 32) with 4.
  rewrite lane_build by lia. cbv zeta. destruct (Z.ltb_spec (2 * j + k) 4); [|lia]. apply lane_wrap. lia.
Qed.
#[local] Notation "'wide_sums' a b" :=
  (vaddw_s 32 (vaddl_s 32 (vget_low (vuzp1q 32 a a)) (vget_low (vuzp2q 32 a a))) (vget_low (vuzp1q 32 b b))) (at level 10, a at level 8, b at level 8).
Lemma lane_wide_sums a b j : 0 <= j < 2 -> lane 64 j (wide_sums a b) = u64 (sum2 a b j).
Proof.
  intros Hj. unfold vaddw_s, vaddl_s, vuzp1q, vuzp2q. change (nlanes (2 * 32)) with 2%nat. change (2 * 32) with 64.
  rewrite !lane_build by lia. unfold slane. rewrite !lane_even_words, wrap_add_l, Z.add_0_r by lia.
  f_equal. unfold sum2, slane. lia.
Qed.
Lemma lane_narrowed a b i :
  0 <= i < 4 -> lane 32 i (vmovl_u 32 (vqmovn_s 32 (wide_sums a b))) = u32 (ssat 32 (if Z.even i then sum2 a b (i / 2) else 0)).
Proof.
  intros Hi. set (n := vqmovn_s 32 (wide_sums a b)).
  assert (forall j, 0 <= j < 2 -> lane 64 j (vmovl_u 32 n) = u32 (ssat 32 (sum2 a b j))) as Hn.
  { intros j Hj. unfold vmovl_u. change (nlanes (2 * 32)) with 2%nat. change (2 * 32) with 64. rewrite lane_build by lia.
    rewrite (wrap_small 64) by (pose proof (lane_range 32 j n ltac:(lia)); unfold in_range in *; lia).
    unfold n, vqmovn_s. change (dlanes 32) with 2%nat. change (2 * 32) with 64. rewrite lane_build by lia. unfold slane.
    rewrite lane_wide_sums, sint_wrap by lia. pose proof (sum2_bounds a b j). rewrite sint_small by lia. reflexivity. }
  replace i with (2 * (i / 2) + i mod 2) at 1 by (pose proof (Z.div_mod i 2); lia).
  assert (0 <= i / 2 < 2) by (Z.div_mod_to_equations; lia). assert (0 <= i mod 2 < 2) by (Z.div_mod_to_equations; lia).
  rewrite <- (lane_half 32 2), Hn by lia.
  pose proof (wrap_range 32 (ssat 32 (sum2 a b (i / 2))) ltac:(lia)) as Hr. rewrite Zeven_mod. unfold lane.
  destruct (Z.eqb_spec (i mod 2) 0) as [-> | Hne].
  - rewrite Z.shiftr_0_r. apply wrap_wrap. lia.
  - replace (i mod 2) with 1 by lia. rewrite Z.shiftr_div_pow2, Z.div_small by (exact Hr || lia). reflexivity.
Qed.
Lemma lane_wide_lost a b j :
  0 <= j < 2 -> lane 64 j (gv_shr64 (gv_add64 (wide_sums a b) (gv_bcst64 0x80000000)) 32) = 0 <-> ssat 32 (sum2 a b j) = sum2 a b j.
Proof.
  intros Hj. unfold gv_shr64. change (64 <=? 32) with false. cbv iota. rewrite (lane_shr_n 64) by (exact Hj || lia || typeclasses eauto).
  unfold gv_add64, gv_bcst64, vaddq, vdupq_n. rewrite lane_map2, lane_splat, lane_wide_sums, wrap_add_both by exact Hj.
  rewrite ssat_fits, Z.shiftr_div_pow2 by lia. pose proof (sum2_bounds a b j). set (y := sum2 a b j) in *.
  change (2 ^ (32 - 1)) with (2 ^ 31). rewrite Z.div_small_iff by lia.
  destruct (Z.lt_ge_cases (y + 0x80000000) 0).
  - assert (u64 (y + 0x80000000) = y + 0x80000000 + 2 ^ 64) as -> by (symmetry; apply (Z.mod_unique _ _ (-1)); lia). lia.
  - rewrite wrap_small by (unfold in_range; lia). lia.
Qed.

Lemma VSUM2SWS_clamps op s :
  wf s -> let A := get_vr s (va op) in let B := get_vr s (vb op) in
  clamps cfg 32 (ssat 32) (fun i => if Z.even i then sum2 A B (i / 2) else 0) op s (VSUM2SWS cfg op s).
Proof.
  intros Hs A B. unfold VSUM2SWS. cbv zeta. fold A B.
  assert (in_range 128 (gv_shr64 (gv_add64 (wide_sums A B) (gv_bcst64 0x80000000)) 32)) as Hx by (apply map2_range).
  apply clamps_intro; [typeclasses eauto|exact Hs|exact Hx| |].
  - apply (build_eq 32); [apply (build128_range' 64); [lia|reflexivity]|]. intros i Hi. apply lane_narrowed. exact Hi.
  - rewrite (vec_zero 64) by exact Hx. split.
    + intros E i Hi. change (Z.of_nat (nlanes 32)) with 4 in Hi. destruct (Z.even i); [|reflexivity].
      assert (0 <= i / 2 < 2) as Hj by (Z.div_mod_to_equations; lia). apply lane_wide_lost; [exact Hj|apply E; exact Hj].
    + intros E j Hj. change (Z.of_nat (nlanes 64)) with 2 in Hj. apply lane_wide_lost; [exact Hj|].
      specialize (E (2 * j)). rewrite Z.even_mul, (Z.mul_comm 2), Z.div_mul in E by lia. apply E. change (Z.of_nat (nlanes 32)) with 4. lia.
Qed.

Lemma VSUMSWS_clamps op s :
  wf s -> let A := get_vr s (va op) in let B := get_vr s (vb op) in
  clamps cfg 32 (ssat 32)
    (fun i => if i =? 0 then slane 32 0 B + slane 32 0 A + slane 32 1 A + slane 32 2 A + slane 32 3 A else 0) op s (VSUMSWS cfg op s).
Proof.
  intros Hs A B. unfold VSUMSWS. cbv zeta. fold A B. set (sum := _ + slane 32 3 A).
  assert (forall r v, in_range 128 v -> r = ssat 32 sum -> (if set_sat cfg then v = 0 <-> sat s = 0 /\ r = sum else v = sat s) ->
    clamps cfg 32 (ssat 32) (fun i => if i =? 0 then sum else 0) op s (set_vr (vd op) (u32 r) (with_sat v s))) as Hgo.
  { intros r v Hv Hr Hsat. exists v. split; [|split; [exact Hv|]].
    - f_equal. apply (build_eq 32); [pose proof (wrap_range 32 r ltac:(lia)); unfold in_range in *; lia|]. intros i Hi. rewrite Hr.
      pose proof (wrap_range 32 (ssat 32 sum) ltac:(lia)) as Hw. unfold lane. destruct (Z.eqb_spec i 0) as [-> | Hne].
      + rewrite Z.shiftr_0_r. apply wrap_wrap. lia.
      + rewrite Z.shiftr_div_pow2, Z.div_small; [reflexivity| |lia]. unfold in_range in Hw.
        pose proof (Z.pow_le_mono_r 2 32 (32 * i) ltac:(lia) ltac:(lia)). lia.
    - destruct (set_sat cfg); [|exact Hsat]. rewrite Hsat, Hr. split.
      + intros [E E']. split; [exact E|]. intros i Hi. destruct (i =? 0); [exact E'|reflexivity].
      + intros [E E']. split; [exact E|]. apply (E' 0). change (Z.of_nat (nlanes 32)) with 4. lia. }
  assert (forall r, r = ssat 32 sum -> r <> sum -> clamps cfg 32 (ssat 32) (fun i => if i =? 0 then sum else 0) op s
    (set_vr (vd op) (u32 r) (if set_sat cfg then with_sat (set_lane 8 0 1 (sat s)) s else s))) as Hmark.
  { intros r Hr Hne. destruct (set_sat cfg) eqn:Eset.
    - apply Hgo; [apply (set_lane128_range 8); [change (Z.of_nat (nlanes 8)) with 16; lia|apply wf_sat, Hs]|exact Hr|]. split; [|tauto]. intros E.
      apply (f_equal (lane 8 0)) in E. rewrite lane_set_lane in E by lia. discriminate E.
    - rewrite <- (with_sat_same s) at 2. apply Hgo; [apply wf_sat, Hs|exact Hr|reflexivity]. }
  pose proof (ssat_fits 32 sum ltac:(lia)). unfold ssat in *. change (2 ^ (32 - 1)) with (2 ^ 31) in *.
  destruct (Z.ltb_spec (2 ^ 31 - 1) sum); [apply Hmark; lia|]. destruct (Z.ltb_spec sum (- 2 ^ 31)); [apply Hmark; lia|].
  rewrite <- (with_sat_same s) at 2. apply Hgo; [apply wf_sat, Hs|lia|]. destruct (set_sat cfg); tauto.
Qed.

(** C4: the saturating sums of products and sums across leave the exact sums clamped: the
    high multiply-adds add the product of halfwords shifted by 15 places, truncated or
    rounded, to VC; the multiply-sums add two products of halfwords, signed or unsigned, to a
    word of VC; the sums across add four bytes, two halfwords, two words or four words of VA
    to a word of VB, with zeros in the words not used.  VSCR's SAT is set exactly when it was
    or some sum did not fit, although the code computes with products that saturate or wrap
    on their own. *)
Theorem vector_sums op s :
  wf s ->
  let A := get_vr s (va op) in let B := get_vr s (vb op) in let C := get_vr s (vc op) in
  clamps cfg 16 (ssat 16) (fun i => slane 16 i C + Z.shiftr (slane 16 i A * slane 16 i B) 15) op s (VMHADDSHS cfg op s) /\
  clamps cfg 16 (ssat 16) (fun i => slane 16 i C + Z.shiftr (slane 16 i A * slane 16 i B + 2 ^ 14) 15) op s (VMHRADDSHS cfg op s) /\
  clamps cfg 32 (ssat 32) (fun i => slane 32 i C +
    (slane 16 (2 * i) A * slane 16 (2 * i) B + slane 16 (2 * i + 1) A * slane 16 (2 * i + 1) B)) op s (VMSUMSHS cfg op s) /\
  clamps cfg 32 (usat 32) (fun i => lane 32 i C +
    (lane 16 (2 * i) A * lane 16 (2 * i) B + lane 16 (2 * i + 1) A * lane 16 (2 * i + 1) B)) op s (VMSUMUHS cfg op s) /\
  clamps cfg 32 (ssat 32) (fun i => slane 32 i B + sum_s8 A i) op s (VSUM4SBS cfg op s) /\
  clamps cfg 32 (ssat 32) (fun i => slane 32 i B + (slane 16 (2 * i) A + slane 16 (2 * i + 1) A)) op s (VSUM4SHS cfg op s) /\
  clamps cfg 32 (usat 32) (fun i => sum_u8 A i + lane 32 i B) op s (VSUM4UBS cfg op s) /\
  clamps cfg 32 (ssat 32) (fun i => if Z.even i then sum2 A B (i / 2) else 0) op s (VSUM2SWS cfg op s) /\
  clamps cfg 32 (ssat 32)
    (fun i => if i =? 0 then slane 32 0 B + slane 32 0 A + slane 32 1 A + slane 32 2 A + slane 32 3 A else 0) op s (VSUMSWS cfg op s).
Proof.
  intros Hs A B C. split; [apply VMHADDSHS_clamps, Hs|]. split; [apply VMHRADDSHS_clamps, Hs|]. split; [apply VMSUMSHS_clamps, Hs|].
  split; [apply VMSUMUHS_clamps, Hs|]. split; [apply VSUM4SBS_clamps, Hs|]. split; [apply VSUM4SHS_clamps, Hs|].
  split; [apply VSUM4UBS_clamps, Hs|]. split; [apply VSUM2SWS_clamps, Hs|]. apply VSUMSWS_clamps, Hs.
Qed.

End Sums.

(** [-2^15 * -2^15 + -2^15 * -2^15] with an accumulator of [-1], and of [0]. *)
Lemma vector_sums_witness :
  let op := BarePpu.op345 + 6 * 2 ^ 6 in
  let s := vectors 0x80008000 0x80008000 0xffffffff in let t := VMSUMSHS BarePpu.cfg op s in
  wf s /\ clamps BarePpu.cfg 32 (ssat 32) (fun i => slane 32 i 0xffffffff +
    (slane 16 (2 * i) 0x80008000 * slane 16 (2 * i) 0x80008000 + slane 16 (2 * i + 1) 0x80008000 * slane 16 (2 * i + 1) 0x80008000)) op s t /\
  get_vr t 3 = 0x7fffffff /\ sat t = 0 /\ sat (VMSUMSHS BarePpu.cfg op (vectors 0x80008000 0x80008000 0)) <> 0.
Proof.
  intros op s t. pose proof (vectors_wf 0x80008000 0x80008000 0xffffffff) as Hs. split; [exact Hs|].
  destruct (vector_sums BarePpu.cfg op s Hs) as (_ & _ & E & _).
  split; [exact E|]. vm_compute. repeat split; congruence.
Defined.
