(* ===== verification/PpuVecShift.v ===== *)
(** * Vector shifts and rotates

    NEON has one shift instruction, by the signed low byte of each count.  The handlers mask
    and negate the counts; the results are the shifts of the architecture, element by element,
    and VSLO with VSL, VSRO with VSR, shift the register as one 128-bit number. *)

From Stdlib Require Import ZArith Lia Bool.
From stdpp Require Import base numbers list.
From S2P Require Import Prelude V128 BitField PpuOpcodes PpuThread Neon PpuVec PpuInterp PpuWf PpuVecSat.
Import ppu_opcode_t Vec.

(** ** Counts *)

Section Counts.
Context (w m e : Z) `{LaneWidth w}.
Context (Hw : w = 8 * m) (He : w = 2 ^ e) (Hr : 3 <= e <= 5).

Lemma width_bounds : 8 <= w <= 32.
Proof.
  pose proof (Z.pow_le_mono_r 2 3 e ltac:(lia) ltac:(lia)). pose proof (Z.pow_le_mono_r 2 e 5 ltac:(lia) ltac:(lia)). lia.
Qed.

Lemma low_byte i x : 0 <= i -> wrap 8 (lane w i x) = lane 8 (m * i) x.
Proof.
  intros Hi. pose proof width_bounds. transitivity (lane 8 0 (lane w i x)); [unfold lane at 2; rewrite Z.shiftr_0_r; reflexivity|].
  rewrite Hw. rewrite lane_lane by lia. f_equal. lia.
Qed.
Lemma mod_width x : wrap 8 x mod w = x mod w.
Proof.
  pose proof width_bounds. unfold wrap. apply Z.mod_mod_divide. exists (2 ^ (8 - e)).
  rewrite He, <- Z.pow_add_r by lia. f_equal. lia.
Qed.
(** The count under the byte mask [w - 1]. *)
Lemma masked_count i b : 0 <= i < Z.of_nat (nlanes w) -> wrap 8 (lane w i (Z.land b (splat 8 (w - 1)))) = lane w i b mod w.
Proof.
  intros Hi. pose proof width_bounds. destruct (lane_width (w:=w)) as [_ Hn].
  rewrite low_byte, lane_land, lane_splat by (try (change (Z.of_nat (nlanes 8)) with 16); nia).
  rewrite <- low_byte, (wrap_small 8 (w - 1)) by (unfold in_range; lia). rewrite He at 2. replace (2 ^ e - 1) with (Z.ones e) by (rewrite Z.ones_equiv; lia).
  rewrite Z.land_ones, <- He by lia. apply mod_width.
Qed.

Lemma shift_low x n n' : wrap 8 n = wrap 8 n' -> shift_by x n = shift_by x n'.
Proof. intros E. unfold shift_by. rewrite <- (sint_wrap 8 n), E, sint_wrap by lia. reflexivity. Qed.
Lemma wrap8_opp n n' : wrap 8 n = wrap 8 n' -> wrap 8 (wrap w (- n)) = wrap 8 (- n').
Proof.
  intros E. pose proof width_bounds.
  transitivity (wrap 8 (- n)).
  - unfold wrap. apply Z.mod_mod_divide. exists (2 ^ (w - 8)). rewrite <- Z.pow_add_r by lia. f_equal. lia.
  - rewrite <- !Z.sub_0_l, <- wrap_sub_r, E, wrap_sub_r. reflexivity.
Qed.

(** ** Shifts by the elements of a vector *)

Context (a b i : Z) (Hi : 0 <= i < Z.of_nat (nlanes w)).
Let n := lane w i b mod w.
Lemma count_bounds : 0 <= n < 32.
Proof. pose proof width_bounds. pose proof (Z.mod_pos_bound (lane w i b) w ltac:(lia)). unfold n. lia. Qed.
Lemma wrap8_count : wrap 8 n = n.
Proof. pose proof count_bounds. apply wrap_small. unfold in_range. lia. Qed.

Lemma lane_shl_v : lane w i (vshlq_u w a (Z.land b (splat 8 (w - 1)))) = wrap w (Z.shiftl (lane w i a) n).
Proof.
  pose proof count_bounds. unfold vshlq_u. rewrite lane_map2 by exact Hi. f_equal. rewrite (shift_low _ _ n) by (rewrite wrap8_count; apply masked_count, Hi).
  rewrite <- (shift_by_pos 8) by lia. rewrite wrap8_count. reflexivity.
Qed.
Lemma shift_neg_count x : shift_by x (wrap w (- lane w i (Z.land b (splat 8 (w - 1))))) = Z.shiftr x n.
Proof.
  pose proof count_bounds. rewrite (shift_low _ _ (- n)).
  - rewrite <- (shift_by_neg 8) by lia. apply shift_low. rewrite wrap_wrap by lia. reflexivity.
  - apply wrap8_opp. rewrite wrap8_count. apply masked_count, Hi.
Qed.
Lemma lane_shr_v : lane w i (vshlq_u w a (vnegq w (Z.land b (splat 8 (w - 1))))) = Z.shiftr (lane w i a) n.
Proof.
  pose proof count_bounds. pose proof width_bounds. unfold vshlq_u, vnegq. rewrite lane_map2, lane_map1, shift_neg_count by exact Hi.
  apply wrap_small, shiftr_range; auto with range; try lia; apply lane_range; lia.
Qed.
Lemma lane_sar_v : lane w i (vshlq_s w a (vnegq w (Z.land b (splat 8 (w - 1))))) = wrap w (Z.shiftr (slane w i a) n).
Proof. unfold vshlq_s, vnegq. rewrite lane_map2, lane_map1, shift_neg_count by exact Hi. reflexivity. Qed.

(** Funnel shifts: a left shift of [a] and a right shift of [a'] by the rest of the width. *)
Lemma lane_funnel a' :
  lane w i (Z.lor (vshlq_u w a (Z.land b (splat w (w - 1)))) (vshlq_u w a' (vsubq w (Z.land b (splat w (w - 1))) (splat w w)))) =
  Z.lor (wrap w (Z.shiftl (lane w i a) n)) (Z.shiftr (lane w i a') (w - n)).
Proof.
  pose proof count_bounds. pose proof width_bounds. assert (lane w i (Z.land b (splat w (w - 1))) = n) as En.
  { rewrite lane_land, lane_splat by (exact Hi || lia). pose proof (Z.pow_gt_lin_r 2 w ltac:(lia) ltac:(lia)).
    rewrite wrap_small by (unfold in_range; lia). rewrite He at 2. replace (2 ^ e - 1) with (Z.ones e) by (rewrite Z.ones_equiv; lia).
    rewrite Z.land_ones, <- He by lia. reflexivity. }
  pose proof (Z.pow_gt_lin_r 2 w ltac:(lia) ltac:(lia)). assert (n < w) by (apply Z.mod_pos_bound; lia).
  rewrite lane_lor by lia. unfold vshlq_u, vsubq. rewrite !lane_map2, lane_splat, En, (wrap_small w w) by (exact Hi || (unfold in_range; lia)).
  f_equal; [f_equal|].
  - rewrite <- (shift_by_pos 8) by lia. rewrite wrap8_count. reflexivity.
  - replace (n - w) with (- (w - n)) by lia. rewrite shift_by_neg by lia. apply wrap_small, shiftr_range; auto with range; try lia; apply lane_range; lia.
Qed.
End Counts.

(** ** The register as one number *)

Lemma lane_up a i : 0 <= i < 16 -> lane 8 i (gv_shuffle_left 1 a) = if i =? 0 then 0 else lane 8 (i - 1) a.
Proof.
  intros Hi. unfold gv_shuffle_left. change (15 <? 1) with false. cbv iota. unfold vqtbl1q. rewrite lane_map1, lane_build, wrap_wrap by (exact Hi || lia).
  destruct (Z.eqb_spec i 0) as [-> | Hne]; [reflexivity|]. rewrite (wrap_small 8 (i - 1)) by (unfold in_range; lia).
  destruct (Z.ltb_spec (i - 1) 16); [|lia]. apply lane_wrap. lia.
Qed.
Lemma lane_down a i : in_range 128 a -> 0 <= i < 16 -> lane 8 i (gv_shuffle_right 1 a) = lane 8 (i + 1) a.
Proof.
  intros Ha Hi. unfold gv_shuffle_right. change (15 <? 1) with false. cbv iota. unfold vqtbl1q. rewrite lane_map1, lane_build, wrap_wrap by (exact Hi || lia).
  rewrite (wrap_small 8 (i + 1)) by (unfold in_range; lia). destruct (Z.ltb_spec (i + 1) 16); [apply lane_wrap; lia|].
  symmetry. unfold lane. rewrite Z.shiftr_div_pow2, Z.div_small; [reflexivity| |lia]. unfold in_range in Ha.
  pose proof (Z.pow_le_mono_r 2 128 (8 * (i + 1)) ltac:(lia) ltac:(lia)). lia.
Qed.

Section Whole.
Context (a b n : Z) (Ha : in_range 128 a) (Hn : 0 <= n < 128) (Hb : b = splat 8 n).
Lemma byte_count i : 0 <= i < 16 -> lane 8 i b mod 8 = n mod 8.
Proof. intros Hi. rewrite Hb, lane_splat, wrap_small by (exact Hi || (unfold in_range; lia)). reflexivity. Qed.
Lemma rest_bounds : 0 <= n mod 8 < 8.
Proof. apply Z.mod_pos_bound. lia. Qed.

Lemma whole_left : gv_fshl8 a (gv_shuffle_left 1 a) b = wrap 128 (Z.shiftl a (n mod 8)).
Proof.
  pose proof rest_bounds as Hr. set (r := n mod 8) in *. apply (lane128_ext (w:=8)); [gv_range|apply wrap128_range|].
  change (Z.of_nat (nlanes 8)) with 16. intros i Hi. etransitivity; [apply (lane_funnel 8 1 3 eq_refl eq_refl ltac:(lia) a b i Hi)|].
  rewrite byte_count, lane_up by exact Hi. fold r. apply Z.bits_inj'. intros k Hk.
  rewrite Z.lor_spec, testbit_wrap, testbit_shiftl, Z.shiftr_spec, (testbit_lane 8 i (wrap 128 _)), testbit_wrap, testbit_shiftl by lia.
  assert (8 <= k + (8 - r) -> Z.testbit (if i =? 0 then 0 else lane 8 (i - 1) a) (k + (8 - r)) = false) as Hlow.
  { intros. destruct (i =? 0); [apply Z.bits_0|]. apply (testbit_high 8); [apply lane_range; lia|lia|lia]. }
  destruct (Z.ltb_spec k 8); cbn [andb]; [|apply Hlow; lia].
  destruct (Z.ltb_spec (k + 8 * i) 128); [|lia]. cbn [andb].
  destruct (Z.leb_spec r k), (Z.leb_spec r (k + 8 * i)); cbn [andb orb]; try lia.
  - rewrite Hlow, orb_false_r, testbit_lane by lia. destruct (Z.ltb_spec (k - r) 8); [|lia]. cbn [andb]. f_equal. lia.
  - destruct (Z.eqb_spec i 0); [lia|]. rewrite testbit_lane by lia. destruct (Z.ltb_spec (k + (8 - r)) 8); [|lia]. cbn [andb]. f_equal. lia.
  - destruct (Z.eqb_spec i 0); [apply Z.bits_0|lia].
Qed.

Lemma lane_funnel_right a' i :
  0 <= i < 16 -> lane 8 i (gv_fshr8 a' a b) = Z.lor (Z.shiftr (lane 8 i a) (n mod 8)) (wrap 8 (Z.shiftl (lane 8 i a') (8 - n mod 8))).
Proof.
  intros Hi. pose proof rest_bounds as Hr. unfold gv_fshr8. cbv zeta. unfold vorrq. rewrite lane_lor by lia. f_equal.
  - rewrite <- (byte_count i Hi). apply (lane_shr_v 8 1 3 eq_refl eq_refl ltac:(lia) a b i Hi).
  - assert (lane 8 i (vandq b (gv_bcst8 7)) = n mod 8) as En.
    { rewrite <- (byte_count i Hi), <- (masked_count 8 1 3 eq_refl eq_refl ltac:(lia) i b Hi). symmetry. apply lane_wrap. lia. }
    unfold vshlq_u, vsubq. rewrite !lane_map2, En by exact Hi. unfold gv_bcst8, vdupq_n. rewrite lane_splat by exact Hi.
    change (u8 8) with 8. f_equal. rewrite shift_by_pos by lia. reflexivity.
Qed.
Lemma whole_right : gv_fshr8 (gv_shuffle_right 1 a) a b = Z.shiftr a (n mod 8).
Proof.
  pose proof rest_bounds as Hr. apply (lane128_ext (w:=8)); [gv_range|apply shiftr128_range; [lia|exact Ha]|].
  change (Z.of_nat (nlanes 8)) with 16. intros i Hi. rewrite lane_funnel_right, lane_down by auto. set (r := n mod 8) in *.
  apply Z.bits_inj'. intros k Hk.
  rewrite Z.lor_spec, testbit_wrap, testbit_shiftl, Z.shiftr_spec, !(testbit_lane 8 i), Z.shiftr_spec by lia.
  destruct (Z.ltb_spec k 8); cbn [andb].
  - destruct (Z.ltb_spec (k + r) 8), (Z.leb_spec (8 - r) k); cbn [andb orb]; try lia.
    + rewrite orb_false_r. f_equal. lia.
    + rewrite testbit_lane by lia. destruct (Z.ltb_spec (k - (8 - r)) 8); [|lia]. cbn [andb]. f_equal. lia.
  - destruct (Z.ltb_spec (k + r) 8); [lia|reflexivity].
Qed.
Lemma octets : Z.land (lane 8 0 b) 0x78 = 8 * (n / 8).
Proof.
  rewrite Hb, lane_splat, wrap_small by ((change (Z.of_nat (nlanes 8)) with 16; lia) || (unfold in_range; lia)).
  assert (n ∈ seqZ 0 128) as H by (apply elem_of_seqZ; lia).
  refine (proj1 (Forall_forall (fun n => Z.land n 0x78 = 8 * (n / 8)) (seqZ 0 128)) _ n H).
  repeat (constructor; [reflexivity|]). constructor.
Qed.
End Whole.

(** ** Handlers *)

(** VD has [f] of the elements of VA and VB; nothing else changes. *)
Definition elementwise (w : Z) (f : Z -> Z -> Z) (op : Z) (s t : ppu_thread) : Prop :=
  t = set_vr (vd op) (build w (nlanes w) (fun i => f (lane w i (get_vr s (va op))) (lane w i (get_vr s (vb op))))) s.

Lemma form_elementwise w f g op s `{LaneWidth w} :
  (forall a b, in_range 128 (g a b)) -> (forall a b i, 0 <= i < Z.of_nat (nlanes w) -> lane w i (g a b) = wrap w (f (lane w i a) (lane w i b))) ->
  elementwise w f op s (form_ab g op s).
Proof. intros Hr Hl. unfold elementwise, form_ab. f_equal. apply (build_eq w); auto. Qed.

Lemma rotl_elements w m e a b i `{LaneWidth w} :
  w = 8 * m -> w = 2 ^ e -> 3 <= e <= 5 -> 0 <= i < Z.of_nat (nlanes w) ->
  lane w i (Z.lor (vshlq_u w a (Z.land b (splat w (w - 1)))) (vshlq_u w a (vsubq w (Z.land b (splat w (w - 1))) (splat w w)))) =
  wrap w (rotl w (lane w i a) (lane w i b)).
Proof.
  intros Hw He Hr Hi. pose proof (width_bounds w m e Hw He Hr). rewrite (lane_funnel w m e) by auto. unfold rotl. cbv zeta. symmetry.
  pose proof (Z.mod_pos_bound (lane w i b) w ltac:(lia)).
  apply wrap_small, lor_range; [lia|apply wrap_range; lia|apply shiftr_range; [lia|lia|apply lane_range; lia]].
Qed.
Lemma rotl_form w m e g op s `{LaneWidth w} :
  w = 8 * m -> w = 2 ^ e -> 3 <= e <= 5 ->
  (forall a b, g a b = Z.lor (vshlq_u w a (Z.land b (splat w (w - 1)))) (vshlq_u w a (vsubq w (Z.land b (splat w (w - 1))) (splat w w)))) ->
  elementwise w (rotl w) op s (form_ab g op s).
Proof.
  intros Hw He Hr Hg. apply form_elementwise; [assumption| |]; intros; rewrite Hg.
  - apply lor128_range; apply map2_range.
  - apply (rotl_elements w m e); auto.
Qed.
Lemma shl_form w m e g op s `{LaneWidth w} :
  w = 8 * m -> w = 2 ^ e -> 3 <= e <= 5 -> (forall a b, g a b = vshlq_u w a (Z.land b (splat 8 (w - 1)))) ->
  elementwise w (fun x n => Z.shiftl x (n mod w)) op s (form_ab g op s).
Proof.
  intros Hw He Hr Hg. apply form_elementwise; [assumption| |]; intros; rewrite Hg; [apply map2_range|]. apply (lane_shl_v w m e); auto.
Qed.
Lemma shr_form w m e g op s `{LaneWidth w} :
  w = 8 * m -> w = 2 ^ e -> 3 <= e <= 5 -> (forall a b, g a b = vshlq_u w a (vnegq w (Z.land b (splat 8 (w - 1))))) ->
  elementwise w (fun x n => Z.shiftr x (n mod w)) op s (form_ab g op s).
Proof.
  intros Hw He Hr Hg. pose proof (width_bounds w m e Hw He Hr). apply form_elementwise; [assumption| |]; intros a b; intros; rewrite Hg; [apply map2_range|].
  rewrite (lane_shr_v w m e) by auto. symmetry. pose proof (Z.mod_pos_bound (lane w i b) w ltac:(lia)).
  apply wrap_small, shiftr_range; [lia|lia|apply lane_range; lia].
Qed.
Lemma sar_form w m e g op s `{LaneWidth w} :
  w = 8 * m -> w = 2 ^ e -> 3 <= e <= 5 -> (forall a b, g a b = vshlq_s w a (vnegq w (Z.land b (splat 8 (w - 1))))) ->
  elementwise w (fun x n => Z.shiftr (sint w x) (n mod w)) op s (form_ab g op s).
Proof.
  intros Hw He Hr Hg. apply form_elementwise; [assumption| |]; intros; rewrite Hg; [apply map2_range|]. apply (lane_sar_v w m e); auto.
Qed.

(** The names of simd.hpp, unfolded. *)
Ltac as_intrinsic :=
  intros; cbv [gv_rol8 gv_rol16 gv_rol32 gv_shl8v gv_shl16v gv_shl32v gv_shr8v gv_shr16v gv_shr32v gv_sar8v gv_sar16v gv_sar32v
    gv_bcst8 gv_bcst16 gv_bcst32 vdupq_n vandq vorrq]; reflexivity.
Ltac by_form := first [typeclasses eauto | lia | as_intrinsic].

Section WholeShifts.
Context (op op' n : Z) (s : ppu_thread) (Hs : wf s) (Hn : 0 <= n < 128) (Hb : get_vr s (vb op) = splat 8 n).
Let A := get_vr s (va op).
Let HA : in_range 128 A := get_vr_range s (va op) Hs.

Lemma VSLO_whole : VSLO op s = set_vr (vd op) (wrap 128 (Z.shiftl A (8 * (n / 8)))) s.
Proof. unfold VSLO, form_ab. fold A. rewrite (octets _ n Hn Hb). reflexivity. Qed.
Lemma VSRO_whole : VSRO op s = set_vr (vd op) (Z.shiftr A (8 * (n / 8))) s.
Proof. unfold VSRO, form_ab. fold A. rewrite (octets _ n Hn Hb). reflexivity. Qed.
Lemma VSL_whole : VSL op s = set_vr (vd op) (wrap 128 (Z.shiftl A (n mod 8))) s.
Proof. unfold VSL, form_ab. fold A. rewrite (whole_left A _ n); auto. Qed.
Lemma VSR_whole : VSR op s = set_vr (vd op) (Z.shiftr A (n mod 8)) s.
Proof. unfold VSR, form_ab. fold A. rewrite (whole_right A _ n); auto. Qed.
End WholeShifts.

(** The second instruction of a pair, on the result [v] of the first. *)
Lemma second_of_pair op op' n s v :
  wf s -> in_range 128 v -> get_vr s (vb op) = splat 8 n -> va op' = vd op -> vb op' = vb op -> vd op <> vb op ->
  let t := set_vr (vd op) v s in wf t /\ get_vr t (va op') = v /\ get_vr t (vb op') = splat 8 n.
Proof.
  intros Hs Hv Hb Ea Eb Hne t. split; [apply wf_set_vr; assumption|]. rewrite Ea, Eb, <- Hb. split; [apply vr_set_eq; [exact Hs|apply ppu_reg_field]|].
  pose proof (ppu_reg_field 6 op : reg_ok (vd op)). pose proof (ppu_reg_field 16 op : reg_ok (vb op)). unfold reg_ok, in_range in *.
  apply vr_set_ne; [lia|lia|exact Hne].
Qed.
Lemma shiftl_twice x p q : 0 <= p -> 0 <= q -> wrap 128 (Z.shiftl (wrap 128 (Z.shiftl x p)) q) = wrap 128 (Z.shiftl x (p + q)).
Proof. intros Hp Hq. rewrite <- Z.shiftl_shiftl by lia. rewrite !(Z.shiftl_mul_pow2 _ q) by lia. apply wrap_mul_l. Qed.

(** C18: the element shifts and rotates of bytes, halfwords and words take each count modulo
    the width.  With the count [n] below 128 in every byte of VB, VSLO shifts the register,
    as one 128-bit number, by the multiple of eight in [n] and VSL by the rest, VSRO and VSR
    likewise to the right, so the pair of instructions shifts by [n].  Nothing else changes. *)
Theorem vector_shifts op s :
  wf s ->
  elementwise 8 (rotl 8) op s (VRLB op s) /\ elementwise 16 (rotl 16) op s (VRLH op s) /\ elementwise 32 (rotl 32) op s (VRLW op s) /\
  elementwise 8 (fun x n => Z.shiftl x (n mod 8)) op s (VSLB op s) /\
  elementwise 16 (fun x n => Z.shiftl x (n mod 16)) op s (VSLH op s) /\
  elementwise 32 (fun x n => Z.shiftl x (n mod 32)) op s (VSLW op s) /\
  elementwise 8 (fun x n => Z.shiftr x (n mod 8)) op s (VSRB op s) /\
  elementwise 16 (fun x n => Z.shiftr x (n mod 16)) op s (VSRH op s) /\
  elementwise 32 (fun x n => Z.shiftr x (n mod 32)) op s (VSRW op s) /\
  elementwise 8 (fun x n => Z.shiftr (sint 8 x) (n mod 8)) op s (VSRAB op s) /\
  elementwise 16 (fun x n => Z.shiftr (sint 16 x) (n mod 16)) op s (VSRAH op s) /\
  elementwise 32 (fun x n => Z.shiftr (sint 32 x) (n mod 32)) op s (VSRAW op s) /\
  (forall n op', 0 <= n < 128 -> get_vr s (vb op) = splat 8 n -> va op' = vd op -> vb op' = vb op -> vd op <> vb op ->
   let A := get_vr s (va op) in
   VSLO op s = set_vr (vd op) (wrap 128 (Z.shiftl A (8 * (n / 8)))) s /\
   VSRO op s = set_vr (vd op) (Z.shiftr A (8 * (n / 8))) s /\
   VSL op s = set_vr (vd op) (wrap 128 (Z.shiftl A (n mod 8))) s /\ VSR op s = set_vr (vd op) (Z.shiftr A (n mod 8)) s /\
   get_vr (VSL op' (VSLO op s)) (vd op') = wrap 128 (Z.shiftl A n) /\
   get_vr (VSR op' (VSRO op s)) (vd op') = Z.shiftr A n).
Proof.
  intros Hs.
  split; [apply (rotl_form 8 1 3); by_form|].
  split; [apply (rotl_form 16 2 4); by_form|].
  split; [apply (rotl_form 32 4 5); by_form|].
  split; [apply (shl_form 8 1 3); by_form|].
  split; [apply (shl_form 16 2 4); by_form|].
  split; [apply (shl_form 32 4 5); by_form|].
  split; [apply (shr_form 8 1 3); by_form|].
  split; [apply (shr_form 16 2 4); by_form|].
  split; [apply (shr_form 32 4 5); by_form|].
  split; [apply (sar_form 8 1 3); by_form|].
  split; [apply (sar_form 16 2 4); by_form|].
  split; [apply (sar_form 32 4 5); by_form|].
  intros n op' Hn Hb Ea Eb Hne A. pose proof (get_vr_range s (va op) Hs : in_range 128 A) as HA.
  split; [apply VSLO_whole; auto|]. split; [apply VSRO_whole; auto|]. split; [apply VSL_whole; auto|]. split; [apply VSR_whole; auto|].
  assert (n = 8 * (n / 8) + n mod 8 /\ 0 <= n / 8 /\ 0 <= n mod 8) as (En & H0 & H1) by (Z.div_mod_to_equations; lia).
  rewrite (VSLO_whole op n s), (VSRO_whole op n s) by auto. fold A. split.
  - destruct (second_of_pair op op' n s (wrap 128 (Z.shiftl A (8 * (n / 8))))) as (Ht & Ev & Eb'); auto using wrap128_range.
    rewrite (VSL_whole op' n) by auto. rewrite vr_set_eq by (exact Ht || apply ppu_reg_field).
    rewrite Ev, shiftl_twice, <- En by lia. reflexivity.
  - destruct (second_of_pair op op' n s (Z.shiftr A (8 * (n / 8)))) as (Ht & Ev & Eb'); auto; [apply shiftr128_range; [lia|exact HA]|].
    rewrite (VSR_whole op' n) by auto. rewrite vr_set_eq by (exact Ht || apply ppu_reg_field).
    rewrite Ev, Z.shiftr_shiftr, <- En by lia. reflexivity.
Qed.

(** A shift by 19 = 2 * 8 + 3 places, and a rotate of words. *)
Lemma vector_shifts_witness :
  let op' := 6 * 2 ^ 21 + 3 * 2 ^ 16 + 5 * 2 ^ 11 in
  let s := vectors 0x123456789 (splat 8 19) 0 in
  wf s /\ get_vr (VSL op' (VSLO BarePpu.op345 s)) 6 = 0x123456789 * 2 ^ 19 /\
  elementwise 32 (rotl 32) BarePpu.op345 s (VRLW BarePpu.op345 s) /\ lane 32 0 (get_vr (VRLW BarePpu.op345 s) 3) = 0x3c491a2b.
Proof.
  intros op' s. pose proof (vectors_wf 0x123456789 (splat 8 19) 0) as Hs. split; [exact Hs|].
  destruct (vector_shifts BarePpu.op345 s Hs) as (_ & _ & E & _ & _ & _ & _ & _ & _ & _ & _ & _ & H).
  destruct (H 19 op') as (_ & _ & _ & _ & El & _); [lia|vm_compute; congruence..|].
  split; [etransitivity; [exact El|vm_compute; reflexivity]|]. split; [exact E|]. vm_compute. reflexivity.
Defined.
