(* ===== verification/PpuVecMem.v ===== *)
(** * Vectors at unaligned addresses

    LVX reads an aligned quadword.  Programs read sixteen bytes at any address with two of
    them, LVSL and VPERM, or with LVLX, LVRX and VOR, and write them with STVLX and STVRX;
    the sequences are proved to be one access of sixteen bytes. *)

From Stdlib Require Import ZArith Lia Bool.
From stdpp Require Import base numbers list gmap.
From S2P Require Import Prelude V128 BitField Bytes GuestMem PpuOpcodes PpuThread Neon PpuVec PpuInterp PpuWf PpuMem.
Import ppu_opcode_t Interp.

(** ** Addresses *)

Lemma land_low4 x : Z.land x 15 = x mod 16.
Proof. apply (Z.land_ones x 4). lia. Qed.
Lemma align_down_16 x : in_range 64 x -> align_down x 15 = x - x mod 16.
Proof.
  intros Hx. unfold align_down. replace (x - x mod 16) with (Z.ldiff x 15).
  - rewrite <- (wrap_small 64 x Hx). change 15 with (Z.ones 4). bits.
  - change 15 with (Z.ones 4). rewrite Z.ldiff_ones_r, Z.shiftl_mul_pow2, Z.shiftr_div_pow2 by lia.
    change (2 ^ 4) with 16. pose proof (Z.div_mod x 16). lia.
Qed.
Lemma land_not64_low4 x : in_range 64 x -> Z.land (not64 x) 15 = 15 - x mod 16.
Proof.
  intros Hx. replace (15 - x mod 16) with (Z.lxor (x mod 16) 15).
  - rewrite <- land_low4, <- (wrap_small 64 x Hx). unfold not64. change 15 with (Z.ones 4). bits.
  - assert (0 <= x mod 16 < 16) as H by (Z.div_mod_to_equations; lia). revert H. generalize (x mod 16). intros k Hk.
    assert (k ∈ seqZ 0 16) as H by (apply elem_of_seqZ; lia).
    refine (proj1 (Forall_forall (fun k => Z.lxor k 15 = 15 - k) (seqZ 0 16)) _ k H).
    repeat (constructor; [reflexivity|]). constructor.
Qed.

(** ** Bytes *)

Lemma lane_vector m a i : bytes_ok m -> 0 <= i < 16 -> lane 8 i (be_load m a 16) = byte_at m (a + (15 - i)).
Proof. intros Hm Hi. rewrite <- (lane_be_load m a 16) by (auto; lia). f_equal. lia. Qed.
Lemma vector_ext m a v :
  bytes_ok m -> in_range 128 v -> (forall i, 0 <= i < 16 -> lane 8 i v = byte_at m (a + (15 - i))) -> v = be_load m a 16.
Proof.
  intros Hm Hv H. apply (lane128_ext (w:=8)); [exact Hv|apply (be_load_range m a 16), Hm|].
  intros i Hi. rewrite lane_vector by (auto; exact Hi). apply H. exact Hi.
Qed.
Lemma lane_shl_bytes v n i : 0 <= n -> 0 <= i < 16 -> lane 8 i (wrap 128 (Z.shiftl v (n * 8))) = if i <? n then 0 else lane 8 (i - n) v.
Proof.
  intros Hn Hi. apply Z.bits_inj'. intros k Hk. rewrite testbit_lane, testbit_wrap, testbit_shiftl by lia.
  destruct (Z.ltb_spec k 8); cbn [andb].
  2:{ symmetry. destruct (i <? n); [apply Z.bits_0|]. unfold lane. rewrite testbit_wrap by lia. destruct (Z.ltb_spec k 8); [lia|reflexivity]. }
  destruct (Z.ltb_spec (k + 8 * i) 128); [|lia]. cbn [andb]. destruct (Z.ltb_spec i n).
  - rewrite Z.bits_0. destruct (Z.leb_spec (n * 8) (k + 8 * i)); [lia|reflexivity].
  - destruct (Z.leb_spec (n * 8) (k + 8 * i)); [|lia]. rewrite testbit_lane by lia. destruct (Z.ltb_spec k 8); [|lia]. cbn [andb]. f_equal. lia.
Qed.
Lemma lane_shr_bytes v n i : 0 <= n -> 0 <= i -> lane 8 i (Z.shiftr v (n * 8)) = lane 8 (i + n) v.
Proof. intros Hn Hi. unfold lane. rewrite Z.shiftr_shiftr by lia. do 2 f_equal. lia. Qed.

(** The permutation by LVSL's constant takes sixteen bytes out of thirty-two. *)
Lemma lane_perm_lvsl a b n i :
  0 <= n < 16 -> 0 <= i < 16 ->
  lane 8 i (vqtbl2q b a (vbicq (vdupq_n 8 0x1f) (s_lvsl_consts n))) = if i <? n then lane 8 (16 + i - n) b else lane 8 (i - n) a.
Proof.
  intros Hn Hi. unfold vqtbl2q, vbicq, vdupq_n, s_lvsl_consts. rewrite lane_map1, lane_ldiff, lane_splat, lane_build, wrap_wrap by (exact Hi || lia).
  assert (Z.ldiff (u8 31) (u8 (15 - i + n)) = 16 + i - n) as ->.
  { rewrite (wrap_small 8 (15 - i + n)) by (unfold in_range; lia). change (u8 31) with 31.
    assert (15 - i + n ∈ seqZ 0 31) as H by (apply elem_of_seqZ; lia). replace (16 + i - n) with (31 - (15 - i + n)) by lia.
    refine (proj1 (Forall_forall (fun k => Z.ldiff 31 k = 31 - k) (seqZ 0 31)) _ _ H). repeat (constructor; [reflexivity|]). constructor. }
  destruct (Z.ltb_spec i n); destruct (Z.ltb_spec (16 + i - n) 16); try lia; [apply lane_wrap; lia|].
  destruct (Z.ltb_spec (16 + i - n) 32); [|lia]. rewrite lane_wrap by lia. f_equal. lia.
Qed.

(** ** Loads *)

Section Loads.
Context (cfg : ppu_config).

(** Nothing but vector registers differs, and the reservation may be given up. *)
Definition only_vr (s t : ppu_thread) : Prop := fed (with_vr (vr t) s) t.
Lemma only_vr_trans s t u : only_vr s t -> only_vr t u -> only_vr s u.
Proof.
  unfold only_vr, fed. intros [E1|E1] [E2|E2]; rewrite E1 in E2; rewrite E2; [left|right..]; reflexivity.
Qed.
Lemma only_vr_same s t : only_vr s t -> gpr t = gpr s /\ mem t = mem s /\ cia t = cia s.
Proof. intros [-> | ->]; auto. Qed.

(** VD is [v]; the other vectors, and all else but a lost reservation, stay. *)
Definition loaded (op v : Z) (s t : ppu_thread) : Prop :=
  wf t /\ only_vr s t /\ forall r, reg_ok r -> get_vr t r = if r =? vd op then v else get_vr s r.

Lemma set_loaded op v s : wf s -> in_range 128 v -> loaded op v s (set_vr (vd op) v s).
Proof.
  intros Hs Hv. split; [apply wf_set_vr; assumption|]. split; [left; reflexivity|]. intros r Hr. destruct (Z.eqb_spec r (vd op)) as [-> | Hne].
  - apply vr_set_eq; assumption.
  - pose proof (ppu_reg_field 6 op : reg_ok (vd op)) as Hd. unfold reg_ok, in_range in *. apply vr_set_ne; lia.
Qed.
Lemma fed_loaded op v s u : fed s u -> wf s -> in_range 128 v -> loaded op v s (set_vr (vd op) v u).
Proof.
  intros Hf Hs Hv. destruct (fed_same s u Hf) as (_ & _ & Hw). pose proof (set_loaded op v u (Hw Hs) Hv) as Hl.
  destruct Hl as (W & O & V). split; [exact W|]. destruct Hf as [-> | ->]; (split; [|exact V]); [exact O|right; reflexivity].
Qed.

Lemma addr_x_gpr op s t : gpr t = gpr s -> addr_x op t = addr_x op s.
Proof. intros E. unfold addr_x, get. rewrite E. reflexivity. Qed.

(** Reading the aligned quadword at [a], which [f] turns into the result. *)
Lemma quad_load f op a s :
  wf s -> in_range 32 a -> accessible (mem s) (a - a mod 16) 16 page_readable = true ->
  (forall v, in_range 128 v -> in_range 128 (f v)) ->
  exists t, (let! v := ppu_feed_data cfg 16 (align_down a 15) in modify (set_vr (vd op) (f (be_of v)))) s = MOk tt t /\
    loaded op (f (be_load (ram (mem s)) (a - a mod 16) 16)) s t.
Proof.
  intros Hs Ha Hacc Hf. rewrite align_down_16 by (unfold in_range in *; lia).
  destruct (feed_ok cfg 16 (a - a mod 16) s) as (u & E & Hu); [unfold in_range in *; Z.div_mod_to_equations; lia|exact Hacc|].
  unfold mbindp. rewrite E, be_of_bytes by apply (wf_ram s Hs). eexists. split; [reflexivity|].
  apply fed_loaded; [exact Hu|exact Hs|]. apply Hf, (be_load_range _ _ 16), (wf_ram s Hs).
Qed.

Lemma LVX_ok op s :
  wf s -> ea_x op s < 2 ^ 32 -> let a := ea_x op s - ea_x op s mod 16 in accessible (mem s) a 16 page_readable = true ->
  exists t, LVX cfg op s = MOk tt t /\ loaded op (be_load (ram (mem s)) a 16) s t.
Proof.
  intros Hs Hx a Hacc. pose proof (wrap_range 64 (ra_or_0 op s + get s (rb op)) ltac:(lia)) as Hr. unfold LVX. rewrite addr_x_ea by exact Hs.
  apply (quad_load (fun v => v)); auto. unfold ea_x in *. unfold in_range in *. lia.
Qed.
Lemma LVLX_ok op s :
  wf s -> ea_x op s < 2 ^ 32 -> let n := ea_x op s mod 16 in let a := ea_x op s - n in
  accessible (mem s) a 16 page_readable = true ->
  exists t, LVLX cfg op s = MOk tt t /\ loaded op (wrap 128 (Z.shiftl (be_load (ram (mem s)) a 16) (n * 8))) s t.
Proof.
  intros Hs Hx n a Hacc. pose proof (wrap_range 64 (ra_or_0 op s + get s (rb op)) ltac:(lia)) as Hr. unfold LVLX. cbv zeta.
  rewrite addr_x_ea, land_low4 by exact Hs.
  apply (quad_load (fun v => wrap 128 (Z.shiftl v (n * 8)))); auto; [unfold ea_x in *; unfold in_range in *; lia|].
  intros. apply wrap128_range.
Qed.
Lemma LVRX_ok op s :
  wf s -> ea_x op s < 2 ^ 32 -> let n := ea_x op s mod 16 in let b := if n =? 0 then cia s else ea_x op s in
  accessible (mem s) (b - b mod 16) 16 page_readable = true ->
  exists t, LVRX cfg op s = MOk tt t /\ loaded op (Z.shiftr (be_load (ram (mem s)) (b - b mod 16) 16) ((16 - n) * 8)) s t.
Proof.
  intros Hs Hx n b Hacc. pose proof (wrap_range 64 (ra_or_0 op s + get s (rb op)) ltac:(lia)) as Hr. unfold LVRX. cbv zeta.
  rewrite addr_x_ea, land_low4, land_not64_low4 by (exact Hs || exact Hr). fold n b.
  assert (0 <= n < 16) as Hn by (unfold n; Z.div_mod_to_equations; lia).
  destruct (quad_load (fun v => Z.shiftr (Z.shiftr v ((15 - n) * 8)) 8) op b s) as (t & E & Hl); auto.
  - pose proof (wf_cia s Hs). unfold b. unfold ea_x in *. destruct (n =? 0); unfold in_range in *; lia.
  - intros v Hv. apply shiftr128_range; [lia|]. apply shiftr128_range; [lia|exact Hv].
  - exists t. split; [exact E|]. rewrite Z.shiftr_shiftr in Hl by lia. replace ((15 - n) * 8 + 8) with ((16 - n) * 8) in Hl by lia. exact Hl.
Qed.

Lemma loaded_ea op' op v s t : loaded op v s t -> ea_x op' t = ea_x op' s.
Proof. intros (_ & O & _). destruct (only_vr_same s t O) as [E _]. unfold ea_x, ra_or_0, get. rewrite E. reflexivity. Qed.

(** [lvx a; lvx b; lvsl c; vperm d, a, b, c] *)
Lemma lvx_lvsl_vperm op1 op2 op3 op4 s :
  let x := ea_x op1 s in
  wf s -> x + 16 <= 2 ^ 32 -> ea_x op2 s = x + 15 -> ea_x op3 s = x ->
  va op4 = vd op1 -> vb op4 = vd op2 -> vc op4 = vd op3 -> vd op1 <> vd op2 -> vd op1 <> vd op3 -> vd op2 <> vd op3 ->
  accessible (mem s) (x - x mod 16) 16 page_readable = true ->
  accessible (mem s) (x + 15 - (x + 15) mod 16) 16 page_readable = true ->
  exists t, (LVX cfg op1 >> LVX cfg op2 >> modify (LVSL op3) >> modify (Vec.VPERM op4)) s = MOk tt t /\
    get_vr t (vd op4) = be_load (ram (mem s)) x 16 /\ only_vr s t /\
    forall r, reg_ok r -> r <> vd op1 -> r <> vd op2 -> r <> vd op3 -> r <> vd op4 -> get_vr t r = get_vr s r.
Proof.
  intros x Hs Hx E2 E3 Ea Eb Ec D12 D13 D23 A1 A2. pose proof (wf_ram s Hs) as Hm.
  destruct (LVX_ok op1 s Hs ltac:(lia) A1) as (t1 & L1 & H1). pose proof H1 as (W1 & O1 & V1). destruct (only_vr_same _ _ O1) as (G1 & M1 & _).
  assert (ea_x op2 t1 = x + 15) as F2 by (rewrite (loaded_ea op2 op1 _ s t1 H1); exact E2).
  destruct (LVX_ok op2 t1 W1) as (t2 & L2 & H2); [lia|rewrite F2, M1; exact A2|]. rewrite F2, M1 in H2.
  pose proof H2 as (W2 & O2 & V2).
  assert (LVSL op3 t2 = set_vr (vd op3) (s_lvsl_consts (x mod 16)) t2) as L3.
  { unfold LVSL. rewrite addr_x_ea by exact W2. rewrite (loaded_ea op3 op2 _ t1 t2 H2), (loaded_ea op3 op1 _ s t1 H1), E3. reflexivity. }
  destruct (set_loaded op3 (s_lvsl_consts (x mod 16)) t2 W2) as (W3 & O3 & V3); [apply (build128_range' 8); lia|].
  unfold mbindp, modify. rewrite L1, L2, L3. eexists. split; [reflexivity|]. unfold Vec.VPERM, Vec.form_abc.
  split; [|split; [apply (only_vr_trans _ _ _ (only_vr_trans _ _ _ (only_vr_trans _ _ _ O1 O2) O3)); left; reflexivity|]].
  2: { intros r Hr N1 N2 N3 N4. rewrite vr_set_ne, V3, V2, V1 by (auto; apply ppu_reg_field || apply Hr || congruence).
       repeat rewrite (proj2 (Z.eqb_neq _ _)) by congruence. reflexivity. }
  rewrite vr_set_eq by (exact W3 || apply ppu_reg_field). rewrite Ea, Eb, Ec, !V3, !V2, !V1 by apply ppu_reg_field.
  repeat (rewrite Z.eqb_refl || rewrite (proj2 (Z.eqb_neq _ _)) by congruence). fold x.
  assert (0 <= x mod 16 < 16) by (Z.div_mod_to_equations; lia).
  apply vector_ext; [exact Hm|apply map1_range|]. intros i Hi. rewrite lane_perm_lvsl by lia.
  destruct (Z.ltb_spec i (x mod 16)); rewrite lane_vector by (auto; lia); f_equal; [|lia].
  assert ((x + 15) mod 16 = x mod 16 - 1) by (Z.div_mod_to_equations; lia). lia.
Qed.

(** [lvlx a; lvrx b; vor d, a, b] *)
Lemma lvlx_lvrx_vor op1 op2 op3 s :
  let x := ea_x op1 s in
  wf s -> x + 16 < 2 ^ 32 -> ea_x op2 s = x + 16 -> va op3 = vd op1 -> vb op3 = vd op2 -> vd op1 <> vd op2 ->
  accessible (mem s) (x - x mod 16) 16 page_readable = true ->
  (let b := if x mod 16 =? 0 then cia s else x + 16 in accessible (mem s) (b - b mod 16) 16 page_readable = true) ->
  exists t, (LVLX cfg op1 >> LVRX cfg op2 >> modify (Vec.VOR op3)) s = MOk tt t /\ get_vr t (vd op3) = be_load (ram (mem s)) x 16 /\ only_vr s t /\
    forall r, reg_ok r -> r <> vd op1 -> r <> vd op2 -> r <> vd op3 -> get_vr t r = get_vr s r.
Proof.
  intros x Hs Hx E2 Ea Eb D12 A1 A2. pose proof (wf_ram s Hs) as Hm.
  destruct (LVLX_ok op1 s Hs ltac:(lia) A1) as (t1 & L1 & H1). pose proof H1 as (W1 & O1 & V1). destruct (only_vr_same _ _ O1) as (G1 & M1 & C1).
  assert (ea_x op2 t1 = x + 16) as F2 by (rewrite (loaded_ea op2 op1 _ s t1 H1); exact E2).
  assert ((x + 16) mod 16 = x mod 16) as Em by (Z.div_mod_to_equations; lia).
  destruct (LVRX_ok op2 t1 W1) as (t2 & L2 & H2); [lia|rewrite F2, M1, C1, Em; exact A2|]. rewrite F2, M1, C1, Em in H2.
  destruct H2 as (W2 & O2 & V2).
  unfold mbindp, modify. rewrite L1, L2. eexists. split; [reflexivity|]. unfold Vec.VOR, Vec.form_ab.
  split; [|split; [apply (only_vr_trans _ _ _ (only_vr_trans _ _ _ O1 O2)); left; reflexivity|]].
  2: { intros r Hr N1 N2 N3. rewrite vr_set_ne, V2, V1 by (auto; apply ppu_reg_field || apply Hr || congruence).
       repeat rewrite (proj2 (Z.eqb_neq _ _)) by congruence. reflexivity. }
  rewrite vr_set_eq by (exact W2 || apply ppu_reg_field). rewrite Ea, Eb, !V2, !V1 by apply ppu_reg_field.
  rewrite Z.eqb_refl. rewrite (proj2 (Z.eqb_neq (vd op1) _)) by congruence. rewrite Z.eqb_refl. fold x. set (n := x mod 16) in *.
  assert (0 <= n < 16) by (unfold n; Z.div_mod_to_equations; lia).
  assert (forall a, in_range 128 (be_load (ram (mem s)) a 16)) as Hr by (intros; apply (be_load_range _ _ 16), Hm).
  apply vector_ext; [exact Hm|apply lor128_range; [apply wrap128_range|apply shiftr128_range; [lia|apply Hr]]|].
  intros i Hi. unfold gv_orfs, vorrq. rewrite lane_lor, lane_shl_bytes, lane_shr_bytes by lia.
  destruct (Z.ltb_spec i n).
  - rewrite Z.lor_0_l. destruct (Z.eqb_spec n 0); [lia|]. rewrite Em, lane_vector by (auto; lia). f_equal. lia.
  - replace (lane 8 (i + (16 - n)) _) with 0; [rewrite Z.lor_0_r, lane_vector by (auto; lia); f_equal; lia|].
    symmetry. unfold lane. rewrite Z.shiftr_div_pow2, Z.div_small; [reflexivity| |lia].
    pose proof (Hr (let b := if n =? 0 then cia s else x + 16 in b - b mod 16)) as Hb. cbv zeta in Hb. unfold in_range in Hb.
    pose proof (Z.pow_le_mono_r 2 128 (8 * (i + (16 - n))) ltac:(lia) ltac:(lia)). lia.
Qed.
End Loads.

(** ** Stores *)

(** Memory changed to [m]. *)
Definition poked (m : gmap Z Z) (s : ppu_thread) : ppu_thread := with_mem (with_ram m (mem s)) s.
Lemma poked_poked m m' s : poked m' (poked m s) = poked m' s.
Proof. destruct s as [???????????????????????[]]. reflexivity. Qed.
Lemma poked_same s : poked (ram (mem s)) s = s.
Proof. destruct s as [???????????????????????[]]. reflexivity. Qed.

(** Bytes [lo] to [hi - 1] after [ptr] are those of [v]; the others are as before. *)
Definition written (ptr lo hi v : Z) (m m' : gmap Z Z) : Prop :=
  forall c, byte_at m' c = if (ptr + lo <=? c) && (c <? ptr + hi) then lane 8 (15 - (c - ptr)) v else byte_at m c.

Lemma poke_ok a v s :
  accessible (mem s) a 1 page_writable = true -> poke a v s = MOk tt (poked (be_store (ram (mem s)) a 1 v) s).
Proof. intros E. unfold poke. rewrite E. reflexivity. Qed.
Lemma byte_at_poke m a v c : in_range 8 v -> byte_at (be_store m a 1 v) c = if c =? a then v else byte_at m c.
Proof.
  intros Hv. destruct (Z.eqb_spec c a) as [-> | Hne]; [|apply byte_at_store_other; lia].
  replace a with (a + 0) at 2 by lia. rewrite byte_at_store by lia. change (Z.of_nat 1 - 1 - 0) with 0.
  unfold lane. rewrite Z.shiftr_0_r. apply wrap_small, Hv.
Qed.

Lemma poke_up_ok n ptr j v s :
  bytes_ok (ram (mem s)) -> (forall k, j <= k < j + Z.of_nat n -> accessible (mem s) (ptr + k) 1 page_writable = true) ->
  exists m, poke_up n ptr j v s = MOk tt (poked m s) /\ bytes_ok m /\ written ptr j (j + Z.of_nat n) v (ram (mem s)) m.
Proof.
  revert j s. induction n as [|n IH]; intros j s Hm Hacc; cbn [poke_up].
  - exists (ram (mem s)). split; [rewrite poked_same; reflexivity|]. split; [exact Hm|]. intros c.
    destruct (Z.leb_spec (ptr + j) c), (Z.ltb_spec c (ptr + (j + Z.of_nat 0))); cbn [andb]; reflexivity || lia.
  - unfold mbindp. rewrite poke_ok by (apply Hacc; lia).
    set (b := lane 8 (15 - j) v). set (m0 := be_store (ram (mem s)) (ptr + j) 1 b).
    destruct (IH (j + 1) (poked m0 s)) as (m & E & Hb & Hw); [apply be_store_ok, Hm| |].
    { intros k Hk. cbn [mem poked with_mem]. rewrite accessible_ram. apply Hacc. lia. }
    exists m. rewrite E, poked_poked. split; [reflexivity|]. split; [exact Hb|]. intros c. rewrite Hw.
    cbn [ram mem poked with_mem with_ram]. unfold m0. rewrite byte_at_poke by (apply lane_range; lia).
    destruct (Z.leb_spec (ptr + (j + 1)) c), (Z.ltb_spec c (ptr + (j + 1 + Z.of_nat n))), (Z.leb_spec (ptr + j) c),
      (Z.ltb_spec c (ptr + (j + Z.of_nat (S n)))), (Z.eqb_spec c (ptr + j)); cbn [andb]; try lia; try reflexivity.
    unfold b. f_equal. lia.
Qed.
Lemma poke_down_ok n ptr i v s :
  bytes_ok (ram (mem s)) -> (forall k, i - Z.of_nat n < k <= i -> accessible (mem s) (ptr + k) 1 page_writable = true) ->
  exists m, poke_down n ptr i v s = MOk tt (poked m s) /\ bytes_ok m /\ written ptr (i + 1 - Z.of_nat n) (i + 1) v (ram (mem s)) m.
Proof.
  revert i s. induction n as [|n IH]; intros i s Hm Hacc; cbn [poke_down].
  - exists (ram (mem s)). split; [rewrite poked_same; reflexivity|]. split; [exact Hm|]. intros c.
    destruct (Z.leb_spec (ptr + (i + 1 - Z.of_nat 0)) c), (Z.ltb_spec c (ptr + (i + 1))); cbn [andb]; reflexivity || lia.
  - unfold mbindp. rewrite poke_ok by (apply Hacc; lia).
    set (b := lane 8 (15 - i) v). set (m0 := be_store (ram (mem s)) (ptr + i) 1 b).
    destruct (IH (i - 1) (poked m0 s)) as (m & E & Hb & Hw); [apply be_store_ok, Hm| |].
    { intros k Hk. cbn [mem poked with_mem]. rewrite accessible_ram. apply Hacc. lia. }
    exists m. rewrite E, poked_poked. split; [reflexivity|]. split; [exact Hb|]. intros c. rewrite Hw.
    cbn [ram mem poked with_mem with_ram]. unfold m0. rewrite byte_at_poke by (apply lane_range; lia).
    destruct (Z.leb_spec (ptr + (i - 1 + 1 - Z.of_nat n)) c), (Z.ltb_spec c (ptr + (i - 1 + 1))), (Z.leb_spec (ptr + (i + 1 - Z.of_nat (S n))) c),
      (Z.ltb_spec c (ptr + (i + 1))), (Z.eqb_spec c (ptr + i)); cbn [andb]; try lia; try reflexivity.
    unfold b. f_equal. lia.
Qed.

(** [stvlx v; stvrx v] *)
Lemma stvlx_stvrx op1 op2 s :
  let x := ea_x op1 s in
  wf s -> x + 16 < 2 ^ 32 -> ea_x op2 s = x + 16 -> vs op2 = vs op1 -> accessible (mem s) x 16 page_writable = true ->
  exists m, (STVLX op1 >> STVRX op2) s = MOk tt (poked m s) /\
    be_load m x 16 = get_vr s (vs op1) /\ forall c, c < x \/ x + 16 <= c -> byte_at m c = byte_at (ram (mem s)) c.
Proof.
  intros x Hs Hx E2 Ev Hacc. pose proof (wrap_range 64 (ra_or_0 op1 s + get s (rb op1)) ltac:(lia) : in_range 64 x) as Hr.
  unfold in_range in Hr. assert (0 <= x mod 16 < 16) as Hn by (Z.div_mod_to_equations; lia).
  assert (forall k, 0 <= k < 16 -> accessible (mem s) (x + k) 1 page_writable = true) as Hk.
  { intros k Hk. replace k with (Z.of_nat (Z.to_nat k)) by lia. apply (accessible_part _ _ 16); [exact Hacc|lia]. }
  set (v := get_vr s (vs op1)). pose proof (wf_ram s Hs) as Hm.
  destruct (poke_up_ok (Z.to_nat (16 - x mod 16)) x 0 v s Hm) as (m1 & E1 & B1 & W1); [intros; apply Hk; lia|].
  destruct (poke_down_ok (Z.to_nat (x mod 16)) x 15 v (poked m1 s) B1) as (m2 & E3 & B2 & W2).
  { intros k Hk'. cbn [mem poked with_mem]. rewrite accessible_ram. apply Hk. lia. }
  assert (STVLX op1 s = MOk tt (poked m1 s)) as L1.
  { unfold STVLX. cbv zeta. rewrite addr_x_ea by exact Hs. fold x. unfold mbindp, vm_cast.
    rewrite wrap_small, Z.eqb_refl, land_low4 by (unfold in_range; lia). exact E1. }
  assert (STVRX op2 (poked m1 s) = MOk tt (poked m2 s)) as L2.
  { unfold STVRX. cbv zeta. rewrite (addr_x_gpr op2 s) by reflexivity. rewrite addr_x_ea, E2 by exact Hs. unfold mbindp, vm_cast.
    replace (x + 16 - 16) with x by lia. rewrite (wrap_small 64), (wrap_small 32), Z.eqb_refl, land_low4 by (unfold in_range; lia).
    replace ((x + 16) mod 16) with (x mod 16) by (Z.div_mod_to_equations; lia).
    change (get_vr (poked m1 s) (vs op2)) with (get_vr s (vs op2)). rewrite Ev. fold v. rewrite E3, poked_poked. reflexivity. }
  exists m2. unfold mbindp. rewrite L1, L2. split; [reflexivity|]. cbn [ram mem poked with_mem with_ram] in W2.
  split.
  - symmetry. apply vector_ext; [exact B2|apply get_vr_range, Hs|]. intros i Hi. rewrite W2, W1.
    destruct (Z.leb_spec (x + (15 + 1 - Z.of_nat (Z.to_nat (x mod 16)))) (x + (15 - i))), (Z.ltb_spec (x + (15 - i)) (x + (15 + 1))),
      (Z.leb_spec (x + 0) (x + (15 - i))), (Z.ltb_spec (x + (15 - i)) (x + (0 + Z.of_nat (Z.to_nat (16 - x mod 16)))));
      cbn [andb]; try lia; f_equal; lia.
  - intros c Hc. rewrite W2, W1.
    destruct (Z.leb_spec (x + (15 + 1 - Z.of_nat (Z.to_nat (x mod 16)))) c), (Z.ltb_spec c (x + (15 + 1))),
      (Z.leb_spec (x + 0) c), (Z.ltb_spec c (x + (0 + Z.of_nat (Z.to_nat (16 - x mod 16)))));
      cbn [andb]; try lia; reflexivity.
Qed.

(** C10: sixteen bytes at any address [x].  With distinct registers, [lvx] at [x] and
    [x + 15], [lvsl] and [vperm] load the sixteen bytes at [x] (both aligned quadwords must be
    readable; at an aligned address they are the same one), and so do [lvlx] at [x], [lvrx] at
    [x + 16] and [vor], where [lvrx] at an aligned address reads the quadword of the current
    instruction instead and ignores it.  [stvlx] at [x] and [stvrx] at [x + 16] write exactly
    the register's sixteen bytes at [x].  The loads change no vector register that the sequence
    does not name, no other register and no memory; they may give up the thread's reservation, as
    [ppu_feed_data] does.  The stores change nothing but those sixteen bytes. *)
Theorem unaligned_vectors cfg s x :
  wf s -> x + 16 < 2 ^ 32 ->
  (forall op1 op2 op3 op4, ea_x op1 s = x -> ea_x op2 s = x + 15 -> ea_x op3 s = x ->
     va op4 = vd op1 -> vb op4 = vd op2 -> vc op4 = vd op3 -> vd op1 <> vd op2 -> vd op1 <> vd op3 -> vd op2 <> vd op3 ->
     accessible (mem s) (x - x mod 16) 16 page_readable = true ->
     accessible (mem s) (x + 15 - (x + 15) mod 16) 16 page_readable = true ->
     exists t, (LVX cfg op1 >> LVX cfg op2 >> modify (LVSL op3) >> modify (Vec.VPERM op4)) s = MOk tt t /\
       get_vr t (vd op4) = be_load (ram (mem s)) x 16 /\ only_vr s t /\
       forall r, reg_ok r -> r <> vd op1 -> r <> vd op2 -> r <> vd op3 -> r <> vd op4 -> get_vr t r = get_vr s r) /\
  (forall op1 op2 op3, ea_x op1 s = x -> ea_x op2 s = x + 16 -> va op3 = vd op1 -> vb op3 = vd op2 -> vd op1 <> vd op2 ->
     accessible (mem s) (x - x mod 16) 16 page_readable = true ->
     (let b := if x mod 16 =? 0 then cia s else x + 16 in accessible (mem s) (b - b mod 16) 16 page_readable = true) ->
     exists t, (LVLX cfg op1 >> LVRX cfg op2 >> modify (Vec.VOR op3)) s = MOk tt t /\
       get_vr t (vd op3) = be_load (ram (mem s)) x 16 /\ only_vr s t /\
       forall r, reg_ok r -> r <> vd op1 -> r <> vd op2 -> r <> vd op3 -> get_vr t r = get_vr s r) /\
  (forall op1 op2, ea_x op1 s = x -> ea_x op2 s = x + 16 -> vs op2 = vs op1 -> accessible (mem s) x 16 page_writable = true ->
     exists m, (STVLX op1 >> STVRX op2) s = MOk tt (poked m s) /\
       be_load m x 16 = get_vr s (vs op1) /\ forall c, c < x \/ x + 16 <= c -> byte_at m c = byte_at (ram (mem s)) c).
Proof.
  intros Hs Hx. split; [|split].
  - intros op1 op2 op3 op4 <- **. apply lvx_lvsl_vperm; auto. lia.
  - intros op1 op2 op3 <- **. apply lvlx_lvrx_vor; auto.
  - intros op1 op2 <- **. apply stvlx_stvrx; auto.
Qed.

(** [lvx v1, 0, r4; lvx v2, 0, r5; lvsl v3, 0, r4; vperm v6, v1, v2, v3] with r4 = 0x10003,
    and the other two sequences with r6 = 0x10013. *)
Lemma unaligned_vectors_witness :
  let s := set 4 0x10003 (set 5 0x10012 (set 6 0x10013 (BarePpu.boot [0x00010203; 0x04050607; 0x08090a0b; 0x0c0d0e0f; 0x10111213]))) in
  let x v r := v * 2 ^ 21 + r * 2 ^ 11 in
  let v612 := 6 * 2 ^ 21 + 1 * 2 ^ 16 + 2 * 2 ^ 11 in
  wf s /\
  (exists t, (LVX BarePpu.cfg (x 1 4) >> LVX BarePpu.cfg (x 2 5) >> modify (LVSL (x 3 4)) >> modify (Vec.VPERM (v612 + 3 * 2 ^ 6))) s
             = MOk tt t /\ get_vr t 6 = 0x030405060708090a0b0c0d0e0f101112) /\
  (exists t, (LVLX BarePpu.cfg (x 1 4) >> LVRX BarePpu.cfg (x 2 6) >> modify (Vec.VOR v612)) s
             = MOk tt t /\ get_vr t 6 = 0x030405060708090a0b0c0d0e0f101112) /\
  (exists m, (STVLX (x 1 4) >> STVRX (x 1 6)) s = MOk tt (poked m s) /\ be_load m 0x10003 16 = 0).
Proof.
  intros s x v612. assert (wf s) as Hs by (do 3 (apply ppu_wf_set; [|unfold in_range; lia]); apply BarePpu.ppu_boot_wf).
  split; [exact Hs|]. destruct (unaligned_vectors BarePpu.cfg s 0x10003 Hs eq_refl) as (H1 & H2 & H3).
  split; [|split].
  - destruct (H1 (x 1 4) (x 2 5) (x 3 4) (v612 + 3 * 2 ^ 6)) as (t & E & Ev & _); [vm_compute; congruence..|].
    exists t. split; [exact E|]. etransitivity; [exact Ev|]. vm_compute. reflexivity.
  - destruct (H2 (x 1 4) (x 2 6) v612) as (t & E & Ev & _); [vm_compute; congruence..|].
    exists t. split; [exact E|]. etransitivity; [exact Ev|]. vm_compute. reflexivity.
  - destruct (H3 (x 1 4) (x 1 6)) as (m & E & Ev & _); [vm_compute; congruence..|].
    exists m. split; [exact E|]. rewrite Ev. vm_compute. reflexivity.
Defined.
